(* ===== verification/_CoqProject ===== *)
-Q . S2P
Prelude.v
Log.v
Z85.v
Queue.v
Locks.v
Actor.v
Zmtp.v
Proxy.v
Conn.v
ConnFacts.v
Inproc.v
Handshake.v
Curve.v
CurveFacts.v
CurveConn.v
CurveHandshake.v
Deadline.v
Sockets.v
SocketFacts.v
PubSub.v
PubFacts.v
CoreSocket.v
CoreFacts.v
Heartbeat.v
Cancel.v
SocketKinds.v
Endpoint.v
SocketDial.v
Mdp.v
Broker.v
BrokerFacts.v
MdpWorker.v
MdpWorkerFacts.v
MdpSession.v
MdpClient.v
MdpClientFacts.v
MdpLifecycle.v
Reader.v
MlmMessage.v
MlmCredit.v
MlmMailbox.v
Glob.v
MlmStream.v
MlmService.v
MlmManagers.v
MlmBroker.v
MlmBrokerFacts.v
MlmServer.v
MlmClient.v
MlmClientFacts.v
MlmSecurity.v
DafkaMessage.v
DafkaStore.v
DafkaStoreFacts.v
DafkaStoreSpec.v
DafkaProducer.v
DafkaProducerFacts.v
DafkaConsumer.v
DafkaConsumerFacts.v
DafkaTower.v
DafkaStop.v
DafkaNodes.v
ZyreMessage.v
Codecs.v
ZyreEvents.v
ZyrePeers.v
ZyrePeersFacts.v
ZyreRuns.v
ZyreLifecycle.v
ZyreSecurity.v
ZyreNode.v
ZyreNodeFacts.v
ZyreEngine.v
ZyreManagers.v
