(* ===== verification/Prelude.v ===== *)
(** * A verification development for zmq4

    zmq4 is a Go implementation of ZeroMQ: ZMTP 3 connections and the socket
    types on top of them, and four messaging systems built on the sockets
    (majordomo, malamute, dafka, zyre). This development models the Go code
    function by function and proves what makes it correct; where the code does
    not do what it means to, a theorem says exactly what it does.

    ** The parts and their files

    - [Prelude] (this file): bytes, big-endian integers, wrap-around at a
      width, Go errors and outcomes ([Ret], [Fail], [Panic]), the state monad
      [M] with [wrapE] ([fmt.Errorf] with [%w]) and [try], map iteration in an
      arbitrary order ([range_order]), maps updated while they are ranged over
      ([sweep]), and two small logics: [keeps] (an
      invariant survives a computation) with its hint database, and [triple]
      (a computation returns, with or without tolerance for fuel).
    - [Log]: src/logging.go.
    - [Z85]: src/z85/z85.go.
    - [Queue]: src/queue.go, the chunked message queue of publishers, and the
      plain FIFO it refines.
    - [Locks]: goroutines that share a read-write lock and wait for each other.
      [Actor]: a goroutine that serves commands from a channel, its callers and
      [Stop], over the class [Server] of what a manager does with a command;
      the managers of malamute, dafka and zyre are its instances.
    - [Zmtp]: src/core_types.go, src/protocol_msg.go and
      src/protocol_zmtp.go: socket types, messages, commands, the greeting,
      metadata properties.
    - [Conn], [ConnFacts]: src/protocol_conn.go and src/security.go: framing,
      sending and receiving, closing, subscriptions. A connection is a record
      of the Go struct's fields and a scripted network connection: the bytes
      that will arrive and those written. A security mechanism is a record of
      operations ([secops]); [Transparent] is the interface of the mechanisms
      that do not encrypt, and the facts about framing are proved against it.
    - [Proxy]: src/proxy.go, forwarding between two sockets.
      [Inproc]: src/internal/inproc, listeners, pipes and connections within
      a process.
    - [Handshake]: the rest of [Open] (greet, init) and src/security/null,
      src/security/plain.
    - [Curve], [CurveFacts], [CurveConn], [CurveHandshake]: src/security/curve:
      keys, nonces, the four handshake commands, encrypted messages, and a
      CURVE connection over [Conn]. The NaCl primitives are a parameter, with
      the laws a box has as named hypotheses and a toy instance that satisfies
      them.
    - [Sockets], [SocketFacts]: the connection pools of src/socket_req.go,
      src/socket_rep.go, src/socket_router.go and src/protocol_msgio.go. Pools
      hold pointers, so connections live in a store that several pools share.
    - [Deadline]: the multi-writer of src/protocol_msgio.go with the error group
      of src/internal/errgroup and contexts whose deadline passes, one [Write]
      at a time; it comes before [Sockets], where a write is one step.
    - [PubSub], [PubFacts]: the pools of src/socket_pub.go, with a heap of
      channels, one per subscriber.
    - [CoreSocket], [CoreFacts]: src/core_socket.go and src/socket_sub.go: the
      generic socket over any pools (class [Pool], the Go interfaces [rpool]
      and [wpool]), the reaper, options, subscriptions and the heartbeat
      manager. [PoolLaws] is what the socket relies on; the five pools
      discharge it and the bookkeeping of sockets is proved against it.
      [Heartbeat]: the notifications and questions to the heartbeat manager.
      [Cancel]: the calls and goroutines of the pools when a context is done.
    - [SocketKinds]: the eleven kinds of socket (src/socket_dealer.go and the
      like) as instances of the interface [Socket] of src/zmq4.go.
      [Endpoint]: src/core_transport.go, src/core_utils.go and
      src/transport/transport.go: the table of transports, endpoints, addresses, identities.
      [SocketDial]: the options of src/core_options.go, and [Listen], [Dial]
      with its retries and automatic reconnection of src/core_socket.go.
    - [Mdp]: src/majordomo/mdp.go, message formats and parsers.
    - [Broker], [BrokerFacts]: src/majordomo/broker.go, every handler over the
      state its mutex protects, workers shared by pointer in a heap.
    - [MdpWorker], [MdpWorkerFacts]: src/majordomo/worker.go, the state
      manager, the message loop and the socket manager; a schedule says when
      the state manager answers. [MdpSession]: the loop in which a worker
      reconnects, with the socket managers of all its sessions, as a step
      relation over channels and locks. [MdpClient], [MdpClientFacts]:
      src/majordomo/client.go, the synchronous and the asynchronous client.
      [MdpLifecycle]: src/majordomo/security.go, and [Start] and [Stop] of a
      worker.
    - [Reader]: the length-prefixed fields, maps and blobs that the codecs of
      malamute, dafka and zyre share, and the class [Wire] of the messages
      that are encoded with them.
    - [MlmMessage]: src/malamute/message.go, the envelope and seven bodies.
    - [MlmCredit], [MlmMailbox], [MlmStream], [MlmService]: src/malamute
      credit.go, mailbox.go, stream.go and service.go, the managers of the
      malamute broker, each over the state its mutex protects; [Glob] is
      [filepath.Match], which streams use for patterns, with the declarative
      matching it implements. [MlmManagers]: their goroutines and callers as
      instances of [Actor].
    - [MlmBroker], [MlmBrokerFacts]: src/malamute/broker.go, the handlers that
      combine the managers, and the client table. [MlmServer]: [Start], [Stop],
      loops and commands of a running broker, an instance of [Actor].
    - [MlmClient], [MlmClientFacts]: src/malamute/client.go. [MlmSecurity]:
      src/malamute/security.go.
    - [DafkaMessage]: src/dafka/message.go and protocol.go.
    - [DafkaStore], [DafkaStoreFacts], [DafkaStoreSpec]: src/dafka/store.go,
      partitions over log files (byte sequences on a disk with limited room),
      reloading, and the abstract log the store refines.
    - [DafkaProducer], [DafkaProducerFacts], [DafkaConsumer],
      [DafkaConsumerFacts], [DafkaTower]: src/dafka/producer.go, consumer.go
      and tower.go.
    - [DafkaStop]: the [Stop] methods of dafka as operations on a lock.
      [DafkaNodes]: the commands of dafka nodes as instances of [Actor], and
      their [Start].
    - [Codecs]: what the codecs of malamute, dafka and zyre promise together.
    - [ZyreMessage]: src/zyre/message.go, protocol.go and the format of
      beacon.go. [ZyreEvents]: src/zyre/event.go, with the array behind the
      slice of listeners.
    - [ZyrePeers], [ZyrePeersFacts], [ZyreRuns]: src/zyre/peer.go, group.go
      and the expiration of discovery.go; peers live in a heap that the
      managers and the groups share.
    - [ZyreLifecycle]: starting and stopping nodes, peers, beacons and engines
      of zyre.
      [ZyreSecurity]: src/zyre/security.go. [ZyreNode], [ZyreNodeFacts]:
      src/zyre/node.go. [ZyreEngine]: src/zyre/discovery.go. [ZyreManagers]:
      the command loops of the group manager, a group, the peer manager and
      the engine.

    ** How Go is modelled

    Integers are [Z] with the wrap-around of their width written out where
    values are stored ([wraps], [wrapu]); [len] is the mathematical length.
    Slices and strings are lists of bytes; maps are [gmap], and code that
    ranges over a map takes the order as a parameter. Errors are values; a
    panic ends the computation and keeps the state it happened in. Mutexes make
    the operations they guard atomic, so concurrency appears as arbitrary
    sequences of operations (histories); a goroutine that loops is modelled by
    one iteration. Clocks, sockets, the case mappings of the string libraries
    and map orders are parameters. Log and trace output is left out, except
    where preparing a log line can panic or change the state.

    ** What the theorems show

    - Wire formats: everything that is encoded is decoded to the same value
      (Z85, commands, greetings, metadata, frames, the messages of majordomo,
      malamute, dafka and zyre, beacons), decoders are canonical where they
      should be, and truncated or oversized input gives the errors or panics
      stated.
    - Connections: messages and commands arrive as sent; the frame loop ends
      on every input; the close callback is called once; two ends that read
      each other's bytes agree on the outcome of the NULL and PLAIN handshakes.
    - CURVE: a client with the server's key and the server complete the
      handshake over commands that carry their name, with the keys of one
      session; over [Conn.SendCmd], which drops the name, no handshake
      succeeds; in a session everything is decrypted to what was sent and no
      nonce is used twice; messages arrive over a connection.
    - Processes: writes to an in-process pipe are read in their order.
    - Command loops: a manager is a sequential object in every interleaving of
      its callers, its goroutines and [Stop] ([actor_linearizes]); calls that
      wait when it stops wait for ever; the invariants of the managers hold in
      all interleavings; the registry of a tower is the map its calls leave.
    - Pools and sockets: a request reaches a REP socket and its reply returns;
      the rotation of REQ; the addressing of ROUTER; broadcast; the filtering
      of PUB; the announcements of SUB; socket and pools agree on their
      connections in every reachable state, through dialing, accepting and
      reconnecting; [Dial] makes the stated number of attempts; endpoints are
      accepted exactly when well formed; heartbeats are not answered; what the
      heartbeat manager knows is what the updates say.
    - Deadlines and cancellation: messages arrive whole and in order as long as
      no deadline passes, and always when they are sent as one write; a deadline
      that passes within a frame lets the next message tear it; a cancelled
      receive returns and loses nothing.
    - Majordomo broker: the bookkeeping invariant over every history, FIFO
      dispatch, divergence when the socket fails, classification of messages.
    - Majordomo worker and clients: a request is answered in the frames the
      broker expects when the state manager keeps up, and what happens when it
      lags; over all sessions no channel is closed twice and no message for the
      broker vanishes unaccounted, but the manager of an old session can end a
      new one; retries; every asynchronous request is answered exactly once, but
      this broker's replies do not reach asynchronous clients.
    - Malamute: patterns match as the glob semantics says; streams deliver to
      the matching subscribers with credit; mailboxes give messages back in
      order and their byte counts are right; no request waits while a worker
      that may take it is idle; the managers of the broker agree about the
      clients in every history and in every interleaving of a running broker's
      callers and loops; no client is granted more than the largest
      window; the requests of a client reach the broker in their order.
    - Dafka: a store, whatever writes fail half-way, answers fetches from the
      log of acknowledged records; a reloaded index is the one that was
      written, for records without headers, and loading ends on every file;
      producers number their records without gaps and a store receives what
      they published; commits reach every partition; [Stop] deadlocks.
    - Zyre: the invariant of peers and groups over every interleaving; the
      group manager implements a membership relation; replaying the ENTER and
      EXIT events gives the peers; events reach every listener in order while
      none is full, and what happens when some are; a message to a group
      reaches its members once; the race of the two expiration checks; which
      peers are admitted; pings; a node never gets past the beacon in [Start].

    ** Fuel

    The frame loop of [Conn_read] recurses with a bound taken from the unread
    bytes, since each iteration consumes at least one; [read_total] proves it
    is enough. The property loop of [Metadata_UnmarshalZMTP] is bounded the
    same way ([UnmarshalZMTP_loop_fuel]), and so is the loop that rebuilds the
    index of a store, by the length of the file ([store_load_total]). The
    dispatch loop of the broker takes fuel: with a socket that accepts, one
    iteration per registered worker is enough ([dispatch_fifo],
    [broker_invariant]); with one that refuses no fuel is
    ([dispatch_diverges]). All other functions are total as written.

    ** Not modelled

    UDP and TCP sockets, the file system and the clock, whose results are
    parameters. The interleaving inside a handler: where a mutex is released and
    taken again within one, the handler is still one step, except in [Deadline]
    and [MdpSession], where the grain is that of the channel, lock and write
    operations. src/cxx_zmq4_compat.go, which is glue to a C library
    behind a build tag; the packages for tests (src/internal/testutil) and the
    examples, which only call what is modelled; [GetPeerCount] of
    src/zyre/discovery.go, whose type assertion the compiler refuses. *)

From Stdlib Require Import Strings.Byte ZArith Lia.
From stdpp Require Import base strings numbers gmap list.

#[local] Open Scope Z_scope.
#[local] Set Default Goal Selector "!".

(** ** Bytes *)

Abbreviation byte := Byte.byte.
Abbreviation bytes := (list Byte.byte).

#[global] Instance byte_eq_dec : EqDecision byte := Byte.byte_eq_dec.

#[global] Instance byte_inhabited : Inhabited byte := populate x00.

#[global] Program Instance byte_countable : Countable byte :=
  inj_countable Byte.to_N Byte.of_N _.
Next Obligation. apply Byte.of_to_N. Qed.

(** The unsigned value of a byte, and Go's truncating conversion [byte(z)]. *)
Definition byte_Z (b : byte) : Z := Z.of_N (Byte.to_N b).

Definition Z_byte (z : Z) : byte :=
  match Byte.of_N (Z.to_N (z mod 256)) with Some b => b | None => x00 end.

(** A Go string literal as the byte sequence it denotes. *)
Definition gs (s : string) : bytes := String.list_byte_of_string s.

(** Go's [len], as the mathematical integer it returns. *)
Definition len {A : Type} (l : list A) : Z := Z.of_nat (length l).

(** ** Errors, outcomes and the state monad *)

(** Go error values. [Sentinel] is a package-level [errors.New] value,
    [NetErr] a value implementing [net.Error] (with its [Timeout()] answer),
    [Errorf] a [fmt.Errorf] without [%w], [Wrap] one with [%w]. The format
    string identifies the error; its arguments are not kept. *)
Inductive error : Type :=
| EOF
| ErrUnexpectedEOF
| Sentinel (name : string)
| NetErr (timeout : bool)
| CtxErr (deadline : bool)
| Errorf (fmt : string)
| Wrap (fmt : string) (e : error).

#[global] Instance error_eq_dec : EqDecision error.
Proof. solve_decision. Defined.

(** [errors.Is(err, io.EOF)] *)
Fixpoint is_EOF (e : error) : bool :=
  match e with EOF => true | Wrap _ e' => is_EOF e' | _ => false end.

(** [errors.As(err, &e)] for a [net.Error]: the answer of its [Timeout()]. *)
Fixpoint as_net_error (e : error) : option bool :=
  match e with
  | NetErr t => Some t
  | Wrap _ e' => as_net_error e'
  | _ => None
  end.

(** The three ways a Go call ends: it returns, it returns a non-nil error, or
    it panics. *)
Inductive outcome (A : Type) : Type :=
| Ret (a : A)
| Fail (e : error)
| Panic (msg : string).
Arguments Ret {A} a.
Arguments Fail {A} e.
Arguments Panic {A} msg.

#[global] Instance outcome_ret : MRet outcome := fun A a => Ret a.
#[global] Instance outcome_bind : MBind outcome := fun A B f m =>
  match m with Ret a => f a | Fail e => Fail e | Panic s => Panic s end.

(** Computations that mutate a state of type [S]: the state survives an
    error, as the fields a Go method has already assigned do. *)
Definition M (S A : Type) : Type := S -> outcome A * S.

#[global] Instance M_ret S : MRet (M S) := fun A a s => (Ret a, s).
#[global] Instance M_bind S : MBind (M S) := fun A B f m s =>
  match m s with
  | (Ret a, s') => f a s'
  | (Fail e, s') => (Fail e, s')
  | (Panic p, s') => (Panic p, s')
  end.

Definition mfail {S A} (e : error) : M S A := fun s => (Fail e, s).
Definition mpanic {S A} (p : string) : M S A := fun s => (Panic p, s).
Definition mget {S} : M S S := fun s => (Ret s, s).
Definition mupd {S} (f : S -> S) : M S unit := fun s => (Ret tt, f s).

(** [fmt.Errorf("...: %w", err)] on the error path of a call. *)
Definition wrapE {S A} (fmt : string) (m : M S A) : M S A := fun s =>
  match m s with
  | (Fail e, s') => (Fail (Wrap fmt e), s')
  | r => r
  end.

(** [x, err := m()]: the error as a value. *)
Definition try {S A} (m : M S A) : M S (A + error) := fun s =>
  match m s with
  | (Ret a, s') => (Ret (inl a), s')
  | (Fail e, s') => (Ret (inr e), s')
  | (Panic p, s') => (Panic p, s')
  end.

(** A computation on the second component of a pair. *)
Definition on_snd {S T A} (m : M T A) : M (S * T) A := fun '(s, t) =>
  let '(r, t') := m t in (r, (s, t')).

Definition upd_fst {S T} (f : S -> S) : M (S * T) unit :=
  mupd (fun '(s, t) => (f s, t)).

(** A computation that only returns, fails or panics, run in a stateful one. *)
Definition lift {S A} (o : outcome A) : M S A := fun s => (o, s).

(** Slice indexing [l[i]] and slice assignment [l[i] = x]: out of range panics. *)
Definition idx {A} (l : list A) (i : nat) : outcome A :=
  match l !! i with Some x => Ret x | None => Panic "index out of range" end.

Definition set_idx {A} (i : nat) (x : A) : M (list A) unit := fun l =>
  if decide (i < length l)%nat then (Ret tt, <[i := x]> l)
  else (Panic "index out of range", l).

(** The values of [i] in [for i := 0; i < n; i += step]. *)
Definition for_range (n step : nat) : list nat :=
  (fun k => k * step)%nat <$> seq 0 ((n + step - 1) / step).

(** ** Big-endian integers ([encoding/binary]) *)

Fixpoint be_put (n : nat) (z : Z) : bytes :=
  match n with
  | O => []
  | S k => Z_byte (z / 256 ^ Z.of_nat k) :: be_put k z
  end.

Definition be_get (l : bytes) : Z :=
  foldl (fun acc b => acc * 256 + byte_Z b) 0 l.

(** [binary.LittleEndian.PutUint64] and [Uint64] *)
Definition le_put (n : nat) (z : Z) : bytes := rev (be_put n z).
Definition le_get (l : bytes) : Z := be_get (rev l).

(** [fmt.Sprintf("%x", b)], which is also [hex.EncodeToString(b)] *)
Definition hex_digit (n : Z) : byte := Z_byte (if n <? 10 then 48 + n else 87 + n).
Definition fmt_x (b : bytes) : bytes :=
  b ≫= fun c => [hex_digit (byte_Z c / 16); hex_digit (byte_Z c mod 16)].

(** [hex.DecodeString(s)]: both cases of the digits; an odd digit at the end
    is reported as an invalid byte first, as a bad length otherwise. *)
Definition hex_value (b : byte) : option Z :=
  let z := byte_Z b in
  if (48 <=? z) && (z <=? 57) then Some (z - 48)
  else if (97 <=? z) && (z <=? 102) then Some (z - 87)
  else if (65 <=? z) && (z <=? 70) then Some (z - 55)
  else None.

Definition errHexByte : error := Sentinel "encoding/hex: invalid byte".
Definition errHexLength : error := Sentinel "encoding/hex: odd length hex string".

Fixpoint hex_DecodeString (s : bytes) : outcome bytes :=
  match s with
  | [] => Ret []
  | [a] => Fail (match hex_value a with None => errHexByte | Some _ => errHexLength end)
  | a :: b :: s' =>
      match hex_value a, hex_value b with
      | Some x, Some y => r ← hex_DecodeString s'; Ret (Z_byte (x * 16 + y) :: r)
      | _, _ => Fail errHexByte
      end
  end.

(** Unsigned and two's complement wrap-around at width [w]. *)
Definition wrapu (w z : Z) : Z := z mod 2 ^ w.
Definition wraps (w z : Z) : Z := (z + 2 ^ (w - 1)) mod 2 ^ w - 2 ^ (w - 1).

(** ** [bytes.Reader]: the unread suffix of its slice *)

(** [ReadByte] *)
Definition rd_byte : M bytes byte := fun r =>
  match r with [] => (Fail EOF, []) | b :: r' => (Ret b, r') end.

(** [Read] into a zeroed buffer of [n] bytes. An exhausted reader gives EOF
    even when [n = 0]; a short reader fills a prefix and reports no error. *)
Definition rd_read (n : nat) : M bytes bytes := fun r =>
  match r with
  | [] => (Fail EOF, [])
  | _ => (Ret (take n r ++ replicate (n - length r) x00), drop n r)
  end.

(** [io.ReadFull], which [binary.Read] uses. *)
Definition rd_full (n : nat) : M bytes bytes := fun r =>
  if decide (n = 0%nat) then (Ret [], r)
  else match r with
  | [] => (Fail EOF, [])
  | _ => if decide (n <= length r)%nat then (Ret (take n r), drop n r)
         else (Fail ErrUnexpectedEOF, [])
  end.

Definition rd_uint (n : nat) : M bytes Z := x ← rd_full n; mret (be_get x).

(** ** Lemmas on bytes *)

Lemma byte_Z_range (b : byte) : 0 <= byte_Z b < 256.
Proof. unfold byte_Z. pose proof (Byte.to_N_bounded b). lia. Qed.

Lemma byte_Z_Z_byte (z : Z) : byte_Z (Z_byte z) = z mod 256.
Proof.
  unfold Z_byte, byte_Z. pose proof (Z.mod_pos_bound z 256 eq_refl) as Hz.
  destruct (Byte.of_N (Z.to_N (z mod 256))) as [b|] eqn:E.
  - apply Byte.to_of_N in E. rewrite E. lia.
  - apply Byte.of_N_None_iff in E. lia.
Qed.

Lemma Z_byte_byte_Z (b : byte) : Z_byte (byte_Z b) = b.
Proof.
  unfold Z_byte, byte_Z. rewrite Z.mod_small by apply (byte_Z_range b).
  by rewrite N2Z.id, Byte.of_to_N.
Qed.

Lemma byte_Z_inj (a b : byte) : byte_Z a = byte_Z b → a = b.
Proof. intros H. by rewrite <- (Z_byte_byte_Z a), H, Z_byte_byte_Z. Qed.

Lemma Z_byte_mod (z : Z) : Z_byte (z mod 256) = Z_byte z.
Proof. unfold Z_byte. by rewrite Z.mod_mod by lia. Qed.

Lemma Z_byte_small_inj (a b : Z) :
  0 <= a < 256 → 0 <= b < 256 → Z_byte a = Z_byte b → a = b.
Proof.
  intros Ha Hb H. apply (f_equal byte_Z) in H. rewrite !byte_Z_Z_byte in H.
  by rewrite !Z.mod_small in H.
Qed.

Lemma len_nonneg {A} (l : list A) : 0 <= len l.
Proof. unfold len. lia. Qed.

Lemma len_app {A} (l k : list A) : len (l ++ k) = len l + len k.
Proof. unfold len. rewrite length_app. lia. Qed.

Lemma len_cons {A} (x : A) (l : list A) : len (x :: l) = len l + 1.
Proof. unfold len. simpl. lia. Qed.

Lemma len_nil_iff {A} (l : list A) : len l = 0 ↔ l = [].
Proof. unfold len. destruct l; simpl; split; intros; [done|done|lia|done]. Qed.

Lemma len_to_nat {A} (l : list A) : Z.to_nat (len l) = length l.
Proof. unfold len. lia. Qed.

(** ** Lemmas on big-endian integers *)

Lemma length_be_put n z : length (be_put n z) = n.
Proof. induction n as [|n IH]; simpl; [done|by rewrite IH]. Qed.

Lemma len_be_put n z : len (be_put n z) = Z.of_nat n.
Proof. unfold len. by rewrite length_be_put. Qed.

Lemma be_get_snoc l b : be_get (l ++ [b]) = be_get l * 256 + byte_Z b.
Proof. unfold be_get. by rewrite foldl_app. Qed.

Lemma foldl_be_shift l acc :
  foldl (fun acc b => acc * 256 + byte_Z b) acc l = acc * 256 ^ len l + be_get l.
Proof.
  induction l as [|b l IH] using rev_ind.
  - unfold be_get, len. simpl. lia.
  - rewrite foldl_app, be_get_snoc, len_app. simpl.
    rewrite IH, Z.pow_add_r by apply len_nonneg. change (len [b]) with 1. lia.
Qed.

Lemma be_get_cons b l : be_get (b :: l) = byte_Z b * 256 ^ len l + be_get l.
Proof. unfold be_get at 1. simpl. rewrite foldl_be_shift. lia. Qed.

Lemma be_get_range l : 0 <= be_get l < 256 ^ len l.
Proof.
  induction l as [|b l IH]; [done|].
  rewrite be_get_cons, len_cons, Z.pow_add_r by (pose proof (len_nonneg l); lia).
  pose proof (byte_Z_range b). nia.
Qed.

Lemma be_get_put n z : be_get (be_put n z) = z mod 256 ^ Z.of_nat n.
Proof.
  induction n as [|n IH]; [by rewrite Z.mod_1_r|].
  cbn [be_put]. rewrite be_get_cons, IH, byte_Z_Z_byte. unfold len.
  rewrite length_be_put, Nat2Z.inj_succ, Z.pow_succ_r by lia.
  rewrite (Z.mul_comm 256), Z.rem_mul_r by lia. lia.
Qed.

Lemma be_get_put_small n z : 0 <= z < 256 ^ Z.of_nat n → be_get (be_put n z) = z.
Proof. intros. by rewrite be_get_put, Z.mod_small. Qed.

Lemma be_put_get l : be_put (length l) (be_get l) = l.
Proof.
  induction l as [|b l IH]; [done|].
  assert (Hsh : ∀ n k z, be_put n (k * 256 ^ Z.of_nat n + z) = be_put n z).
  { clear. induction n as [|n IH]; intros k z; [done|]. cbn [be_put]. f_equal.
    - rewrite Nat2Z.inj_succ, Z.pow_succ_r, Z.mul_assoc by lia.
      rewrite Z.div_add_l by lia.
      rewrite <- (Z_byte_mod (k * 256 + _)), Z.add_comm, Z.mod_add by lia.
      apply Z_byte_mod.
    - rewrite Nat2Z.inj_succ, Z.pow_succ_r, Z.mul_assoc by lia. apply IH. }
  cbn [length be_put]. rewrite be_get_cons. f_equal.
  - rewrite Z.div_add_l by lia. fold (len l).
    rewrite (Z.div_small (be_get l)) by apply be_get_range.
    by rewrite Z.add_0_r, Z_byte_byte_Z.
  - unfold len. by rewrite Hsh.
Qed.

Lemma length_le_put n z : length (le_put n z) = n.
Proof. unfold le_put. by rewrite length_rev, length_be_put. Qed.

Lemma le_get_put_small n z : 0 <= z < 256 ^ Z.of_nat n → le_get (le_put n z) = z.
Proof. intros H. unfold le_get, le_put. rewrite rev_involutive. by apply be_get_put_small. Qed.

Lemma le_put_get l : le_put (length l) (le_get l) = l.
Proof.
  unfold le_get, le_put. rewrite <- length_rev, be_put_get. apply rev_involutive.
Qed.

Lemma hex_value_digit (n : Z) : 0 <= n < 16 → hex_value (hex_digit n) = Some n.
Proof.
  intros H. assert (n ∈ seqZ 0 16) as Hin by (rewrite elem_of_seqZ; lia).
  clear H. revert n Hin. apply Forall_forall.
  apply (bool_decide_unpack (Forall (fun n => hex_value (hex_digit n) = Some n) (seqZ 0 16))).
  vm_compute. exact I.
Qed.

Lemma hex_decode_encode b : hex_DecodeString (fmt_x b) = Ret b.
Proof.
  induction b as [|c b IH]; [done|]. cbn [fmt_x mbind list_bind app hex_DecodeString].
  pose proof (byte_Z_range c).
  rewrite !hex_value_digit by (split; [first [apply Z.div_pos|apply Z.mod_pos_bound]|
    first [apply Z.div_lt_upper_bound|apply Z.mod_pos_bound]]; lia).
  change (mbind _ b) with (fmt_x b). rewrite IH. cbn. f_equal. f_equal.
  rewrite <- (Z_byte_byte_Z c) at 3. f_equal. rewrite (Z.div_mod (byte_Z c) 16) at 3 by lia. lia.
Qed.

Lemma wraps_small w z : 0 < w → - 2 ^ (w - 1) <= z < 2 ^ (w - 1) → wraps w z = z.
Proof.
  intros Hw Hz. unfold wraps.
  assert (2 ^ w = 2 * 2 ^ (w - 1)) by (rewrite <- Z.pow_succ_r by lia; f_equal; lia).
  rewrite Z.mod_small; lia.
Qed.

Lemma wraps_range w z : 0 < w → - 2 ^ (w - 1) <= wraps w z < 2 ^ (w - 1).
Proof.
  intros Hw. unfold wraps.
  assert (2 ^ w = 2 * 2 ^ (w - 1)) by (rewrite <- Z.pow_succ_r by lia; f_equal; lia).
  pose proof (Z.mod_pos_bound (z + 2 ^ (w - 1)) (2 ^ w) ltac:(lia)). lia.
Qed.

Lemma wraps_wrapu w z :
  0 < w → - 2 ^ (w - 1) <= z < 2 ^ (w - 1) → wraps w (z mod 2 ^ w) = z.
Proof.
  intros Hw Hz. rewrite <- (wraps_small w z) at 2 by done.
  unfold wraps. by rewrite Z.add_mod_idemp_l by lia.
Qed.

(** ** Lemmas on readers *)

Lemma rd_read_app n x r :
  length x = n → x ++ r ≠ [] → rd_read n (x ++ r) = (Ret x, r).
Proof.
  intros <- Hne. unfold rd_read. destruct (x ++ r) eqn:E; [done|].
  rewrite <- E, take_app_length, drop_app_length, length_app.
  by replace (length x - (length x + length r))%nat with 0%nat by lia;
    rewrite app_nil_r.
Qed.

Lemma rd_full_app n x r : length x = n → rd_full n (x ++ r) = (Ret x, r).
Proof.
  intros <-. unfold rd_full. case_decide as H.
  - destruct x; [done|simpl in H; lia].
  - destruct (x ++ r) eqn:E; [destruct x; simplify_list_eq; simpl in H; lia|].
    rewrite <- E, decide_True by (rewrite length_app; lia).
    by rewrite take_app_length, drop_app_length.
Qed.

Lemma rd_uint_put n z r :
  0 <= z < 256 ^ Z.of_nat n → rd_uint n (be_put n z ++ r) = (Ret z, r).
Proof.
  intros Hz. unfold rd_uint, mbind, M_bind.
  rewrite rd_full_app by apply length_be_put. simpl. by rewrite be_get_put_small.
Qed.

(** ** Lemmas on indexing *)

Lemma idx_app_r {A} (p l : list A) k x : l !! k = Some x → idx (p ++ l) (length p + k) = Ret x.
Proof. intros H. unfold idx. by rewrite lookup_app_r, Nat.add_sub', H by lia. Qed.

Lemma set_idx_app_r {A} (p l : list A) k x :
  (k < length l)%nat → set_idx (length p + k) x (p ++ l) = (Ret tt, p ++ <[k := x]> l).
Proof.
  intros H. unfold set_idx. rewrite decide_True by (rewrite length_app; lia).
  by rewrite insert_app_r.
Qed.

Lemma for_range_mult (k step : nat) :
  (0 < step)%nat → for_range (k * step) step = (fun i => i * step)%nat <$> seq 0 k.
Proof.
  intros H. unfold for_range. do 2 f_equal.
  replace (k * step + step - 1)%nat with ((step - 1) + k * step)%nat by lia.
  rewrite Nat.div_add, Nat.div_small by lia. lia.
Qed.

(** [x<<n | y] is an addition when [y] fits in [n] bits. *)
Lemma lor_shiftl_add x y n : 0 <= n → 0 <= y < 2 ^ n → Z.lor (Z.shiftl x n) y = x * 2 ^ n + y.
Proof.
  intros Hn Hy. rewrite <- Z.shiftl_mul_pow2 by done. symmetry. apply Z.add_nocarry_lor.
  apply Z.bits_inj'. intros i Hi. rewrite Z.land_spec, Z.bits_0.
  destruct (Z.lt_ge_cases i n).
  - by rewrite Z.shiftl_spec_low.
  - destruct (decide (y = 0)) as [->|]; [by rewrite Z.bits_0, andb_false_r|].
    assert (Z.log2 y < n) by (apply Z.log2_lt_pow2; lia).
    by rewrite (Z.bits_above_log2 y i), andb_false_r by lia.
Qed.

(** Running a bind whose first computation is known to return. *)
Lemma M_bind_ret {S A B} (m : M S A) (f : A -> M S B) s a s' :
  m s = (Ret a, s') → mbind f m s = f a s'.
Proof. intros H. unfold mbind, M_bind. by rewrite H. Qed.

Lemma M_bind_fail {S A B} (m : M S A) (f : A -> M S B) s e s' :
  m s = (Fail e, s') → mbind f m s = (Fail e, s').
Proof. intros H. unfold mbind, M_bind. by rewrite H. Qed.

Lemma wrapE_ret {S A} fmt (m : M S A) s a s' :
  m s = (Ret a, s') → wrapE fmt m s = (Ret a, s').
Proof. intros H. unfold wrapE. by rewrite H. Qed.

Lemma on_snd_ret {S T A} (m : M T A) (s : S) t a t' :
  m t = (Ret a, t') → on_snd m (s, t) = (Ret a, (s, t')).
Proof. intros H. unfold on_snd. by rewrite H. Qed.

(** [mstep t] runs the first computation of a bind, whose result [t] proves. *)
Tactic Notation "mstep" tactic3(t) :=
  refine (eq_trans (M_bind_ret _ _ _ _ _ _) _); [solve [t]|cbv beta iota].

Lemma lift_ret {S A} (o : outcome A) (a : A) (s : S) : o = Ret a → lift o s = (Ret a, s).
Proof. by intros ->. Qed.

(** Inverting a bind of outcomes that returns. *)
Lemma outcome_bind_Ret {A B} (f : A → outcome B) (o : outcome A) b :
  mbind f o = Ret b → ∃ a, o = Ret a ∧ f a = Ret b.
Proof. destruct o; [eauto|done..]. Qed.

(** [obind H as x Hx]: [H : mbind f o = Ret b] becomes [Hx : o = Ret x] and
    [H : f x = Ret b]. *)
Tactic Notation "obind" hyp(H) "as" simple_intropattern(x) ident(Hx) :=
  apply outcome_bind_Ret in H; destruct H as (x & Hx & H).

(** ** Maps built by insertion *)

Section map_insertion.
Context `{Countable K} {V : Type}.

Lemma foldl_insert_union (l : list (K * V)) (m : gmap K V) :
  NoDup l.*1 → foldl (fun m kv => <[kv.1 := kv.2]> m) m l = list_to_map l ∪ m.
Proof.
  revert m. induction l as [|[k v] l IH]; intros m Hnd; simpl.
  - by rewrite (left_id_L ∅ (∪)).
  - apply NoDup_cons in Hnd as [Hk Hnd]. rewrite IH by done.
    rewrite <- insert_union_r by (by apply not_elem_of_list_to_map_1).
    by rewrite insert_union_l.
Qed.

(** The order of insertion does not matter when the keys are distinct. *)
Lemma foldl_insert_perm (l l' : list (K * V)) :
  NoDup l.*1 → l ≡ₚ l' →
  foldl (fun m kv => <[kv.1 := kv.2]> m) (∅ : gmap K V) l = list_to_map l'.
Proof.
  intros Hnd Hp. rewrite foldl_insert_union, (right_id_L ∅ (∪)) by done.
  by apply list_to_map_proper.
Qed.

(** An iteration order of a Go map: [range] visits each entry once. *)
Definition range_order (range : gmap K V → list (K * V)) : Prop :=
  ∀ m, range m ≡ₚ map_to_list m.

Lemma map_to_list_range_order : range_order map_to_list.
Proof. by intros m. Qed.

Lemma range_order_NoDup range m : range_order range → NoDup (range m).*1.
Proof. intros Hr. rewrite (Hr m). apply NoDup_fst_map_to_list. Qed.

Lemma range_order_elem range m k v : range_order range → (k, v) ∈ range m ↔ m !! k = Some v.
Proof. intros Hr. rewrite (Hr m). apply elem_of_map_to_list. Qed.

Lemma range_order_vals range m v : range_order range → v ∈ (range m).*2 ↔ ∃ k, m !! k = Some v.
Proof.
  intros Hr. rewrite list_elem_of_fmap. split.
  - intros ([k v'] & -> & Hk%range_order_elem); [|done]. by exists k.
  - intros [k Hk]. exists (k, v). split; [done|]. by apply range_order_elem.
Qed.

Lemma range_order_insert range (m : gmap K V) :
  range_order range → foldl (fun m kv => <[kv.1 := kv.2]> m) (∅ : gmap K V) (range m) = m.
Proof.
  intros Hr. rewrite (foldl_insert_perm _ (map_to_list m)).
  - apply list_to_map_to_list.
  - by apply range_order_NoDup.
  - apply Hr.
Qed.

Lemma range_order_length range m : range_order range → length (range m) = size m.
Proof. intros Hr. rewrite (Hr m). apply length_map_to_list. Qed.

(** A loop over a Go map that replaces or deletes the entry it visits:
    [f k v] is the entry's new value, [None] deletes it. *)
Definition sweep (f : K → V → option V) (l : list (K * V)) (m : gmap K V) : gmap K V :=
  foldl (fun m kv => match f kv.1 kv.2 with Some v => <[kv.1 := v]> m | None => delete kv.1 m end) m l.

Lemma sweep_lookup_aux f l m k :
  NoDup l.*1 → sweep f l m !! k = match list_to_map (M := gmap K V) l !! k with Some v => f k v | None => m !! k end.
Proof.
  revert m. induction l as [|[k' v'] l IH]; intros m Hnd; [done|].
  apply NoDup_cons in Hnd as [Hk Hnd]. cbn [fst] in Hk. cbn [sweep foldl fst snd list_to_map foldr].
  fold (sweep f l (match f k' v' with Some v => <[k' := v]> m | None => delete k' m end)). rewrite IH by done.
  fold (list_to_map (M := gmap K V) l). destruct (decide (k' = k)) as [->|Hne]; cbn.
  - rewrite lookup_insert_eq, (not_elem_of_list_to_map_1 l k) by done.
    destruct (f k v'); [apply lookup_insert_eq|apply lookup_delete_eq].
  - rewrite lookup_insert_ne by done.
    destruct (f k' v'); [by rewrite lookup_insert_ne|by rewrite lookup_delete_ne].
Qed.

(** The result of such a loop does not depend on the iteration order. *)
Lemma sweep_lookup range f m k :
  range_order range → sweep f (range m) m !! k = m !! k ≫= f k.
Proof.
  intros Hr. rewrite sweep_lookup_aux by (by apply range_order_NoDup).
  rewrite (list_to_map_proper (range m) (map_to_list m)), list_to_map_to_list;
    [|by apply range_order_NoDup|apply Hr].
  destruct (m !! k); done.
Qed.

Lemma sweep_dom range f m :
  range_order range → dom (sweep f (range m) m) ⊆ dom m.
Proof.
  intros Hr k. rewrite !elem_of_dom, sweep_lookup by done. destruct (m !! k); cbn; [by eexists|by intros []].
Qed.

Lemma sweep_size range f m :
  range_order range → (size (sweep f (range m) m) <= size m)%nat.
Proof. intros Hr. rewrite <- !size_dom. by apply subseteq_size, sweep_dom. Qed.

Lemma sweep_Forall range f m (P Q : K → V → Prop) :
  range_order range → map_Forall P m → (∀ k v v', P k v → f k v = Some v' → Q k v') →
  map_Forall Q (sweep f (range m) m).
Proof.
  intros Hr Hm Hf k v'. rewrite sweep_lookup by done. destruct (m !! k) as [v|] eqn:E; cbn; [|done].
  apply Hf. by apply Hm.
Qed.
End map_insertion.

#[global] Arguments sweep : simpl never.

(** ** Invariants of computations *)

(** [keeps P m]: whatever way [m] ends, it leaves a state satisfying [P]. *)
Definition keeps {S A} (P : S → Prop) (m : M S A) : Prop := ∀ s, P s → P (m s).2.

Create HintDb keeps.

Section keeps.
Context {S : Type} (P : S → Prop).

Lemma keeps_ret {A} (a : A) : keeps P (mret a).
Proof. by intros s. Qed.
Lemma keeps_fail {A} e : keeps P (mfail (A := A) e).
Proof. by intros s. Qed.
Lemma keeps_panic {A} p : keeps P (mpanic (A := A) p).
Proof. by intros s. Qed.
Lemma keeps_get : keeps P mget.
Proof. by intros s. Qed.
Lemma keeps_lift {A} (o : outcome A) : keeps P (lift o).
Proof. by intros s. Qed.
Lemma keeps_upd f : (∀ s, P s → P (f s)) → keeps P (mupd f).
Proof. intros H s. apply H. Qed.
Lemma keeps_bind {A B} (m : M S A) (f : A → M S B) :
  keeps P m → (∀ a, keeps P (f a)) → keeps P (mbind f m).
Proof.
  intros Hm Hf s Hs. unfold mbind, M_bind. specialize (Hm s Hs).
  destruct (m s) as [[a| |] s']; [by apply Hf|done..].
Qed.
Lemma keeps_wrapE {A} fmt (m : M S A) : keeps P m → keeps P (wrapE fmt m).
Proof. intros Hm s Hs. unfold wrapE. specialize (Hm s Hs). by destruct (m s) as [[| |] ?]. Qed.
Lemma keeps_try {A} (m : M S A) : keeps P m → keeps P (try m).
Proof. intros Hm s Hs. unfold try. specialize (Hm s Hs). by destruct (m s) as [[| |] ?]. Qed.
End keeps.

#[export] Hint Resolve keeps_ret keeps_fail keeps_panic keeps_get keeps_lift : keeps.

(** Decompose a computation and try the hints on its parts. *)
Ltac keeps_tac :=
  repeat first
    [ progress intros
    | solve [eauto with keeps]
    | apply keeps_bind
    | apply keeps_wrapE
    | apply keeps_try
    | case_match ].

(** ** Triples *)

(** [triple F P m Q]: from a state satisfying [P], [m] returns and establishes
    [Q]. It neither fails nor panics; only if [F] holds may it run out of
    fuel. *)
Definition triple (F : Prop) {S A} (P : S → Prop) (m : M S A) (Q : A → S → Prop) : Prop :=
  ∀ s, P s →
  match m s with
  | (Ret a, s') => Q a s'
  | (Fail _, _) => False
  | (Panic p, _) => F ∧ p = "out of fuel"%string
  end.

Section triples.
Context {S : Type} {F : Prop}.
Implicit Types P : S → Prop.

Lemma triple_ret {A} P (a : A) : triple F P (mret a) (fun x s => x = a ∧ P s).
Proof. by intros s Hs. Qed.
Lemma triple_get P : triple F P mget (fun s' s => s' = s ∧ P s).
Proof. by intros s Hs. Qed.
Lemma triple_fuel {A} P Q : F → triple F (A := A) P (mpanic "out of fuel") Q.
Proof. by intros HF s Hs. Qed.
Lemma triple_bind {A B} P (m : M S A) (f : A → M S B) R Q :
  triple F P m R → (∀ a, triple F (R a) (f a) Q) → triple F P (mbind f m) Q.
Proof.
  intros Hm Hf s Hs. unfold mbind, M_bind. specialize (Hm s Hs).
  destruct (m s) as [[a| |] s']; [by apply Hf|done..].
Qed.
Lemma triple_conseq {A} P P' (m : M S A) Q Q' :
  triple F P' m Q' → (∀ s, P s → P' s) → (∀ a s, Q' a s → Q a s) → triple F P m Q.
Proof.
  intros Hm HP HQ s Hs. specialize (Hm s (HP s Hs)). destruct (m s) as [[a| |] s']; [by apply HQ|done..].
Qed.
(** A pure fact in the precondition. *)
Lemma triple_pure {A} (φ : Prop) P (m : M S A) Q : (φ → triple F P m Q) → triple F (fun s => φ ∧ P s) m Q.
Proof. intros H s [Hφ Hs]. by apply H. Qed.
(** What [m] keeps can be added on both sides. *)
Lemma triple_keeps {A} P I (m : M S A) Q :
  triple F P m Q → keeps I m → triple F (fun s => P s ∧ I s) m (fun a s => Q a s ∧ I s).
Proof.
  intros Hm HI s [Hs Hi]. specialize (Hm s Hs). specialize (HI s Hi). by destruct (m s) as [[a| |] s'].
Qed.
End triples.
