(* ===== verification/Log.v ===== *)
(** * Log: loggers with levels (src/logging.go)

    A logger hands a line to the [log.Logger] under it when the level of the
    call is enabled; what that does with the line (time stamp, writer) is the
    standard library's. Arguments are kept as they are passed. *)

From Stdlib Require Import ZArith Lia.
From stdpp Require Import base strings numbers list.
From S2P Require Import Prelude.

#[local] Open Scope Z_scope.
#[local] Set Default Goal Selector "!".

(** ** Levels *)

(** [LogLevel] is an [int]. *)
Definition LogLevelError : Z := 0.
Definition LogLevelWarn : Z := 1.
Definition LogLevelInfo : Z := 2.
Definition LogLevelDebug : Z := 3.
Definition LogLevelTrace : Z := 4.

Definition LogLevel_String (l : Z) : string :=
  if decide (l = LogLevelError) then "ERROR"
  else if decide (l = LogLevelWarn) then "WARN"
  else if decide (l = LogLevelInfo) then "INFO"
  else if decide (l = LogLevelDebug) then "DEBUG"
  else if decide (l = LogLevelTrace) then "TRACE"
  else "UNKNOWN".

(** ** Loggers *)

(** [lg_lines]: the calls of [Printf] that the logger under it received. *)
Record Logger (A : Type) : Type := mkLogger { lg_level : Z; lg_lines : list (string * list A) }.
Arguments mkLogger {A}. Arguments lg_level {A}. Arguments lg_lines {A}.

Section logger.
Context {A : Type}.
Implicit Types (l : Logger A) (args : list A).

Definition NewLoggerWithWriter (level : Z) : Logger A := mkLogger level [].
Definition NewLogger (level : Z) : Logger A := NewLoggerWithWriter level.
Definition SetLevel (level : Z) l : Logger A := mkLogger level (lg_lines l).
Definition GetLevel l : Z := lg_level l.
Definition IsEnabled (level : Z) l : bool := level <=? lg_level l.
Definition Printf (format : string) args l : Logger A := mkLogger (lg_level l) (lg_lines l ++ [(format, args)]).

Definition Logger_Error (format : string) args l : Logger A := if IsEnabled LogLevelError l then Printf ("[ERROR] " ++ format) args l else l.
Definition Logger_Warn (format : string) args l : Logger A := if IsEnabled LogLevelWarn l then Printf ("[WARN] " ++ format) args l else l.
Definition Logger_Info (format : string) args l : Logger A := if IsEnabled LogLevelInfo l then Printf ("[INFO] " ++ format) args l else l.
Definition Logger_Debug (format : string) args l : Logger A := if IsEnabled LogLevelDebug l then Printf ("[DEBUG] " ++ format) args l else l.
Definition Logger_Trace (format : string) args l : Logger A := if IsEnabled LogLevelTrace l then Printf ("[TRACE] " ++ format) args l else l.

(** ** What is printed *)

Inductive log_op : Type := LogSetLevel (level : Z) | LogError (format : string) args | LogWarn (format : string) args
| LogInfo (format : string) args | LogDebug (format : string) args | LogTrace (format : string) args.

Definition log_do l (op : log_op) : Logger A :=
  match op with
  | LogSetLevel level => SetLevel level l
  | LogError f a => Logger_Error f a l
  | LogWarn f a => Logger_Warn f a l
  | LogInfo f a => Logger_Info f a l
  | LogDebug f a => Logger_Debug f a l
  | LogTrace f a => Logger_Trace f a l
  end.

(** The call as a level, a format and arguments. *)
Definition log_call (op : log_op) : option (Z * string * list A) :=
  match op with
  | LogSetLevel _ => None
  | LogError f a => Some (LogLevelError, f, a)
  | LogWarn f a => Some (LogLevelWarn, f, a)
  | LogInfo f a => Some (LogLevelInfo, f, a)
  | LogDebug f a => Some (LogLevelDebug, f, a)
  | LogTrace f a => Some (LogLevelTrace, f, a)
  end.

(** The reference: each call is looked at with the level set last before it. *)
Fixpoint printed (level : Z) (ops : list log_op) : list (string * list A) :=
  match ops with
  | [] => []
  | LogSetLevel level' :: rest => printed level' rest
  | op :: rest =>
      match log_call op with
      | Some (lv, f, a) => if decide (lv <= level) then [(("[" ++ LogLevel_String lv ++ "] " ++ f)%string, a)] else []
      | None => []
      end ++ printed level rest
  end.

(** Whatever the levels that are set, a logger prints exactly the calls whose
    level is at most the one set last before them, in order, each marked with the
    name of its level. *)
Theorem logger_prints (level : Z) (ops : list log_op) :
  lg_lines (foldl log_do (NewLogger level) ops) = printed level ops.
Proof.
  change (printed level ops) with (lg_lines (NewLogger level) ++ printed (lg_level (NewLogger level)) ops).
  generalize (NewLogger level). induction ops as [|op ops IH]; intros l; cbn [foldl]; [by rewrite app_nil_r|].
  rewrite IH. destruct op; cbn [log_do printed log_call]; [done|..];
    unfold Logger_Error, Logger_Warn, Logger_Info, Logger_Debug, Logger_Trace, IsEnabled, Printf;
    case_decide; (rewrite (proj2 (Z.leb_le _ _)) by done) || (rewrite (proj2 (Z.leb_gt _ _)) by lia); cbn; by rewrite <- ?app_assoc.
Qed.
End logger.
