(* ===== verification/Z85.v ===== *)
(** * Z85: the ZeroMQ Base-85 codec (src/z85/z85.go)

    [Encode] and [Decode] work on a destination buffer, the state of the
    computation; their loops run over the indices of the Go [for] statements.
    A chunk-wise reference codec, [enc_ref] and [dec_ref], is the
    specification the loops are proved to implement; the round trips are
    proved on the reference and transferred. *)

From Stdlib Require Import Strings.Byte ZArith Lia.
From stdpp Require Import base strings numbers list.
From S2P Require Import Prelude.

#[local] Open Scope Z_scope.
#[local] Set Default Goal Selector "!".

Definition EncodedLen (n : Z) : Z := Z.quot (wraps 64 (n * 5)) 4.
Definition DecodedLen (n : Z) : Z := Z.quot (wraps 64 (n * 4)) 5.

Definition ErrInvalidLength : error := Sentinel "z85: invalid input length".
Definition ErrInvalidChar : error := Sentinel "z85: invalid character".

Definition alphabet : bytes :=
  gs "0123456789abcdefghijklmnopqrstuvwxyzABCDEFGHIJKLMNOPQRSTUVWXYZ.-:+=^!/*?&<>()[]{}@%$#".

Definition decoder : list Z := [
  255; 255; 255; 255; 255; 255; 255; 255; 255; 255; 255; 255; 255; 255; 255; 255;
  255; 255; 255; 255; 255; 255; 255; 255; 255; 255; 255; 255; 255; 255; 255; 255;
  255; 68;  255; 84;  83;  82;  72;  255; 75;  76;  70;  65;  255; 63;  62;  69;
  0;   1;   2;   3;   4;   5;   6;   7;   8;   9;   64;  255; 73;  66;  74;  71;
  81;  36;  37;  38;  39;  40;  41;  42;  43;  44;  45;  46;  47;  48;  49;  50;
  51;  52;  53;  54;  55;  56;  57;  58;  59;  60;  61;  77;  255; 78;  67;  255;
  255; 10;  11;  12;  13;  14;  15;  16;  17;  18;  19;  20;  21;  22;  23;  24;
  25;  26;  27;  28;  29;  30;  31;  32;  33;  34;  35;  79;  255; 80;  255; 255;
  255; 255; 255; 255; 255; 255; 255; 255; 255; 255; 255; 255; 255; 255; 255; 255;
  255; 255; 255; 255; 255; 255; 255; 255; 255; 255; 255; 255; 255; 255; 255; 255;
  255; 255; 255; 255; 255; 255; 255; 255; 255; 255; 255; 255; 255; 255; 255; 255;
  255; 255; 255; 255; 255; 255; 255; 255; 255; 255; 255; 255; 255; 255; 255; 255;
  255; 255; 255; 255; 255; 255; 255; 255; 255; 255; 255; 255; 255; 255; 255; 255;
  255; 255; 255; 255; 255; 255; 255; 255; 255; 255; 255; 255; 255; 255; 255; 255;
  255; 255; 255; 255; 255; 255; 255; 255; 255; 255; 255; 255; 255; 255; 255; 255;
  255; 255; 255; 255; 255; 255; 255; 255; 255; 255; 255; 255; 255; 255; 255; 255
].

(** The 32-bit big-endian value of the four bytes at [si]. *)
Definition Encode_value (src : bytes) (si : nat) : outcome Z :=
  b0 ← idx src si; b1 ← idx src (si + 1); b2 ← idx src (si + 2); b3 ← idx src (si + 3);
  Ret (Z.lor (Z.lor (Z.lor (Z.shiftl (byte_Z b0) 24) (Z.shiftl (byte_Z b1) 16))
                    (Z.shiftl (byte_Z b2) 8)) (byte_Z b3)).

(** [dst[i] = alphabet[value%85]] *)
Definition put_digit (i : nat) (value : Z) : M bytes unit :=
  c ← lift (idx alphabet (Z.to_nat (value mod 85))); set_idx i c.

Fixpoint Encode_loop (sis : list nat) (src : bytes) (di : nat) : M bytes unit :=
  match sis with
  | [] => mret tt
  | si :: sis' =>
      value ← lift (Encode_value src si);
      put_digit (di + 4) value;;
      let value := value / 85 in
      put_digit (di + 3) value;;
      let value := value / 85 in
      put_digit (di + 2) value;;
      let value := value / 85 in
      put_digit (di + 1) value;;
      let value := value / 85 in
      put_digit di value;;
      Encode_loop sis' src (di + 5)
  end.

Definition Encode (src : bytes) : M bytes unit :=
  if decide (Z.rem (len src) 4 ≠ 0) then
    mfail (Wrap "source length not divisible by 4" ErrInvalidLength)
  else dst ← mget;
  if decide (len dst < EncodedLen (len src)) then
    mfail (Errorf "z85: destination buffer too small")
  else Encode_loop (for_range (length src) 4) src 0.

(** [make([]byte, n)] *)
Definition make_bytes (n : Z) : bytes := replicate (Z.to_nat n) x00.

Definition EncodeToString (src : bytes) : outcome bytes :=
  if decide (Z.rem (len src) 4 ≠ 0) then
    Fail (Wrap "source length not divisible by 4" ErrInvalidLength)
  else
    let '(r, dst) := Encode src (make_bytes (EncodedLen (len src))) in
    _ ← r; Ret dst.

(** The inner loop of [Decode]: five characters to a value. *)
Fixpoint Decode_chars (js : list nat) (src : bytes) (si : nat) (value : Z) : outcome Z :=
  match js with
  | [] => Ret value
  | i :: js' =>
      char ← idx src (si + i);
      if decide (128 <= byte_Z char) then
        Fail (Wrap "character at position" ErrInvalidChar)
      else
        charValue ← idx decoder (Z.to_nat (byte_Z char));
        if decide (charValue = 255) then
          Fail (Wrap "character at position" ErrInvalidChar)
        else Decode_chars js' src si (wrapu 64 (value * 85 + charValue))
  end.

Fixpoint Decode_loop (sis : list nat) (src : bytes) (di : nat) : M bytes Z :=
  match sis with
  | [] => mret (Z.of_nat di)
  | si :: sis' =>
      value ← lift (Decode_chars (for_range 5 1) src si 0);
      if decide (0xFFFFFFFF < value) then
        mfail (Errorf "z85: decoded value overflow at position")
      else
        set_idx di (Z_byte (Z.shiftr value 24));;
        set_idx (di + 1) (Z_byte (Z.shiftr value 16));;
        set_idx (di + 2) (Z_byte (Z.shiftr value 8));;
        set_idx (di + 3) (Z_byte value);;
        Decode_loop sis' src (di + 4)
  end.

Definition Decode (src : bytes) : M bytes Z :=
  if decide (Z.rem (len src) 5 ≠ 0) then
    mfail (Wrap "source length not divisible by 5" ErrInvalidLength)
  else dst ← mget;
  if decide (len dst < DecodedLen (len src)) then
    mfail (Errorf "z85: destination buffer too small")
  else Decode_loop (for_range (length src) 5) src 0.

Definition DecodeString (s : bytes) : outcome bytes :=
  if decide (Z.rem (len s) 5 ≠ 0) then
    Fail (Wrap "source length not divisible by 5" ErrInvalidLength)
  else
    let '(r, dst) := Decode s (make_bytes (DecodedLen (len s))) in
    n ← r;
    if decide (n <= len dst) then Ret (take (Z.to_nat n) dst)
    else Panic "slice bounds out of range".

Fixpoint ValidateString_loop (s : bytes) : outcome unit :=
  match s with
  | [] => Ret tt
  | char :: s' =>
      if decide (128 <= byte_Z char) then
        Fail (Wrap "character at position" ErrInvalidChar)
      else
        charValue ← idx decoder (Z.to_nat (byte_Z char));
        if decide (charValue = 255) then
          Fail (Wrap "character at position" ErrInvalidChar)
        else ValidateString_loop s'
  end.

Definition ValidateString (s : bytes) : outcome unit :=
  if decide (Z.rem (len s) 5 ≠ 0) then
    Fail (Wrap "length not divisible by 5" ErrInvalidLength)
  else ValidateString_loop s.

Example rfc_vector :
  EncodeToString [x86; x4f; xd2; x6f; xb5; x59; xf7; x5b] = Ret (gs "HelloWorld") /\
  DecodeString (gs "HelloWorld") = Ret [x86; x4f; xd2; x6f; xb5; x59; xf7; x5b].
Proof. split; vm_compute; reflexivity. Qed.

(** ** The reference codec *)

(** The character of a base-85 digit, and the digit of a character. *)
Definition digit_char (z : Z) : byte := alphabet !!! Z.to_nat (z mod 85).

Definition char_digit (c : byte) : outcome Z :=
  if decide (128 <= byte_Z c) then Fail (Wrap "character at position" ErrInvalidChar)
  else
    v ← idx decoder (Z.to_nat (byte_Z c));
    if decide (v = 255) then Fail (Wrap "character at position" ErrInvalidChar)
    else Ret v.

Definition digits5 (v : Z) : bytes :=
  [digit_char (v / 85 / 85 / 85 / 85); digit_char (v / 85 / 85 / 85);
   digit_char (v / 85 / 85); digit_char (v / 85); digit_char v].

Fixpoint enc_ref (src : bytes) : bytes :=
  match src with
  | a :: b :: c :: d :: rest => digits5 (be_get [a; b; c; d]) ++ enc_ref rest
  | _ => []
  end.

Fixpoint chars_value (cs : bytes) (acc : Z) : outcome Z :=
  match cs with
  | [] => Ret acc
  | c :: cs' => d ← char_digit c; chars_value cs' (acc * 85 + d)
  end.

Definition group_value (cs : bytes) : outcome Z :=
  v ← chars_value cs 0;
  if decide (0xFFFFFFFF < v) then Fail (Errorf "z85: decoded value overflow at position")
  else Ret v.

Fixpoint dec_ref (s : bytes) : outcome bytes :=
  match s with
  | a :: b :: c :: d :: e :: rest =>
      v ← group_value [a; b; c; d; e];
      out ← dec_ref rest;
      Ret (be_put 4 v ++ out)
  | _ => Ret []
  end.

(** ** Digits and characters are inverse *)

Lemma char_digit_table :
  forallb (fun z => match char_digit (digit_char z) with Ret d => d =? z | _ => false end)
          (seqZ 0 85) = true.
Proof. vm_compute. reflexivity. Qed.

Lemma char_digit_of_digit z : char_digit (digit_char z) = Ret (z mod 85).
Proof.
  pose proof (Z.mod_pos_bound z 85 eq_refl) as Hz.
  pose proof char_digit_table as H. rewrite forallb_forall in H.
  specialize (H (z mod 85)). rewrite <- list_elem_of_In, elem_of_seqZ in H.
  assert (Hm : digit_char (z mod 85) = digit_char z).
  { unfold digit_char. by rewrite Z.mod_mod by lia. }
  rewrite Hm in H. destruct (char_digit _); [|specialize (H ltac:(lia)); done..].
  f_equal. apply Z.eqb_eq, H. lia.
Qed.

Lemma digit_char_table :
  forallb (fun z => match char_digit (Z_byte z) with
                    | Ret d => bool_decide ((0 <= d /\ d < 85) /\ digit_char d = Z_byte z)
                    | _ => true
                    end) (seqZ 0 256) = true.
Proof. vm_compute. reflexivity. Qed.

Lemma digit_char_of_char c d : char_digit c = Ret d → 0 <= d < 85 /\ digit_char d = c.
Proof.
  intros H. pose proof digit_char_table as Ht. rewrite forallb_forall in Ht.
  specialize (Ht (byte_Z c)). rewrite <- list_elem_of_In, elem_of_seqZ, Z_byte_byte_Z, H in Ht.
  pose proof (byte_Z_range c).
  specialize (Ht ltac:(lia)). by apply bool_decide_eq_true in Ht.
Qed.

Lemma chars_value_bound cs acc v :
  chars_value cs acc = Ret v → 0 <= acc →
  acc * 85 ^ len cs <= v < (acc + 1) * 85 ^ len cs.
Proof.
  revert acc. induction cs as [|c cs IH]; intros acc H Hacc; cbn [chars_value] in H.
  - injection H as <-. unfold len. simpl. lia.
  - destruct (char_digit c) as [d| |] eqn:E; try discriminate. simpl in H.
    apply digit_char_of_char in E as [Hd _].
    rewrite len_cons, Z.pow_add_r by (pose proof (len_nonneg cs); lia).
    specialize (IH _ H ltac:(lia)). pose proof (Z.pow_pos_nonneg 85 (len cs) ltac:(lia) (len_nonneg cs)).
    nia.
Qed.

(** A value below 2^32 is recovered from its five digits. *)
Lemma group_value_digits5 v : 0 <= v < 2 ^ 32 → group_value (digits5 v) = Ret v.
Proof.
  intros Hv. unfold group_value, digits5. cbn [chars_value].
  rewrite !char_digit_of_digit. cbn [mbind outcome_bind].
  set (a := v / 85). set (b := a / 85). set (c := b / 85). set (d := c / 85).
  pose proof (Z.div_mod v 85 ltac:(lia)). pose proof (Z.div_mod a 85 ltac:(lia)).
  pose proof (Z.div_mod b 85 ltac:(lia)). pose proof (Z.div_mod c 85 ltac:(lia)).
  fold a in H. fold b in H0. fold c in H1. fold d in H2.
  assert (0 <= d < 85).
  { subst a b c d. rewrite !Z.div_div by lia. split; [apply Z.div_pos; lia|].
    apply Z.div_lt_upper_bound; lia. }
  rewrite (Z.mod_small d) by lia.
  assert (((((0 * 85 + d) * 85 + c mod 85) * 85 + b mod 85) * 85 + a mod 85) * 85 + v mod 85 = v) as -> by lia.
  by rewrite decide_False by lia.
Qed.

(** Conversely five valid characters are the digits of their value. *)
Lemma digits5_group_value a b c d e v :
  group_value [a; b; c; d; e] = Ret v → digits5 v = [a; b; c; d; e] /\ 0 <= v < 2 ^ 32.
Proof.
  unfold group_value. cbn [chars_value]. intros H.
  destruct (char_digit a) as [da| |] eqn:Ea; try discriminate.
  destruct (char_digit b) as [db| |] eqn:Eb; try discriminate.
  destruct (char_digit c) as [dc| |] eqn:Ec; try discriminate.
  destruct (char_digit d) as [dd| |] eqn:Ed; try discriminate.
  destruct (char_digit e) as [de| |] eqn:Ee; try discriminate.
  cbn [mbind outcome_bind] in H. case_decide; [discriminate|]. injection H as <-.
  apply digit_char_of_char in Ea as [Ra <-], Eb as [Rb <-], Ec as [Rc <-], Ed as [Rd <-], Ee as [Re <-].
  split; [|lia]. unfold digits5, digit_char.
  assert (Hs : forall x y, 0 <= y < 85 -> (x * 85 + y) / 85 = x /\ (x * 85 + y) mod 85 = y).
  { intros x y Hy. rewrite Z.div_add_l, Z.div_small, Z.add_0_r, Z.add_comm, Z.mod_add, Z.mod_small by lia. done. }
  rewrite !(proj1 (Hs _ _ Re)), !(proj1 (Hs _ _ Rd)), !(proj1 (Hs _ _ Rc)), !(proj1 (Hs _ _ Rb)).
  rewrite (proj2 (Hs _ _ Re)), (proj2 (Hs _ _ Rd)), (proj2 (Hs _ _ Rc)), (proj2 (Hs _ _ Rb)).
  simpl. by rewrite !(Z.mod_small _ 85) by lia.
Qed.

(** ** The loops implement the reference codec *)

Lemma Encode_value_at pre a b c d rest :
  Encode_value (pre ++ a :: b :: c :: d :: rest) (length pre) = Ret (be_get [a; b; c; d]).
Proof.
  unfold Encode_value. rewrite <- (Nat.add_0_r (length pre)) at 1.
  rewrite (idx_app_r pre _ 0 a), (idx_app_r pre _ 1 b), (idx_app_r pre _ 2 c), (idx_app_r pre _ 3 d) by done.
  cbn [mbind outcome_bind]. f_equal.
  pose proof (byte_Z_range a). pose proof (byte_Z_range b).
  pose proof (byte_Z_range c). pose proof (byte_Z_range d).
  rewrite <- !Z.lor_assoc, (lor_shiftl_add (byte_Z c)), (lor_shiftl_add (byte_Z b)),
    (lor_shiftl_add (byte_Z a)) by lia.
  rewrite !be_get_cons. unfold len. cbn [length]. change (be_get []) with 0. lia.
Qed.

Lemma put_digit_at pre l k v :
  (k < length l)%nat →
  put_digit (length pre + k) v (pre ++ l) = (Ret tt, pre ++ <[k := digit_char v]> l).
Proof.
  intros Hk. unfold put_digit.
  assert (idx alphabet (Z.to_nat (v mod 85)) = Ret (digit_char v)) as ->.
  { unfold idx, digit_char. pose proof (Z.mod_pos_bound v 85 eq_refl).
    destruct (alphabet !! Z.to_nat (v mod 85)) eqn:E.
    - by rewrite (list_lookup_total_correct _ _ _ E).
    - apply lookup_ge_None in E. assert (length alphabet = 85%nat) by reflexivity. lia. }
  by rewrite <- set_idx_app_r by done.
Qed.

Lemma seq_shift_fmap (p n s : nat) :
  (fun i => p + i * s)%nat <$> seq 1 n = (fun i => (p + s) + i * s)%nat <$> seq 0 n.
Proof.
  rewrite <- fmap_S_seq, <- list_fmap_compose. apply list_fmap_ext. intros i x _. simpl. lia.
Qed.

Lemma Encode_loop_ref n : forall pre src dn todo,
  length src = (n * 4)%nat → (n * 5 <= length todo)%nat →
  Encode_loop ((fun i => length pre + i * 4)%nat <$> seq 0 n) (pre ++ src) (length dn) (dn ++ todo)
  = (Ret tt, dn ++ enc_ref src ++ drop (n * 5) todo).
Proof.
  induction n as [|n IH]; intros pre src dn todo Hs Ht.
  - destruct src; [|discriminate]. by rewrite drop_0.
  - do 4 (destruct src as [|? src]; [discriminate|]).
    do 5 (destruct todo as [|? todo]; [simpl in Ht; lia|]).
    cbn [seq fmap list_fmap Encode_loop]. rewrite seq_shift_fmap, Nat.mul_0_l, Nat.add_0_r.
    mstep (apply lift_ret, Encode_value_at).
    do 4 mstep (apply put_digit_at; simpl; lia).
    mstep (rewrite <- (Nat.add_0_r (length dn)); apply put_digit_at; simpl; lia).
    specialize (IH (pre ++ [b; b0; b1; b2]) src
      (dn ++ digits5 (be_get [b; b0; b1; b2])) todo ltac:(simpl in Hs; lia) ltac:(simpl in Ht; lia)).
    rewrite !length_app, <- !app_assoc in IH. cbn [length digits5 app] in IH.
    etransitivity; [exact IH|]. cbn [enc_ref]. by rewrite <- !app_assoc.
Qed.

Lemma Decode_chars_ref pre cs : forall k acc rest,
  (k <= length cs)%nat → (len cs <= 5) → 0 <= acc < 85 ^ Z.of_nat k →
  Decode_chars (seq k (length cs - k)) (pre ++ cs ++ rest) (length pre) acc
  = chars_value (drop k cs) acc.
Proof.
  intros k acc rest Hk Hlen. remember (length cs - k)%nat as m eqn:Em.
  revert k acc Hk Em. induction m as [|m IH]; intros k acc Hk Em Hacc; cbn [seq Decode_chars].
  - by rewrite drop_ge by lia.
  - destruct (lookup_lt_is_Some_2 cs k ltac:(lia)) as [c Hc].
    rewrite (drop_S _ _ _ Hc). cbn [chars_value].
    rewrite (idx_app_r pre (cs ++ rest) k c) by (rewrite lookup_app_l by lia; done).
    cbn [mbind outcome_bind]. unfold char_digit. case_decide; [done|].
    destruct (idx decoder _) as [d| |] eqn:Ed; try done. cbn [mbind outcome_bind].
    case_decide; [done|].
    assert (Hcd : char_digit c = Ret d).
    { unfold char_digit. rewrite decide_False by lia. rewrite Ed. cbn. by rewrite decide_False. }
    apply digit_char_of_char in Hcd as [Hd _].
    assert (Hk4 : Z.of_nat k <= 4) by (unfold len in Hlen; lia).
    assert (85 ^ Z.of_nat k <= 85 ^ 4) by (apply Z.pow_le_mono_r; lia).
    unfold wrapu. rewrite Z.mod_small by lia. apply IH; [lia..|].
    rewrite Nat2Z.inj_succ, Z.pow_succ_r by lia. nia.
Qed.

Lemma Z_byte_shifts v :
  0 <= v < 2 ^ 32 →
  [Z_byte (Z.shiftr v 24); Z_byte (Z.shiftr v 16); Z_byte (Z.shiftr v 8); Z_byte v] = be_put 4 v.
Proof.
  intros Hv. rewrite !Z.shiftr_div_pow2 by lia. cbn [be_put].
  change (256 ^ Z.of_nat 0) with 1. rewrite Z.div_1_r. reflexivity.
Qed.

(** [Decode_loop] on success writes the reference decoding after [dn] and
    returns the next index; on failure it fails with the reference's error. *)
Lemma Decode_loop_ref n : forall pre src dn todo,
  length src = (n * 5)%nat → (n * 4 <= length todo)%nat →
  let r := Decode_loop ((fun i => length pre + i * 5)%nat <$> seq 0 n) (pre ++ src)
             (length dn) (dn ++ todo) in
  match dec_ref src with
  | Ret out => length out = (n * 4)%nat ∧
      r = (Ret (Z.of_nat (length dn + n * 4)), dn ++ out ++ drop (n * 4) todo)
  | Fail e => fst r = Fail e
  | Panic p => fst r = Panic p
  end.
Proof.
  induction n as [|n IH]; intros pre src dn todo Hs Ht r; subst r.
  - destruct src; [|discriminate]. rewrite drop_0, Nat.add_0_r. done.
  - do 5 (destruct src as [|? src]; [discriminate|]).
    do 4 (destruct todo as [|? todo]; [simpl in Ht; lia|]).
    cbn [seq fmap list_fmap Decode_loop]. rewrite seq_shift_fmap, Nat.mul_0_l, Nat.add_0_r.
    cbn [dec_ref]. unfold group_value.
    pose proof (Decode_chars_ref pre [b; b0; b1; b2; b3] 0 0 src ltac:(simpl; lia) ltac:(done) ltac:(simpl; lia)) as Hc.
    cbn [length drop Nat.sub app] in Hc. change (seq 0 5) with (for_range 5 1) in Hc.
    rewrite Hc. destruct (chars_value _ 0) as [v| |] eqn:Ev; [|done..].
    pose proof (chars_value_bound _ _ _ Ev ltac:(lia)) as Hv.
    rewrite (M_bind_ret _ _ _ v (dn ++ b4 :: b5 :: b6 :: b7 :: todo)) by done.
    cbn [mbind outcome_bind]. case_decide as Hov; [done|].
    assert (Hset : forall K : M bytes Z,
      (set_idx (length dn) (Z_byte (Z.shiftr v 24));; set_idx (length dn + 1) (Z_byte (Z.shiftr v 16));;
       set_idx (length dn + 2) (Z_byte (Z.shiftr v 8));; set_idx (length dn + 3) (Z_byte v);; K)
        (dn ++ b4 :: b5 :: b6 :: b7 :: todo)
      = K (dn ++ be_put 4 v ++ todo)).
    { intros K. rewrite <- (Z_byte_shifts v) by lia.
      mstep (rewrite <- (Nat.add_0_r (length dn)); apply set_idx_app_r; simpl; lia).
      do 3 mstep (apply set_idx_app_r; simpl; lia). reflexivity. }
    rewrite Hset. clear Hset.
    specialize (IH (pre ++ [b; b0; b1; b2; b3]) src (dn ++ be_put 4 v) todo
      ltac:(simpl in Hs; lia) ltac:(simpl in Ht; lia)).
    rewrite !length_app, length_be_put, <- !app_assoc in IH.
    destruct (dec_ref src) as [out| |]; cbn [mbind outcome_bind].
    + destruct IH as [Hl IH]. split; [rewrite length_app; simpl; lia|].
      etransitivity; [exact IH|]. f_equal; [do 2 f_equal; lia|by rewrite <- !app_assoc].
    + exact IH.
    + exact IH.
Qed.

(** ** Lengths *)

Lemma EncodedLen_mult k : 0 <= k < 2 ^ 58 → EncodedLen (k * 4) = k * 5.
Proof.
  intros Hk. unfold EncodedLen. rewrite wraps_small by lia.
  replace (k * 4 * 5) with (k * 5 * 4) by lia. by rewrite Z.quot_mul by lia.
Qed.

Lemma DecodedLen_mult k : 0 <= k < 2 ^ 58 → DecodedLen (k * 5) = k * 4.
Proof.
  intros Hk. unfold DecodedLen. rewrite wraps_small by lia.
  replace (k * 5 * 4) with (k * 4 * 5) by lia. by rewrite Z.quot_mul by lia.
Qed.

Lemma len_mult {A} (l : list A) (m : nat) :
  (0 < m)%nat → Z.rem (len l) (Z.of_nat m) = 0 → ∃ k, length l = (k * m)%nat ∧ len l = Z.of_nat k * Z.of_nat m.
Proof.
  intros Hm H. unfold len in *. exists (length l / m)%nat.
  rewrite Z.rem_mod_nonneg in H by lia.
  rewrite <- Nat2Z.inj_mod in H.
  pose proof (Nat.div_mod_eq (length l) m). split; [lia|]. rewrite <- Nat2Z.inj_mul. lia.
Qed.

Lemma length_enc_ref n : forall src, length src = (n * 4)%nat → length (enc_ref src) = (n * 5)%nat.
Proof.
  induction n as [|n IH]; intros src H.
  - by destruct src.
  - do 4 (destruct src as [|? src]; [discriminate|]). cbn [enc_ref]. rewrite length_app.
    simpl. rewrite IH; [done|simpl in H; lia].
Qed.

(** ** Round trips of the reference codec *)

Lemma dec_enc_ref n : forall src, length src = (n * 4)%nat → dec_ref (enc_ref src) = Ret src.
Proof.
  induction n as [|n IH]; intros src H.
  - by destruct src.
  - do 4 (destruct src as [|? src]; [discriminate|]). cbn [enc_ref digits5 app dec_ref].
    fold (digits5 (be_get [b; b0; b1; b2])).
    rewrite group_value_digits5 by apply (be_get_range [b; b0; b1; b2]).
    cbn [mbind outcome_bind]. rewrite IH by (simpl in H; lia). cbn [mbind outcome_bind].
    change 4%nat with (length [b; b0; b1; b2]). by rewrite be_put_get.
Qed.

Lemma enc_dec_ref n : forall s out,
  length s = (n * 5)%nat → dec_ref s = Ret out → enc_ref out = s.
Proof.
  induction n as [|n IH]; intros s out H Hd.
  - destruct s; [|discriminate]. by injection Hd as <-.
  - do 5 (destruct s as [|? s]; [discriminate|]). cbn [dec_ref] in Hd.
    destruct (group_value _) as [v| |] eqn:Ev; try discriminate.
    destruct (dec_ref s) as [out'| |] eqn:Eo; try discriminate. injection Hd as <-.
    apply digits5_group_value in Ev as [Hv Hr].
    change (be_put 4 v ++ out') with
      (Z_byte (v / 256 ^ 3) :: Z_byte (v / 256 ^ 2) :: Z_byte (v / 256 ^ 1) :: Z_byte (v / 256 ^ 0) :: out').
    cbn [enc_ref]. change [_; _; _; _] with (be_put 4 v).
    rewrite be_get_put_small by apply Hr. rewrite Hv, (IH s out'); [done|simpl in H; lia|done].
Qed.

(** ** The functions of the package *)

Lemma EncodeToString_ref src :
  len src < 2 ^ 58 → Z.rem (len src) 4 = 0 → EncodeToString src = Ret (enc_ref src).
Proof.
  intros Hb Hm. unfold EncodeToString, Encode, make_bytes.
  rewrite decide_False by (intros H; by apply H).
  destruct (len_mult src 4 ltac:(lia) Hm) as (k & Hk & Hl).
  assert (Hlen : EncodedLen (len src) = Z.of_nat (k * 5)).
  { rewrite Hl, EncodedLen_mult; lia. }
  rewrite Hlen, Nat2Z.id, decide_False by (intros H; by apply H).
  unfold mget, mbind at 1, M_bind at 1.
  rewrite decide_False by (unfold len; rewrite length_replicate; lia). rewrite Hk, for_range_mult by lia.
  pose proof (Encode_loop_ref k [] src [] (replicate (k * 5) x00) Hk
    ltac:(rewrite length_replicate; lia)) as He.
  cbn [length app Nat.add] in He. rewrite He, drop_ge by (rewrite length_replicate; lia).
  by rewrite app_nil_r.
Qed.

Lemma DecodeString_ref s :
  len s < 2 ^ 60 → Z.rem (len s) 5 = 0 → DecodeString s = dec_ref s.
Proof.
  intros Hb Hm. unfold DecodeString, Decode, make_bytes.
  rewrite decide_False by (intros H; by apply H).
  destruct (len_mult s 5 ltac:(lia) Hm) as (k & Hk & Hl).
  assert (Hlen : DecodedLen (len s) = Z.of_nat (k * 4)).
  { rewrite Hl, DecodedLen_mult; lia. }
  rewrite Hlen, Nat2Z.id, decide_False by (intros H; by apply H).
  unfold mget, mbind at 1, M_bind at 1.
  rewrite decide_False by (unfold len; rewrite length_replicate; lia). rewrite Hk, for_range_mult by lia.
  pose proof (Decode_loop_ref k [] s [] (replicate (k * 4) x00) Hk
    ltac:(rewrite length_replicate; lia)) as Hd.
  cbn [length app Nat.add] in Hd. destruct (dec_ref s) as [out| |].
  - destruct Hd as [Ho Hd]. rewrite Hd, drop_ge, app_nil_r by (rewrite length_replicate; lia).
    cbn [mbind outcome_bind]. unfold len. rewrite Ho, decide_True by lia.
    by rewrite Nat2Z.id, take_ge by lia.
  - destruct (Decode_loop _ _ _ _) as [r d]. simpl in Hd. by subst.
  - destruct (Decode_loop _ _ _ _) as [r d]. simpl in Hd. by subst.
Qed.

Lemma ValidateString_loop_digits s :
  ValidateString_loop s = Ret tt ↔ Forall (fun c => ∃ d, char_digit c = Ret d) s.
Proof.
  induction s as [|c s IH]; [split; [constructor|done]|].
  rewrite Forall_cons_iff, <- IH. cbn [ValidateString_loop]. unfold char_digit.
  case_decide; [split; [done|intros [[? ?] ?]; done]|].
  destruct (idx decoder _) as [v| |]; cbn [mbind outcome_bind];
    [|split; [done|intros [[? ?] ?]; done]..].
  case_decide; [split; [done|intros [[? ?] ?]; done]|].
  split; [eauto|by intros [_ H']].
Qed.

Lemma chars_value_digits cs acc :
  Forall (fun c => ∃ d, char_digit c = Ret d) cs → ∃ v, chars_value cs acc = Ret v.
Proof.
  intros H. revert acc. induction H as [|c cs [d Hd] _ IH]; intros acc; cbn [chars_value]; [eauto|].
  rewrite Hd. apply IH.
Qed.

Lemma dec_ref_digits n : forall s, length s = (n * 5)%nat →
  Forall (fun c => ∃ d, char_digit c = Ret d) s →
  (∃ out, dec_ref s = Ret out) ∨ dec_ref s = Fail (Errorf "z85: decoded value overflow at position").
Proof.
  induction n as [|n IH]; intros s Hl Hs.
  - destruct s; [|discriminate]. left. eauto.
  - do 5 (destruct s as [|? s]; [discriminate|]). cbn [dec_ref]. unfold group_value.
    change (b :: b0 :: b1 :: b2 :: b3 :: s) with ([b; b0; b1; b2; b3] ++ s) in Hs.
    apply Forall_app in Hs as [H5 Hs].
    destruct (chars_value_digits _ 0 H5) as [v ->]. cbn [mbind outcome_bind].
    case_decide; [by right|]. cbn [mbind outcome_bind].
    destruct (IH s ltac:(simpl in Hl; lia) Hs) as [[out ->]| ->]; [left; eauto|by right].
Qed.

Lemma enc_ref_digits n : forall out, (length out <= n)%nat →
  Forall (fun c => ∃ d, char_digit c = Ret d) (enc_ref out).
Proof.
  induction n as [|n IH]; intros out Hl; destruct out as [|a [|b [|c [|d rest]]]];
    simpl in Hl; try lia; cbn [enc_ref]; try constructor.
  - eauto using char_digit_of_digit.
  - repeat (constructor; [eauto using char_digit_of_digit|]). apply IH. lia.
Qed.

Lemma dec_ref_Ret_digits n : forall s out, length s = (n * 5)%nat →
  dec_ref s = Ret out → Forall (fun c => ∃ d, char_digit c = Ret d) s.
Proof.
  intros s out Hl Hd. rewrite <- (enc_dec_ref n s out Hl Hd). by apply (enc_ref_digits (length out)).
Qed.

(** ** Properties *)

(** Round trip: every byte string whose length is a multiple of four is
    encoded to a string five quarters as long, and [DecodeString] of that
    string is the original, for every length a Go slice can have (the bound
    keeps [n*5] inside an [int]). *)
Lemma z85_roundtrip (src : bytes) :
  len src < 2 ^ 58 → Z.rem (len src) 4 = 0 →
  ∃ s, EncodeToString src = Ret s ∧ len s * 4 = len src * 5 ∧ DecodeString s = Ret src.
Proof.
  intros Hb Hm. destruct (len_mult src 4 ltac:(lia) Hm) as (k & Hk & Hl).
  pose proof (length_enc_ref k src Hk) as He.
  exists (enc_ref src). split; [by apply EncodeToString_ref|].
  assert (Hlen : len (enc_ref src) = Z.of_nat k * 5) by (unfold len; rewrite He; lia).
  split; [lia|]. rewrite DecodeString_ref; [by apply (dec_enc_ref k)|lia|].
  rewrite Hlen. apply Z.rem_mul. lia.
Qed.

Lemma z85_roundtrip_witness :
  ∃ s, EncodeToString [x00; xff; x10; x7f] = Ret s ∧ len s * 4 = 4 * 5 ∧
       DecodeString s = Ret [x00; xff; x10; x7f].
Proof. apply (z85_roundtrip [x00; xff; x10; x7f]); reflexivity. Defined.

(** Canonicity: a string that [DecodeString] accepts is the encoding of
    what it decodes to, so no two strings decode to the same bytes. *)
Lemma z85_decode_canonical (s out : bytes) :
  len s < 2 ^ 58 → DecodeString s = Ret out → EncodeToString out = Ret s.
Proof.
  intros Hb Hd. destruct (decide (Z.rem (len s) 5 = 0)) as [Hm|Hm].
  2: { unfold DecodeString in Hd. by rewrite decide_True in Hd. }
  destruct (len_mult s 5 ltac:(lia) Hm) as (k & Hk & Hl).
  rewrite DecodeString_ref in Hd by (done || lia).
  pose proof (Decode_loop_ref k [] s [] (replicate (k * 4) x00) Hk
    ltac:(rewrite length_replicate; lia)) as Hlen.
  rewrite Hd in Hlen. destruct Hlen as [Hlen _].
  rewrite EncodeToString_ref; [by rewrite (enc_dec_ref k s out)| |].
  - unfold len in *. rewrite Hlen. lia.
  - unfold len. rewrite Hlen, Nat2Z.inj_mul. apply Z.rem_mul. lia.
Qed.

Lemma z85_decode_canonical_witness :
  EncodeToString [x86; x4f; xd2; x6f] = Ret (gs "Hello").
Proof. apply (z85_decode_canonical (gs "Hello")); reflexivity. Defined.

(** C36. Z85 is a bijection: every input whose length is a multiple of four is
    encoded, into five characters for every four bytes, and decoding restores
    it; and whatever the decoder accepts is exactly the encoding of what it
    returns. *)
Theorem z85_codec :
  (∀ src : bytes, len src < 2 ^ 58 → Z.rem (len src) 4 = 0 →
     ∃ s, EncodeToString src = Ret s ∧ len s * 4 = len src * 5 ∧ DecodeString s = Ret src) ∧
  (∀ s out : bytes, len s < 2 ^ 58 → DecodeString s = Ret out → EncodeToString out = Ret s).
Proof. split; [apply z85_roundtrip|apply z85_decode_canonical]. Qed.

(** [Encode] writes exactly [EncodedLen(len(src))] bytes at the front of
    any buffer that is large enough, leaves the rest of the buffer as it was,
    and neither fails nor indexes out of range. *)
Theorem z85_encode_frame (src dst : bytes) :
  len src < 2 ^ 58 → Z.rem (len src) 4 = 0 → EncodedLen (len src) <= len dst →
  ∃ s, EncodeToString src = Ret s ∧
       Encode src dst = (Ret tt, s ++ drop (Z.to_nat (EncodedLen (len src))) dst).
Proof.
  intros Hb Hm Hd. exists (enc_ref src). split; [by apply EncodeToString_ref|].
  destruct (len_mult src 4 ltac:(lia) Hm) as (k & Hk & Hl).
  rewrite Hl, EncodedLen_mult in Hd |- * by lia.
  unfold Encode. rewrite decide_False by (intros H; by apply H).
  unfold mget, mbind at 1, M_bind at 1. rewrite Hl, EncodedLen_mult, decide_False by lia.
  rewrite Hk, for_range_mult by lia.
  pose proof (Encode_loop_ref k [] src [] dst Hk ltac:(unfold len in Hd; lia)) as He.
  cbn [length app Nat.add] in He. rewrite He. do 3 f_equal. lia.
Qed.


(** [ValidateString] is exactly the length and alphabet part of
    [DecodeString]'s checks: what [DecodeString] accepts it accepts, and what it
    accepts [DecodeString] either decodes or rejects for the 32-bit overflow of
    a group alone; the string [#####] shows that the second case occurs. *)
Theorem z85_validate_vs_decode (s : bytes) :
  len s < 2 ^ 58 →
  ((∃ out, DecodeString s = Ret out) → ValidateString s = Ret tt) ∧
  (ValidateString s = Ret tt →
     (∃ out, DecodeString s = Ret out) ∨
     DecodeString s = Fail (Errorf "z85: decoded value overflow at position")) ∧
  (ValidateString (gs "#####") = Ret tt ∧
   DecodeString (gs "#####") = Fail (Errorf "z85: decoded value overflow at position")).
Proof.
  intros Hb. destruct (decide (Z.rem (len s) 5 = 0)) as [Hm|Hm].
  2: { unfold DecodeString, ValidateString. rewrite !(decide_True (P := Z.rem (len s) 5 ≠ 0)) by done.
       split; [by intros [? ?]|]. split; [done|split; vm_compute; reflexivity]. }
  destruct (len_mult s 5 ltac:(lia) Hm) as (k & Hk & _).
  rewrite DecodeString_ref by (done || lia). unfold ValidateString at 1 2.
  rewrite !(decide_False (P := Z.rem (len s) 5 ≠ 0)) by (intros H; by apply H).
  rewrite ValidateString_loop_digits. split; [|split].
  - intros [out H]. by apply (dec_ref_Ret_digits k s out).
  - intros H. by apply (dec_ref_digits k).
  - split; vm_compute; reflexivity.
Qed.

Lemma z85_validate_vs_decode_witness : ValidateString (gs "Hello") = Ret tt.
Proof.
  refine (proj1 (z85_validate_vs_decode (gs "Hello") eq_refl) _).
  exists [x86; x4f; xd2; x6f]. vm_compute. reflexivity.
Defined.
