(* ===== verification/Queue.v ===== *)
(** * Queue: the chunked FIFO of messages (src/queue.go)

    The queue keeps a doubly linked list of slices of at most [innerCap]
    messages and a length counter. The specification is the plain list of
    queued messages; [fifo] packs the operations with the laws a client may
    rely on, [Queue_fifo] discharges them, and [Queue_refines] lifts them to
    whole operation sequences, panics included. *)

From Stdlib Require Import ZArith Lia.
From stdpp Require Import base strings numbers list.
From S2P Require Import Prelude.

#[local] Open Scope Z_scope.
#[local] Set Default Goal Selector "!".

Definition innerCap : nat := 512.

Section queue.
Context {Msg : Type}.

(** [rep] is the [list.List] of slices, front first; [qlen] the counter. *)
Record Queue : Type := mkQueue { rep : list (list Msg); qlen : Z }.

Definition NewQueue : Queue := mkQueue [] 0.

Definition Queue_Len (q : Queue) : Z := qlen q.

Definition Queue_Init : M Queue unit := mupd (fun _ => mkQueue [] 0).

(** [q.rep.Back()] split off the rest of the list. *)
Definition Queue_Push (val : Msg) : M Queue unit := mupd (fun q =>
  let n := qlen q + 1 in
  match last (rep q) with
  | Some i =>
      if decide (length i = innerCap) then mkQueue (rep q ++ [[] ++ [val]]) n
      else mkQueue (take (length (rep q) - 1) (rep q) ++ [i ++ [val]]) n
  | None => mkQueue (rep q ++ [[] ++ [val]]) n
  end).

(** [front]: the first slice, or nil. *)
Definition Queue_front (q : Queue) : option (list Msg) := head (rep q).

Definition Queue_Peek (q : Queue) : outcome (option Msg) :=
  match Queue_front q with
  | None => Ret None
  | Some i => m ← idx i 0; Ret (Some m)
  end.

Definition Queue_Pop : M Queue unit := fun q =>
  match rep q with
  | [] => (Panic "attempting to Pop on an empty Queue", q)
  | i :: rest =>
      let n := qlen q - 1 in
      match i with
      | [] => (Panic "index out of range", mkQueue (i :: rest) n)
      | _ :: i' =>
          if decide (length i' = 0%nat) then (Ret tt, mkQueue rest n)
          else (Ret tt, mkQueue (i' :: rest) n)
      end
  end.

(** ** Representation invariant and abstraction *)

Definition chunk_ok (i : list Msg) : Prop := i ≠ [] ∧ (length i <= innerCap)%nat.

Definition Queue_wf (q : Queue) : Prop :=
  Forall chunk_ok (rep q) ∧ qlen q = len (concat (rep q)).

Definition Queue_abs (q : Queue) : list Msg := concat (rep q).

Lemma Queue_Push_abs q v :
  Queue_wf q →
  let q' := (Queue_Push v q).2 in
  Queue_wf q' ∧ Queue_abs q' = Queue_abs q ++ [v].
Proof.
  destruct q as [r n]. intros [Hf Hn]. unfold Queue_Push, Queue_wf, Queue_abs, mupd in *. simpl in *.
  destruct (last r) as [i|] eqn:E.
  - apply last_Some in E as [r' ->]. apply Forall_app in Hf as [Hr Hi].
    apply Forall_singleton in Hi as [Hne Hle]. rewrite concat_app in Hn |- *. case_decide; simpl.
    + rewrite !concat_app, !len_app. rewrite !len_app in Hn. simpl. simpl in Hn.
      rewrite app_nil_r in *. split; [split|by rewrite <- ?app_assoc].
      * rewrite !Forall_app, !Forall_singleton. unfold chunk_ok. simpl. unfold innerCap in *.
        repeat split; try done; lia.
      * unfold len in *. rewrite ?length_app in *. simpl. lia.
    + rewrite length_app. simpl. rewrite Nat.add_sub, take_app_length, concat_app. simpl.
      rewrite !app_nil_r, !len_app in *. split; [split|by rewrite app_assoc].
      * rewrite Forall_app, Forall_singleton. split; [done|]. split; [by destruct i|].
        rewrite length_app. simpl. unfold innerCap in *. lia.
      * unfold len in *. rewrite ?length_app in *. simpl in Hn. rewrite app_nil_r in Hn. simpl. lia.
  - apply last_None in E as ->. simpl in *. split; [split|done].
    + rewrite Forall_singleton. unfold chunk_ok, innerCap. simpl. split; [done|lia].
    + rewrite Hn. reflexivity.
Qed.

Lemma Queue_Pop_abs q :
  Queue_wf q →
  let '(r, q') := Queue_Pop q in
  Queue_wf q' ∧
  match Queue_abs q with
  | [] => r = Panic "attempting to Pop on an empty Queue" ∧ Queue_abs q' = []
  | _ :: l => r = Ret tt ∧ Queue_abs q' = l
  end.
Proof.
  destruct q as [r n]. intros [Hf Hn]. unfold Queue_Pop, Queue_wf, Queue_abs in *. simpl in *.
  destruct r as [|[|m i] r]; simpl in *; [done| |].
  - by apply Forall_cons_iff in Hf as [[? _] _].
  - apply Forall_cons_iff in Hf as [[_ Hi] Hr]. rewrite len_cons in Hn. simpl in Hi.
    case_decide as Hl; simpl.
    + destruct i; [|done]. simpl in *. repeat split; [done|lia].
    + repeat split; [|lia]. constructor; [|done]. split; [by destruct i|lia].
Qed.

Lemma Queue_Peek_abs q : Queue_wf q → Queue_Peek q = Ret (head (Queue_abs q)).
Proof.
  destruct q as [r n]. intros [Hf _]. unfold Queue_Peek, Queue_front, Queue_abs in *. simpl in *.
  destruct r as [|[|m i] r]; try done. by apply Forall_cons_iff in Hf as [[? _] _].
Qed.

(** ** The interface a client of the queue relies on *)

Class fifo (Q : Type) := Fifo {
  fifo_inv : Q → Prop;
  fifo_abs : Q → list Msg;
  fifo_new : Q;
  fifo_init : M Q unit;
  fifo_len : Q → Z;
  fifo_peek : Q → outcome (option Msg);
  fifo_push : Msg → M Q unit;
  fifo_pop : M Q unit;
  fifo_new_ok : fifo_inv fifo_new ∧ fifo_abs fifo_new = [];
  fifo_init_ok q : (fifo_init q).1 = Ret tt ∧ fifo_inv (fifo_init q).2 ∧ fifo_abs (fifo_init q).2 = [];
  fifo_len_ok q : fifo_inv q → fifo_len q = len (fifo_abs q);
  fifo_peek_ok q : fifo_inv q → fifo_peek q = Ret (head (fifo_abs q));
  fifo_push_ok v q : fifo_inv q →
    (fifo_push v q).1 = Ret tt ∧ fifo_inv (fifo_push v q).2 ∧
    fifo_abs (fifo_push v q).2 = fifo_abs q ++ [v];
  fifo_pop_ok q : fifo_inv q →
    let '(r, q') := fifo_pop q in
    fifo_inv q' ∧
    match fifo_abs q with
    | [] => r = Panic "attempting to Pop on an empty Queue" ∧ fifo_abs q' = []
    | _ :: l => r = Ret tt ∧ fifo_abs q' = l
    end }.

#[export] Program Instance Queue_fifo : fifo Queue := {|
  fifo_inv := Queue_wf; fifo_abs := Queue_abs; fifo_new := NewQueue; fifo_init := Queue_Init;
  fifo_len := Queue_Len; fifo_peek := Queue_Peek;
  fifo_push := Queue_Push; fifo_pop := Queue_Pop |}.
Next Obligation. split; [split; [constructor|done]|done]. Qed.
Next Obligation. intros q. repeat split. constructor. Qed.
Next Obligation. intros q [_ H]. exact H. Qed.
Next Obligation. apply Queue_Peek_abs. Qed.
Next Obligation. intros v q H. split; [done|]. by apply Queue_Push_abs. Qed.
Next Obligation. apply Queue_Pop_abs. Qed.

(** The list itself, with Go's panic on an empty queue. *)
#[export] Program Instance list_fifo : fifo (list Msg) := {|
  fifo_inv := fun _ => True; fifo_abs := id; fifo_new := []; fifo_init := mupd (fun _ => []);
  fifo_len := len; fifo_peek := fun l => Ret (head l);
  fifo_push := fun v => mupd (fun l => l ++ [v]);
  fifo_pop := fun l => match l with
                       | [] => (Panic "attempting to Pop on an empty Queue", l)
                       | _ :: l' => (Ret tt, l')
                       end |}.
Next Obligation. done. Qed.
Next Obligation. done. Qed.
Next Obligation. done. Qed.
Next Obligation. done. Qed.
Next Obligation. done. Qed.
Next Obligation. intros [|v l] _; done. Qed.

(** Programs over a queue, and what they observe. *)
Inductive qop : Type := OpPush (v : Msg) | OpPop | OpPeek | OpLen | OpInit.

Inductive qobs : Type :=
| ObsUnit (r : outcome unit)
| ObsPeek (r : outcome (option Msg))
| ObsLen (n : Z).

Definition qstep {Q} `{fifo Q} (o : qop) (q : Q) : qobs * Q :=
  match o with
  | OpPush v => let '(r, q') := fifo_push v q in (ObsUnit r, q')
  | OpPop => let '(r, q') := fifo_pop q in (ObsUnit r, q')
  | OpPeek => (ObsPeek (fifo_peek q), q)
  | OpLen => (ObsLen (fifo_len q), q)
  | OpInit => let '(r, q') := fifo_init q in (ObsUnit r, q')
  end.

Fixpoint qrun {Q} `{fifo Q} (os : list qop) (q : Q) : list qobs :=
  match os with
  | [] => []
  | o :: os' => let '(b, q') := qstep o q in b :: qrun os' q'
  end.

(** Two implementations of the interface that stand for the same list take
    equal steps. *)
Lemma qstep_sim {P Q} `{fifo P, fifo Q} o (p : P) (q : Q) :
  fifo_inv p → fifo_inv q → fifo_abs p = fifo_abs q →
  (qstep o p).1 = (qstep o q).1 ∧
  fifo_inv (qstep o p).2 ∧ fifo_inv (qstep o q).2 ∧
  fifo_abs (qstep o p).2 = fifo_abs (qstep o q).2.
Proof.
  intros Hp Hq E. destruct o as [v| | | |]; simpl.
  - pose proof (fifo_push_ok v p Hp) as (P1 & P2 & P3).
    pose proof (fifo_push_ok v q Hq) as (Q1 & Q2 & Q3).
    destruct (fifo_push v p), (fifo_push v q). simpl in *. by rewrite P1, Q1, P3, Q3, E.
  - pose proof (fifo_pop_ok p Hp) as HP. pose proof (fifo_pop_ok q Hq) as HQ.
    destruct (fifo_pop p), (fifo_pop q). simpl in *. destruct HP as [? HP], HQ as [? HQ].
    rewrite <- E in HQ. destruct (fifo_abs p); destruct HP as [-> ->], HQ as [-> ->]; done.
  - by rewrite (fifo_peek_ok p Hp), (fifo_peek_ok q Hq), E.
  - by rewrite (fifo_len_ok p Hp), (fifo_len_ok q Hq), E.
  - pose proof (fifo_init_ok p) as (P1 & P2 & P3). pose proof (fifo_init_ok q) as (Q1 & Q2 & Q3).
    destruct (fifo_init p), (fifo_init q). simpl in *. by rewrite P1, Q1, P3, Q3.
Qed.

Lemma qrun_sim {P Q} `{fifo P, fifo Q} os : forall (p : P) (q : Q),
  fifo_inv p → fifo_inv q → fifo_abs p = fifo_abs q → qrun os p = qrun os q.
Proof.
  induction os as [|o os IH]; intros p q Hp Hq E; [done|]. simpl.
  pose proof (qstep_sim o p q Hp Hq E) as (Ho & Hp' & Hq' & E').
  destruct (qstep o p), (qstep o q). simpl in *. subst. f_equal. by apply IH.
Qed.
End queue.

Arguments Queue : clear implicits.

(** C33. Refinement: for every sequence of [Push], [Pop], [Peek], [Len] and
    [Init] calls on a new queue, the chunked queue observes exactly what the
    plain FIFO list observes: same peeked messages, same lengths, and a panic
    exactly when [Pop] meets an empty list. *)
Theorem Queue_refines {Msg : Type} (os : list (qop (Msg := Msg))) :
  qrun os (NewQueue (Msg := Msg)) = qrun os ([] : list Msg).
Proof.
  destruct (fifo_new_ok (Q := Queue Msg)) as [Hi Ha]. by apply qrun_sim.
Qed.

(** Invariant: no reachable queue holds an empty or over-full slice, and
    its counter is the number of queued messages, for every sequence of
    operations that did not panic or did. *)
Theorem Queue_invariant {Msg : Type} (os : list (qop (Msg := Msg))) (q : Queue Msg) :
  Queue_wf q → Queue_wf (foldl (fun q o => (qstep o q).2) q os).
Proof.
  revert q. induction os as [|o os IH]; intros q Hq; [done|]. simpl. apply IH.
  exact (proj1 (proj2 (qstep_sim o q q Hq Hq eq_refl))).
Qed.

