(* ===== verification/Locks.v ===== *)
(** * Locks: goroutines that share a read-write lock

    A small calculus of goroutines that lock, unlock and wait for each other,
    for the [Stop] methods of src/dafka and src/zyre. A [sync.RWMutex] is not
    reentrant: a goroutine that holds it for writing and asks for it again
    waits for itself. *)

From stdpp Require Import base gmap gmultiset relations list.
From S2P Require Import Prelude.

#[local] Set Default Goal Selector "!".

(** ** Locks and goroutines *)

(** [WaitOthers] is [wg.Wait()]: it returns when the other goroutines have. *)
Inductive lock_op : Type := Lock | Unlock | RLock | RUnlock | WaitOthers.

(** Who holds the mutex, and what each goroutine still has to do. *)
Record locks : Type := mkLocks { lk_writer : option nat; lk_readers : gmultiset nat; lk_threads : list (list lock_op) }.

Definition others_done (i : nat) (threads : list (list lock_op)) : Prop :=
  ∀ j p, j ≠ i → threads !! j = Some p → p = [].

(** Goroutine [i] performs its next operation. *)
Inductive lock_step : locks → locks → Prop :=
| step_Lock i p ts : ts !! i = Some (Lock :: p) →
    lock_step (mkLocks None ∅ ts) (mkLocks (Some i) ∅ (<[i := p]> ts))
| step_Unlock i p ts rs : ts !! i = Some (Unlock :: p) →
    lock_step (mkLocks (Some i) rs ts) (mkLocks None rs (<[i := p]> ts))
| step_RLock i p ts rs : ts !! i = Some (RLock :: p) →
    lock_step (mkLocks None rs ts) (mkLocks None ({[+ i +]} ⊎ rs) (<[i := p]> ts))
| step_RUnlock i p ts w rs : ts !! i = Some (RUnlock :: p) → i ∈ rs →
    lock_step (mkLocks w rs ts) (mkLocks w (rs ∖ {[+ i +]}) (<[i := p]> ts))
| step_Wait i p ts w rs : ts !! i = Some (WaitOthers :: p) → others_done i ts →
    lock_step (mkLocks w rs ts) (mkLocks w rs (<[i := p]> ts)).

(** ** Deadlocks *)

(** Goroutine [i] holds the lock and asks for it again, or is about to. *)
Definition self_locked (i : nat) (op : lock_op) (rest : list lock_op) (c : locks) : Prop :=
  lk_threads c !! i = Some (Lock :: op :: rest) ∨ (lk_threads c !! i = Some (op :: rest) ∧ lk_writer c = Some i).

Lemma self_locked_step i op rest c c' :
  op = Lock ∨ op = RLock → self_locked i op rest c → lock_step c c' → self_locked i op rest c'.
Proof.
  intros Hop Hself Hstep. unfold self_locked in *.
  destruct Hstep as [j p ts Hj|j p ts rs Hj|j p ts rs Hj|j p ts w rs Hj Hin|j p ts w rs Hj Hdone];
    cbn in *; destruct (decide (j = i)) as [->|Hne]; rewrite ?list_lookup_insert_ne by done;
    destruct Hself as [Hi|[Hi Hw]]; simplify_eq; auto; try (destruct Hop; simplify_eq; done).
  - right. split; [|done]. by apply list_lookup_insert_eq, lookup_lt_Some with (Lock :: op :: rest).
Qed.

Lemma self_locked_stuck i op rest c c' :
  op = Lock ∨ op = RLock → self_locked i op rest c → rtc lock_step c c' → lk_threads c' !! i ≠ Some [].
Proof.
  intros Hop Hself Hsteps. assert (self_locked i op rest c') as [H|[H _]].
  { induction Hsteps as [|c c1 c2 H1 _ IH]; [done|]. apply IH. by eapply self_locked_step. }
  - by rewrite H.
  - by rewrite H.
Qed.

(** A goroutine that waits for the others while it holds the lock, and
    another that is about to take it: there is a schedule after which nobody
    can move. *)
Definition lock_and_wait : list lock_op := [Lock; WaitOthers; Unlock].
Definition lock_section : list lock_op := [Lock; Unlock].

Lemma lock_and_wait_may_hang :
  (∃ c, rtc lock_step (mkLocks None ∅ [lock_and_wait; lock_section]) c ∧ (∀ c', ¬ lock_step c c') ∧ lk_threads c !! 0 ≠ Some []) ∧
  rtc lock_step (mkLocks None ∅ [lock_and_wait; []]) (mkLocks None ∅ [[]; []]).
Proof.
  split.
  - exists (mkLocks (Some 0) ∅ [[WaitOthers; Unlock]; [Lock; Unlock]]). split; [|split; [|done]].
    + apply rtc_once. exact (step_Lock 0 _ [lock_and_wait; lock_section] eq_refl).
    + intros c' Hstep. inversion Hstep as [| | |j p ts w rs Hj Hin|j p ts w rs Hj Hdone]; subst.
      * simplify_eq/=.
      * by apply gmultiset_not_elem_of_empty in Hin.
      * destruct j as [|[|j]]; cbn in Hj; simplify_eq. specialize (Hdone 1 [Lock; Unlock] ltac:(done) eq_refl). done.
  - eapply rtc_l; [exact (step_Lock 0 _ [lock_and_wait; []] eq_refl)|].
    eapply rtc_l; [apply (step_Wait 0 [Unlock]); [done|]|].
    + intros [|[|j]] p Hj Hp; [done|by injection Hp as <-|done].
    + apply rtc_once. exact (step_Unlock 0 [] [[Unlock]; []] ∅ eq_refl).
Qed.
