(* ===== verification/Actor.v ===== *)
(** * Actor: goroutines that serve commands

    Most managers of the repository have the same shape: a goroutine takes
    commands from a buffered channel and serves them one at a time, each with a
    reply channel of its own that holds one reply; a method queues a command and
    waits for its reply, or returns when the context is cancelled; [Stop] cancels
    the context, waits for the goroutine and closes the channel. What a manager
    does with a command is its [Server]; the others goroutines of a manager, which
    change its state under the same mutex, are the steps [srv_bg]. *)

From stdpp Require Import base gmap list relations.
From S2P Require Import Prelude.

#[local] Set Default Goal Selector "!".

(** ** The interface *)

(** [srv_handle e c s]: the reply to [c], if it sends one, and the state after
    it, the clock and the like being [e]; [None]: it does not come back, because
    it waits for ever or panics. *)
Class Server (St C R E : Type) : Type := {
  srv_cap : nat;
  srv_handle : E → C → St → option (option R * St);
  srv_bg : St → St → Prop }.

(** A handler written as a computation. *)
Definition serves {St R} (m : M St (option R)) (s : St) : option (option R * St) :=
  match m s with (Ret r, s') => Some (r, s') | _ => None end.

(** How the [select] of a method that sends a command goes: the command is
    queued and the call waits for its reply, the call returns with the
    context's error, it panics, or neither case is ready. *)
Inductive call : Type := CallQueued | CallCancelled | CallPanics | CallBlocks.

(** [at_queue]: the commands queued, each with the number of the call that
    waits for its reply; [at_replies]: the replies that wait in reply channels;
    [at_used]: the calls made; [at_loop]: the goroutine runs; [at_cancelled] and
    [at_closed]: how far [Stop] is. *)
Record actor (St C R : Type) : Type := mkActor {
  at_state : St;
  at_queue : list (nat * C);
  at_replies : gmap nat R;
  at_used : gset nat;
  at_loop : bool;
  at_cancelled : bool;
  at_closed : bool }.

Arguments mkActor {St C R}.
Arguments at_state {St C R}.
Arguments at_queue {St C R}.
Arguments at_replies {St C R}.
Arguments at_used {St C R}.
Arguments at_loop {St C R}.
Arguments at_cancelled {St C R}.
Arguments at_closed {St C R}.

Section actor.
Context {St C R E : Type} {srv : Server St C R E}.
Implicit Types (s : actor St C R) (id : nat) (c : C) (e : E) (r : R).

(** A manager whose goroutine runs. *)
Definition actor_start (st : St) : actor St C R := mkActor st [] ∅ ∅ true false false.

(** [choice] is the case taken when both are ready; after [Stop] the channel is
    closed, and a send on it is ready and panics. *)
Definition actor_call (choice : bool) id c s : call * actor St C R :=
  let room := bool_decide (length (at_queue s) < srv_cap) in
  if at_closed s then (if choice then CallPanics else CallCancelled, s)
  else if at_cancelled s && negb (room && choice) then (CallCancelled, s)
  else if room then
    (CallQueued, mkActor (at_state s) (at_queue s ++ [(id, c)]) (at_replies s) ({[id]} ∪ at_used s) (at_loop s) (at_cancelled s) (at_closed s))
  else (CallBlocks, s).

(** One turn of the goroutine; [None] when it waits or does not come back. *)
Definition actor_turn e s : option (actor St C R) :=
  match at_queue s with
  | [] => None
  | (id, c) :: rest =>
      match srv_handle e c (at_state s) with
      | None => None
      | Some (r, st) =>
          Some (mkActor st rest (match r with Some r => <[id := r]> (at_replies s) | None => at_replies s end)
                  (at_used s) (at_loop s) (at_cancelled s) (at_closed s))
      end
  end.

(** [<-reply]. *)
Definition actor_return id s : option (R * actor St C R) :=
  match at_replies s !! id with
  | Some r => Some (r, mkActor (at_state s) (at_queue s) (delete id (at_replies s)) (at_used s) (at_loop s) (at_cancelled s) (at_closed s))
  | None => None
  end.

(** [Stop] in its parts: the context is cancelled, the goroutine sees it, and
    when it has returned the channel is closed. *)
Definition actor_cancel s : actor St C R := mkActor (at_state s) (at_queue s) (at_replies s) (at_used s) (at_loop s) true (at_closed s).
Definition actor_exit s : option (actor St C R) :=
  if at_loop s && at_cancelled s
  then Some (mkActor (at_state s) (at_queue s) (at_replies s) (at_used s) false true (at_closed s)) else None.
Definition actor_close s : option (actor St C R) :=
  if at_cancelled s && negb (at_loop s)
  then Some (mkActor (at_state s) (at_queue s) (at_replies s) (at_used s) false true true) else None.

Definition set_at_state (st : St) s : actor St C R :=
  mkActor st (at_queue s) (at_replies s) (at_used s) (at_loop s) (at_cancelled s) (at_closed s).

(** ** Runs *)

Inductive label : Type :=
| LCall (id : nat) (c : C)
| LServe (e : E) (id : nat) (c : C) (r : option R)
| LBg
| LReturn (id : nat) (r : R)
| LStop.

Inductive actor_step : actor St C R → label → actor St C R → Prop :=
| a_call choice id c s s' : id ∉ at_used s → actor_call choice id c s = (CallQueued, s') → actor_step s (LCall id c) s'
| a_serve e id c rest (r : option R) st s s' :
    at_loop s = true → at_queue s = (id, c) :: rest → srv_handle e c (at_state s) = Some (r, st) → actor_turn e s = Some s' →
    actor_step s (LServe e id c r) s'
| a_bg st s : srv_bg (at_state s) st → actor_step s LBg (set_at_state st s)
| a_return id r s s' : actor_return id s = Some (r, s') → actor_step s (LReturn id r) s'
| a_cancel s : actor_step s LStop (actor_cancel s)
| a_exit s s' : actor_exit s = Some s' → actor_step s LStop s'
| a_close s s' : actor_close s = Some s' → actor_step s LStop s'.

Inductive actor_run : actor St C R → list label → actor St C R → Prop :=
| run_nil s : actor_run s [] s
| run_snoc s ls s' l s'' : actor_run s ls s' → actor_step s' l s'' → actor_run s (ls ++ [l]) s''.

(** ** The sequential object *)

Definition called (ls : list label) : list (nat * C) := ls ≫= fun l => match l with LCall id c => [(id, c)] | _ => [] end.
Definition served (ls : list label) : list (nat * C) := ls ≫= fun l => match l with LServe _ id c _ => [(id, c)] | _ => [] end.
Definition returned (ls : list label) : list nat := ls ≫= fun l => match l with LReturn id _ => [id] | _ => [] end.

(** The commands served one after the other, with what the other goroutines
    do in between. *)
Inductive sequential : St → list label → St → Prop :=
| seq_nil st : sequential st [] st
| seq_serve st ls st' e id c (r : option R) st'' : sequential st ls st' → srv_handle e c st' = Some (r, st'') → sequential st (ls ++ [LServe e id c r]) st''
| seq_bg st ls st' st'' : sequential st ls st' → srv_bg st' st'' → sequential st (ls ++ [LBg]) st''
| seq_other st ls st' l : sequential st ls st' → match l with LServe _ _ _ _ | LBg => False | _ => True end → sequential st (ls ++ [l]) st'.

(** The reply [r] to call [id] has been computed: the call, and after it the
    turn that served it. *)
Definition answered (ls : list label) (id : nat) (r : R) : Prop :=
  ∃ i j e c, i < j ∧ ls !! i = Some (LCall id c) ∧ ls !! j = Some (LServe e id c (Some r)).

Record run_ok (st0 : St) (ls : list label) s : Prop := {
  ro_fifo : called ls = served ls ++ at_queue s;
  ro_seq : sequential st0 ls (at_state s);
  ro_used : ∀ p, p ∈ called ls → p.1 ∈ at_used s;
  ro_once : NoDup (called ls).*1;
  ro_replies : ∀ id r, at_replies s !! id = Some r → answered ls id r ∧ id ∉ returned ls;
  ro_returns : ∀ k id r, ls !! k = Some (LReturn id r) → answered (take k ls) id r;
  ro_ret_once : NoDup (returned ls) }.

Lemma answered_app ls ls' id r : answered ls id r → answered (ls ++ ls') id r.
Proof. intros (i & j & e & c & ? & Hi & Hj). exists i, j, e, c. split_and!; [done|by apply lookup_app_l_Some..]. Qed.

Lemma answered_served ls id r : answered ls id r → id ∈ (served ls).*1.
Proof.
  intros (i & j & e & c & _ & _ & Hj). apply list_elem_of_fmap. exists (id, c). split; [done|].
  unfold served. apply list_elem_of_bind. exists (LServe e id c (Some r)). split; [by left|]. by apply list_elem_of_lookup_2 in Hj.
Qed.

Lemma returned_served ls : (∀ k id r, ls !! k = Some (LReturn id r) → answered (take k ls) id r) → ∀ id, id ∈ returned ls → id ∈ (served ls).*1.
Proof.
  intros H id Hid. unfold returned in Hid. apply list_elem_of_bind in Hid as (l & Hid & Hl).
  destruct l as [| | |id' r|]; try (by apply not_elem_of_nil in Hid). apply list_elem_of_singleton in Hid as <-.
  apply list_elem_of_lookup in Hl as [k Hk]. apply (answered_served ls id r).
  rewrite <- (take_drop k ls). apply answered_app. by apply (H k).
Qed.

Lemma called_lookup ls p : p ∈ called ls → ∃ i, ls !! i = Some (LCall p.1 p.2).
Proof.
  intros Hp. unfold called in Hp. apply list_elem_of_bind in Hp as (l & Hp & Hl). destruct l as [id c| | | |]; try (by apply not_elem_of_nil in Hp).
  apply list_elem_of_singleton in Hp as ->. by apply list_elem_of_lookup in Hl.
Qed.

Lemma called_snoc ls l : called (ls ++ [l]) = called ls ++ called [l].
Proof. unfold called. by rewrite bind_app. Qed.
Lemma served_snoc ls l : served (ls ++ [l]) = served ls ++ served [l].
Proof. unfold served. by rewrite bind_app. Qed.
Lemma returned_snoc ls l : returned (ls ++ [l]) = returned ls ++ returned [l].
Proof. unfold returned. by rewrite bind_app. Qed.

(** The returns of a longer run. *)
Lemma returns_snoc ls l :
  (∀ k id r, ls !! k = Some (LReturn id r) → answered (take k ls) id r) →
  (∀ id r, l = LReturn id r → answered ls id r) →
  ∀ k id r, (ls ++ [l]) !! k = Some (LReturn id r) → answered (take k (ls ++ [l])) id r.
Proof.
  intros H Hl k id r Hk. apply lookup_snoc_Some in Hk as [[Hlt Hk]|[-> ->]].
  - rewrite take_app_le by lia. by apply H.
  - rewrite take_app_length. by apply Hl.
Qed.

(** A step that neither calls, serves nor returns. *)
Lemma run_ok_quiet st0 ls s l s' :
  run_ok st0 ls s → sequential st0 (ls ++ [l]) (at_state s') → match l with LBg | LStop => True | _ => False end →
  at_queue s' = at_queue s → at_replies s' = at_replies s → at_used s' = at_used s → run_ok st0 (ls ++ [l]) s'.
Proof.
  intros [H1 H2 H3 H4 H5 H6 H7] Hseq Hl Eq Er Eu. destruct l; try done;
    (split; rewrite ?called_snoc, ?served_snoc, ?returned_snoc, ?app_nil_r; cbn; rewrite ?Eq, ?Er, ?Eu; try done;
     [intros id' r' Hr; apply H5 in Hr as [? ?]; split; [by apply answered_app|done]|by apply returns_snoc]).
Qed.

Lemma run_ok_call st0 ls s choice id c s' :
  run_ok st0 ls s → id ∉ at_used s → actor_call choice id c s = (CallQueued, s') → run_ok st0 (ls ++ [LCall id c]) s'.
Proof.
  intros [H1 H2 H3 H4 H5 H6 H7] Hid Hc.
  unfold actor_call in Hc. destruct (at_closed s); [by destruct choice|]. destruct (at_cancelled s && _); [done|].
  destruct (bool_decide _); [|done]. injection Hc as <-.
  split; cbn; rewrite ?called_snoc, ?served_snoc, ?returned_snoc, ?app_nil_r; cbn.
  - by rewrite H1, app_assoc.
  - by apply seq_other.
  - intros p [Hp| ->%list_elem_of_singleton]%elem_of_app; apply elem_of_union; [right; by apply H3|left; by apply elem_of_singleton].
  - rewrite fmap_app. apply NoDup_app. split_and!; [done| |by apply NoDup_singleton]. intros x Hx Hx'. apply list_elem_of_singleton in Hx'. cbn in Hx'. subst x.
    apply Hid. apply list_elem_of_fmap in Hx as (p & E0 & Hp). rewrite E0. by apply H3.
  - intros id' r' Hr. apply H5 in Hr as [? ?]. split; [by apply answered_app|done].
  - by apply returns_snoc.
  - done.
Qed.

Lemma run_ok_serve st0 ls s e id c rest (r : option R) st s' :
  run_ok st0 ls s → at_queue s = (id, c) :: rest → srv_handle e c (at_state s) = Some (r, st) → actor_turn e s = Some s' →
  run_ok st0 (ls ++ [LServe e id c r]) s'.
Proof.
  intros [H1 H2 H3 H4 H5 H6 H7] Hq Hh Ht. unfold actor_turn in Ht. rewrite Hq, Hh in Ht. injection Ht as <-.
  assert (Hcall : (id, c) ∈ called ls) by (rewrite H1, Hq; apply elem_of_app; right; left).
  assert (Hnew : id ∉ (served ls).*1).
  { rewrite H1, Hq, fmap_app in H4. apply NoDup_app in H4 as (_ & H4 & _). intros Hin. apply (H4 id Hin). left. }
  split; cbn; rewrite ?called_snoc, ?served_snoc, ?returned_snoc, ?app_nil_r; cbn; try done.
  - by rewrite H1, Hq, <- app_assoc.
  - by eapply seq_serve.
  - intros id' r' Hr. destruct r as [r|]; [apply lookup_insert_Some in Hr as [[<- <-]|[_ Hr]]|].
    + split; [|intros Hin; by apply Hnew, returned_served]. destruct (called_lookup _ _ Hcall) as [i Hi].
      exists i, (length ls), e, c. split_and!; [by apply lookup_lt_Some in Hi|by apply lookup_app_l_Some|].
      by rewrite lookup_app_r, Nat.sub_diag.
    + apply H5 in Hr as [? ?]. split; [by apply answered_app|done].
    + apply H5 in Hr as [? ?]. split; [by apply answered_app|done].
  - by apply returns_snoc.
Qed.

Lemma run_ok_return st0 ls s id (r : R) s' :
  run_ok st0 ls s → actor_return id s = Some (r, s') → run_ok st0 (ls ++ [LReturn id r]) s'.
Proof.
  intros [H1 H2 H3 H4 H5 H6 H7] Hr. unfold actor_return in Hr.
  destruct (at_replies s !! id) as [r0|] eqn:E1; [|done]. injection Hr as -> <-. apply H5 in E1 as [Ha Hn].
  split; cbn; rewrite ?called_snoc, ?served_snoc, ?returned_snoc, ?app_nil_r; cbn; try done.
  - by apply seq_other.
  - intros id' r' [Hne Hr]%lookup_delete_Some. apply H5 in Hr as [? ?]. split; [by apply answered_app|].
    rewrite elem_of_app, list_elem_of_singleton. naive_solver.
  - apply returns_snoc; [done|]. by intros ? ? [= <- <-].
  - apply NoDup_app. split_and!; [done| |by apply NoDup_singleton]. by intros x Hx ->%list_elem_of_singleton.
Qed.

Lemma run_ok_step st0 ls s l s' : run_ok st0 ls s → actor_step s l s' → run_ok st0 (ls ++ [l]) s'.
Proof.
  intros Hok Hs. pose proof (ro_seq _ _ _ Hok) as Hseq. destruct Hs as [choice id c s s' Hid Hc|e id c rest r st s s' Hloop Hq Hh Ht|st s Hb|id r s s' Hr|s|s s' He|s s' He].
  - by eapply run_ok_call.
  - by eapply run_ok_serve.
  - eapply run_ok_quiet; try done. by eapply seq_bg.
  - by eapply run_ok_return.
  - eapply run_ok_quiet; try done. by apply seq_other.
  - unfold actor_exit in He. destruct (at_loop s && at_cancelled s); [|done]. injection He as <-.
    eapply run_ok_quiet; try done. by apply seq_other.
  - unfold actor_close in He. destruct (at_cancelled s && _); [|done]. injection He as <-.
    eapply run_ok_quiet; try done. by apply seq_other.
Qed.

Lemma run_ok_run st0 s ls s' : actor_run s ls s' → s = actor_start st0 → run_ok st0 ls s'.
Proof.
  induction 1 as [s|s ls s' l s'' Hr IH Hs]; intros ->; [|eapply run_ok_step; [by apply IH|done]].
  split; cbn; try done; try constructor; intros; try by apply not_elem_of_nil in H.
Qed.
End actor.

(** ** What a manager promises *)

Section promises.
Context {St C R E : Type} {srv : Server St C R E}.
Implicit Types (s : actor St C R) (id : nat) (c : C) (e : E).

Lemma run_cons s l s1 ls s2 : actor_step s l s1 → actor_run s1 ls s2 → actor_run s (l :: ls) s2.
Proof.
  intros Hl H. induction H as [s1|s1 ls s' l' s'' _ IH Hs].
  - apply (run_snoc s [] s l s1); [constructor|done].
  - apply (run_snoc s (l :: ls) s' l' s''); [by apply IH|done].
Qed.

(** The commands in the queue of a manager that runs are all served, when
    every handler comes back. *)
Lemma actor_drains e s :
  at_loop s = true → (∀ c st, is_Some (srv_handle e c st)) →
  ∃ ls s', actor_run s ls s' ∧ at_queue s' = [] ∧ served ls = at_queue s ∧ called ls = [] ∧ returned ls = [].
Proof.
  intros Hl Hh. remember (at_queue s) as q eqn:Hq. revert s Hl Hq. induction q as [|[id c] q IH]; intros s Hl Hq.
  - exists [], s. split_and!; [constructor|done..].
  - destruct (Hh c (at_state s)) as [[r st] Hr].
    assert (Ht : ∃ s1, actor_turn e s = Some s1 ∧ at_loop s1 = true ∧ at_queue s1 = q).
    { unfold actor_turn. rewrite <- Hq, Hr. by eexists. }
    destruct Ht as (s1 & Ht & Hl1 & Hq1). destruct (IH s1 Hl1 (eq_sym Hq1)) as (ls & s' & Hrun & Hq' & Hs & Hc & Hret).
    exists (LServe e id c r :: ls), s'. split_and!; [|done| |done|done].
    + eapply run_cons; [|done]. by eapply a_serve.
    + unfold served in *. cbn. by rewrite Hs.
Qed.

(** A call that can get no reply any more. *)
Definition lost_call id s : Prop :=
  at_loop s = false ∧ at_cancelled s = true ∧ id ∈ at_used s ∧ at_replies s !! id = None.

Lemma lost_call_step id s l s' : actor_step s l s' → lost_call id s → lost_call id s' ∧ ∀ r, l ≠ LReturn id r.
Proof.
  intros Hs (Hl & Hc & Hu & Hr). destruct Hs as [choice id' c s s' Hid Hcall|e id' c rest r st s s' Hloop|st s Hb|id' r s s' Hret|s|s s' He|s s' He].
  - unfold actor_call in Hcall. destruct (at_closed s); [by destruct choice|]. destruct (at_cancelled s && _); [done|].
    destruct (bool_decide _); [|done]. injection Hcall as <-. split; [|done]. repeat split; try done. cbn. set_solver.
  - congruence.
  - by repeat split.
  - unfold actor_return in Hret. destruct (at_replies s !! id') as [r0|] eqn:E1; [|done]. injection Hret as -> <-. split.
    + repeat split; try done. cbn. destruct (decide (id' = id)) as [->|]; [by rewrite lookup_delete_eq|by rewrite lookup_delete_ne].
    + intros r' [= -> _]. congruence.
  - by repeat split.
  - unfold actor_exit in He. by rewrite Hl in He.
  - unfold actor_close in He. rewrite Hc, Hl in He. injection He as <-. by repeat split.
Qed.

Lemma lost_call_run id s ls s' : actor_run s ls s' → lost_call id s → id ∉ returned ls ∧ lost_call id s'.
Proof.
  induction 1 as [s|s ls s' l s'' _ IH Hs]; intros Hlost; [split; [by apply not_elem_of_nil|done]|].
  destruct (IH Hlost) as [H1 H2]. destruct (lost_call_step id s' l s'' Hs H2) as [H3 H4]. split; [|done].
  rewrite returned_snoc, elem_of_app. intros [H|H]; [done|]. destruct l as [| | |id' r|]; try (by apply not_elem_of_nil in H).
  apply list_elem_of_singleton in H as <-. by apply (H4 r).
Qed.

(** The goroutine returns only when the context is cancelled. *)
Lemma stopped_cancelled (st0 : St) ls s : actor_run (actor_start st0) ls s → at_loop s = false → at_cancelled s = true.
Proof.
  intros Hrun. remember (actor_start st0) as s0 eqn:E0. revert E0. induction Hrun as [s|s0 ls s' l s'' _ IH Hs]; intros ->; [done|]. specialize (IH eq_refl).
  destruct Hs as [choice id c s s' Hid Hcall|e id c rest r st s s' Hloop Hq Hh Ht|st s Hb|id r s s' Hret|s|s s' He|s s' He].
  - unfold actor_call in Hcall. destruct (at_closed s); [by destruct choice|]. destruct (at_cancelled s && _); [done|].
    destruct (bool_decide _); [|done]. by injection Hcall as <-.
  - unfold actor_turn in Ht. rewrite Hq, Hh in Ht. by injection Ht as <-.
  - done.
  - unfold actor_return in Hret. destruct (at_replies s !! id); [|done]. by injection Hret as _ <-.
  - done.
  - unfold actor_exit in He. destruct (at_loop s && at_cancelled s); [|done]. by injection He as <-.
  - unfold actor_close in He. destruct (at_cancelled s && _); [|done]. by injection He as <-.
Qed.

(** C28. A manager is a sequential object: in every interleaving of calls, turns of
    its goroutine, other goroutines, returns and [Stop], the commands are served
    one at a time in the order in which they were queued; the state is what the
    handlers make of it one after the other; a call returns at most once, after
    it was made and served, with the reply its command got. While the goroutine runs and
    its handlers come back, every queued command can still be served; but when
    it has returned, a call whose command waits, or gets no reply, waits for ever. *)
Theorem actor_linearizes (st0 : St) ls s :
  actor_run (actor_start st0) ls s →
  called ls = served ls ++ at_queue s ∧ sequential st0 ls (at_state s) ∧ NoDup (returned ls) ∧
  (∀ k id r, ls !! k = Some (LReturn id r) →
     ∃ i j e c, i < j < k ∧ ls !! i = Some (LCall id c) ∧ ls !! j = Some (LServe e id c (Some r))) ∧
  (∀ e, at_loop s = true → (∀ c st, is_Some (srv_handle e c st)) →
     ∃ ls' s', actor_run s ls' s' ∧ served ls' = at_queue s ∧ at_queue s' = []) ∧
  (∀ id c, (id, c) ∈ at_queue s → at_loop s = false → ∀ ls' s', actor_run s ls' s' → id ∉ returned ls').
Proof.
  intros Hrun. assert (Hok : run_ok st0 ls s) by by eapply run_ok_run. destruct Hok as [H1 H2 H3 H4 H5 H6 H7].
  split_and!; [done..| | |].
  - intros k id r Hk. destruct (H6 k id r Hk) as (i & j & e & c & Hij & Hi & Hj). exists i, j, e, c.
    apply lookup_take_Some in Hi as [Hi _], Hj as [Hj Hjk]. split_and!; [done..|done|done].
  - intros e Hl Hh. destruct (actor_drains e s Hl Hh) as (ls' & s' & ? & ? & ? & _). by exists ls', s'.
  - intros id c Hin Hl ls' s' Hrun'. eapply lost_call_run; [done|]. split_and!; [done| | |].
    + by eapply stopped_cancelled.
    + apply (H3 (id, c)). rewrite H1. apply elem_of_app. by right.
    + destruct (at_replies s !! id) as [r|] eqn:E1; [|done]. exfalso. apply H5 in E1 as [Ha _]. apply answered_served in Ha.
      rewrite H1, fmap_app in H4. apply NoDup_app in H4 as (_ & H4 & _). apply (H4 id Ha). apply list_elem_of_fmap. by exists (id, c).
Qed.

(** What holds of the state at first and is kept by the handlers of the commands
    called and by the other goroutines holds always, and of the state in which
    each command was served. *)
Lemma sequential_invariant (I : St → Prop) (P : C → Prop) st ls st' :
  sequential st ls st' → I st →
  (∀ e c st r st', P c → I st → srv_handle e c st = Some (r, st') → I st') →
  (∀ st st', srv_bg st st' → I st → I st') →
  (∀ p, p ∈ served ls → P p.2) →
  I st' ∧ ∀ e id c r, LServe e id c r ∈ ls → ∃ st1 st2, I st1 ∧ srv_handle e c st1 = Some (r, st2).
Proof.
  intros H Hi Hh Hb. induction H as [st|st ls st' e id c r st'' _ IH Hs|st ls st' st'' _ IH Hs|st ls st' l _ IH Hl];
    [split; [done|]; intros ????; by intros ?%not_elem_of_nil|..]; rewrite served_snoc; intros HP;
    destruct IH as [H1 H2]; try done; try (by intros p Hp; apply HP, elem_of_app; left).
  - split; [eapply Hh; [|exact H1|exact Hs]; apply (HP (id, c)), elem_of_app; right; by left|].
    intros e' id' c' r' [Hin|Hin%list_elem_of_singleton]%elem_of_app; [by eapply H2|]. simplify_eq. by eexists _, _.
  - split; [by eapply Hb|]. intros e' id' c' r' [Hin|Hin%list_elem_of_singleton]%elem_of_app; [by eapply H2|done].
  - split; [done|]. intros e' id' c' r' [Hin|Hin%list_elem_of_singleton]%elem_of_app; [by eapply H2|]. by subst l.
Qed.

Lemma actor_invariant (I : St → Prop) (P : C → Prop) st0 ls s :
  actor_run (actor_start st0) ls s → I st0 →
  (∀ e c st r st', P c → I st → srv_handle e c st = Some (r, st') → I st') →
  (∀ st st', srv_bg st st' → I st → I st') →
  (∀ p, p ∈ called ls → P p.2) →
  I (at_state s) ∧
  ∀ k id r, ls !! k = Some (LReturn id r) →
    ∃ e c st1 st2, (id, c) ∈ called ls ∧ I st1 ∧ srv_handle e c st1 = Some (Some r, st2).
Proof.
  intros Hrun Hi Hh Hb HP. assert (Hok : run_ok st0 ls s) by by eapply run_ok_run. destruct Hok as [H1 H2 H3 H4 H5 H6 H7].
  destruct (sequential_invariant I P _ _ _ H2 Hi Hh Hb) as [Ha Hs].
  { intros p Hp. apply HP. rewrite H1. apply elem_of_app. by left. }
  split; [done|]. intros k id r Hk. destruct (H6 k id r Hk) as (i & j & e & c & _ & Hci & Hj).
  apply lookup_take_Some in Hci as [Hci _], Hj as [Hj _].
  destruct (Hs e id c (Some r)) as (st1 & st2 & ? & ?); [by apply list_elem_of_lookup_2 in Hj|].
  exists e, c, st1, st2. split_and!; [|done..]. unfold called. apply list_elem_of_bind. exists (LCall id c). split; [by left|].
  by apply list_elem_of_lookup_2 in Hci.
Qed.

(** *** A manager against its specification

    [view] is what the commands are about, [spec] what a command makes of it and
    [replies] which reply it may get; the other goroutines leave the view
    alone. *)
Section refinement.
Context {V : Type} (view : St → V) (spec : C → V → V) (replies : C → V → option R → Prop).
Context (Hhandle : ∀ e c st r st', srv_handle e c st = Some (r, st') → view st' = spec c (view st) ∧ replies c (view st) r).
Context (Hbg : ∀ st st', srv_bg st st' → view st' = view st).

Definition replay (v : V) (calls : list (nat * C)) : V := foldl (fun v p => spec p.2 v) v calls.

Lemma replay_snoc v calls p : replay v (calls ++ [p]) = spec p.2 (replay v calls).
Proof. unfold replay. by rewrite foldl_app. Qed.

Lemma sequential_replay st ls st' :
  sequential st ls st' →
  view st' = replay (view st) (served ls) ∧
  ∀ j e id c r, ls !! j = Some (LServe e id c r) → replies c (replay (view st) (served (take j ls))) r.
Proof.
  intros H. induction H as [st|st ls st' e id c r st'' _ [IH1 IH2] Hs|st ls st' st'' _ [IH1 IH2] Hs|st ls st' l _ [IH1 IH2] Hl]; [done|..];
    rewrite served_snoc; (split; [|intros j e' id' c' r' [[Hlt Hj]|[-> Hj]]%lookup_snoc_Some]);
    try (rewrite take_app_le by lia; exact (IH2 _ _ _ _ _ Hj)); try (by rewrite Hj in Hl); try done.
  - cbn. rewrite replay_snoc, <- IH1. by apply Hhandle in Hs as [-> _].
  - injection Hj as <- <- <- <-. rewrite take_app_length, <- IH1. by eapply Hhandle.
  - cbn. rewrite app_nil_r, <- IH1. by apply Hbg.
  - destruct l; cbn; rewrite ?app_nil_r; done.
Qed.

(** What a call returns is what the specification says of the commands queued
    before it, in their order, and of no other. *)
Lemma actor_refines st0 ls s k id r :
  actor_run (actor_start st0) ls s → ls !! k = Some (LReturn id r) →
  ∃ before c after, called ls = before ++ (id, c) :: after ∧ replies c (replay (view st0) before) (Some r).
Proof.
  intros Hrun Hk. assert (Hok : run_ok st0 ls s) by by eapply run_ok_run. destruct Hok as [H1 H2 H3 H4 H5 H6 H7].
  destruct (H6 k id r Hk) as (i & j & e & c & _ & _ & Hj). apply lookup_take_Some in Hj as [Hj _].
  destruct (sequential_replay _ _ _ H2) as [_ Hr]. exists (served (take j ls)), c, (served (drop (S j) ls) ++ at_queue s).
  split; [|by eapply Hr]. rewrite H1. rewrite <- (take_drop_middle ls j _ Hj) at 1. unfold served. rewrite bind_app. cbn. by rewrite <- app_assoc.
Qed.
End refinement.

(** A command that the handler does not answer is never answered. *)
Lemma actor_unanswered (st0 : St) ls s id c :
  actor_run (actor_start st0) ls s → (∀ e st r st', srv_handle e c st = Some (r, st') → r = None) →
  (id, c) ∈ called ls → id ∉ returned ls.
Proof.
  intros Hrun Hno Hin Hret. unfold returned in Hret. apply list_elem_of_bind in Hret as (l & Hid & Hl).
  destruct l as [| | |id' r|]; try (by apply not_elem_of_nil in Hid). apply list_elem_of_singleton in Hid as <-.
  apply list_elem_of_lookup in Hl as [k Hk].
  destruct (actor_invariant (fun _ => True) (fun _ => True) st0 ls s Hrun) as [_ H]; try done.
  destruct (H k id r Hk) as (e & c' & st1 & st2 & Hc' & _ & Hh).
  assert (Hok : run_ok st0 ls s) by by eapply run_ok_run. pose proof (ro_once _ _ _ Hok) as H4.
  assert (c' = c) as ->; [|by apply Hno in Hh].
  apply list_elem_of_lookup in Hc' as [a Ha]. apply list_elem_of_lookup in Hin as [b Hb].
  assert (a = b) as ->; [|congruence]. eapply NoDup_lookup; [exact H4|..]; rewrite list_lookup_fmap; [by rewrite Ha|by rewrite Hb].
Qed.
End promises.
