(* ===== verification/Zmtp.v ===== *)
(** * Zmtp: the data of the ZMTP 3 protocol
    (src/core_types.go, src/protocol_msg.go, src/protocol_zmtp.go)

    Socket types and their compatibility table, messages and commands, the
    64-byte greeting, frame flags, and the metadata properties exchanged in
    READY and INITIATE commands. *)

From Stdlib Require Import Strings.Byte ZArith Lia.
From stdpp Require Import base strings numbers gmap list.
From S2P Require Import Prelude.

#[local] Open Scope Z_scope.
#[local] Set Default Goal Selector "!".

(** ** Socket types (core_types.go) *)

(** [SocketType] is a Go string: a peer's type is whatever bytes it sent. *)
Definition SocketType : Type := bytes.

Definition Pair : SocketType := gs "PAIR".
Definition Pub : SocketType := gs "PUB".
Definition Sub : SocketType := gs "SUB".
Definition Req : SocketType := gs "REQ".
Definition Rep : SocketType := gs "REP".
Definition Dealer : SocketType := gs "DEALER".
Definition Router : SocketType := gs "ROUTER".
Definition Pull : SocketType := gs "PULL".
Definition Push : SocketType := gs "PUSH".
Definition XPub : SocketType := gs "XPUB".
Definition XSub : SocketType := gs "XSUB".

(** Equality of Go strings, as a boolean. *)
Definition beq (a b : bytes) : bool := bool_decide (a = b).

Definition IsCompatible (sck peer : SocketType) : outcome bool :=
  if beq sck Pair then Ret (beq peer Pair)
  else if beq sck Pub then Ret (beq peer Sub || beq peer XSub)
  else if beq sck Sub then Ret (beq peer Pub || beq peer XPub)
  else if beq sck Req then Ret (beq peer Rep || beq peer Router)
  else if beq sck Rep then Ret (beq peer Req || beq peer Dealer)
  else if beq sck Dealer then Ret (beq peer Rep || beq peer Dealer || beq peer Router)
  else if beq sck Router then Ret (beq peer Req || beq peer Dealer || beq peer Router)
  else if beq sck Pull then Ret (beq peer Push)
  else if beq sck Push then Ret (beq peer Pull)
  else if beq sck XPub then Ret (beq peer Sub || beq peer XSub)
  else if beq sck XSub then Ret (beq peer Pub || beq peer XPub)
  else Panic "unknown socket-type".

(** [SocketIdentity.String]: at most 255 octets. *)
Definition SocketIdentity_String (id : bytes) : bytes :=
  let n := if decide (255 < len id) then 255%nat else length id in take n id.

(** ** Messages (protocol_msg.go) *)

Inductive MsgType : Type := UsrMsg | CmdMsg.

#[global] Instance MsgType_eq_dec : EqDecision MsgType.
Proof. solve_decision. Defined.

Record Msg : Type := mkMsg {
  Frames : list bytes;
  Typ : MsgType;
  multipart : bool;
  msgerr : option error }.

(** [Msg{}] *)
Definition emptyMsg : Msg := mkMsg [] UsrMsg false None.

Definition NewMsg (frame : bytes) : Msg := mkMsg [frame] UsrMsg false None.
Definition NewMsgFrom (frames : list bytes) : Msg := mkMsg frames UsrMsg false None.
Definition NewMsgString (frame : bytes) : Msg := NewMsg frame.
Definition NewMsgFromString (frames : list bytes) : Msg :=
  mkMsg ((fun frame => [] ++ frame) <$> frames) UsrMsg false None.

Definition Msg_isCmd (m : Msg) : bool := bool_decide (Typ m = CmdMsg).
Definition Msg_Err (m : Msg) : option error := msgerr m.
Definition Msg_Bytes (m : Msg) : bytes := foldl (fun buf frame => buf ++ frame) [] (Frames m).
Definition Msg_size (m : Msg) : Z := foldl (fun n frame => n + len frame) 0 (Frames m).

(** [Clone] copies the frames only: type, multipart flag and error are reset. *)
Definition Msg_Clone (m : Msg) : Msg := mkMsg ((fun frame => frame) <$> Frames m) UsrMsg false None.

Record Cmd : Type := mkCmd { Name : bytes; Body : bytes }.

Definition ErrBadCmd : error := Sentinel "zmq4: invalid command name".
Definition ErrBadFrame : error := Sentinel "zmq4: invalid frame".
Definition errOverflow : error := Sentinel "zmq4: overflow".
Definition errGreeting : error := Sentinel "zmq4: invalid greeting received".
Definition errSecMech : error := Sentinel "zmq4: invalid security mechanism".
Definition errBadSec : error := Sentinel "zmq4: invalid or unsupported security mechanism".
Definition errEmptyAppMDKey : error := Sentinel "zmq4: empty application metadata key".
Definition errDupAppMDKey : error := Sentinel "zmq4: duplicate application metadata key".
Definition errBoolCnv : error := Sentinel "zmq4: invalid byte to bool conversion".

Definition Cmd_unmarshalZMTP (data : bytes) : outcome Cmd :=
  match data with
  | [] => Fail ErrUnexpectedEOF
  | b :: _ =>
      let n := Z.to_nat (byte_Z b) in
      if decide (len data - 1 < Z.of_nat n) then Fail ErrBadCmd
      else Ret (mkCmd (take n (drop 1 data)) (drop (n + 1) data))
  end.

Definition Cmd_marshalZMTP (cmd : Cmd) : outcome bytes :=
  let n := len (Name cmd) in
  if decide (255 < n) then Fail ErrBadCmd
  else Ret ([Z_byte n] ++ Name cmd ++ Body cmd).

Definition CmdError : bytes := gs "ERROR".
Definition CmdHello : bytes := gs "HELLO".
Definition CmdInitiate : bytes := gs "INITIATE".
Definition CmdPing : bytes := gs "PING".
Definition CmdPong : bytes := gs "PONG".
Definition CmdReady : bytes := gs "READY".
Definition CmdWelcome : bytes := gs "WELCOME".

(** ** Greeting (protocol_zmtp.go) *)

Definition sigHeader : byte := xff.
Definition sigFooter : byte := x7f.
Definition hasMoreBitFlag : Z := 0x1.
Definition isLongBitFlag : Z := 0x2.
Definition isCommandBitFlag : Z := 0x4.
Definition zmtpMsgLen : nat := 64.
Definition defaultVersion : byte * byte := (x03, x00).
Definition maxInt : Z := 2 ^ 63 - 1.
Definition maxInt64 : Z := 2 ^ 63 - 1.

(** The bytes before the first NUL. *)
Fixpoint asString (slice : bytes) : bytes :=
  match slice with
  | [] => []
  | b :: s => if decide (b = x00) then [] else b :: asString s
  end.

Definition asBool (b : byte) : outcome bool :=
  if decide (b = x00) then Ret false
  else if decide (b = x01) then Ret true
  else Fail errBoolCnv.

Record greeting : Type := mkGreeting {
  Header : byte;
  Footer : byte;
  Version : byte * byte;
  Mechanism : bytes;      (* [20]byte *)
  Server : byte }.

(** The zero value of the struct. *)
Definition greeting0 : greeting := mkGreeting x00 x00 (x00, x00) (replicate 20 x00) x00.

(** [copy(dst, src)] into an array of [length dst] bytes. *)
Definition go_copy (dst src : bytes) : bytes :=
  take (length dst) src ++ drop (length src) dst.

(** [unmarshal] of a slice of at least [zmtpMsgLen] bytes. *)
Definition greeting_unmarshal (data : bytes) : M greeting unit :=
  if decide (length data < zmtpMsgLen)%nat then mpanic "slice bounds out of range"
  else
    h ← lift (idx data 0); f ← lift (idx data 9);
    v0 ← lift (idx data 10); v1 ← lift (idx data 11);
    s ← lift (idx data 32);
    mupd (fun g => mkGreeting h f (v0, v1) (go_copy (Mechanism g) (take 20 (drop 12 data))) s).

Definition greeting_marshal (g : greeting) : bytes :=
  [Header g] ++ replicate 8 x00 ++ [Footer g] ++ [fst (Version g); snd (Version g)] ++
  go_copy (replicate 20 x00) (Mechanism g) ++ [Server g] ++ replicate 31 x00.

Definition greeting_validate (g : greeting) (ref : byte * byte) : bool :=
  let '(v0, v1) := Version g in
  let '(r0, r1) := ref in
  if decide (Version g = ref) then true
  else if decide (byte_Z r0 < byte_Z v0 ∨ (v0 = r0 ∧ byte_Z r1 < byte_Z v1)) then true
  else if decide (byte_Z v0 < byte_Z r0 ∨ (v0 = r0 ∧ byte_Z v1 < byte_Z r1)) then false
  else false.

(** The checks [greeting.read] makes on the 64 bytes it received. *)
Definition greeting_check (data : bytes) : M greeting unit :=
  greeting_unmarshal data;;
  g ← mget;
  if decide (Header g ≠ sigHeader) then mfail (Wrap "invalid ZMTP signature header" errGreeting)
  else if decide (Footer g ≠ sigFooter) then mfail (Wrap "invalid ZMTP signature footer" errGreeting)
  else if negb (greeting_validate g defaultVersion) then mfail (Wrap "invalid ZMTP version" errGreeting)
  else mret tt.

(** Frame flags. *)
Definition hasMore (fl : byte) : bool := Z.land (byte_Z fl) hasMoreBitFlag =? hasMoreBitFlag.
Definition isLong (fl : byte) : bool := Z.land (byte_Z fl) isLongBitFlag =? isLongBitFlag.
Definition isCommand (fl : byte) : bool := Z.land (byte_Z fl) isCommandBitFlag =? isCommandBitFlag.

(** ** Metadata (protocol_zmtp.go) *)

Definition sysSockType : bytes := gs "Socket-Type".
Definition sysSockID : bytes := gs "Identity".

(** Metadata is a Go map from strings to strings. *)
Abbreviation Metadata := (gmap bytes bytes).

Record Property : Type := mkProperty { PK : bytes; PV : bytes }.

(** [data[lo:hi]] of a slice with [spare] bytes between its length and its
    capacity: Go checks the bounds against the capacity. *)
Definition subslice (data spare : bytes) (lo hi : nat) : outcome bytes :=
  if decide (lo <= hi <= length data + length spare)%nat
  then Ret (take (hi - lo) (drop lo (data ++ spare)))
  else Panic "slice bounds out of range".

Section metadata.
(** [toTitle] is [cases.Title(language.Und, cases.NoLower)] of
    golang.org/x/text, and [ToLower] is [strings.ToLower]. *)
Context (toTitle ToLower : bytes → bytes).

(** [Property.Read] into a buffer with room for [avail] bytes: the bytes
    written. It always ends with io.EOF, which [io.Copy] takes as the end. *)
Definition Property_Read (prop : Property) (avail : nat) : outcome bytes :=
  let klen := length (PK prop) in
  let vlen := length (PV prop) in
  let size := (1 + klen + 4 + vlen)%nat in
  if decide (avail < size)%nat then Panic "slice bounds out of range"
  else Ret ([Z_byte (Z.of_nat klen)] ++ take klen (toTitle (PK prop)) ++
            be_put 4 (Z.of_nat vlen) ++ PV prop).

(** [Property.Write]: the property read and the number of bytes consumed. *)
Definition Property_Write (data spare : bytes) : outcome (Property * nat) :=
  k ← idx data 0;
  let klen := Z.to_nat (byte_Z k) in
  let n := 1%nat in
  if decide (length data < klen)%nat then Fail ErrUnexpectedEOF
  else
    kb ← subslice data spare n (n + klen);
    let n := (n + klen)%nat in
    vb ← subslice data spare n (n + 4);
    let v := be_get vb in
    let n := (n + 4)%nat in
    if decide (maxInt < v) then Fail errOverflow
    else
      let vlen := Z.to_nat v in
      if decide (length data < n + vlen)%nat then Fail ErrUnexpectedEOF
      else
        V ← subslice data spare n (n + vlen);
        Ret (mkProperty (toTitle kb) V, (n + vlen)%nat).

(** The name under which a key travels, before [Read] titles it. *)
Definition wire_key (k : bytes) : bytes :=
  if decide (k = sysSockID ∨ k = sysSockType) then k else gs "X-" ++ ToLower k.

(** [MarshalZMTP] over the entries in the order [range] yields them; [room]
    is the free space [bytes.Buffer.ReadFrom] offers to [Read] (at least
    [bytes.MinRead] = 512) when the buffer already holds its argument. *)
Fixpoint MarshalZMTP_loop (room : bytes → nat) (entries : list (bytes * bytes))
    (keys : list bytes) (buf : bytes) : outcome bytes :=
  match entries with
  | [] => Ret buf
  | (k, v) :: rest =>
      if decide (len k = 0) then Fail errEmptyAppMDKey
      else
        let key := ToLower k in
        if decide (key ∈ keys) then Fail errDupAppMDKey
        else
          w ← Property_Read (mkProperty (wire_key k) v) (room buf);
          MarshalZMTP_loop room rest (key :: keys) (buf ++ w)
  end.

Definition Metadata_MarshalZMTP (range : Metadata → list (bytes * bytes)) (room : bytes → nat)
    (md : Metadata) : outcome bytes :=
  MarshalZMTP_loop room (range md) [] [].

(** [UnmarshalZMTP]: fuel bounds the number of properties; every property
    takes at least five bytes, so [length p] iterations are enough. *)
Fixpoint UnmarshalZMTP_loop (fuel : nat) (p spare : bytes) : M Metadata unit :=
  match p with
  | [] => mret tt
  | _ =>
      match fuel with
      | O => mpanic "out of fuel"
      | S fuel' =>
          '(kv, n) ← lift (Property_Write p spare);
          mupd (fun md => <[toTitle (PK kv) := PV kv]> md);;
          UnmarshalZMTP_loop fuel' (drop n p) spare
      end
  end.

Definition Metadata_UnmarshalZMTP (p spare : bytes) : M Metadata unit :=
  UnmarshalZMTP_loop (length p) p spare.
End metadata.

(** ** Lemmas: commands *)

Lemma Cmd_unmarshal_app n name body :
  byte_Z n = len name → Cmd_unmarshalZMTP (n :: name ++ body) = Ret (mkCmd name body).
Proof.
  intros Hn. unfold Cmd_unmarshalZMTP. rewrite Hn, len_to_nat, len_cons, len_app.
  rewrite decide_False by (pose proof (len_nonneg body); unfold len in *; lia).
  rewrite Nat.add_comm. simpl. by rewrite drop_0, take_app_length, drop_app_length.
Qed.

Lemma Cmd_unmarshal_inv data cmd :
  Cmd_unmarshalZMTP data = Ret cmd →
  ∃ n, byte_Z n = len (Name cmd) ∧ data = n :: Name cmd ++ Body cmd.
Proof.
  unfold Cmd_unmarshalZMTP. destruct data as [|n data]; [done|].
  case_decide as H; [done|]. intros [= <-]. exists n. simpl.
  pose proof (byte_Z_range n). rewrite len_cons in H. unfold len in *. split.
  - rewrite drop_0, length_take. lia.
  - rewrite Nat.add_comm. simpl. by rewrite drop_0, take_drop.
Qed.

(** ** Lemmas: greetings *)

Lemma length_greeting_marshal g :
  length (Mechanism g) = 20%nat → length (greeting_marshal g) = zmtpMsgLen.
Proof.
  intros H. unfold greeting_marshal, go_copy.
  rewrite !length_app, length_take, length_drop, !length_replicate, H. reflexivity.
Qed.

Lemma go_copy_full dst src : length dst = length src → go_copy dst src = src.
Proof. intros H. unfold go_copy. by rewrite take_ge, drop_ge, app_nil_r by lia. Qed.

Lemma greeting_unmarshal_marshal g g0 :
  length (Mechanism g) = 20%nat → length (Mechanism g0) = 20%nat →
  greeting_unmarshal (greeting_marshal g) g0 = (Ret tt, g).
Proof.
  intros Hm Hm0. unfold greeting_unmarshal.
  rewrite length_greeting_marshal, decide_False by (done || (unfold zmtpMsgLen; lia)).
  destruct g as [h f [v0 v1] m s], g0 as [h' f' v' m' s']. simpl in Hm, Hm0.
  do 20 (destruct m as [|? m]; [simpl in Hm; lia|]). destruct m; [|simpl in Hm; lia].
  do 20 (destruct m' as [|? m']; [simpl in Hm0; lia|]). destruct m'; [|simpl in Hm0; lia].
  reflexivity.
Qed.

Lemma greeting_validate_lex g r0 r1 :
  greeting_validate g (r0, r1) = true ↔
  byte_Z r0 < byte_Z (Version g).1 ∨
  (byte_Z r0 = byte_Z (Version g).1 ∧ byte_Z r1 <= byte_Z (Version g).2).
Proof.
  unfold greeting_validate. destruct (Version g) as [v0 v1]. simpl.
  case_decide as E1; [injection E1 as -> ->; split; [right; lia|done]|].
  case_decide as E2.
  - split; [intros _|done]. destruct E2 as [|[-> ?]]; [by left|right; lia].
  - replace (if decide _ then false else false) with false by (by case_decide).
    split; [done|]. intros [H|[H1 H2]]; [exfalso; tauto|].
    apply byte_Z_inj in H1. subst. exfalso.
    destruct (decide (byte_Z r1 = byte_Z v1)) as [H|H]; [apply byte_Z_inj in H; congruence|].
    apply E2. right. split; [done|lia].
Qed.

Lemma asString_pad s n :
  Forall (fun b => b ≠ x00) s → asString (s ++ replicate n x00) = s.
Proof.
  induction 1 as [|b s Hb _ IH]; simpl; [by destruct n|]. by rewrite decide_False, IH.
Qed.

(** ** Lemmas: properties and metadata *)

Section metadata_lemmas.
Context (toTitle ToLower : bytes → bytes).

Lemma subslice_at data spare lo hi a x b :
  data = a ++ x ++ b → lo = length a → hi = (lo + length x)%nat →
  subslice data spare lo hi = Ret x.
Proof.
  intros -> -> ->. unfold subslice. rewrite decide_True by (rewrite !length_app; lia). f_equal.
  rewrite Nat.add_sub', <- !app_assoc, drop_app_length, take_app_length. done.
Qed.

Lemma Property_Write_app k key V rest spare :
  byte_Z k = len key → len V < 2 ^ 32 →
  Property_Write toTitle (k :: key ++ be_put 4 (len V) ++ V ++ rest) spare
  = Ret (mkProperty (toTitle key) V, (1 + length key + 4 + length V)%nat).
Proof.
  intros Hk HV. unfold Property_Write.
  change (idx (k :: _) 0) with (Ret k). cbn [mbind outcome_bind].
  rewrite Hk, len_to_nat. rewrite decide_False by (simpl; rewrite !length_app; lia).
  rewrite (subslice_at _ _ 1 _ [k] key (be_put 4 (len V) ++ V ++ rest)) by done.
  cbn [mbind outcome_bind].
  rewrite (subslice_at _ _ (1 + length key) _ (k :: key) (be_put 4 (len V)) (V ++ rest))
    by (done || (rewrite length_be_put; simpl; lia)).
  cbn [mbind outcome_bind]. rewrite be_get_put_small by (pose proof (len_nonneg V); lia).
  rewrite decide_False by (unfold maxInt; lia). rewrite len_to_nat.
  rewrite decide_False by (cbn [length]; rewrite !length_app, length_be_put; lia).
  rewrite (subslice_at _ _ _ _ (k :: key ++ be_put 4 (len V)) V rest); [done| | |done].
  - cbn [app]. by rewrite <- !app_assoc.
  - cbn [length]. rewrite length_app, length_be_put. lia.
Qed.

(** Every accepted property consumes at least five bytes. *)
Lemma Property_Write_consumes data spare kv n :
  Property_Write toTitle data spare = Ret (kv, n) → (5 <= n)%nat.
Proof.
  unfold Property_Write. intros H. obind H as k Hk. case_decide; [done|].
  obind H as kb Hkb. obind H as vb Hvb. case_decide; [done|]. case_decide; [done|].
  obind H as V HV. injection H as _ <-. lia.
Qed.

Lemma Property_Write_not_fuel data spare : Property_Write toTitle data spare ≠ Panic "out of fuel".
Proof.
  unfold Property_Write, subslice, idx. destruct (data !! 0%nat); [|done]. cbn [mbind outcome_bind].
  repeat (case_decide; try done; cbn [mbind outcome_bind]).
Qed.

Lemma UnmarshalZMTP_loop_fuel fuel : forall p spare md,
  (length p <= fuel)%nat →
  (UnmarshalZMTP_loop toTitle fuel p spare md).1 ≠ Panic "out of fuel".
Proof.
  induction fuel as [|fuel IH]; intros p spare md Hp.
  - by destruct p; [|simpl in Hp; lia].
  - destruct p as [|b p]; [done|]. cbn [UnmarshalZMTP_loop].
    unfold mbind, M_bind, lift at 1.
    pose proof (Property_Write_not_fuel (b :: p) spare) as Hnf.
    destruct (Property_Write _ _ _) as [[kv n]| |] eqn:E; [|done|simpl; congruence].
    apply Property_Write_consumes in E. unfold mupd. apply IH.
    rewrite length_drop. simpl in Hp |- *. lia.
Qed.

(** The entries as they travel. *)
Definition wire_entry (kv : bytes * bytes) : bytes :=
  let key := wire_key ToLower kv.1 in
  [Z_byte (len key)] ++ take (length key) (toTitle key) ++ be_put 4 (len kv.2) ++ kv.2.

Definition entry_ok (room : bytes → nat) (kv : bytes * bytes) : Prop :=
  kv.1 ≠ [] ∧ ∀ buf, (1 + length (wire_key ToLower kv.1) + 4 + length kv.2 <= room buf)%nat.

Lemma MarshalZMTP_loop_ok room entries : forall keys buf,
  Forall (entry_ok room) entries →
  NoDup (ToLower <$> entries.*1) →
  (∀ kv, kv ∈ entries → ToLower kv.1 ∉ keys) →
  MarshalZMTP_loop toTitle ToLower room entries keys buf
  = Ret (buf ++ concat (wire_entry <$> entries)).
Proof.
  induction entries as [|[k v] entries IH]; intros keys buf Hok Hnd Hk; simpl.
  - by rewrite app_nil_r.
  - apply Forall_cons_iff in Hok as [[Hne Hroom] Hok]. simpl in Hne, Hroom.
    rewrite decide_False by (by rewrite len_nil_iff).
    apply NoDup_cons in Hnd as [Hnin Hnd].
    rewrite decide_False by (apply (Hk (k, v)); left).
    unfold Property_Read. cbn [PK PV]. rewrite decide_False by (specialize (Hroom buf); lia).
    cbn [mbind outcome_bind]. rewrite IH; [by rewrite <- app_assoc|done|done|].
    intros [k' v'] Hin. rewrite not_elem_of_cons. split.
    + simpl. intros E. apply Hnin. simpl. rewrite <- E.
      apply list_elem_of_fmap_2, (list_elem_of_fmap_2 fst _ (k', v')), Hin.
    + apply (Hk (k', v')). by right.
Qed.

(** Title-casing keeps the length of the keys that travel and is idempotent
    on them: what a metadata round trip needs of golang.org/x/text. *)
Definition title_ok (k : bytes) : Prop :=
  let w := wire_key ToLower k in
  length (toTitle w) = length w ∧ toTitle (toTitle (toTitle w)) = toTitle w ∧ len w <= 255.

Lemma UnmarshalZMTP_loop_ok spare entries : forall fuel md,
  Forall (fun kv => title_ok kv.1 ∧ len kv.2 < 2 ^ 32) entries →
  (length (concat (wire_entry <$> entries)) <= fuel)%nat →
  UnmarshalZMTP_loop toTitle fuel (concat (wire_entry <$> entries)) spare md
  = (Ret tt, foldl (fun md kv => <[toTitle (wire_key ToLower kv.1) := kv.2]> md) md entries).
Proof.
  induction entries as [|[k v] entries IH]; intros fuel md Hok Hf.
  - by destruct fuel.
  - apply Forall_cons_iff in Hok as [[(Hl & Hi & H255) Hv] Hok]. simpl in Hl, Hi, H255, Hv.
    set (w := wire_key ToLower k) in *.
    assert (E : concat (wire_entry <$> (k, v) :: entries) =
      Z_byte (len (toTitle w)) :: toTitle w ++ be_put 4 (len v) ++ v ++ concat (wire_entry <$> entries)).
    { cbn [fmap list_fmap concat]. unfold wire_entry at 1. cbn [fst snd]. fold w.
      rewrite take_ge by lia. unfold len at 1 3. rewrite Hl, <- !app_assoc. done. }
    rewrite E in Hf |- *. destruct fuel as [|fuel]; [simpl in Hf; lia|].
    cbn [UnmarshalZMTP_loop].
    assert (Hb : byte_Z (Z_byte (len (toTitle w))) = len (toTitle w)).
    { rewrite byte_Z_Z_byte. apply Z.mod_small. unfold len in *. lia. }
    rewrite (M_bind_ret _ _ _ (mkProperty (toTitle (toTitle w)) v, (1 + length (toTitle w) + 4 + length v)%nat) md)
      by (apply lift_ret, Property_Write_app; done).
    cbn [PK PV]. rewrite (M_bind_ret _ _ _ tt (<[toTitle (toTitle (toTitle w)) := v]> md)) by done.
    rewrite Hi. cbn [foldl]. replace (drop _ _) with (concat (wire_entry <$> entries)).
    { apply IH; [done|]. cbn [length] in Hf. rewrite !length_app, length_be_put in Hf. lia. }
    symmetry. cbn [Nat.add drop]. rewrite !app_assoc.
    replace (length (toTitle w) + 4 + length v)%nat with (length ((toTitle w ++ be_put 4 (len v)) ++ v))
      by (rewrite !length_app, length_be_put; lia).
    by rewrite drop_app_length.
Qed.
End metadata_lemmas.

(** ** A concrete instance of the case mappings: ASCII *)

Definition ascii_lower (s : bytes) : bytes :=
  (fun b => let z := byte_Z b in if (65 <=? z) && (z <=? 90) then Z_byte (z + 32) else b) <$> s.

Fixpoint ascii_title_from (start : bool) (s : bytes) : bytes :=
  match s with
  | [] => []
  | b :: s' =>
      let z := byte_Z b in
      let lower := (97 <=? z) && (z <=? 122) in
      let upper := (65 <=? z) && (z <=? 90) in
      (if lower && start then Z_byte (z - 32) else b) :: ascii_title_from (negb (lower || upper)) s'
  end.

Definition ascii_title : bytes → bytes := ascii_title_from true.

(** ** Properties *)

Definition socket_types : list SocketType :=
  [Pair; Pub; Sub; Req; Rep; Dealer; Router; Pull; Push; XPub; XSub].

(** By evaluation of the table. *)
Lemma compat_table (a b : SocketType) :
  (a ∈ socket_types → b ∈ socket_types →
     ∃ r, IsCompatible a b = Ret r ∧ IsCompatible b a = Ret r) ∧
  (a ∉ socket_types → IsCompatible a b = Panic "unknown socket-type").
Proof.
  split.
  - intros Ha%list_elem_of_In Hb%list_elem_of_In.
    assert (Ht : forallb (fun x => forallb (fun y =>
       match IsCompatible x y, IsCompatible y x with Ret r, Ret r' => Bool.eqb r r' | _, _ => false end)
       socket_types) socket_types = true) by (vm_compute; reflexivity).
    rewrite forallb_forall in Ht. specialize (Ht a Ha). rewrite forallb_forall in Ht.
    specialize (Ht b Hb). destruct (IsCompatible a b) as [r| |], (IsCompatible b a) as [r'| |]; try done.
    apply Bool.eqb_prop in Ht as <-. eauto.
  - unfold socket_types. rewrite !not_elem_of_cons. intros H. destruct_and! H.
    unfold IsCompatible, beq. by rewrite !bool_decide_eq_false_2 by done.
Qed.

(** The compatibility table: between the eleven socket types the relation
    is decided without a panic and is symmetric, so both ends of a handshake
    agree on it; a type outside the table makes [IsCompatible] panic whatever
    the other end is. *)
Theorem IsCompatible_symmetric (a b : SocketType) :
  (a ∈ socket_types → b ∈ socket_types →
     ∃ r, IsCompatible a b = Ret r ∧ IsCompatible b a = Ret r) ∧
  (a ∉ socket_types → IsCompatible a b = Panic "unknown socket-type").
Proof. apply compat_table. Qed.


(** Command framing: a command whose name has at most 255 octets is
    marshalled, and unmarshalling restores it; conversely whatever
    [unmarshalZMTP] accepts is the marshalling of what it returns; a longer
    name is refused. *)
Theorem Cmd_roundtrip (cmd : Cmd) (data : bytes) :
  (len (Name cmd) <= 255 →
     ∃ w, Cmd_marshalZMTP cmd = Ret w ∧ Cmd_unmarshalZMTP w = Ret cmd) ∧
  (255 < len (Name cmd) → Cmd_marshalZMTP cmd = Fail ErrBadCmd) ∧
  (Cmd_unmarshalZMTP data = Ret cmd → Cmd_marshalZMTP cmd = Ret data).
Proof.
  pose proof (len_nonneg (Name cmd)). unfold Cmd_marshalZMTP. repeat split; intros H1.
  - rewrite decide_False by lia. eexists. split; [done|]. cbn [app].
    rewrite Cmd_unmarshal_app; [by destruct cmd|]. rewrite byte_Z_Z_byte. apply Z.mod_small. lia.
  - by rewrite decide_True.
  - apply Cmd_unmarshal_inv in H1 as (n & Hn & ->). pose proof (byte_Z_range n).
    rewrite decide_False by lia. by rewrite <- Hn, Z_byte_byte_Z.
Qed.


(** Greetings: the 64-byte wire form restores every greeting, and the
    receiver accepts it exactly when both signature bytes are right and the
    version is at least 3.0 in the lexicographic order. *)
Theorem greeting_roundtrip (g : greeting) :
  length (Mechanism g) = 20%nat →
  length (greeting_marshal g) = zmtpMsgLen ∧
  greeting_unmarshal (greeting_marshal g) greeting0 = (Ret tt, g) ∧
  ((greeting_check (greeting_marshal g) greeting0).1 = Ret tt ↔
     Header g = sigHeader ∧ Footer g = sigFooter ∧
     3 <= byte_Z (Version g).1).
Proof.
  intros Hm. split; [by apply length_greeting_marshal|].
  pose proof (greeting_unmarshal_marshal g greeting0 Hm eq_refl) as Hu. split; [done|].
  unfold greeting_check. rewrite (M_bind_ret _ _ _ tt g) by done.
  rewrite (M_bind_ret _ _ _ g g) by done.
  case_decide as H1; [split; [done|intros (? & _); done]|].
  case_decide as H2; [split; [done|intros (_ & ? & _); done]|].
  assert (Hh : Header g = sigHeader) by (destruct (decide (Header g = sigHeader)); tauto).
  assert (Hf : Footer g = sigFooter) by (destruct (decide (Footer g = sigFooter)); tauto).
  pose proof (greeting_validate_lex g x03 x00) as Hv. fold defaultVersion in Hv.
  change (byte_Z x03) with 3 in Hv. change (byte_Z x00) with 0 in Hv.
  pose proof (byte_Z_range (Version g).2).
  destruct (greeting_validate g defaultVersion); simpl; split; try done.
  - intros _. destruct Hv as [Hv _]. specialize (Hv eq_refl). repeat split; try done. lia.
  - intros (_ & _ & H3). assert (false = true); [|done]. apply Hv. lia.
Qed.

Lemma greeting_roundtrip_witness :
  (greeting_check (greeting_marshal (mkGreeting xff x7f (x03, x01) (replicate 20 x00) x00)) greeting0).1
  = Ret tt.
Proof.
  apply (greeting_roundtrip (mkGreeting xff x7f (x03, x01) (replicate 20 x00) x00)); [reflexivity|].
  repeat split. vm_compute. congruence.
Defined.

Section metadata_properties.
Context (toTitle ToLower : bytes → bytes).
Context (range : Metadata → list (bytes * bytes)) (room : bytes → nat).
Context (Hrange : range_order range).

(** The name a key has at the receiving end. *)
Definition peer_key (k : bytes) : bytes := toTitle (wire_key ToLower k).

(** What a metadata map must satisfy to travel: nonempty keys that fit their
    length octet, values that fit their length field and the writer's buffer,
    and no two keys that are confused by the case mappings. *)
Definition metadata_ok (md : Metadata) : Prop :=
  (∀ k v, md !! k = Some v →
     k ≠ [] ∧ title_ok toTitle ToLower k ∧ len v < 2 ^ 32 ∧
     ∀ buf, (1 + length (wire_key ToLower k) + 4 + length v <= room buf)%nat) ∧
  (∀ k k', is_Some (md !! k) → is_Some (md !! k') →
     ToLower k = ToLower k' ∨ peer_key k = peer_key k' → k = k').

Lemma metadata_ok_NoDup (f : bytes → bytes) md :
  (∀ k k', is_Some (md !! k) → is_Some (md !! k') → f k = f k' → k = k') →
  NoDup (f <$> (range md).*1).
Proof.
  intros Hinj. pose proof (range_order_NoDup range md Hrange) as Hnd.
  assert (Hin : ∀ k, k ∈ (range md).*1 → is_Some (md !! k)).
  { intros k. rewrite list_elem_of_fmap. intros ([k' v] & -> & H).
    rewrite (range_order_elem range md k' v Hrange) in H. simpl. eauto. }
  revert Hnd Hin. generalize ((range md).*1). induction l as [|k l IH]; intros Hnd Hin; [constructor|].
  apply NoDup_cons in Hnd as [Hk Hnd]. cbn. constructor.
  - rewrite list_elem_of_fmap. intros (k' & E & Hk'). apply Hk.
    rewrite (Hinj k k'); [done| |by apply Hin; right|done]. apply Hin. left.
  - apply IH; [done|]. intros k' H'. apply Hin. by right.
Qed.

Lemma metadata_wire md spare :
  metadata_ok md →
  let data := concat (wire_entry toTitle ToLower <$> range md) in
  Metadata_MarshalZMTP toTitle ToLower range room md = Ret data ∧
    Metadata_UnmarshalZMTP toTitle data spare ∅
    = (Ret tt, list_to_map (prod_map peer_key id <$> map_to_list md)).
Proof.
  cbv zeta. intros [Hok Hinj]. split.
  - unfold Metadata_MarshalZMTP. rewrite MarshalZMTP_loop_ok; [done| | |set_solver].
    + apply Forall_forall. intros [k v] Hin. rewrite (range_order_elem range md k v Hrange) in Hin.
      destruct (Hok k v Hin) as (? & _ & _ & ?). done.
    + apply metadata_ok_NoDup. eauto.
  - unfold Metadata_UnmarshalZMTP. rewrite UnmarshalZMTP_loop_ok with (ToLower := ToLower); [|clear -Hok Hrange|done].
    + f_equal. rewrite <- (foldl_insert_perm (prod_map peer_key id <$> range md)).
      * generalize (range md) (∅ : Metadata). clear. induction l as [|[k v] l IH]; intros m; [done|].
        simpl. apply IH.
      * rewrite <- list_fmap_compose. change (fst ∘ prod_map peer_key id) with (peer_key ∘ (fst : bytes * bytes → bytes)).
        rewrite list_fmap_compose. apply metadata_ok_NoDup. eauto.
      * by rewrite (Hrange md).
    + apply Forall_forall. intros [k v] Hin. rewrite (range_order_elem range md k v Hrange) in Hin.
      destruct (Hok k v Hin) as (_ & ? & ? & _). done.
Qed.
End metadata_properties.

(** C26. Metadata round trip: whatever order [range] visits the map in and
    whatever the free space of the buffer, a map whose keys are not confused
    by the case mappings is marshalled, and unmarshalling gives every value
    back under its travelling name (the key itself for Socket-Type and
    Identity, the titled X- name for application keys). The case mappings of
    strings and golang.org/x/text are parameters: length preservation and
    idempotence on the keys in use are what the code relies on. *)
Theorem metadata_roundtrip (toTitle ToLower : bytes → bytes)
    (range : Metadata → list (bytes * bytes)) (room : bytes → nat) (md : Metadata) (spare : bytes) :
  range_order range → metadata_ok toTitle ToLower room md →
  ∃ data md',
    Metadata_MarshalZMTP toTitle ToLower range room md = Ret data ∧
    Metadata_UnmarshalZMTP toTitle data spare ∅ = (Ret tt, md') ∧
    (∀ k v, md !! k = Some v → md' !! peer_key toTitle ToLower k = Some v) ∧
    (∀ k' v, md' !! k' = Some v → ∃ k, k' = peer_key toTitle ToLower k ∧ md !! k = Some v).
Proof.
  intros Hr Hok. destruct (metadata_wire toTitle ToLower range room Hr md spare Hok) as [Hm Hu].
  eexists _, _. split; [done|]. split; [done|]. destruct Hok as [_ Hinj].
  assert (Hnd : NoDup (prod_map (peer_key toTitle ToLower) id <$> map_to_list md).*1).
  { rewrite <- list_fmap_compose. change (fst ∘ prod_map _ id) with
      (peer_key toTitle ToLower ∘ (fst : bytes * bytes → bytes)).
    rewrite list_fmap_compose. apply (metadata_ok_NoDup map_to_list (fun m => reflexivity _)). eauto. }
  split.
  - intros k v Hk. apply elem_of_list_to_map_1; [done|].
    apply (list_elem_of_fmap_2 (prod_map (peer_key toTitle ToLower) id) _ (k, v)).
    by apply elem_of_map_to_list.
  - intros k' v Hk. apply elem_of_list_to_map_2, list_elem_of_fmap in Hk as ([k v'] & [= -> ->] & Hin).
    apply elem_of_map_to_list in Hin. eauto.
Qed.

(** The metadata of every [Conn]: its socket type and its identity. *)
Definition sys_metadata (typ id : bytes) : Metadata := <[sysSockID := id]> {[sysSockType := typ]}.

Lemma sys_metadata_ok toTitle ToLower room typ id :
  toTitle sysSockType = sysSockType → toTitle sysSockID = sysSockID →
  ToLower sysSockType ≠ ToLower sysSockID →
  (∀ buf, 512 <= room buf)%nat → len typ <= 255 → len id <= 255 →
  metadata_ok toTitle ToLower room (sys_metadata typ id).
Proof.
  intros Ht Hi Hl Hroom Htyp Hid. unfold sys_metadata, metadata_ok, title_ok, peer_key.
  assert (Hw : ∀ k, k = sysSockID ∨ k = sysSockType → wire_key ToLower k = k ∧ toTitle k = k).
  { intros k Hk. unfold wire_key. rewrite decide_True by done. by destruct Hk as [-> | ->]. }
  assert (Hk : ∀ k, is_Some (<[sysSockID:=id]> ({[sysSockType := typ]} : Metadata) !! k) →
                     k = sysSockID ∨ k = sysSockType).
  { intros k [v Hv]. destruct (decide (k = sysSockID)) as [->|?]; [by left|].
    rewrite lookup_insert_ne, lookup_singleton_Some in Hv by done. destruct Hv as [-> _]. by right. }
  split.
  - intros k v Hv. destruct (Hk k ltac:(eauto)) as [-> | ->];
      rewrite !(proj1 (Hw _ ltac:(auto))), ?Ht, ?Hi, ?Ht, ?Hi.
    + rewrite lookup_insert_eq in Hv. injection Hv as <-. unfold len in *.
      repeat split; try done; try lia. intros buf. specialize (Hroom buf). simpl. lia.
    + rewrite lookup_insert_ne, lookup_singleton_eq in Hv by done. injection Hv as <-. unfold len in *.
      repeat split; try done; try lia. intros buf. specialize (Hroom buf). simpl. lia.
  - intros k k' H1%Hk H2%Hk H. destruct (Hw k H1) as [E1 E1'], (Hw k' H2) as [E2 E2'].
    rewrite E1, E2, E1', E2' in H. destruct H as [H|H]; [|done].
    destruct H1 as [-> | ->], H2 as [-> | ->]; congruence.
Qed.

(** What the metadata of a [Conn] needs of the case mappings: the two system
    keys are title-cased and are told apart in lower case. *)
Record case_maps (toTitle ToLower : bytes → bytes) : Prop := {
  title_type : toTitle sysSockType = sysSockType;
  title_id : toTitle sysSockID = sysSockID;
  lower_ne : ToLower sysSockType ≠ ToLower sysSockID }.

Lemma ascii_case_maps : case_maps ascii_title ascii_lower.
Proof. split; [reflexivity|reflexivity|vm_compute; congruence]. Qed.

(** The metadata of a [Conn] is marshalled, fits in 539 bytes and is restored. *)
Lemma sys_metadata_wire toTitle ToLower range room typ id spare :
  case_maps toTitle ToLower → range_order range → (∀ buf, 512 <= room buf)%nat →
  len typ <= 255 → len id <= 255 →
  ∃ data, Metadata_MarshalZMTP toTitle ToLower range room (sys_metadata typ id) = Ret data ∧
    Metadata_UnmarshalZMTP toTitle data spare ∅ = (Ret tt, sys_metadata typ id) ∧ len data <= 539.
Proof.
  intros [Ht Hi Hl] Hr Hroom Htyp Hid.
  pose proof (sys_metadata_ok toTitle ToLower room typ id Ht Hi Hl Hroom Htyp Hid) as Hok.
  destruct (metadata_wire toTitle ToLower range room Hr _ spare Hok) as [Hm Hu].
  assert (Hp : map_to_list (sys_metadata typ id) ≡ₚ [(sysSockID, id); (sysSockType, typ)]).
  { unfold sys_metadata. rewrite map_to_list_insert by done. by rewrite map_to_list_singleton. }
  eexists. split; [exact Hm|]. rewrite Hu. split.
  - f_equal. rewrite <- (list_to_map_to_list (sys_metadata typ id)) at 2. f_equal.
    transitivity (Datatypes.id <$> map_to_list (sys_metadata typ id)); [|apply list_fmap_id].
    apply Forall_fmap_ext. rewrite Hp. unfold peer_key, wire_key.
    rewrite !Forall_cons_iff, Forall_nil. unfold prod_map. cbn [fst snd].
    rewrite !decide_True, Ht, Hi by auto. done.
  - rewrite <- (Hr (sys_metadata typ id)) in Hp. symmetry in Hp.
    apply Permutation_length_2_inv in Hp as [-> | ->];
      unfold wire_entry, wire_key; cbn [fmap list_fmap concat fst snd];
      rewrite !decide_True, Ht, Hi by auto; rewrite !take_ge by done;
      unfold len in *; rewrite !length_app, !length_be_put; cbn [length];
      change (length sysSockID) with 8%nat; change (length sysSockType) with 11%nat; lia.
Qed.

Lemma metadata_roundtrip_witness :
  ∃ data md',
    Metadata_MarshalZMTP ascii_title ascii_lower map_to_list (fun _ => 512%nat)
      (sys_metadata Rep (gs "me")) = Ret data ∧
    Metadata_UnmarshalZMTP ascii_title data [] ∅ = (Ret tt, md') ∧
    md' !! sysSockType = Some Rep.
Proof.
  destruct (metadata_roundtrip ascii_title ascii_lower map_to_list (fun _ => 512%nat)
    (sys_metadata Rep (gs "me")) []) as (data & md' & H1 & H2 & H3 & _).
  - intros m. reflexivity.
  - apply sys_metadata_ok; [reflexivity|reflexivity|vm_compute; congruence|intros; lia|vm_compute; congruence..].
  - exists data, md'. split; [done|]. split; [done|]. exact (H3 sysSockType Rep eq_refl).
Defined.

(** Malformed metadata: a body of one to four bytes whose slice has no
    spare capacity never yields an error value unless its first octet claims
    more bytes than the body has; in every other case the reader panics on a
    slice bound, because only [klen > len(data)] is tested before slicing. *)
Theorem short_metadata_panics (toTitle : bytes → bytes) (k : byte) (p : bytes) (md : Metadata) :
  len p <= 3 →
  Metadata_UnmarshalZMTP toTitle (k :: p) [] md =
    if decide (len p + 1 < byte_Z k) then (Fail ErrUnexpectedEOF, md)
    else (Panic "slice bounds out of range", md).
Proof.
  intros Hp. unfold Metadata_UnmarshalZMTP. cbn [length UnmarshalZMTP_loop].
  unfold Property_Write. change (idx (k :: p) 0) with (Ret k). cbn [outcome_bind].
  pose proof (byte_Z_range k). unfold len in *.
  destruct (decide (Z.of_nat (length p) + 1 < byte_Z k)) as [Hk|Hk].
  - unfold mbind at 1, M_bind, lift, mbind, outcome_bind. by rewrite decide_True by (simpl; lia).
  - unfold mbind at 1, M_bind, lift. unfold mbind, outcome_bind.
    rewrite decide_False by (simpl; lia). unfold subslice at 1.
    case_decide as H1; [|done]. unfold subslice at 1. by rewrite decide_False by (simpl; lia).
Qed.

Lemma short_metadata_panics_witness :
  Metadata_UnmarshalZMTP ascii_title [x00] [] ∅ = (Panic "slice bounds out of range", ∅).
Proof. apply (short_metadata_panics ascii_title x00 [] ∅). vm_compute. congruence. Defined.
