(* ===== verification/Proxy.v ===== *)
(** * Proxy: forwarding between two sockets (src/proxy.go)

    A proxy runs a goroutine per direction, which receives from one socket and
    sends on the other, and one for its control commands. The sockets are what
    their [Recv] will return and what their [Send] has taken. *)

From Stdlib Require Import Strings.Byte ZArith Lia.
From stdpp Require Import base strings numbers gmap relations list.
From S2P Require Import Prelude Zmtp.

#[local] Set Default Goal Selector "!".

(** ** State *)

Inductive proxyCmd : Type := proxyStats | proxyPause | proxyResume | proxyKill.

(** [px_frontIn], [px_backIn]: the results of [Recv] on the two sockets, a
    message with an error; [px_frontOut], [px_backOut], [px_captured]: what has
    been sent; [px_quit]: [quit] is closed; [px_control], [px_toBack],
    [px_toFront]: the goroutines that run. *)
Record Proxy : Type := mkProxy {
  px_frontIn : list (Msg * option error);
  px_backIn : list (Msg * option error);
  px_frontOut : list Msg;
  px_backOut : list Msg;
  px_captured : list Msg;
  px_quit : bool;
  px_cancelled : bool;
  px_control : bool;
  px_toBack : bool;
  px_toFront : bool }.

Section proxy.
(** The types of the sockets; whether there is a socket for captures; the
    errors of [Send] on the frontend ([false]) and the backend ([true]). *)
Context (front back : SocketType) (capture : bool) (send_err : bool → Msg → option error).

Definition canRecv (t : SocketType) : bool := negb (bool_decide (t = Push)).
Definition canSend (t : SocketType) : bool := negb (bool_decide (t = Pull)).

(** [init]: a direction has a goroutine when its source can receive. *)
Definition NewProxy (frontIn backIn : list (Msg * option error)) : Proxy :=
  mkProxy frontIn backIn [] [] [] false false true (canRecv front) (canRecv back).

(** What an iteration does with what it received: what is sent on, and what is
    sent to the capture socket. The error of [Recv] is replaced by that of
    [Send] when the destination can send. *)
Definition forward (dst : bool) (r : Msg * option error) : list Msg * list Msg :=
  let '(msg, err) := r in
  let can := canSend (if dst then back else front) in
  let err := if can then send_err dst msg else err in
  match can, err with
  | true, Some _ => ([], [])
  | _, _ =>
      (if can then [msg] else [],
       match err with None => if capture && bool_decide (Frames msg ≠ []) then [msg] else [] | Some _ => [] end)
  end.

(** One iteration of the goroutine that sends to the backend ([true]) or the
    frontend: [None] when it does not run or waits in [Recv]. When both the
    context is cancelled and [quit] is closed either case returns. *)
Definition pump (dst : bool) (p : Proxy) : option Proxy :=
  if dst then
    match px_toBack p, px_frontIn p with
    | true, r :: rest =>
        if px_cancelled p || px_quit p
        then Some (mkProxy rest (px_backIn p) (px_frontOut p) (px_backOut p) (px_captured p) (px_quit p) (px_cancelled p) (px_control p) false (px_toFront p))
        else
          let '(out, cap) := forward true r in
          Some (mkProxy rest (px_backIn p) (px_frontOut p) (px_backOut p ++ out) (px_captured p ++ cap) (px_quit p) (px_cancelled p) (px_control p) (px_toBack p) (px_toFront p))
    | _, _ => None
    end
  else
    match px_toFront p, px_backIn p with
    | true, r :: rest =>
        if px_cancelled p || px_quit p
        then Some (mkProxy (px_frontIn p) rest (px_frontOut p) (px_backOut p) (px_captured p) (px_quit p) (px_cancelled p) (px_control p) (px_toBack p) false)
        else
          let '(out, cap) := forward false r in
          Some (mkProxy (px_frontIn p) rest (px_frontOut p ++ out) (px_backOut p) (px_captured p ++ cap) (px_quit p) (px_cancelled p) (px_control p) (px_toBack p) (px_toFront p))
    | _, _ => None
    end.

(** [Pause], [Stats], [Resume] and [Kill]: the command is received, as the
    channel has no buffer; [None] when the caller waits. *)
Definition control (cmd : proxyCmd) (p : Proxy) : option Proxy :=
  if px_control p then
    match cmd with
    | proxyPause | proxyResume | proxyStats => Some p
    | proxyKill =>
        Some (mkProxy (px_frontIn p) (px_backIn p) (px_frontOut p) (px_backOut p) (px_captured p) true (px_cancelled p) false (px_toBack p) (px_toFront p))
    end
  else None.

(** The context is cancelled, by the caller or by the errgroup; the control
    goroutine sees it. *)
Definition cancel_proxy (p : Proxy) : Proxy :=
  mkProxy (px_frontIn p) (px_backIn p) (px_frontOut p) (px_backOut p) (px_captured p) (px_quit p) true (px_control p) (px_toBack p) (px_toFront p).
Definition control_exit (p : Proxy) : Proxy :=
  mkProxy (px_frontIn p) (px_backIn p) (px_frontOut p) (px_backOut p) (px_captured p) (px_quit p) (px_cancelled p) false (px_toBack p) (px_toFront p).

(** [Run] returns when no goroutine is left. *)
Definition Run_returns (p : Proxy) : bool := negb (px_control p || px_toBack p || px_toFront p).

(** More results of [Recv] on either socket. *)
Definition arrive (fs bs : list (Msg * option error)) (p : Proxy) : Proxy :=
  mkProxy (px_frontIn p ++ fs) (px_backIn p ++ bs) (px_frontOut p) (px_backOut p) (px_captured p)
    (px_quit p) (px_cancelled p) (px_control p) (px_toBack p) (px_toFront p).

Inductive proxy_step : Proxy → Proxy → Prop :=
| PxPump dst p p' : pump dst p = Some p' → proxy_step p p'
| PxControl cmd p p' : control cmd p = Some p' → proxy_step p p'
| PxCancel p : proxy_step p (cancel_proxy p)
| PxExit p : px_cancelled p = true → proxy_step p (control_exit p).

(** Runs from the start, with everything that arrived on the two sockets. *)
Inductive proxy_run : list (Msg * option error) → list (Msg * option error) → Proxy → Prop :=
| run_start f b : proxy_run f b (NewProxy f b)
| run_arrive f b fs bs p : proxy_run f b p → proxy_run (f ++ fs) (b ++ bs) (arrive fs bs p)
| run_step f b p p' : proxy_run f b p → proxy_step p p' → proxy_run f b p'.

(** ** What is forwarded *)

(** A direction: of what arrived at its source, [taken] was forwarded, [lost]
    was received after the end, and [rest] waits. *)
Definition direction_ok (dst running : bool) (arrived taken lost rest : list (Msg * option error)) (out : list Msg) : Prop :=
  arrived = taken ++ lost ++ rest ∧ out = taken ≫= (fun r => (forward dst r).1) ∧ (length lost <= 1)%nat ∧ (running = true → lost = []).

Definition proxy_ok (f b tf lf tb lb : list (Msg * option error)) (p : Proxy) : Prop :=
  direction_ok true (px_toBack p) f tf lf (px_frontIn p) (px_backOut p) ∧
  direction_ok false (px_toFront p) b tb lb (px_backIn p) (px_frontOut p) ∧
  px_captured p ≡ₚ (tf ≫= (fun r => (forward true r).2)) ++ (tb ≫= (fun r => (forward false r).2)).

Lemma bind_snoc {A B} (g : A → list B) l x : (l ++ [x]) ≫= g = (l ≫= g) ++ g x.
Proof. rewrite bind_app. cbn. by rewrite app_nil_r. Qed.

Lemma direction_arrive dst running arrived taken lost rest out more :
  direction_ok dst running arrived taken lost rest out → direction_ok dst running (arrived ++ more) taken lost (rest ++ more) out.
Proof. intros (-> & -> & Hl & Hr). split_and!; [by rewrite <- !app_assoc|done..]. Qed.

Lemma direction_take dst arrived taken lost r rest out :
  direction_ok dst true arrived taken lost (r :: rest) out → direction_ok dst true arrived (taken ++ [r]) [] rest (out ++ (forward dst r).1).
Proof.
  intros (-> & -> & Hl & Hr). rewrite (Hr eq_refl). split_and!; [by rewrite <- app_assoc| |cbn; lia|done].
  by rewrite bind_snoc.
Qed.

Lemma direction_lose dst arrived taken lost r rest out :
  direction_ok dst true arrived taken lost (r :: rest) out → direction_ok dst false arrived taken [r] rest out.
Proof. intros (-> & -> & Hl & Hr). rewrite (Hr eq_refl). by split_and!. Qed.

Lemma proxy_ok_pump dst f b tf lf tb lb p p' :
  proxy_ok f b tf lf tb lb p → pump dst p = Some p' → ∃ tf lf tb lb, proxy_ok f b tf lf tb lb p'.
Proof.
  intros (HF & HB & HC) E. unfold pump in E. destruct dst.
  - destruct (px_toBack p) eqn:Hrun; [|done]. destruct (px_frontIn p) as [|r rest] eqn:Hin; [done|].
    destruct (px_cancelled p || px_quit p); [|destruct (forward true r) as [out cap] eqn:Hf]; injection E as <-.
    + exists tf, [r], tb, lb. split_and!; [|done|done]. cbn. by eapply direction_lose.
    + exists (tf ++ [r]), [], tb, lb. split_and!; [|done|].
      * apply direction_take in HF. by rewrite Hf in HF.
      * cbn. rewrite HC, bind_snoc, Hf. cbn. rewrite <- !app_assoc. f_equiv. apply Permutation_app_comm.
  - destruct (px_toFront p) eqn:Hrun; [|done]. destruct (px_backIn p) as [|r rest] eqn:Hin; [done|].
    destruct (px_cancelled p || px_quit p); [|destruct (forward false r) as [out cap] eqn:Hf]; injection E as <-.
    + exists tf, lf, tb, [r]. split_and!; [done| |done]. cbn. by eapply direction_lose.
    + exists tf, lf, (tb ++ [r]), []. split_and!; [done| |].
      * apply direction_take in HB. by rewrite Hf in HB.
      * cbn. by rewrite HC, bind_snoc, Hf, <- app_assoc.
Qed.

(** A proxy forwards everything once and in order: in every run, what was
    sent on the backend is what arrived on the frontend, message by message,
    but for messages whose sending failed, and vice versa; what has arrived is
    forwarded or still waits, but for at most one message per direction, received
    after the proxy was killed or cancelled; and the capture socket got every message
    that was forwarded and has frames, from both directions. *)
Theorem proxy_forwards f b p :
  proxy_run f b p → ∃ tf lf tb lb, proxy_ok f b tf lf tb lb p.
Proof.
  induction 1 as [f b|f b fs bs p _ (tf & lf & tb & lb & HF & HB & HC)|f b p p' _ (tf & lf & tb & lb & Hok) Hstep].
  - exists [], [], [], []. split_and!; [..|done]; split_and!; cbn; try done; lia.
  - exists tf, lf, tb, lb. split_and!; [by apply direction_arrive..|done].
  - destruct Hstep as [dst p p' E|cmd p p' E|p|p Hc].
    + by eapply proxy_ok_pump.
    + unfold control in E. destruct (px_control p); [|done]. exists tf, lf, tb, lb. by destruct cmd; injection E as <-.
    + by exists tf, lf, tb, lb.
    + by exists tf, lf, tb, lb.
Qed.

(** ** Killing *)

(** A killed proxy forwards nothing more, but it does not end before each
    of its directions has received something, which is dropped; the control
    commands, [Kill] too, then wait forever; and while it runs, pausing it has
    no effect. *)
Theorem proxy_kill p0 p p' :
  control proxyKill p0 = Some p → rtc (fun p p' => proxy_step p p' ∨ ∃ fs bs, p' = arrive fs bs p) p p' →
  px_backOut p' = px_backOut p0 ∧ px_frontOut p' = px_frontOut p0 ∧ px_captured p' = px_captured p0 ∧
  (∀ cmd, control cmd p' = None) ∧
  (∀ dst : bool, (if dst then px_toBack p' else px_toFront p') = true → (if dst then px_frontIn p' else px_backIn p') = [] → pump dst p' = None ∧ Run_returns p' = false) ∧
  control proxyPause p0 = Some p0.
Proof.
  intros E Hrun. unfold control in E. destruct (px_control p0) eqn:Hctl; [|done]. injection E as <-.
  assert (Hinv : ∀ q q', rtc (fun p p' => proxy_step p p' ∨ ∃ fs bs, p' = arrive fs bs p) q q' → px_quit q = true → px_control q = false →
    px_quit q' = true ∧ px_control q' = false ∧ px_backOut q' = px_backOut q ∧ px_frontOut q' = px_frontOut q ∧ px_captured q' = px_captured q).
  { clear. induction 1 as [q|q q1 q2 Hstep _ IH]; intros Hq Hc; [done|].
    assert (H1 : px_quit q1 = true ∧ px_control q1 = false ∧ px_backOut q1 = px_backOut q ∧ px_frontOut q1 = px_frontOut q ∧ px_captured q1 = px_captured q).
    { destruct Hstep as [Hstep|(fs & bs & ->)]; [|done]. inversion Hstep as [dst ? ? E|cmd ? ? E|?|? ?]; subst; try done.
      - unfold pump in E. rewrite Hq, orb_true_r in E. repeat case_match; by simplify_eq.
      - unfold control in E. by rewrite Hc in E. }
    destruct H1 as (H1 & H2 & <- & <- & <-). by apply IH. }
  destruct (Hinv _ _ Hrun eq_refl eq_refl) as (Hq & Hc & H1 & H2 & H3). cbn in *. split_and!; try done.
  - intros cmd. unfold control. by rewrite Hc.
  - intros dst Hr Hi. unfold pump, Run_returns. destruct dst; rewrite Hr, ?Hi, ?orb_true_r; done.
  - unfold control. by rewrite Hctl.
Qed.

(** An error of [Recv] is forwarded as a message: when the destination can
    send, what came with the error is sent on, an empty message, and reported
    nowhere. *)
Theorem proxy_forwards_errors (dst : bool) e :
  canSend (if dst then back else front) = true → send_err dst emptyMsg = None → forward dst (emptyMsg, Some e) = ([emptyMsg], []).
Proof. intros Hc Hs. unfold forward. rewrite Hc, Hs. by destruct capture. Qed.
End proxy.

(** ** Witnesses *)

Definition no_send_err (dst : bool) (m : Msg) : option error := None.

Lemma proxy_forwards_witness :
  let f := [(NewMsg (gs "a"), None)] in
  ∃ p, proxy_run Router Dealer true no_send_err f [] p ∧ px_backOut p = [NewMsg (gs "a")] ∧
    ∃ tf lf tb lb, proxy_ok Router Dealer true no_send_err f [] tf lf tb lb p.
Proof.
  intros f. destruct (pump Router Dealer true no_send_err true (NewProxy Router Dealer f [])) as [p|] eqn:E; [|by vm_compute in E].
  assert (Hrun : proxy_run Router Dealer true no_send_err f [] p) by (eapply run_step; [apply run_start|by eapply PxPump]).
  exists p. split; [done|]. split; [vm_compute in E; by simplify_eq|]. exact (proxy_forwards Router Dealer true no_send_err f [] p Hrun).
Defined.

Lemma proxy_kill_witness :
  ∃ p, control proxyKill (NewProxy Router Dealer [] []) = Some p ∧ control proxyKill p = None ∧ Run_returns p = false.
Proof.
  destruct (control proxyKill (NewProxy Router Dealer [] [])) as [p|] eqn:E; [|by vm_compute in E]. exists p. split; [done|].
  destruct (proxy_kill Router Dealer true no_send_err (NewProxy Router Dealer [] []) p p E (rtc_refl _ _)) as (_ & _ & _ & Hctl & Hwait & _).
  split; [apply Hctl|]. apply (Hwait true); vm_compute in E; by simplify_eq.
Defined.

Lemma proxy_forwards_errors_witness : forward Router Dealer true no_send_err true (emptyMsg, Some EOF) = ([emptyMsg], []).
Proof. apply (proxy_forwards_errors Router Dealer true no_send_err); reflexivity. Defined.
