(* ===== verification/Conn.v ===== *)
(** * Conn: a ZMTP connection (src/protocol_conn.go, src/security.go)

    A connection owns a [net.Conn], modelled as the bytes that will still
    arrive, the error that follows them, and the bytes written so far. The
    security mechanism is an interface: a record of operations over its own
    state, the optional methods the code reaches by type assertion being
    optional fields. Every method is a computation over the connection; a
    method that returns a [Msg] carrying its error returns it as a value, as
    the code does. Trace output and log lines are not modelled. *)

From Stdlib Require Import Strings.Byte ZArith Lia.
From stdpp Require Import base strings numbers gmap list.
From S2P Require Import Prelude Zmtp.

#[local] Open Scope Z_scope.
#[local] Set Default Goal Selector "!".

(** ** The network connection *)

Record netconn : Type := mkNet {
  nc_in : bytes;           (* bytes that will still be received *)
  nc_end : error;          (* what [Read] reports after them *)
  nc_out : bytes;          (* bytes written so far *)
  nc_room : option nat;    (* bytes that can still be written; [None]: no limit *)
  nc_werr : error;         (* what [Write] reports when the room is used up *)
  nc_open : bool }.

(** The error of an operation on a closed [net.Conn]: a non-timeout [net.Error]. *)
Definition errNetClosed : error := NetErr false.

(** [io.ReadFull(rw, buf)] with [len(buf) = n]. *)
Definition rw_readfull (n : nat) : M netconn bytes := fun c =>
  if decide (n = 0%nat) then (Ret [], c)
  else if negb (nc_open c) then (Fail errNetClosed, c)
  else if decide (n <= length (nc_in c))%nat then
    (Ret (take n (nc_in c)),
     mkNet (drop n (nc_in c)) (nc_end c) (nc_out c) (nc_room c) (nc_werr c) true)
  else
    let e := match nc_in c, nc_end c with
             | _ :: _, EOF => ErrUnexpectedEOF
             | _, e => e
             end in
    (Fail e, mkNet [] (nc_end c) (nc_out c) (nc_room c) (nc_werr c) true).

(** [rw.Write(p)]: all of [p], or a prefix and an error. *)
Definition rw_write (p : bytes) : M netconn unit := fun c =>
  if negb (nc_open c) then (Fail errNetClosed, c)
  else match nc_room c with
  | None => (Ret tt, mkNet (nc_in c) (nc_end c) (nc_out c ++ p) None (nc_werr c) true)
  | Some k =>
      if decide (length p <= k)%nat then
        (Ret tt, mkNet (nc_in c) (nc_end c) (nc_out c ++ p) (Some (k - length p)%nat) (nc_werr c) true)
      else
        (Fail (nc_werr c),
         mkNet (nc_in c) (nc_end c) (nc_out c ++ take k p) (Some 0%nat) (nc_werr c) true)
  end.

Definition rw_close : M netconn unit := fun c =>
  (if nc_open c then Ret tt else Fail errNetClosed,
   mkNet (nc_in c) (nc_end c) (nc_out c) (nc_room c) (nc_werr c) false).

(** ** Security mechanisms (security.go) *)

Definition NullSecurity : bytes := gs "NULL".
Definition PlainSecurity : bytes := gs "PLAIN".
Definition CurveSecurity : bytes := gs "CURVE".

(** The methods of a mechanism with state [SS], [Handshake] apart. [Encrypt]
    and [Decrypt] give the bytes they write to their writer. *)
Record secops (SS : Type) : Type := mkSec {
  sec_Type : bytes;
  sec_Encrypt : bytes → M SS bytes;
  sec_Decrypt : bytes → M SS bytes;
  sec_EncryptWithFlags : option (bytes → bool → M SS bytes);
  sec_EnsureMessageReadiness : option (bool → M SS unit);  (* argument: conn.Closed() *)
  sec_EncryptHandshakeCommand : option (bytes → bytes → M SS bytes);
  sec_HandshakeState : option (SS → Z) }.
Arguments sec_Type {SS}. Arguments sec_Encrypt {SS}. Arguments sec_Decrypt {SS}.
Arguments sec_EncryptWithFlags {SS}. Arguments sec_EnsureMessageReadiness {SS}.
Arguments sec_EncryptHandshakeCommand {SS}. Arguments sec_HandshakeState {SS}.

(** [nullSecurity]: no state, [Encrypt] and [Decrypt] copy. *)
Definition nullSecurity : secops unit :=
  mkSec unit NullSecurity mret mret None None None None.

(** ** The connection *)

(** Notifications a connection sends to its socket. *)
Inductive hbevent : Type := HbActivity | HbPong.

Record Conn (SS : Type) : Type := mkConn {
  c_typ : SocketType;
  c_id : bytes;
  c_rw : netconn;
  c_sec : SS;
  c_Server : bool;
  c_Meta : Metadata;
  c_PeerServer : bool;
  c_PeerMeta : Metadata;
  c_topics : gset bytes;
  c_closed : bool;
  c_onClose : option nat;              (* [onCloseErrorCB]: calls received, [None] when nil *)
  c_heartbeat : option (list hbevent)  (* [heartbeatNotifyCB]: calls received, [None] when nil *) }.
Arguments mkConn {SS}. Arguments c_typ {SS}. Arguments c_id {SS}. Arguments c_rw {SS}.
Arguments c_sec {SS}. Arguments c_Server {SS}. Arguments c_Meta {SS}. Arguments c_PeerServer {SS}.
Arguments c_PeerMeta {SS}. Arguments c_topics {SS}. Arguments c_closed {SS}.
Arguments c_onClose {SS}. Arguments c_heartbeat {SS}.

Section conn.
Context {SS : Type} (sec : secops SS).
(** The largest slice [make] can allocate on the platform. *)
Context (maxAlloc : Z).

Definition set_rw (w : netconn) (c : Conn SS) : Conn SS :=
  mkConn (c_typ c) (c_id c) w (c_sec c) (c_Server c) (c_Meta c) (c_PeerServer c) (c_PeerMeta c)
    (c_topics c) (c_closed c) (c_onClose c) (c_heartbeat c).
Definition set_sec (s : SS) (c : Conn SS) : Conn SS :=
  mkConn (c_typ c) (c_id c) (c_rw c) s (c_Server c) (c_Meta c) (c_PeerServer c) (c_PeerMeta c)
    (c_topics c) (c_closed c) (c_onClose c) (c_heartbeat c).
Definition set_peer (b : bool) (md : Metadata) (c : Conn SS) : Conn SS :=
  mkConn (c_typ c) (c_id c) (c_rw c) (c_sec c) (c_Server c) (c_Meta c) b md
    (c_topics c) (c_closed c) (c_onClose c) (c_heartbeat c).
Definition set_topics (t : gset bytes) (c : Conn SS) : Conn SS :=
  mkConn (c_typ c) (c_id c) (c_rw c) (c_sec c) (c_Server c) (c_Meta c) (c_PeerServer c) (c_PeerMeta c)
    t (c_closed c) (c_onClose c) (c_heartbeat c).
Definition set_closed (b : bool) (cb : option nat) (c : Conn SS) : Conn SS :=
  mkConn (c_typ c) (c_id c) (c_rw c) (c_sec c) (c_Server c) (c_Meta c) (c_PeerServer c) (c_PeerMeta c)
    (c_topics c) b cb (c_heartbeat c).
Definition set_heartbeat (h : option (list hbevent)) (c : Conn SS) : Conn SS :=
  mkConn (c_typ c) (c_id c) (c_rw c) (c_sec c) (c_Server c) (c_Meta c) (c_PeerServer c) (c_PeerMeta c)
    (c_topics c) (c_closed c) (c_onClose c) h.

(** Running a network or a mechanism operation on the connection. *)
Definition on_rw {A} (m : M netconn A) : M (Conn SS) A := fun c =>
  let '(r, w) := m (c_rw c) in (r, set_rw w c).
Definition on_sec {A} (m : M SS A) : M (Conn SS) A := fun c =>
  let '(r, s) := m (c_sec c) in (r, set_sec s c).

Definition Conn_Closed (c : Conn SS) : bool := c_closed c.

Definition notifyOnCloseError : M (Conn SS) unit := mupd (fun c =>
  match c_onClose c with
  | None => c
  | Some n => set_closed (c_closed c) (Some (S n)) c
  end).

(** A compare-and-swap: only the first call notifies. *)
Definition Conn_SetClosed : M (Conn SS) unit :=
  c ← mget;
  if c_closed c then mret tt
  else mupd (set_closed true (c_onClose c));; notifyOnCloseError.

Definition Conn_checkIO (err : option error) : M (Conn SS) unit :=
  match err with
  | None => mret tt
  | Some e =>
      if is_EOF e then Conn_SetClosed
      else match as_net_error e with
      | Some false => Conn_SetClosed
      | _ => mret tt
      end
  end.

(** A call whose error goes through [checkIO] and is returned. *)
Definition checked {A} (m : M (Conn SS) A) : M (Conn SS) A :=
  r ← try m;
  match r with
  | inl a => mret a
  | inr e => Conn_checkIO (Some e);; mfail e
  end.

Definition ErrClosedConn : error := Sentinel "zmq4: read/write on closed connection".

Definition Conn_Close : M (Conn SS) unit := on_rw rw_close.

Definition Conn_Read (n : nat) : M (Conn SS) bytes :=
  c ← mget;
  if Conn_Closed c then mfail ErrClosedConn else checked (on_rw (rw_readfull n)).

Definition Conn_Write (p : bytes) : M (Conn SS) unit :=
  c ← mget;
  if Conn_Closed c then mfail ErrClosedConn else checked (on_rw (rw_write p)).

(** ** Sending *)

(** [hdr[:hsz]] for a body of [size] bytes: two bytes, or nine when long. *)
Definition frame_header (flag : Z) (size : Z) : bytes :=
  if decide (255 < size) then Z_byte flag :: be_put 8 size else [Z_byte flag; Z_byte size].

Definition Conn_send (isCommand : bool) (body : bytes) (flag : Z) : M (Conn SS) unit :=
  let curve := beq (sec_Type sec) CurveSecurity in
  (* CURVE messages need a ready connection *)
  match curve && negb isCommand, sec_EnsureMessageReadiness sec with
  | true, Some ensure =>
      wrapE "zmq4: CURVE MESSAGE readiness check failed"
        (c ← mget; checked (on_sec (ensure (Conn_Closed c))))
  | _, _ => mret tt
  end;;
  let nonempty := bool_decide (len body > 0) in
  let size := if curve && negb isCommand && nonempty then len body + 25 else len body in
  let flag := if decide (255 < size) then Z.lxor flag isLongBitFlag else flag in
  let flag := if isCommand then Z.lxor flag isCommandBitFlag else flag in
  checked (on_rw (rw_write (frame_header flag size)));;
  if curve && negb isCommand && nonempty then
    let hasMore := negb (Z.land flag hasMoreBitFlag =? 0) in
    match sec_EncryptWithFlags sec with
    | Some enc => checked (w ← on_sec (enc body hasMore); on_rw (rw_write w))
    | None => checked (w ← on_sec (sec_Encrypt sec body); on_rw (rw_write w))
    end
  else if decide (len body = 0) then mret tt
  else checked (w ← on_sec (sec_Encrypt sec body); on_rw (rw_write w)).

Definition isCurveHandshakeCommand (cmdName : bytes) : bool :=
  beq cmdName CmdHello || beq cmdName CmdWelcome || beq cmdName CmdInitiate || beq cmdName CmdReady.

Definition sendWithCurveHandshakeEncryption (enc : bytes → bytes → M SS bytes)
    (cmdName body : bytes) : M (Conn SS) unit :=
  let size := len body in
  let flag := if decide (255 < size) then Z.lxor 0 isLongBitFlag else 0 in
  let flag := Z.lxor flag isCommandBitFlag in
  checked (on_rw (rw_write (frame_header flag size)));;
  checked (w ← on_sec (enc cmdName body); on_rw (rw_write w)).

Definition Conn_sendCmd (cmdName body : bytes) : M (Conn SS) unit :=
  match beq (sec_Type sec) CurveSecurity && isCurveHandshakeCommand cmdName,
        sec_EncryptHandshakeCommand sec with
  | true, Some enc => sendWithCurveHandshakeEncryption enc cmdName body
  | _, _ =>
      buf ← lift (Cmd_marshalZMTP (mkCmd cmdName body));
      Conn_send true buf 0
  end.

Definition Conn_SendCmd (name body : bytes) : M (Conn SS) unit :=
  c ← mget;
  if Conn_Closed c then mfail ErrClosedConn else Conn_sendCmd name body.

(** The buffers [sendMulti] collects: header and body of every frame. *)
Fixpoint sendMulti_buffers (frames : list bytes) : M (Conn SS) (list bytes) :=
  match frames with
  | [] => mret []
  | frame :: rest =>
      let flag := match rest with [] => 0 | _ => Z.lxor 0 hasMoreBitFlag end in
      let size := len frame in
      let flag := if decide (255 < size) then Z.lxor flag isLongBitFlag else flag in
      let hdr := frame_header flag size in
      w ← (if beq (sec_Type sec) NullSecurity then mret frame
           else on_sec (sec_Encrypt sec frame));
      bufs ← sendMulti_buffers rest;
      mret (hdr :: w :: bufs)
  end.

(** [net.Buffers.WriteTo]: the buffers in order, up to the first error. *)
Definition Conn_sendMulti (msg : Msg) : M (Conn SS) unit :=
  bufs ← sendMulti_buffers (Frames msg);
  checked (on_rw (rw_write (concat bufs))).

Fixpoint SendMsg_loop (frames : list bytes) : M (Conn SS) unit :=
  match frames with
  | [] => mret tt
  | frame :: rest =>
      let flag := match rest with [] => 0 | _ => Z.lxor 0 hasMoreBitFlag end in
      wrapE "zmq4: error sending frame" (Conn_send false frame flag);;
      SendMsg_loop rest
  end.

Definition Conn_SendMsg (msg : Msg) : M (Conn SS) unit :=
  c ← mget;
  if Conn_Closed c then mfail ErrClosedConn
  else if multipart msg then Conn_sendMulti msg
  else SendMsg_loop (Frames msg).

(** ** Receiving *)

Definition isCurveHandshake (c : Conn SS) : bool :=
  if negb (beq (sec_Type sec) CurveSecurity) then false
  else match sec_HandshakeState sec with
  | Some st => st (c_sec c) <? 5
  | None => true
  end.

(** [io.ReadFull(c.rw, ...)] with the error left to the caller. *)
Definition read_rw (n : nat) : M (Conn SS) (bytes + error) :=
  r ← try (on_rw (rw_readfull n));
  match r with
  | inl b => mret (inl b)
  | inr e => Conn_checkIO (Some e);; mret (inr e)
  end.

(** [make([]byte, size)] *)
Definition make_slice (size : Z) : M (Conn SS) unit :=
  if decide (maxAlloc < size) then mpanic "makeslice: len out of range" else mret tt.

(** The frame loop of [read]. Every frame takes at least two bytes of input,
    so fuel [length (nc_in rw) + 1] is enough. *)
Fixpoint read_loop (fuel : nat) (frames : list bytes) (isCmd : bool) : M (Conn SS) Msg :=
  let failed e := mret (mkMsg frames UsrMsg false (Some e)) in
  match fuel with
  | O => mpanic "out of fuel"
  | S fuel' =>
      r ← read_rw 2;
      match r with
      | inr e => failed e
      | inl header =>
          fl ← lift (idx header 0);
          h1 ← lift (idx header 1);
          let isCmd := isCmd || isCommand fl in
          lsz ← (if isLong fl then
                   r ← read_rw 7;
                   match r with
                   | inr e => mret (inr e)
                   | inl long => mret (inl (be_get (h1 :: long)))
                   end
                 else mret (inl (byte_Z h1)));
          match lsz with
          | inr e => failed e
          | inl size =>
              if decide (maxInt64 < size) then failed errOverflow
              else
                make_slice size;;
                r ← read_rw (Z.to_nat size);
                match r with
                | inr e => failed e
                | inl body =>
                    c ← mget;
                    let plain := beq (sec_Type sec) NullSecurity ||
                      (beq (sec_Type sec) CurveSecurity && (isCmd && isCurveHandshake c)) in
                    d ← (if plain then mret (inl body) else try (on_sec (sec_Decrypt sec body)));
                    match d with
                    | inr e => failed e
                    | inl frame =>
                        let frames' := frames ++ [frame] in
                        if hasMore fl then read_loop fuel' frames' isCmd
                        else mret (mkMsg frames' (if isCmd then CmdMsg else UsrMsg) false None)
                    end
                end
          end
      end
  end.

Definition Conn_read : M (Conn SS) Msg := fun c =>
  read_loop (length (nc_in (c_rw c)) + 1) [] false c.

Definition notify_heartbeat (e : hbevent) : M (Conn SS) unit := mupd (fun c =>
  match c_heartbeat c with
  | None => c
  | Some l => set_heartbeat (Some (l ++ [e])) c
  end).

(** [RecvMsg]: the message and the error it returns with it. *)
Definition Conn_RecvMsg : M (Conn SS) (Msg * option error) :=
  c ← mget;
  if Conn_Closed c then mret (emptyMsg, Some ErrClosedConn)
  else
    notify_heartbeat HbActivity;;
    msg ← Conn_read;
    let with_err e := mkMsg (Frames msg) (Typ msg) (multipart msg) (Some e) in
    match msgerr msg with
    | Some e => mret (msg, Some (Wrap "zmq4: could not read recv msg" e))
    | None =>
        if negb (Msg_isCmd msg) then mret (msg, None)
        else match Frames msg with
        | [] => let e := Errorf "zmq4: empty command" in mret (with_err e, Some e)
        | _ :: _ :: _ => let e := Errorf "zmq4: invalid length command" in mret (with_err e, Some e)
        | [frame] =>
            match Cmd_unmarshalZMTP frame with
            | Panic p => mpanic p
            | Fail e => mret (with_err e, Some (Wrap "zmq4: could not unmarshal ZMTP recv msg" e))
            | Ret cmd =>
                let finish :=
                  mret (mkMsg (match Body cmd with [] => [] | b => [b] end)
                              (Typ msg) (multipart msg) None, None) in
                if beq (Name cmd) CmdPing then
                  let pongBody :=
                    if decide (2 < len (Body cmd)) then
                      let context := drop 2 (Body cmd) in
                      if decide (len context <= 16) then context else []
                    else [] in
                  r ← try (Conn_SendCmd CmdPong pongBody);
                  match r with
                  | inr e => mret (with_err e, Some e)
                  | inl _ => finish
                  end
                else if beq (Name cmd) CmdPong then
                  notify_heartbeat HbPong;; finish
                else finish
            end
        end
    end.

Definition Conn_RecvCmd : M (Conn SS) Cmd :=
  c ← mget;
  if Conn_Closed c then mfail ErrClosedConn
  else
    msg ← Conn_read;
    match msgerr msg with
    | Some e => mfail (Wrap "zmq4: could not read recv cmd" e)
    | None =>
        if negb (Msg_isCmd msg) then mfail ErrBadFrame
        else match Frames msg with
        | [] => mfail (Errorf "zmq4: empty command")
        | _ :: _ :: _ => mfail (Errorf "zmq4: invalid length command")
        | [frame] => wrapE "zmq4: could not unmarshal ZMTP recv cmd" (lift (Cmd_unmarshalZMTP frame))
        end
    end.

(** ** Subscriptions *)

Definition Conn_subscribe (msg : Msg) : M (Conn SS) unit :=
  v ← lift (idx (Frames msg) 0);
  v0 ← lift (idx v 0);
  let k := drop 1 v in
  mupd (fun c =>
    if decide (v0 = x00) then set_topics (c_topics c ∖ {[k]}) c
    else if decide (v0 = x01) then set_topics ({[k]} ∪ c_topics c) c
    else c).

(** [strings.HasPrefix(topic, k)] *)
Definition HasPrefix (topic k : bytes) : bool := beq (take (length k) topic) k.

Definition Conn_subscribed (c : Conn SS) (topic : bytes) : bool :=
  existsb (fun k => if beq k [] then true else HasPrefix topic k) (elements (c_topics c)).
End conn.
