(* ===== verification/ConnFacts.v ===== *)
(** * ConnFacts: framing, closing and subscriptions of a connection

    Lemmas and properties of the operations of [Conn]: what [SendMsg] and
    [SendCmd] put on the wire, that [read] restores it, that a connection is
    closed once, and that subscription matching is prefix matching. *)

From Stdlib Require Import Strings.Byte ZArith Lia.
From stdpp Require Import base strings numbers gmap list.
From S2P Require Import Prelude Zmtp Conn.

#[local] Open Scope Z_scope.
#[local] Set Default Goal Selector "!".

(** A mechanism that neither encrypts nor keeps state per message: what NULL
    and PLAIN promise to the framing layer. *)
Class Transparent {SS : Type} (sec : secops SS) : Prop := {
  tr_not_curve : beq (sec_Type sec) CurveSecurity = false;
  tr_enc d s : sec_Encrypt sec d s = (Ret d, s);
  tr_dec d s : sec_Decrypt sec d s = (Ret d, s) }.

#[export] Instance nullSecurity_transparent : Transparent nullSecurity.
Proof. split; reflexivity. Qed.

(** ** The wire form of frames *)

Definition wire_flag (more cmd : bool) (size : Z) : Z :=
  (if more then hasMoreBitFlag else 0) + (if decide (255 < size) then isLongBitFlag else 0) +
  (if cmd then isCommandBitFlag else 0).

Definition frame_wire (more cmd : bool) (body : bytes) : bytes :=
  frame_header (wire_flag more cmd (len body)) (len body) ++ body.

Fixpoint msg_wire (cmd : bool) (frames : list bytes) : bytes :=
  match frames with
  | [] => []
  | f :: rest => frame_wire (match rest with [] => false | _ => true end) cmd f ++ msg_wire cmd rest
  end.

Lemma hasMore_wire more cmd size : hasMore (Z_byte (wire_flag more cmd size)) = more.
Proof. unfold wire_flag. case_decide; by destruct more, cmd. Qed.
Lemma isLong_wire more cmd size :
  isLong (Z_byte (wire_flag more cmd size)) = bool_decide (255 < size).
Proof. unfold wire_flag. case_decide; [rewrite bool_decide_eq_true_2|rewrite bool_decide_eq_false_2]; try done; by destruct more, cmd. Qed.
Lemma isCommand_wire more cmd size : isCommand (Z_byte (wire_flag more cmd size)) = cmd.
Proof. unfold wire_flag. case_decide; by destruct more, cmd. Qed.

(** The flag [send] computes by exclusive or. *)
Lemma send_flag (more cmd : bool) (size : Z) :
  (let flag := (if more then Z.lxor 0 hasMoreBitFlag else 0) in
   let flag := if decide (255 < size) then Z.lxor flag isLongBitFlag else flag in
   if cmd then Z.lxor flag isCommandBitFlag else flag) = wire_flag more cmd size.
Proof. unfold wire_flag. case_decide; by destruct more, cmd. Qed.

Section framing.
Context {SS : Type} (sec : secops SS) (maxAlloc : Z).
Implicit Types c : Conn SS.

(** A connection that can be written to without limit. *)
Definition writable c : Prop := nc_open (c_rw c) = true ∧ nc_room (c_rw c) = None.

(** [c] after [p] has been written to it, and after all input but [r] has been read. *)
Definition wrote (p : bytes) c : Conn SS :=
  let w := c_rw c in
  set_rw (mkNet (nc_in w) (nc_end w) (nc_out w ++ p) (nc_room w) (nc_werr w) (nc_open w)) c.
Definition reading (r : bytes) c : Conn SS :=
  let w := c_rw c in
  set_rw (mkNet r (nc_end w) (nc_out w) (nc_room w) (nc_werr w) (nc_open w)) c.

Lemma wrote_writable p c : writable c → writable (wrote p c).
Proof. done. Qed.
Lemma wrote_wrote p q c : wrote q (wrote p c) = wrote (p ++ q) c.
Proof. unfold wrote. simpl. by rewrite app_assoc. Qed.
Lemma wrote_nil c : wrote [] c = c.
Proof. unfold wrote. rewrite app_nil_r. by destruct c as [? ? []]. Qed.
Lemma reading_reading r r' c : reading r (reading r' c) = reading r c.
Proof. done. Qed.
Lemma reading_id c : reading (nc_in (c_rw c)) c = c.
Proof. by destruct c as [? ? []]. Qed.
Lemma nc_in_reading r c : nc_in (c_rw (reading r c)) = r.
Proof. done. Qed.
Lemma nc_out_wrote p c : nc_out (c_rw (wrote p c)) = nc_out (c_rw c) ++ p.
Proof. done. Qed.
Lemma set_sec_id c : set_sec (c_sec c) c = c.
Proof. by destruct c. Qed.

Lemma checked_ret {A} (m : M (Conn SS) A) c a c' : m c = (Ret a, c') → checked m c = (Ret a, c').
Proof. intros H. unfold checked, try, mbind, M_bind. by rewrite H. Qed.

Lemma on_rw_write p c : writable c → on_rw (rw_write p) c = (Ret tt, wrote p c).
Proof.
  intros [Ho Hr]. unfold on_rw, rw_write, wrote. rewrite Ho, Hr. done.
Qed.

Lemma checked_write p c : writable c → checked (on_rw (rw_write p)) c = (Ret tt, wrote p c).
Proof. intros H. by apply checked_ret, on_rw_write. Qed.

Lemma checked_encrypt `{!Transparent sec} d c :
  writable c →
  checked (w ← on_sec (sec_Encrypt sec d); on_rw (rw_write w)) c = (Ret tt, wrote d c).
Proof.
  intros H. apply checked_ret. mstep (unfold on_sec; rewrite tr_enc, set_sec_id; reflexivity).
  by apply on_rw_write.
Qed.

Lemma Conn_send_wire `{!Transparent sec} (cmd more : bool) body c :
  writable c →
  Conn_send sec cmd body (if more then Z.lxor 0 hasMoreBitFlag else 0) c
  = (Ret tt, wrote (frame_wire more cmd body) c).
Proof.
  intros Hw. unfold Conn_send. rewrite tr_not_curve. cbn [andb].
  mstep reflexivity. mstep (by apply checked_write).
  assert (Hf : frame_wire more cmd body = frame_header (wire_flag more cmd (len body)) (len body) ++ body) by done.
  rewrite <- send_flag in Hf. rewrite Hf. clear Hf. case_decide as Hz.
  - apply len_nil_iff in Hz. subst. by rewrite app_nil_r.
  - rewrite checked_encrypt by done. by rewrite wrote_wrote.
Qed.

Lemma SendMsg_loop_wire `{!Transparent sec} frames : forall c,
  writable c → SendMsg_loop sec frames c = (Ret tt, wrote (msg_wire false frames) c).
Proof.
  induction frames as [|f frames IH]; intros c Hw; cbn [SendMsg_loop msg_wire].
  - by rewrite wrote_nil.
  - replace (match frames with [] => 0 | _ => Z.lxor 0 hasMoreBitFlag end)
      with (if (match frames with [] => false | _ => true end) then Z.lxor 0 hasMoreBitFlag else 0)
      by (by destruct frames).
    mstep (apply wrapE_ret, (Conn_send_wire false _ f c Hw)).
    rewrite IH by done. by rewrite wrote_wrote.
Qed.

Lemma sendMulti_buffers_wire `{!Transparent sec} frames : forall c,
  ∃ bufs, sendMulti_buffers sec frames c = (Ret bufs, c) ∧ concat bufs = msg_wire false frames.
Proof.
  induction frames as [|f frames IH]; intros c; cbn [sendMulti_buffers msg_wire]; [by exists []|].
  destruct (IH c) as (bufs & Hb & Hc). eexists. split.
  - mstep (instantiate (1 := c); instantiate (1 := f); destruct (beq _ _); [done|];
           unfold on_sec; rewrite tr_enc, set_sec_id; done).
    mstep (exact Hb). reflexivity.
  - cbn [concat]. rewrite Hc, app_assoc. f_equal. unfold frame_wire. rewrite <- send_flag.
    by destruct frames.
Qed.

(** ** Reading *)

Lemma read_rw_app n x r c :
  nc_open (c_rw c) = true → nc_in (c_rw c) = x ++ r → length x = n →
  read_rw n c = (Ret (inl x), reading r c).
Proof.
  intros Ho Hin <-. unfold read_rw, try, on_rw, rw_readfull, mbind, M_bind.
  rewrite Ho, Hin. cbn [negb]. case_decide as H.
  - destruct x; [|simpl in H; lia]. simpl in *. rewrite <- Hin, reading_id. by destruct c.
  - rewrite decide_True by (rewrite length_app; lia).
    rewrite take_app_length, drop_app_length. unfold reading. by rewrite Ho.
Qed.

(** The size of a frame is recovered from its header. *)
Lemma read_size more cmd size r c :
  nc_open (c_rw c) = true → 0 <= size < 2 ^ 64 →
  nc_in (c_rw c) = frame_header (wire_flag more cmd size) size ++ r →
  ∃ h1 r', read_rw 2 c = (Ret (inl [Z_byte (wire_flag more cmd size); h1]), reading r' c) ∧
    (if isLong (Z_byte (wire_flag more cmd size)) then
       r ← read_rw 7;
       match r with
       | inr e => mret (inr e)
       | inl long => mret (inl (be_get (h1 :: long)))
       end
     else mret (inl (byte_Z h1))) (reading r' c) = (Ret (inl size), reading r c).
Proof.
  intros Ho Hs Hin. rewrite isLong_wire. unfold frame_header in Hin. case_decide as Hl.
  - destruct (be_put 8 size) as [|h1 long] eqn:E; [done|].
    assert (Hlen : length long = 7%nat) by (pose proof (length_be_put 8 size) as HH; rewrite E in HH; simpl in HH; lia).
    exists h1, (long ++ r). split.
    + apply read_rw_app; [done|rewrite Hin; done|done].
    + rewrite bool_decide_eq_true_2 by done.
      mstep (apply (read_rw_app 7 long r); done).
      rewrite <- E, be_get_put_small by (simpl; lia). done.
  - exists (Z_byte size), r. split.
    + apply read_rw_app; [done|rewrite Hin; done|done].
    + rewrite bool_decide_eq_false_2 by done. rewrite byte_Z_Z_byte, Z.mod_small by lia. done.
Qed.

(** The body [b] of a frame, a command frame or not, becomes the frame [f]
    when it is read on [c]. *)
Definition opens_to (iscmd : bool) c (b f : bytes) : Prop :=
  ∀ r, (let plain := beq (sec_Type sec) NullSecurity ||
          (beq (sec_Type sec) CurveSecurity && (iscmd && isCurveHandshake sec (reading r c))) in
        if plain then mret (inl b) else try (on_sec (sec_Decrypt sec b))) (reading r c)
       = (Ret (inl f), reading r c).

Lemma opens_to_transparent `{!Transparent sec} iscmd c f : opens_to iscmd c f f.
Proof.
  intros r. cbv zeta. rewrite tr_not_curve. cbn [andb]. rewrite orb_false_r.
  destruct (beq _ _); [done|]. unfold try, on_sec. rewrite tr_dec. by rewrite set_sec_id.
Qed.

Lemma opens_to_reading iscmd c r b f : opens_to iscmd c b f → opens_to iscmd (reading r c) b f.
Proof. intros H r'. exact (H r'). Qed.

Lemma read_loop_bodies (cmd : bool) bodies : forall frames fuel acc iscmd c r,
  bodies ≠ [] → nc_open (c_rw c) = true → nc_in (c_rw c) = msg_wire cmd bodies ++ r →
  Forall (fun f => len f <= maxAlloc ∧ len f <= maxInt64) bodies →
  Forall2 (opens_to (iscmd || cmd) c) bodies frames →
  (length bodies <= fuel)%nat →
  read_loop sec maxAlloc fuel acc iscmd c =
    (Ret (mkMsg (acc ++ frames) (if iscmd || cmd then CmdMsg else UsrMsg) false None), reading r c).
Proof.
  induction bodies as [|f bodies IH]; intros frames fuel acc iscmd c r Hne Ho Hin Hok Hop Hf; [done|].
  apply Forall_cons_iff in Hok as [[Hal Hmx] Hok].
  apply Forall2_cons_inv_l in Hop as (g & frames' & Hg & Hop & ->).
  destruct fuel as [|fuel]; [simpl in Hf; lia|]. cbn [read_loop].
  set (more := match bodies with [] => false | _ => true end) in *.
  cbn [msg_wire] in Hin. fold more in Hin. unfold frame_wire in Hin. rewrite <- !app_assoc in Hin.
  destruct (read_size more cmd (len f) (f ++ msg_wire cmd bodies ++ r) c Ho) as (h1 & r' & H2 & Hsz);
    [pose proof (len_nonneg f); unfold maxInt64 in Hmx; lia|exact Hin|].
  mstep exact H2. mstep reflexivity. mstep reflexivity. mstep exact Hsz.
  rewrite decide_False by lia. unfold make_slice. rewrite decide_False by lia. mstep reflexivity.
  mstep (apply (read_rw_app _ f (msg_wire cmd bodies ++ r)); [done|done|by rewrite len_to_nat]).
  mstep reflexivity. rewrite isCommand_wire.
  mstep (exact (Hg (msg_wire cmd bodies ++ r))).
  rewrite hasMore_wire. subst more. destruct bodies as [|f' bodies].
  - apply Forall2_nil_inv_l in Hop as ->. done.
  - rewrite (IH frames' fuel (acc ++ [g]) (iscmd || cmd) _ r); [|done|done|done|done| |simpl in *; lia].
    + rewrite <- app_assoc. do 2 f_equal. f_equal. by destruct iscmd, cmd.
    + replace ((iscmd || cmd) || cmd) with (iscmd || cmd) by (by destruct iscmd, cmd).
      eapply Forall2_impl; [exact Hop|]. intros b h. apply opens_to_reading.
Qed.

Lemma length_frame_wire more cmd f : (2 <= length (frame_wire more cmd f))%nat.
Proof. unfold frame_wire, frame_header. rewrite length_app. case_decide; simpl; lia. Qed.

Lemma length_msg_wire cmd frames : (length frames <= length (msg_wire cmd frames))%nat.
Proof.
  induction frames as [|f frames IH]; cbn [msg_wire]; [done|].
  rewrite length_app. pose proof (length_frame_wire (match frames with [] => false | _ => true end) cmd f).
  cbn [length]. lia.
Qed.

Lemma Conn_read_bodies cmd bodies frames c r :
  bodies ≠ [] → nc_open (c_rw c) = true → nc_in (c_rw c) = msg_wire cmd bodies ++ r →
  Forall (fun f => len f <= maxAlloc ∧ len f <= maxInt64) bodies →
  Forall2 (opens_to cmd c) bodies frames →
  Conn_read sec maxAlloc c =
    (Ret (mkMsg frames (if cmd then CmdMsg else UsrMsg) false None), reading r c).
Proof.
  intros Hne Ho Hin Hok Hop. unfold Conn_read.
  apply (read_loop_bodies cmd bodies frames _ [] false); try done.
  rewrite Hin, length_app. pose proof (length_msg_wire cmd bodies). lia.
Qed.

Lemma Conn_read_wire `{!Transparent sec} cmd frames c r :
  frames ≠ [] → nc_open (c_rw c) = true → nc_in (c_rw c) = msg_wire cmd frames ++ r →
  Forall (fun f => len f <= maxAlloc ∧ len f <= maxInt64) frames →
  Conn_read sec maxAlloc c =
    (Ret (mkMsg frames (if cmd then CmdMsg else UsrMsg) false None), reading r c).
Proof.
  intros Hne Ho Hin Hok. apply Conn_read_bodies with frames; try done.
  apply Forall_Forall2_diag, Forall_forall. intros f _. apply opens_to_transparent.
Qed.

(** ** Commands *)

(** The frame body of a command whose name fits its length octet. *)
Definition cmd_body (name body : bytes) : bytes := [Z_byte (len name)] ++ name ++ body.

Lemma len_cmd_body name body : len (cmd_body name body) = 1 + len name + len body.
Proof. unfold cmd_body. rewrite !len_app. change (len [Z_byte (len name)]) with 1. lia. Qed.

Lemma SendCmd_wire `{!Transparent sec} name body c :
  len name <= 255 → writable c → c_closed c = false →
  Conn_SendCmd sec name body c = (Ret tt, wrote (msg_wire true [cmd_body name body]) c).
Proof.
  intros Hn Hw Hc. unfold Conn_SendCmd. mstep reflexivity. unfold Conn_Closed. rewrite Hc.
  unfold Conn_sendCmd. rewrite tr_not_curve. cbn [andb].
  mstep (apply lift_ret; unfold Cmd_marshalZMTP; cbn [Name]; rewrite decide_False by lia; done).
  cbn [msg_wire]. rewrite app_nil_r. by apply (Conn_send_wire true false).
Qed.

Lemma RecvCmd_bodies name body c r :
  len name <= 255 → 1 + len name + len body <= maxAlloc → maxAlloc <= maxInt64 →
  nc_open (c_rw c) = true → c_closed c = false →
  opens_to true c (cmd_body name body) (cmd_body name body) →
  nc_in (c_rw c) = msg_wire true [cmd_body name body] ++ r →
  Conn_RecvCmd sec maxAlloc c = (Ret (mkCmd name body), reading r c).
Proof.
  intros Hn Ha Hm Ho Hc Hop Hin. unfold Conn_RecvCmd. mstep reflexivity. unfold Conn_Closed. rewrite Hc.
  mstep (apply (Conn_read_bodies true [cmd_body name body] [cmd_body name body] c r); [done|done|done| |];
         repeat constructor; try rewrite len_cmd_body; try lia; exact Hop).
  cbn. apply wrapE_ret, lift_ret, (Cmd_unmarshal_app (Z_byte (len name)) name body).
  rewrite byte_Z_Z_byte. apply Z.mod_small. pose proof (len_nonneg name). lia.
Qed.

Lemma RecvCmd_wire `{!Transparent sec} name body c r :
  len name <= 255 → 1 + len name + len body <= maxAlloc → maxAlloc <= maxInt64 →
  nc_open (c_rw c) = true → c_closed c = false →
  nc_in (c_rw c) = msg_wire true [cmd_body name body] ++ r →
  Conn_RecvCmd sec maxAlloc c = (Ret (mkCmd name body), reading r c).
Proof. intros. apply RecvCmd_bodies; try done. apply opens_to_transparent. Qed.
End framing.

(** ** Closing *)

Section closing.
Context {SS : Type} (sec : secops SS) (maxAlloc : Z).
Implicit Types c : Conn SS.

(** The callback has been called once if the connection is marked closed, and
    not at all otherwise. *)
Definition close_once c : Prop :=
  ∀ n, c_onClose c = Some n → n = if c_closed c then 1%nat else 0%nat.

Lemma keeps_on_rw {A} (m : M netconn A) : keeps close_once (on_rw m : M (Conn SS) A).
Proof. intros c Hc. unfold on_rw. by destruct (m (c_rw c)). Qed.
Lemma keeps_on_sec {A} (m : M SS A) : keeps close_once (on_sec m).
Proof. intros c Hc. unfold on_sec. by destruct (m (c_sec c)). Qed.

Lemma keeps_SetClosed : keeps close_once (Conn_SetClosed : M (Conn SS) unit).
Proof.
  intros c Hc. unfold Conn_SetClosed, mget, mbind, M_bind. simpl.
  destruct (c_closed c) eqn:E; [done|]. unfold notifyOnCloseError, mupd. simpl.
  unfold close_once in *. rewrite E in Hc.
  destruct (c_onClose c) as [n|] eqn:En; simpl; intros k Hk; [|done].
  injection Hk as <-. by rewrite (Hc n eq_refl).
Qed.

#[local] Hint Resolve keeps_SetClosed keeps_on_rw keeps_on_sec keeps_try : keeps.

Lemma keeps_checkIO e : keeps close_once (Conn_checkIO e : M (Conn SS) unit).
Proof. unfold Conn_checkIO. keeps_tac. Qed.
#[local] Hint Resolve keeps_checkIO : keeps.

Lemma keeps_checked {A} (m : M (Conn SS) A) : keeps close_once m → keeps close_once (checked m).
Proof. intros Hm. unfold checked. keeps_tac. Qed.

#[local] Hint Resolve keeps_checked : keeps.

Lemma keeps_encrypt (m : M SS bytes) : keeps close_once (w ← on_sec m; on_rw (rw_write w)).
Proof. keeps_tac. Qed.
#[local] Hint Resolve keeps_encrypt : keeps.

Lemma keeps_ensure (f : bool → M SS unit) :
  keeps close_once (c ← mget; checked (on_sec (f (Conn_Closed c)))).
Proof. keeps_tac. Qed.
#[local] Hint Resolve keeps_ensure : keeps.

Lemma keeps_send isCmd body flag : keeps close_once (Conn_send sec isCmd body flag).
Proof. unfold Conn_send. keeps_tac. Qed.
#[local] Hint Resolve keeps_send : keeps.

Lemma keeps_SendMsg msg : keeps close_once (Conn_SendMsg sec msg).
Proof.
  assert (Hb : ∀ fs, keeps close_once (sendMulti_buffers sec fs)).
  { induction fs; cbn [sendMulti_buffers]; keeps_tac. }
  assert (Hs : ∀ fs, keeps close_once (SendMsg_loop sec fs)).
  { induction fs; cbn [SendMsg_loop]; keeps_tac. }
  unfold Conn_SendMsg, Conn_sendMulti. keeps_tac.
Qed.

Lemma keeps_SendCmd name body : keeps close_once (Conn_SendCmd sec name body).
Proof. unfold Conn_SendCmd, Conn_sendCmd, sendWithCurveHandshakeEncryption. keeps_tac. Qed.

Lemma keeps_read_rw n : keeps close_once (read_rw n : M (Conn SS) _).
Proof. unfold read_rw. keeps_tac. Qed.
#[local] Hint Resolve keeps_read_rw : keeps.

Lemma keeps_read_loop fuel : forall frames isCmd, keeps close_once (read_loop sec maxAlloc fuel frames isCmd).
Proof.
  induction fuel as [|fuel IH]; intros frames isCmd; cbn [read_loop]; unfold make_slice; keeps_tac.
Qed.

Lemma keeps_read : keeps close_once (Conn_read sec maxAlloc).
Proof. intros c Hc. unfold Conn_read. by apply keeps_read_loop. Qed.
#[local] Hint Resolve keeps_read keeps_SendCmd : keeps.

Lemma keeps_RecvCmd : keeps close_once (Conn_RecvCmd sec maxAlloc).
Proof. unfold Conn_RecvCmd. keeps_tac. Qed.

Lemma keeps_notify_heartbeat e : keeps close_once (notify_heartbeat e : M (Conn SS) unit).
Proof. intros c Hc. unfold notify_heartbeat, mupd. simpl. by destruct (c_heartbeat c). Qed.
#[local] Hint Resolve keeps_notify_heartbeat : keeps.

Lemma keeps_RecvMsg : keeps close_once (Conn_RecvMsg sec maxAlloc).
Proof. unfold Conn_RecvMsg. keeps_tac. Qed.
End closing.

(** ** Termination of the frame loop *)

Section termination.
Context {SS : Type} (sec : secops SS) (maxAlloc : Z).

Lemma Conn_checkIO_ret e (c : Conn SS) :
  ∃ c', Conn_checkIO e c = (Ret tt, c') ∧ c_rw c' = c_rw c.
Proof.
  assert (Hs : ∃ c', Conn_SetClosed c = (Ret tt, c') ∧ c_rw c' = c_rw c).
  { unfold Conn_SetClosed, mget, mbind, M_bind. destruct (c_closed c); [by exists c|].
    unfold notifyOnCloseError, mupd. eexists. split; [done|]. simpl. by destruct (c_onClose c). }
  unfold Conn_checkIO. destruct e as [e|]; [|by exists c]. destruct (is_EOF e); [done|].
  destruct (as_net_error e) as [[]|]; [by exists c|done|by exists c].
Qed.

(** [read_rw] always returns, and what it read has left the input. *)
Lemma read_rw_consumes n (c : Conn SS) :
  ∃ r c', read_rw n c = (Ret r, c') ∧
    match r with
    | inl x => length x = n ∧ (length (nc_in (c_rw c')) + n = length (nc_in (c_rw c)))%nat
    | inr _ => True
    end.
Proof.
  unfold read_rw, try, on_rw, rw_readfull, mbind, M_bind.
  destruct (decide (n = 0%nat)) as [->|Hn].
  { eexists (inl []), _. split; [done|]. simpl. split; [done|lia]. }
  destruct (nc_open (c_rw c)) eqn:Ho; cbn [negb].
  2: { destruct (Conn_checkIO_ret (Some errNetClosed) (set_rw (c_rw c) c)) as (c' & -> & _). by exists (inr errNetClosed), c'. }
  destruct (decide (n <= length (nc_in (c_rw c)))%nat).
  { eexists (inl _), _. split; [done|]. simpl. rewrite length_take, length_drop. split; lia. }
  match goal with |- context [Conn_checkIO ?e ?c] => destruct (Conn_checkIO_ret e c) as (c' & -> & _) end.
  by eexists (inr _), c'.
Qed.

Lemma read_loop_total `{!Transparent sec} fuel : forall frames isCmd c,
  (length (nc_in (c_rw c)) < fuel)%nat →
  (∃ msg, (read_loop sec maxAlloc fuel frames isCmd c).1 = Ret msg) ∨
  (read_loop sec maxAlloc fuel frames isCmd c).1 = Panic "makeslice: len out of range".
Proof.
  induction fuel as [|fuel IH]; intros frames isCmd c Hf; [lia|]. cbn [read_loop].
  destruct (read_rw_consumes 2 c) as (r & c1 & H1 & Hr). rewrite (M_bind_ret _ _ _ _ _ H1).
  destruct r as [header|e]; [|left; eexists; reflexivity]. destruct Hr as [Hl Hc1].
  destruct header as [|fl [|h1 [|]]]; try (simpl in Hl; lia).
  rewrite (M_bind_ret _ _ _ fl c1), (M_bind_ret _ _ _ h1 c1) by done.
  set (getsize := if isLong fl then _ else _).
  assert (Hsz : ∃ r c2, getsize c1 = (Ret r, c2) ∧
            match r with inl _ => length (nc_in (c_rw c2)) <= length (nc_in (c_rw c1)) | _ => True end%nat).
  { subst getsize. destruct (isLong fl).
    - destruct (read_rw_consumes 7 c1) as (r & c2 & H2 & Hr2). rewrite (M_bind_ret _ _ _ _ _ H2).
      destruct r; eexists _, c2; (split; [done|]); simpl; [lia|done].
    - by eexists (inl _), c1. }
  destruct Hsz as (rs & c2 & H2 & Hc2). rewrite (M_bind_ret _ _ _ _ _ H2). clear H2.
  destruct rs as [size|e]; [|left; eexists; reflexivity].
  case_decide; [left; eexists; reflexivity|]. unfold make_slice.
  case_decide; [by right|]. rewrite (M_bind_ret _ _ _ tt c2) by done.
  destruct (read_rw_consumes (Z.to_nat size) c2) as (r & c3 & H3 & Hr3). rewrite (M_bind_ret _ _ _ _ _ H3).
  destruct r as [body|e]; [|left; eexists; reflexivity].
  rewrite (M_bind_ret _ _ _ c3 c3) by done.
  rewrite (M_bind_ret _ _ _ (inl body) c3).
  2: { rewrite tr_not_curve. cbn [andb]. rewrite orb_false_r. destruct (beq _ _); [done|].
       unfold try, on_sec. rewrite tr_dec. by rewrite set_sec_id. }
  destruct (hasMore fl); [|left; eexists; reflexivity]. apply IH. lia.
Qed.
End termination.

(** ** Subscriptions *)

Lemma HasPrefix_spec topic k : HasPrefix topic k = true ↔ k `prefix_of` topic.
Proof.
  unfold HasPrefix, beq. rewrite bool_decide_eq_true. split.
  - intros H. exists (drop (length k) topic). rewrite <- H at 1. by rewrite take_drop.
  - intros [r ->]. apply take_app_length.
Qed.

(** ** Properties *)

(** C1. Framing round trip: what [SendMsg] writes for a message of at least
    one frame, [read] at the other end gives back frame by frame, and leaves
    the bytes that follow unread. The two ends may use different transparent
    mechanisms; the message may be sent with or without the multipart flag;
    the frames must be allocatable at the receiver. *)
Theorem frames_roundtrip {SS SS' : Type} (sec : secops SS) (sec' : secops SS')
    `{!Transparent sec, !Transparent sec'} (maxAlloc : Z) (frames : list bytes) (mp : bool)
    (c : Conn SS) (d : Conn SS') (rest : bytes) :
  frames ≠ [] → Forall (fun f => len f <= maxAlloc ∧ len f <= maxInt64) frames →
  writable c → c_closed c = false → nc_open (c_rw d) = true →
  ∃ c' w, Conn_SendMsg sec (mkMsg frames UsrMsg mp None) c = (Ret tt, c') ∧
    nc_out (c_rw c') = nc_out (c_rw c) ++ w ∧
    (nc_in (c_rw d) = w ++ rest →
       Conn_read sec' maxAlloc d = (Ret (NewMsgFrom frames), reading rest d)).
Proof.
  intros Hne Hok Hw Hc Ho. exists (wrote (msg_wire false frames) c), (msg_wire false frames).
  split; [|split; [done|]].
  - unfold Conn_SendMsg. mstep reflexivity. unfold Conn_Closed. rewrite Hc. cbn [multipart Frames].
    destruct mp; [|by apply SendMsg_loop_wire].
    unfold Conn_sendMulti. cbn [Frames].
    destruct (sendMulti_buffers_wire sec frames c) as (bufs & Hb & Hcat).
    mstep exact Hb. rewrite Hcat. by apply checked_write.
  - intros Hin. by apply (Conn_read_wire sec' maxAlloc false frames d rest).
Qed.

(** A fresh connection over a given input, for examples. *)
Definition test_conn (typ : SocketType) (inp : bytes) : Conn unit :=
  mkConn typ [] (mkNet inp EOF [] None (NetErr false) true) tt false ∅ false ∅ ∅ false (Some 0%nat) (Some []).

Lemma frames_roundtrip_witness :
  ∃ c' w, Conn_SendMsg nullSecurity (mkMsg [[x01]; []; [x02; x03]] UsrMsg true None) (test_conn Dealer [])
            = (Ret tt, c') ∧ nc_out (c_rw c') = [] ++ w ∧
    (nc_in (c_rw (test_conn Router [x01; x01; x01; x01; x00; x00; x02; x02; x03; xaa])) = w ++ [xaa] →
       Conn_read nullSecurity 1000 (test_conn Router [x01; x01; x01; x01; x00; x00; x02; x02; x03; xaa])
       = (Ret (NewMsgFrom [[x01]; []; [x02; x03]]), reading [xaa] (test_conn Router [x01; x01; x01; x01; x00; x00; x02; x02; x03; xaa]))).
Proof.
  apply (frames_roundtrip nullSecurity nullSecurity 1000 [[x01]; []; [x02; x03]] true
    (test_conn Dealer []) (test_conn Router [x01; x01; x01; x01; x00; x00; x02; x02; x03; xaa]) [xaa]);
    [done| |done|reflexivity|reflexivity].
  repeat constructor; vm_compute; congruence.
Defined.

(** Commands: a command with a name of at most 255 octets that is sent
    with [SendCmd] is what [RecvCmd] returns at the other end. *)
Theorem command_roundtrip {SS SS' : Type} (sec : secops SS) (sec' : secops SS')
    `{!Transparent sec, !Transparent sec'} (maxAlloc : Z) (name body : bytes)
    (c : Conn SS) (d : Conn SS') (rest : bytes) :
  len name <= 255 → 1 + len name + len body <= maxAlloc → maxAlloc <= maxInt64 →
  writable c → c_closed c = false → nc_open (c_rw d) = true → c_closed d = false →
  ∃ c' w, Conn_SendCmd sec name body c = (Ret tt, c') ∧ nc_out (c_rw c') = nc_out (c_rw c) ++ w ∧
    (nc_in (c_rw d) = w ++ rest →
       Conn_RecvCmd sec' maxAlloc d = (Ret (mkCmd name body), reading rest d)).
Proof.
  intros Hn Ha Hm Hw Hc Ho Hd.
  exists (wrote (msg_wire true [cmd_body name body]) c), (msg_wire true [cmd_body name body]).
  split; [by apply SendCmd_wire|split; [done|]].
  intros Hin. by apply RecvCmd_wire.
Qed.

Lemma command_roundtrip_witness :
  ∃ c' w, Conn_SendCmd nullSecurity CmdReady [x09] (test_conn Req []) = (Ret tt, c') ∧
    nc_out (c_rw c') = [] ++ w ∧
    (nc_in (c_rw (test_conn Rep [x04; x07; x05; x52; x45; x41; x44; x59; x09])) = w ++ [] →
     Conn_RecvCmd nullSecurity 1000 (test_conn Rep [x04; x07; x05; x52; x45; x41; x44; x59; x09])
     = (Ret (mkCmd CmdReady [x09]), reading [] (test_conn Rep [x04; x07; x05; x52; x45; x41; x44; x59; x09]))).
Proof.
  apply (command_roundtrip nullSecurity nullSecurity 1000 CmdReady [x09] (test_conn Req [])
    (test_conn Rep [x04; x07; x05; x52; x45; x41; x44; x59; x09]) []);
    [vm_compute; congruence|vm_compute; congruence|vm_compute; congruence|done|reflexivity..].
Defined.

Lemma pong_context (t0 t1 : byte) context :
  len context <= 16 →
  (if decide (2 < len (t0 :: t1 :: context)) then
     let context := drop 2 (t0 :: t1 :: context) in
     if decide (len context <= 16) then context else []
   else []) = context.
Proof.
  intros H. destruct context as [|x context]; [done|].
  rewrite !len_cons. pose proof (len_nonneg context). rewrite decide_True by lia.
  change (drop 2 (t0 :: t1 :: x :: context)) with (x :: context). rewrite len_cons in H. cbv zeta. by rewrite len_cons, decide_True.
Qed.

(** Heartbeats: on a PING with a two-byte TTL and a context of at most
    sixteen octets, [RecvMsg] writes one PONG frame carrying exactly that
    context, records the activity, and returns the command body. *)
Theorem ping_answered {SS : Type} (sec : secops SS) `{!Transparent sec} (maxAlloc : Z)
    (t0 t1 : byte) (context rest : bytes) (c : Conn SS) :
  len context <= 16 → 7 + len context <= maxAlloc → writable c → c_closed c = false →
  nc_in (c_rw c) = msg_wire true [x04 :: CmdPing ++ t0 :: t1 :: context] ++ rest →
  ∃ c', Conn_RecvMsg sec maxAlloc c = (Ret (mkMsg [t0 :: t1 :: context] CmdMsg false None, None), c') ∧
    nc_out (c_rw c') = nc_out (c_rw c) ++ msg_wire true [x04 :: CmdPong ++ context] ∧
    nc_in (c_rw c') = rest ∧
    c_heartbeat c' = (fun l => l ++ [HbActivity]) <$> c_heartbeat c.
Proof.
  intros Hx Ha [Ho Hr] Hc Hin. set (c1 := (notify_heartbeat HbActivity c).2).
  assert (Hrw : c_rw c1 = c_rw c ∧ c_closed c1 = c_closed c)
    by (unfold c1, notify_heartbeat, mupd; simpl; by destruct (c_heartbeat c)).
  destruct Hrw as [Hrw Hcl]. pose proof (len_nonneg context) as Hnn.
  set (ping := x04 :: CmdPing ++ t0 :: t1 :: context) in *.
  assert (Hping : len ping = 7 + len context) by (unfold ping, len; simpl; lia).
  exists (wrote (msg_wire true [x04 :: CmdPong ++ context]) (reading rest c1)).
  split; [|split; [simpl; by rewrite Hrw|split; [done|]]].
  - unfold Conn_RecvMsg. mstep reflexivity. unfold Conn_Closed at 1. rewrite Hc.
    mstep (instantiate (1 := c1); reflexivity).
    mstep (apply (Conn_read_wire sec maxAlloc true [ping] c1 rest);
      [done|by rewrite Hrw|by rewrite Hrw|]; repeat constructor; unfold maxInt64; lia).
    cbn [msgerr Frames]. change (Msg_isCmd _) with true. cbn [negb].
    unfold ping. rewrite (Cmd_unmarshal_app x04 CmdPing (t0 :: t1 :: context)) by done.
    cbn [Name Body]. change (beq CmdPing CmdPing) with true. cbv iota. rewrite pong_context by done.
    rewrite (M_bind_ret _ _ _ (inl tt) (wrote (msg_wire true [x04 :: CmdPong ++ context]) (reading rest c1)));
      [done|].
    unfold try. replace (Conn_SendCmd sec CmdPong context (reading rest c1)) with
      (Ret tt : outcome unit, wrote (msg_wire true [x04 :: CmdPong ++ context]) (reading rest c1)); [done|].
    symmetry. apply (SendCmd_wire sec CmdPong context (reading rest c1)); [done| |].
    + unfold writable. simpl. by rewrite Hrw.
    + change (c_closed (reading rest c1)) with (c_closed c1). by rewrite Hcl, Hc.
  - unfold c1, notify_heartbeat, mupd. simpl. by destruct (c_heartbeat c) eqn:E; simpl.
Qed.

Lemma ping_answered_witness :
  ∃ c', Conn_RecvMsg nullSecurity 1000 (test_conn Pub [x04; x09; x04; x50; x49; x4e; x47; x00; x0a; xaa; xbb])
        = (Ret (mkMsg [[x00; x0a; xaa; xbb]] CmdMsg false None, None), c') ∧
    nc_out (c_rw c') = [x04; x07; x04; x50; x4f; x4e; x47; xaa; xbb].
Proof.
  destruct (ping_answered nullSecurity 1000 x00 x0a [xaa; xbb] []
    (test_conn Pub [x04; x09; x04; x50; x49; x4e; x47; x00; x0a; xaa; xbb])) as (c' & H1 & H2 & _);
    [vm_compute; congruence|vm_compute; congruence|done|reflexivity|vm_compute; reflexivity|].
  exists c'. split; [exact H1|]. rewrite H2. vm_compute. reflexivity.
Defined.

(** C38. Termination of [read]: whatever the peer sends and however the
    connection ends, the frame loop ends: it returns a message (carrying an
    error or not), or panics because a frame announces a size the platform
    cannot allocate; its fuel is never used up. *)
Theorem read_total {SS : Type} (sec : secops SS) `{!Transparent sec} (maxAlloc : Z) (c : Conn SS) :
  (∃ msg, (Conn_read sec maxAlloc c).1 = Ret msg) ∨
  (Conn_read sec maxAlloc c).1 = Panic "makeslice: len out of range".
Proof. unfold Conn_read. apply read_loop_total; [done|lia]. Qed.

Lemma read_total_witness :
  (∃ msg, (Conn_read nullSecurity 1000 (test_conn Pull [x07; x00; x00])).1 = Ret msg) ∨
  (Conn_read nullSecurity 1000 (test_conn Pull [x07; x00; x00])).1 = Panic "makeslice: len out of range".
Proof. exact (read_total nullSecurity 1000 (test_conn Pull [x07; x00; x00])). Defined.

(** Oversized frames: a long header announcing more than the largest
    int64 yields the overflow error, but one announcing any size between what
    [make] can allocate and the largest int64 makes [read] panic before a
    single byte of the body has arrived. *)
Theorem oversized_frame {SS : Type} (sec : secops SS) `{!Transparent sec} (maxAlloc size : Z)
    (fl : byte) (rest : bytes) (c : Conn SS) :
  isLong fl = true → maxAlloc < size < 2 ^ 64 → 0 <= maxAlloc → nc_open (c_rw c) = true →
  nc_in (c_rw c) = fl :: be_put 8 size ++ rest →
  (Conn_read sec maxAlloc c).1 =
    if decide (maxInt64 < size) then Ret (mkMsg [] UsrMsg false (Some errOverflow))
    else Panic "makeslice: len out of range".
Proof.
  intros Hl Hs Hm Ho Hin. unfold Conn_read. rewrite Nat.add_1_r. cbn [read_loop].
  destruct (be_put 8 size) as [|h1 long] eqn:E; [done|].
  assert (Hlen : length long = 7%nat) by (pose proof (length_be_put 8 size) as HH; rewrite E in HH; simpl in HH; lia).
  rewrite (M_bind_ret _ _ _ (inl [fl; h1]) (reading (long ++ rest) c)) by (by apply read_rw_app).
  rewrite (M_bind_ret _ _ _ fl (reading (long ++ rest) c)), (M_bind_ret _ _ _ h1 (reading (long ++ rest) c)) by done.
  rewrite Hl. rewrite (M_bind_ret _ _ _ (inl size) (reading rest c)).
  - case_decide; [done|]. unfold make_slice. by rewrite decide_True by lia.
  - rewrite (M_bind_ret _ _ _ (inl long) (reading rest c)) by exact (read_rw_app 7 long rest (reading (long ++ rest) c) Ho eq_refl Hlen).
    rewrite <- E, be_get_put_small by (simpl; lia). done.
Qed.

Lemma oversized_frame_witness :
  (Conn_read nullSecurity (2 ^ 48) (test_conn Pull [x02; x40; x00; x00; x00; x00; x00; x00; x00])).1
  = Panic "makeslice: len out of range".
Proof.
  apply (oversized_frame nullSecurity (2 ^ 48) (2 ^ 62) x02 [] (test_conn Pull _));
    [reflexivity|lia|lia|reflexivity|vm_compute; reflexivity].
Defined.

(** What the owner of a connection sees of its end. *)
Definition ended {SS} (c c' : Conn SS) : Prop := c_closed c' = true ∧ c_onClose c' = S <$> c_onClose c.
Definition still_open {SS} (c c' : Conn SS) : Prop := c_closed c' = false ∧ c_onClose c' = c_onClose c.

(** End of stream: at a frame boundary the end of the stream is EOF, the
    connection is marked closed and its owner notified; in the middle of a
    header it is an unexpected EOF, which [checkIO] does not take for the end
    of the connection, so the connection stays open and nobody is notified. *)
Theorem eof_marks_closed {SS : Type} (sec : secops SS) (maxAlloc : Z) (c : Conn SS) :
  nc_open (c_rw c) = true → nc_end (c_rw c) = EOF → c_closed c = false →
  (nc_in (c_rw c) = [] →
     ∃ c', Conn_read sec maxAlloc c = (Ret (mkMsg [] UsrMsg false (Some EOF)), c') ∧ ended c c') ∧
  (∀ b, nc_in (c_rw c) = [b] →
     ∃ c', Conn_read sec maxAlloc c = (Ret (mkMsg [] UsrMsg false (Some ErrUnexpectedEOF)), c') ∧ still_open c c').
Proof.
  intros Ho He Hc. split.
  - intros Hin. unfold Conn_read. rewrite Nat.add_1_r. cbn [read_loop].
    unfold read_rw, try, on_rw, rw_readfull, mbind, M_bind. rewrite Ho, Hin, He. simpl.
    unfold Conn_SetClosed, mget, mbind, M_bind, notifyOnCloseError, mupd. simpl. rewrite Hc. simpl.
    eexists. split; [done|]. unfold ended. by destruct (c_onClose c).
  - intros b Hin. unfold Conn_read. rewrite Nat.add_1_r. cbn [read_loop].
    unfold read_rw, try, on_rw, rw_readfull, mbind, M_bind. rewrite Ho, Hin, He. simpl.
    eexists. split; [done|]. done.
Qed.

Lemma eof_marks_closed_witness :
  ∃ c', Conn_read nullSecurity 1000 (test_conn Sub [x00])
        = (Ret (mkMsg [] UsrMsg false (Some ErrUnexpectedEOF)), c') ∧ c_closed c' = false ∧
        c_onClose c' = Some 0%nat.
Proof. exact (proj2 (eof_marks_closed nullSecurity 1000 (test_conn Sub [x00]) eq_refl eq_refl eq_refl) x00 eq_refl). Defined.

(** The operations a socket performs on one of its connections. *)
Inductive connop : Type :=
| OpRead | OpSend (msg : Msg) | OpSendCmd (name body : bytes) | OpRecvMsg | OpRecvCmd
| OpCheckIO (e : option error) | OpSetClosed.

Definition run_connop {SS} (sec : secops SS) (maxAlloc : Z) (o : connop) (c : Conn SS) : Conn SS :=
  match o with
  | OpRead => (Conn_read sec maxAlloc c).2
  | OpSend msg => (Conn_SendMsg sec msg c).2
  | OpSendCmd name body => (Conn_SendCmd sec name body c).2
  | OpRecvMsg => (Conn_RecvMsg sec maxAlloc c).2
  | OpRecvCmd => (Conn_RecvCmd sec maxAlloc c).2
  | OpCheckIO e => (Conn_checkIO e c).2
  | OpSetClosed => (Conn_SetClosed c).2
  end.

(** Closing happens once: for every mechanism, every network behaviour
    and every sequence of operations, the close callback has been called
    exactly once if the connection is marked closed and never otherwise. *)
Theorem closed_once {SS : Type} (sec : secops SS) (maxAlloc : Z) (os : list connop) (c : Conn SS) :
  close_once c → close_once (foldl (fun c o => run_connop sec maxAlloc o c) c os).
Proof.
  revert c. induction os as [|o os IH]; intros c Hc; [done|]. simpl. apply IH.
  destruct o; simpl.
  - by apply keeps_read.
  - by apply keeps_SendMsg.
  - by apply keeps_SendCmd.
  - by apply keeps_RecvMsg.
  - by apply keeps_RecvCmd.
  - by apply keeps_checkIO.
  - by apply keeps_SetClosed.
Qed.

Lemma closed_once_witness :
  c_onClose (foldl (fun c o => run_connop nullSecurity 1000 o c) (test_conn Sub [])
    [OpRead; OpRecvMsg; OpSetClosed; OpCheckIO (Some EOF)]) = Some 1%nat ∧
  close_once (foldl (fun c o => run_connop nullSecurity 1000 o c) (test_conn Sub [])
    [OpRead; OpRecvMsg; OpSetClosed; OpCheckIO (Some EOF)]).
Proof.
  split; [vm_compute; reflexivity|].
  apply (closed_once nullSecurity 1000 [OpRead; OpRecvMsg; OpSetClosed; OpCheckIO (Some EOF)] (test_conn Sub [])).
  intros n H. injection H as <-. reflexivity.
Defined.

(** The promise of a set of subscriptions. *)
Definition topic_matches (topics : gset bytes) (topic : bytes) : Prop :=
  ∃ p, p ∈ topics ∧ p `prefix_of` topic.

#[export] Instance topic_matches_dec topics topic : Decision (topic_matches topics topic).
Proof. apply (set_Exists_dec (fun p => p `prefix_of` topic) topics). Defined.

Lemma Conn_subscribed_spec {SS} (c : Conn SS) topic :
  Conn_subscribed c topic = true ↔ topic_matches (c_topics c) topic.
Proof.
  unfold Conn_subscribed. rewrite existsb_exists. split.
  - intros (p & Hp & Hm). rewrite <- list_elem_of_In, elem_of_elements in Hp. exists p. split; [done|].
    destruct (beq p []) eqn:E; [|by apply HasPrefix_spec].
    apply bool_decide_eq_true in E as ->. apply prefix_nil.
  - intros (p & Hp & Hm). exists p. rewrite <- list_elem_of_In, elem_of_elements. split; [done|].
    destruct (beq p []); [done|by apply HasPrefix_spec].
Qed.

(** Subscriptions: a subscription frame [1 ++ k] adds the prefix [k] and
    [0 ++ k] removes it, other first octets change nothing; and a connection
    is subscribed to a topic exactly when one of its prefixes is a prefix of
    the topic, the empty prefix matching everything. *)
Theorem subscription_matching {SS : Type} (c : Conn SS) (topic k : bytes) (b : byte) (frames : list bytes) :
  ((Conn_subscribed c topic = true ↔ topic_matches (c_topics c) topic) ∧
  ∃ c', Conn_subscribe (mkMsg ((b :: k) :: frames) UsrMsg false None) c = (Ret tt, c') ∧
    c_topics c' = (if decide (b = x00) then c_topics c ∖ {[k]}
                   else if decide (b = x01) then {[k]} ∪ c_topics c else c_topics c)).
Proof.
  split.
  - apply Conn_subscribed_spec.
  - unfold Conn_subscribe. eexists. split; [reflexivity|].
    change (drop 1 (b :: k)) with (drop 0 k). rewrite drop_0. by repeat case_decide.
Qed.
