(* ===== verification/Inproc.v ===== *)
(** * Inproc: the in-process transport (src/internal/inproc/conn.go, inproc.go)

    A pipe is two connections over two channels of byte slices. A write puts
    one slice into the channel, a read takes one slice out, so that the pipe
    keeps the boundaries of writes: it is not a stream of bytes. The read
    loop of a connection (src/protocol_conn.go, [read], for a mechanism that
    does not encrypt) is written here over any source of bytes, shown to be
    [Conn_read] over a network connection, and then run over a pipe. *)

From Stdlib Require Import Strings.Byte ZArith Lia.
From stdpp Require Import base strings numbers gmap relations list.
From S2P Require Import Prelude Zmtp Conn ConnFacts.

#[local] Open Scope Z_scope.
#[local] Set Default Goal Selector "!".

(** ** Connections *)

Definition ErrClosedPipe : error := Sentinel "io: read/write on closed pipe".
Definition ErrShortBuffer : error := Sentinel "short buffer".

(** A deadline: the channel [cancel] is open and no timer runs, a timer will
    close it, it is closed. *)
Inductive deadline : Type := NoDeadline | Pending | Expired.

#[export] Instance deadline_eq_dec : EqDecision deadline.
Proof. solve_decision. Defined.

(** The argument of [set], against the clock. *)
Inductive moment : Type := ZeroTime | Future | Past.

Definition pipeDeadline_set (t : moment) (d : deadline) : deadline :=
  match t with ZeroTime => NoDeadline | Future => Pending | Past => Expired end.

(** [pc_r]: the channel the connection reads from; [pc_done]: [localDone] is
    closed. *)
Record pconn : Type := mkPconn {
  pc_r : list bytes;
  pc_done : bool;
  pc_rdeadline : deadline;
  pc_wdeadline : deadline }.

Definition set_pc_r (v : list bytes) (c : pconn) : pconn := mkPconn v (pc_done c) (pc_rdeadline c) (pc_wdeadline c).
Definition set_pc_done (c : pconn) : pconn := mkPconn (pc_r c) true (pc_rdeadline c) (pc_wdeadline c).
Definition set_pc_deadlines (r w : deadline) (c : pconn) : pconn := mkPconn (pc_r c) (pc_done c) r w.

(** A pipe, seen from one of its ends: this connection, and the other. *)
Abbreviation pipe := (pconn * pconn)%type.

Definition newPipe : pipe := (mkPconn [] false NoDeadline NoDeadline, mkPconn [] false NoDeadline NoDeadline).

(** The pipe from its other end. *)
Definition flip_pipe (p : pipe) : pipe := (p.2, p.1).

Definition pipeSize : nat := 8.

(** [Write]: [None] when it waits for room. The slice is the caller's, which
    must not change it before it is read; the model has its value. The
    timeout becomes a [net.OpError]. *)
Definition conn_write (data : bytes) (p : pipe) : option (outcome Z * pipe) :=
  let '(c, d) := p in
  if pc_done c then Some (Fail ErrClosedPipe, p)
  else if pc_done d then Some (Fail ErrClosedPipe, p)
  else if decide (pc_wdeadline c = Expired) then Some (Fail (NetErr true), p)
  else if decide (length (pc_r d) < pipeSize)%nat then Some (Ret (len data), (c, set_pc_r (pc_r d ++ [data]) d))
  else None.

(** [Read] into a buffer of [n] bytes: the bytes it got and the error it
    returns with them; [None] when it waits. What does not fit into the buffer
    is gone. *)
Definition conn_read (n : nat) (p : pipe) : option (bytes * option error * pipe) :=
  let '(c, d) := p in
  if pc_done c then Some ([], Some ErrClosedPipe, p)
  else if pc_done d then Some ([], Some EOF, p)
  else if decide (pc_rdeadline c = Expired) then Some ([], Some (NetErr true), p)
  else
    match pc_r c with
    | bw :: rest => Some (take n bw, if decide (n < length bw)%nat then Some (NetErr false) else None, (set_pc_r rest c, d))
    | [] => None
    end.

Definition conn_Close (p : pipe) : pipe := (set_pc_done p.1, p.2).

Definition SetDeadline (t : moment) (p : pipe) : outcome unit * pipe :=
  if pc_done p.1 || pc_done p.2 then (Fail ErrClosedPipe, p)
  else (Ret tt, (set_pc_deadlines (pipeDeadline_set t (pc_rdeadline p.1)) (pipeDeadline_set t (pc_wdeadline p.1)) p.1, p.2)).
Definition SetReadDeadline (t : moment) (p : pipe) : outcome unit * pipe :=
  if pc_done p.1 || pc_done p.2 then (Fail ErrClosedPipe, p)
  else (Ret tt, (set_pc_deadlines (pipeDeadline_set t (pc_rdeadline p.1)) (pc_wdeadline p.1) p.1, p.2)).
Definition SetWriteDeadline (t : moment) (p : pipe) : outcome unit * pipe :=
  if pc_done p.1 || pc_done p.2 then (Fail ErrClosedPipe, p)
  else (Ret tt, (set_pc_deadlines (pc_rdeadline p.1) (pipeDeadline_set t (pc_wdeadline p.1)) p.1, p.2)).

(** [io.ReadFull] with a buffer of [n] bytes: it reads until the buffer is
    full or a read fails, and drops the error of the read that fills it.
    [None] when a read waits; every read takes a slice out of the channel, so
    fuel [length (pc_r c) + 1] is enough. *)
Fixpoint readfull_loop (fuel n : nat) (acc : bytes) (p : pipe) : option (bytes + error) * pipe :=
  if decide (n <= length acc)%nat then (Some (inl acc), p)
  else
    match fuel with
    | O => (None, p)
    | S fuel =>
        match conn_read (n - length acc) p with
        | None => (None, p)
        | Some (b, err, p) =>
            if decide (n <= length (acc ++ b))%nat then (Some (inl (acc ++ b)), p)
            else
              match err with
              | None => readfull_loop fuel n (acc ++ b) p
              | Some e => (Some (inr (match acc ++ b, e with _ :: _, EOF => ErrUnexpectedEOF | _, e => e end)), p)
              end
        end
    end.

Definition pipe_readfull (n : nat) : M pipe (option (bytes + error)) := fun p =>
  let '(r, p) := readfull_loop (length (pc_r p.1) + 1) n [] p in (Ret r, p).

(** ** The read loop over any source of bytes *)

Section read.
(** [rd n]: [io.ReadFull] of [n] bytes; [None] when it waits. *)
Context {T : Type} (rd : nat → M T (option (bytes + error))) (maxAlloc : Z).

(** The continuation of a read that got its bytes. *)
Definition with_bytes (frames : list bytes) (r : option (bytes + error)) (k : bytes → M T (option Msg)) : M T (option Msg) :=
  match r with
  | None => mret None
  | Some (inr e) => mret (Some (mkMsg frames UsrMsg false (Some e)))
  | Some (inl b) => k b
  end.

Fixpoint null_read_loop (fuel : nat) (frames : list bytes) (isCmd : bool) : M T (option Msg) :=
  match fuel with
  | O => mpanic "out of fuel"
  | S fuel =>
      r ← rd 2;
      with_bytes frames r (fun header =>
        fl ← lift (idx header 0);
        h1 ← lift (idx header 1);
        let isCmd := isCmd || isCommand fl in
        l ← (if isLong fl then rd 7 else mret (Some (inl [])));
        with_bytes frames l (fun long =>
          let size := if isLong fl then be_get (h1 :: long) else byte_Z h1 in
          if decide (maxInt64 < size) then mret (Some (mkMsg frames UsrMsg false (Some errOverflow)))
          else
            (if decide (maxAlloc < size) then mpanic "makeslice: len out of range" else mret tt);;
            r ← rd (Z.to_nat size);
            with_bytes frames r (fun body =>
              let frames' := frames ++ [body] in
              if hasMore fl then null_read_loop fuel frames' isCmd
              else mret (Some (mkMsg frames' (if isCmd then CmdMsg else UsrMsg) false None)))))
  end.
End read.

(** Over a network connection it is [Conn_read] with the NULL mechanism. *)
Definition conn_rd (n : nat) : M (Conn unit) (option (bytes + error)) := r ← read_rw n; mret (Some r).

Lemma null_read_is_Conn_read maxAlloc fuel : ∀ frames isCmd (c : Conn unit),
  null_read_loop conn_rd maxAlloc fuel frames isCmd c =
  match read_loop nullSecurity maxAlloc fuel frames isCmd c with
  | (Ret m, c') => (Ret (Some m), c')
  | (Fail e, c') => (Fail e, c')
  | (Panic s, c') => (Panic s, c')
  end.
Proof.
  induction fuel as [|fuel IH]; intros frames isCmd c; [done|]. cbn [null_read_loop read_loop].
  unfold conn_rd, mbind, M_bind, mret, M_ret, lift, make_slice.
  destruct (read_rw 2 c) as [[[h|e]|e|s] c1]; cbn [with_bytes]; [|done..].
  destruct (idx h 0) as [fl| |]; [|done..]. destruct (idx h 1) as [h1| |]; [|done..].
  destruct (isLong fl) eqn:Hlong; [destruct (read_rw 7 c1) as [[[l|e]|e|s] c2]; cbn [with_bytes]; [|done..]|cbn [with_bytes]];
    (case_decide; [done|]); (case_decide; [done|]); cbn [mpanic mret M_ret];
    (match goal with |- context [read_rw (Z.to_nat ?n) ?c] => destruct (read_rw (Z.to_nat n) c) as [[[b|e]|e|s] c3] end; cbn [with_bytes]; [|done..]);
    cbn; (destruct (hasMore fl); [apply IH|done]).
Qed.

(** ** Messages through a pipe *)

(** The writes of [Conn.send] for one frame: the header, and the body unless
    it is empty. *)
Definition frame_chunks (more cmd : bool) (body : bytes) : list bytes :=
  frame_header (wire_flag more cmd (len body)) (len body) :: (if decide (body = []) then [] else [body]).

Fixpoint msg_chunks (cmd : bool) (frames : list bytes) : list bytes :=
  match frames with
  | [] => []
  | f :: rest => frame_chunks (match rest with [] => false | _ => true end) cmd f ++ msg_chunks cmd rest
  end.

(** Joined together they are what [SendMsg] writes. *)
Lemma concat_msg_chunks cmd frames : concat (msg_chunks cmd frames) = msg_wire cmd frames.
Proof.
  induction frames as [|f frames IH]; [done|]. cbn [msg_chunks msg_wire]. rewrite concat_app, IH. f_equal. unfold frame_chunks, frame_wire.
  case_decide as Hf; subst; cbn; by rewrite ?app_nil_r.
Qed.

(** Writes one after the other; [None] when one of them waits. *)
Fixpoint write_chunks (chunks : list bytes) (p : pipe) : option (outcome unit * pipe) :=
  match chunks with
  | [] => Some (Ret tt, p)
  | data :: rest =>
      match conn_write data p with
      | Some (Ret _, p) => write_chunks rest p
      | Some (Fail e, p) => Some (Fail e, p)
      | Some (Panic s, p) => Some (Panic s, p)
      | None => None
      end
  end.

(** Neither end is closed and no deadline has passed. *)
Definition pipe_open (p : pipe) : Prop :=
  pc_done p.1 = false ∧ pc_done p.2 = false ∧ pc_wdeadline p.1 ≠ Expired ∧ pc_rdeadline p.2 ≠ Expired.

Lemma write_chunks_room chunks : ∀ p, pipe_open p → (length (pc_r p.2) + length chunks <= pipeSize)%nat →
  write_chunks chunks p = Some (Ret tt, (p.1, set_pc_r (pc_r p.2 ++ chunks) p.2)).
Proof.
  induction chunks as [|data chunks IH]; intros [c d] (Hc & Hd & Hw & Hr) Hroom; cbn [write_chunks].
  - rewrite app_nil_r. by destruct d.
  - cbn [fst snd length] in *. unfold conn_write. rewrite Hc, Hd, decide_False, decide_True by (done || lia).
    rewrite IH; [|done|cbn; rewrite length_app; cbn; lia]. cbn. by rewrite <- app_assoc.
Qed.

(** A read takes one slice: all of it when it fits, its beginning otherwise,
    and [io.ReadFull] does not tell the two apart. *)
Lemma pipe_readfull_chunk n chunk rest c d :
  pc_done c = false → pc_done d = false → pc_rdeadline c ≠ Expired → pc_r c = chunk :: rest → (0 < n <= length chunk)%nat →
  pipe_readfull n (c, d) = (Ret (Some (inl (take n chunk))), (set_pc_r rest c, d)).
Proof.
  intros Hc Hd Hr Hq Hn. unfold pipe_readfull. cbn [fst]. rewrite Hq. cbn [length Nat.add readfull_loop app].
  rewrite decide_False by lia. unfold conn_read. rewrite Hc, Hd, decide_False, Hq by done. rewrite Nat.sub_0_r, decide_True; [done|].
  rewrite length_take. lia.
Qed.

Lemma pipe_readfull_none n c d :
  pc_done c = false → pc_done d = false → pc_rdeadline c ≠ Expired → pc_r c = [] → (0 < n)%nat → pipe_readfull n (c, d) = (Ret None, (c, d)).
Proof.
  intros Hc Hd Hr Hq Hn. unfold pipe_readfull. cbn [fst]. rewrite Hq. cbn [length Nat.add readfull_loop].
  rewrite decide_False by (cbn; lia). unfold conn_read. by rewrite Hc, Hd, decide_False, Hq by done.
Qed.

Lemma pipe_readfull_0 p : pipe_readfull 0 p = (Ret (Some (inl [])), p).
Proof. unfold pipe_readfull. rewrite Nat.add_comm. cbn [Nat.add readfull_loop length]. by rewrite decide_True by lia. Qed.

Lemma set_pc_r_set v v' c : set_pc_r v (set_pc_r v' c) = set_pc_r v c.
Proof. done. Qed.

(** A short frame at the head of the channel. *)
Lemma pipe_short_frame maxAlloc fuel acc isCmd more cmd f rest c d :
  pc_done c = false → pc_done d = false → pc_rdeadline c ≠ Expired → len f <= 255 → 255 <= maxAlloc →
  pc_r c = frame_chunks more cmd f ++ rest →
  null_read_loop pipe_readfull maxAlloc (S fuel) acc isCmd (c, d) =
  (if more then null_read_loop pipe_readfull maxAlloc fuel (acc ++ [f]) (isCmd || cmd)
   else mret (Some (mkMsg (acc ++ [f]) (if isCmd || cmd then CmdMsg else UsrMsg) false None))) (set_pc_r rest c, d).
Proof.
  intros Hc Hd Hr Hlen Ha Hq. pose proof (len_nonneg f). unfold frame_chunks, frame_header in Hq. rewrite decide_False in Hq by lia.
  cbn [null_read_loop app] in *. mstep (eapply pipe_readfull_chunk; [exact Hc|exact Hd|exact Hr|exact Hq|cbn; lia]).
  cbn [with_bytes take]. mstep reflexivity. mstep reflexivity. rewrite isLong_wire, bool_decide_eq_false_2 by lia.
  mstep reflexivity. cbn [with_bytes]. rewrite byte_Z_Z_byte, Z.mod_small, isCommand_wire, hasMore_wire by lia.
  rewrite decide_False by (unfold maxInt64; lia). rewrite decide_False by lia. mstep reflexivity. rewrite len_to_nat.
  destruct (decide (f = [])) as [->|Hf].
  - mstep apply pipe_readfull_0. cbn [with_bytes app]. by destruct more.
  - mstep (eapply (pipe_readfull_chunk (length f) f rest); [done|done|done|done|destruct f; [done|cbn; lia]]).
    rewrite take_ge by lia. cbn [with_bytes]. by destruct more.
Qed.

Lemma pipe_short_frames maxAlloc cmd frames : ∀ fuel acc isCmd rest c d,
  pc_done c = false → pc_done d = false → pc_rdeadline c ≠ Expired → 255 <= maxAlloc →
  frames ≠ [] → Forall (fun f => len f <= 255) frames → (length frames <= fuel)%nat → pc_r c = msg_chunks cmd frames ++ rest →
  null_read_loop pipe_readfull maxAlloc fuel acc isCmd (c, d) =
  (Ret (Some (mkMsg (acc ++ frames) (if isCmd || cmd then CmdMsg else UsrMsg) false None)), (set_pc_r rest c, d)).
Proof.
  induction frames as [|f frames IH]; intros fuel acc isCmd rest c d Hc Hd Hr Ha Hne Hall Hfuel Hq; [done|].
  apply Forall_cons in Hall as [Hf Hall]. destruct fuel as [|fuel]; [cbn in Hfuel; lia|]. cbn [msg_chunks length] in *.
  rewrite <- app_assoc in Hq. rewrite (pipe_short_frame maxAlloc fuel acc isCmd _ _ _ _ _ _ Hc Hd Hr Hf Ha Hq).
  destruct frames as [|f2 frames]; [done|]. rewrite (IH fuel (acc ++ [f]) (isCmd || cmd) rest); try done.
  - rewrite <- app_assoc. by destruct isCmd, cmd.
  - lia.
Qed.


(** A longer frame does not: the reader takes the first two bytes of the
    nine-byte header and loses the others, and reads the size of the frame
    from the first seven bytes of its contents, losing the rest of them. If
    that number is more than can be allocated, the process panics; if it is
    zero, an empty frame is delivered; otherwise the reader waits for that many
    bytes. The message is lost in every case. *)
Theorem inproc_long_frame maxAlloc p f :
  pipe_open p → pc_r p.2 = [] → 255 < len f < 2 ^ 56 →
  let size := be_get (take 7 f) in
  ∃ p1, write_chunks (msg_chunks false [f]) p = Some (Ret tt, p1) ∧
    null_read_loop pipe_readfull maxAlloc 1 [] false (flip_pipe p1) =
    (if decide (maxAlloc < size) then Panic "makeslice: len out of range"
     else if decide (size = 0) then Ret (Some (NewMsgFrom [[]])) else Ret None, flip_pipe p).
Proof.
  intros Hopen Hq Hf size. rewrite write_chunks_room.
  2:{ done. }
  2:{ rewrite Hq. unfold pipeSize. cbn. case_decide; cbn; lia. }
  eexists. split; [reflexivity|]. destruct p as [c d]. destruct Hopen as (Hc & Hd & _ & Hr). unfold flip_pipe. cbn [fst snd] in *. rewrite Hq. cbn [app msg_chunks].
  unfold frame_chunks, frame_header. rewrite decide_True by lia. rewrite (decide_False (P := f = [])) by (intros ->; unfold len in Hf; cbn [length] in Hf; lia). cbn [app].
  cbn [be_put Z.of_nat null_read_loop].
  assert (Hlf : (7 <= length f)%nat) by (unfold len in Hf; lia).
  mstep (eapply pipe_readfull_chunk; [exact Hd|exact Hc|exact Hr|reflexivity|cbn; lia]). cbn [take with_bytes].
  mstep reflexivity. mstep reflexivity. rewrite isLong_wire, bool_decide_eq_true_2 by lia.
  mstep (eapply pipe_readfull_chunk; [exact Hd|exact Hc|exact Hr|reflexivity|lia]). cbn [with_bytes].
  assert (Hz : Z_byte (len f / 256 ^ 7) = x00) by (rewrite Z.div_small by (cbn; lia); reflexivity).
  change (Z.of_nat 7) with 7. rewrite Hz. rewrite be_get_cons. change (byte_Z x00) with 0. rewrite Z.mul_0_l, Z.add_0_l. fold size.
  pose proof (be_get_range (take 7 f)) as Hrange. unfold len in Hrange. rewrite length_take, Nat.min_l in Hrange by lia. fold size in Hrange.
  rewrite decide_False by (unfold maxInt64; cbn in Hrange; lia). rewrite hasMore_wire, isCommand_wire.
  destruct (decide (maxAlloc < size)).
  { cbn. destruct d as [r dn rd wd]. cbn in *. by subst. }
  mstep reflexivity. destruct (decide (size = 0)) as [->|Hs].
  - mstep apply pipe_readfull_0. cbn. destruct d as [r dn rd wd]. cbn in *. by subst.
  - mstep (apply pipe_readfull_none; [exact Hd|exact Hc|exact Hr|reflexivity|lia]). cbn. destruct d as [r dn rd wd]. cbn in *. by subst.
Qed.

(** ** Closing *)

(** What can happen to a pipe while a read at its first end waits in its
    [select]. *)
Inductive pipe_step : pipe → pipe → Prop :=
| PsWrite1 data r p p' : conn_write data p = Some (r, p') → pipe_step p p'
| PsWrite2 data r p p' : conn_write data (flip_pipe p) = Some (r, p') → pipe_step p (flip_pipe p')
| PsRead2 n b e p p' : conn_read n (flip_pipe p) = Some (b, e, p') → pipe_step p (flip_pipe p')
| PsClose1 p : pipe_step p (conn_Close p)
| PsClose2 p : pipe_step p (flip_pipe (conn_Close (flip_pipe p)))
| PsDeadline1 t p : pipe_step p (SetDeadline t p).2
| PsReadDeadline1 t p : pipe_step p (SetReadDeadline t p).2
| PsWriteDeadline1 t p : pipe_step p (SetWriteDeadline t p).2
| PsDeadline2 t p : pipe_step p (flip_pipe (SetDeadline t (flip_pipe p)).2)
| PsReadDeadline2 t p : pipe_step p (flip_pipe (SetReadDeadline t (flip_pipe p)).2)
| PsWriteDeadline2 t p : pipe_step p (flip_pipe (SetWriteDeadline t (flip_pipe p)).2)
| PsTimer p : pc_rdeadline p.1 = Pending → pipe_step p (set_pc_deadlines Expired (pc_wdeadline p.1) p.1, p.2).

(** The [select] of a read: it goes on when a slice is there or the deadline
    has passed; it does not look at [localDone] and [remoteDone]. *)
Definition read_ready (p : pipe) : bool :=
  bool_decide (pc_r p.1 ≠ []) || bool_decide (pc_rdeadline p.1 = Expired).

Definition stuck_read (p : pipe) : Prop :=
  pc_r p.1 = [] ∧ pc_rdeadline p.1 = NoDeadline ∧ (pc_done p.1 || pc_done p.2) = true.

Lemma conn_write_closed data p : (pc_done p.1 || pc_done p.2) = true → conn_write data p = Some (Fail ErrClosedPipe, p).
Proof. destruct p as [c d]. cbn. destruct (pc_done c); [done|]. cbn. by intros ->. Qed.

Lemma conn_read_closed n p : (pc_done p.1 || pc_done p.2) = true → ∃ e, conn_read n p = Some ([], Some e, p).
Proof. destruct p as [c d]. cbn. destruct (pc_done c); [by eexists|]. cbn. intros ->. by eexists. Qed.

Lemma SetDeadlines_closed t p : (pc_done p.1 || pc_done p.2) = true →
  SetDeadline t p = (Fail ErrClosedPipe, p) ∧ SetReadDeadline t p = (Fail ErrClosedPipe, p) ∧ SetWriteDeadline t p = (Fail ErrClosedPipe, p).
Proof. unfold SetDeadline, SetReadDeadline, SetWriteDeadline. by intros ->. Qed.

Lemma stuck_read_step p p' : pipe_step p p' → stuck_read p → stuck_read p'.
Proof.
  intros Hstep Hs. pose proof Hs as (Hq & Hr & Hdone).
  assert (Hdone2 : (pc_done (flip_pipe p).1 || pc_done (flip_pipe p).2) = true) by (by rewrite orb_comm).
  assert (Hflip : flip_pipe (flip_pipe p) = p) by (by destruct p).
  destruct Hstep as [data r p p' E|data r p p' E|n b e p p' E|p|p|t p|t p|t p|t p|t p|t p|p E].
  - rewrite conn_write_closed in E by done. by simplify_eq.
  - rewrite conn_write_closed in E by done. simplify_eq. by rewrite Hflip.
  - destruct (conn_read_closed n _ Hdone2) as [e' E']. rewrite E' in E. simplify_eq. by rewrite Hflip.
  - done.
  - unfold stuck_read. cbn. split_and!; [done..|]. apply orb_true_r.
  - by destruct (SetDeadlines_closed t p Hdone) as (-> & _ & _).
  - by destruct (SetDeadlines_closed t p Hdone) as (_ & -> & _).
  - by destruct (SetDeadlines_closed t p Hdone) as (_ & _ & ->).
  - destruct (SetDeadlines_closed t _ Hdone2) as (-> & _ & _). cbn. by rewrite Hflip.
  - destruct (SetDeadlines_closed t _ Hdone2) as (_ & -> & _). cbn. by rewrite Hflip.
  - destruct (SetDeadlines_closed t _ Hdone2) as (_ & _ & ->). cbn. by rewrite Hflip.
  - congruence.
Qed.

(** Closing a pipe loses data and does not wake its readers: a read after
    the other end is closed reports the end of the stream although slices
    written before are waiting; and a read that waits without a deadline when
    either end is closed waits forever, whatever is done to the pipe, since no
    write succeeds and no deadline can be set any more. *)
Theorem inproc_close n p p' :
  (pc_done p.1 = false → pc_done p.2 = true → conn_read n p = Some ([], Some EOF, p)) ∧
  (pc_r p.1 = [] → pc_rdeadline p.1 = NoDeadline → (pc_done p.1 || pc_done p.2) = true → rtc pipe_step p p' → read_ready p' = false).
Proof.
  split.
  - destruct p as [c d]. cbn. by intros -> ->.
  - intros Hq Hr Hdone Hrun. assert (Hs : stuck_read p) by done. clear Hq Hr Hdone.
    induction Hrun as [p|p p1 p2 Hstep _ IH]; [|by eapply IH, stuck_read_step].
    destruct Hs as (Hq & Hr & _). unfold read_ready. by rewrite Hq, Hr.
Qed.

(** ** Listeners *)

Record Listener : Type := mkListener { ls_addr : bytes; ls_pipes : list nat; ls_closed : bool }.

(** [mgr.db], the listeners and the pipes, by number; the first end of a pipe
    belongs to the listener. *)
Record inprocMgr : Type := mkMgr { im_db : gmap bytes nat; im_listeners : gmap nat Listener; im_pipes : gmap nat pipe }.

Definition ErrInprocClosed : error := Sentinel "inproc: connection closed".
Definition ErrConnRefused : error := Sentinel "inproc: connection refused".

Definition inproc_Listen (addr : bytes) : M inprocMgr nat := fun m =>
  match im_db m !! addr with
  | Some _ => (Fail (Errorf "inproc: address already in use"), m)
  | None =>
      let l := fresh (dom (im_listeners m)) in
      (Ret l, mkMgr (<[addr := l]> (im_db m)) (<[l := mkListener addr [] false]> (im_listeners m)) (im_pipes m))
  end.

Definition close_pipe (pipes : gmap nat pipe) (i : nat) : gmap nat pipe :=
  alter (fun p => (set_pc_done p.1, set_pc_done p.2)) i pipes.

Definition Listener_Close (l : nat) (m : inprocMgr) : inprocMgr :=
  match im_listeners m !! l with
  | Some L =>
      if ls_closed L then m
      else mkMgr (delete (ls_addr L) (im_db m)) (<[l := mkListener (ls_addr L) (ls_pipes L) true]> (im_listeners m))
             (foldl close_pipe (im_pipes m) (ls_pipes L))
  | None => m
  end.

(** A pipe is made for the next dialler, and its first end returned at
    once. *)
Definition Listener_Accept (l : nat) : M inprocMgr nat := fun m =>
  match im_listeners m !! l with
  | Some L =>
      let i := fresh (dom (im_pipes m)) in
      let m := mkMgr (im_db m) (<[l := mkListener (ls_addr L) (ls_pipes L ++ [i]) (ls_closed L)]> (im_listeners m)) (<[i := newPipe]> (im_pipes m)) in
      (if ls_closed L then Fail ErrInprocClosed else Ret i, m)
  | None => (Panic "invalid memory address or nil pointer dereference", m)
  end.

(** [Dial]: the second end of the last pipe; [None] when it waits for one. *)
Definition inproc_Dial (addr : bytes) (m : inprocMgr) : option (outcome nat * inprocMgr) :=
  match im_db m !! addr with
  | None => Some (Fail ErrConnRefused, m)
  | Some l =>
      match im_listeners m !! l with
      | None => Some (Fail ErrConnRefused, m)
      | Some L =>
          match last (ls_pipes L) with
          | Some i =>
              Some (Ret i, mkMgr (im_db m) (<[l := mkListener (ls_addr L) (take (length (ls_pipes L) - 1) (ls_pipes L)) (ls_closed L)]> (im_listeners m)) (im_pipes m))
          | None => None
          end
      end
  end.

(** Steps, with the ends they hand out. *)
Inductive handout : Type := Accepted (i : nat) | Dialled (i : nat).

Inductive mgr_step : inprocMgr → list handout → inprocMgr → Prop :=
| MsListen addr r m m' : inproc_Listen addr m = (r, m') → mgr_step m [] m'
| MsClose l m : mgr_step m [] (Listener_Close l m)
| MsAccept l i m m' : Listener_Accept l m = (Ret i, m') → mgr_step m [Accepted i] m'
| MsAcceptClosed l e m m' : Listener_Accept l m = (Fail e, m') → mgr_step m [] m'
| MsDial addr i m m' : inproc_Dial addr m = Some (Ret i, m') → mgr_step m [Dialled i] m'
| MsPipes pipes m : dom pipes = dom (im_pipes m) → mgr_step m [] (mkMgr (im_db m) (im_listeners m) pipes).

Inductive mgr_run : inprocMgr → list handout → inprocMgr → Prop :=
| mgr_nil m : mgr_run m [] m
| mgr_snoc m hs m' h m'' : mgr_run m hs m' → mgr_step m' h m'' → mgr_run m (hs ++ h) m''.

Definition no_listeners : inprocMgr := mkMgr ∅ ∅ ∅.

(** ** Who is connected to whom *)

Record mgr_ok (hs : list handout) (m : inprocMgr) : Prop := {
  mo_nodup l L : im_listeners m !! l = Some L → NoDup (ls_pipes L);
  mo_pending l L i : im_listeners m !! l = Some L → i ∈ ls_pipes L →
    i ∈ dom (im_pipes m) ∧ Dialled i ∉ hs ∧ (ls_closed L = false → Accepted i ∈ hs);
  mo_disjoint l l' L L' i : im_listeners m !! l = Some L → im_listeners m !! l' = Some L' → i ∈ ls_pipes L → i ∈ ls_pipes L' → l = l';
  mo_known i : Accepted i ∈ hs ∨ Dialled i ∈ hs → i ∈ dom (im_pipes m);
  mo_db addr l : im_db m !! addr = Some l ↔ ∃ L, im_listeners m !! l = Some L ∧ ls_addr L = addr ∧ ls_closed L = false;
  mo_hs : NoDup hs;
  mo_dials i : Dialled i ∈ hs → Accepted i ∈ hs }.

Lemma dom_close_pipes ids : ∀ pipes : gmap nat pipe, dom (foldl close_pipe pipes ids) = dom pipes.
Proof. induction ids as [|i ids IH]; intros pipes; [done|]. cbn [foldl]. rewrite IH. apply dom_alter_L. Qed.

Lemma Listen_ok hs addr r m m' : mgr_ok hs m → inproc_Listen addr m = (r, m') → mgr_ok hs m'.
Proof.
  intros Hok. unfold inproc_Listen. destruct (im_db m !! addr) as [l0|] eqn:Hdb; [by intros [= <- <-]|]. intros [= <- <-].
  set (l := fresh (dom (im_listeners m))).
  assert (Hl : im_listeners m !! l = None) by (apply not_elem_of_dom, is_fresh). clearbody l.
  destruct Hok as [H1 H2 H3 H4 H5 H6 H7]. split; cbn; [| | |done| |done|done].
  - intros l' L' [[<- <-]|[_ ?]]%lookup_insert_Some; [constructor|by eapply H1].
  - intros l' L' i [[<- <-]|[_ ?]]%lookup_insert_Some Hi; [by apply elem_of_nil in Hi|by eapply H2].
  - intros l1 l2 L1 L2 i [[<- <-]|[_ ?]]%lookup_insert_Some [[<- <-]|[_ ?]]%lookup_insert_Some Hi1 Hi2;
      try (by apply elem_of_nil in Hi1); try (by apply elem_of_nil in Hi2). by eapply H3.
  - intros a l'. rewrite lookup_insert_Some. split.
    + intros [[<- <-]|[Hne Ha]]; [eexists; by rewrite lookup_insert_eq|]. apply H5 in Ha as (L & HL & ?).
      exists L. rewrite lookup_insert_ne by congruence. done.
    + intros (L & HL & Ha & Hc). apply lookup_insert_Some in HL as [[<- <-]|[Hne HL]]; [left; done|]. right.
      assert (Hdb' : im_db m !! a = Some l') by (apply H5; by exists L). split; [congruence|done].
Qed.

Lemma Close_ok hs l m : mgr_ok hs m → mgr_ok hs (Listener_Close l m).
Proof.
  intros Hok. unfold Listener_Close. destruct (im_listeners m !! l) as [L|] eqn:HL; [|done]. destruct (ls_closed L) eqn:Hc; [done|].
  destruct Hok as [H1 H2 H3 H4 H5 H6 H7]. split; cbn; [| | | | |done|done].
  - intros l' L' [[<- <-]|[_ ?]]%lookup_insert_Some; [by apply (H1 l L)|by eapply H1].
  - intros l' L' i [[<- <-]|[_ HL']]%lookup_insert_Some Hi; rewrite dom_close_pipes; [|by eapply H2].
    cbn in Hi. by destruct (H2 l L i HL Hi) as (? & ? & ?).
  - intros l1 l2 L1 L2 i [[<- <-]|[_ ?]]%lookup_insert_Some [[<- <-]|[_ ?]]%lookup_insert_Some Hi1 Hi2; cbn in *; try done; by eapply H3.
  - intros i Hi. rewrite dom_close_pipes. by apply H4.
  - intros a l'. rewrite lookup_delete_Some, H5. split.
    + intros (Hne & L' & HL' & Ha & Hc'). exists L'. rewrite lookup_insert_ne; [done|]. intros <-. congruence.
    + intros (L' & HL' & Ha & Hc'). apply lookup_insert_Some in HL' as [[<- <-]|[Hne HL']]; [done|]. split; [|by exists L'].
      intros Heq. assert (Hd : im_db m !! ls_addr L = Some l) by (apply H5; by exists L).
      assert (Hd' : im_db m !! a = Some l') by (apply H5; by exists L'). congruence.
Qed.

Lemma Accept_ok hs l o m m' :
  mgr_ok hs m → Listener_Accept l m = (o, m') →
  match o with Ret i => mgr_ok (hs ++ [Accepted i]) m' | _ => mgr_ok hs m' end.
Proof.
  intros Hok. unfold Listener_Accept. destruct (im_listeners m !! l) as [L|] eqn:HL; [|by intros [= <- <-]].
  set (i := fresh (dom (im_pipes m))). assert (Hi : i ∉ dom (im_pipes m)) by apply is_fresh. clearbody i.
  destruct Hok as [H1 H2 H3 H4 H5 H6 H7].
  assert (Hnew : ∀ l' L', im_listeners m !! l' = Some L' → i ∉ ls_pipes L') by (intros l' L' HL' Hin; by apply Hi, (H2 l' L' i)).
  assert (Hfresh : Accepted i ∉ hs ∧ Dialled i ∉ hs) by (split; intros Hin; apply Hi, H4; auto).
  assert (Hall : ∀ hs', (∀ h, h ∈ hs' ↔ h ∈ hs ∨ (ls_closed L = false ∧ h = Accepted i)) → NoDup hs' →
    mgr_ok hs' (mkMgr (im_db m) (<[l := mkListener (ls_addr L) (ls_pipes L ++ [i]) (ls_closed L)]> (im_listeners m)) (<[i := newPipe]> (im_pipes m)))).
  { intros hs' Hhs Hnd. split; cbn; [| | | | |done|].
    - intros l' L' [[<- <-]|[_ ?]]%lookup_insert_Some; [|by eapply H1]. cbn. apply NoDup_app. split_and!.
      + by eapply H1.
      + intros j Hj ->%list_elem_of_singleton. by eapply Hnew.
      + apply NoDup_singleton.
    - intros l' L' j HL' Hj. rewrite dom_insert, elem_of_union, elem_of_singleton, !Hhs.
      apply lookup_insert_Some in HL' as [[<- <-]|[_ HL']]; cbn in *.
      + apply elem_of_app in Hj as [Hj| ->%list_elem_of_singleton]; [|naive_solver].
        destruct (H2 l L j HL Hj) as (? & ? & ?). naive_solver.
      + destruct (H2 l' L' j HL' Hj) as (? & ? & ?). naive_solver.
    - intros l1 l2 L1 L2 j [[<- <-]|[? HL1]]%lookup_insert_Some [[<- <-]|[? HL2]]%lookup_insert_Some Hj1 Hj2; cbn in *; try done.
      + apply elem_of_app in Hj1 as [Hj1| ->%list_elem_of_singleton]; [by apply (H3 l l2 L L2 j)|by destruct (Hnew l2 L2)].
      + apply elem_of_app in Hj2 as [Hj2| ->%list_elem_of_singleton]; [by apply (H3 l1 l L1 L j)|by destruct (Hnew l1 L1)].
      + by eapply H3.
    - intros j. rewrite !Hhs, dom_insert, elem_of_union, elem_of_singleton. intros [[?|[_ [= ->]]]|[?|[_ [=]]]]; auto.
    - intros a l'. rewrite H5. split.
      + intros (L' & HL' & Ha & Hc). destruct (decide (l = l')) as [<-|Hne].
        * eexists. rewrite lookup_insert_eq. split; [reflexivity|]. cbn. by simplify_eq.
        * exists L'. by rewrite lookup_insert_ne.
      + intros (L' & HL' & Ha & Hc). apply lookup_insert_Some in HL' as [[<- <-]|[Hne HL']]; [|by exists L']. by exists L.
    - intros j. rewrite !Hhs. intros [?|[_ [=]]]. left. by apply H7. }
  destruct (ls_closed L) eqn:Hc; intros [= <- <-]; apply Hall.
  - naive_solver.
  - done.
  - intros h. rewrite elem_of_app, list_elem_of_singleton. naive_solver.
  - apply NoDup_app. split_and!; [done| |apply NoDup_singleton]. intros h Hh ->%list_elem_of_singleton. by apply (proj1 Hfresh).
Qed.

Lemma Dial_ok hs addr i m m' : mgr_ok hs m → inproc_Dial addr m = Some (Ret i, m') → mgr_ok (hs ++ [Dialled i]) m'.
Proof.
  intros Hok. unfold inproc_Dial. destruct (im_db m !! addr) as [l|] eqn:Hdb; [|done].
  destruct (im_listeners m !! l) as [L|] eqn:HL; [|done]. destruct (last (ls_pipes L)) as [j|] eqn:Hlast; [|done]. intros [= -> <-].
  destruct Hok as [H1 H2 H3 H4 H5 H6 H7].
  apply last_Some in Hlast as [rest Hrest]. rewrite Hrest, length_app, Nat.add_sub, take_app_length.
  pose proof (H1 l L HL) as Hnd. rewrite Hrest in Hnd. apply NoDup_app in Hnd as (Hnd & Hni & _).
  assert (Hin : i ∈ ls_pipes L) by (rewrite Hrest; apply elem_of_app; right; by apply list_elem_of_singleton).
  destruct (H2 l L i HL Hin) as (Hdom & Hno & Hacc).
  assert (HLc : ls_closed L = false). { destruct (proj1 (H5 addr l) Hdb) as (L' & HL' & _ & ?). congruence. }
  assert (Hsub : ∀ l' L', <[l := mkListener (ls_addr L) rest (ls_closed L)]> (im_listeners m) !! l' = Some L' →
    ∃ L0, im_listeners m !! l' = Some L0 ∧ ls_addr L' = ls_addr L0 ∧ ls_closed L' = ls_closed L0 ∧ (∀ k, k ∈ ls_pipes L' → k ∈ ls_pipes L0 ∧ k ≠ i)).
  { intros l' L' [[<- <-]|[Hne HL']]%lookup_insert_Some.
    - exists L. split_and!; [done..|]. cbn. intros k Hk. split; [rewrite Hrest; apply elem_of_app; by left|].
      intros ->. apply (Hni i Hk). by apply list_elem_of_singleton.
    - exists L'. split_and!; [done..|]. intros k Hk. split; [done|]. intros ->. by apply Hne, (H3 l l' L L' i). }
  split; cbn.
  - intros l' L' [[<- <-]|[_ ?]]%lookup_insert_Some; [done|by eapply H1].
  - intros l' L' k HL' Hk. destruct (Hsub l' L' HL') as (L0 & HL0 & _ & Hc & Hp). destruct (Hp k Hk) as [Hk0 Hki].
    destruct (H2 l' L0 k HL0 Hk0) as (? & ? & ?). rewrite !elem_of_app, !list_elem_of_singleton, Hc. naive_solver.
  - intros l1 l2 L1 L2 k HL1 HL2 Hk1 Hk2. destruct (Hsub l1 L1 HL1) as (A & HA & _ & _ & HpA), (Hsub l2 L2 HL2) as (B & HB & _ & _ & HpB).
    eapply (H3 l1 l2 A B k); [done|done|by apply HpA|by apply HpB].
  - intros k. rewrite !elem_of_app, !list_elem_of_singleton. intros [[?|[=]]|[?|[= ->]]]; auto.
  - intros a l'. rewrite H5. split.
    + intros (L' & HL' & Ha & Hc). destruct (decide (l = l')) as [<-|Hne].
      * eexists. rewrite lookup_insert_eq. split; [reflexivity|]. cbn. by simplify_eq.
      * exists L'. by rewrite lookup_insert_ne.
    + intros (L' & HL' & Ha & Hc). destruct (Hsub l' L' HL') as (L0 & HL0 & Ha0 & Hc0 & _). exists L0. split_and!; congruence.
  - apply NoDup_app. split_and!; [done| |apply NoDup_singleton]. by intros h Hh ->%list_elem_of_singleton.
  - intros k. rewrite !elem_of_app, !list_elem_of_singleton. intros [?|[= ->]]; left; [by apply H7|by apply Hacc].
Qed.

Lemma mgr_step_ok hs m h m' : mgr_ok hs m → mgr_step m h m' → mgr_ok (hs ++ h) m'.
Proof.
  intros Hok Hstep. destruct Hstep as [addr r m m' E|l m|l i m m' E|l e m m' E|addr i m m' E|pipes m E]; rewrite ?app_nil_r.
  - by eapply Listen_ok.
  - by apply Close_ok.
  - exact (Accept_ok hs l (Ret i) m m' Hok E).
  - exact (Accept_ok hs l (Fail e) m m' Hok E).
  - by eapply Dial_ok.
  - destruct Hok as [H1 H2 H3 H4 H5 H6 H7]. split; cbn; rewrite ?E; done.
Qed.

(** Connections inside a process are one to one: in every sequence of
    listening, accepting, dialling and closing, no end of a pipe is handed out
    twice, and the other end of every connection a dialler got was returned by
    an [Accept]. An address has at most one open listener, the one that
    dialling reaches; it is free exactly when its listener is closed. *)
Theorem inproc_pairs hs m :
  mgr_run no_listeners hs m →
  NoDup hs ∧ (∀ i, Dialled i ∈ hs → Accepted i ∈ hs) ∧
  (∀ addr, (∃ l, (inproc_Listen addr m).1 = Ret l) ↔ ∀ l L, im_listeners m !! l = Some L → ls_addr L = addr → ls_closed L = true) ∧
  (∀ l l' L L', im_listeners m !! l = Some L → im_listeners m !! l' = Some L' → ls_addr L = ls_addr L' →
     ls_closed L = false → ls_closed L' = false → l = l').
Proof.
  intros Hrun. assert (Hok : mgr_ok hs m).
  { remember no_listeners as m0 eqn:E0. induction Hrun as [m|m hs m' h m'' _ IH Hstep]; [|eapply mgr_step_ok; [by apply IH|done]]. subst.
    split; cbn; try done; [intros i [Hi|Hi]; by apply elem_of_nil in Hi| |constructor|intros i Hi; by apply elem_of_nil in Hi].
    intros addr l. rewrite lookup_empty. split; [done|]. by intros (L & ? & _). }
  destruct Hok as [H1 H2 H3 H4 H5 H6 H7]. split_and!; [done|done| |].
  - intros addr. unfold inproc_Listen. destruct (im_db m !! addr) as [l0|] eqn:Hdb; cbn.
    + split; [by intros [l [=]]|]. intros Hall. apply H5 in Hdb as (L & HL & Ha & Hc). by rewrite (Hall l0 L HL Ha) in Hc.
    + split; [|intros _; by eexists]. intros _ l L HL Ha. destruct (ls_closed L) eqn:Hc; [done|].
      assert (im_db m !! addr = Some l) by (apply H5; by exists L). congruence.
  - intros l l' L L' HL HL' Ha Hc Hc'. assert (E1 : im_db m !! ls_addr L = Some l) by (apply H5; by exists L).
    assert (E2 : im_db m !! ls_addr L = Some l') by (apply H5; by exists L'). congruence.
Qed.

(** ** Witnesses *)


Lemma inproc_long_frame_witness :
  ∃ p1, write_chunks (msg_chunks false [replicate 300 x41]) newPipe = Some (Ret tt, p1) ∧
    (null_read_loop pipe_readfull (2 ^ 40) 1 [] false (flip_pipe p1)).1 = Panic "makeslice: len out of range".
Proof.
  destruct (inproc_long_frame (2 ^ 40) newPipe (replicate 300 x41)) as (p1 & E & Hr); [by repeat split|done|split; vm_compute; reflexivity|].
  exists p1. split; [exact E|]. rewrite Hr. by vm_compute.
Defined.

Lemma inproc_pairs_witness :
  let m1 := (inproc_Listen (gs "a") no_listeners).2 in
  let m2 := (Listener_Accept 0 m1).2 in
  ∃ m3, inproc_Dial (gs "a") m2 = Some (Ret 0%nat, m3) ∧ NoDup [Accepted 0; Dialled 0].
Proof.
  intros m1 m2. destruct (inproc_Dial (gs "a") m2) as [[o m3]|] eqn:E; [|by vm_compute in E].
  assert (Ho : o = Ret 0%nat) by (vm_compute in E; by simplify_eq). subst o. exists m3. split; [done|].
  destruct (inproc_pairs [Accepted 0; Dialled 0] m3) as [H _]; [|exact H].
  change [Accepted 0; Dialled 0] with ((([] ++ []) ++ [Accepted 0]) ++ [Dialled 0]).
  eapply mgr_snoc; [eapply mgr_snoc; [eapply mgr_snoc; [apply mgr_nil|]|]|].
  - apply (MsListen (gs "a") (inproc_Listen (gs "a") no_listeners).1). reflexivity.
  - apply (MsAccept 0). reflexivity.
  - by apply (MsDial (gs "a")).
Defined.
