(* ===== verification/Handshake.v ===== *)
(** * Handshake: opening a connection
    (src/protocol_conn.go, src/protocol_zmtp.go, src/security.go,
     src/security/null/null.go, src/security/plain/plain.go)

    [Open] exchanges greetings, runs the handshake of the security mechanism
    and checks that the socket types are compatible. The NULL mechanism
    exchanges READY commands; PLAIN goes through HELLO, WELCOME, INITIATE and
    READY. Each end is run against the bytes the other end writes. *)

From Stdlib Require Import Strings.Byte ZArith Lia.
From stdpp Require Import base strings numbers gmap list.
From S2P Require Import Prelude Zmtp Conn ConnFacts.

#[local] Open Scope Z_scope.
#[local] Set Default Goal Selector "!".

Section handshake.
Context {SS : Type} (sec : secops SS) (maxAlloc : Z).

(** [greeting.write] and [greeting.read] on the connection's [net.Conn]. *)
Definition greeting_write (g : greeting) : M (Conn SS) unit := on_rw (rw_write (greeting_marshal g)).

Definition greeting_read : M (Conn SS) greeting :=
  data ← wrapE "could not read ZMTP greeting" (on_rw (rw_readfull zmtpMsgLen));
  lift (let '(r, g) := greeting_check data greeting0 in _ ← r; Ret g).

(** [greet] does not use its [server] argument: the server flag it sends is 0. *)
Definition Conn_greet (server : bool) : M (Conn SS) unit :=
  let kind := sec_Type sec in
  if decide (20 < len kind) then mfail errSecMech
  else
    let send := mkGreeting sigHeader sigFooter defaultVersion (go_copy (replicate 20 x00) kind) x00 in
    wrapE "zmq4: could not send greeting" (checked (greeting_write send));;
    recv ← wrapE "zmq4: could not recv greeting" (checked greeting_read);
    let peerKind := asString (Mechanism recv) in
    if decide (peerKind ≠ kind) then mfail errBadSec
    else
      b ← wrapE "zmq4: could not get peer server flag" (lift (asBool (Server recv)));
      mupd (fun c => set_peer b (c_PeerMeta c) c).

(** A computation on the peer's metadata map. *)
Definition on_peerMeta {A} (m : M Metadata A) : M (Conn SS) A := fun c =>
  let '(r, md) := m (c_PeerMeta c) in (r, set_peer (c_PeerServer c) md c).

(** [init], with the mechanism's handshake as an argument. *)
Definition Conn_init (Handshake : bool → M (Conn SS) unit) : M (Conn SS) unit :=
  c ← mget;
  wrapE "zmq4: could not exchange greetings" (Conn_greet (c_Server c));;
  wrapE "zmq4: could not perform security handshake" (Handshake (c_Server c));;
  c ← mget;
  let peer : SocketType := default [] (c_PeerMeta c !! sysSockType) in
  ok ← lift (IsCompatible peer (c_typ c));
  if negb ok then mfail (Errorf "zmq4: peer not compatible") else mret tt.

(** The connection [Open] builds before the handshake. *)
Definition newConn (rw : netconn) (st : SS) (sockType : SocketType) (sockID : bytes) (server : bool)
    (onCloseErrorCB : option nat) : Conn SS :=
  mkConn sockType sockID rw st server
    (<[sysSockID := SocketIdentity_String sockID]> {[sysSockType := sockType]})
    false ∅ ∅ false onCloseErrorCB None.

(** [Open]; a nil read-writer or mechanism is [None]. *)
Definition Open (Handshake : bool → M (Conn SS) unit) (rw : option netconn) (st : option SS)
    (sockType : SocketType) (sockID : bytes) (server : bool) (onCloseErrorCB : option nat)
    : outcome (Conn SS) :=
  match rw, st with
  | None, _ => Fail (Errorf "zmq4: invalid nil read-writer")
  | Some _, None => Fail (Errorf "zmq4: invalid nil security")
  | Some rw, Some st =>
      let conn := newConn rw st sockType sockID server onCloseErrorCB in
      let '(r, conn) := wrapE "zmq4: could not initialize ZMTP connection" (Conn_init Handshake) conn in
      _ ← r; Ret conn
  end.
End handshake.

(** ** The NULL and PLAIN mechanisms *)

(** State of the PLAIN mechanism: the credentials, cleared by the client. *)
Record plainState : Type := mkPlain { pl_user : bytes; pl_pass : bytes }.

Definition plainSecurity : secops plainState :=
  mkSec plainState PlainSecurity mret mret None None None None.

#[export] Instance plainSecurity_transparent : Transparent plainSecurity.
Proof. split; reflexivity. Qed.

(** [validateHello] accepts every body: its checks are commented out. *)
Definition validateHello (body : bytes) : outcome unit := Ret tt.

Section mechanisms.
Context (toTitle ToLower : bytes → bytes).
Context (range : Metadata → list (bytes * bytes)) (room : bytes → nat).
(** Spare capacity behind a received command body. *)
Context (spare : bytes → bytes).
Context (maxAlloc : Z).

Definition null_Handshake (server : bool) : M (Conn unit) unit :=
  c ← mget;
  raw ← wrapE "zmq4: could not marshal metadata"
          (lift (Metadata_MarshalZMTP toTitle ToLower range room (c_Meta c)));
  wrapE "zmq4: could not send metadata to peer" (Conn_SendCmd nullSecurity CmdReady raw);;
  cmd ← wrapE "zmq4: could not recv metadata from peer" (Conn_RecvCmd nullSecurity maxAlloc);
  if negb (beq (Name cmd) CmdReady) then mfail ErrBadCmd
  else wrapE "zmq4: could not unmarshal peer metadata"
         (on_peerMeta (Metadata_UnmarshalZMTP toTitle (Body cmd) (spare (Body cmd)))).

(** [_ = conn.SendCmd(...)]: the error is dropped, a panic is not. *)
Definition ignore {S A} (m : M S A) : M S unit := r ← try m; mret tt.

Definition plain_marshal (reason : bytes) : M (Conn plainState) bytes :=
  c ← mget;
  match Metadata_MarshalZMTP toTitle ToLower range room (c_Meta c) with
  | Ret raw => mret raw
  | Panic p => mpanic p
  | Fail e =>
      ignore (Conn_SendCmd plainSecurity CmdError reason);;
      mfail (Wrap "security/plain: could not serialize metadata" e)
  end.

Definition plain_server : M (Conn plainState) unit :=
  let sec := plainSecurity in
  cmd ← wrapE "security/plain: could not receive HELLO from client" (Conn_RecvCmd sec maxAlloc);
  if negb (beq (Name cmd) CmdHello) then mfail (Errorf "security/plain: expected HELLO command")
  else
    match validateHello (Body cmd) with
    | Panic p => mpanic p
    | Fail e =>
        ignore (Conn_SendCmd sec CmdError (gs "invalid"));;
        mfail (Wrap "security/plain: could not authenticate client" e)
    | Ret _ =>
        wrapE "security/plain: could not send WELCOME to client" (Conn_SendCmd sec CmdWelcome []);;
        cmd ← wrapE "security/plain: could not receive INITIATE from client" (Conn_RecvCmd sec maxAlloc);
        wrapE "security/plain: could not unmarshal peer metadata"
          (on_peerMeta (Metadata_UnmarshalZMTP toTitle (Body cmd) (spare (Body cmd))));;
        raw ← plain_marshal (gs "invalid");
        wrapE "security/plain: could not send READY to client" (Conn_SendCmd sec CmdReady raw)
    end.

(** The HELLO body: lengths truncated to one octet, as the code writes them. *)
Definition plain_hello (user pass : bytes) : bytes :=
  [Z_byte (len user)] ++ user ++ [Z_byte (len pass)] ++ pass.

Definition plain_client : M (Conn plainState) unit :=
  let sec := plainSecurity in
  c ← mget;
  wrapE "security/plain: could not send HELLO to server"
    (Conn_SendCmd sec CmdHello (plain_hello (pl_user (c_sec c)) (pl_pass (c_sec c))));;
  cmd ← wrapE "security/plain: could not receive WELCOME from server" (Conn_RecvCmd sec maxAlloc);
  if negb (beq (Name cmd) CmdWelcome) then
    ignore (Conn_SendCmd sec CmdError (gs "invalid command"));;
    mfail (Errorf "security/plain: expected a WELCOME command from server")
  else
    raw ← plain_marshal (gs "internal error");
    wrapE "security/plain: could not send INITIATE to server" (Conn_SendCmd sec CmdInitiate raw);;
    cmd ← wrapE "security/plain: could not receive READY from server" (Conn_RecvCmd sec maxAlloc);
    if negb (beq (Name cmd) CmdReady) then
      ignore (Conn_SendCmd sec CmdError (gs "invalid command"));;
      mfail (Errorf "security/plain: expected a READY command from server")
    else
      wrapE "security/plain: could not unmarshal peer metadata"
        (on_peerMeta (Metadata_UnmarshalZMTP toTitle (Body cmd) (spare (Body cmd))));;
      mupd (set_sec (mkPlain [] [])).

Definition plain_Handshake (server : bool) : M (Conn plainState) unit :=
  if server then plain_server else plain_client.
End mechanisms.

(** ** Lemmas: greetings *)

(** The greeting a connection sends for a mechanism. *)
Definition greeting_wire (kind : bytes) : bytes :=
  greeting_marshal (mkGreeting sigHeader sigFooter defaultVersion (go_copy (replicate 20 x00) kind) x00).

(** Mechanism names that survive the NUL padding of the greeting. *)
Definition mech_name (kind : bytes) : Prop :=
  len kind <= 20 ∧ Forall (fun b => b ≠ x00) kind.

Lemma mech_copy kind :
  mech_name kind →
  length (go_copy (replicate 20 x00) kind) = 20%nat ∧
  asString (go_copy (replicate 20 x00) kind) = kind.
Proof.
  intros [Hl Hz]. unfold go_copy, len in *.
  rewrite length_app, length_take, length_drop, length_replicate. split; [lia|].
  rewrite take_ge by lia. rewrite drop_replicate. by apply asString_pad.
Qed.

Lemma on_rw_readfull {SS} n x r (c : Conn SS) :
  nc_open (c_rw c) = true → nc_in (c_rw c) = x ++ r → length x = n → n ≠ 0%nat →
  on_rw (rw_readfull n) c = (Ret x, reading r c).
Proof.
  intros Ho Hin <- Hn. unfold on_rw, rw_readfull. rewrite decide_False, Ho, Hin by done. cbn [negb].
  rewrite decide_True by (rewrite length_app; lia).
  rewrite take_app_length, drop_app_length. unfold reading. by rewrite Ho.
Qed.

Lemma greeting_check_own kind :
  mech_name kind →
  greeting_check (greeting_wire kind) greeting0 =
    (Ret tt, mkGreeting sigHeader sigFooter defaultVersion (go_copy (replicate 20 x00) kind) x00).
Proof.
  intros Hk. unfold greeting_check, greeting_wire.
  mstep (apply greeting_unmarshal_marshal; [apply (mech_copy kind Hk)|done]). done.
Qed.

Lemma greet_wire {SS} (sec : secops SS) server (c : Conn SS) r :
  mech_name (sec_Type sec) → writable c → nc_in (c_rw c) = greeting_wire (sec_Type sec) ++ r →
  Conn_greet sec server c =
    (Ret tt, set_peer false (c_PeerMeta c) (reading r (wrote (greeting_wire (sec_Type sec)) c))).
Proof.
  intros Hk Hw Hin. destruct (mech_copy _ Hk) as [Hlen Has]. unfold Conn_greet.
  rewrite decide_False by (destruct Hk; lia).
  mstep (apply wrapE_ret, checked_write, Hw).
  mstep (apply wrapE_ret, checked_ret; unfold greeting_read;
    mstep (apply wrapE_ret, (on_rw_readfull zmtpMsgLen (greeting_wire (sec_Type sec)) r);
      [apply Hw|exact Hin|by apply length_greeting_marshal|done]);
    apply lift_ret; rewrite greeting_check_own by done; reflexivity).
  cbn [Mechanism Server]. rewrite Has, decide_False by (intros H; done).
  mstep reflexivity. done.
Qed.

(** [Open] on a fresh network connection whose peer sends [inp]. *)
Definition fresh_net (inp : bytes) (e : error) : netconn := mkNet inp e [] None (NetErr false) true.

(** [Open] after the greetings: the handshake, then the compatibility check. *)
Lemma Open_handshake {SS} (sec : secops SS) Handshake st typ id server cb inp r e c' :
  mech_name (sec_Type sec) → inp = greeting_wire (sec_Type sec) ++ r →
  Handshake server (set_peer false ∅ (reading r (wrote (greeting_wire (sec_Type sec))
     (newConn (fresh_net inp e) st typ id server cb)))) = (Ret tt, c') →
  c_typ c' = typ →
  Open sec Handshake (Some (fresh_net inp e)) (Some st) typ id server cb =
    match IsCompatible (default [] (c_PeerMeta c' !! sysSockType)) typ with
    | Ret true => Ret c'
    | Ret false => Fail (Wrap "zmq4: could not initialize ZMTP connection" (Errorf "zmq4: peer not compatible"))
    | Fail e => Fail (Wrap "zmq4: could not initialize ZMTP connection" e)
    | Panic p => Panic p
    end.
Proof.
  intros Hk Hinp Hh Ht. unfold Open, wrapE at 1, Conn_init.
  set (c0 := newConn (fresh_net inp e) st typ id server cb) in *.
  rewrite (M_bind_ret mget _ _ c0 c0) by done.
  rewrite (M_bind_ret _ _ _ tt _ (wrapE_ret _ _ _ _ _
     (greet_wire sec server c0 r Hk (conj eq_refl eq_refl) Hinp))).
  rewrite (M_bind_ret _ _ _ tt c') by (apply wrapE_ret; exact Hh).
  rewrite (M_bind_ret _ _ _ c' c') by done. rewrite Ht.
  unfold lift, mbind, M_bind. by destruct (IsCompatible _ typ) as [[]| |].
Qed.

(** ** Lemmas: the two handshakes on scripted input *)

Section exchange.
Context (toTitle ToLower : bytes → bytes).
Context (range : Metadata → list (bytes * bytes)) (room : bytes → nat).
Context (spare : bytes → bytes) (maxAlloc : Z).

(** [raw] is what a peer with metadata [md] sends in READY or INITIATE. *)
Definition announces (raw : bytes) (md : Metadata) : Prop :=
  len raw <= 539 ∧ ∀ sp, Metadata_UnmarshalZMTP toTitle raw sp ∅ = (Ret tt, md).

Lemma on_peerMeta_announced {SS} raw md (c : Conn SS) :
  announces raw md → c_PeerMeta c = ∅ →
  on_peerMeta (Metadata_UnmarshalZMTP toTitle raw (spare raw)) c =
    (Ret tt, set_peer (c_PeerServer c) md c).
Proof. intros [_ H] Hp. unfold on_peerMeta. by rewrite Hp, H. Qed.

Lemma null_Handshake_wire server (c : Conn unit) raw raw' md' r :
  1024 <= maxAlloc <= maxInt64 → writable c → c_closed c = false → c_PeerMeta c = ∅ →
  Metadata_MarshalZMTP toTitle ToLower range room (c_Meta c) = Ret raw → announces raw' md' →
  nc_in (c_rw c) = msg_wire true [cmd_body CmdReady raw'] ++ r →
  null_Handshake toTitle ToLower range room spare maxAlloc server c =
    (Ret tt, set_peer (c_PeerServer c) md' (reading r (wrote (msg_wire true [cmd_body CmdReady raw]) c))).
Proof.
  intros Ha Hw Hc Hp Hm Hann Hin. unfold null_Handshake. mstep reflexivity.
  mstep (apply wrapE_ret, lift_ret, Hm).
  mstep (by apply wrapE_ret, SendCmd_wire).
  mstep (apply wrapE_ret, (RecvCmd_wire nullSecurity maxAlloc CmdReady raw' _ r);
         [done|destruct Hann; change (len CmdReady) with 5; lia|lia|apply Hw|done|done]).
  cbn [Name Body]. change (beq CmdReady CmdReady) with true. cbn [negb].
  apply wrapE_ret. exact (on_peerMeta_announced raw' md' (reading r (wrote _ c)) Hann Hp).
Qed.

Lemma plain_client_wire (c : Conn plainState) raw raw' md' r :
  1024 <= maxAlloc <= maxInt64 → writable c → c_closed c = false → c_PeerMeta c = ∅ →
  Metadata_MarshalZMTP toTitle ToLower range room (c_Meta c) = Ret raw → announces raw' md' →
  nc_in (c_rw c) = msg_wire true [cmd_body CmdWelcome []] ++ msg_wire true [cmd_body CmdReady raw'] ++ r →
  plain_client toTitle ToLower range room spare maxAlloc c =
    (Ret tt, set_sec (mkPlain [] []) (set_peer (c_PeerServer c) md' (reading r (wrote
       (msg_wire true [cmd_body CmdHello (plain_hello (pl_user (c_sec c)) (pl_pass (c_sec c)))] ++
        msg_wire true [cmd_body CmdInitiate raw]) c)))).
Proof.
  intros Ha Hw Hc Hp Hm Hann Hin. unfold plain_client. mstep reflexivity.
  mstep (by apply wrapE_ret, SendCmd_wire).
  mstep (apply wrapE_ret, (RecvCmd_wire plainSecurity maxAlloc CmdWelcome [] _
           (msg_wire true [cmd_body CmdReady raw'] ++ r));
         [done|vm_compute len; lia|lia|apply Hw|done|done]).
  cbn [Name Body]. change (beq CmdWelcome CmdWelcome) with true. cbn [negb].
  mstep (unfold plain_marshal; mstep reflexivity; change (c_Meta _) with (c_Meta c); rewrite Hm; reflexivity).
  mstep (by apply wrapE_ret, SendCmd_wire).
  mstep (apply wrapE_ret, (RecvCmd_wire plainSecurity maxAlloc CmdReady raw' _ r);
         [done|destruct Hann; change (len CmdReady) with 5; lia|lia|apply Hw|done|done]).
  cbn [Name Body]. change (beq CmdReady CmdReady) with true. cbn [negb].
  mstep (apply wrapE_ret; refine (on_peerMeta_announced raw' md' _ Hann _); exact Hp).
  rewrite <- (wrote_wrote (msg_wire true [cmd_body CmdHello _])). done.
Qed.

(** The server takes any HELLO body. *)
Lemma plain_server_wire (c : Conn plainState) hello raw raw' md' r :
  1024 <= maxAlloc <= maxInt64 → writable c → c_closed c = false → c_PeerMeta c = ∅ →
  6 + len hello <= maxAlloc →
  Metadata_MarshalZMTP toTitle ToLower range room (c_Meta c) = Ret raw → announces raw' md' →
  nc_in (c_rw c) = msg_wire true [cmd_body CmdHello hello] ++ msg_wire true [cmd_body CmdInitiate raw'] ++ r →
  plain_server toTitle ToLower range room spare maxAlloc c =
    (Ret tt, set_peer (c_PeerServer c) md' (reading r (wrote
       (msg_wire true [cmd_body CmdWelcome []] ++ msg_wire true [cmd_body CmdReady raw]) c))).
Proof.
  intros Ha Hw Hc Hp Hh Hm Hann Hin. unfold plain_server.
  mstep (apply wrapE_ret, (RecvCmd_wire plainSecurity maxAlloc CmdHello hello _
           (msg_wire true [cmd_body CmdInitiate raw'] ++ r));
         [done|change (len CmdHello) with 5; lia|lia|apply Hw|done|done]).
  cbn [Name Body]. change (beq CmdHello CmdHello) with true. cbn [negb]. unfold validateHello.
  mstep (by apply wrapE_ret, SendCmd_wire).
  mstep (apply wrapE_ret, (RecvCmd_wire plainSecurity maxAlloc CmdInitiate raw' _ r);
         [done|destruct Hann; change (len CmdInitiate) with 8; lia|lia|apply Hw|done|done]).
  mstep (apply wrapE_ret; refine (on_peerMeta_announced raw' md' _ Hann _); exact Hp).
  mstep (unfold plain_marshal; mstep reflexivity; change (c_Meta _) with (c_Meta c); rewrite Hm; reflexivity).
  rewrite <- (wrote_wrote (msg_wire true [cmd_body CmdWelcome []])).
  apply wrapE_ret. by rewrite SendCmd_wire.
Qed.
End exchange.

(** ** Properties *)

(** How one end sees its platform: the order in which [range] visits a map,
    the free space of [bytes.Buffer], the capacity behind received bodies. *)
Record platform : Type := mkPlatform {
  p_range : Metadata → list (bytes * bytes);
  p_room : bytes → nat;
  p_spare : bytes → bytes }.

Definition platform_ok (p : platform) : Prop :=
  range_order (p_range p) ∧ ∀ buf, (512 <= p_room p buf)%nat.

Definition go_platform : platform := mkPlatform map_to_list (fun _ => 512%nat) (fun _ => []).

Lemma go_platform_ok : platform_ok go_platform.
Proof. split; [by intros m|done]. Qed.

(** [Open] with the NULL and with the PLAIN mechanism. *)
Definition null_Open (toTitle ToLower : bytes → bytes) (maxAlloc : Z) (p : platform) :=
  Open nullSecurity (null_Handshake toTitle ToLower (p_range p) (p_room p) (p_spare p) maxAlloc).
Definition plain_Open (toTitle ToLower : bytes → bytes) (maxAlloc : Z) (p : platform) :=
  Open plainSecurity (plain_Handshake toTitle ToLower (p_range p) (p_room p) (p_spare p) maxAlloc).

(** A connection that [Open] returns to an end which wrote [out] and whose
    peer has type [typ] and identity [id]. *)
Definition opened {SS} (out typ id rest : bytes) (o : outcome (Conn SS)) : Prop :=
  ∃ c, o = Ret c ∧ nc_out (c_rw c) = out ∧ nc_in (c_rw c) = rest ∧
    c_PeerMeta c = sys_metadata typ (SocketIdentity_String id) ∧
    c_closed c = false ∧ c_topics c = ∅ ∧ c_PeerServer c = false.

Definition not_compatible {SS} (o : outcome (Conn SS)) : Prop :=
  o = Fail (Wrap "zmq4: could not initialize ZMTP connection" (Errorf "zmq4: peer not compatible")).

(** The entry of the table, for known types. *)
Definition compatible (typ typ' : SocketType) : bool :=
  match IsCompatible typ typ' with Ret b => b | _ => false end.

Lemma compatible_sym typ typ' :
  typ ∈ socket_types → typ' ∈ socket_types → compatible typ typ' = compatible typ' typ.
Proof.
  intros H H'. unfold compatible. by destruct (proj1 (compat_table typ typ') H H') as (r & -> & ->).
Qed.

Lemma len_SocketIdentity id : len (SocketIdentity_String id) <= 255.
Proof. unfold SocketIdentity_String, len. case_decide; rewrite length_take; lia. Qed.

Lemma socket_type_short typ : typ ∈ socket_types → len typ <= 255.
Proof.
  unfold socket_types. rewrite list_elem_of_In. intros H.
  repeat (destruct H as [<-|H]; [vm_compute; congruence|]). destruct H.
Qed.

(** What a platform sends in READY or INITIATE announces its metadata. *)
Lemma platform_announces toTitle ToLower p typ id :
  case_maps toTitle ToLower → platform_ok p → typ ∈ socket_types →
  ∃ raw, Metadata_MarshalZMTP toTitle ToLower (p_range p) (p_room p)
           (sys_metadata typ (SocketIdentity_String id)) = Ret raw ∧
         announces toTitle raw (sys_metadata typ (SocketIdentity_String id)).
Proof.
  intros Hcm [Hr Hroom] Ht.
  destruct (sys_metadata_wire toTitle ToLower (p_range p) (p_room p) typ (SocketIdentity_String id) []
    Hcm Hr Hroom (socket_type_short _ Ht) (len_SocketIdentity id)) as (raw & Hm & _ & Hl).
  exists raw. split; [done|]. split; [done|]. intros sp.
  destruct (sys_metadata_wire toTitle ToLower (p_range p) (p_room p) typ (SocketIdentity_String id) sp
    Hcm Hr Hroom (socket_type_short _ Ht) (len_SocketIdentity id)) as (raw' & Hm' & Hu & _). congruence.
Qed.

(** The verdict of [Open] from the compatibility table. *)
Lemma Open_verdict {SS} (c : Conn SS) out typ typ' id' rest :
  nc_out (c_rw c) = out → nc_in (c_rw c) = rest → c_closed c = false → c_topics c = ∅ →
  c_PeerServer c = false → c_PeerMeta c = sys_metadata typ' (SocketIdentity_String id') →
  typ ∈ socket_types → typ' ∈ socket_types →
  let o := match IsCompatible (default [] (c_PeerMeta c !! sysSockType)) typ with
    | Ret true => Ret c
    | Ret false => Fail (Wrap "zmq4: could not initialize ZMTP connection" (Errorf "zmq4: peer not compatible"))
    | Fail e => Fail (Wrap "zmq4: could not initialize ZMTP connection" e)
    | Panic p => Panic p
    end in
  if compatible typ typ' then opened out typ' id' rest o else not_compatible o.
Proof.
  intros Ho Hi Hc Ht Hs Hp H1 H2. rewrite Hp. unfold sys_metadata.
  rewrite lookup_insert_ne, lookup_singleton_eq by done. cbn [default from_option id].
  unfold compatible. destruct (proj1 (compat_table typ typ') H1 H2) as (r & -> & ->). destruct r; [|done].
  exists c. done.
Qed.

Section one_end.
Context (toTitle ToLower : bytes → bytes) (maxAlloc : Z) (p : platform).
Context (typ typ' : SocketType) (id id' raw raw' rest : bytes) (cb : option nat) (e : error).
Context (Ha : 1024 <= maxAlloc <= maxInt64) (Ht : typ ∈ socket_types) (Ht' : typ' ∈ socket_types).
Context (Hm : Metadata_MarshalZMTP toTitle ToLower (p_range p) (p_room p)
           (sys_metadata typ (SocketIdentity_String id)) = Ret raw).
Context (Hann : announces toTitle raw' (sys_metadata typ' (SocketIdentity_String id'))).

Definition verdict {SS} (out : bytes) (o : outcome (Conn SS)) : Prop :=
  if compatible typ typ' then opened out typ' id' rest o else not_compatible o.

Lemma Open_peer {SS} (sec : secops SS) Handshake server st inp q q' c' :
  mech_name (sec_Type sec) → inp = greeting_wire (sec_Type sec) ++ q' ++ rest →
  Handshake server (set_peer false ∅ (reading (q' ++ rest) (wrote (greeting_wire (sec_Type sec))
     (newConn (fresh_net inp e) st typ id server cb)))) = (Ret tt, c') →
  c_rw c' = mkNet rest e (greeting_wire (sec_Type sec) ++ q) None (NetErr false) true →
  c_typ c' = typ → c_PeerMeta c' = sys_metadata typ' (SocketIdentity_String id') →
  c_closed c' = false → c_topics c' = ∅ → c_PeerServer c' = false →
  verdict (greeting_wire (sec_Type sec) ++ q)
    (Open sec Handshake (Some (fresh_net inp e)) (Some st) typ id server cb).
Proof.
  intros Hk Hinp Hh Hrw Htc Hp Hc Htop Hs. rewrite (Open_handshake sec _ _ _ _ _ _ _ _ _ _ Hk Hinp Hh Htc).
  by apply Open_verdict; rewrite ?Hrw.
Qed.

Lemma null_Open_peer (server : bool) :
  verdict (greeting_wire NullSecurity ++ msg_wire true [cmd_body CmdReady raw])
    (null_Open toTitle ToLower maxAlloc p
      (Some (fresh_net ((greeting_wire NullSecurity ++ msg_wire true [cmd_body CmdReady raw']) ++ rest) e))
      (Some tt) typ id server cb).
Proof.
  eapply (Open_peer nullSecurity _ server tt _ _ (msg_wire true [cmd_body CmdReady raw'])).
  - by split; [|repeat constructor].
  - by rewrite <- app_assoc.
  - by apply (null_Handshake_wire toTitle ToLower _ _ _ maxAlloc server _ raw raw'
      (sys_metadata typ' (SocketIdentity_String id')) rest).
  - done.
  - done.
  - done.
  - done.
  - done.
  - done.
Qed.

Definition plain_client_script (st : plainState) : bytes :=
  msg_wire true [cmd_body CmdHello (plain_hello (pl_user st) (pl_pass st))] ++
  msg_wire true [cmd_body CmdInitiate raw].

Lemma plain_client_peer st :
  verdict (greeting_wire PlainSecurity ++ plain_client_script st)
    (plain_Open toTitle ToLower maxAlloc p
      (Some (fresh_net ((greeting_wire PlainSecurity ++ msg_wire true [cmd_body CmdWelcome []] ++
                         msg_wire true [cmd_body CmdReady raw']) ++ rest) e))
      (Some st) typ id false cb).
Proof.
  eapply (Open_peer plainSecurity _ false st _ _
    (msg_wire true [cmd_body CmdWelcome []] ++ msg_wire true [cmd_body CmdReady raw'])).
  - by split; [|repeat constructor].
  - by rewrite <- app_assoc.
  - apply (plain_client_wire toTitle ToLower _ _ _ maxAlloc _ raw raw'
      (sys_metadata typ' (SocketIdentity_String id')) rest); try done; by rewrite <- app_assoc.
  - done.
  - done.
  - done.
  - done.
  - done.
  - done.
Qed.

Lemma plain_server_peer st hello :
  6 + len hello <= maxAlloc →
  verdict (greeting_wire PlainSecurity ++ msg_wire true [cmd_body CmdWelcome []] ++
           msg_wire true [cmd_body CmdReady raw])
    (plain_Open toTitle ToLower maxAlloc p
      (Some (fresh_net ((greeting_wire PlainSecurity ++ msg_wire true [cmd_body CmdHello hello] ++
                         msg_wire true [cmd_body CmdInitiate raw']) ++ rest) e))
      (Some st) typ id true cb).
Proof.
  intros Hh. eapply (Open_peer plainSecurity _ true st _ _
    (msg_wire true [cmd_body CmdHello hello] ++ msg_wire true [cmd_body CmdInitiate raw'])).
  - by split; [|repeat constructor].
  - by rewrite <- app_assoc.
  - apply (plain_server_wire toTitle ToLower _ _ _ maxAlloc _ hello raw raw'
      (sys_metadata typ' (SocketIdentity_String id')) rest); try done; by rewrite <- app_assoc.
  - done.
  - done.
  - done.
  - done.
  - done.
  - done.
Qed.
End one_end.



(** The PLAIN handshake: a client and a server that each receive the
    bytes the other writes agree as with NULL, for every user name and
    password whatever their length: the server has no credential to compare
    them with and [validateHello] accepts all of them. *)
Theorem plain_handshake_agreement (toTitle ToLower : bytes → bytes) (maxAlloc : Z)
    (p p' : platform) (typ typ' : SocketType) (id id' : bytes) (st st' : plainState)
    (cb cb' : option nat) (rest rest' : bytes) (e e' : error) :
  case_maps toTitle ToLower → platform_ok p → platform_ok p' →
  typ ∈ socket_types → typ' ∈ socket_types → 1024 <= maxAlloc <= maxInt64 →
  8 + len (pl_user st) + len (pl_pass st) <= maxAlloc →
  ∃ out out' : bytes,
    let a := plain_Open toTitle ToLower maxAlloc p
               (Some (fresh_net (out' ++ rest) e)) (Some st) typ id false cb in
    let b := plain_Open toTitle ToLower maxAlloc p'
               (Some (fresh_net (out ++ rest') e')) (Some st') typ' id' true cb' in
    if compatible typ typ'
    then opened out typ' id' rest a ∧ opened out' typ id rest' b
    else not_compatible a ∧ not_compatible b.
Proof.
  intros Hcm Hp Hp' Ht Ht' Ha Hlen.
  destruct (platform_announces toTitle ToLower p typ id Hcm Hp Ht) as (raw & Hm & Hann).
  destruct (platform_announces toTitle ToLower p' typ' id' Hcm Hp' Ht') as (raw' & Hm' & Hann').
  exists (greeting_wire PlainSecurity ++ plain_client_script raw st),
         (greeting_wire PlainSecurity ++ msg_wire true [cmd_body CmdWelcome []] ++
          msg_wire true [cmd_body CmdReady raw']).
  assert (Hh : 6 + len (plain_hello (pl_user st) (pl_pass st)) <= maxAlloc).
  { unfold plain_hello. rewrite !len_app. change (len [Z_byte _]) with 1. lia. }
  pose proof (plain_client_peer toTitle ToLower maxAlloc p typ typ' id id' raw raw' rest cb e Ha Ht Ht' Hm Hann' st) as V1.
  pose proof (plain_server_peer toTitle ToLower maxAlloc p' typ' typ id' id raw' raw rest' cb' e' Ha Ht' Ht Hm' Hann st' _ Hh) as V2.
  unfold verdict in *. rewrite (compatible_sym typ' typ) in V2 by done. by destruct (compatible typ typ').
Qed.

Lemma plain_handshake_agreement_witness :
  ∃ out out' : bytes,
    opened out Pub [] [] (plain_Open ascii_title ascii_lower 4096 go_platform
      (Some (fresh_net (out' ++ []) EOF)) (Some (mkPlain (gs "user") (gs "wrong"))) Sub [] false None) ∧
    opened out' Sub [] [] (plain_Open ascii_title ascii_lower 4096 go_platform
      (Some (fresh_net (out ++ []) EOF)) (Some (mkPlain [] [])) Pub [] true None).
Proof.
  refine (plain_handshake_agreement ascii_title ascii_lower 4096 go_platform go_platform Sub Pub [] []
    (mkPlain (gs "user") (gs "wrong")) (mkPlain [] []) None None [] [] EOF EOF
    ascii_case_maps go_platform_ok go_platform_ok _ _ _ _);
    [vm_compute; repeat constructor..|unfold maxInt64; lia|vm_compute; congruence].
Defined.

(** Mechanism mismatch and alien peers: a peer that greets with another
    mechanism is refused before any command is exchanged; a peer that
    completes the NULL handshake without a known Socket-Type property makes
    [Open] panic instead of failing. *)
Theorem open_rejects (toTitle ToLower : bytes → bytes) (maxAlloc : Z) (p : platform)
    (typ : SocketType) (id kind rest raw : bytes) (md : Metadata) (server : bool) (cb : option nat) (e : error) :
  case_maps toTitle ToLower → platform_ok p → typ ∈ socket_types → 1024 <= maxAlloc <= maxInt64 →
  (mech_name kind → kind ≠ NullSecurity →
     null_Open toTitle ToLower maxAlloc p (Some (fresh_net (greeting_wire kind ++ rest) e)) (Some tt) typ id server cb
     = Fail (Wrap "zmq4: could not initialize ZMTP connection"
              (Wrap "zmq4: could not exchange greetings" errBadSec))) ∧
  (announces toTitle raw md → default [] (md !! sysSockType) ∉ socket_types →
     null_Open toTitle ToLower maxAlloc p
       (Some (fresh_net (greeting_wire NullSecurity ++ msg_wire true [cmd_body CmdReady raw] ++ rest) e))
       (Some tt) typ id server cb = Panic "unknown socket-type").
Proof.
  intros Hcm Hp Ht Ha. split.
  - intros Hk Hne. unfold null_Open, Open, wrapE at 1, Conn_init.
    set (c0 := newConn _ _ _ _ _ _). rewrite (M_bind_ret mget _ _ c0 c0) by done.
    destruct (mech_copy _ Hk) as [Hlen Has].
    erewrite M_bind_fail; [reflexivity|]. unfold wrapE, Conn_greet. cbn [sec_Type nullSecurity].
    rewrite decide_False by (vm_compute; congruence).
    rewrite (M_bind_ret _ _ _ tt (wrote (greeting_wire NullSecurity) c0)) by (by apply (wrapE_ret _ _ _ _ _), checked_write).
    erewrite M_bind_ret; [|apply wrapE_ret, checked_ret; unfold greeting_read;
      mstep (apply wrapE_ret, (on_rw_readfull zmtpMsgLen (greeting_wire kind) rest);
        [reflexivity|reflexivity|by apply length_greeting_marshal|done]);
      apply lift_ret; rewrite greeting_check_own by done; reflexivity].
    cbn [Mechanism Server]. by rewrite Has, decide_True.
  - intros Hann Hmd. destruct (platform_announces toTitle ToLower p typ id Hcm Hp Ht) as (raw0 & Hm & _).
    unfold null_Open.
    erewrite (Open_handshake nullSecurity _ tt typ id server cb _ (msg_wire true [cmd_body CmdReady raw] ++ rest));
      [|by split; [|repeat constructor]|done
       |by apply (null_Handshake_wire toTitle ToLower _ _ _ maxAlloc server _ raw0 raw md rest)|done].
    cbn [c_PeerMeta set_peer]. by rewrite (proj2 (compat_table _ typ) Hmd).
Qed.

Lemma open_rejects_witness :
  null_Open ascii_title ascii_lower 4096 go_platform
    (Some (fresh_net (greeting_wire NullSecurity ++ msg_wire true [cmd_body CmdReady []] ++ []) EOF))
    (Some tt) Rep [] true None = Panic "unknown socket-type".
Proof.
  refine (proj2 (open_rejects ascii_title ascii_lower 4096 go_platform Rep [] [] [] [] ∅ true None EOF
    ascii_case_maps go_platform_ok _ _) _ _).
  - vm_compute. repeat constructor.
  - unfold maxInt64. lia.
  - split; [vm_compute; congruence|done].
  - apply (bool_decide_unpack _). vm_compute. exact I.
Defined.
