(* ===== verification/Curve.v ===== *)
(** * Curve: the CURVE security mechanism
    (src/security/curve/curve.go, src/security/curve/handshake.go)

    Keys and their text forms, the state of a [Security], the encryption of
    messages, and the four handshake commands of each role. The NaCl box of
    golang.org/x/crypto is a parameter ([nacl]), as are the key pair that
    [box.GenerateKey] returns and the readings of the clock. The handshake is
    written over the [SendCmd] and [RecvCmd] of a connection, so that it can be
    run over the connection of Conn.v and over another framing. Trace output is
    not modelled. *)

From Stdlib Require Import Strings.Byte ZArith Lia.
From stdpp Require Import base strings numbers gmap list.
From S2P Require Import Prelude Z85 Zmtp Conn Handshake.

#[local] Open Scope Z_scope.
#[local] Set Default Goal Selector "!".

(** ** NaCl boxes *)

(** [box_Seal message nonce peersPublicKey privateKey] is what [box.Seal]
    appends to a nil slice; [box_Open] is [None] when [box.Open] is not ok;
    [box_public] is the public key of a secret key. *)
Record nacl : Type := mkNacl {
  box_Seal : bytes → bytes → bytes → bytes → bytes;
  box_Open : bytes → bytes → bytes → bytes → option bytes;
  box_public : bytes → bytes }.

(** The documented behaviour of boxes: a box is the message and 16 bytes; the
    box that one key pair seals for another is opened by the other, and the
    key both compute is the same, so either can seal it; a box that opens is
    the box of what it opens to. *)
Class NaclLaws (N : nacl) : Prop := {
  seal_length m n p s : len (box_Seal N m n p s) = len m + 16;
  public_length s : len s = 32 → len (box_public N s) = 32;
  open_seal m n s s' : len s = 32 → len s' = 32 →
    box_Open N (box_Seal N m n (box_public N s') s) n (box_public N s) s' = Some m;
  seal_sym m n s s' : len s = 32 → len s' = 32 →
    box_Seal N m n (box_public N s') s = box_Seal N m n (box_public N s) s';
  open_inv b n p s m : box_Open N b n p s = Some m → b = box_Seal N m n p s }.

(** ** Constants and errors *)

Definition KeySize : Z := 32.
Definition NonceSize : Z := 24.
Definition BoxOverhead : Z := 16.
Definition HelloBodySize : Z := 200.
Definition WelcomeBodySize : Z := 168.
Definition InitiateBodySize : Z := 256.
Definition ReadyBodySize : Z := 56.

Definition ErrDecryptionFailed : error := Sentinel "curve: decryption failed".
Definition ErrInvalidCommand : error := Sentinel "curve: invalid command format".
Definition ErrInvalidCommandSize : error := Sentinel "curve: invalid command size".

Definition ValidateCommandSize (command : bytes) (bodySize : Z) : outcome unit :=
  if beq command (gs "HELLO") then
    if decide (bodySize ≠ HelloBodySize)
    then Fail (Wrap "HELLO command body must be exactly" ErrInvalidCommandSize) else Ret tt
  else if beq command (gs "WELCOME") then
    if decide (bodySize ≠ WelcomeBodySize)
    then Fail (Wrap "WELCOME command body must be exactly" ErrInvalidCommandSize) else Ret tt
  else if beq command (gs "INITIATE") then
    if decide (bodySize < InitiateBodySize)
    then Fail (Wrap "INITIATE command body must be at least" ErrInvalidCommandSize) else Ret tt
  else if beq command (gs "READY") then
    if decide (bodySize < ReadyBodySize)
    then Fail (Wrap "READY command body must be at least" ErrInvalidCommandSize) else Ret tt
  else if beq command (gs "MESSAGE") then
    if decide (bodySize < 1 + 8 + BoxOverhead)
    then Fail (Wrap "MESSAGE command body must be at least" ErrInvalidCommandSize) else Ret tt
  else Fail (Errorf "curve: unknown command").

(** ** Key pairs *)

(** A fixed-size Go array [[n]byte] after [copy(array[:], src)]. *)
Definition fixed (n : nat) (src : bytes) : bytes := go_copy (replicate n x00) src.

Record KeyPair : Type := mkKeyPair { kp_Public : bytes; kp_Secret : bytes }.

(** [new(KeyPair)]: all zeros. *)
Definition KeyPair0 : KeyPair := mkKeyPair (replicate 32 x00) (replicate 32 x00).

(** [GenerateKeyPair], on the result of [box.GenerateKey(rand.Reader)]. *)
Definition GenerateKeyPair (gen : outcome KeyPair) : outcome KeyPair :=
  match gen with
  | Ret kp => Ret kp
  | Fail e => Fail (Wrap "curve: failed to generate key pair" e)
  | Panic p => Panic p
  end.

Definition NewKeyPair (public secret : bytes) : KeyPair := mkKeyPair public secret.

Definition PublicKeyZ85 (kp : KeyPair) : outcome bytes := EncodeToString (kp_Public kp).
Definition SecretKeyZ85 (kp : KeyPair) : outcome bytes := EncodeToString (kp_Secret kp).
Definition PublicKeyHex (kp : KeyPair) : bytes := fmt_x (kp_Public kp).
Definition SecretKeyHex (kp : KeyPair) : bytes := fmt_x (kp_Secret kp).

(** The error path of a decoder. *)
Definition wrap_outcome {A} (fmt : string) (o : outcome A) : outcome A :=
  match o with Fail e => Fail (Wrap fmt e) | _ => o end.

Definition NewKeyPairFromZ85 (publicZ85 secretZ85 : bytes) : outcome KeyPair :=
  publicBytes ← wrap_outcome "curve: invalid public key Z85 encoding" (DecodeString publicZ85);
  if decide (len publicBytes ≠ KeySize) then Fail (Errorf "curve: public key must be 32 bytes")
  else
    secretBytes ← wrap_outcome "curve: invalid secret key Z85 encoding" (DecodeString secretZ85);
    if decide (len secretBytes ≠ KeySize) then Fail (Errorf "curve: secret key must be 32 bytes")
    else Ret (mkKeyPair (fixed 32 publicBytes) (fixed 32 secretBytes)).

Definition NewKeyPairFromHex (publicHex secretHex : bytes) : outcome KeyPair :=
  publicBytes ← wrap_outcome "curve: invalid public key hex encoding" (hex_DecodeString publicHex);
  if decide (len publicBytes ≠ KeySize) then Fail (Errorf "curve: public key must be 32 bytes")
  else
    secretBytes ← wrap_outcome "curve: invalid secret key hex encoding" (hex_DecodeString secretHex);
    if decide (len secretBytes ≠ KeySize) then Fail (Errorf "curve: secret key must be 32 bytes")
    else Ret (mkKeyPair (fixed 32 publicBytes) (fixed 32 secretBytes)).

Definition ValidateZ85Key (keyZ85 : bytes) : outcome unit :=
  wrap_outcome "curve: invalid Z85 key format" (ValidateString keyZ85);;
  keyBytes ← wrap_outcome "curve: Z85 key decode error" (DecodeString keyZ85);
  if decide (len keyBytes ≠ KeySize) then Fail (Errorf "curve: Z85 key must decode to 32 bytes")
  else Ret tt.

(** ** The state of the mechanism *)

Inductive HandshakeState : Type :=
| HandshakeInit | HandshakeHello | HandshakeWelcome | HandshakeInitiate
| HandshakeReady | HandshakeComplete.

#[global] Instance HandshakeState_eq_dec : EqDecision HandshakeState.
Proof. solve_decision. Defined.

Definition HandshakeState_int (h : HandshakeState) : Z :=
  match h with
  | HandshakeInit => 0 | HandshakeHello => 1 | HandshakeWelcome => 2
  | HandshakeInitiate => 3 | HandshakeReady => 4 | HandshakeComplete => 5
  end.

Record Security : Type := mkSecurity {
  cv_keyPair : option KeyPair;          (* [None]: a nil pointer *)
  cv_serverKey : bytes;
  cv_isServer : bool;
  cv_clientTransient : option KeyPair;
  cv_serverTransient : option KeyPair;
  cv_cookie : option bytes;
  cv_clientNonce : Z;
  cv_serverNonce : Z;
  cv_messageEncryptionReady : bool;
  cv_sendNonce : Z;                     (* declared and never used *)
  cv_recvNonce : Z;
  cv_handshakeState : HandshakeState;
  cv_clientSecret : bytes;              (* declared and never used *)
  cv_serverSecret : bytes }.

Definition NewClientSecurity (clientKeys : option KeyPair) (serverPublicKey : bytes) : Security :=
  mkSecurity clientKeys serverPublicKey false None None None 0 0 false 0 0 HandshakeInit
    (replicate 32 x00) (replicate 32 x00).
Definition NewServerSecurity (serverKeys : option KeyPair) : Security :=
  mkSecurity serverKeys (replicate 32 x00) true None None None 0 0 false 0 0 HandshakeInit
    (replicate 32 x00) (replicate 32 x00).

Definition set_serverKey (k : bytes) (s : Security) : Security :=
  mkSecurity (cv_keyPair s) k (cv_isServer s) (cv_clientTransient s) (cv_serverTransient s) (cv_cookie s)
    (cv_clientNonce s) (cv_serverNonce s) (cv_messageEncryptionReady s) (cv_sendNonce s) (cv_recvNonce s)
    (cv_handshakeState s) (cv_clientSecret s) (cv_serverSecret s).
Definition SetClientTransient (kp : option KeyPair) (s : Security) : Security :=
  mkSecurity (cv_keyPair s) (cv_serverKey s) (cv_isServer s) kp (cv_serverTransient s) (cv_cookie s)
    (cv_clientNonce s) (cv_serverNonce s) (cv_messageEncryptionReady s) (cv_sendNonce s) (cv_recvNonce s)
    (cv_handshakeState s) (cv_clientSecret s) (cv_serverSecret s).
Definition SetServerTransient (kp : option KeyPair) (s : Security) : Security :=
  mkSecurity (cv_keyPair s) (cv_serverKey s) (cv_isServer s) (cv_clientTransient s) kp (cv_cookie s)
    (cv_clientNonce s) (cv_serverNonce s) (cv_messageEncryptionReady s) (cv_sendNonce s) (cv_recvNonce s)
    (cv_handshakeState s) (cv_clientSecret s) (cv_serverSecret s).
Definition set_cookie (k : option bytes) (s : Security) : Security :=
  mkSecurity (cv_keyPair s) (cv_serverKey s) (cv_isServer s) (cv_clientTransient s) (cv_serverTransient s) k
    (cv_clientNonce s) (cv_serverNonce s) (cv_messageEncryptionReady s) (cv_sendNonce s) (cv_recvNonce s)
    (cv_handshakeState s) (cv_clientSecret s) (cv_serverSecret s).
Definition set_nonces (cn sn : Z) (s : Security) : Security :=
  mkSecurity (cv_keyPair s) (cv_serverKey s) (cv_isServer s) (cv_clientTransient s) (cv_serverTransient s)
    (cv_cookie s) cn sn (cv_messageEncryptionReady s) (cv_sendNonce s) (cv_recvNonce s)
    (cv_handshakeState s) (cv_clientSecret s) (cv_serverSecret s).
Definition set_ready (b : bool) (s : Security) : Security :=
  mkSecurity (cv_keyPair s) (cv_serverKey s) (cv_isServer s) (cv_clientTransient s) (cv_serverTransient s)
    (cv_cookie s) (cv_clientNonce s) (cv_serverNonce s) b (cv_sendNonce s) (cv_recvNonce s)
    (cv_handshakeState s) (cv_clientSecret s) (cv_serverSecret s).
Definition set_handshake (h : HandshakeState) (s : Security) : Security :=
  mkSecurity (cv_keyPair s) (cv_serverKey s) (cv_isServer s) (cv_clientTransient s) (cv_serverTransient s)
    (cv_cookie s) (cv_clientNonce s) (cv_serverNonce s) (cv_messageEncryptionReady s) (cv_sendNonce s)
    (cv_recvNonce s) h (cv_clientSecret s) (cv_serverSecret s).

Definition SetHandshakeComplete (s : Security) : Security :=
  set_nonces 0 0 (set_ready true (set_handshake HandshakeComplete s)).

(** ** Readiness *)

Definition curve_IsReady (s : Security) : bool :=
  bool_decide (cv_handshakeState s = HandshakeComplete) &&
  bool_decide (cv_clientTransient s ≠ None) && bool_decide (cv_serverTransient s ≠ None).

Definition ValidateMessageReadiness (s : Security) : outcome unit :=
  if decide (cv_handshakeState s ≠ HandshakeComplete) then Fail (Errorf "curve: handshake not complete")
  else match cv_clientTransient s, cv_serverTransient s with
  | None, _ => Fail (Errorf "curve: client transient keys not available")
  | Some _, None => Fail (Errorf "curve: server transient keys not available")
  | Some ct, Some st =>
      if decide (len (kp_Public ct) ≠ KeySize ∨ len (kp_Secret ct) ≠ KeySize)
      then Fail (Errorf "curve: invalid client transient key size")
      else if decide (len (kp_Public st) ≠ KeySize ∨ len (kp_Secret st) ≠ KeySize)
      then Fail (Errorf "curve: invalid server transient key size")
      else Ret tt
  end.

Definition validateTCPConnection (closed : bool) (s : Security) : outcome unit :=
  if closed then Fail (Errorf "connection is marked as closed")
  else if decide (cv_handshakeState s ≠ HandshakeComplete) then Fail (Errorf "handshake not complete")
  else match cv_clientTransient s, cv_serverTransient s with
  | None, _ => Fail (Errorf "client transient keys not available")
  | Some _, None => Fail (Errorf "server transient keys not available")
  | Some ct, Some st =>
      if decide (len (kp_Public ct) ≠ KeySize ∨ len (kp_Public st) ≠ KeySize)
      then Fail (Errorf "invalid transient key sizes") else Ret tt
  end.

(** [EnsureMessageReadiness(conn)] for a connection that is not nil. *)
Definition curve_EnsureMessageReadiness (closed : bool) : M Security unit :=
  s ← mget;
  lift (ValidateMessageReadiness s);;
  if closed then mfail (Errorf "curve: connection is closed")
  else
    wrapE "curve: TCP connection validation failed" (lift (validateTCPConnection closed s));;
    if negb (cv_messageEncryptionReady s)
    then mfail (Errorf "curve: MESSAGE encryption not ready - handshake may have failed")
    else mret tt.

(** ** Messages *)

(** [nextSendNonce]: the server counts 1, 3, 5, ...; the client 2, 4, 6, ...;
    a counter that wraps to 0 starts again. *)
Definition nextSendNonce : M Security bytes :=
  s ← mget;
  if cv_isServer s then
    let n := if decide (cv_serverNonce s = 0) then 1 else wrapu 64 (cv_serverNonce s + 2) in
    mupd (set_nonces (cv_clientNonce s) n);; mret (le_put 8 n)
  else
    let n := if decide (cv_clientNonce s = 0) then 2 else wrapu 64 (cv_clientNonce s + 2) in
    mupd (set_nonces n (cv_serverNonce s));; mret (le_put 8 n).

Definition messageNonce (nonce8 : bytes) : bytes := fixed 8 nonce8 ++ fixed 16 (gs "CurveZMQMESSAGE-").

(** The older counters, kept in the code. *)
Definition nextClientNonce : M Security bytes :=
  s ← mget;
  let n := wrapu 64 (cv_clientNonce s + 2) in
  let n := if decide (n = 0) then 2 else n in
  mupd (set_nonces n (cv_serverNonce s));; mret (le_put 8 n ++ fixed 16 (gs "CurveZMQMESSAGE-")).

Definition nextServerNonce : M Security bytes :=
  s ← mget;
  let n := wrapu 64 (cv_serverNonce s + 2) in
  let n := if decide (n = 0 ∨ n = 2) then 1 else n in
  mupd (set_nonces (cv_clientNonce s) n);; mret (le_put 8 n ++ fixed 16 (gs "CurveZMQMESSAGE-")).

Section boxes.
Context (N : nacl).

Definition curve_EncryptWithFlags (data : bytes) (hasMore : bool) : M Security bytes :=
  s ← mget;
  wrapE "curve: MESSAGE encryption validation failed" (lift (ValidateMessageReadiness s));;
  nonce ← nextSendNonce;
  match cv_clientTransient s, cv_serverTransient s with
  | Some ct, Some st =>
      let recipientKey := if cv_isServer s then kp_Public ct else kp_Public st in
      let senderKey := if cv_isServer s then kp_Secret st else kp_Secret ct in
      let encrypted := box_Seal N data (messageNonce nonce) recipientKey senderKey in
      mret ([if hasMore then x01 else x00] ++ nonce ++ encrypted)
  | _, _ => mfail (Errorf "curve: transient keys not available for message encryption")
  end.

Definition curve_Encrypt (data : bytes) : M Security bytes := curve_EncryptWithFlags data false.

(** The plaintext and the continuation flag. *)
Definition curve_DecryptWithFlags (data : bytes) : M Security (bytes * bool) :=
  s ← mget;
  wrapE "curve: MESSAGE decryption validation failed" (lift (ValidateMessageReadiness s));;
  if decide (len data < 1 + 8 + BoxOverhead) then mfail ErrInvalidCommand
  else
    flags ← lift (idx data 0);
    let hasMore := negb (Z.land (byte_Z flags) 1 =? 0) in
    let nonce8 := take 8 (drop 1 data) in
    let encrypted := drop 9 data in
    if decide (1 < byte_Z flags) then mfail (Errorf "curve: invalid flags byte")
    else match cv_clientTransient s, cv_serverTransient s with
    | Some ct, Some st =>
        let senderKey := if cv_isServer s then kp_Public ct else kp_Public st in
        let recipientKey := if cv_isServer s then kp_Secret st else kp_Secret ct in
        match box_Open N encrypted (messageNonce nonce8) senderKey recipientKey with
        | None => mfail ErrDecryptionFailed
        | Some decrypted => mret (decrypted, hasMore)
        end
    | _, _ => mfail (Errorf "curve: transient keys not available for message decryption")
    end.

Definition curve_Decrypt (data : bytes) : M Security bytes :=
  r ← curve_DecryptWithFlags data; mret r.1.

(** ** Handshake commands on the wire: written as they are *)

Definition encryptHello (data : bytes) : M Security bytes := mret data.
Definition decryptHello (data : bytes) : M Security bytes := mret data.
Definition encryptWelcome (data : bytes) : M Security bytes := mret data.
Definition decryptWelcome (data : bytes) : M Security bytes := mret data.
Definition encryptInitiate (data : bytes) : M Security bytes := mret data.
Definition decryptInitiate (data : bytes) : M Security bytes := mret data.
Definition encryptReady (data : bytes) : M Security bytes := mret data.
Definition decryptReady (data : bytes) : M Security bytes := mret data.

Definition EncryptHandshakeCommand (command data : bytes) : M Security bytes :=
  if beq command (gs "HELLO") then encryptHello data
  else if beq command (gs "WELCOME") then encryptWelcome data
  else if beq command (gs "INITIATE") then encryptInitiate data
  else if beq command (gs "READY") then encryptReady data
  else mfail (Errorf "curve: unknown handshake command").

Definition DecryptHandshakeCommand (command data : bytes) : M Security bytes :=
  if beq command (gs "HELLO") then decryptHello data
  else if beq command (gs "WELCOME") then decryptWelcome data
  else if beq command (gs "INITIATE") then decryptInitiate data
  else if beq command (gs "READY") then decryptReady data
  else mfail (Errorf "curve: unknown handshake command").

(** The methods a connection uses. *)
Definition curveSecurity : secops Security :=
  mkSec Security CurveSecurity curve_Encrypt curve_Decrypt (Some curve_EncryptWithFlags)
    (Some curve_EnsureMessageReadiness) (Some EncryptHandshakeCommand)
    (Some (fun s => HandshakeState_int (cv_handshakeState s))).
End boxes.

(** ** The handshake *)

(** Dereferencing a pointer. *)
Definition nonnil {S A} (p : option A) : M S A :=
  match p with Some a => mret a | None => mpanic "nil pointer dereference" end.

(** A nonce of two constant parts, the second padded with zeros. *)
Definition handshakeNonce (name : string) : bytes := fixed 8 (gs "CurveZMQ") ++ fixed 16 (gs name).

Definition all_zero (l : bytes) : bool := forallb (fun b => bool_decide (b = x00)) l.

Definition bytesEqual (a b : bytes) : bool :=
  if decide (length a ≠ length b) then false
  else forallb (fun i => bool_decide (a !! i = b !! i)) (seq 0 (length a)).

(** [for i := 87; i >= 0; i--]: the end of the last byte that is not zero,
    from the first [n] bytes. *)
Fixpoint last_nonzero (n : nat) (cookie : bytes) : option nat :=
  match n with
  | O => None
  | S i => if decide (cookie !! i = Some x00) then last_nonzero i cookie else Some (S i)
  end.

Definition actualCookie (cookie : bytes) : bytes :=
  if decide (length cookie = 96%nat) then
    let actualEnd := default 88%nat (last_nonzero 88 cookie) in
    let actualEnd := if decide (actualEnd < 88)%nat then 88%nat else actualEnd in
    take actualEnd cookie
  else cookie.

Section bodies.
Context (N : nacl).

Definition hello_body (s : Security) (ct : KeyPair) : outcome bytes :=
  let nonce := handshakeNonce "HELLO---" in
  let signatureBox := box_Seal N (replicate 64 x00) nonce (cv_serverKey s) (kp_Secret ct) in
  if decide (len signatureBox ≠ 80) then Fail (Errorf "curve: invalid signature box size")
  else
    let body := replicate 64 x00 ++ fixed 32 (kp_Public ct) ++ replicate 64 x00 ++
                fixed 40 (take 40 signatureBox) in
    if decide (len body ≠ HelloBodySize) then Fail (Errorf "curve: invalid HELLO body size") else Ret body.

Definition cookie_plain (ct st : KeyPair) (timestamp : Z) : bytes :=
  fixed 32 (kp_Public ct) ++ fixed 32 (kp_Secret st) ++ be_put 8 timestamp.

Definition welcome_body (keys ct st : KeyPair) (now : Z) : outcome bytes :=
  let cookie := box_Seal N (cookie_plain ct st now) (handshakeNonce "COOKIE--")
                  (kp_Public keys) (fixed 32 (kp_Secret keys)) in
  if decide (len cookie ≠ 88) then Fail (Errorf "curve: invalid cookie size")
  else
    let cookie := if decide (len cookie = 88) then fixed 96 cookie else cookie in
    let body := fixed 32 (kp_Public st) ++ fixed 96 cookie ++ replicate 40 x00 in
    if decide (len body ≠ WelcomeBodySize) then Fail (Errorf "curve: invalid WELCOME body size") else Ret body.

Definition initiate_body (s : Security) (keys ct st : KeyPair) (cookie metadata : bytes) : outcome bytes :=
  let metadataPlain := fixed 32 (kp_Public st) ++ fixed 32 (kp_Public keys) ++ metadata in
  let metadataBox := box_Seal N metadataPlain (handshakeNonce "INITIATE") (kp_Public st) (kp_Secret ct) in
  let vouchBox := box_Seal N (kp_Public keys) (handshakeNonce "VOUCH---") (cv_serverKey s) (kp_Secret ct) in
  if decide (len vouchBox ≠ 48) then Fail (Errorf "curve: invalid vouch box size")
  else Ret (fixed 96 cookie ++ fixed 32 (kp_Public ct) ++ metadataBox ++ vouchBox).

Definition ready_nonce : bytes := fixed 24 (gs "CurveZMQREADY---").
Definition ready_body (ct st : KeyPair) (metadata : bytes) : bytes :=
  box_Seal N metadata ready_nonce (kp_Public ct) (kp_Secret st).
End bodies.

Section handshake.
Context (N : nacl).
Context (toTitle ToLower : bytes → bytes).
Context (range : Metadata → list (bytes * bytes)) (room : bytes → nat).
Context (spare : bytes → bytes).
(** [conn.SendCmd] and [conn.RecvCmd]. *)
Context (SendCmd : bytes → bytes → M (Conn Security) unit) (RecvCmd : M (Conn Security) Cmd).

#[local] Abbreviation MC := (M (Conn Security)).

(** The mechanism of the connection. *)
Definition cv_get : MC Security := c ← mget; mret (c_sec c).
Definition cv_upd (f : Security → Security) : MC unit := mupd (fun c => set_sec (f (c_sec c)) c).

Definition cv_metadata : MC bytes :=
  c ← mget;
  wrapE "curve: could not serialize metadata" (lift (Metadata_MarshalZMTP toTitle ToLower range room (c_Meta c))).

Definition cv_peerMeta (metadata : bytes) : MC unit :=
  wrapE "curve: could not unmarshal peer metadata"
    (on_peerMeta (Metadata_UnmarshalZMTP toTitle metadata (spare metadata))).

Definition sendHello : MC unit :=
  s ← cv_get;
  ct ← nonnil (cv_clientTransient s);
  body ← lift (hello_body N s ct);
  SendCmd CmdHello body.

(** The box at the end of the body is not opened. *)
Definition recvHello : MC unit :=
  cmd ← wrapE "curve: could not receive HELLO" RecvCmd;
  let body := Body cmd in
  if negb (beq (Name cmd) CmdHello) then mfail (Errorf "curve: expected HELLO")
  else if decide (len body ≠ HelloBodySize) then mfail (Errorf "curve: invalid HELLO body size")
  else if negb (all_zero (take 64 body)) then mfail (Errorf "curve: invalid HELLO signature")
  else
    cv_upd (SetClientTransient (Some (mkKeyPair (fixed 32 (take 32 (drop 64 body))) (replicate 32 x00))));;
    if negb (all_zero (take 64 (drop 96 body))) then mfail (Errorf "curve: invalid HELLO padding")
    else
      let signatureBoxTruncated := take 40 (drop 160 body) in
      if decide (len signatureBoxTruncated ≠ 40) then mfail (Errorf "curve: invalid signature box size")
      else mret tt.

Definition sendWelcome (now : Z) : MC unit :=
  s ← cv_get;
  st ← nonnil (cv_serverTransient s);
  ct ← nonnil (cv_clientTransient s);
  keys ← nonnil (cv_keyPair s);
  body ← lift (welcome_body N keys ct st now);
  SendCmd CmdWelcome body.

Definition recvWelcome : MC unit :=
  cmd ← wrapE "curve: could not receive WELCOME" RecvCmd;
  let body := Body cmd in
  if negb (beq (Name cmd) CmdWelcome) then mfail (Errorf "curve: expected WELCOME")
  else if decide (len body ≠ WelcomeBodySize) then mfail (Errorf "curve: invalid WELCOME body size")
  else
    cv_upd (SetServerTransient (Some (mkKeyPair (fixed 32 (take 32 body)) (replicate 32 x00))));;
    cv_upd (set_cookie (Some (fixed 96 (take 96 (drop 32 body)))));;
    if negb (all_zero (take 40 (drop 128 body))) then mfail (Errorf "curve: invalid WELCOME padding")
    else mret tt.

Definition sendInitiate : MC unit :=
  s ← cv_get;
  match cv_cookie s with
  | Some cookie =>
      if decide (len cookie ≠ 96) then mfail (Errorf "curve: no valid cookie available for INITIATE")
      else
        metadata ← cv_metadata;
        ct ← nonnil (cv_clientTransient s);
        st ← nonnil (cv_serverTransient s);
        keys ← nonnil (cv_keyPair s);
        body ← lift (initiate_body N s keys ct st cookie metadata);
        SendCmd CmdInitiate body
  | None => mfail (Errorf "curve: no valid cookie available for INITIATE")
  end.

(** The age check: [time.Now().Unix()-timestamp > 60] on [int64]. *)
Definition cookie_expired (now timestamp : Z) : bool := 60 <? wraps 64 (now - timestamp).

(** The cookie: the client key it was issued for, once it is found fresh. *)
Definition open_cookie (now : Z) (cookie : bytes) : MC bytes :=
  s ← cv_get;
  keys ← nonnil (cv_keyPair s);
  match box_Open N (actualCookie cookie) (handshakeNonce "COOKIE--") (kp_Public keys) (fixed 32 (kp_Secret keys)) with
  | None => mfail (Errorf "curve: failed to decrypt cookie - invalid or expired")
  | Some cookieDecrypted =>
      if decide (len cookieDecrypted ≠ 72) then mfail (Errorf "curve: invalid cookie content size")
      else
        st ← nonnil (cv_serverTransient s);
        cv_upd (SetServerTransient
          (Some (mkKeyPair (kp_Public st) (fixed 32 (take 32 (drop 32 cookieDecrypted))))));;
        let timestamp := wraps 64 (be_get (take 8 (drop 64 cookieDecrypted))) in
        if cookie_expired now timestamp then mfail (Errorf "curve: cookie expired")
        else mret (fixed 32 (take 32 cookieDecrypted))
  end.

Definition recvInitiate (now : Z) : MC unit :=
  cmd ← wrapE "curve: could not receive INITIATE" RecvCmd;
  let body := Body cmd in
  if negb (beq (Name cmd) CmdInitiate) then mfail (Errorf "curve: expected INITIATE")
  else if decide (len body < InitiateBodySize) then mfail (Errorf "curve: INITIATE body too small")
  else if decide (len body < 96) then mfail (Errorf "curve: INITIATE missing cookie")
  else
    clientTransientFromCookie ← open_cookie now (take 96 body);
    if decide (len body < 96 + KeySize) then mfail (Errorf "curve: INITIATE missing client transient public key")
    else
      let clientTransientFromMsg := fixed 32 (take 32 (drop 96 body)) in
      s ← cv_get;
      ct ← nonnil (cv_clientTransient s);
      st ← nonnil (cv_serverTransient s);
      keys ← nonnil (cv_keyPair s);
      if negb (bytesEqual clientTransientFromCookie clientTransientFromMsg)
      then mfail (Errorf "curve: client transient key mismatch between cookie and message")
      else if negb (bytesEqual clientTransientFromMsg (kp_Public ct))
      then mfail (Errorf "curve: client transient key mismatch with HELLO")
      else if decide (len body < 128 + 48) then mfail (Errorf "curve: INITIATE too short for vouch box")
      else
        let metadataBoxEnd := (length body - 48)%nat in
        let metadataBox := drop 128 (take metadataBoxEnd body) in
        match box_Open N metadataBox (handshakeNonce "INITIATE") (kp_Public ct) (kp_Secret st) with
        | None => mfail (Errorf "curve: failed to decrypt INITIATE metadata box")
        | Some metadataDecrypted =>
            if decide (len metadataDecrypted < 2 * KeySize)
            then mfail (Errorf "curve: invalid metadata box content: too short")
            else if negb (bytesEqual (take 32 metadataDecrypted) (kp_Public st))
            then mfail (Errorf "curve: server transient key mismatch in INITIATE")
            else
              let clientPermanentKey := fixed 32 (take 32 (drop 32 metadataDecrypted)) in
              cv_peerMeta (drop 64 metadataDecrypted);;
              let vouchBox := drop metadataBoxEnd body in
              if decide (len vouchBox ≠ 48) then mfail (Errorf "curve: invalid vouch box size")
              else match box_Open N vouchBox (handshakeNonce "VOUCH---") (kp_Public ct) (kp_Secret keys) with
              | None => mfail (Errorf "curve: failed to verify vouch box")
              | Some vouchDecrypted =>
                  if decide (len vouchDecrypted ≠ KeySize) then mfail (Errorf "curve: invalid vouch content size")
                  else if negb (bytesEqual vouchDecrypted clientPermanentKey)
                  then mfail (Errorf "curve: vouch verification failed - key mismatch")
                  else cv_upd (set_serverKey (fixed 32 clientPermanentKey))
              end
        end.

Definition sendReady : MC unit :=
  metadata ← cv_metadata;
  s ← cv_get;
  ct ← nonnil (cv_clientTransient s);
  st ← nonnil (cv_serverTransient s);
  SendCmd CmdReady (ready_body N ct st metadata).

Definition recvReady : MC unit :=
  cmd ← wrapE "curve: could not receive READY" RecvCmd;
  if negb (beq (Name cmd) CmdReady) then mfail (Errorf "curve: expected READY")
  else
    s ← cv_get;
    st ← nonnil (cv_serverTransient s);
    ct ← nonnil (cv_clientTransient s);
    match box_Open N (Body cmd) ready_nonce (kp_Public st) (kp_Secret ct) with
    | None => mfail (Errorf "curve: failed to decrypt READY box")
    | Some metadata => cv_peerMeta metadata
    end.

(** [s.xTransient, err = GenerateKeyPair()]: nil when it fails. *)
Definition cv_generate (set : option KeyPair → Security → Security) (fmt : string) (gen : outcome KeyPair) : MC unit :=
  match GenerateKeyPair gen with
  | Ret kp => cv_upd (set (Some kp))
  | Fail e => cv_upd (set None);; mfail (Wrap fmt e)
  | Panic p => mpanic p
  end.

(** The end of both handshakes: complete, counters at zero, messages enabled. *)
Definition cv_complete : MC unit :=
  cv_upd (set_handshake HandshakeComplete);;
  cv_upd (set_nonces 0 0);;
  cv_upd (set_ready true).

Definition clientHandshake (gen : outcome KeyPair) : MC unit :=
  cv_upd (set_handshake HandshakeInit);;
  cv_generate SetClientTransient "curve: failed to generate client transient keys" gen;;
  cv_upd (set_handshake HandshakeHello);;
  wrapE "curve: failed to send HELLO" sendHello;;
  wrapE "curve: failed to receive WELCOME" recvWelcome;;
  cv_upd (set_handshake HandshakeWelcome);;
  cv_upd (set_handshake HandshakeInitiate);;
  wrapE "curve: failed to send INITIATE" sendInitiate;;
  wrapE "curve: failed to receive READY" recvReady;;
  cv_upd (set_handshake HandshakeReady);;
  cv_complete.

(** [now] is the clock when WELCOME is sent, [now'] when INITIATE is read. *)
Definition serverHandshake (gen : outcome KeyPair) (now now' : Z) : MC unit :=
  cv_upd (set_handshake HandshakeInit);;
  wrapE "curve: failed to receive HELLO" recvHello;;
  cv_upd (set_handshake HandshakeHello);;
  cv_generate SetServerTransient "curve: failed to generate server transient keys" gen;;
  cv_upd (set_handshake HandshakeWelcome);;
  wrapE "curve: failed to send WELCOME" (sendWelcome now);;
  wrapE "curve: failed to receive INITIATE" (recvInitiate now');;
  cv_upd (set_handshake HandshakeInitiate);;
  cv_upd (set_handshake HandshakeReady);;
  wrapE "curve: failed to send READY" sendReady;;
  cv_complete.

(** The role is the connection's, not [isServer]. *)
Definition curve_Handshake (gen : outcome KeyPair) (now now' : Z) (server : bool) : MC unit :=
  if server then serverHandshake gen now now' else clientHandshake gen.
End handshake.
