(* ===== verification/CurveFacts.v ===== *)
(** * CurveFacts: keys, nonces and messages of the CURVE mechanism

    The text forms of keys, the counters that give each message its nonce,
    and the messages two ends with the same transient keys exchange: what an
    end accepts, what a connection delivers, and where a frame's header and
    its encrypted body disagree. *)

From Stdlib Require Import Strings.Byte ZArith Lia.
From stdpp Require Import base strings numbers gmap list.
From S2P Require Import Prelude Z85 Zmtp Conn ConnFacts Handshake Curve.

#[local] Open Scope Z_scope.
#[local] Set Default Goal Selector "!".

(** ** Arrays *)

Lemma length_go_copy dst src : length (go_copy dst src) = length dst.
Proof. unfold go_copy. rewrite length_app, length_take, length_drop. lia. Qed.

Lemma len_fixed n src : len (fixed n src) = Z.of_nat n.
Proof. unfold len, fixed. by rewrite length_go_copy, length_replicate. Qed.

Lemma fixed_id n src : len src = Z.of_nat n → fixed n src = src.
Proof. intros H. unfold fixed. apply go_copy_full. rewrite length_replicate. unfold len in H. lia. Qed.

(** A shorter source is padded with zeros. *)
Lemma fixed_pad n src : len src <= Z.of_nat n → fixed n src = src ++ replicate (n - length src) x00.
Proof.
  intros H. unfold fixed, go_copy. rewrite length_replicate.
  rewrite take_ge by (unfold len in H; lia). by rewrite drop_replicate.
Qed.

Lemma fixed_app a b x y : len x = Z.of_nat a → fixed (a + b) (x ++ y) = x ++ fixed b y.
Proof.
  intros H. unfold len in H. unfold fixed, go_copy. rewrite !length_replicate, length_app, !drop_replicate.
  rewrite take_app_ge by lia. rewrite <- app_assoc. f_equal.
  replace (a + b - length x)%nat with b by lia. f_equal. f_equal. lia.
Qed.

Lemma all_zero_replicate n : all_zero (replicate n x00) = true.
Proof. induction n; [done|]. cbn [replicate all_zero forallb]. by rewrite bool_decide_eq_true_2. Qed.

Lemma bytesEqual_spec a b : bytesEqual a b = beq a b.
Proof.
  unfold bytesEqual, beq. destruct (decide (length a ≠ length b)) as [Hl|Hl].
  - symmetry. apply bool_decide_eq_false_2. intros ->. done.
  - apply dec_stable in Hl. apply eq_true_iff_eq. rewrite forallb_forall, bool_decide_eq_true. split.
    + intros Hf. apply list_eq_same_length with (length a); [done|done|].
      intros i x y Hi Hx Hy. specialize (Hf i). rewrite in_seq in Hf.
      assert (a !! i = b !! i) by (eapply bool_decide_eq_true_1, Hf; lia). congruence.
    + intros -> i _. by apply bool_decide_eq_true_2.
Qed.

(** The cookie ends at 88 bytes whatever it holds: the search for its last
    byte has no effect. *)
Lemma last_nonzero_le n cookie k : last_nonzero n cookie = Some k → (k <= n)%nat.
Proof.
  induction n as [|n IH]; [done|]. cbn [last_nonzero]. destruct (decide _); [|by intros [= <-]].
  intros H. specialize (IH H). lia.
Qed.

Lemma actualCookie_88 cookie : length cookie = 96%nat → actualCookie cookie = take 88 cookie.
Proof.
  intros H. unfold actualCookie. rewrite decide_True by done. cbv zeta. f_equal.
  destruct (last_nonzero 88 cookie) as [k|] eqn:E; [|by vm_compute].
  pose proof (last_nonzero_le _ _ _ E). change (default 88%nat (Some k)) with k. destruct (decide (k < 88)%nat); [done|lia].
Qed.

(** ** Keys as text *)

Definition key_pair_ok (kp : KeyPair) : Prop := len (kp_Public kp) = 32 ∧ len (kp_Secret kp) = 32.

Lemma NewKeyPairFromZ85_ok p s kp :
  DecodeString p = Ret (kp_Public kp) → DecodeString s = Ret (kp_Secret kp) → key_pair_ok kp →
  NewKeyPairFromZ85 p s = Ret kp.
Proof.
  intros Hp Hs [H1 H2]. unfold NewKeyPairFromZ85. rewrite Hp, Hs. cbn [wrap_outcome mbind outcome_bind].
  rewrite decide_False, decide_False, !fixed_id by (unfold KeySize; lia). by destruct kp.
Qed.

Lemma NewKeyPairFromZ85_inv p s kp :
  NewKeyPairFromZ85 p s = Ret kp →
  DecodeString p = Ret (kp_Public kp) ∧ DecodeString s = Ret (kp_Secret kp) ∧ key_pair_ok kp.
Proof.
  unfold NewKeyPairFromZ85. destruct (DecodeString p) as [pb| |] eqn:Ep; [|done|done].
  cbn [wrap_outcome mbind outcome_bind]. case_decide as Hp; [done|].
  destruct (DecodeString s) as [sb| |] eqn:Es; [|done|done].
  cbn [wrap_outcome mbind outcome_bind]. case_decide as Hs; [done|].
  rewrite !fixed_id by done. by intros [= <-].
Qed.

Lemma ValidateZ85Key_decodes k out :
  len k < 2 ^ 58 → DecodeString k = Ret out → len out = 32 → ValidateZ85Key k = Ret tt.
Proof.
  intros Hb Hd Hl. unfold ValidateZ85Key.
  rewrite (proj1 (z85_validate_vs_decode k Hb)) by eauto. rewrite Hd.
  cbn [wrap_outcome mbind outcome_bind]. by rewrite decide_False by (unfold KeySize; lia).
Qed.

(** Keys as text. Every key pair is written as two Z85 strings of forty
    characters, each accepted by [ValidateZ85Key], and as two hexadecimal
    strings, and both forms read back as the pair. A pair that is read from
    Z85 has keys of 32 bytes and is written back as the strings it came from. *)
Theorem key_text_roundtrip (kp : KeyPair) :
  key_pair_ok kp →
  (∃ p s, PublicKeyZ85 kp = Ret p ∧ SecretKeyZ85 kp = Ret s ∧ len p = 40 ∧ len s = 40 ∧
          NewKeyPairFromZ85 p s = Ret kp ∧ ValidateZ85Key p = Ret tt ∧ ValidateZ85Key s = Ret tt) ∧
  NewKeyPairFromHex (PublicKeyHex kp) (SecretKeyHex kp) = Ret kp ∧
  (∀ p s kp', len p < 2 ^ 58 → len s < 2 ^ 58 → NewKeyPairFromZ85 p s = Ret kp' →
     key_pair_ok kp' ∧ PublicKeyZ85 kp' = Ret p ∧ SecretKeyZ85 kp' = Ret s).
Proof.
  intros [Hp Hs]. split; [|split].
  - destruct (z85_roundtrip (kp_Public kp)) as (p & Ep & Lp & Dp); [lia|by rewrite Hp|].
    destruct (z85_roundtrip (kp_Secret kp)) as (s & Es & Ls & Ds); [lia|by rewrite Hs|].
    exists p, s. split_and!; [done|done|lia|lia| | |].
    + by apply NewKeyPairFromZ85_ok.
    + by apply (ValidateZ85Key_decodes p (kp_Public kp)); [lia| |].
    + by apply (ValidateZ85Key_decodes s (kp_Secret kp)); [lia| |].
  - unfold NewKeyPairFromHex, PublicKeyHex, SecretKeyHex. rewrite !hex_decode_encode.
    cbn [wrap_outcome mbind outcome_bind].
    rewrite decide_False, decide_False, !fixed_id by (unfold KeySize; lia). by destruct kp.
  - intros p s kp' Hbp Hbs H. apply NewKeyPairFromZ85_inv in H as (Dp & Ds & Hk).
    split; [done|]. split; by apply z85_decode_canonical.
Qed.

Lemma key_text_roundtrip_witness :
  ∃ p s, PublicKeyZ85 (mkKeyPair (replicate 32 x61) (replicate 32 xff)) = Ret p ∧
         NewKeyPairFromZ85 p s = Ret (mkKeyPair (replicate 32 x61) (replicate 32 xff)).
Proof.
  destruct (key_text_roundtrip (mkKeyPair (replicate 32 x61) (replicate 32 xff)) (conj eq_refl eq_refl))
    as [(p & s & H1 & _ & _ & _ & H2 & _) _].
  exists p, s. exact (conj H1 H2).
Defined.

(** ** Messages *)

Section messages.
Context (N : nacl).

(** An end after the handshake with transient secrets [sc] of the client and
    [ss] of the server; each end knows its own secret only. *)
Record established (sc ss : bytes) (s : Security) : Prop := {
  es_sc : len sc = 32;
  es_ss : len ss = 32;
  es_state : cv_handshakeState s = HandshakeComplete;
  es_ready : cv_messageEncryptionReady s = true;
  es_ct : cv_clientTransient s =
    Some (mkKeyPair (box_public N sc) (if cv_isServer s then replicate 32 x00 else sc));
  es_st : cv_serverTransient s =
    Some (mkKeyPair (box_public N ss) (if cv_isServer s then ss else replicate 32 x00)) }.

(** The body of a message: flags, eight bytes of nonce, box. *)
Definition message_wire (sc ss : bytes) (more : bool) (nonce8 m : bytes) : bytes :=
  [if more then x01 else x00] ++ nonce8 ++ box_Seal N m (messageNonce nonce8) (box_public N ss) sc.

(** The counter an end uses next, and the end after using it. *)
Definition next_nonce (s : Security) : Z :=
  if cv_isServer s then if decide (cv_serverNonce s = 0) then 1 else wrapu 64 (cv_serverNonce s + 2)
  else if decide (cv_clientNonce s = 0) then 2 else wrapu 64 (cv_clientNonce s + 2).
Definition bumped (s : Security) : Security :=
  if cv_isServer s then set_nonces (cv_clientNonce s) (next_nonce s) s
  else set_nonces (next_nonce s) (cv_serverNonce s) s.

Lemma bumped_isServer s : cv_isServer (bumped s) = cv_isServer s.
Proof. unfold bumped. by destruct (cv_isServer s) eqn:E. Qed.

Lemma bumped_established sc ss s : established sc ss s → established sc ss (bumped s).
Proof.
  intros []. split; rewrite ?bumped_isServer; unfold bumped; try done; by destruct (cv_isServer s).
Qed.

Context `{!NaclLaws N}.

Lemma established_valid sc ss s : established sc ss s → ValidateMessageReadiness s = Ret tt.
Proof.
  intros []. unfold ValidateMessageReadiness. rewrite decide_False by (intros H; done).
  rewrite es_ct0, es_st0. cbn [kp_Public kp_Secret]. rewrite !public_length by done.
  change (len (replicate 32 x00)) with 32 in *.
  rewrite decide_False, decide_False; [done|..]; destruct (cv_isServer s); unfold KeySize;
    change (len (replicate 32 x00)) with 32; lia.
Qed.

Lemma established_ensure sc ss s : established sc ss s → curve_EnsureMessageReadiness false s = (Ret tt, s).
Proof.
  intros He. unfold curve_EnsureMessageReadiness. mstep reflexivity.
  mstep (apply lift_ret, (established_valid sc ss), He). destruct He.
  mstep (apply wrapE_ret, lift_ret; unfold validateTCPConnection;
    rewrite decide_False by (intros H; done); rewrite es_ct0, es_st0; cbn [kp_Public];
    rewrite !public_length by done; by rewrite decide_False by (unfold KeySize; lia)).
  by rewrite es_ready0.
Qed.

(** Either end seals a message with the same key. *)
Lemma encrypt_established sc ss s d more :
  established sc ss s →
  curve_EncryptWithFlags N d more s = (Ret (message_wire sc ss more (le_put 8 (next_nonce s)) d), bumped s).
Proof.
  intros He. unfold curve_EncryptWithFlags. mstep reflexivity.
  mstep (apply wrapE_ret, lift_ret, (established_valid sc ss), He). destruct He.
  mstep (instantiate (1 := bumped s); instantiate (1 := le_put 8 (next_nonce s));
    unfold nextSendNonce, bumped, next_nonce, mget, mbind, M_bind, mupd; by destruct (cv_isServer s)).
  rewrite es_ct0, es_st0. cbn [kp_Public kp_Secret]. unfold message_wire.
  destruct (cv_isServer s); [|done]. by rewrite (seal_sym _ _ sc ss).
Qed.

Lemma messageNonce_8 n8 : length n8 = 8%nat → messageNonce n8 = n8 ++ gs "CurveZMQMESSAGE-".
Proof.
  intros H. unfold messageNonce. rewrite fixed_id by (unfold len; lia). by rewrite fixed_id.
Qed.

Lemma flags_cases (b : byte) : ~ 1 < byte_Z b → b = (if negb (Z.land (byte_Z b) 1 =? 0) then x01 else x00).
Proof.
  intros H. pose proof (byte_Z_range b). assert (byte_Z b = 0 ∨ byte_Z b = 1) as [E|E] by lia; rewrite E.
  - by apply byte_Z_inj.
  - by apply byte_Z_inj.
Qed.

Lemma decrypt_wire sc ss s more n8 m :
  established sc ss s → length n8 = 8%nat →
  curve_DecryptWithFlags N (message_wire sc ss more n8 m) s = (Ret (m, more), s).
Proof.
  intros He Hn. unfold curve_DecryptWithFlags. mstep reflexivity.
  mstep (apply wrapE_ret, lift_ret, (established_valid sc ss), He). destruct He.
  rewrite decide_False; [|unfold message_wire; rewrite !len_app, seal_length; pose proof (len_nonneg m);
    change (len [_]) with 1; unfold len in *; rewrite Hn; unfold BoxOverhead; lia].
  mstep reflexivity. replace (negb (Z.land (byte_Z (if more then x01 else x00)) 1 =? 0)) with more by (by destruct more).
  rewrite decide_False by (by destruct more). rewrite es_ct0, es_st0. cbn [kp_Public kp_Secret].
  unfold message_wire. cbn [app drop]. rewrite drop_0, take_app_length' by done.
  rewrite (drop_app_length' n8) by done.
  destruct (cv_isServer s).
  - by rewrite open_seal by done.
  - by rewrite (seal_sym _ _ sc ss), open_seal by done.
Qed.

(** Only such bodies are accepted. *)
Lemma decrypt_inv sc ss s data m more s' :
  established sc ss s → curve_DecryptWithFlags N data s = (Ret (m, more), s') →
  s' = s ∧ ∃ n8, length n8 = 8%nat ∧ data = message_wire sc ss more n8 m.
Proof.
  intros He. unfold curve_DecryptWithFlags.
  rewrite (M_bind_ret mget _ s s s) by done. cbv beta.
  rewrite (M_bind_ret _ _ s tt s) by (apply wrapE_ret, lift_ret, (established_valid sc ss), He). destruct He.
  case_decide as Hlen; [done|].
  assert (∃ f n8 r, data = f :: n8 ++ r ∧ length n8 = 8%nat) as (f & n8 & r & -> & Hn).
  { unfold len, BoxOverhead in Hlen. destruct data as [|f data]; [simpl in Hlen; lia|].
    exists f, (take 8 data), (drop 8 data). rewrite take_drop. simpl in Hlen. rewrite length_take. split; [done|lia]. }
  rewrite (M_bind_ret _ _ s f s) by done. cbv beta zeta. case_decide as Hf; [done|].
  rewrite es_ct0, es_st0. cbn [kp_Public kp_Secret drop]. rewrite drop_0, take_app_length' by done.
  rewrite (drop_app_length' n8) by done.
  destruct (box_Open N r _ _ _) as [m'|] eqn:E; [|done]. intros [= <- <- <-]. split; [done|].
  exists n8. split; [done|]. apply open_inv in E. unfold message_wire. rewrite <- flags_cases by done.
  cbn [app]. f_equal. f_equal. rewrite E. destruct (cv_isServer s); [|done]. by rewrite (seal_sym _ _ sc ss).
Qed.

(** ** Sequences of messages *)

Fixpoint encrypt_all (ds : list (bytes * bool)) : M Security (list bytes) :=
  match ds with
  | [] => mret []
  | (d, more) :: ds' =>
      w ← curve_EncryptWithFlags N d more; ws ← encrypt_all ds'; mret (w :: ws)
  end.

Fixpoint decrypt_all (ws : list bytes) : M Security (list (bytes * bool)) :=
  match ws with
  | [] => mret []
  | w :: ws' => d ← curve_DecryptWithFlags N w; ds ← decrypt_all ws'; mret (d :: ds)
  end.

(** The counter of an end's message number [i]. *)
Definition nth_nonce (server : bool) (i : nat) : Z := if server then 2 * Z.of_nat i + 1 else 2 * Z.of_nat i + 2.

(** [s] has sent [i] messages since the handshake. *)
Definition has_sent (i : nat) (s : Security) : Prop :=
  (if cv_isServer s then cv_serverNonce s else cv_clientNonce s) =
  match i with O => 0 | S j => nth_nonce (cv_isServer s) j end.

Lemma next_nonce_nth i s :
  has_sent i s → Z.of_nat i < 2 ^ 63 - 1 →
  next_nonce s = nth_nonce (cv_isServer s) i ∧ has_sent (S i) (bumped s).
Proof.
  intros Hs Hi. assert (next_nonce s = nth_nonce (cv_isServer s) i) as Hn.
  { unfold next_nonce, has_sent, nth_nonce, wrapu in *. destruct (cv_isServer s), i; rewrite Hs;
      [done|rewrite decide_False, Z.mod_small by lia; lia|done|rewrite decide_False, Z.mod_small by lia; lia]. }
  split; [done|]. unfold has_sent. rewrite bumped_isServer, <- Hn. unfold bumped. by destruct (cv_isServer s).
Qed.

(** The bodies of the messages [ds] sent from message number [i] on. *)
Fixpoint session_wire (sc ss : bytes) (server : bool) (i : nat) (ds : list (bytes * bool)) : list bytes :=
  match ds with
  | [] => []
  | (d, more) :: ds' =>
      message_wire sc ss more (le_put 8 (nth_nonce server i)) d :: session_wire sc ss server (S i) ds'
  end.

Lemma encrypt_all_wire sc ss ds : ∀ i s,
  established sc ss s → has_sent i s → Z.of_nat (i + length ds) < 2 ^ 63 →
  ∃ s', encrypt_all ds s = (Ret (session_wire sc ss (cv_isServer s) i ds), s') ∧
        established sc ss s' ∧ has_sent (i + length ds) s'.
Proof.
  induction ds as [|[d more] ds IH]; intros i s He Hs Hb; cbn [encrypt_all session_wire].
  - exists s. rewrite Nat.add_0_r. done.
  - cbn [length] in Hb. destruct (next_nonce_nth i s Hs ltac:(lia)) as [Hn Hs'].
    destruct (IH (S i) (bumped s)) as (s' & E & He' & Hs2); [by apply bumped_established|done|lia|].
    exists s'. split; [|split; [done|]].
    + mstep (apply encrypt_established, He). mstep exact E. by rewrite bumped_isServer, Hn.
    + cbn [length]. by rewrite Nat.add_succ_r.
Qed.

Lemma decrypt_all_wire sc ss server ds : ∀ i s,
  established sc ss s → decrypt_all (session_wire sc ss server i ds) s = (Ret ds, s).
Proof.
  induction ds as [|[d more] ds IH]; intros i s He; cbn [decrypt_all session_wire]; [done|].
  mstep (by apply (decrypt_wire sc ss); [|apply length_le_put]). mstep (by apply IH). done.
Qed.

(** The nonce a message carries. *)
Definition message_nonce (w : bytes) : bytes := take 8 (drop 1 w).

Lemma session_nonces sc ss server ds : ∀ i,
  message_nonce <$> session_wire sc ss server i ds =
  (fun j => le_put 8 (nth_nonce server j)) <$> seq i (length ds).
Proof.
  induction ds as [|[d more] ds IH]; intros i; [done|].
  cbn [session_wire length seq fmap list_fmap]. rewrite IH. f_equal.
Qed.

Lemma le_put_inj_small n a b :
  0 <= a < 256 ^ Z.of_nat n → 0 <= b < 256 ^ Z.of_nat n → le_put n a = le_put n b → a = b.
Proof. intros Ha Hb E. rewrite <- (le_get_put_small n a), <- (le_get_put_small n b) by done. by rewrite E. Qed.

Lemma nonces_NoDup_end server k : Z.of_nat k < 2 ^ 63 → NoDup ((fun j => le_put 8 (nth_nonce server j)) <$> seq 0 k).
Proof.
  intros Hk. apply NoDup_fmap_2_strong; [|apply NoDup_seq].
  intros x y Hx Hy. rewrite elem_of_seq in Hx, Hy. intros E.
  assert (256 ^ Z.of_nat 8 = 2 ^ 64) as H64 by reflexivity.
  apply le_put_inj_small in E; unfold nth_nonce in *; destruct server; lia.
Qed.
End messages.

(** C4. A session: two ends with the transient keys of one handshake each
    encrypt any sequence of fewer than 2^63 messages. The other end decrypts
    them to the same payloads and continuation flags, in order, and without a
    change of its state; no two messages of the session, of one direction or
    of both, carry the same nonce. *)
Theorem curve_session (N : nacl) `{!NaclLaws N} (sc ss : bytes) (c s : Security) (dc ds : list (bytes * bool)) :
  established N sc ss c → established N sc ss s → cv_isServer c = false → cv_isServer s = true →
  has_sent 0 c → has_sent 0 s →
  Z.of_nat (length dc) < 2 ^ 63 → Z.of_nat (length ds) < 2 ^ 63 →
  ∃ wc ws c' s',
    encrypt_all N dc c = (Ret wc, c') ∧ encrypt_all N ds s = (Ret ws, s') ∧
    decrypt_all N wc s' = (Ret dc, s') ∧ decrypt_all N ws c' = (Ret ds, c') ∧
    NoDup (message_nonce <$> wc ++ ws).
Proof.
  intros Hc Hs Rc Rs Nc Ns Lc Ls.
  destruct (encrypt_all_wire N sc ss dc 0 c Hc Nc Lc) as (c' & Ec & Hc' & _).
  destruct (encrypt_all_wire N sc ss ds 0 s Hs Ns Ls) as (s' & Es & Hs' & _).
  rewrite Rc in Ec. rewrite Rs in Es. do 4 eexists. split_and!; [exact Ec|exact Es|..].
  - by apply (decrypt_all_wire N sc ss).
  - by apply (decrypt_all_wire N sc ss).
  - rewrite fmap_app, !session_nonces. apply NoDup_app. split_and!; [by apply nonces_NoDup_end| |by apply nonces_NoDup_end].
    intros x Hx Hy. apply list_elem_of_fmap in Hx as (i & -> & Hi). apply list_elem_of_fmap in Hy as (j & E & Hj).
    rewrite elem_of_seq in Hi, Hj. assert (256 ^ Z.of_nat 8 = 2 ^ 64) as H64 by reflexivity.
    apply le_put_inj_small in E; unfold nth_nonce in *; lia.
Qed.

(** ** A box that satisfies the laws *)

(** Not a cipher: the message in clear behind a tag computed from the keys
    and the nonce. *)
Definition xorb (a b : byte) : byte := Z_byte (Z.lxor (byte_Z a) (byte_Z b)).
Definition toy_public (s : bytes) : bytes := xorb xff <$> s.
Definition toy_tag (n p s : bytes) : bytes := fixed 16 (zip_with xorb (zip_with xorb (toy_public p) s) n).
Definition toy_nacl : nacl := mkNacl
  (fun m n p s => toy_tag n p s ++ m)
  (fun b n p s => if decide (take 16 b = toy_tag n p s) then Some (drop 16 b) else None)
  toy_public.

Lemma xorb_comm a b : xorb a b = xorb b a.
Proof. unfold xorb. by rewrite Z.lxor_comm. Qed.

Lemma toy_public_involutive s : toy_public (toy_public s) = s.
Proof.
  unfold toy_public. rewrite <- list_fmap_compose. rewrite <- (list_fmap_id s) at 2.
  apply list_fmap_ext. intros _ b _. cbn. destruct b; reflexivity.
Qed.

Lemma toy_tag_sym n s s' : toy_tag n (toy_public s') s = toy_tag n (toy_public s) s'.
Proof.
  unfold toy_tag. rewrite !toy_public_involutive. do 2 f_equal.
  rewrite <- (zip_with_flip xorb). apply zip_with_ext; [|done|done]. intros. apply xorb_comm.
Qed.

Lemma length_toy_tag n p s : length (toy_tag n p s) = 16%nat.
Proof. unfold toy_tag, fixed. by rewrite length_go_copy, length_replicate. Qed.

#[export] Instance toy_laws : NaclLaws toy_nacl.
Proof.
  split; cbn [toy_nacl box_Seal box_Open box_public].
  - intros m n p s. rewrite len_app. unfold toy_tag. rewrite len_fixed. lia.
  - intros s H. unfold len, toy_public in *. by rewrite length_fmap.
  - intros m n s s' _ _. rewrite take_app_length', toy_tag_sym, decide_True by (done || by rewrite length_toy_tag).
    f_equal. apply drop_app_length'. by rewrite length_toy_tag.
  - intros m n s s' _ _. by rewrite toy_tag_sym.
  - intros b n p s m. case_decide as E; [|done]. intros [= <-]. by rewrite <- E, take_drop.
Qed.

(** The ends of an established session, for examples. *)
Definition ex_end (server : bool) : Security :=
  let sc := replicate 32 x01 in
  let ss := replicate 32 x02 in
  SetHandshakeComplete
    (SetServerTransient (Some (mkKeyPair (toy_public ss) (if server then ss else replicate 32 x00)))
      (SetClientTransient (Some (mkKeyPair (toy_public sc) (if server then replicate 32 x00 else sc)))
        (if server then NewServerSecurity None else NewClientSecurity None (replicate 32 x00)))).

Lemma ex_established server : established toy_nacl (replicate 32 x01) (replicate 32 x02) (ex_end server).
Proof. by destruct server; split. Qed.

Lemma curve_session_witness :
  ∃ wc ws c' s',
    encrypt_all toy_nacl [(gs "hello", true); ([], false)] (ex_end false) = (Ret wc, c') ∧
    encrypt_all toy_nacl [(gs "world", false)] (ex_end true) = (Ret ws, s') ∧
    decrypt_all toy_nacl wc s' = (Ret [(gs "hello", true); ([], false)], s') ∧
    decrypt_all toy_nacl ws c' = (Ret [(gs "world", false)], c') ∧
    NoDup (message_nonce <$> wc ++ ws).
Proof.
  exact (curve_session toy_nacl _ _ (ex_end false) (ex_end true) [(gs "hello", true); ([], false)]
    [(gs "world", false)] (ex_established false) (ex_established true) eq_refl eq_refl eq_refl eq_refl
    eq_refl eq_refl).
Defined.

(** What an end accepts: exactly the bodies that are a flags byte 0 or 1,
    eight bytes, and the box of a payload under the session's key with these
    eight bytes as its nonce; nothing else is decrypted, and accepting changes
    no state. The role of the sender, the order and the number of times a body
    arrives, and the flags byte are not part of it: an end accepts a message
    again, accepts the messages it has sent itself, and takes any flag it is
    given for them. *)
Theorem curve_accepts (N : nacl) `{!NaclLaws N} (sc ss : bytes) (s : Security) :
  established N sc ss s →
  (∀ data m more s',
     curve_DecryptWithFlags N data s = (Ret (m, more), s') ↔
     s' = s ∧ ∃ n8, length n8 = 8%nat ∧ data = message_wire N sc ss more n8 m) ∧
  (∀ p d more w p' more',
     established N sc ss p → curve_EncryptWithFlags N d more p = (Ret w, p') →
     curve_DecryptWithFlags N ((if more' : bool then x01 else x00) :: drop 1 w) s = (Ret (d, more'), s)).
Proof.
  intros He. split.
  - intros data m more s'. split.
    + by apply decrypt_inv.
    + intros [-> (n8 & Hn & ->)]. by apply decrypt_wire.
  - intros p d more w p' more' Hp E. rewrite (encrypt_established N sc ss) in E by done. injection E as <- <-.
    apply (decrypt_wire N sc ss s more' (le_put 8 (next_nonce p)) d He), length_le_put.
Qed.

Lemma curve_accepts_witness :
  curve_DecryptWithFlags toy_nacl (x01 :: drop 1
      (message_wire toy_nacl (replicate 32 x01) (replicate 32 x02) false (le_put 8 2) (gs "reflected")))
    (ex_end false) = (Ret (gs "reflected", true), ex_end false).
Proof.
  refine (proj2 (curve_accepts toy_nacl _ _ (ex_end false) (ex_established false)) (ex_end false)
    (gs "reflected") false _ _ true (ex_established false) _).
  vm_compute. reflexivity.
Defined.

(** The counter of an end that has sent 2^63 - 1 messages starts again: the
    client's at 0 and then at 2, the server's at 1, nonces that the session
    has used. *)
Theorem nonce_exhaustion (s : Security) :
  (cv_isServer s = false → cv_clientNonce s = 2 ^ 64 - 2 →
     next_nonce s = 0 ∧ next_nonce (bumped s) = 2) ∧
  (cv_isServer s = true → cv_serverNonce s = 2 ^ 64 - 1 → next_nonce s = 1).
Proof.
  split; intros Hr Hn; unfold bumped, next_nonce; rewrite Hr; [split|]; cbn; rewrite ?Hr, Hn; reflexivity.
Qed.
