(* ===== verification/CurveConn.v ===== *)
(** * CurveConn: the CURVE mechanism on a connection

    Messages of an established session sent and read through [Conn], and the
    frames whose header does not announce what is written; then the handshake
    of the two roles, over commands that carry their name and over the
    commands that [Conn.SendCmd] writes for CURVE. *)

From Stdlib Require Import Strings.Byte ZArith Lia.
From stdpp Require Import base strings numbers gmap list.
From S2P Require Import Prelude Z85 Zmtp Conn ConnFacts Handshake Curve CurveFacts.

#[local] Open Scope Z_scope.
#[local] Set Default Goal Selector "!".

Section delivery.
Context (N : nacl) `{!NaclLaws N} (maxAlloc : Z).
Context (sc ss : bytes).
Implicit Types c d : Conn Security.

#[local] Abbreviation sec := (curveSecurity N).

Lemma len_message_wire more n8 m : length n8 = 8%nat → len (message_wire N sc ss more n8 m) = len m + 25.
Proof.
  intros H. unfold message_wire. rewrite !len_app, seal_length. change (len [_]) with 1. unfold len in *. lia.
Qed.

(** The body [send] writes for a frame, and the connection after it. *)
Definition sent_body (more : bool) (f : bytes) c : bytes :=
  message_wire N sc ss more (le_put 8 (next_nonce (c_sec c))) f.

Lemma on_sec_ret {A} (m : M Security A) c a s :
  m (c_sec c) = (Ret a, s) → on_sec m c = (Ret a, set_sec s c).
Proof. intros H. unfold on_sec. by rewrite H. Qed.

Lemma ensure_established c :
  established N sc ss (c_sec c) → c_closed c = false →
  wrapE "zmq4: CURVE MESSAGE readiness check failed"
    (c ← mget; checked (on_sec (curve_EnsureMessageReadiness (Conn_Closed c)))) c = (Ret tt, c).
Proof.
  intros He Hc. apply wrapE_ret. mstep reflexivity. apply checked_ret. unfold Conn_Closed. rewrite Hc.
  rewrite (on_sec_ret _ c tt (c_sec c)) by (by apply (established_ensure N sc ss)). by rewrite set_sec_id.
Qed.

Lemma Conn_send_curve (more : bool) f c :
  established N sc ss (c_sec c) → writable c → c_closed c = false → f ≠ [] →
  Conn_send sec false f (if more then Z.lxor 0 hasMoreBitFlag else 0) c =
    (Ret tt, set_sec (bumped (c_sec c)) (wrote (frame_wire more false (sent_body more f c)) c)).
Proof.
  intros He Hw Hc Hf. unfold Conn_send. change (beq (sec_Type sec) CurveSecurity) with true.
  cbn [andb negb sec_EnsureMessageReadiness sec_EncryptWithFlags curveSecurity].
  mstep (apply ensure_established; done).
  assert (0 < len f) as Hl.
  { pose proof (len_nonneg f). assert (len f ≠ 0) by (by rewrite len_nil_iff). lia. }
  rewrite bool_decide_eq_true_2 by lia. cbv zeta.
  mstep (by apply checked_write).
  assert (negb (Z.land (if decide (255 < len f + 25)
      then Z.lxor (if more then Z.lxor 0 hasMoreBitFlag else 0) isLongBitFlag
      else if more then Z.lxor 0 hasMoreBitFlag else 0) hasMoreBitFlag =? 0) = more) as ->
    by (destruct (decide (255 < len f + 25)), more; reflexivity).
  assert (Hfw : frame_wire more false (sent_body more f c) =
    frame_header (wire_flag more false (len f + 25)) (len f + 25) ++ sent_body more f c).
  { unfold frame_wire, sent_body. rewrite (len_message_wire more (le_put 8 (next_nonce (c_sec c))) f (length_le_put _ _)). done. }
  rewrite <- send_flag in Hfw. rewrite Hfw.
  apply checked_ret. mstep (apply on_sec_ret; exact (encrypt_established N sc ss (c_sec c) f more He)).
  rewrite on_rw_write by done. rewrite <- wrote_wrote. done.
Qed.

(** The bodies of the frames of a message. *)
Fixpoint sent_bodies (frames : list bytes) (s : Security) : list bytes :=
  match frames with
  | [] => []
  | f :: rest =>
      message_wire N sc ss (match rest with [] => false | _ => true end) (le_put 8 (next_nonce s)) f ::
      sent_bodies rest (bumped s)
  end.

Lemma SendMsg_loop_curve frames : ∀ c,
  established N sc ss (c_sec c) → writable c → c_closed c = false → Forall (fun f => f ≠ []) frames →
  ∃ s', SendMsg_loop sec frames c =
          (Ret tt, set_sec s' (wrote (msg_wire false (sent_bodies frames (c_sec c))) c)) ∧
        established N sc ss s'.
Proof.
  induction frames as [|f frames IH]; intros c He Hw Hc Hf; cbn [SendMsg_loop msg_wire sent_bodies].
  - exists (c_sec c). rewrite wrote_nil, set_sec_id. done.
  - apply Forall_cons in Hf as [Hf Hfs].
    replace (match frames with [] => 0 | _ => Z.lxor 0 hasMoreBitFlag end)
      with (if (match frames with [] => false | _ => true end) then Z.lxor 0 hasMoreBitFlag else 0)
      by (by destruct frames).
    set (more := match frames with [] => false | _ => true end).
    destruct (IH (set_sec (bumped (c_sec c)) (wrote (frame_wire more false (sent_body more f c)) c)))
      as (s' & E & He'); [by apply bumped_established|done|done|done|].
    exists s'. split; [|done].
    mstep (apply wrapE_ret, (Conn_send_curve more f c He Hw Hc Hf)). rewrite E. cbn [c_sec set_sec].
    replace (match sent_bodies frames (bumped (c_sec c)) with [] => false | _ => true end) with more
      by (by destruct frames).
    rewrite <- wrote_wrote. done.
Qed.

Lemma opens_to_curve d more n8 f :
  established N sc ss (c_sec d) → length n8 = 8%nat → opens_to sec false d (message_wire N sc ss more n8 f) f.
Proof.
  intros He Hn r. change (beq (sec_Type sec) NullSecurity) with false.
  change (beq (sec_Type sec) CurveSecurity) with true. cbn [andb orb].
  unfold try, on_sec. cbn [sec_Decrypt curveSecurity]. unfold curve_Decrypt.
  rewrite (M_bind_ret _ _ _ (f, more) (c_sec (reading r d))) by (by apply (decrypt_wire N sc ss)).
  cbn. by destruct d.
Qed.

Lemma opens_to_bodies d frames : ∀ s,
  established N sc ss (c_sec d) → Forall2 (opens_to sec false d) (sent_bodies frames s) frames.
Proof.
  induction frames as [|f frames IH]; intros s He; cbn [sent_bodies]; constructor; [|by apply IH].
  apply opens_to_curve; [done|apply length_le_put].
Qed.

Lemma sent_bodies_fit frames s :
  Forall (fun f => len f + 25 <= maxAlloc ∧ len f + 25 <= maxInt64) frames →
  Forall (fun b => len b <= maxAlloc ∧ len b <= maxInt64) (sent_bodies frames s).
Proof.
  intros H. revert s. induction H as [|f frames Hf _ IH]; intros s; cbn [sent_bodies]; constructor; [|by apply IH].
  by rewrite len_message_wire by apply length_le_put.
Qed.

(** A frame announced with fewer bytes than the shortest message. *)
Lemma read_short_frame (more cmd : bool) d x r :
  established N sc ss (c_sec d) → nc_open (c_rw d) = true → len x < 25 → 25 <= maxAlloc →
  nc_in (c_rw d) = frame_header (wire_flag more cmd (len x)) (len x) ++ x ++ r →
  Conn_read sec maxAlloc d = (Ret (mkMsg [] UsrMsg false (Some ErrInvalidCommand)), reading r d).
Proof.
  intros He Ho Hx Ha Hin. unfold Conn_read. rewrite Nat.add_1_r. cbn [read_loop].
  destruct (read_size more cmd (len x) (x ++ r) d Ho) as (h1 & r' & H2 & Hsz);
    [pose proof (len_nonneg x); lia|exact Hin|].
  mstep exact H2. mstep reflexivity. mstep reflexivity. mstep exact Hsz.
  rewrite decide_False by (unfold maxInt64; lia). unfold make_slice. rewrite decide_False by lia. mstep reflexivity.
  mstep (apply (read_rw_app _ x r); [done|done|by rewrite len_to_nat]).
  mstep reflexivity. change (beq (sec_Type sec) NullSecurity) with false.
  change (beq (sec_Type sec) CurveSecurity) with true.
  match goal with |- context [isCurveHandshake _ ?c] => assert (isCurveHandshake sec c = false) as -> end.
  { unfold isCurveHandshake. cbn. by rewrite (es_state _ _ _ _ He). }
  rewrite andb_false_r. cbn [andb orb].
  mstep (instantiate (1 := reading r d); instantiate (1 := inr ErrInvalidCommand);
    unfold try, on_sec; cbn [sec_Decrypt curveSecurity]; unfold curve_Decrypt, curve_DecryptWithFlags;
    unfold mget, mbind, M_bind; cbn [c_sec reading set_rw];
    rewrite (wrapE_ret _ _ (c_sec d) tt (c_sec d)) by (by apply lift_ret, (established_valid N sc ss));
    rewrite decide_True by (unfold BoxOverhead; lia); by destruct d).
  done.
Qed.

(** An empty frame is not encrypted. *)
Lemma Conn_send_empty c :
  established N sc ss (c_sec c) → writable c → c_closed c = false →
  Conn_send sec false [] 0 c = (Ret tt, wrote (frame_wire false false []) c).
Proof.
  intros He Hw Hc. unfold Conn_send. change (beq (sec_Type sec) CurveSecurity) with true.
  cbn [andb negb sec_EnsureMessageReadiness curveSecurity].
  mstep (apply ensure_established; done). mstep (by apply checked_write). done.
Qed.

(** A command is announced with the length it has before encryption. *)
Lemma Conn_send_command b c :
  established N sc ss (c_sec c) → writable c → c_closed c = false → b ≠ [] →
  Conn_send sec true b 0 c =
    (Ret tt, set_sec (bumped (c_sec c))
      (wrote (frame_header (wire_flag false true (len b)) (len b) ++ sent_body false b c) c)).
Proof.
  intros He Hw Hc Hb. unfold Conn_send. change (beq (sec_Type sec) CurveSecurity) with true.
  cbn [andb negb]. mstep reflexivity. mstep (by apply checked_write).
  rewrite decide_False by (by rewrite len_nil_iff). apply checked_ret.
  mstep (apply on_sec_ret; exact (encrypt_established N sc ss (c_sec c) b false He)).
  rewrite on_rw_write by done. rewrite <- send_flag, <- wrote_wrote. done.
Qed.

(** [sendMulti] encrypts every frame, behind the header of the plain frame. *)
Lemma sendMulti_buffers_curve frames : ∀ c,
  established N sc ss (c_sec c) →
  ∃ bufs s', sendMulti_buffers sec frames c = (Ret bufs, set_sec s' c).
Proof.
  induction frames as [|f frames IH]; intros c He; cbn [sendMulti_buffers].
  - exists [], (c_sec c). by rewrite set_sec_id.
  - destruct (IH (set_sec (bumped (c_sec c)) c)) as (bufs & s' & E); [by apply bumped_established|].
    do 2 eexists. change (beq (sec_Type sec) NullSecurity) with false. cbv zeta iota.
    mstep (apply on_sec_ret; exact (encrypt_established N sc ss (c_sec c) f false He)).
    mstep exact E. done.
Qed.

Lemma sendMulti_first f frames c :
  established N sc ss (c_sec c) →
  ∃ bufs s', sendMulti_buffers sec (f :: frames) c =
    (Ret (frame_header (wire_flag (match frames with [] => false | _ => true end) false (len f)) (len f)
          :: sent_body false f c :: bufs), set_sec s' c).
Proof.
  intros He. cbn [sendMulti_buffers].
  destruct (sendMulti_buffers_curve frames (set_sec (bumped (c_sec c)) c)) as (bufs & s' & E);
    [by apply bumped_established|].
  exists bufs, s'. change (beq (sec_Type sec) NullSecurity) with false. cbv zeta iota.
  mstep (apply on_sec_ret; exact (encrypt_established N sc ss (c_sec c) f false He)).
  mstep exact E. rewrite <- send_flag. by destruct frames.
Qed.
End delivery.

(** C24. Messages over a connection: on two connections whose mechanisms are
    the ends of one session, a message of one or more frames, none of them
    empty, that is sent without the multipart flag is read at the other end
    frame by frame, and the bytes behind it stay unread; both mechanisms
    remain in the session. *)
Theorem curve_delivery (N : nacl) `{!NaclLaws N} (maxAlloc : Z) (sc ss : bytes) (frames : list bytes)
    (c d : Conn Security) (rest : bytes) :
  established N sc ss (c_sec c) → established N sc ss (c_sec d) →
  frames ≠ [] → Forall (fun f => f ≠ []) frames →
  Forall (fun f => len f + 25 <= maxAlloc ∧ len f + 25 <= maxInt64) frames →
  writable c → c_closed c = false → nc_open (c_rw d) = true →
  ∃ c' w, Conn_SendMsg (curveSecurity N) (NewMsgFrom frames) c = (Ret tt, c') ∧
    nc_out (c_rw c') = nc_out (c_rw c) ++ w ∧ established N sc ss (c_sec c') ∧
    (nc_in (c_rw d) = w ++ rest →
       Conn_read (curveSecurity N) maxAlloc d = (Ret (NewMsgFrom frames), reading rest d)).
Proof.
  intros Hc Hd Hne Hf Hlen Hw Hcl Ho.
  destruct (SendMsg_loop_curve N sc ss frames c Hc Hw Hcl Hf) as (s' & E & Hs').
  exists (set_sec s' (wrote (msg_wire false (sent_bodies N sc ss frames (c_sec c))) c)),
    (msg_wire false (sent_bodies N sc ss frames (c_sec c))). split_and!; [|done|done|].
  - unfold Conn_SendMsg. mstep reflexivity. unfold Conn_Closed. rewrite Hcl. exact E.
  - intros Hin. apply (Conn_read_bodies _ _ false (sent_bodies N sc ss frames (c_sec c))); try done.
    + by destruct frames.
    + by apply sent_bodies_fit.
    + by apply opens_to_bodies.
Qed.

(** A connection of the example session that will read [inp]. *)
Definition ex_conn (server : bool) (inp : bytes) : Conn Security :=
  mkConn Dealer [] (fresh_net inp EOF) (ex_end server) server ∅ false ∅ ∅ false None None.

Lemma curve_delivery_witness :
  ∃ c' w, Conn_SendMsg (curveSecurity toy_nacl) (NewMsgFrom [gs "a"; gs "bc"]) (ex_conn false []) = (Ret tt, c') ∧
    nc_out (c_rw c') = [] ++ w ∧
    established toy_nacl (replicate 32 x01) (replicate 32 x02) (c_sec c') ∧
    (nc_in (c_rw (ex_conn true (w ++ [x07]))) = w ++ [x07] →
      Conn_read (curveSecurity toy_nacl) 4096 (ex_conn true (w ++ [x07])) =
        (Ret (NewMsgFrom [gs "a"; gs "bc"]), reading [x07] (ex_conn true (w ++ [x07])))).
Proof.
  destruct (curve_delivery toy_nacl 4096 (replicate 32 x01) (replicate 32 x02) [gs "a"; gs "bc"]
    (ex_conn false []) (ex_conn true []) [] (ex_established false) (ex_established true)) as (c' & w & E & Eo & Es & _);
    [done|by repeat constructor|by repeat constructor; vm_compute|done|done|done|].
  exists c', w. split_and!; [exact E|exact Eo|exact Es|].
  destruct (curve_delivery toy_nacl 4096 (replicate 32 x01) (replicate 32 x02) [gs "a"; gs "bc"]
    (ex_conn false []) (ex_conn true (w ++ [x07])) [x07] (ex_established false) (ex_established true))
    as (c2 & w2 & E2 & Eo2 & _ & R); [done|by repeat constructor|by repeat constructor; vm_compute|done|done|done|].
  assert (w2 = w) as ->; [|exact R]. assert (c2 = c') as -> by congruence. rewrite Eo in Eo2. by simpl in Eo2.
Defined.

(** A send that returns without an error and whose bytes make the reader of
    [d] fail with [ErrInvalidCommand]. *)
Definition unreadable (N : nacl) (maxAlloc : Z) (m : M (Conn Security) unit) (c d : Conn Security) : Prop :=
  ∃ c' w, m c = (Ret tt, c') ∧ nc_out (c_rw c') = nc_out (c_rw c) ++ w ∧
    ∀ rest, ∃ rest', Conn_read (curveSecurity N) maxAlloc (reading (w ++ rest) d) =
      (Ret (mkMsg [] UsrMsg false (Some ErrInvalidCommand)), reading rest' d).

Lemma unreadable_header (N : nacl) `{!NaclLaws N} maxAlloc sc ss (m : M (Conn Security) unit) c d c' more cmd x y :
  established N sc ss (c_sec d) → nc_open (c_rw d) = true → 25 <= maxAlloc → len x < 25 →
  m c = (Ret tt, c') →
  nc_out (c_rw c') = nc_out (c_rw c) ++ frame_header (wire_flag more cmd (len x)) (len x) ++ x ++ y →
  unreadable N maxAlloc m c d.
Proof.
  intros He Ho Ha Hx E Hout. exists c'. eexists. split; [exact E|]. split; [exact Hout|].
  intros rest. exists (y ++ rest).
  rewrite (read_short_frame N maxAlloc sc ss more cmd (reading _ d) x (y ++ rest)); [|done..|].
  - by rewrite reading_reading.
  - rewrite nc_in_reading, <- !app_assoc. done.
Qed.

(** Frames that are not encrypted as they are announced. On an established
    session these sends return without an error, and the peer's next read
    fails: a message of one empty frame, which is sent in clear; a message
    with the multipart flag whose first frame is shorter than 25 bytes, and
    any command outside the handshake shorter than that (every PING and PONG),
    whose headers announce the length before encryption. *)
Theorem curve_short_frames (N : nacl) `{!NaclLaws N} (maxAlloc : Z) (sc ss : bytes) (c d : Conn Security) :
  established N sc ss (c_sec c) → established N sc ss (c_sec d) →
  writable c → c_closed c = false → nc_open (c_rw d) = true → 25 <= maxAlloc →
  unreadable N maxAlloc (Conn_SendMsg (curveSecurity N) (NewMsg [])) c d ∧
  (∀ f frames, len f < 25 →
     unreadable N maxAlloc (Conn_SendMsg (curveSecurity N) (mkMsg (f :: frames) UsrMsg true None)) c d) ∧
  (∀ name body, isCurveHandshakeCommand name = false → 1 + len name + len body < 25 →
     unreadable N maxAlloc (Conn_SendCmd (curveSecurity N) name body) c d).
Proof.
  intros Hc Hd Hw Hcl Ho Ha. split_and!.
  - apply (unreadable_header N maxAlloc sc ss _ c d (wrote (frame_wire false false []) c) false false [] []); try done.
    unfold Conn_SendMsg. mstep reflexivity. unfold Conn_Closed. rewrite Hcl. cbn [multipart Frames NewMsg SendMsg_loop].
    mstep (apply wrapE_ret; exact (Conn_send_empty N sc ss c Hc Hw Hcl)). reflexivity.
  - intros f frames Hf. destruct (sendMulti_first N sc ss f frames c Hc) as (bufs & s' & E).
    pose proof (len_message_wire N sc ss false (le_put 8 (next_nonce (c_sec c))) f (length_le_put _ _)) as Hl.
    eapply (unreadable_header N maxAlloc sc ss _ c d _ (match frames with [] => false | _ => true end) false
      (take (length f) (sent_body N sc ss false f c)) (drop (length f) (sent_body N sc ss false f c) ++ concat bufs));
      [done|done|done| | |].
    + unfold len in *. rewrite length_take. lia.
    + unfold Conn_SendMsg. mstep reflexivity. unfold Conn_Closed. rewrite Hcl. cbn [multipart].
      unfold Conn_sendMulti. cbn [Frames]. mstep exact E. by apply checked_write.
    + rewrite nc_out_wrote. cbn [concat set_sec c_rw]. f_equal. unfold sent_body, len in *. rewrite length_take.
      replace (Z.of_nat (length f `min` _)) with (Z.of_nat (length f)) by lia. f_equal.
      by rewrite app_assoc, take_drop.
  - intros name body Hn Hlen.
    assert (Hs : len (cmd_body name body) < 25) by (rewrite len_cmd_body; lia).
    set (b := cmd_body name body) in *.
    pose proof (len_message_wire N sc ss false (le_put 8 (next_nonce (c_sec c))) b (length_le_put _ _)) as Hl.
    eapply (unreadable_header N maxAlloc sc ss _ c d _ false true
      (take (length b) (sent_body N sc ss false b c)) (drop (length b) (sent_body N sc ss false b c)));
      [done|done|done| | |].
    + unfold len in *. rewrite length_take. lia.
    + unfold Conn_SendCmd. mstep reflexivity. unfold Conn_Closed. rewrite Hcl. unfold Conn_sendCmd.
      rewrite Hn, andb_false_r.
      mstep (apply lift_ret; unfold Cmd_marshalZMTP; cbn [Name Body]; rewrite decide_False
        by (pose proof (len_nonneg body); lia); reflexivity).
      exact (Conn_send_command N sc ss b c Hc Hw Hcl ltac:(done)).
    + cbn [set_sec c_rw]. rewrite nc_out_wrote. f_equal. unfold sent_body, len in *. rewrite length_take.
      replace (Z.of_nat (length b `min` _)) with (Z.of_nat (length b)) by lia. f_equal.
      by rewrite take_drop.
Qed.

Lemma curve_short_frames_witness :
  unreadable toy_nacl 4096 (Conn_SendCmd (curveSecurity toy_nacl) CmdPing [x00; x00]) (ex_conn false []) (ex_conn true []).
Proof.
  refine (proj2 (proj2 (curve_short_frames toy_nacl 4096 (replicate 32 x01) (replicate 32 x02)
    (ex_conn false []) (ex_conn true []) (ex_established false) (ex_established true) _ _ _ _)) CmdPing [x00; x00] _ _);
    [done|done|done|lia|reflexivity|vm_compute; reflexivity].
Defined.
