(* ===== verification/CurveHandshake.v ===== *)
(** * CurveHandshake: the CURVE handshake of the two roles

    Each end is run against the commands the other end writes. Over commands
    that carry their name both ends complete with the same transient keys and
    each other's metadata; over [Conn.SendCmd], which writes the body of a
    CURVE handshake command without its name, no handshake gets past HELLO.
    What an end accepts also shows what it does not check. *)

From Stdlib Require Import Strings.Byte ZArith Lia.
From stdpp Require Import base strings numbers gmap list.
From S2P Require Import Prelude Z85 Zmtp Conn ConnFacts Handshake Curve CurveFacts CurveConn.

#[local] Open Scope Z_scope.
#[local] Set Default Goal Selector "!".

(** ** Keys and slices *)

Lemma fixed32 k : len k = 32 → fixed 32 k = k.
Proof. intros H. by apply fixed_id. Qed.

Lemma len_replicate {A} n (x : A) : len (replicate n x) = Z.of_nat n.
Proof. unfold len. by rewrite length_replicate. Qed.

Lemma take_mid {A} a b (x y z : list A) :
  len x = Z.of_nat a → len y = Z.of_nat b → take b (drop a (x ++ y ++ z)) = y.
Proof.
  intros Hx Hy. unfold len in *. rewrite drop_app_length' by lia. by apply take_app_length'; lia.
Qed.

(** ** Normal forms of a connection: the mechanism's state outermost *)

Lemma set_sec_set_sec {SS} (s s' : SS) c : set_sec s (set_sec s' c) = set_sec s c.
Proof. done. Qed.
Lemma wrote_set_sec {SS} (s : SS) p c : wrote p (set_sec s c) = set_sec s (wrote p c).
Proof. done. Qed.
Lemma reading_set_sec {SS} (s : SS) r c : reading r (set_sec s c) = set_sec s (reading r c).
Proof. done. Qed.
Lemma set_peer_set_sec {SS} (s : SS) b md c : set_peer b md (set_sec s c) = set_sec s (set_peer b md c).
Proof. done. Qed.
Lemma wrote_reading {SS} p r (c : Conn SS) : wrote p (reading r c) = reading r (wrote p c).
Proof. done. Qed.
Lemma wrote_set_peer {SS} p b md (c : Conn SS) : wrote p (set_peer b md c) = set_peer b md (wrote p c).
Proof. done. Qed.
Lemma c_sec_set_sec {SS} (s : SS) c : c_sec (set_sec s c) = s.
Proof. done. Qed.

Create Rewrite HintDb conn_nf.
#[export] Hint Rewrite @set_sec_set_sec @wrote_set_sec @reading_set_sec @set_peer_set_sec @wrote_reading
  @wrote_set_peer @wrote_wrote @reading_reading @c_sec_set_sec : conn_nf.

(** [hstep t] is [mstep t] followed by normalisation. *)
Tactic Notation "hstep" tactic3(t) := mstep t; autorewrite with conn_nf.

Lemma cv_upd_step f S c : cv_upd f (set_sec S c) = (Ret tt, set_sec (f S) c).
Proof. done. Qed.
Lemma cv_get_step S c : cv_get (set_sec S c) = (Ret S, set_sec S c).
Proof. done. Qed.
Lemma nonnil_step {S A} (p : option A) a (s : S) : p = Some a → nonnil p s = (Ret a, s).
Proof. by intros ->. Qed.

(** ** The bodies of the commands *)

Section bodies.
Context (N : nacl) `{!NaclLaws N}.
#[local] Abbreviation pk := (box_public N).

Definition hello_wire (sc box40 : bytes) : bytes :=
  replicate 64 x00 ++ pk sc ++ replicate 64 x00 ++ box40.

(** The cookie of the server with secret [sk]. *)
Definition cookie_wire (sk sc ss : bytes) (now : Z) : bytes :=
  box_Seal N (pk sc ++ ss ++ be_put 8 now) (handshakeNonce "COOKIE--") (pk sk) sk ++ replicate 8 x00.

Definition welcome_wire (ss cookie : bytes) : bytes := pk ss ++ cookie ++ replicate 40 x00.

(** INITIATE of a client with transient secret [sc] that names itself [cp] to
    the server whose public key is [sp]. *)
Definition initiate_wire (sp cookie sc ss cp raw : bytes) : bytes :=
  cookie ++ pk sc ++
  box_Seal N (pk ss ++ cp ++ raw) (handshakeNonce "INITIATE") (pk ss) sc ++
  box_Seal N cp (handshakeNonce "VOUCH---") sp sc.

Definition ready_wire (sc ss raw : bytes) : bytes := box_Seal N raw ready_nonce (pk sc) ss.

Lemma len_pk s : len s = 32 → len (pk s) = 32.
Proof. apply public_length. Qed.

Context (sc ss : bytes) (Hsc : len sc = 32) (Hss : len ss = 32).

Lemma hello_body_wire s :
  hello_body N s (mkKeyPair (pk sc) sc) =
  Ret (hello_wire sc (take 40 (box_Seal N (replicate 64 x00) (handshakeNonce "HELLO---") (cv_serverKey s) sc))).
Proof.
  clear Hss ss. unfold hello_body. cbn [kp_Public kp_Secret]. set (b := box_Seal N _ _ _ _).
  assert (len b = 80) as Hb by (unfold b; by rewrite seal_length, len_replicate).
  rewrite decide_False by lia. rewrite fixed32 by by apply len_pk.
  rewrite fixed_id by (unfold len in *; rewrite length_take; lia).
  rewrite decide_False; [done|]. rewrite !len_app, !len_replicate, len_pk by done.
  unfold len in *. rewrite length_take. unfold HelloBodySize. lia.
Qed.

Lemma len_cookie_box sk now :
  len (box_Seal N (pk sc ++ ss ++ be_put 8 now) (handshakeNonce "COOKIE--") (pk sk) sk) = 88.
Proof. rewrite seal_length, !len_app, len_pk, len_be_put by done. lia. Qed.

Lemma len_cookie_wire sk now : len (cookie_wire sk sc ss now) = 96.
Proof. unfold cookie_wire. rewrite len_app, len_cookie_box, len_replicate. lia. Qed.

Lemma welcome_body_wire sk ct now :
  len sk = 32 → kp_Public ct = pk sc →
  welcome_body N (mkKeyPair (pk sk) sk) ct (mkKeyPair (pk ss) ss) now =
  Ret (welcome_wire ss (cookie_wire sk sc ss now)).
Proof.
  intros Hsk Hct. unfold welcome_body, cookie_plain. cbn [kp_Public kp_Secret]. rewrite Hct.
  rewrite !fixed32 by (done || by apply len_pk). pose proof (len_cookie_box sk now) as Hb.
  rewrite !Hb, (decide_False (P := 88 ≠ 88)), (decide_True (P := 88 = 88)) by lia.
  rewrite (fixed_pad 96 (box_Seal N _ _ _ _)) by lia.
  replace (96 - length (box_Seal N (pk sc ++ ss ++ be_put 8 now) (handshakeNonce "COOKIE--") (pk sk) sk))%nat
    with 8%nat by (unfold len in Hb; lia).
  change (box_Seal N (pk sc ++ ss ++ be_put 8 now) (handshakeNonce "COOKIE--") (pk sk) sk ++ replicate 8 x00)
    with (cookie_wire sk sc ss now).
  rewrite fixed_id by apply len_cookie_wire.
  rewrite decide_False; [done|]. rewrite !len_app, len_replicate, len_pk, len_cookie_wire by done.
  unfold WelcomeBodySize. lia.
Qed.

Lemma initiate_body_wire s keys cookie raw st :
  len (kp_Public keys) = 32 → len cookie = 96 → kp_Public st = pk ss →
  initiate_body N s keys (mkKeyPair (pk sc) sc) st cookie raw =
  Ret (initiate_wire (cv_serverKey s) cookie sc ss (kp_Public keys) raw).
Proof.
  intros Hk Hc Hst. unfold initiate_body. cbn [kp_Public kp_Secret]. rewrite Hst.
  rewrite decide_False by (rewrite seal_length; lia).
  rewrite (fixed_id 96) by done. by rewrite !fixed32 by (done || by apply len_pk).
Qed.
End bodies.

(** ** One command at a time *)

Section steps.
Context (N : nacl) `{!NaclLaws N}.
Context (toTitle ToLower : bytes → bytes).
Context (range : Metadata → list (bytes * bytes)) (room : bytes → nat).
Context (spare : bytes → bytes).
Context (SendCmd : bytes → bytes → M (Conn Security) unit) (RecvCmd : M (Conn Security) Cmd).
Context (sc ss : bytes) (Hsc : len sc = 32) (Hss : len ss = 32).
#[local] Abbreviation pk := (box_public N).
Implicit Types c : Conn Security.

Lemma recvHello_step c c1 box40 :
  len box40 = 40 → RecvCmd c = (Ret (mkCmd CmdHello (hello_wire N sc box40)), c1) →
  recvHello RecvCmd c =
    (Ret tt, set_sec (SetClientTransient (Some (mkKeyPair (pk sc) (replicate 32 x00))) (c_sec c1)) c1).
Proof.
  clear Hss ss. intros Hb E. pose proof (len_pk N sc Hsc) as Hp. unfold recvHello. mstep (apply wrapE_ret, E).
  cbn [Name Body]. change (beq CmdHello CmdHello) with true. cbn [negb].
  rewrite decide_False by (unfold hello_wire, HelloBodySize; rewrite !len_app, !len_replicate; lia).
  unfold hello_wire at 1. rewrite take_app_length', all_zero_replicate by (by rewrite length_replicate).
  cbn [negb]. mstep reflexivity.
  unfold hello_wire. rewrite (take_mid 64 32) by (rewrite ?len_replicate; done).
  rewrite (app_assoc (replicate 64 x00) (pk sc)).
  rewrite (take_mid 96 64), all_zero_replicate by (rewrite ?len_app, ?len_replicate; lia). cbn [negb].
  rewrite fixed32 by done. rewrite decide_False; [done|].
  rewrite app_assoc, drop_app_length' by (pose proof (len_replicate 64 x00) as H64; unfold len in *; rewrite !length_app; lia).
  unfold len in *. rewrite length_take. lia.
Qed.

Lemma recvWelcome_step c c1 cookie :
  len cookie = 96 → RecvCmd c = (Ret (mkCmd CmdWelcome (welcome_wire N ss cookie)), c1) →
  recvWelcome RecvCmd c =
    (Ret tt, set_sec (set_cookie (Some cookie)
       (SetServerTransient (Some (mkKeyPair (pk ss) (replicate 32 x00))) (c_sec c1))) c1).
Proof.
  clear Hsc sc. intros Hb E. pose proof (len_pk N ss Hss) as Hp. unfold recvWelcome. mstep (apply wrapE_ret, E).
  cbn [Name Body]. change (beq CmdWelcome CmdWelcome) with true. cbn [negb].
  rewrite decide_False by (unfold welcome_wire, WelcomeBodySize; rewrite !len_app, !len_replicate; lia).
  mstep reflexivity. mstep reflexivity. unfold welcome_wire.
  rewrite (take_app_length' (pk ss)) by (unfold len in *; lia).
  rewrite (take_mid 32 96) by done. rewrite fixed32, fixed_id by done.
  rewrite app_assoc, drop_app_length', take_ge, all_zero_replicate
    by (unfold len in *; rewrite ?length_app, ?length_replicate; lia).
  done.
Qed.

Lemma recvReady_step c c1 raw md st ct :
  RecvCmd c = (Ret (mkCmd CmdReady (ready_wire N sc ss raw)), c1) →
  cv_serverTransient (c_sec c1) = Some st → kp_Public st = pk ss →
  cv_clientTransient (c_sec c1) = Some ct → kp_Secret ct = sc →
  announces toTitle raw md → c_PeerMeta c1 = ∅ →
  recvReady N toTitle spare RecvCmd c = (Ret tt, set_peer (c_PeerServer c1) md c1).
Proof.
  intros E Hst Pst Hct Sct Ha Hp. unfold recvReady. mstep (apply wrapE_ret, E).
  cbn [Name Body]. change (beq CmdReady CmdReady) with true. cbn [negb].
  mstep reflexivity. mstep (rewrite Hst; reflexivity). mstep (rewrite Hct; reflexivity).
  rewrite Pst, Sct. unfold ready_wire. rewrite open_seal by done.
  unfold cv_peerMeta. apply wrapE_ret, (on_peerMeta_announced toTitle spare raw md c1 Ha Hp).
Qed.

Lemma open_cookie_step c sk now now' st :
  len sk = 32 → cv_keyPair (c_sec c) = Some (mkKeyPair (pk sk) sk) →
  cv_serverTransient (c_sec c) = Some st →
  0 <= now < 2 ^ 63 → 0 <= now' < 2 ^ 63 → now' - now <= 60 →
  open_cookie N now' (cookie_wire N sk sc ss now) c =
    (Ret (pk sc), set_sec (SetServerTransient (Some (mkKeyPair (kp_Public st) ss)) (c_sec c)) c).
Proof.
  intros Hsk Hk Hst Hn Hn' Hage. pose proof (len_pk N sc Hsc) as Hp. unfold open_cookie. mstep reflexivity.
  mstep (rewrite Hk; reflexivity). cbn [kp_Public kp_Secret]. rewrite fixed32 by done.
  pose proof (len_cookie_wire N sc ss Hsc Hss sk now) as Hc. pose proof (len_cookie_box N sc ss Hsc Hss sk now) as Hb.
  rewrite actualCookie_88 by (unfold len in Hc; lia). unfold cookie_wire.
  rewrite take_app_length' by (unfold len in Hb; lia). rewrite open_seal by done.
  rewrite decide_False by (rewrite !len_app, len_be_put; lia).
  mstep (rewrite Hst; reflexivity). mstep reflexivity.
  rewrite (take_mid 32 32) by done. rewrite (take_app_length' (pk sc)) by (unfold len in *; lia).
  rewrite app_assoc, drop_app_length' by (unfold len in *; rewrite length_app; lia).
  rewrite take_ge by (by rewrite length_be_put). rewrite be_get_put_small by (simpl; lia).
  rewrite wraps_small by (simpl; lia). unfold cookie_expired.
  rewrite wraps_small by (simpl; lia). rewrite (proj2 (Z.ltb_ge 60 (now' - now))) by lia.
  by rewrite !fixed32.
Qed.

Lemma recvInitiate_step c c1 sk cp raw md now now' ct :
  len sk = 32 → len cp = 32 →
  RecvCmd c = (Ret (mkCmd CmdInitiate
    (initiate_wire N (pk sk) (cookie_wire N sk sc ss now) sc ss cp raw)), c1) →
  cv_keyPair (c_sec c1) = Some (mkKeyPair (pk sk) sk) →
  cv_serverTransient (c_sec c1) = Some (mkKeyPair (pk ss) ss) →
  cv_clientTransient (c_sec c1) = Some ct → kp_Public ct = pk sc →
  0 <= now < 2 ^ 63 → 0 <= now' < 2 ^ 63 → now' - now <= 60 →
  announces toTitle raw md → c_PeerMeta c1 = ∅ →
  recvInitiate N toTitle spare RecvCmd now' c =
    (Ret tt, set_sec (set_serverKey cp (SetServerTransient (Some (mkKeyPair (pk ss) ss)) (c_sec c1)))
               (set_peer (c_PeerServer c1) md c1)).
Proof.
  intros Hsk Hcp E Hk Hst Hct Pct Hn Hn' Hage Ha Hp.
  pose proof (len_pk N sc Hsc) as Hpc. pose proof (len_pk N ss Hss) as Hps.
  pose proof (len_cookie_wire N sc ss Hsc Hss sk now) as Hc. pose proof (len_nonneg raw) as Hr.
  unfold recvInitiate. mstep (apply wrapE_ret, E). cbn [Name Body].
  change (beq CmdInitiate CmdInitiate) with true. cbn [negb].
  set (mbox := box_Seal N (pk ss ++ cp ++ raw) (handshakeNonce "INITIATE") (pk ss) sc).
  set (vbox := box_Seal N cp (handshakeNonce "VOUCH---") (pk sk) sc).
  assert (len mbox = 80 + len raw) as Hm by (unfold mbox; rewrite seal_length, !len_app; lia).
  assert (len vbox = 48) as Hv by (unfold vbox; rewrite seal_length; lia).
  change (initiate_wire N (pk sk) (cookie_wire N sk sc ss now) sc ss cp raw)
    with (cookie_wire N sk sc ss now ++ pk sc ++ mbox ++ vbox).
  set (body := cookie_wire N sk sc ss now ++ pk sc ++ mbox ++ vbox).
  assert (len body = 256 + len raw) as Hlb by (unfold body; rewrite !len_app; lia).
  rewrite decide_False by (unfold InitiateBodySize; lia). rewrite decide_False by lia.
  assert (take 96 body = cookie_wire N sk sc ss now) as -> by (apply take_app_length'; unfold len in *; lia).
  mstep (exact (open_cookie_step c1 sk now now' _ Hsk Hk Hst Hn Hn' Hage)).
  rewrite decide_False by (unfold KeySize; lia). cbn [kp_Public].
  mstep reflexivity. mstep (cbn; rewrite Hct; reflexivity). mstep reflexivity. mstep (cbn; rewrite Hk; reflexivity).
  assert (take 32 (drop 96 body) = pk sc) as -> by (by apply (take_mid 96 32)).
  rewrite fixed32, !bytesEqual_spec by done. unfold beq at 1. rewrite bool_decide_eq_true_2 by done.
  rewrite Pct. unfold beq at 1. rewrite bool_decide_eq_true_2 by done. cbn [negb].
  rewrite decide_False by lia.
  assert (take (length body - 48) body = cookie_wire N sk sc ss now ++ pk sc ++ mbox) as ->.
  { unfold body. rewrite !app_assoc. apply take_app_length'. unfold len in *. rewrite !length_app in *. lia. }
  assert (drop (length body - 48) body = vbox) as ->.
  { unfold body. rewrite !app_assoc. apply drop_app_length'. unfold len in *. rewrite !length_app in *. lia. }
  rewrite app_assoc, drop_app_length' by (unfold len in *; rewrite length_app; lia).
  cbn [kp_Secret kp_Public]. unfold mbox. rewrite open_seal by done.
  rewrite decide_False by (unfold KeySize; rewrite !len_app; lia).
  rewrite (take_app_length' (pk ss)) by (unfold len in *; lia).
  rewrite bytesEqual_spec. unfold beq at 1. rewrite bool_decide_eq_true_2 by done. cbn [negb].
  rewrite (take_mid 32 32) by done.
  rewrite (app_assoc (pk ss) cp raw), drop_app_length' by (unfold len in *; rewrite length_app; lia).
  mstep (unfold cv_peerMeta; apply wrapE_ret; refine (on_peerMeta_announced toTitle spare raw md _ Ha _); exact Hp).
  rewrite decide_False by lia. unfold vbox. rewrite open_seal by done.
  rewrite decide_False by (unfold KeySize; lia).
  rewrite fixed32, bytesEqual_spec by done. unfold beq. rewrite bool_decide_eq_true_2 by done. cbn [negb].
  rewrite fixed32 by done. done.
Qed.
End steps.


(** ** The two roles *)

(** A way of writing commands: what [SendCmd name body] puts on the wire. *)
Definition writes (SendCmd : bytes → bytes → M (Conn Security) unit) (W : bytes → bytes → bytes) : Prop :=
  ∀ name body c, isCurveHandshakeCommand name = true → writable c → c_closed c = false →
    SendCmd name body c = (Ret tt, wrote (W name body) c).

(** A command with its name, as ZMTP defines it and as [RecvCmd] reads it. *)
Definition named (name body : bytes) : bytes := msg_wire true [cmd_body name body].

Section roles.
Context (N : nacl) `{!NaclLaws N}.
Context (toTitle ToLower : bytes → bytes).
Context (range : Metadata → list (bytes * bytes)) (room : bytes → nat).
Context (spare : bytes → bytes) (maxAlloc : Z) (Hma : 2048 <= maxAlloc <= maxInt64).
Context (SendCmd : bytes → bytes → M (Conn Security) unit) (W : bytes → bytes → bytes) (HW : writes SendCmd W).
Context (sc ss : bytes) (Hsc : len sc = 32) (Hss : len ss = 32).
#[local] Abbreviation pk := (box_public N).
#[local] Abbreviation RecvCmd := (Conn_RecvCmd (curveSecurity N) maxAlloc).
Implicit Types c : Conn Security.

(** Until the handshake is complete commands are read as they are. *)
Lemma opens_to_handshake c b :
  cv_handshakeState (c_sec c) ≠ HandshakeComplete → opens_to (curveSecurity N) true c b b.
Proof.
  intros Hs r. change (beq (sec_Type (curveSecurity N)) NullSecurity) with false.
  change (beq (sec_Type (curveSecurity N)) CurveSecurity) with true. cbn [andb orb].
  assert (isCurveHandshake (curveSecurity N) (reading r c) = true) as ->; [|done].
  unfold isCurveHandshake. cbn. by destruct (cv_handshakeState (c_sec c)).
Qed.

Lemma recv_named name body c r :
  len name <= 255 → len body <= 1024 → cv_handshakeState (c_sec c) ≠ HandshakeComplete →
  nc_open (c_rw c) = true → c_closed c = false → nc_in (c_rw c) = named name body ++ r →
  RecvCmd c = (Ret (mkCmd name body), reading r c).
Proof. intros. apply RecvCmd_bodies; try done; try lia. by apply opens_to_handshake. Qed.

(** The first box of HELLO, which the server does not open. *)
Definition hello_box (sp : bytes) : bytes :=
  take 40 (box_Seal N (replicate 64 x00) (handshakeNonce "HELLO---") sp sc).

Lemma len_hello_box sp : len (hello_box sp) = 40.
Proof.
  unfold hello_box. pose proof (seal_length (replicate 64 x00) (handshakeNonce "HELLO---") sp sc) as H.
  rewrite len_replicate in H. unfold len in *. rewrite length_take. lia.
Qed.

(** What a client with permanent public key [cp] and server key [sp] writes. *)
Definition client_script (sp cp cookie raw : bytes) : bytes :=
  W CmdHello (hello_wire N sc (hello_box sp)) ++ W CmdInitiate (initiate_wire N sp cookie sc ss cp raw).

(** What a server writes. *)
Definition server_script (cookie raw : bytes) : bytes :=
  W CmdWelcome (welcome_wire N ss cookie) ++ W CmdReady (ready_wire N sc ss raw).

Lemma client_run c keys cookie raw raw' md' r :
  cv_isServer (c_sec c) = false → cv_keyPair (c_sec c) = Some keys → len (kp_Public keys) = 32 →
  writable c → c_closed c = false → c_PeerMeta c = ∅ → len cookie = 96 →
  Metadata_MarshalZMTP toTitle ToLower range room (c_Meta c) = Ret raw → announces toTitle raw' md' →
  nc_in (c_rw c) = named CmdWelcome (welcome_wire N ss cookie) ++ named CmdReady (ready_wire N sc ss raw') ++ r →
  ∃ s', clientHandshake N toTitle ToLower range room spare SendCmd RecvCmd (Ret (mkKeyPair (pk sc) sc)) c =
      (Ret tt, set_sec s' (set_peer (c_PeerServer c) md'
         (reading r (wrote (client_script (cv_serverKey (c_sec c)) (kp_Public keys) cookie raw) c)))) ∧
    established N sc ss s' ∧ has_sent 0 s' ∧ cv_isServer s' = false.
Proof.
  intros Hrole Hk Hkp Hw Hcl Hp Hcook Hm Ha Hin.
  set (S := c_sec c) in *. eexists. split.
  - replace c with (set_sec S c) at 1 by apply set_sec_id. unfold clientHandshake. hstep (apply cv_upd_step). hstep (apply cv_upd_step). hstep (apply cv_upd_step).
    hstep (apply wrapE_ret; unfold sendHello; mstep (apply cv_get_step); mstep (by apply nonnil_step);
      mstep (by apply lift_ret, hello_body_wire); by apply HW).
    hstep (apply wrapE_ret; eapply (recvWelcome_step N RecvCmd ss Hss _ _ cookie Hcook);
      eapply recv_named; [done| |done|apply Hw|exact Hcl|exact Hin];
      unfold welcome_wire; rewrite !len_app, len_replicate, len_pk by done; lia).
    hstep (apply cv_upd_step). hstep (apply cv_upd_step).
    hstep (apply wrapE_ret; unfold sendInitiate; mstep (apply cv_get_step);
      cbn [cv_cookie set_cookie set_handshake]; rewrite decide_False by lia;
      mstep (unfold cv_metadata; mstep reflexivity; apply wrapE_ret, lift_ret; exact Hm);
      mstep (by apply nonnil_step); mstep (by apply nonnil_step); mstep (apply nonnil_step; exact Hk);
      mstep (by apply lift_ret, (initiate_body_wire N sc ss)); by apply HW).
    hstep (apply wrapE_ret; eapply (recvReady_step N toTitle spare RecvCmd sc ss Hsc Hss _ _ raw' md');
      [eapply recv_named;
        [done|unfold ready_wire; rewrite seal_length; destruct Ha; lia|done|apply Hw|exact Hcl|reflexivity]
      |done|done|done|done|exact Ha|exact Hp]).
    hstep (apply cv_upd_step). unfold cv_complete. hstep (apply cv_upd_step). hstep (apply cv_upd_step).
    rewrite cv_upd_step. reflexivity.
  - split_and!; [split; try done; cbn; by rewrite Hrole|unfold has_sent; cbn; by rewrite Hrole|exact Hrole].
Qed.

Lemma server_run c sk cp box40 raw raw' md' now now' r :
  cv_isServer (c_sec c) = true → cv_keyPair (c_sec c) = Some (mkKeyPair (pk sk) sk) → len sk = 32 → len cp = 32 →
  writable c → c_closed c = false → c_PeerMeta c = ∅ → len box40 = 40 →
  0 <= now < 2 ^ 63 → 0 <= now' < 2 ^ 63 → now' - now <= 60 →
  Metadata_MarshalZMTP toTitle ToLower range room (c_Meta c) = Ret raw → announces toTitle raw' md' →
  nc_in (c_rw c) = named CmdHello (hello_wire N sc box40) ++
    named CmdInitiate (initiate_wire N (pk sk) (cookie_wire N sk sc ss now) sc ss cp raw') ++ r →
  ∃ s', serverHandshake N toTitle ToLower range room spare SendCmd RecvCmd (Ret (mkKeyPair (pk ss) ss)) now now' c =
      (Ret tt, set_sec s' (set_peer (c_PeerServer c) md'
         (reading r (wrote (server_script (cookie_wire N sk sc ss now) raw) c)))) ∧
    established N sc ss s' ∧ has_sent 0 s' ∧ cv_isServer s' = true ∧ cv_serverKey s' = cp.
Proof.
  intros Hrole Hk Hsk Hcp Hw Hcl Hp Hbox Hn Hn' Hage Hm Ha Hin.
  pose proof (len_pk N sc Hsc) as Hpc. pose proof (len_pk N ss Hss) as Hps.
  pose proof (len_cookie_wire N sc ss Hsc Hss sk now) as Hck.
  set (S := c_sec c) in *. eexists. split.
  - replace c with (set_sec S c) at 1 by apply set_sec_id. unfold serverHandshake. hstep (apply cv_upd_step).
    hstep (apply wrapE_ret; eapply (recvHello_step N RecvCmd sc Hsc _ _ box40 Hbox);
      eapply recv_named; [done| |done|apply Hw|exact Hcl|exact Hin];
      unfold hello_wire; rewrite !len_app, !len_replicate; lia).
    hstep (apply cv_upd_step). hstep (apply cv_upd_step). hstep (apply cv_upd_step).
    hstep (apply wrapE_ret; unfold sendWelcome; mstep (apply cv_get_step);
      mstep (by apply nonnil_step); mstep (by apply nonnil_step); mstep (apply nonnil_step; exact Hk);
      mstep (by apply lift_ret, (welcome_body_wire N sc ss)); by apply HW).
    hstep (apply wrapE_ret; eapply (recvInitiate_step N toTitle spare RecvCmd sc ss Hsc Hss _ _ sk cp raw' md' now now');
      [exact Hsk|exact Hcp
      |eapply recv_named;
        [done|unfold initiate_wire; rewrite !len_app, !seal_length, !len_app; destruct Ha; lia
        |done|apply Hw|exact Hcl|reflexivity]
      |exact Hk|done|done|done|exact Hn|exact Hn'|exact Hage|exact Ha|exact Hp]).
    hstep (apply cv_upd_step). hstep (apply cv_upd_step).
    hstep (apply wrapE_ret; unfold sendReady;
      mstep (unfold cv_metadata; mstep reflexivity; apply wrapE_ret, lift_ret; exact Hm);
      mstep (apply cv_get_step); mstep (by apply nonnil_step); mstep (by apply nonnil_step); by apply HW).
    unfold cv_complete. hstep (apply cv_upd_step). hstep (apply cv_upd_step). rewrite cv_upd_step. reflexivity.
  - split_and!; [split; try done; cbn; by rewrite Hrole|unfold has_sent; cbn; by rewrite Hrole|exact Hrole|done].
Qed.
End roles.

(** ** Opening a connection *)

(** [SendCmd] as ZMTP frames a command: a command frame that holds its name. *)
Definition named_SendCmd (name body : bytes) : M (Conn Security) unit :=
  c ← mget;
  if Conn_Closed c then mfail ErrClosedConn else checked (on_rw (rw_write (named name body))).

Lemma named_SendCmd_writes : writes named_SendCmd named.
Proof.
  intros name body c _ Hw Hc. unfold named_SendCmd. mstep reflexivity. unfold Conn_Closed. rewrite Hc.
  by apply checked_write.
Qed.

(** [SendCmd] of a connection: for CURVE the frame is the body alone. *)
Lemma conn_SendCmd_writes N : writes (Conn_SendCmd (curveSecurity N)) (fun _ body => frame_wire false true body).
Proof.
  intros name body c Hn Hw Hc. unfold Conn_SendCmd. mstep reflexivity. unfold Conn_Closed. rewrite Hc.
  unfold Conn_sendCmd. rewrite Hn. change (beq (sec_Type (curveSecurity N)) CurveSecurity) with true. cbn [andb].
  cbn [sec_EncryptHandshakeCommand curveSecurity]. unfold sendWithCurveHandshakeEncryption.
  assert (EncryptHandshakeCommand name body (c_sec c) = (Ret body, c_sec c)) as E.
  { unfold EncryptHandshakeCommand. unfold isCurveHandshakeCommand in Hn.
    change (gs "HELLO") with CmdHello. change (gs "WELCOME") with CmdWelcome.
    change (gs "INITIATE") with CmdInitiate. change (gs "READY") with CmdReady.
    destruct (beq name CmdHello), (beq name CmdWelcome), (beq name CmdInitiate), (beq name CmdReady); done. }
  mstep (by apply checked_write). apply checked_ret. mstep (apply on_sec_ret; exact E).
  rewrite on_rw_write by done. unfold frame_wire. rewrite <- send_flag, <- wrote_wrote. by destruct c.
Qed.

(** [Open] with the CURVE mechanism and a way of sending commands. *)
Definition curve_Open (N : nacl) (toTitle ToLower : bytes → bytes) (maxAlloc : Z) (p : platform)
    (SendCmd : bytes → bytes → M (Conn Security) unit) (gen : outcome KeyPair) (now now' : Z) :=
  Open (curveSecurity N)
    (curve_Handshake N toTitle ToLower (p_range p) (p_room p) (p_spare p) SendCmd
       (Conn_RecvCmd (curveSecurity N) maxAlloc) gen now now').

(** The verdict of [Open] for an end of a session with secrets [sc], [ss]. *)
Definition curve_verdict (N : nacl) (typ typ' : SocketType) (id' out rest sc ss : bytes) (server : bool)
    (o : outcome (Conn Security)) : Prop :=
  if compatible typ typ'
  then opened out typ' id' rest o ∧
       ∃ c, o = Ret c ∧ established N sc ss (c_sec c) ∧ has_sent 0 (c_sec c) ∧ cv_isServer (c_sec c) = server
  else not_compatible o.

Lemma curve_verdict_run N typ typ' id id' q rest sc ss server st cb e HS inp q' s' :
  typ ∈ socket_types → typ' ∈ socket_types →
  inp = greeting_wire CurveSecurity ++ q' ++ rest →
  (let c0 := set_peer false ∅ (reading (q' ++ rest) (wrote (greeting_wire CurveSecurity)
      (newConn (fresh_net inp e) st typ id server cb))) in
   HS server c0 = (Ret tt, set_sec s' (set_peer (c_PeerServer c0)
      (sys_metadata typ' (SocketIdentity_String id')) (reading rest (wrote q c0))))) →
  established N sc ss s' → has_sent 0 s' → cv_isServer s' = server →
  curve_verdict N typ typ' id' (greeting_wire CurveSecurity ++ q) rest sc ss server
    (Open (curveSecurity N) HS (Some (fresh_net inp e)) (Some st) typ id server cb).
Proof.
  intros Ht Ht' Hinp Hrun He Hs Hr.
  rewrite (Open_handshake (curveSecurity N) HS st typ id server cb inp (q' ++ rest) e _
    ltac:(by split; [|repeat constructor]) Hinp Hrun eq_refl).
  match goal with |- curve_verdict _ _ _ _ _ _ _ _ _ (match IsCompatible (default [] (c_PeerMeta ?c !! _)) _ with _ => _ end) =>
    set (c' := c) end.
  pose proof (Open_verdict c' (greeting_wire CurveSecurity ++ q) typ typ' id' rest eq_refl eq_refl eq_refl
    eq_refl eq_refl eq_refl Ht Ht') as V. cbv zeta in V. unfold curve_verdict.
  destruct (compatible typ typ') eqn:Ec; [|exact V]. split; [exact V|].
  destruct V as (c2 & Eo & _). exists c2. split; [exact Eo|].
  destruct (IsCompatible _ typ) as [[]| |]; try done. injection Eo as <-. done.
Qed.



(** What the handshake does not authenticate. The client completes with
    any peer: WELCOME is in clear and READY is sealed with transient keys
    only, so whoever picks a transient secret [ss] and any 96 bytes as cookie
    is accepted, whatever server key [sp] the client was given. The server
    completes with any client: the vouch is sealed with the transient secret,
    so whoever picks [sc] is recorded under any public key [cp] of 32 bytes,
    without its secret; the box in HELLO can be any 40 bytes. *)
Theorem curve_no_authentication (N : nacl) `{!NaclLaws N} (toTitle ToLower : bytes → bytes)
    (range : Metadata → list (bytes * bytes)) (room : bytes → nat) (spare : bytes → bytes) (maxAlloc : Z)
    (sc ss raw raw' rest : bytes) (md' : Metadata) (c : Conn Security) :
  2048 <= maxAlloc <= maxInt64 → len sc = 32 → len ss = 32 →
  writable c → c_closed c = false → c_PeerMeta c = ∅ →
  Metadata_MarshalZMTP toTitle ToLower range room (c_Meta c) = Ret raw → announces toTitle raw' md' →
  (∀ keys sp cookie,
     len (kp_Public keys) = 32 → len cookie = 96 → c_sec c = NewClientSecurity (Some keys) sp →
     nc_in (c_rw c) = named CmdWelcome (box_public N ss ++ cookie ++ replicate 40 x00) ++
                      named CmdReady (box_Seal N raw' ready_nonce (box_public N sc) ss) ++ rest →
     ∃ c', clientHandshake N toTitle ToLower range room spare named_SendCmd
             (Conn_RecvCmd (curveSecurity N) maxAlloc) (Ret (mkKeyPair (box_public N sc) sc)) c = (Ret tt, c') ∧
       established N sc ss (c_sec c')) ∧
  (∀ sk cp box40 now now',
     len sk = 32 → len cp = 32 → len box40 = 40 →
     0 <= now < 2 ^ 63 → 0 <= now' < 2 ^ 63 → now' - now <= 60 →
     c_sec c = NewServerSecurity (Some (mkKeyPair (box_public N sk) sk)) →
     nc_in (c_rw c) =
       named CmdHello (replicate 64 x00 ++ box_public N sc ++ replicate 64 x00 ++ box40) ++
       named CmdInitiate (cookie_wire N sk sc ss now ++ box_public N sc ++
         box_Seal N (box_public N ss ++ cp ++ raw') (handshakeNonce "INITIATE") (box_public N ss) sc ++
         box_Seal N cp (handshakeNonce "VOUCH---") (box_public N sk) sc) ++ rest →
     ∃ c', serverHandshake N toTitle ToLower range room spare named_SendCmd
             (Conn_RecvCmd (curveSecurity N) maxAlloc) (Ret (mkKeyPair (box_public N ss) ss)) now now' c = (Ret tt, c') ∧
       established N sc ss (c_sec c') ∧ cv_serverKey (c_sec c') = cp).
Proof.
  intros Hma Hsc Hss Hw Hcl Hp Hm Ha. split.
  - intros keys sp cookie Hk Hc Hsec Hin.
    destruct (client_run N toTitle ToLower range room spare maxAlloc Hma named_SendCmd named named_SendCmd_writes
      sc ss Hsc Hss c keys cookie raw raw' md' rest) as (s' & E & He & _); try done; try (by rewrite Hsec).
    eexists. split; [exact E|done].
  - intros sk cp box40 now now' Hsk Hcp Hb Hn Hn' Hage Hsec Hin.
    destruct (server_run N toTitle ToLower range room spare maxAlloc Hma named_SendCmd named named_SendCmd_writes
      sc ss Hsc Hss c sk cp box40 raw raw' md' now now' rest) as (s' & E & He & _ & _ & Hkey); try done; try (by rewrite Hsec).
    eexists. split; [exact E|done].
Qed.

(** A connection before the handshake, for examples. *)
Definition ex_fresh (st : Security) (inp : bytes) : Conn Security :=
  newConn (fresh_net inp EOF) st Req (gs "me") (cv_isServer st) None.

Lemma curve_no_authentication_witness :
  ∃ raw inp c',
    announces ascii_title raw (sys_metadata Rep (SocketIdentity_String [])) ∧
    clientHandshake toy_nacl ascii_title ascii_lower (p_range go_platform) (p_room go_platform) (p_spare go_platform)
      named_SendCmd (Conn_RecvCmd (curveSecurity toy_nacl) 4096)
      (Ret (mkKeyPair (toy_public (replicate 32 x01)) (replicate 32 x01)))
      (ex_fresh (NewClientSecurity (Some KeyPair0) (replicate 32 x09)) inp) = (Ret tt, c') ∧
    established toy_nacl (replicate 32 x01) (replicate 32 x02) (c_sec c').
Proof.
  destruct (platform_announces ascii_title ascii_lower go_platform Req (gs "me") ascii_case_maps go_platform_ok)
    as (raw & Hm & _); [vm_compute; repeat constructor|].
  destruct (platform_announces ascii_title ascii_lower go_platform Rep [] ascii_case_maps go_platform_ok)
    as (raw' & _ & Ha); [vm_compute; repeat constructor|].
  exists raw'.
  set (inp := named CmdWelcome (toy_public (replicate 32 x02) ++ replicate 96 x00 ++ replicate 40 x00) ++
    named CmdReady (box_Seal toy_nacl raw' ready_nonce (toy_public (replicate 32 x01)) (replicate 32 x02)) ++ []).
  exists inp.
  destruct (proj1 (curve_no_authentication toy_nacl ascii_title ascii_lower (p_range go_platform) (p_room go_platform)
    (p_spare go_platform) 4096 (replicate 32 x01) (replicate 32 x02) raw raw' []
    (sys_metadata Rep (SocketIdentity_String []))
    (ex_fresh (NewClientSecurity (Some KeyPair0) (replicate 32 x09)) inp)
    ltac:(unfold maxInt64; lia) eq_refl eq_refl (conj eq_refl eq_refl) eq_refl eq_refl Hm Ha)
    KeyPair0 (replicate 32 x09) (replicate 96 x00) eq_refl eq_refl eq_refl eq_refl) as (c' & E & He).
  exists c'. exact (conj Ha (conj E He)).
Defined.

(** The name a nameless command is read with. *)
Lemma recv_nameless N maxAlloc body c r b0 :
  2048 <= maxAlloc <= maxInt64 → 0 < len body <= 1024 → body !! 0%nat = Some b0 → b0 = x00 →
  cv_handshakeState (c_sec c) ≠ HandshakeComplete →
  nc_open (c_rw c) = true → c_closed c = false → nc_in (c_rw c) = frame_wire false true body ++ r →
  Conn_RecvCmd (curveSecurity N) maxAlloc c = (Ret (mkCmd [] (drop 1 body)), reading r c).
Proof.
  intros Hma Hb H0 -> Hs Ho Hc Hin. destruct body as [|x body]; [done|]. injection H0 as ->.
  change (frame_wire false true (x00 :: body)) with (frame_wire false true (cmd_body [] body)) in Hin.
  apply (RecvCmd_bodies (curveSecurity N) maxAlloc [] body c r); [done| |lia|done|done|by apply opens_to_handshake|].
  - rewrite len_cons in Hb. change (len (@nil byte)) with 0. lia.
  - rewrite Hin. cbn [msg_wire]. by rewrite app_nil_r.
Qed.

Lemma Conn_RecvCmd_end N maxAlloc c :
  nc_open (c_rw c) = true → c_closed c = false → nc_in (c_rw c) = [] →
  ∃ c', Conn_RecvCmd (curveSecurity N) maxAlloc c = (Fail (Wrap "zmq4: could not read recv cmd" (nc_end (c_rw c))), c') ∧
        nc_out (c_rw c') = nc_out (c_rw c).
Proof.
  intros Ho Hc Hin.
  set (c1 := set_rw (mkNet [] (nc_end (c_rw c)) (nc_out (c_rw c)) (nc_room (c_rw c)) (nc_werr (c_rw c)) true) c).
  destruct (Conn_checkIO_ret (Some (nc_end (c_rw c))) c1) as (c2 & E & Hrw).
  exists c2. split; [|by rewrite Hrw].
  unfold Conn_RecvCmd. mstep reflexivity. unfold Conn_Closed. rewrite Hc.
  mstep (unfold Conn_read; rewrite Nat.add_1_r; cbn [read_loop];
    mstep (unfold read_rw; mstep (unfold try, on_rw, rw_readfull; rewrite decide_False by done;
        rewrite Ho, Hin; cbn [negb]; rewrite decide_False by (simpl; lia); cbn; reflexivity);
      mstep (exact E); reflexivity); reflexivity).
  cbn [msgerr]. done.
Qed.

(** C25. The handshake over [Conn.SendCmd]: it writes the body of a CURVE
    handshake command without the name that [RecvCmd] expects in front of it.
    Connect any client to any server with this code on both sides: the server
    takes the first zero byte of HELLO for the length of an empty name, fails
    with "expected HELLO" and has written nothing; the client, which has
    written HELLO, gets no WELCOME and fails when the connection ends. *)
Theorem curve_handshake_fails (N : nacl) `{!NaclLaws N} (toTitle ToLower : bytes → bytes)
    (range : Metadata → list (bytes * bytes)) (room : bytes → nat) (spare : bytes → bytes) (maxAlloc : Z)
    (sc : bytes) (gen : outcome KeyPair) (now now' : Z) (c d : Conn Security) (rest : bytes) :
  2048 <= maxAlloc <= maxInt64 → len sc = 32 →
  writable c → c_closed c = false → nc_in (c_rw c) = [] →
  nc_open (c_rw d) = true → c_closed d = false →
  let SendCmd := Conn_SendCmd (curveSecurity N) in
  let RecvCmd := Conn_RecvCmd (curveSecurity N) maxAlloc in
  ∃ w c' d',
    clientHandshake N toTitle ToLower range room spare SendCmd RecvCmd (Ret (mkKeyPair (box_public N sc) sc)) c =
      (Fail (Wrap "curve: failed to receive WELCOME" (Wrap "curve: could not receive WELCOME"
         (Wrap "zmq4: could not read recv cmd" (nc_end (c_rw c))))), c') ∧
    nc_out (c_rw c') = nc_out (c_rw c) ++ w ∧
    serverHandshake N toTitle ToLower range room spare SendCmd RecvCmd gen now now' (reading (w ++ rest) d) =
      (Fail (Wrap "curve: failed to receive HELLO" (Errorf "curve: expected HELLO")), d') ∧
    nc_out (c_rw d') = nc_out (c_rw d).
Proof.
  intros Hma Hsc Hw Hcl Hin Ho Hcd SendCmd RecvCmd.
  set (hello := hello_wire N sc (hello_box N sc (cv_serverKey (c_sec c)))).
  assert (len hello = 200) as Hl.
  { unfold hello, hello_wire. rewrite !len_app, !len_replicate, len_pk, len_hello_box by done. lia. }
  set (c1 := set_sec (set_handshake HandshakeHello (SetClientTransient (Some (mkKeyPair (box_public N sc) sc))
    (set_handshake HandshakeInit (c_sec c)))) (wrote (frame_wire false true hello) c)).
  destruct (Conn_RecvCmd_end N maxAlloc c1) as (c2 & E2 & Ho2); [apply Hw|exact Hcl|exact Hin|].
  exists (frame_wire false true hello), c2. eexists. split_and!.
  - replace c with (set_sec (c_sec c) c) at 1 by apply set_sec_id.
    unfold clientHandshake. hstep (apply cv_upd_step). hstep (apply cv_upd_step). hstep (apply cv_upd_step).
    hstep (apply wrapE_ret; unfold sendHello; mstep (apply cv_get_step); mstep (by apply nonnil_step);
      mstep (by apply lift_ret, hello_body_wire); by apply (conn_SendCmd_writes N)).
    apply M_bind_fail. unfold wrapE at 1. unfold recvWelcome.
    rewrite (M_bind_fail _ _ c1 (Wrap "curve: could not receive WELCOME" (Wrap "zmq4: could not read recv cmd" (nc_end (c_rw c)))) c2).
    + done.
    + unfold wrapE, RecvCmd. by rewrite E2.
  - by rewrite Ho2.
  - replace (reading (frame_wire false true hello ++ rest) d)
      with (set_sec (c_sec d) (reading (frame_wire false true hello ++ rest) d)) by (by destruct d).
    unfold serverHandshake. hstep (apply cv_upd_step). apply M_bind_fail. unfold wrapE at 1, recvHello.
    rewrite (M_bind_ret _ _ _ (mkCmd [] (drop 1 hello)) (reading rest (set_sec (set_handshake HandshakeInit (c_sec d))
        (reading (frame_wire false true hello ++ rest) d)))).
    + reflexivity.
    + apply wrapE_ret. by apply (recv_nameless N maxAlloc hello _ rest x00); [done|lia|..].
  - done.
Qed.

Lemma curve_handshake_fails_witness :
  ∃ w c' d',
    clientHandshake toy_nacl ascii_title ascii_lower map_to_list (fun _ => 512%nat) (fun _ => [])
      (Conn_SendCmd (curveSecurity toy_nacl)) (Conn_RecvCmd (curveSecurity toy_nacl) 4096)
      (Ret (mkKeyPair (toy_public (replicate 32 x01)) (replicate 32 x01)))
      (ex_fresh (NewClientSecurity (Some KeyPair0) (replicate 32 x09)) []) =
      (Fail (Wrap "curve: failed to receive WELCOME" (Wrap "curve: could not receive WELCOME"
         (Wrap "zmq4: could not read recv cmd" EOF))), c') ∧
    nc_out (c_rw c') = [] ++ w ∧
    serverHandshake toy_nacl ascii_title ascii_lower map_to_list (fun _ => 512%nat) (fun _ => [])
      (Conn_SendCmd (curveSecurity toy_nacl)) (Conn_RecvCmd (curveSecurity toy_nacl) 4096)
      (Ret KeyPair0) 0 0 (reading (w ++ []) (ex_fresh (NewServerSecurity (Some KeyPair0)) [])) =
      (Fail (Wrap "curve: failed to receive HELLO" (Errorf "curve: expected HELLO")), d') ∧
    nc_out (c_rw d') = [].
Proof.
  exact (curve_handshake_fails toy_nacl ascii_title ascii_lower map_to_list (fun _ => 512%nat) (fun _ => []) 4096
    (replicate 32 x01) (Ret KeyPair0) 0 0 (ex_fresh (NewClientSecurity (Some KeyPair0) (replicate 32 x09)) [])
    (ex_fresh (NewServerSecurity (Some KeyPair0)) []) [] ltac:(unfold maxInt64; lia) eq_refl (conj eq_refl eq_refl)
    eq_refl eq_refl eq_refl eq_refl).
Defined.

(** A socket gives the same mechanism to all its connections. A server
    handshake overwrites whatever session the mechanism was in: from then on
    a message sent on any of the connections is a message of the new session,
    which the new client reads. *)
Theorem curve_shared_mechanism (N : nacl) `{!NaclLaws N} (toTitle ToLower : bytes → bytes)
    (range : Metadata → list (bytes * bytes)) (room : bytes → nat) (spare : bytes → bytes) (maxAlloc : Z)
    (sc ss sk cp box40 raw raw' rest d : bytes) (more : bool) (md' : Metadata) (now now' : Z)
    (c : Conn Security) (p : Security) :
  2048 <= maxAlloc <= maxInt64 → len sc = 32 → len ss = 32 → len sk = 32 → len cp = 32 → len box40 = 40 →
  cv_isServer (c_sec c) = true → cv_keyPair (c_sec c) = Some (mkKeyPair (box_public N sk) sk) →
  writable c → c_closed c = false → c_PeerMeta c = ∅ →
  0 <= now < 2 ^ 63 → 0 <= now' < 2 ^ 63 → now' - now <= 60 →
  Metadata_MarshalZMTP toTitle ToLower range room (c_Meta c) = Ret raw → announces toTitle raw' md' →
  nc_in (c_rw c) = named CmdHello (hello_wire N sc box40) ++
    named CmdInitiate (initiate_wire N (box_public N sk) (cookie_wire N sk sc ss now) sc ss cp raw') ++ rest →
  established N sc ss p →
  ∃ c' w s', serverHandshake N toTitle ToLower range room spare named_SendCmd
      (Conn_RecvCmd (curveSecurity N) maxAlloc) (Ret (mkKeyPair (box_public N ss) ss)) now now' c = (Ret tt, c') ∧
    curve_EncryptWithFlags N d more (c_sec c') = (Ret w, s') ∧
    curve_DecryptWithFlags N w p = (Ret (d, more), p).
Proof.
  intros Hma Hsc Hss Hsk Hcp Hb Hr Hk Hw Hcl Hp Hn Hn' Hage Hm Ha Hin He.
  destruct (server_run N toTitle ToLower range room spare maxAlloc Hma named_SendCmd named named_SendCmd_writes
    sc ss Hsc Hss c sk cp box40 raw raw' md' now now' rest) as (s' & E & He' & _); try done.
  eexists _, _, _. split; [exact E|]. split; [by apply (encrypt_established N sc ss)|].
  apply (decrypt_wire N sc ss); [done|apply length_le_put].
Qed.
