(* ===== verification/Deadline.v ===== *)
(** * Deadline: sending with a deadline (src/protocol_msgio.go,
    src/internal/errgroup/errgroup.go, [Send] and [SendMulti] of
    src/core_socket.go)

    The multi-writer starts a goroutine per connection, each through the error
    group, whose functions return early when the context of the call is done;
    the goroutine that writes to the connection goes on. A connection has no
    lock of its own: [send] makes one [Write] for the header of a frame and one
    for its body. Here the writer is the step relation of those goroutines, over
    connections whose mechanism does not encrypt and which take all writes. *)

From Stdlib Require Import Strings.Byte ZArith Lia.
From stdpp Require Import base strings numbers gmap relations list.
From S2P Require Import Prelude Zmtp Conn ConnFacts.

#[local] Open Scope Z_scope.
#[local] Set Default Goal Selector "!".

(** ** The semaphore *)

(** [sem_ready]: the channel is closed. *)
Record semaphore : Type := mkSem { sem_ready : bool }.
Definition newSemaphore : semaphore := mkSem false.

(** A receive from the closed channel is ready and not [ok]; nothing is ever
    sent, so otherwise the default closes it. *)
Definition sem_enable (s : semaphore) : semaphore := if sem_ready s then s else mkSem true.

(** Whether [lock] returns. *)
Definition sem_lock (done : bool) (s : semaphore) : bool := done || sem_ready s.

(** ** What a call writes *)

(** The [Write] calls of [SendMsg] on a connection that does not encrypt. *)
Fixpoint frame_writes (frames : list bytes) : list bytes :=
  match frames with
  | [] => []
  | f :: rest =>
      frame_header (wire_flag (match rest with [] => false | _ => true end) false (len f)) (len f) ::
      (if decide (f = []) then [] else [f]) ++ frame_writes rest
  end.

(** [sendMulti] makes one. *)
Definition SendMsg_writes (msg : Msg) : list bytes :=
  if multipart msg then [msg_wire false (Frames msg)] else frame_writes (Frames msg).

Lemma concat_frame_writes frames : concat (frame_writes frames) = msg_wire false frames.
Proof.
  induction frames as [|f frames IH]; [done|]. cbn [frame_writes msg_wire concat]. unfold frame_wire.
  rewrite <- app_assoc. f_equal. rewrite concat_app, IH. f_equal. case_decide as H; [by rewrite H|]. cbn. apply app_nil_r.
Qed.

Lemma concat_writes msg : concat (SendMsg_writes msg) = msg_wire false (Frames msg).
Proof. unfold SendMsg_writes. destruct (multipart msg); [apply app_nil_r|apply concat_frame_writes]. Qed.

(** They are what [SendMsg] writes. *)
Lemma SendMsg_writes_spec {SS} (sec : secops SS) `{!Transparent sec} msg (c : Conn SS) :
  writable c → c_closed c = false → Conn_SendMsg sec msg c = (Ret tt, wrote (concat (SendMsg_writes msg)) c).
Proof.
  intros Hw Hc. rewrite concat_writes. unfold Conn_SendMsg. mstep reflexivity. unfold Conn_Closed. rewrite Hc.
  destruct (multipart msg); [|by apply SendMsg_loop_wire].
  unfold Conn_sendMulti. destruct (sendMulti_buffers_wire sec (Frames msg) c) as (bufs & Hb & Hcat).
  mstep exact Hb. rewrite Hcat. by apply checked_write.
Qed.

(** ** The goroutines *)

(** A function of the group: before its first look at the context, waiting for
    the call it has started, or returned. *)
Inductive slot : Type := WStart | WRun | WRet (err : option error).

(** The [write] that holds the mutex; [dc_done]: its context is done. *)
Record wcall : Type := mkWcall { dc_id : nat; dc_msg : Msg; dc_done : bool; dc_slots : list (nat * slot) }.

(** [ds_tasks]: the goroutines in [SendMsg], by call and slot, with the
    connection and the writes left; [ds_results]: the results in the channels;
    [ds_log]: the messages of the calls so far; [ds_out]: what they returned. *)
Record wstate : Type := mkWstate {
  ds_ws : list nat;
  ds_wire : gmap nat bytes;
  ds_tasks : gmap (nat * nat) (nat * list bytes);
  ds_results : gset (nat * nat);
  ds_call : option wcall;
  ds_log : list Msg;
  ds_out : list (nat * option error) }.

Definition wire (s : wstate) (c : nat) : bytes := default [] (ds_wire s !! c).

Definition ContextErr : error := Errorf "context deadline exceeded".

(** [sem.lock(ctx)] and [w.mu.Lock()]; [done]: the deadline has passed. *)
Definition w_call (done : bool) (msg : Msg) (s : wstate) : option wstate :=
  match ds_call s with
  | Some _ => None
  | None =>
      if sem_lock done (mkSem (negb (bool_decide (ds_ws s = [])))) then
        Some (mkWstate (ds_ws s) (ds_wire s) (ds_tasks s) (ds_results s)
          (Some (mkWcall (length (ds_log s)) msg done ((., WStart) <$> ds_ws s))) (ds_log s ++ [msg]) (ds_out s))
      else None
  end.

Definition set_slot (i : nat) (c : nat) (x : slot) (k : wcall) : wcall :=
  mkWcall (dc_id k) (dc_msg k) (dc_done k) (<[i := (c, x)]> (dc_slots k)).
Definition set_ds_call (k : option wcall) (s : wstate) : wstate :=
  mkWstate (ds_ws s) (ds_wire s) (ds_tasks s) (ds_results s) k (ds_log s) (ds_out s).
Definition set_ds_tasks (t : gmap (nat * nat) (nat * list bytes)) (s : wstate) : wstate :=
  mkWstate (ds_ws s) (ds_wire s) t (ds_results s) (ds_call s) (ds_log s) (ds_out s).

(** The first half of the function [wrap] returns: a context that is done ends
    it, otherwise the goroutine is started. *)
Definition wrap_start (i : nat) (s : wstate) : option wstate :=
  match ds_call s with
  | Some k =>
      match dc_slots k !! i with
      | Some (c, WStart) =>
          if dc_done k then Some (set_ds_call (Some (set_slot i c (WRet (Some ContextErr)) k)) s)
          else Some (set_ds_tasks (<[(dc_id k, i) := (c, SendMsg_writes (dc_msg k))]> (ds_tasks s))
                 (set_ds_call (Some (set_slot i c WRun k)) s))
      | _ => None
      end
  | None => None
  end.

(** The second half: the result, or the context; [choice] when both are
    ready. *)
Definition wrap_end (choice : bool) (i : nat) (s : wstate) : option wstate :=
  match ds_call s with
  | Some k =>
      match dc_slots k !! i with
      | Some (c, WRun) =>
          let got := bool_decide ((dc_id k, i) ∈ ds_results s) in
          if got && (choice || negb (dc_done k)) then Some (set_ds_call (Some (set_slot i c (WRet None) k)) s)
          else if dc_done k then Some (set_ds_call (Some (set_slot i c (WRet (Some ContextErr)) k)) s)
          else None
      | _ => None
      end
  | None => None
  end.

(** The next [Write] of a goroutine in [SendMsg], or its return. *)
Definition task_turn (key : nat * nat) (s : wstate) : option wstate :=
  match ds_tasks s !! key with
  | Some (c, b :: rest) =>
      Some (mkWstate (ds_ws s) (<[c := wire s c ++ b]> (ds_wire s)) (<[key := (c, rest)]> (ds_tasks s))
        (ds_results s) (ds_call s) (ds_log s) (ds_out s))
  | Some (c, []) =>
      Some (mkWstate (ds_ws s) (ds_wire s) (delete key (ds_tasks s)) ({[key]} ∪ ds_results s) (ds_call s) (ds_log s) (ds_out s))
  | None => None
  end.

(** [grp.Wait()] and the unlock: the first error in the order of the slots. *)
Definition slot_err (x : slot) : option error := match x with WRet e => e | _ => None end.
Definition slot_returned (x : slot) : bool := match x with WRet _ => true | _ => false end.

Definition w_return (s : wstate) : option wstate :=
  match ds_call s with
  | Some k =>
      if forallb slot_returned (dc_slots k).*2 then
        Some (mkWstate (ds_ws s) (ds_wire s) (ds_tasks s) (ds_results s) None (ds_log s)
          (ds_out s ++ [(dc_id k, head (omap slot_err (dc_slots k).*2))]))
      else None
  | None => None
  end.

(** The deadline of the call passes. *)
Definition w_deadline (s : wstate) : option wstate :=
  match ds_call s with
  | Some k => Some (set_ds_call (Some (mkWcall (dc_id k) (dc_msg k) true (dc_slots k))) s)
  | None => None
  end.

(** [late]: deadlines may pass. *)
Inductive w_step (late : bool) : wstate → wstate → Prop :=
| w_Send msg s s' : w_call false msg s = Some s' → w_step late s s'
| w_SendLate msg s s' : late = true → w_call true msg s = Some s' → w_step late s s'
| w_Start i s s' : wrap_start i s = Some s' → w_step late s s'
| w_End choice i s s' : wrap_end choice i s = Some s' → w_step late s s'
| w_Task key s s' : task_turn key s = Some s' → w_step late s s'
| w_Wait s s' : w_return s = Some s' → w_step late s s'
| w_Late s s' : late = true → w_deadline s = Some s' → w_step late s s'.

Definition w_init (ws : list nat) : wstate := mkWstate ws ∅ ∅ ∅ None [] [].

(** Runs given by their steps. *)
Inductive wop : Type :=
| OSend (done : bool) (msg : Msg) | OStart (i : nat) | OEnd (choice : bool) (i : nat) | OTask (id i : nat) | OWait | OLate.

Definition w_do (o : wop) : wstate → option wstate :=
  match o with
  | OSend done msg => w_call done msg
  | OStart i => wrap_start i
  | OEnd choice i => wrap_end choice i
  | OTask id i => task_turn (id, i)
  | OWait => w_return
  | OLate => w_deadline
  end.

Fixpoint w_ops (os : list wop) (s : wstate) : option wstate :=
  match os with [] => Some s | o :: os => s' ← w_do o s; w_ops os s' end.

Definition in_time (o : wop) : bool := match o with OSend true _ | OLate => false | _ => true end.

Lemma w_ops_run late os : ∀ s s', (forallb in_time os = true ∨ late = true) → w_ops os s = Some s' → rtc (w_step late) s s'.
Proof.
  induction os as [|o os IH]; cbn; intros s s' Hl H; [by injection H as <-|].
  apply bind_Some in H as (s1 & H1 & H2). rewrite andb_true_iff in Hl. eapply rtc_l; [|eapply IH; [|exact H2]; tauto].
  destruct o as [[] msg|i|choice i|id i| |]; cbn in H1, Hl; [apply (w_SendLate late msg); [|done]; naive_solver|by apply (w_Send late msg)|
    by apply (w_Start late i)|by apply (w_End late choice i)|by apply (w_Task late (id, i))|by apply w_Wait|apply w_Late; [|done]; naive_solver].
Qed.

(** The wire form of messages. *)
Definition wires (msgs : list Msg) : bytes := concat ((msg_wire false ∘ Frames) <$> msgs).

Lemma wires_snoc msgs msg : wires (msgs ++ [msg]) = wires msgs ++ msg_wire false (Frames msg).
Proof. unfold wires. rewrite fmap_app, concat_app. cbn. by rewrite app_nil_r. Qed.

(** ** Without deadlines *)

(** One slot of the call [k], when the messages before it are [log]. *)
Definition slot_ok (s : wstate) (k : wcall) (log : list Msg) (i c : nat) (x : slot) : Prop :=
  match x with
  | WStart => ds_tasks s !! (dc_id k, i) = None ∧ (dc_id k, i) ∉ ds_results s ∧ wire s c = wires log
  | WRun =>
      match ds_tasks s !! (dc_id k, i) with
      | Some (c', rest) => c' = c ∧ (dc_id k, i) ∉ ds_results s ∧ wire s c ++ concat rest = wires (log ++ [dc_msg k])
      | None => (dc_id k, i) ∈ ds_results s ∧ wire s c = wires (log ++ [dc_msg k])
      end
  | WRet e => e = None ∧ ds_tasks s !! (dc_id k, i) = None ∧ wire s c = wires (log ++ [dc_msg k])
  end.

Record call_ok (s : wstate) (k : wcall) : Prop := {
  co_done : dc_done k = false;
  co_conns : (dc_slots k).*1 = ds_ws s;
  co_tasks : ∀ key t, ds_tasks s !! key = Some t → key.1 = dc_id k ∧ ∃ c, dc_slots k !! key.2 = Some (c, WRun);
  co_log : ∃ log, ds_log s = log ++ [dc_msg k] ∧ dc_id k = length log ∧
    ∀ i c x, dc_slots k !! i = Some (c, x) → slot_ok s k log i c x }.

Record writer_ok (s : wstate) : Prop := {
  wo_nodup : NoDup (ds_ws s);
  wo_results : ∀ key, key ∈ ds_results s → (key.1 < length (ds_log s))%nat;
  wo_out : ∀ r, r ∈ ds_out s → r.2 = None;
  wo_call : match ds_call s with
    | Some k => call_ok s k
    | None => ds_tasks s = ∅ ∧ ∀ c, c ∈ ds_ws s → wire s c = wires (ds_log s)
    end }.

Lemma slots_inj s k i j c x y : NoDup (ds_ws s) → (dc_slots k).*1 = ds_ws s →
  dc_slots k !! i = Some (c, x) → dc_slots k !! j = Some (c, y) → i = j.
Proof.
  intros Hnd Hc Hi Hj. eapply NoDup_lookup; [exact Hnd|..]; rewrite <- Hc, list_lookup_fmap; [by rewrite Hi|by rewrite Hj].
Qed.

Lemma set_slot_conns i c x x' k : dc_slots k !! i = Some (c, x) → (dc_slots (set_slot i c x' k)).*1 = (dc_slots k).*1.
Proof.
  intros Hi. cbn. rewrite list_fmap_insert. apply list_insert_id. by rewrite list_lookup_fmap, Hi.
Qed.

Lemma set_slot_lookup i c x j c' y k :
  dc_slots (set_slot i c x k) !! j = Some (c', y) → (j = i ∧ c' = c ∧ y = x) ∨ (j ≠ i ∧ dc_slots k !! j = Some (c', y)).
Proof.
  cbn. intros H. apply list_lookup_insert_Some in H as [(-> & E & _)|[? ?]]; [left; by simplify_eq|by right].
Qed.

Lemma set_slot_ne i c x j k : j ≠ i → dc_slots (set_slot i c x k) !! j = dc_slots k !! j.
Proof. intros H. cbn. by apply list_lookup_insert_ne. Qed.

Lemma set_slot_eq i c x y k : dc_slots k !! i = Some y → dc_slots (set_slot i c x k) !! i = Some (c, x).
Proof. intros H. cbn. apply list_lookup_insert_eq. by eapply lookup_lt_Some. Qed.

Lemma ok_start i s s' : wrap_start i s = Some s' → writer_ok s → writer_ok s'.
Proof.
  unfold wrap_start. intros Hs [H1 H2 H3 H4]. destruct (ds_call s) as [k|] eqn:Ek; [|done].
  destruct H4 as [Hd Hc Ht (log & Hlog & Hid & Hslots)].
  destruct (dc_slots k !! i) as [[c [| |]]|] eqn:Ei; try done. rewrite Hd in Hs. injection Hs as <-.
  destruct (Hslots i c WStart Ei) as (Hn & Hr & Hw). split; cbn; [done..|]. split; cbn.
  - done.
  - etrans; [exact (set_slot_conns i c WStart WRun k Ei)|done].
  - intros key t [[<- <-]|[Hne Hkey]]%lookup_insert_Some; [split; [done|]; exists c; cbn; by apply (set_slot_eq i c WRun _ k Ei)|].
    destruct (Ht key t Hkey) as [E [c' Hc']]. split; [done|]. exists c'.
    assert (key.2 ≠ i) by (intros E'; apply Hne; destruct key; cbn in *; congruence).
    rewrite list_lookup_insert_ne by done. exact Hc'.
  - exists log. split_and!; [done..|]. intros j c' x Hj. apply set_slot_lookup in Hj as [(-> & -> & ->)|[Hne Hj]].
    + cbn. rewrite lookup_insert_eq. split_and!; [done..|]. rewrite concat_writes, wires_snoc. unfold wire in *. cbn. by rewrite Hw.
    + pose proof (Hslots j c' x Hj) as Hok. unfold slot_ok, wire in *. cbn in *. rewrite lookup_insert_ne by congruence. exact Hok.
Qed.

Lemma ok_end choice i s s' : wrap_end choice i s = Some s' → writer_ok s → writer_ok s'.
Proof.
  unfold wrap_end. intros Hs [H1 H2 H3 H4]. destruct (ds_call s) as [k|] eqn:Ek; [|done].
  destruct H4 as [Hd Hc Ht (log & Hlog & Hid & Hslots)].
  destruct (dc_slots k !! i) as [[c [| |]]|] eqn:Ei; try done. rewrite Hd in Hs. cbn [negb] in Hs.
  rewrite orb_true_r, andb_true_r in Hs. case_bool_decide as Hr; [|done]. injection Hs as <-.
  pose proof (Hslots i c WRun Ei) as Hi. unfold slot_ok in Hi.
  destruct (ds_tasks s !! (dc_id k, i)) as [[c' rest]|] eqn:Et; [by destruct Hi as (_ & ? & _)|]. destruct Hi as [_ Hi].
  split; cbn; [done..|]. split; cbn.
  - done.
  - etrans; [exact (set_slot_conns i c WRun (WRet None) k Ei)|done].
  - intros key t Hkey. destruct (Ht key t Hkey) as [E [c' Hc']]. split; [done|]. exists c'.
    assert (key.2 ≠ i) by (intros E'; destruct key as [a b]; cbn in *; subst; congruence).
    rewrite list_lookup_insert_ne by done. exact Hc'.
  - exists log. split_and!; [done..|]. intros j c' x Hj. apply set_slot_lookup in Hj as [(-> & -> & ->)|[Hne Hj]].
    + cbn. by split_and!.
    + exact (Hslots j c' x Hj).
Qed.

Lemma ok_task key s s' : task_turn key s = Some s' → writer_ok s → writer_ok s'.
Proof.
  unfold task_turn. intros Hs [H1 H2 H3 H4]. destruct (ds_tasks s !! key) as [[c rest]|] eqn:Et; [|done].
  destruct (ds_call s) as [k|] eqn:Ek; [|destruct H4 as [H4 _]; by rewrite H4, lookup_empty in Et].
  destruct H4 as [Hd Hc Ht (log & Hlog & Hid & Hslots)]. destruct (Ht key _ Et) as [E [c0 Hi]].
  destruct key as [a i]. cbn in E, Hi. subst a. pose proof (Hslots i c0 WRun Hi) as Hok. unfold slot_ok in Hok. rewrite Et in Hok.
  destruct Hok as (<- & Hr & Hw). destruct rest as [|b rest]; injection Hs as <-.
  - split; cbn; [done| |done|].
    + intros key [->%elem_of_singleton|Hk]%elem_of_union; [cbn; rewrite Hlog, length_app; cbn; lia|by apply H2].
    + split; cbn; [done|done| |].
      * intros key t [_ Hk]%lookup_delete_Some. by apply (Ht key t).
      * exists log. split_and!; [done..|]. intros j c' x Hj. pose proof (Hslots j c' x Hj) as Hok. unfold slot_ok, wire in *. cbn in *.
        destruct (decide (j = i)) as [->|Hne].
        -- rewrite Hi in Hj. injection Hj as <- <-. rewrite lookup_delete_eq. cbn in Hw. rewrite app_nil_r in Hw. split; [set_solver|done].
        -- rewrite lookup_delete_ne by congruence.
           assert ((dc_id k, j) ∉ {[(dc_id k, i)]} ∪ ds_results s ↔ (dc_id k, j) ∉ ds_results s) as Hiff by set_solver.
           destruct x; [by rewrite Hiff| |done]. destruct (ds_tasks s !! (dc_id k, j)) as [[]|]; [by rewrite Hiff|]. split; [set_solver|apply Hok].
  - split; cbn; [done..|]. split; cbn; [done|done| |].
    + intros key t [[<- _]|[_ Hk]]%lookup_insert_Some; [split; [done|]; by exists c|by apply (Ht key t)].
    + exists log. split_and!; [done..|]. intros j c' x Hj. pose proof (Hslots j c' x Hj) as Hok. unfold slot_ok, wire in *. cbn in *.
      destruct (decide (j = i)) as [->|Hne].
      * rewrite Hi in Hj. injection Hj as <- <-. rewrite !lookup_insert_eq. cbn. rewrite <- app_assoc. by split_and!.
      * rewrite !lookup_insert_ne by (first [congruence|intros ->; apply Hne; by eapply slots_inj]). exact Hok.
Qed.

Lemma ok_call msg s s' : w_call false msg s = Some s' → writer_ok s → writer_ok s'.
Proof.
  unfold w_call. intros Hs [H1 H2 H3 H4]. destruct (ds_call s) eqn:Ek; [done|]. destruct H4 as [Ht Hw].
  destruct (sem_lock _ _); [|done]. injection Hs as <-. split; cbn; [done| |done|].
  - intros key Hk. rewrite length_app. specialize (H2 key Hk). lia.
  - split; cbn; [done| |by rewrite Ht; intros key t ?%lookup_empty_Some|].
    + rewrite <- list_fmap_compose. apply list_fmap_id.
    + exists (ds_log s). split_and!; [done..|]. intros i c x Hi. rewrite list_lookup_fmap in Hi.
      destruct (ds_ws s !! i) as [c0|] eqn:Ei; [|done]. injection Hi as <- <-. unfold slot_ok, wire in *. cbn. rewrite Ht. split_and!; [done| |].
      * intros Hin. specialize (H2 _ Hin). cbn in H2. lia.
      * apply Hw. by apply list_elem_of_lookup_2 in Ei.
Qed.

Lemma ok_return s s' : w_return s = Some s' → writer_ok s → writer_ok s'.
Proof.
  unfold w_return. intros Hs [H1 H2 H3 H4]. destruct (ds_call s) as [k|] eqn:Ek; [|done].
  destruct H4 as [Hd Hc Ht (log & Hlog & Hid & Hslots)]. destruct (forallb _ _) eqn:Hall; [|done]. injection Hs as <-.
  assert (Hret : ∀ i c x, dc_slots k !! i = Some (c, x) → x = WRet None).
  { intros i c x Hi. rewrite forallb_forall in Hall. pose proof (Hslots i c x Hi) as Hok.
    assert (Hx : slot_returned x = true).
    { apply Hall, list_elem_of_In, list_elem_of_fmap. exists (c, x). split; [done|by apply list_elem_of_lookup_2 in Hi]. }
    destruct x; [done..|]. by destruct Hok as [-> _]. }
  split; cbn; [done..| |].
  - intros r [Hr| ->%list_elem_of_singleton]%elem_of_app; [by apply H3|]. cbn.
    assert (omap slot_err (dc_slots k).*2 = []) as ->; [|done]. clear -Hret. induction (dc_slots k) as [|[c x] l IH]; [done|].
    cbn. rewrite (Hret 0%nat c x eq_refl). cbn. apply IH. intros i c' x' Hi. by apply (Hret (S i) c' x').
  - split.
    + apply map_eq. intros key. rewrite lookup_empty. destruct (ds_tasks s !! key) as [t|] eqn:E; [|done].
      destruct (Ht key t E) as [_ [c Hi]]. by specialize (Hret _ _ _ Hi).
    + intros c Hin. rewrite <- Hc in Hin. apply list_elem_of_fmap in Hin as ([c' x] & -> & Hin). apply list_elem_of_lookup in Hin as [i Hi].
      pose proof (Hslots i c' x Hi) as Hok. rewrite (Hret i c' x Hi) in Hok. destruct Hok as (_ & _ & Hw). rewrite Hlog. exact Hw.
Qed.

Lemma writer_ok_step s s' : w_step false s s' → writer_ok s → writer_ok s'.
Proof.
  intros H. destruct H; try done; eauto using ok_call, ok_start, ok_end, ok_task, ok_return.
Qed.

Lemma writer_ok_run ws s : NoDup ws → rtc (w_step false) (w_init ws) s → writer_ok s.
Proof.
  intros Hws Hrun. assert (H0 : writer_ok (w_init ws)).
  { split; cbn; [done|set_solver|by intros r ?%not_elem_of_nil|]. split; [done|]. intros c _. done. }
  revert H0. induction Hrun as [|s1 s2 s3 Hs _ IH]; [done|]. intros H. by eapply IH, writer_ok_step.
Qed.

(** *** Every call returns *)

Definition same_calls (s s' : wstate) : Prop := ds_log s' = ds_log s ∧ ds_ws s' = ds_ws s.

(** The writes left of one goroutine can be made. *)
Lemma task_drains key c rest : ∀ s, ds_tasks s !! key = Some (c, rest) →
  ∃ s', rtc (w_step false) s s' ∧ same_calls s s' ∧ ds_call s' = ds_call s ∧ key ∈ ds_results s' ∧ ds_results s ⊆ ds_results s'.
Proof.
  induction rest as [|b rest IH]; intros s Ht.
  - eexists. split; [apply rtc_once, (w_Task _ key); unfold task_turn; rewrite Ht; reflexivity|]. cbn. split_and!; [done|done|set_solver|set_solver].
  - destruct (IH (mkWstate (ds_ws s) (<[c := wire s c ++ b]> (ds_wire s)) (<[key := (c, rest)]> (ds_tasks s))
      (ds_results s) (ds_call s) (ds_log s) (ds_out s))) as (s' & Hr & [Hl Hw] & Hc & Hres); [cbn; by rewrite lookup_insert_eq|].
    exists s'. split; [|done]. eapply rtc_l; [|exact Hr]. apply (w_Task _ key). unfold task_turn. by rewrite Ht.
Qed.

(** The function of one slot can return, without touching the others. *)
Lemma slot_returns i s k c x :
  writer_ok s → ds_call s = Some k → dc_slots k !! i = Some (c, x) →
  ∃ s' k', rtc (w_step false) s s' ∧ same_calls s s' ∧ ds_call s' = Some k' ∧
    ∃ e, dc_slots k' = <[i := (c, WRet e)]> (dc_slots k).
Proof.
  intros Hok Hk Hi.
  assert (Hend : ∀ s1 k1, ds_call s1 = Some k1 → dc_slots k1 !! i = Some (c, WRun) → dc_done k1 = false → (dc_id k1, i) ∈ ds_results s1 →
    ∃ s2 k2, rtc (w_step false) s1 s2 ∧ same_calls s1 s2 ∧ ds_call s2 = Some k2 ∧ dc_slots k2 = <[i := (c, WRet None)]> (dc_slots k1)).
  { intros s1 k1 E1 E2 E3 E4. eexists _, _. split; [apply rtc_once, (w_End _ true i); unfold wrap_end; rewrite E1, E2; cbn;
      rewrite bool_decide_true by done; cbn; reflexivity|]. done. }
  assert (Hrun : ∀ s1 k1, writer_ok s1 → ds_call s1 = Some k1 → dc_slots k1 !! i = Some (c, WRun) →
    ∃ s2 k2, rtc (w_step false) s1 s2 ∧ same_calls s1 s2 ∧ ds_call s2 = Some k2 ∧ dc_slots k2 = <[i := (c, WRet None)]> (dc_slots k1)).
  { intros s1 k1 [_ _ _ Hc1] E1 E2. rewrite E1 in Hc1. destruct Hc1 as [Hd _ _ (log & _ & _ & Hs)].
    pose proof (Hs i c WRun E2) as Hsl. unfold slot_ok in Hsl.
    destruct (ds_tasks s1 !! (dc_id k1, i)) as [[c' rest]|] eqn:Et; [|by apply Hend; [..|apply Hsl]].
    destruct (task_drains _ _ _ _ Et) as (s2 & Hr & [Hl Hw] & Hc & Hin & _). rewrite E1 in Hc.
    destruct (Hend s2 k1 Hc E2 Hd Hin) as (s3 & k3 & Hr3 & [Hl3 Hw3] & H3). exists s3, k3.
    split; [by etrans|]. split; [split; congruence|done]. }
  destruct x as [| |e].
  - assert (Hs : ∃ s1, wrap_start i s = Some s1 ∧ ds_call s1 = Some (set_slot i c WRun k) ∧ same_calls s s1).
    { destruct Hok as [_ _ _ Hc]. rewrite Hk in Hc. destruct Hc as [Hd _ _ _]. unfold wrap_start. rewrite Hk, Hi, Hd. by eexists. }
    destruct Hs as (s1 & Hs & Hc1 & [Hl1 Hw1]).
    destruct (Hrun s1 (set_slot i c WRun k)) as (s2 & k2 & Hr & [Hl Hw] & Hc & Hsl).
    { by eapply ok_start. } { done. } { by eapply set_slot_eq. }
    exists s2, k2. split; [eapply rtc_l; [by eapply w_Start|done]|]. split; [split; congruence|]. split; [done|].
    exists None. rewrite Hsl. cbn. by rewrite list_insert_insert_eq.
  - destruct (Hrun s k Hok Hk Hi) as (s2 & k2 & Hr & Hl & Hc & Hsl). exists s2, k2. split_and!; [done..|]. by exists None.
  - exists s, k. split_and!; [done|done|done|]. exists e. symmetry. by apply list_insert_id.
Qed.

Lemma all_slots_return n : ∀ s k, writer_ok s → ds_call s = Some k → (n <= length (dc_slots k))%nat →
  ∃ s' k', rtc (w_step false) s s' ∧ same_calls s s' ∧ ds_call s' = Some k' ∧ length (dc_slots k') = length (dc_slots k) ∧
    ∀ i c x, (i < n)%nat → dc_slots k' !! i = Some (c, x) → slot_returned x = true.
Proof.
  induction n as [|n IH]; intros s k Hok Hk Hn; [exists s, k; split_and!; [done..|]; intros; lia|].
  destruct (IH s k Hok Hk) as (s1 & k1 & Hr1 & [Hl1 Hw1] & Hc1 & Hlen & Hret); [lia|].
  destruct (lookup_lt_is_Some_2 (dc_slots k1) n) as [[c x] Hx]; [lia|].
  destruct (slot_returns n s1 k1 c x) as (s2 & k2 & Hr2 & [Hl2 Hw2] & Hc2 & e & Hsl); [|done..|].
  { clear -Hok Hr1. induction Hr1; [done|]. by eapply IHHr1, writer_ok_step. }
  exists s2, k2. split; [by etrans|]. split; [split; congruence|]. split; [done|]. rewrite Hsl, length_insert. split; [done|].
  intros i c' x' Hi Hx'. apply list_lookup_insert_Some in Hx' as [(-> & [= <- <-] & _)|[Hne Hx']]; [done|]. apply (Hret i c'); [lia|done].
Qed.

Lemma call_returns s : writer_ok s → ∃ s', rtc (w_step false) s s' ∧ same_calls s s' ∧ ds_call s' = None.
Proof.
  intros Hok. destruct (ds_call s) as [k|] eqn:Hk; [|by exists s].
  destruct (all_slots_return (length (dc_slots k)) s k Hok Hk) as (s1 & k1 & Hr & [Hl Hw] & Hc & Hlen & Hret); [lia|].
  assert (Hall : forallb slot_returned (dc_slots k1).*2 = true).
  { apply forallb_forall. intros x Hx. apply list_elem_of_In, list_elem_of_fmap in Hx as ([c y] & -> & Hy).
    apply list_elem_of_lookup in Hy as [i Hi]. apply (Hret i c); [|done]. rewrite <- Hlen. by eapply lookup_lt_Some. }
  eexists. split; [eapply rtc_r; [exact Hr|]; apply w_Wait; unfold w_return; rewrite Hc, Hall; reflexivity|]. done.
Qed.

(** ** What arrives *)

(** [n] messages read one after the other. *)
Fixpoint read_n {SS} (sec : secops SS) (maxAlloc : Z) (n : nat) : M (Conn SS) (list Msg) :=
  match n with
  | O => mret []
  | S n => msg ← Conn_read sec maxAlloc; rest ← read_n sec maxAlloc n; mret (msg :: rest)
  end.

Definition sendable (maxAlloc : Z) (msg : Msg) : Prop :=
  Frames msg ≠ [] ∧ Forall (fun f => len f <= maxAlloc ∧ len f <= maxInt64) (Frames msg).

Lemma read_wires {SS} (sec : secops SS) `{!Transparent sec} maxAlloc msgs rest : ∀ d : Conn SS,
  Forall (sendable maxAlloc) msgs → nc_open (c_rw d) = true → nc_in (c_rw d) = wires msgs ++ rest →
  read_n sec maxAlloc (length msgs) d = (Ret ((NewMsgFrom ∘ Frames) <$> msgs), reading rest d).
Proof.
  induction msgs as [|m msgs IH]; intros d Hok Ho Hin; cbn [length read_n].
  - cbn in Hin. rewrite <- Hin, reading_id. done.
  - apply Forall_cons in Hok as [[Hne Hm] Hok]. unfold wires in Hin. cbn [fmap list_fmap concat] in Hin. rewrite <- app_assoc in Hin.
    mstep (apply (Conn_read_wire sec maxAlloc false (Frames m) d _ Hne Ho Hin Hm)).
    mstep (apply (IH (reading (wires msgs ++ rest) d) Hok); [exact Ho|by rewrite nc_in_reading]). by rewrite reading_reading.
Qed.

Lemma w_run_ws late s s' : rtc (w_step late) s s' → ds_ws s' = ds_ws s.
Proof.
  induction 1 as [|x y z H _ IH]; [done|]. rewrite IH.
  destruct H as [msg s1 s2 H|msg s1 s2 ? H|i s1 s2 H|ch i s1 s2 H|key s1 s2 H|s1 s2 H|s1 s2 ? H];
    unfold w_call, wrap_start, wrap_end, task_turn, w_return, w_deadline in H; repeat case_match; by simplify_eq.
Qed.


(** ** With deadlines *)

(** A socket without peers: after the deadline the call succeeds and the message
    is gone. *)
Lemma send_without_peers (msg : Msg) :
  ∃ s, rtc (w_step true) (w_init []) s ∧ ds_out s = [(0%nat, None)] ∧ ∀ c, wire s c = [].
Proof.
  eexists. split; [eapply rtc_l; [by apply (w_SendLate _ msg)|]; eapply rtc_l; [by apply w_Wait|]; apply rtc_refl|]. done.
Qed.

(** Two messages of one frame each, the first of two bytes, and a deadline
    between the two writes of the first: the second call writes its frame in
    between, and the peer reads a message that nobody sent. *)
Definition torn_first : Msg := NewMsgFrom [[x0a; x0b]].
Definition torn_second : Msg := NewMsgFrom [[x0c]].

Definition torn_ops : list wop :=
  [OSend false torn_first; OStart 0; OTask 0 0; OLate; OEnd true 0; OWait;
   OSend false torn_second; OStart 0; OTask 1 0; OTask 1 0; OTask 0 0; OTask 1 0; OEnd true 0; OWait].

(** A send whose deadline passes may tear a later one: there is a run in which
    the first call returns the error of its context and the second returns none,
    and the peer reads first a frame that was never sent. *)
Theorem deadline_tears :
  ∃ s, rtc (w_step true) (w_init [7%nat]) s ∧ ds_out s = [(0%nat, Some ContextErr); (1%nat, None)] ∧
    ds_log s = [torn_first; torn_second] ∧
    (Conn_read nullSecurity 1000 (test_conn Pair (wire s 7))).1 = Ret (NewMsgFrom [[x00; x01]]).
Proof.
  destruct (w_ops torn_ops (w_init [7%nat])) as [s|] eqn:E; [|by vm_compute in E]. exists s.
  split; [eapply (w_ops_run true torn_ops); [by right|done]|].
  vm_compute in E. injection E as <-. split_and!; [reflexivity..|]. vm_compute. reflexivity.
Qed.

(** ** [SendMulti] with deadlines *)

(** The messages of the calls [ids]. *)
Definition msgs_at (log : list Msg) (ids : list nat) : list Msg := omap (log !!.) ids.

(** What is written to [c]: the messages [ids], whole; none of them is still to
    be written to it. *)
Record wire_ok (s : wstate) (c : nat) (ids : list nat) : Prop := {
  wi_nodup : NoDup ids;
  wi_known : ∀ id, id ∈ ids → (id < length (ds_log s))%nat;
  wi_wire : wire s c = wires (msgs_at (ds_log s) ids);
  wi_tasks : ∀ id i b, id ∈ ids → ds_tasks s !! (id, i) = Some (c, [b]) → False;
  wi_slots : ∀ k i, ds_call s = Some k → dc_id k ∈ ids → dc_slots k !! i = Some (c, WStart) → False }.

Record multi_ok (s : wstate) : Prop := {
  mo_nodup : NoDup (ds_ws s);
  mo_tasks : ∀ id i c rest, ds_tasks s !! (id, i) = Some (c, rest) → ds_ws s !! i = Some c ∧
    ∃ m, ds_log s !! id = Some m ∧ (rest = [] ∨ rest = [msg_wire false (Frames m)]);
  mo_call : ∀ k, ds_call s = Some k → ds_log s !! dc_id k = Some (dc_msg k) ∧ (dc_slots k).*1 = ds_ws s ∧
    ∀ i c, dc_slots k !! i = Some (c, WStart) → ds_tasks s !! (dc_id k, i) = None;
  mo_wires : ∀ c, ∃ ids, wire_ok s c ids }.

Lemma msgs_at_app log msg ids : (∀ id, id ∈ ids → (id < length log)%nat) → msgs_at (log ++ [msg]) ids = msgs_at log ids.
Proof.
  unfold msgs_at. induction ids as [|id ids IH]; intros H; [done|]. cbn.
  rewrite lookup_app_l by (apply H; left). rewrite IH; [done|]. intros id' ?. apply H. by right.
Qed.

(** A slot that changes to something else than [WStart]. *)
Lemma multi_ok_slot i c x s k : multi_ok s → ds_call s = Some k → dc_slots k !! i = Some (c, x) →
  ∀ x', x' ≠ WStart → multi_ok (set_ds_call (Some (set_slot i c x' k)) s).
Proof.
  intros [H1 H2 H3 H4] Hk Hi x' Hx'. destruct (H3 k Hk) as (Hl & Hc & Hs). split; cbn; [done..| |].
  - intros k' [= <-]. split_and!; [done|etrans; [by eapply set_slot_conns|done]|].
    intros j c' Hj. apply set_slot_lookup in Hj as [(-> & _ & E)|[_ Hj]]; [by destruct Hx'|by apply (Hs j c')].
  - intros c'. destruct (H4 c') as [ids [W1 W2 W3 W4 W5]]. exists ids. split; try done. cbn. intros k' j [= <-] Hin Hj.
    apply set_slot_lookup in Hj as [(-> & _ & E)|[_ Hj]]; [by destruct Hx'|by apply (W5 k j)].
Qed.

Lemma multi_start i s s' : Forall (fun m => multipart m = true) (ds_log s) → wrap_start i s = Some s' → multi_ok s → multi_ok s'.
Proof.
  unfold wrap_start. intros Hm Hs Hok. destruct (ds_call s) as [k|] eqn:Ek; [|done].
  destruct (dc_slots k !! i) as [[c [| |]]|] eqn:Ei; try done.
  destruct (dc_done k); injection Hs as <-; [by eapply multi_ok_slot|].
  pose proof Hok as [_ _ H3 H4']. destruct (H3 k Ek) as (Hl & Hc & Hst). pose proof (Hst i c Ei) as Hnone.
  assert (Hwi : ds_ws s !! i = Some c) by (by rewrite <- Hc, list_lookup_fmap, Ei).
  assert (Hmp : SendMsg_writes (dc_msg k) = [msg_wire false (Frames (dc_msg k))]).
  { unfold SendMsg_writes. rewrite Forall_forall in Hm. by rewrite (Hm (dc_msg k)) by (by apply list_elem_of_lookup_2 in Hl). }
  destruct (multi_ok_slot i c WStart s k Hok Ek Ei WRun ltac:(done)) as [H1 H2 H3' H4]. cbn in *.
  split; cbn; [done| | |].
  - intros id j c' rest [[E1 E2]|[_ Ht]]%lookup_insert_Some; [|by apply H2]. injection E1 as <- <-. injection E2 as <- <-.
    split; [done|]. exists (dc_msg k). split; [done|by right].
  - intros k' [= <-]. destruct (H3' _ eq_refl) as (Hl' & Hc' & Hst'). split_and!; [done..|]. intros j c' Hj. cbn.
    pose proof (Hst' j c' Hj) as Hn. cbn in Hn. rewrite lookup_insert_ne; [done|]. intros [= <-].
    apply set_slot_lookup in Hj as [(_ & _ & ?)|[? _]]; done.
  - intros c'. destruct (H4' c') as [ids W]. exists ids. destruct W as [W1 W2 W3 W4 W5]. split; cbn; try done.
    + intros id j b Hin [[E1 E2]|[_ Ht]]%lookup_insert_Some; [|by apply (W4 id j b)]. injection E1 as <- <-. injection E2 as <- _.
      by apply (W5 k i).
    + intros k' j [= <-] Hin Hj. apply set_slot_lookup in Hj as [(_ & _ & ?)|[_ Hj]]; [done|]. by apply (W5 k j).
Qed.

Lemma multi_task key s s' : task_turn key s = Some s' → multi_ok s → multi_ok s'.
Proof.
  unfold task_turn. intros Hs [H1 H2 H3 H4]. destruct key as [a i]. destruct (ds_tasks s !! (a, i)) as [[c rest]|] eqn:Et; [|done].
  destruct (H2 a i c rest Et) as (Hwi & m & Hm & Hrest).
  destruct rest as [|b rest]; injection Hs as <-.
  - split; cbn; [done| | |].
    + intros id j c' rest [_ Ht]%lookup_delete_Some. by apply H2.
    + intros k Hk. destruct (H3 k Hk) as (Hl & Hc & Hst). split_and!; [done..|]. intros j c' Hj. rewrite lookup_delete_None. right. by apply (Hst j c').
    + intros c'. destruct (H4 c') as [ids [W1 W2 W3 W4 W5]]. exists ids. split; cbn; try done.
      intros id j b Hin [_ Ht]%lookup_delete_Some. by apply (W4 id j b).
  - destruct Hrest as [Hr|Hr]; [done|]. injection Hr as -> ->. split; cbn; [done| | |].
    + intros id j c' rest [[E1 E2]|[_ Ht]]%lookup_insert_Some; [|by apply H2]. injection E1 as <- <-. injection E2 as <- <-.
      split; [done|]. exists m. split; [done|by left].
    + intros k Hk. destruct (H3 k Hk) as (Hl & Hc & Hst). split_and!; [done..|]. intros j c' Hj. pose proof (Hst j c' Hj) as Hn.
      rewrite lookup_insert_ne; [done|]. intros E. congruence.
    + intros c'. destruct (H4 c') as [ids W]. destruct W as [W1 W2 W3 W4 W5]. destruct (decide (c' = c)) as [->|Hne].
      * exists (ids ++ [a]). split; cbn.
        -- apply NoDup_app. split_and!; [done| |by apply NoDup_singleton]. intros x Hx ->%list_elem_of_singleton. by eapply W4.
        -- intros id [Hid| ->%list_elem_of_singleton]%elem_of_app; [by apply W2|by eapply lookup_lt_Some].
        -- unfold wire in *. cbn. rewrite lookup_insert_eq. cbn. unfold wire in *. rewrite W3. unfold msgs_at. rewrite omap_app. cbn. rewrite Hm. cbn.
           by rewrite wires_snoc.
        -- intros id j b Hin Ht. apply lookup_insert_Some in Ht as [[_ E]|[Hne Ht]]; [done|].
           apply elem_of_app in Hin as [Hid| ->%list_elem_of_singleton]; [by eapply (W4 id j b)|].
           destruct (H2 _ _ _ _ Ht) as [Hwj _]. apply Hne. f_equal. exact (NoDup_lookup _ _ _ _ H1 Hwi Hwj).
        -- intros k j Hk [Hid| Hid%list_elem_of_singleton]%elem_of_app Hj; [by apply (W5 k j)|].
           destruct (H3 k Hk) as (_ & Hc & Hst). pose proof (Hst j c Hj) as Hn. rewrite Hid in Hn.
           assert (j = i) as ->; [|congruence]. eapply NoDup_lookup; [exact H1| |exact Hwi]. by rewrite <- Hc, list_lookup_fmap, Hj.
      * exists ids. split; cbn; try done.
        -- unfold wire in *. cbn. by rewrite lookup_insert_ne.
        -- intros id j b Hin [[_ ?]|[_ Ht]]%lookup_insert_Some; [done|by apply (W4 id j b)].
Qed.

Lemma multi_call late msg s s' : w_call late msg s = Some s' → multi_ok s → multi_ok s'.
Proof.
  unfold w_call. intros Hs [H1 H2 H3 H4]. destruct (ds_call s) eqn:Ek; [done|]. destruct (sem_lock _ _); [|done]. injection Hs as <-.
  assert (Hold : ∀ id i t, ds_tasks s !! (id, i) = Some t → (id < length (ds_log s))%nat).
  { intros id i [c rest] Ht. destruct (H2 _ _ _ _ Ht) as (_ & m & Hm & _). by eapply lookup_lt_Some. }
  split; cbn; [done| | |].
  - intros id i c rest Ht. destruct (H2 _ _ _ _ Ht) as (Hw & m & Hm & Hr). split; [done|]. exists m. split; [by apply lookup_app_l_Some|done].
  - intros k [= <-]. cbn. split_and!; [by rewrite lookup_app_r, Nat.sub_diag|rewrite <- list_fmap_compose; apply list_fmap_id|].
    intros i c _. destruct (ds_tasks s !! (length (ds_log s), i)) eqn:E; [|done]. apply Hold in E. lia.
  - intros c. destruct (H4 c) as [ids [W1 W2 W3 W4 W5]]. exists ids. split; cbn; try done.
    + intros id Hid. rewrite length_app. specialize (W2 id Hid). lia.
    + rewrite msgs_at_app by done. exact W3.
    + intros k i [= <-] Hin _. cbn in Hin. specialize (W2 _ Hin). lia.
Qed.

Lemma multi_ok_step s s' : Forall (fun m => multipart m = true) (ds_log s') → w_step true s s' → multi_ok s → multi_ok s'.
Proof.
  intros Hm H Hok. destruct H as [msg s s' H|msg s s' _ H|i s s' H|ch i s s' H|key s s' H|s s' H|s s' _ H].
  - by eapply multi_call.
  - by eapply multi_call.
  - eapply multi_start; [|exact H|done]. unfold wrap_start in H. repeat case_match; by simplify_eq.
  - unfold wrap_end in H. destruct (ds_call s) as [k|] eqn:Ek; [|done]. destruct (dc_slots k !! i) as [[c [| |]]|] eqn:Ei; try done.
    repeat case_match; simplify_eq; by eapply multi_ok_slot.
  - by eapply multi_task.
  - unfold w_return in H. destruct (ds_call s) as [k|] eqn:Ek; [|done]. destruct (forallb _ _); [|done]. injection H as <-.
    destruct Hok as [H1 H2 H3 H4]. split; cbn; try done. intros c. destruct (H4 c) as [ids [W1 W2 W3 W4 W5]]. exists ids. by split.
  - unfold w_deadline in H. destruct (ds_call s) as [k|] eqn:Ek; [|done]. injection H as <-. destruct Hok as [H1 H2 H3 H4].
    split; cbn; [done..| |].
    + intros k' [= <-]. exact (H3 k Ek).
    + intros c. destruct (H4 c) as [ids [W1 W2 W3 W4 W5]]. exists ids. split; cbn; try done. intros k' j [= <-] Hin Hj. by apply (W5 k j).
Qed.

Lemma w_step_log late s s' : w_step late s s' → ∃ l, ds_log s' = ds_log s ++ l.
Proof.
  intros H. destruct H as [msg s1 s2 H|msg s1 s2 ? H|i s1 s2 H|ch i s1 s2 H|key s1 s2 H|s1 s2 H|s1 s2 ? H];
    unfold w_call, wrap_start, wrap_end, task_turn, w_return, w_deadline in H; repeat case_match; simplify_eq; cbn;
    first [by exists []; rewrite app_nil_r|by eexists].
Qed.


(** ** Witnesses *)

(** Two messages to two peers. *)
Definition demo_ops (mp : bool) : list wop :=
  [OSend false (mkMsg [[x01]; []] UsrMsg mp None); OStart 1; OTask 0 1; OStart 0; OTask 0 0; OTask 0 0] ++
  (if mp then [OTask 0 1] else [OTask 0 0; OTask 0 1; OTask 0 1; OTask 0 0; OTask 0 1]) ++
  [OEnd true 0; OEnd true 1; OWait; OSend false (mkMsg [[x02; x03]] UsrMsg mp None); OStart 0; OTask 1 0; OTask 1 0] ++
  (if mp then [] else [OTask 1 0]) ++ [OStart 1; OTask 1 1; OTask 1 1] ++ (if mp then [] else [OTask 1 1]) ++ [OEnd true 1; OEnd true 0; OWait].

Definition demo_end (mp : bool) : wstate := default (w_init []) (w_ops (demo_ops mp) (w_init [4%nat; 9%nat])).

Lemma demo_reached mp late : rtc (w_step late) (w_init [4%nat; 9%nat]) (demo_end mp).
Proof. apply (w_ops_run late (demo_ops mp)); [left; by destruct mp|]. unfold demo_end. destruct mp; vm_compute; reflexivity. Qed.


