(* ===== verification/Sockets.v ===== *)
(** * Sockets: the connection pools of REQ, REP and ROUTER
    (src/socket_req.go, src/socket_rep.go, src/socket_router.go,
     src/protocol_msgio.go)

    The reader, the writer and the shared state of a socket refer to the same
    connections by pointer, so connections live in a store. A pool operation
    is a computation over the store and the pool's own fields. Goroutines that
    loop ([listen], [run]) are modelled by one iteration; channels are lists,
    and an iteration that would block on a full channel (capacity 10) is not
    enabled. Calls whose context is done are in Cancel and Deadline. *)

From Stdlib Require Import Strings.Byte ZArith Lia.
From stdpp Require Import base strings numbers gmap list.
From S2P Require Import Prelude Zmtp Conn ConnFacts.

#[local] Open Scope Z_scope.
#[local] Set Default Goal Selector "!".

(** A pointer to a [Conn]. *)
Abbreviation cptr := nat.

Section pools.
Context {SS : Type} (sec : secops SS) (maxAlloc : Z).

Abbreviation store := (gmap cptr (Conn SS)).

(** A method call on a connection of the store, and a read of its fields. *)
Definition on_conn {X A} (p : cptr) (m : M (Conn SS) A) : M (store * X) A := fun '(st, x) =>
  match st !! p with
  | Some c => let '(r, c') := m c in (r, (<[p := c']> st, x))
  | None => (Panic "nil pointer dereference", (st, x))
  end.

Definition upd {X} (f : X → X) : M (store * X) unit := fun '(st, x) => (Ret tt, (st, f x)).
Definition own {X} : M (store * X) X := fun '(st, x) => (Ret x, (st, x)).

(** [rmConn]'s loop: the first occurrence is cut out. *)
Fixpoint cut_conn (p : cptr) (l : list cptr) : list cptr :=
  match l with
  | [] => []
  | q :: l' => if decide (q = p) then l' else q :: cut_conn p l'
  end.

(** [for _, conn := range conns { e := conn.Close(); if e != nil && err == nil { err = e } }] *)
Fixpoint close_all {X} (l : list cptr) (err : option error) : M (store * X) (option error) :=
  match l with
  | [] => mret err
  | p :: l' =>
      r ← try (on_conn p Conn_Close);
      close_all l' (match r, err with inr e, None => Some e | _, _ => err end)
  end.

(** ** REQ *)

Record reqPool : Type := mkReq {
  rq_conns : list cptr;
  rq_nextConn : Z;
  rq_lastConn : option cptr }.

Definition newReq : reqPool := mkReq [] 0 None.

Definition reqState_Set (p : cptr) : M (store * reqPool) unit :=
  upd (fun r => mkReq (rq_conns r) (rq_nextConn r) (Some p)).
Definition reqState_Reset (p : cptr) : M (store * reqPool) unit :=
  upd (fun r => mkReq (rq_conns r) (rq_nextConn r)
                  (if decide (rq_lastConn r = Some p) then None else rq_lastConn r)).
Definition reqState_Get : M (store * reqPool) (option cptr) := r ← own; mret (rq_lastConn r).

(** The loop of [reqWriter.write]. The operators bind as Go parses them:
    [i + (nextConn % n)] and [cur + (1 % n)]. *)
Fixpoint reqWriter_loop (todo : list Z) (msg : Msg) (err : option error) : M (store * reqPool) unit :=
  match todo with
  | [] => mfail (match err with Some e => Wrap "zmq4: no connections available" e
                 | None => Errorf "zmq4: no connections available" end)
  | i :: todo' =>
      r ← own;
      let n := len (rq_conns r) in
      let cur := i + Z.rem (rq_nextConn r) n in
      conn ← lift (idx (rq_conns r) (Z.to_nat cur));
      e ← try (on_conn conn (Conn_SendMsg sec msg));
      match e with
      | inl _ =>
          upd (fun r => mkReq (rq_conns r) (cur + Z.rem 1 n) (rq_lastConn r));;
          reqState_Set conn
      | inr e => reqWriter_loop todo' msg (Some e)
      end
  end.

Definition reqWriter_write (msg : Msg) : M (store * reqPool) unit :=
  let msg := mkMsg ([] :: Frames msg) (Typ msg) (multipart msg) (msgerr msg) in
  r ← own;
  reqWriter_loop (Z.of_nat <$> seq 0 (length (rq_conns r))) msg None.

Definition reqWriter_addConn (p : cptr) : M (store * reqPool) unit :=
  upd (fun r => mkReq (rq_conns r ++ [p]) (rq_nextConn r) (rq_lastConn r)).
Definition reqWriter_rmConn (p : cptr) : M (store * reqPool) unit :=
  upd (fun r => mkReq (cut_conn p (rq_conns r)) (rq_nextConn r) (rq_lastConn r));;
  reqState_Reset p.

Definition reqWriter_Close : M (store * reqPool) unit :=
  r ← own;
  err ← close_all (rq_conns r) None;
  upd (fun r => mkReq [] (rq_nextConn r) (rq_lastConn r));;
  match err with Some e => mfail e | None => mret tt end.

Definition reqReader_read : M (store * reqPool) Msg :=
  cur ← reqState_Get;
  match cur with
  | None => mfail (Errorf "zmq4: no connections available")
  | Some p =>
      msg ← on_conn p (Conn_read sec maxAlloc);
      match msgerr msg with
      | Some e => mfail e
      | None =>
          mret (mkMsg (if decide (1 < len (Frames msg)) then drop 1 (Frames msg) else Frames msg)
                  (Typ msg) (multipart msg) None)
      end
  end.

(** ** REP *)

(** [splitReq]: the loop does not stop at the first empty frame, so the last
    one wins; [pre] is the part already seen. *)
Fixpoint splitReq_loop (pre rest : list bytes) (acc : option (list bytes) * Msg) : option (list bytes) * Msg :=
  match rest with
  | [] => acc
  | frame :: rest' =>
      let pre' := pre ++ [frame] in
      if decide (len frame ≠ 0) then splitReq_loop pre' rest' acc
      else splitReq_loop pre' rest' (Some pre', if decide (0 < len rest') then NewMsgFrom rest' else snd acc)
  end.

Definition splitReq (envelope : Msg) : option (list bytes) * Msg :=
  splitReq_loop [] (Frames envelope) (None, emptyMsg).

Record repPool : Type := mkRep {
  rp_rconns : list cptr;                 (* of the reader *)
  rp_wconns : list cptr;                 (* of the writer *)
  rp_msgCh : list (cptr * Msg);
  rp_conn : option cptr;                 (* [repState] *)
  rp_preamble : list bytes;
  rp_sendClosed : bool                   (* [sendCh] has been closed *) }.

Definition newRep : repPool := mkRep [] [] [] None [] false.

Definition repState_Set (p : cptr) (pre : list bytes) : M (store * repPool) unit :=
  upd (fun r => mkRep (rp_rconns r) (rp_wconns r) (rp_msgCh r) (Some p) pre (rp_sendClosed r)).

Definition repReader_addConn (p : cptr) : M (store * repPool) unit :=
  upd (fun r => mkRep (rp_rconns r ++ [p]) (rp_wconns r) (rp_msgCh r) (rp_conn r) (rp_preamble r) (rp_sendClosed r)).
Definition repReader_rmConn (p : cptr) : M (store * repPool) unit :=
  upd (fun r => mkRep (cut_conn p (rp_rconns r)) (rp_wconns r) (rp_msgCh r) (rp_conn r) (rp_preamble r) (rp_sendClosed r)).
Definition repWriter_addConn (p : cptr) : M (store * repPool) unit :=
  upd (fun r => mkRep (rp_rconns r) (rp_wconns r ++ [p]) (rp_msgCh r) (rp_conn r) (rp_preamble r) (rp_sendClosed r)).
Definition repWriter_rmConn (p : cptr) : M (store * repPool) unit :=
  upd (fun r => mkRep (rp_rconns r) (cut_conn p (rp_wconns r)) (rp_msgCh r) (rp_conn r) (rp_preamble r) (rp_sendClosed r)).

(** One iteration of [listen]: whether the goroutine goes on. *)
Definition repReader_listen (p : cptr) : M (store * repPool) bool :=
  msg ← on_conn p (Conn_read sec maxAlloc);
  match msgerr msg with
  | Some _ => _ ← try (on_conn p Conn_Close); repReader_rmConn p;; mret false
  | None =>
      upd (fun r => mkRep (rp_rconns r) (rp_wconns r) (rp_msgCh r ++ [(p, msg)]) (rp_conn r) (rp_preamble r) (rp_sendClosed r));;
      mret true
  end.

(** [read] with a message in the channel; without one it blocks ([None]). *)
Definition repReader_read : M (store * repPool) (option Msg) :=
  r ← own;
  match rp_msgCh r with
  | [] => mret None
  | (p, m) :: rest =>
      upd (fun r => mkRep (rp_rconns r) (rp_wconns r) rest (rp_conn r) (rp_preamble r) (rp_sendClosed r));;
      match msgerr m with
      | Some e => mfail e
      | None =>
          match splitReq m with
          | (None, _) => mfail (Errorf "zmq4: invalid REP message")
          | (Some pre, innerMsg) => repState_Set p pre;; mret (Some innerMsg)
          end
      end
  end.

Definition buildReplyMsg (preamble : list bytes) (msg : Msg) : Msg := NewMsgFrom (preamble ++ Frames msg).

Definition repWriter_sendPayload (p : option cptr) (preamble : list bytes) (msg : Msg) : M (store * repPool) unit :=
  r ← own;
  match p with
  | Some p =>
      if decide (p ∈ rp_wconns r) then
        _ ← try (on_conn p (Conn_SendMsg sec (buildReplyMsg preamble msg))); mret tt
      else mret tt
  | None => mret tt
  end.

(** [write], with a context that is not done: the state is read and the
    payload handed to [run], which sends it. *)
Definition repWriter_write (msg : Msg) : M (store * repPool) unit :=
  r ← own;
  if rp_sendClosed r then mpanic "send on closed channel"
  else repWriter_sendPayload (rp_conn r) (rp_preamble r) msg.

Definition repWriter_Close : M (store * repPool) unit :=
  r ← own;
  if rp_sendClosed r then mpanic "close of closed channel"
  else
    upd (fun r => mkRep (rp_rconns r) (rp_wconns r) (rp_msgCh r) (rp_conn r) (rp_preamble r) true);;
    err ← close_all (rp_wconns r) None;
    upd (fun r => mkRep (rp_rconns r) [] (rp_msgCh r) (rp_conn r) (rp_preamble r) (rp_sendClosed r));;
    match err with Some e => mfail e | None => mret tt end.

Definition repReader_Close : M (store * repPool) unit :=
  r ← own;
  err ← close_all (rp_rconns r) None;
  upd (fun r => mkRep [] (rp_wconns r) (rp_msgCh r) (rp_conn r) (rp_preamble r) (rp_sendClosed r));;
  match err with Some e => mfail e | None => mret tt end.

(** ** ROUTER *)

Record routerPool : Type := mkRouter {
  ro_rs : list cptr;
  ro_ws : list cptr;
  ro_c : list Msg;
  ro_rsem : bool;                        (* enabled by the first [addConn] *)
  ro_wsem : bool }.

Definition newRouter : routerPool := mkRouter [] [] [] false false.

(** The identity a peer announced, empty when it announced none. *)
Definition peer_id (c : Conn SS) : bytes := default [] (c_PeerMeta c !! sysSockID).

Definition routerQReader_addConn (p : cptr) : M (store * routerPool) unit :=
  upd (fun r => mkRouter (ro_rs r ++ [p]) (ro_ws r) (ro_c r) true (ro_wsem r)).
Definition routerMWriter_addConn (p : cptr) : M (store * routerPool) unit :=
  upd (fun r => mkRouter (ro_rs r) (ro_ws r ++ [p]) (ro_c r) (ro_rsem r) true).
Definition routerQReader_rmConn (p : cptr) : M (store * routerPool) unit :=
  upd (fun r => mkRouter (cut_conn p (ro_rs r)) (ro_ws r) (ro_c r) (ro_rsem r) (ro_wsem r)).
Definition routerMWriter_rmConn (p : cptr) : M (store * routerPool) unit :=
  upd (fun r => mkRouter (ro_rs r) (cut_conn p (ro_ws r)) (ro_c r) (ro_rsem r) (ro_wsem r)).

Definition routerQReader_listen (p : cptr) : M (store * routerPool) bool :=
  id ← on_conn p (c ← mget; mret (peer_id c));
  msg ← on_conn p (Conn_read sec maxAlloc);
  match msgerr msg with
  | Some _ => _ ← try (on_conn p Conn_Close); routerQReader_rmConn p;; mret false
  | None =>
      upd (fun r => mkRouter (ro_rs r) (ro_ws r)
             (ro_c r ++ [mkMsg (id :: Frames msg) (Typ msg) (multipart msg) None]) (ro_rsem r) (ro_wsem r));;
      mret true
  end.

(** [read]; [None] when it blocks: no connection yet, or an empty queue. *)
Definition routerQReader_read : M (store * routerPool) (option Msg) :=
  r ← own;
  match ro_rsem r, ro_c r with
  | true, msg :: rest =>
      upd (fun r => mkRouter (ro_rs r) (ro_ws r) rest (ro_rsem r) (ro_wsem r));;
      match msgerr msg with Some e => mfail e | None => mret (Some msg) end
  | _, _ => mret None
  end.

(** The sends of [write] to the connections with the identity [id]: the
    goroutines of the group write to different connections and are run in the
    order of the list; the group reports the first error. *)
Fixpoint routerMWriter_loop (ws : list cptr) (id : bytes) (dmsg : Msg) (err : option error)
    : M (store * routerPool) (option error) :=
  match ws with
  | [] => mret err
  | p :: ws' =>
      pid ← on_conn p (c ← mget; mret (peer_id c));
      if negb (beq pid id) then routerMWriter_loop ws' id dmsg err
      else
        e ← try (on_conn p (Conn_SendMsg sec dmsg));
        routerMWriter_loop ws' id dmsg (match e, err with inr e, None => Some e | _, _ => err end)
  end.

(** [write]; [None] when it blocks on the semaphore. *)
Definition routerMWriter_write (msg : Msg) : M (store * routerPool) (option unit) :=
  r ← own;
  if negb (ro_wsem r) then mret None
  else
    id ← lift (idx (Frames msg) 0);
    let dmsg := NewMsgFrom (drop 1 (Frames msg)) in
    err ← routerMWriter_loop (ro_ws r) id dmsg None;
    match err with Some e => mfail e | None => mret (Some tt) end.

Definition routerQReader_Close : M (store * routerPool) unit :=
  r ← own;
  err ← close_all (ro_rs r) None;
  upd (fun r => mkRouter [] (ro_ws r) (ro_c r) (ro_rsem r) (ro_wsem r));;
  match err with Some e => mfail e | None => mret tt end.

Definition routerMWriter_Close : M (store * routerPool) unit :=
  r ← own;
  err ← close_all (ro_ws r) None;
  upd (fun r => mkRouter (ro_rs r) [] (ro_c r) (ro_rsem r) (ro_wsem r));;
  match err with Some e => mfail e | None => mret tt end.

(** ** The queueing reader and the broadcasting writer (protocol_msgio.go) *)

Record ioPool : Type := mkIo {
  io_rs : list cptr;
  io_ws : list cptr;
  io_c : list Msg;
  io_rsem : bool;
  io_wsem : bool }.

Definition newIo : ioPool := mkIo [] [] [] false false.

Definition qreader_addConn (p : cptr) : M (store * ioPool) unit :=
  upd (fun r => mkIo (io_rs r ++ [p]) (io_ws r) (io_c r) true (io_wsem r)).
Definition qreader_rmConn (p : cptr) : M (store * ioPool) unit :=
  upd (fun r => mkIo (cut_conn p (io_rs r)) (io_ws r) (io_c r) (io_rsem r) (io_wsem r)).
Definition mwriter_addConn (p : cptr) : M (store * ioPool) unit :=
  upd (fun r => mkIo (io_rs r) (io_ws r ++ [p]) (io_c r) (io_rsem r) true).
Definition mwriter_rmConn (p : cptr) : M (store * ioPool) unit :=
  upd (fun r => mkIo (io_rs r) (cut_conn p (io_ws r)) (io_c r) (io_rsem r) (io_wsem r)).

(** Unlike the ROUTER's, this [listen] queues the message that carries the
    error before it ends. *)
Definition qreader_listen (p : cptr) : M (store * ioPool) bool :=
  msg ← on_conn p (Conn_read sec maxAlloc);
  upd (fun r => mkIo (io_rs r) (io_ws r) (io_c r ++ [msg]) (io_rsem r) (io_wsem r));;
  match msgerr msg with
  | Some _ => _ ← try (on_conn p Conn_Close); qreader_rmConn p;; mret false
  | None => mret true
  end.

Definition qreader_read : M (store * ioPool) (option Msg) :=
  r ← own;
  match io_rsem r, io_c r with
  | true, msg :: rest =>
      upd (fun r => mkIo (io_rs r) (io_ws r) rest (io_rsem r) (io_wsem r));;
      match msgerr msg with Some e => mfail e | None => mret (Some msg) end
  | _, _ => mret None
  end.

Fixpoint mwriter_loop (ws : list cptr) (msg : Msg) (err : option error) : M (store * ioPool) (option error) :=
  match ws with
  | [] => mret err
  | p :: ws' =>
      e ← try (on_conn p (Conn_SendMsg sec msg));
      mwriter_loop ws' msg (match e, err with inr e, None => Some e | _, _ => err end)
  end.

Definition mwriter_write (msg : Msg) : M (store * ioPool) (option unit) :=
  r ← own;
  if negb (io_wsem r) then mret None
  else
    err ← mwriter_loop (io_ws r) msg None;
    match err with Some e => mfail e | None => mret (Some tt) end.

Definition qreader_Close : M (store * ioPool) unit :=
  r ← own;
  err ← close_all (io_rs r) None;
  upd (fun r => mkIo [] (io_ws r) (io_c r) (io_rsem r) (io_wsem r));;
  match err with Some e => mfail e | None => mret tt end.

Definition mwriter_Close : M (store * ioPool) unit :=
  r ← own;
  err ← close_all (io_ws r) None;
  upd (fun r => mkIo (io_rs r) [] (io_c r) (io_rsem r) (io_wsem r));;
  match err with Some e => mfail e | None => mret tt end.
End pools.
