(* ===== verification/SocketFacts.v ===== *)
(** * SocketFacts: REQ/REP exchanges, rotation and routing

    A request travels from a REQ to a REP socket and its reply back; where the
    REP socket cuts a request; which connection a REQ socket writes to and
    what it does when a send fails; which connections a ROUTER writes to. *)

From Stdlib Require Import Strings.Byte ZArith Lia.
From stdpp Require Import base strings numbers gmap list.
From S2P Require Import Prelude Zmtp Conn ConnFacts Sockets.

#[local] Open Scope Z_scope.
#[local] Set Default Goal Selector "!".

(** ** Lemmas *)

(** Frames with contents, as application payloads usually are. *)
Definition no_empty (frames : list bytes) : Prop := Forall (fun f => f ≠ []) frames.

Lemma splitReq_loop_tail rest : no_empty rest → ∀ pre acc, splitReq_loop pre rest acc = acc.
Proof.
  induction 1 as [|f rest Hf _ IH]; intros pre acc; cbn [splitReq_loop]; [done|].
  rewrite decide_True by (by rewrite len_nil_iff). apply IH.
Qed.

Lemma splitReq_loop_app env : ∀ pre rest acc,
  ∃ acc', splitReq_loop pre (env ++ rest) acc = splitReq_loop (pre ++ env) rest acc'.
Proof.
  induction env as [|f env IH]; intros pre rest acc; cbn [app splitReq_loop].
  - exists acc. by rewrite app_nil_r.
  - case_decide.
    + destruct (IH (pre ++ [f]) rest acc) as [acc' ->]. exists acc'. by rewrite <- app_assoc.
    + destruct (IH (pre ++ [f]) rest (Some (pre ++ [f]), if decide (0 < len (env ++ rest)) then NewMsgFrom (env ++ rest) else acc.2)) as [acc' ->].
      exists acc'. by rewrite <- app_assoc.
Qed.

(** The request is cut at its last empty frame. *)
Lemma splitReq_last env body m :
  Frames m = env ++ [] :: body → no_empty body → body ≠ [] →
  splitReq m = (Some (env ++ [[]]), NewMsgFrom body).
Proof.
  intros Hf Hb Hne. unfold splitReq. rewrite Hf.
  destruct (splitReq_loop_app env [] ([] :: body) (None, emptyMsg)) as [acc ->]. cbn [app splitReq_loop].
  rewrite decide_False by (intros H; by apply H). rewrite splitReq_loop_tail by done.
  rewrite decide_True; [done|]. destruct body; [done|]. rewrite len_cons. pose proof (len_nonneg body). lia.
Qed.

Section ends.
Context {SS : Type} (sec : secops SS) `{!Transparent sec} (maxAlloc : Z).

(** A connection that is open in both directions and has not been closed. *)
Definition live (c : Conn SS) : Prop := writable c ∧ c_closed c = false.

Lemma live_wrote w c : live c → live (wrote w c).
Proof. by intros [[] ]. Qed.
Lemma live_reading r c : live c → live (reading r c).
Proof. by intros [[] ]. Qed.

Lemma SendMsg_live msg c :
  live c → Conn_SendMsg sec msg c = (Ret tt, wrote (msg_wire false (Frames msg)) c).
Proof.
  intros [Hw Hc]. unfold Conn_SendMsg. mstep reflexivity. unfold Conn_Closed. rewrite Hc.
  destruct (multipart msg); [|by apply SendMsg_loop_wire].
  unfold Conn_sendMulti. destruct (sendMulti_buffers_wire sec (Frames msg) c) as (bufs & Hb & Hcat).
  mstep exact Hb. rewrite Hcat. by apply checked_write.
Qed.

Lemma SendMsg_closed msg c : c_closed c = true → Conn_SendMsg sec msg c = (Fail ErrClosedConn, c).
Proof. intros Hc. unfold Conn_SendMsg. mstep reflexivity. unfold Conn_Closed. by rewrite Hc. Qed.

Lemma on_conn_eq {X A} p (m : M (Conn SS) A) (st : gmap cptr (Conn SS)) (x : X) c r c' :
  st !! p = Some c → m c = (r, c') → on_conn p m (st, x) = (r, (<[p := c']> st, x)).
Proof. intros Hp Hm. unfold on_conn. by rewrite Hp, Hm. Qed.

Lemma try_send {X} p msg (st : gmap cptr (Conn SS)) (x : X) c :
  st !! p = Some c → live c →
  try (on_conn p (Conn_SendMsg sec msg)) (st, x) =
    (Ret (inl tt), (<[p := wrote (msg_wire false (Frames msg)) c]> st, x)).
Proof. intros Hp Hl. unfold try. by rewrite (on_conn_eq p _ st x c _ _ Hp (SendMsg_live msg c Hl)). Qed.

Lemma try_send_closed {X} p msg (st : gmap cptr (Conn SS)) (x : X) c :
  st !! p = Some c → c_closed c = true →
  try (on_conn p (Conn_SendMsg sec msg)) (st, x) = (Ret (inr ErrClosedConn), (st, x)).
Proof.
  intros Hp Hc. unfold try. rewrite (on_conn_eq p _ st x c _ _ Hp (SendMsg_closed msg c Hc)).
  by rewrite insert_id.
Qed.

(** Frames the receiver can allocate. *)
Definition fits (frames : list bytes) : Prop := Forall (fun f => len f <= maxAlloc ∧ len f <= maxInt64) frames.

Lemma on_conn_read {X} p (st : gmap cptr (Conn SS)) (x : X) c frames r :
  st !! p = Some c → live c → frames ≠ [] → fits frames → nc_in (c_rw c) = msg_wire false frames ++ r →
  on_conn p (Conn_read sec maxAlloc) (st, x) = (Ret (NewMsgFrom frames), (<[p := reading r c]> st, x)).
Proof.
  intros Hp [[Ho _] _] Hne Hf Hin. eapply on_conn_eq; [done|]. by apply (Conn_read_wire sec maxAlloc false).
Qed.

(** ** REQ: which connection is used *)

(** The connection a REQ socket tries first. *)
Definition req_target (rq : reqPool) : Z := Z.rem (rq_nextConn rq) (len (rq_conns rq)).

Lemma req_write_ok msg st rq p c :
  0 <= rq_nextConn rq → rq_conns rq !! Z.to_nat (req_target rq) = Some p → st !! p = Some c → live c →
  reqWriter_write sec msg (st, rq) =
    (Ret tt, (<[p := wrote (msg_wire false ([] :: Frames msg)) c]> st,
              mkReq (rq_conns rq) (req_target rq + Z.rem 1 (len (rq_conns rq))) (Some p))).
Proof.
  intros Hn Hp Hc Hl. unfold reqWriter_write. mstep reflexivity.
  destruct (rq_conns rq) as [|p0 l] eqn:El; [done|]. cbn [length seq fmap list_fmap reqWriter_loop].
  mstep reflexivity. rewrite El. change (Z.of_nat 0 + Z.rem (rq_nextConn rq) (len (p0 :: l))) with (Z.rem (rq_nextConn rq) (len (p0 :: l))).
  unfold req_target in *. rewrite El in *.
  mstep (apply lift_ret; unfold idx; by rewrite Hp).
  mstep (by apply try_send). rewrite <- El. done.
Qed.

Lemma rem_one n : 0 < n → Z.rem 1 n = if decide (n = 1) then 0 else 1.
Proof. intros H. case_decide as E; [by subst|]. apply Z.rem_small. lia. Qed.

Lemma req_target_range rq : 0 <= rq_nextConn rq → rq_conns rq ≠ [] → 0 <= req_target rq < len (rq_conns rq).
Proof.
  intros Hn Hne. unfold req_target. apply Z.rem_bound_pos; [done|].
  destruct (rq_conns rq); [done|]. rewrite len_cons. pose proof (len_nonneg l). lia.
Qed.
End ends.

(** REQ rotation: on connections that accept, a REQ socket writes each
    request, behind an empty delimiter frame, to exactly one connection, it
    remembers that one for the reply, and the next request goes to the next
    connection in the list, cyclically. But when the connection whose turn it
    is has been closed and it is the last of several, [write] does not move
    on to the first one: it indexes past the end of the list and panics. *)
Theorem req_rotation {SS : Type} (sec : secops SS) `{!Transparent sec}
    (st : gmap cptr (Conn SS)) (rq : reqPool) (msg : Msg) :
  0 <= rq_nextConn rq → rq_conns rq ≠ [] →
  (∀ p, p ∈ rq_conns rq → ∃ c, st !! p = Some c ∧ (c_closed c = false → live c)) →
  ∃ p c, rq_conns rq !! Z.to_nat (req_target rq) = Some p ∧ st !! p = Some c ∧
    (c_closed c = false →
       ∃ rq', reqWriter_write sec msg (st, rq) =
           (Ret tt, (<[p := wrote (msg_wire false ([] :: Frames msg)) c]> st, rq')) ∧
         rq_conns rq' = rq_conns rq ∧ rq_lastConn rq' = Some p ∧ 0 <= rq_nextConn rq' ∧
         req_target rq' = (req_target rq + 1) mod len (rq_conns rq)) ∧
    (c_closed c = true → 1 < len (rq_conns rq) → req_target rq = len (rq_conns rq) - 1 →
       (reqWriter_write sec msg (st, rq)).1 = Panic "index out of range").
Proof.
  intros Hn Hne Hall. pose proof (req_target_range rq Hn Hne) as Ht.
  destruct (lookup_lt_is_Some_2 (rq_conns rq) (Z.to_nat (req_target rq))) as [p Hp]; [unfold len in Ht; lia|].
  destruct (Hall p (list_elem_of_lookup_2 _ _ _ Hp)) as (c & Hc & Hl).
  exists p, c. split; [done|]. split; [done|]. split.
  - intros Hopen. eexists. split; [by apply req_write_ok; auto|]. cbn. split; [done|]. split; [done|].
    rewrite rem_one by lia. split; [case_decide; lia|]. unfold req_target at 1. cbn.
    case_decide as E1.
    + rewrite E1, Z.mod_1_r, Z.rem_1_r. done.
    + apply Z.rem_mod_nonneg; lia.
  - intros Hclosed Hlen Hlast. unfold reqWriter_write. rewrite (M_bind_ret own _ _ rq (st, rq)) by done.
    destruct (rq_conns rq) as [|p0 [|p1 l]] eqn:El; [done|unfold len in Hlen; simpl in Hlen; lia|].
    cbn [length seq fmap list_fmap reqWriter_loop].
    rewrite (M_bind_ret own _ _ rq (st, rq)) by done. rewrite El.
    unfold req_target in *. rewrite El in *.
    change (Z.of_nat 0 + Z.rem (rq_nextConn rq) (len (p0 :: p1 :: l))) with (Z.rem (rq_nextConn rq) (len (p0 :: p1 :: l))).
    rewrite (M_bind_ret _ _ _ p (st, rq)) by (apply lift_ret; unfold idx; by rewrite Hp).
    rewrite (M_bind_ret _ _ _ _ _ (try_send_closed sec p _ st rq c Hc Hclosed)).
    rewrite (M_bind_ret own _ _ rq (st, rq)) by done. rewrite El, Hlast.
    unfold mbind at 1, M_bind, lift, idx. rewrite lookup_ge_None_2; [done|]. unfold len. lia.
Qed.

(** A live connection for examples. *)
Definition idle_conn : Conn unit := test_conn Req [].
Definition dead_conn : Conn unit := set_closed true None idle_conn.

Lemma req_rotation_witness :
  (reqWriter_write nullSecurity (NewMsg (gs "hi")) ({[1%nat := idle_conn; 2%nat := dead_conn]}, mkReq [1%nat; 2%nat] 1 None)).1
  = Panic "index out of range".
Proof.
  destruct (req_rotation nullSecurity {[1%nat := idle_conn; 2%nat := dead_conn]} (mkReq [1%nat; 2%nat] 1 None)
    (NewMsg (gs "hi")) ltac:(cbn; lia) ltac:(done)) as (p & c & Hp & Hc & _ & Hpanic).
  - intros p Hp. apply list_elem_of_In in Hp. destruct Hp as [<-|[<-|[]]]; eexists; (split; [reflexivity|]); done.
  - cbn in Hp. injection Hp as <-. cbn in Hc. injection Hc as <-. by apply Hpanic.
Defined.

(** ** REQ and REP together *)

(** One turn of a REP server on connection [q]: [listen] takes a message from
    the connection, [Recv] hands it to the application, [Send] returns the
    application's answer. *)
Definition rep_serve {SS} (sec : secops SS) (maxAlloc : Z) (q : cptr) (f : list bytes → list bytes)
    : M (gmap cptr (Conn SS) * repPool) (list bytes) :=
  _ ← repReader_listen sec maxAlloc q;
  m ← repReader_read;
  match m with
  | None => mfail (Errorf "no message")
  | Some m => repWriter_write sec (NewMsgFrom (f (Frames m)));; mret (Frames m)
  end.

(** The three steps of [rep_serve]. *)
Lemma rep_listen_wire {SS} (sec : secops SS) `{!Transparent sec} maxAlloc q st rp d frames rest :
  st !! q = Some d → live d → frames ≠ [] → fits maxAlloc frames →
  nc_in (c_rw d) = msg_wire false frames ++ rest →
  repReader_listen sec maxAlloc q (st, rp) =
    (Ret true, (<[q := reading rest d]> st,
       mkRep (rp_rconns rp) (rp_wconns rp) (rp_msgCh rp ++ [(q, NewMsgFrom frames)]) (rp_conn rp) (rp_preamble rp) (rp_sendClosed rp))).
Proof.
  intros Hq Hl Hne Hf Hwire. unfold repReader_listen.
  rewrite (M_bind_ret _ _ _ _ _ (on_conn_read sec maxAlloc q st rp d frames rest Hq Hl Hne Hf Hwire)). done.
Qed.

Lemma rep_read_split {SS} (st : gmap cptr (Conn SS)) rs ws q c pre cl env body :
  no_empty body → body ≠ [] →
  repReader_read (st, mkRep rs ws [(q, NewMsgFrom (env ++ [] :: body))] c pre cl) =
    (Ret (Some (NewMsgFrom body)), (st, mkRep rs ws [] (Some q) (env ++ [[]]) cl)).
Proof.
  intros Hb Hne. unfold repReader_read. mstep reflexivity. cbn [rp_msgCh]. mstep reflexivity.
  cbn [msgerr NewMsgFrom]. by rewrite (splitReq_last env body) by done.
Qed.

Lemma rep_write_wire {SS} (sec : secops SS) `{!Transparent sec} st rs ws q d pre body :
  st !! q = Some d → live d → q ∈ ws →
  repWriter_write sec (NewMsgFrom body) (st, mkRep rs ws [] (Some q) pre false) =
    (Ret tt, (<[q := wrote (msg_wire false (pre ++ body)) d]> st, mkRep rs ws [] (Some q) pre false)).
Proof.
  intros Hq Hl Hin. unfold repWriter_write, repWriter_sendPayload. mstep reflexivity. cbn [rp_sendClosed rp_conn].
  mstep reflexivity. rewrite decide_True by done.
  rewrite (M_bind_ret _ _ _ _ _ (try_send sec q (buildReplyMsg pre (NewMsgFrom body)) st _ d Hq Hl)). done.
Qed.

Lemma rep_serve_wire {SS} (sec : secops SS) `{!Transparent sec} maxAlloc q f st rp d env body rest :
  st !! q = Some d → live d → q ∈ rp_wconns rp → rp_msgCh rp = [] → rp_sendClosed rp = false →
  no_empty body → body ≠ [] → fits maxAlloc (env ++ [] :: body) →
  nc_in (c_rw d) = msg_wire false (env ++ [] :: body) ++ rest →
  ∃ rp', rep_serve sec maxAlloc q f (st, rp) =
    (Ret body, (<[q := wrote (msg_wire false (env ++ [[]] ++ f body)) (reading rest d)]> st, rp')).
Proof.
  intros Hq Hl Hin Hch Hop Hb Hne Hfits Hwire. eexists. unfold rep_serve.
  rewrite (M_bind_ret _ _ _ _ _ (rep_listen_wire sec maxAlloc q st rp d (env ++ [] :: body) rest Hq Hl ltac:(by destruct env) Hfits Hwire)).
  rewrite Hch, Hop. cbn [app]. rewrite (M_bind_ret _ _ _ _ _ (rep_read_split _ _ _ q _ _ _ env body Hb Hne)).
  rewrite (M_bind_ret _ _ _ _ _ (rep_write_wire sec _ _ _ q (reading rest d) _ _ (lookup_insert_eq _ _ _) (live_reading rest d Hl) Hin)).
  rewrite insert_insert_eq. cbn [Frames NewMsgFrom]. by rewrite <- app_assoc.
Qed.

(** C8. Request and reply: let a REQ socket send a payload of non-empty
    frames, the REP socket at the other end of the chosen connection receive
    exactly the bytes that were written, and the REQ socket receive exactly
    the bytes the REP socket writes. Then the server's application gets the
    payload, whatever it answers (at least one frame) is what the client
    receives, and the bytes that follow in both directions stay unread. *)
Theorem req_rep_exchange {SS SS' : Type} (sec : secops SS) (sec' : secops SS')
    `{!Transparent sec, !Transparent sec'} (maxAlloc : Z)
    (stq : gmap cptr (Conn SS)) (rq : reqPool) (p : cptr) (c : Conn SS)
    (str : gmap cptr (Conn SS')) (rp : repPool) (q : cptr) (d : Conn SS')
    (payload : list bytes) (f : list bytes → list bytes) (rest rest' : bytes) :
  0 <= rq_nextConn rq → rq_conns rq !! Z.to_nat (req_target rq) = Some p → stq !! p = Some c → live c →
  live d → q ∈ rp_wconns rp → rp_msgCh rp = [] → rp_sendClosed rp = false →
  no_empty payload → payload ≠ [] → f payload ≠ [] →
  fits maxAlloc ([] :: payload) → fits maxAlloc ([] :: f payload) →
  ∃ w w' rq' rp',
    reqWriter_write sec (NewMsgFrom payload) (stq, rq) = (Ret tt, (<[p := wrote w c]> stq, rq')) ∧
    rep_serve sec' maxAlloc q f (<[q := reading (w ++ rest) d]> str, rp) =
      (Ret payload, (<[q := wrote w' (reading rest d)]> str, rp')) ∧
    reqReader_read sec maxAlloc (<[p := reading (w' ++ rest') (wrote w c)]> stq, rq') =
      (Ret (NewMsgFrom (f payload)), (<[p := reading rest' (wrote w c)]> stq, rq')).
Proof.
  intros Hn Hp Hc Hl Hd Hq Hch Hop Hpay Hne Hfne Hfit Hfit'.
  destruct (rep_serve_wire sec' maxAlloc q f (<[q := reading (msg_wire false ([] :: payload) ++ rest) d]> str) rp
    (reading (msg_wire false ([] :: payload) ++ rest) d) [] payload rest) as [rp' Hrep];
    [by rewrite lookup_insert_eq|by apply live_reading|done..|].
  eexists (msg_wire false ([] :: payload)), (msg_wire false ([[]] ++ f payload)), _, rp'.
  split; [by apply req_write_ok|]. split.
  - rewrite Hrep. rewrite insert_insert_eq. done.
  - unfold reqReader_read, reqState_Get. mstep reflexivity. cbn [rq_lastConn].
    mstep (eapply (on_conn_read sec maxAlloc p _ _ _ ([[]] ++ f payload) rest');
      [by rewrite lookup_insert_eq|by apply live_reading, live_wrote|done|exact Hfit'|done]).
    cbn [msgerr NewMsgFrom Frames Typ multipart]. rewrite decide_True.
    + rewrite insert_insert_eq. done.
    + destruct (f payload); [done|]. unfold len. simpl. lia.
Qed.

Lemma req_rep_exchange_witness :
  ∃ w w' rq' rp',
    reqWriter_write nullSecurity (NewMsgFrom [gs "ping"]) ({[1%nat := idle_conn]}, mkReq [1%nat] 0 None)
      = (Ret tt, (<[1%nat := wrote w idle_conn]> {[1%nat := idle_conn]}, rq')) ∧
    rep_serve nullSecurity 1000 5 (fun _ => [gs "pong"]) (<[5%nat := reading (w ++ []) idle_conn]> ∅, mkRep [5%nat] [5%nat] [] None [] false) =
      (Ret [gs "ping"], (<[5%nat := wrote w' (reading [] idle_conn)]> ∅, rp')) ∧
    reqReader_read nullSecurity 1000 (<[1%nat := reading (w' ++ []) (wrote w idle_conn)]> {[1%nat := idle_conn]}, rq') =
      (Ret (NewMsgFrom [gs "pong"]), (<[1%nat := reading [] (wrote w idle_conn)]> {[1%nat := idle_conn]}, rq')).
Proof.
  refine (req_rep_exchange nullSecurity nullSecurity 1000 {[1%nat := idle_conn]} (mkReq [1%nat] 0 None) 1 idle_conn
    ∅ (mkRep [5%nat] [5%nat] [] None [] false) 5 idle_conn [gs "ping"] (fun _ => [gs "pong"]) [] [] _ _ _ _ _ _ _ _ _ _ _ _ _);
    try done; try (by repeat constructor); try (repeat constructor; vm_compute; congruence).
Defined.

(** Where REP cuts a request: at the last empty frame, not at the first.
    When the payload of a request contains an empty frame, the application
    receives only what follows the last one, and the frames before it are
    taken for the return envelope and sent back in front of the reply. *)
Theorem rep_cuts_at_last_empty {SS : Type} (sec : secops SS) `{!Transparent sec} (maxAlloc : Z)
    (st : gmap cptr (Conn SS)) (rp : repPool) (q : cptr) (d : Conn SS)
    (head body : list bytes) (f : list bytes → list bytes) (rest : bytes) :
  st !! q = Some d → live d → q ∈ rp_wconns rp → rp_msgCh rp = [] → rp_sendClosed rp = false →
  no_empty body → body ≠ [] → fits maxAlloc ([] :: head ++ [] :: body) →
  nc_in (c_rw d) = msg_wire false ([] :: head ++ [] :: body) ++ rest →
  ∃ rp', rep_serve sec maxAlloc q f (st, rp) =
    (Ret body, (<[q := wrote (msg_wire false ([] :: head ++ [[]] ++ f body)) (reading rest d)]> st, rp')).
Proof. intros. by apply (rep_serve_wire sec maxAlloc q f st rp d ([] :: head) body rest). Qed.

Lemma rep_cuts_at_last_empty_witness :
  let d := test_conn Rep (msg_wire false [[]; gs "a"; []; gs "b"]) in
  ∃ rp', rep_serve nullSecurity 1000 5 (fun _ => [gs "ok"]) ({[5%nat := d]}, mkRep [5%nat] [5%nat] [] None [] false) =
    (Ret [gs "b"], (<[5%nat := wrote (msg_wire false [[]; gs "a"; []; gs "ok"]) (reading [] d)]> {[5%nat := d]}, rp')).
Proof.
  refine (rep_cuts_at_last_empty nullSecurity 1000 {[5%nat := test_conn Rep (msg_wire false [[]; gs "a"; []; gs "b"])]}
    (mkRep [5%nat] [5%nat] [] None [] false) 5 (test_conn Rep (msg_wire false [[]; gs "a"; []; gs "b"])) [gs "a"] [gs "b"]
    (fun _ => [gs "ok"]) [] _ _ _ _ _ _ _ _ _);
    try done; try (by repeat constructor); try (repeat constructor; vm_compute; congruence).
Defined.

(** ** ROUTER *)

(** The store after the bytes [w] have been written to the connections of
    [ws] that [sel] selects. *)
Definition routed {SS} (sel : Conn SS → bool) (w : bytes) (ws : list cptr) (st : gmap cptr (Conn SS)) : gmap cptr (Conn SS) :=
  map_imap (fun p c => Some (if decide (p ∈ ws ∧ sel c = true) then wrote w c else c)) st.

Section routed.
Context {SS : Type} (sel : Conn SS → bool) (w : bytes).
Implicit Types (st : gmap cptr (Conn SS)) (ws : list cptr).

Lemma routed_lookup ws st p c :
  st !! p = Some c → routed sel w ws st !! p = Some (if decide (p ∈ ws ∧ sel c = true) then wrote w c else c).
Proof. intros Hp. unfold routed. by rewrite map_lookup_imap, Hp. Qed.

Lemma routed_same ws st : (∀ p c, p ∈ ws → st !! p = Some c → sel c = false) → routed sel w ws st = st.
Proof.
  intros H. apply map_eq. intros i. unfold routed. rewrite map_lookup_imap.
  destruct (st !! i) as [c|] eqn:Hi; [|done]. cbn. rewrite decide_False; [done|].
  intros [Hin Hs]. rewrite (H i c Hin Hi) in Hs. done.
Qed.

Lemma routed_skip p c ws st : st !! p = Some c → sel c = false → routed sel w (p :: ws) st = routed sel w ws st.
Proof.
  intros Hp Hs. apply map_eq. intros i. unfold routed. rewrite !map_lookup_imap.
  destruct (st !! i) as [x|] eqn:Hi; [|done]. cbn. f_equal. apply decide_ext. rewrite elem_of_cons.
  split; [|tauto]. intros [[->|Hin] Hx]; [|done]. congruence.
Qed.

Lemma routed_take p c ws st :
  st !! p = Some c → sel c = true → p ∉ ws → routed sel w (p :: ws) st = routed sel w ws (<[p := wrote w c]> st).
Proof.
  intros Hp Hs Hnin. apply map_eq. intros i. unfold routed. rewrite !map_lookup_imap.
  destruct (decide (i = p)) as [->|Hne].
  - rewrite lookup_insert_eq, Hp. cbn. rewrite decide_True by (split; [left|]; done).
    by rewrite decide_False by tauto.
  - rewrite lookup_insert_ne by done. destruct (st !! i) as [x|]; [|done]. cbn. f_equal.
    apply decide_ext. rewrite elem_of_cons. tauto.
Qed.
End routed.

(** Every connection of a pool is in the store and live. *)
Definition all_live {SS} (ws : list cptr) (st : gmap cptr (Conn SS)) : Prop :=
  ∀ p, p ∈ ws → ∃ c, st !! p = Some c ∧ live c.

Lemma all_live_insert {SS} p ws (st : gmap cptr (Conn SS)) c :
  all_live (p :: ws) st → p ∉ ws → all_live ws (<[p := c]> st).
Proof.
  intros Hall Hp i Hi. destruct (Hall i (list_elem_of_further _ _ _ Hi)) as (x & Hx & Hl). exists x.
  rewrite lookup_insert_ne by (intros ->; done). done.
Qed.

Lemma all_live_tail {SS} p ws (st : gmap cptr (Conn SS)) : all_live (p :: ws) st → all_live ws st.
Proof. intros Hall i Hi. apply Hall. by right. Qed.

Lemma router_loop {SS} (sec : secops SS) `{!Transparent sec} id dmsg ro ws : ∀ st,
  NoDup ws → all_live ws st →
  routerMWriter_loop sec ws id dmsg None (st, ro) =
    (Ret None, (routed (fun c => beq (peer_id c) id) (msg_wire false (Frames dmsg)) ws st, ro)).
Proof.
  induction ws as [|p ws IH]; intros st Hnd Hall; cbn [routerMWriter_loop].
  - rewrite routed_same; [done|]. intros p c Hp. by apply elem_of_nil in Hp.
  - apply NoDup_cons in Hnd as [Hp Hnd]. destruct (Hall p (list_elem_of_here _ _)) as (c & Hc & Hl).
    assert (Hid : on_conn p (x ← mget; mret (peer_id x)) (st, ro) = (Ret (peer_id c), (st, ro))).
    { rewrite (on_conn_eq p (x ← mget; mret (peer_id x)) st ro c (Ret (peer_id c)) c Hc eq_refl). by rewrite insert_id. }
    mstep exact Hid. destruct (beq (peer_id c) id) eqn:Hm; cbn [negb].
    + mstep (by apply try_send). rewrite IH by (done || by apply all_live_insert).
      by rewrite (routed_take _ _ p c).
    + rewrite IH by (done || by eapply all_live_tail). by rewrite (routed_skip _ _ p c).
Qed.

Lemma mwriter_loop_all {SS} (sec : secops SS) `{!Transparent sec} msg io ws : ∀ st,
  NoDup ws → all_live ws st →
  mwriter_loop sec ws msg None (st, io) =
    (Ret None, (routed (fun _ => true) (msg_wire false (Frames msg)) ws st, io)).
Proof.
  induction ws as [|p ws IH]; intros st Hnd Hall; cbn [mwriter_loop].
  - rewrite routed_same; [done|]. intros p c Hp. by apply elem_of_nil in Hp.
  - apply NoDup_cons in Hnd as [Hp Hnd]. destruct (Hall p (list_elem_of_here _ _)) as (c & Hc & Hl).
    mstep (by apply try_send). rewrite IH by (done || by apply all_live_insert). by rewrite (routed_take _ _ p c).
Qed.

(** C29. ROUTER addressing: a message sent on a ROUTER socket goes, without
    its first frame, to every connection whose peer announced that first
    frame as its identity and to no other; an identity nobody announced is
    no error: the message is dropped and [Send] succeeds. *)
Theorem router_routes {SS : Type} (sec : secops SS) `{!Transparent sec}
    (st : gmap cptr (Conn SS)) (ro : routerPool) (id : bytes) (frames : list bytes) :
  ro_wsem ro = true → NoDup (ro_ws ro) → all_live (ro_ws ro) st →
  ∃ st', routerMWriter_write sec (NewMsgFrom (id :: frames)) (st, ro) = (Ret (Some tt), (st', ro)) ∧
    (∀ p c, st !! p = Some c →
       st' !! p = Some (if decide (p ∈ ro_ws ro ∧ beq (peer_id c) id = true) then wrote (msg_wire false frames) c else c)) ∧
    ((∀ p c, p ∈ ro_ws ro → st !! p = Some c → peer_id c ≠ id) → st' = st).
Proof.
  intros Hsem Hnd Hall. eexists. split; [|split].
  - unfold routerMWriter_write. mstep reflexivity. rewrite Hsem. cbn [negb]. mstep reflexivity.
    mstep (apply (router_loop sec id (NewMsgFrom frames)); done). done.
  - intros p c Hp. by rewrite (routed_lookup _ _ _ _ p c Hp).
  - intros Hno. apply routed_same. intros p c Hp Hc. unfold beq. by rewrite bool_decide_eq_false_2 by eauto.
Qed.

Lemma router_routes_witness :
  ∃ st', routerMWriter_write nullSecurity (NewMsgFrom [gs "nobody"; gs "x"])
      ({[1%nat := idle_conn]}, mkRouter [] [1%nat] [] true true) = (Ret (Some tt), (st', mkRouter [] [1%nat] [] true true)) ∧
    st' !! 1%nat = Some idle_conn.
Proof.
  destruct (router_routes nullSecurity {[1%nat := idle_conn]} (mkRouter [] [1%nat] [] true true) (gs "nobody") [gs "x"])
    as (st' & H1 & H2 & _).
  - done.
  - repeat constructor. set_solver.
  - intros p Hp. apply list_elem_of_singleton in Hp as ->. by exists idle_conn.
  - exists st'. split; [exact H1|]. rewrite (H2 1%nat idle_conn eq_refl). vm_compute. reflexivity.
Defined.

(** ** The broadcasting writer *)

(** Broadcast: what a socket with the multi-writer ([mwriter]) sends is
    written once to every connection of the pool and to no other connection;
    before a first connection has been added, the call blocks and writes
    nothing. *)
Theorem mwriter_broadcasts {SS : Type} (sec : secops SS) `{!Transparent sec}
    (st : gmap cptr (Conn SS)) (io : ioPool) (msg : Msg) :
  NoDup (io_ws io) → all_live (io_ws io) st →
  (io_wsem io = false → mwriter_write sec msg (st, io) = (Ret None, (st, io))) ∧
  (io_wsem io = true → ∃ st', mwriter_write sec msg (st, io) = (Ret (Some tt), (st', io)) ∧
     ∀ p c, st !! p = Some c →
       st' !! p = Some (if decide (p ∈ io_ws io) then wrote (msg_wire false (Frames msg)) c else c)).
Proof.
  intros Hnd Hall. unfold mwriter_write. split; intros Hsem.
  - mstep reflexivity. by rewrite Hsem.
  - eexists. split.
    + mstep reflexivity. rewrite Hsem. cbn [negb]. mstep (apply (mwriter_loop_all sec msg); done). done.
    + intros p c Hp. rewrite (routed_lookup _ _ _ _ p c Hp). f_equal. apply decide_ext. tauto.
Qed.

Lemma mwriter_broadcasts_witness :
  ∃ st', mwriter_write nullSecurity (NewMsg (gs "hi"))
      ({[1%nat := idle_conn; 2%nat := idle_conn]}, mkIo [] [1%nat; 2%nat] [] true true)
      = (Ret (Some tt), (st', mkIo [] [1%nat; 2%nat] [] true true)) ∧
    st' !! 2%nat = Some (wrote (msg_wire false [gs "hi"]) idle_conn).
Proof.
  destruct (mwriter_broadcasts nullSecurity {[1%nat := idle_conn; 2%nat := idle_conn]}
    (mkIo [] [1%nat; 2%nat] [] true true) (NewMsg (gs "hi"))) as [_ H].
  - repeat constructor; set_solver.
  - intros p Hp. apply list_elem_of_In in Hp. destruct Hp as [<-|[<-|[]]]; by exists idle_conn.
  - destruct (H eq_refl) as (st' & H1 & H2). exists st'. split; [exact H1|]. by rewrite (H2 2%nat idle_conn eq_refl).
Defined.
