(* ===== verification/PubSub.v ===== *)
(** * PubSub: the publisher's pools (src/socket_pub.go)

    Every subscriber connection has a channel of its own and a goroutine that
    takes messages from it and sends those the connection is subscribed to.
    Channels are shared between the map of subscribers and the goroutines, so
    they live in a heap; a goroutine goes on draining its channel after the
    connection has been removed from the map. *)

From Stdlib Require Import Strings.Byte ZArith Lia.
From stdpp Require Import base strings numbers gmap list.
From S2P Require Import Prelude Zmtp Conn ConnFacts Sockets.

#[local] Open Scope Z_scope.
#[local] Set Default Goal Selector "!".

Definition DefaultSendHwm : Z := 1000.

(** A [chan Msg] with the connection of the goroutine that receives from it. *)
Record msgChan : Type := mkChan {
  ch_conn : cptr;
  ch_queue : list Msg;
  ch_cap : Z;
  ch_closed : bool }.

Record pubPool : Type := mkPub {
  pb_rs : list cptr;                          (* of the reader *)
  pb_c : list Msg;
  pb_sem : bool;
  pb_subscribers : option (gmap cptr nat);    (* [None] when nil *)
  pb_hwm : Z;
  pb_chans : gmap nat msgChan }.

Definition newPub : pubPool := mkPub [] [] false (Some ∅) DefaultSendHwm ∅.

Section pub.
Context {SS : Type} (sec : secops SS) (maxAlloc : Z).
Abbreviation store := (gmap cptr (Conn SS)).

Definition set_rs (rs : list cptr) (r : pubPool) : pubPool :=
  mkPub rs (pb_c r) (pb_sem r) (pb_subscribers r) (pb_hwm r) (pb_chans r).
Definition set_queue (c : list Msg) (r : pubPool) : pubPool :=
  mkPub (pb_rs r) c (pb_sem r) (pb_subscribers r) (pb_hwm r) (pb_chans r).
Definition set_subs (s : option (gmap cptr nat)) (r : pubPool) : pubPool :=
  mkPub (pb_rs r) (pb_c r) (pb_sem r) s (pb_hwm r) (pb_chans r).
Definition set_chans (h : gmap nat msgChan) (r : pubPool) : pubPool :=
  mkPub (pb_rs r) (pb_c r) (pb_sem r) (pb_subscribers r) (pb_hwm r) h.

(** ** The reader *)

Definition pubQReader_addConn (p : cptr) : M (store * pubPool) unit :=
  upd (fun r => mkPub (pb_rs r ++ [p]) (pb_c r) true (pb_subscribers r) (pb_hwm r) (pb_chans r)).
Definition pubQReader_rmConn (p : cptr) : M (store * pubPool) unit :=
  upd (fun r => set_rs (cut_conn p (pb_rs r)) r).

Definition pubQReader_Close : M (store * pubPool) unit :=
  r ← own;
  err ← close_all (pb_rs r) None;
  upd (set_rs []);;
  match err with Some e => mfail e | None => mret tt end.

Definition pubQReader_read : M (store * pubPool) (option Msg) :=
  r ← own;
  match pb_sem r, pb_c r with
  | true, msg :: rest =>
      upd (set_queue rest);;
      match msgerr msg with Some e => mfail e | None => mret (Some msg) end
  | _, _ => mret None
  end.

(** [topic]: whether a message is a subscription. *)
Definition pub_topic (msg : Msg) : bool :=
  match Frames msg with
  | [topic :: _] => bool_decide (topic = x00 ∨ topic = x01)
  | _ => false
  end.

(** One iteration of [listen]. *)
Definition pubQReader_listen (p : cptr) : M (store * pubPool) bool :=
  msg ← on_conn p (Conn_read sec maxAlloc);
  match msgerr msg with
  | Some _ => _ ← try (on_conn p Conn_Close); pubQReader_rmConn p;; mret false
  | None =>
      (if pub_topic msg then on_conn p (Conn_subscribe msg)
       else upd (fun r => set_queue (pb_c r ++ [msg]) r));;
      mret true
  end.

(** ** The writer *)

(** [c <- msg] and [close(c)]. *)
Definition push_chan (msg : Msg) (c : msgChan) : msgChan :=
  mkChan (ch_conn c) (ch_queue c ++ [msg]) (ch_cap c) (ch_closed c).
Definition close_chan (c : msgChan) : msgChan := mkChan (ch_conn c) (ch_queue c) (ch_cap c) true.

Definition chan_of (k : nat) : M (store * pubPool) msgChan :=
  r ← own;
  match pb_chans r !! k with Some c => mret c | None => mpanic "nil channel" end.
Definition set_chan (k : nat) (c : msgChan) : M (store * pubPool) unit :=
  upd (fun r => set_chans (<[k := c]> (pb_chans r)) r).

(** [close] of a channel panics when it is closed already. *)
Definition chan_close (k : nat) : M (store * pubPool) unit :=
  c ← chan_of k;
  if ch_closed c then mpanic "close of closed channel" else set_chan k (close_chan c).

Definition pubMWriter_addConn (w : cptr) : M (store * pubPool) unit :=
  r ← own;
  if decide (pb_hwm r < 0) then mpanic "makechan: size out of range"
  else
    let k := fresh (dom (pb_chans r)) in
    set_chan k (mkChan w [] (pb_hwm r) false);;
    match pb_subscribers r with
    | None => mpanic "assignment to entry in nil map"
    | Some m => upd (set_subs (Some (<[w := k]> m)))
    end.

(** One iteration of the goroutine that serves a channel; [None] when it
    blocks on an empty channel or ends on a closed one. *)
Definition pub_deliver (k : nat) : M (store * pubPool) (option unit) :=
  c ← chan_of k;
  match ch_queue c with
  | [] => mret None
  | msg :: rest =>
      set_chan k (mkChan (ch_conn c) rest (ch_cap c) (ch_closed c));;
      topic ← lift (idx (Frames msg) 0);
      w ← on_conn (ch_conn c) mget;
      (if Conn_subscribed w topic then
         _ ← try (on_conn (ch_conn c) (Conn_SendMsg sec msg)); mret tt
       else mret tt);;
      mret (Some tt)
  end.

Definition pubMWriter_rmConn (w : cptr) : M (store * pubPool) unit :=
  r ← own;
  match pb_subscribers r ≫= (.!! w) with
  | None => mret tt
  | Some k =>
      _ ← try (on_conn w Conn_Close);
      upd (fun r => set_subs (delete w <$> pb_subscribers r) r);;
      chan_close k
  end.

(** The loop of [write]: a message is discarded for a subscriber whose
    channel is full. The context is not cancelled. With a high-water mark of
    zero the channel is unbuffered and a message is handed over only when the
    goroutine is waiting for it; the model has it always full. *)
Fixpoint pubMWriter_loop (subs : list (cptr * nat)) (msg : Msg) : M (store * pubPool) unit :=
  match subs with
  | [] => mret tt
  | (_, k) :: subs' =>
      c ← chan_of k;
      (if ch_closed c then mpanic "send on closed channel"
       else if decide (len (ch_queue c) < ch_cap c) then set_chan k (push_chan msg c)
       else mret tt);;
      pubMWriter_loop subs' msg
  end.

Definition pubMWriter_write (range : gmap cptr nat → list (cptr * nat)) (msg : Msg) : M (store * pubPool) unit :=
  r ← own;
  pubMWriter_loop (default [] (range <$> pb_subscribers r)) msg.

Fixpoint pub_close_loop (subs : list (cptr * nat)) : M (store * pubPool) unit :=
  match subs with
  | [] => mret tt
  | (w, k) :: subs' =>
      _ ← try (on_conn w Conn_Close);
      chan_close k;;
      pub_close_loop subs'
  end.

Definition pubMWriter_Close (range : gmap cptr nat → list (cptr * nat)) : M (store * pubPool) unit :=
  r ← own;
  pub_close_loop (default [] (range <$> pb_subscribers r));;
  upd (set_subs None).
End pub.
