(* ===== verification/PubFacts.v ===== *)
(** * PubFacts: what a publisher writes to its subscribers

    Messages offered to a channel up to its high-water mark, delivered in
    order to the connections that are subscribed to their topic. *)

From Stdlib Require Import Strings.Byte ZArith Lia.
From stdpp Require Import base strings numbers gmap list.
From S2P Require Import Prelude Zmtp Conn ConnFacts Sockets SocketFacts PubSub.

#[local] Open Scope Z_scope.
#[local] Set Default Goal Selector "!".

(** ** Channels *)

(** What [write] does to the channel of a subscriber. *)
Definition offer (msg : Msg) (c : msgChan) : msgChan :=
  if decide (len (ch_queue c) < ch_cap c) then push_chan msg c else c.

Definition offer_all (subs : list (cptr * nat)) (msg : Msg) (h : gmap nat msgChan) : gmap nat msgChan :=
  foldl (fun h pk => alter (offer msg) pk.2 h) h subs.

(** Every subscriber has an open channel that is served for it. *)
Definition pub_wf (m : gmap cptr nat) (h : gmap nat msgChan) : Prop :=
  ∀ p k, m !! p = Some k → ∃ c, h !! k = Some c ∧ ch_conn c = p ∧ ch_closed c = false.

Lemma offer_conn msg c : ch_conn (offer msg c) = ch_conn c.
Proof. unfold offer. by case_decide. Qed.
Lemma offer_closed msg c : ch_closed (offer msg c) = ch_closed c.
Proof. unfold offer. by case_decide. Qed.
Lemma offer_cap msg c : ch_cap (offer msg c) = ch_cap c.
Proof. unfold offer. by case_decide. Qed.

Lemma offer_all_lookup subs msg k : ∀ h,
  NoDup subs.*2 → offer_all subs msg h !! k = (if decide (k ∈ subs.*2) then offer msg <$> h !! k else h !! k).
Proof.
  induction subs as [|[p k'] subs IH]; intros h Hnd; cbn [offer_all foldl fmap list_fmap snd].
  - rewrite decide_False by (by apply not_elem_of_nil). done.
  - cbn in Hnd. apply NoDup_cons in Hnd as [Hk Hnd]. fold (offer_all subs msg (alter (offer msg) k' h)). rewrite IH by done.
    destruct (decide (k = k')) as [->|Hne].
    + rewrite decide_False by done. rewrite decide_True by left. by rewrite lookup_alter_eq.
    + rewrite lookup_alter_ne by done. apply decide_ext. rewrite elem_of_cons. naive_solver.
Qed.

Lemma pub_wf_offer m subs msg h : NoDup subs.*2 → pub_wf m h → pub_wf m (offer_all subs msg h).
Proof.
  intros Hnd Hwf p k Hp. destruct (Hwf p k Hp) as (c & Hc & Hcp & Hcl). rewrite offer_all_lookup, Hc by done.
  case_decide; [exists (offer msg c)|exists c]; rewrite ?offer_conn, ?offer_closed; done.
Qed.

Lemma subs_NoDup range m h : range_order range → pub_wf m h → NoDup (range m).*2.
Proof.
  intros Hr Hwf. pose proof (range_order_NoDup range m Hr) as Hnd.
  assert (Hin : ∀ p k, (p, k) ∈ range m → m !! p = Some k) by (intros p k; by rewrite (range_order_elem range)).
  revert Hnd Hin. generalize (range m). intros l. induction l as [|[p k] l IH]; intros Hnd Hin; cbn; [constructor|].
  cbn in Hnd. apply NoDup_cons in Hnd as [Hp Hnd]. constructor; [|apply IH; [done|]; intros; apply Hin; by right].
  intros ([p' k'] & Hk & Hin')%list_elem_of_fmap. cbn in Hk. subst k'.
  destruct (Hwf p k (Hin p k ltac:(left))) as (c & Hc & Hcp & _).
  destruct (Hwf p' k (Hin p' k ltac:(by right))) as (c' & Hc' & Hcp' & _).
  assert (p = p') as <- by congruence. apply Hp. by apply (list_elem_of_fmap_2 fst _ (p, k)).
Qed.

(** Offering messages one after the other keeps the oldest that fit. *)
Lemma offers_take ms : ∀ c, len (ch_queue c) <= ch_cap c →
  let c' := foldl (fun c msg => offer msg c) c ms in
  ch_queue c' = take (Z.to_nat (ch_cap c)) (ch_queue c ++ ms) ∧ ch_conn c' = ch_conn c ∧ ch_closed c' = ch_closed c.
Proof.
  induction ms as [|msg ms IH]; intros c Hc; cbn [foldl].
  - rewrite app_nil_r, take_ge by (unfold len in Hc; lia). done.
  - assert (Hle : len (ch_queue (offer msg c)) <= ch_cap (offer msg c)).
    { rewrite offer_cap. unfold offer. case_decide; cbn; rewrite ?len_app, ?len_cons; change (len (@nil Msg)) with 0; lia. }
    destruct (IH (offer msg c) Hle) as (-> & -> & ->). rewrite offer_cap, offer_conn, offer_closed.
    split; [|done]. unfold offer. case_decide as H; cbn [push_chan ch_queue]; [by rewrite <- app_assoc|].
    unfold len in *. rewrite !take_app_ge by lia. replace (_ - _)%nat with 0%nat by lia. done.
Qed.

(** ** Publishing *)

Section publish.
Context {SS : Type} (sec : secops SS) `{!Transparent sec}.
Context (range : gmap cptr nat → list (cptr * nat)).
Implicit Types (st : gmap cptr (Conn SS)) (r : pubPool).

Lemma write_loop subs msg st r :
  (∀ p k, (p, k) ∈ subs → ∃ c, pb_chans r !! k = Some c ∧ ch_closed c = false) → NoDup subs.*2 →
  pubMWriter_loop subs msg (st, r) = (Ret tt, (st, set_chans (offer_all subs msg (pb_chans r)) r)).
Proof.
  revert r. induction subs as [|[p k] subs IH]; intros r Hs Hnd; cbn [pubMWriter_loop].
  - cbn. by destruct r.
  - cbn in Hnd. apply NoDup_cons in Hnd as [Hk Hnd]. destruct (Hs p k ltac:(left)) as (c & Hc & Hcl).
    mstep (unfold chan_of; mstep reflexivity; by rewrite Hc). rewrite Hcl.
    set (r' := set_chans (alter (offer msg) k (pb_chans r)) r).
    mstep (instantiate (1 := (st, r')); instantiate (1 := tt); unfold r', offer;
      case_decide as Hd; [unfold set_chan, upd; f_equal; f_equal; f_equal; f_equal; apply map_eq; intros i;
        destruct (decide (i = k)) as [->|?]; [by rewrite lookup_insert_eq, lookup_alter_eq, Hc; cbn; rewrite decide_True
        |by rewrite lookup_insert_ne, lookup_alter_ne]
      |f_equal; f_equal; destruct r as [? ? ? ? ? h]; unfold set_chans; cbn in *; f_equal; apply map_eq; intros i;
        destruct (decide (i = k)) as [->|?]; [by rewrite lookup_alter_eq, Hc; cbn; rewrite decide_False|by rewrite lookup_alter_ne]]).
    rewrite IH; [done| |done]. intros p' k' Hin. destruct (Hs p' k' ltac:(by right)) as (c' & Hc' & ?).
    exists c'. cbn. rewrite lookup_alter_ne; [done|]. intros ->. apply Hk. by apply (list_elem_of_fmap_2 snd _ (p', k')).
Qed.

Lemma write_ok m msg st r :
  range_order range → pb_subscribers r = Some m → pub_wf m (pb_chans r) →
  pubMWriter_write range msg (st, r) = (Ret tt, (st, set_chans (offer_all (range m) msg (pb_chans r)) r)).
Proof.
  intros Hr Hm Hwf. unfold pubMWriter_write. mstep reflexivity. rewrite Hm. cbn [fmap option_fmap option_map default].
  apply write_loop; [|by eapply subs_NoDup]. intros p k. rewrite (range_order_elem range) by done.
  intros Hp. destruct (Hwf p k Hp) as (c & ? & _ & ?). eauto.
Qed.

(** [Send] of several messages in a row. *)
Fixpoint publish (ms : list Msg) : M (gmap cptr (Conn SS) * pubPool) unit :=
  match ms with
  | [] => mret tt
  | msg :: ms' => pubMWriter_write range msg;; publish ms'
  end.

Lemma publish_ok m p k ms st : ∀ r c,
  range_order range → pb_subscribers r = Some m → pub_wf m (pb_chans r) → m !! p = Some k → pb_chans r !! k = Some c →
  ∃ r', publish ms (st, r) = (Ret tt, (st, r')) ∧ pb_chans r' !! k = Some (foldl (fun c msg => offer msg c) c ms).
Proof.
  induction ms as [|msg ms IH]; intros r c Hr Hm Hwf Hp Hc; cbn [publish foldl]; [by exists r|].
  pose proof (subs_NoDup range m _ Hr Hwf) as Hnd.
  destruct (IH (set_chans (offer_all (range m) msg (pb_chans r)) r) (offer msg c)) as (r' & Hrun & Hq).
  - done.
  - done.
  - by apply pub_wf_offer.
  - done.
  - cbn. rewrite offer_all_lookup, Hc by done. rewrite decide_True; [done|].
    apply (list_elem_of_fmap_2 snd _ (p, k)). by rewrite (range_order_elem range).
  - exists r'. split; [|done]. mstep (by apply write_ok). exact Hrun.
Qed.

(** [n] iterations of the goroutine that serves channel [k]. *)
Fixpoint pub_drain (n : nat) (k : nat) : M (gmap cptr (Conn SS) * pubPool) unit :=
  match n with
  | O => mret tt
  | S n' => _ ← pub_deliver sec k; pub_drain n' k
  end.

(** The topic of a message is its first frame. *)
Definition wanted (topics : gset bytes) (msg : Msg) : Prop := topic_matches topics (default [] (head (Frames msg))).

#[global] Instance wanted_dec topics msg : Decision (wanted topics msg) := topic_matches_dec topics _.

Definition wires (ms : list Msg) : bytes := mjoin ((fun msg => msg_wire false (Frames msg)) <$> ms).

Lemma wires_cons msg ms : wires (msg :: ms) = msg_wire false (Frames msg) ++ wires ms.
Proof. done. Qed.

Lemma deliver_one k st r p msg rest cap cl c :
  pb_chans r !! k = Some (mkChan p (msg :: rest) cap cl) → Frames msg ≠ [] → st !! p = Some c → live c →
  pub_deliver sec k (st, r) =
    (Ret (Some tt), (<[p := wrote (wires (filter (wanted (c_topics c)) [msg])) c]> st,
                     set_chans (<[k := mkChan p rest cap cl]> (pb_chans r)) r)).
Proof.
  intros Hk Hne Hp Hl. unfold pub_deliver. mstep (unfold chan_of; mstep reflexivity; by rewrite Hk).
  cbn [ch_queue ch_conn ch_cap ch_closed]. mstep reflexivity.
  destruct (Frames msg) as [|t fs] eqn:Hf; [done|]. mstep reflexivity.
  set (r' := set_chans _ r).
  rewrite (M_bind_ret (on_conn p mget) _ (st, r') c (st, r'))
    by (rewrite (on_conn_eq p mget st r' c (Ret c) c Hp eq_refl); by rewrite insert_id).
  pose proof (Conn_subscribed_spec c t) as Hs.
  assert (Hw : wanted (c_topics c) msg ↔ topic_matches (c_topics c) t) by (unfold wanted; by rewrite Hf).
  destruct (Conn_subscribed c t).
  - rewrite filter_cons_True, filter_nil by (rewrite Hw; by apply Hs). unfold wires. cbn. rewrite app_nil_r.
    mstep (mstep (by apply try_send); reflexivity). done.
  - rewrite filter_cons_False, filter_nil by (rewrite Hw, <- Hs; done). unfold wires. cbn.
    rewrite wrote_nil, insert_id by done. done.
Qed.

Lemma drain_ok k p cap cl q : ∀ st r c,
  pb_chans r !! k = Some (mkChan p q cap cl) → Forall (fun msg => Frames msg ≠ []) q → st !! p = Some c → live c →
  ∃ r', pub_drain (length q) k (st, r) =
    (Ret tt, (<[p := wrote (wires (filter (wanted (c_topics c)) q)) c]> st, r')).
Proof.
  induction q as [|msg q IH]; intros st r c Hk Hq Hp Hl; cbn [length pub_drain].
  - exists r. cbn. unfold wires. cbn. by rewrite wrote_nil, insert_id.
  - apply Forall_cons in Hq as [Hne Hq]. pose proof (deliver_one k st r p msg q cap cl c Hk Hne Hp Hl) as Hd.
    set (w1 := wires (filter (wanted (c_topics c)) [msg])) in *.
    destruct (IH (<[p := wrote w1 c]> st) (set_chans (<[k := mkChan p q cap cl]> (pb_chans r)) r) (wrote w1 c)) as [r' Hr'].
    + cbn. by rewrite lookup_insert_eq.
    + done.
    + by rewrite lookup_insert_eq.
    + by apply live_wrote.
    + exists r'. mstep exact Hd. rewrite Hr', insert_insert_eq, wrote_wrote. do 4 f_equal.
      change (c_topics (wrote w1 c)) with (c_topics c). unfold w1, wires.
      change (msg :: q) with ([msg] ++ q). rewrite (filter_app _ [msg] q), fmap_app, join_app. done.
Qed.
End publish.


(** A subscriber to "news." with room for two messages. *)
Definition news_conn : Conn unit := set_topics {[gs "news."]} (test_conn Pub []).
Definition news_pool : pubPool := mkPub [1%nat] [] true (Some {[1%nat := 0%nat]}) 2 {[0%nat := mkChan 1 [] 2 false]}.


(** A message without frames kills a publisher: [Send] accepts it and
    queues it, and the goroutine that serves a subscriber then indexes the
    first frame and panics, whatever the subscriptions. *)
Theorem pub_empty_panics {SS : Type} (sec : secops SS)
    (range : gmap cptr nat → list (cptr * nat)) (st : gmap cptr (Conn SS)) (r : pubPool)
    (m : gmap cptr nat) (p : cptr) (k : nat) (ch : msgChan) :
  range_order range → pb_subscribers r = Some m → pub_wf m (pb_chans r) → m !! p = Some k →
  pb_chans r !! k = Some ch → ch_queue ch = [] → 0 < ch_cap ch →
  ∃ r1, pubMWriter_write range emptyMsg (st, r) = (Ret tt, (st, r1)) ∧
    (pub_deliver sec k (st, r1)).1 = Panic "index out of range".
Proof.
  intros Hr Hm Hwf Hp Hk Hq Hcap. pose proof (subs_NoDup range m _ Hr Hwf) as Hnd.
  eexists. split; [by apply (write_ok range m)|]. unfold pub_deliver.
  set (r1 := set_chans _ r).
  assert (Hk1 : pb_chans r1 !! k = Some (push_chan emptyMsg ch)).
  { unfold r1. cbn. rewrite offer_all_lookup, Hk by done. rewrite decide_True.
    - cbn. unfold offer. rewrite decide_True; [done|]. rewrite Hq. unfold len. cbn. lia.
    - apply (list_elem_of_fmap_2 snd _ (p, k)). by rewrite (range_order_elem range). }
  rewrite (M_bind_ret _ _ _ (push_chan emptyMsg ch) (st, r1)); [|unfold chan_of; mstep reflexivity; by rewrite Hk1].
  cbn [ch_queue push_chan]. rewrite Hq. cbn [app]. done.
Qed.

Lemma pub_empty_panics_witness :
  ∃ r1, pubMWriter_write map_to_list emptyMsg ({[1%nat := news_conn]}, news_pool) = (Ret tt, ({[1%nat := news_conn]}, r1)) ∧
    (pub_deliver nullSecurity 0 ({[1%nat := news_conn]}, r1)).1 = Panic "index out of range".
Proof.
  refine (pub_empty_panics nullSecurity map_to_list {[1%nat := news_conn]} news_pool {[1%nat := 0%nat]} 1 0
    (mkChan 1 [] 2 false) _ _ _ _ _ _ _); try done.
  - by intros x.
  - intros p k [<- <-]%lookup_singleton_Some. by eexists.
Defined.
