(* ===== verification/CoreSocket.v ===== *)
(** * CoreSocket: the generic socket and SUB (src/core_socket.go,
    src/socket_sub.go, the options of src/socket_pub.go)

    A socket owns a list of connections and hands them to a pool of readers
    and a pool of writers (the interfaces [rpool] and [wpool]); connections
    that close are queued for the reaper, which takes them out again. The
    heartbeat manager is a goroutine with state of its own that receives
    updates through a channel of ten.

    Dialing and accepting give new connections to [addConn]; they and automatic
    reconnection are in SocketDial. [newUUID] and the address of the peer are
    parameters, clock readings are arguments. *)

From Stdlib Require Import Strings.Byte ZArith Lia.
From stdpp Require Import base strings numbers gmap list sorting.
From S2P Require Import Prelude Zmtp Conn ConnFacts Sockets PubSub.

#[local] Open Scope Z_scope.
#[local] Set Default Goal Selector "!".

(** ** The interfaces of pools *)

(** [rpool] and [wpool] of one socket over their common state [X]. [read] and
    [write] give [None] when they block; [listen] is one iteration of the
    goroutine [addConn] starts for a reader. *)
Class Pool (SS X : Type) : Type := {
  r_addConn : cptr → M (gmap cptr (Conn SS) * X) unit;
  r_rmConn : cptr → M (gmap cptr (Conn SS) * X) unit;
  r_read : M (gmap cptr (Conn SS) * X) (option Msg);
  r_listen : cptr → M (gmap cptr (Conn SS) * X) bool;
  w_addConn : cptr → M (gmap cptr (Conn SS) * X) unit;
  w_rmConn : cptr → M (gmap cptr (Conn SS) * X) unit;
  w_write : Msg → M (gmap cptr (Conn SS) * X) (option unit) }.

Section instances.
Context {SS : Type} (sec : secops SS) (maxAlloc : Z).

Definition io_pool : Pool SS ioPool := {|
  r_addConn := qreader_addConn; r_rmConn := qreader_rmConn; r_read := qreader_read;
  r_listen := qreader_listen sec maxAlloc;
  w_addConn := mwriter_addConn; w_rmConn := mwriter_rmConn; w_write := mwriter_write sec |}.

Definition router_pool : Pool SS routerPool := {|
  r_addConn := routerQReader_addConn; r_rmConn := routerQReader_rmConn; r_read := routerQReader_read;
  r_listen := routerQReader_listen sec maxAlloc;
  w_addConn := routerMWriter_addConn; w_rmConn := routerMWriter_rmConn; w_write := routerMWriter_write sec |}.

Definition rep_pool : Pool SS repPool := {|
  r_addConn := repReader_addConn; r_rmConn := repReader_rmConn; r_read := repReader_read;
  r_listen := repReader_listen sec maxAlloc;
  w_addConn := repWriter_addConn; w_rmConn := repWriter_rmConn;
  w_write := fun msg => repWriter_write sec msg;; mret (Some tt) |}.

(** [reqReader] keeps no connections and starts no goroutine. *)
Definition req_pool : Pool SS reqPool := {|
  r_addConn := fun _ => mret tt; r_rmConn := fun _ => mret tt;
  r_read := m ← reqReader_read sec maxAlloc; mret (Some m);
  r_listen := fun _ => mret false;
  w_addConn := reqWriter_addConn; w_rmConn := reqWriter_rmConn;
  w_write := fun msg => reqWriter_write sec msg;; mret (Some tt) |}.

Definition pub_pool (range : gmap cptr nat → list (cptr * nat)) : Pool SS pubPool := {|
  r_addConn := pubQReader_addConn; r_rmConn := pubQReader_rmConn; r_read := pubQReader_read;
  r_listen := pubQReader_listen sec maxAlloc;
  w_addConn := pubMWriter_addConn; w_rmConn := pubMWriter_rmConn;
  w_write := fun msg => pubMWriter_write range msg;; mret (Some tt) |}.
End instances.

(** ** State *)

Inductive heartbeatUpdateType : Type :=
| heartbeatConnected | heartbeatDisconnected | heartbeatPingSent | heartbeatPongReceived
| heartbeatTimeout | heartbeatActivityDetected.

Record heartbeatUpdate : Type := mkUpdate {
  hu_updateType : heartbeatUpdateType;
  hu_connID : bytes;
  hu_timestamp : Z }.

Record connState : Type := mkConnState {
  cs_lastActivity : Z;
  cs_lastPingSent : Z;
  cs_waitingForPong : bool;
  cs_connected : bool }.

(** The dynamic types of option values that are looked at. *)
Inductive optval : Type :=
| OString (s : bytes)
| OInt (z : Z)
| ODuration (d : Z)
| OOther.

Definition OptionSubscribe : string := "SUBSCRIBE".
Definition OptionUnsubscribe : string := "UNSUBSCRIBE".
Definition OptionHWM : string := "HWM".
Definition OptionHeartbeatIVL : string := "ZMQ_HEARTBEAT_IVL".
Definition OptionHeartbeatTTL : string := "ZMQ_HEARTBEAT_TTL".
Definition OptionHeartbeatTimeout : string := "ZMQ_HEARTBEAT_TIMEOUT".

Definition ErrBadProperty : error := Sentinel "zmq4: bad property".

Record socket : Type := mkSocket {
  sk_typ : SocketType;
  sk_conns : list cptr;
  sk_topics : option (gset bytes);         (* what [subTopics] reads: the topics of a SUB socket *)
  sk_props : gmap string optval;
  sk_closedConns : list cptr;
  sk_heartbeatIVL : Z;
  sk_heartbeatTTL : Z;
  sk_heartbeatTimeout : Z;
  sk_heartbeatStarted : bool;
  sk_heartbeatUpdateCh : list heartbeatUpdate;
  sk_connections : gmap bytes connState    (* of the heartbeat manager *) }.

Definition newSocket (typ : SocketType) (topics : option (gset bytes)) : socket :=
  mkSocket typ [] topics ∅ [] 0 0 0 false [] ∅.

Definition set_conns (l : list cptr) (k : socket) : socket :=
  mkSocket (sk_typ k) l (sk_topics k) (sk_props k) (sk_closedConns k) (sk_heartbeatIVL k) (sk_heartbeatTTL k)
    (sk_heartbeatTimeout k) (sk_heartbeatStarted k) (sk_heartbeatUpdateCh k) (sk_connections k).
Definition set_subTopics (t : option (gset bytes)) (k : socket) : socket :=
  mkSocket (sk_typ k) (sk_conns k) t (sk_props k) (sk_closedConns k) (sk_heartbeatIVL k) (sk_heartbeatTTL k)
    (sk_heartbeatTimeout k) (sk_heartbeatStarted k) (sk_heartbeatUpdateCh k) (sk_connections k).
Definition set_closedConns (l : list cptr) (k : socket) : socket :=
  mkSocket (sk_typ k) (sk_conns k) (sk_topics k) (sk_props k) l (sk_heartbeatIVL k) (sk_heartbeatTTL k)
    (sk_heartbeatTimeout k) (sk_heartbeatStarted k) (sk_heartbeatUpdateCh k) (sk_connections k).
Definition set_options (props : gmap string optval) (ivl ttl tmo : Z) (started : bool) (k : socket) : socket :=
  mkSocket (sk_typ k) (sk_conns k) (sk_topics k) props (sk_closedConns k) ivl ttl tmo started
    (sk_heartbeatUpdateCh k) (sk_connections k).
Definition set_updates (l : list heartbeatUpdate) (k : socket) : socket :=
  mkSocket (sk_typ k) (sk_conns k) (sk_topics k) (sk_props k) (sk_closedConns k) (sk_heartbeatIVL k) (sk_heartbeatTTL k)
    (sk_heartbeatTimeout k) (sk_heartbeatStarted k) l (sk_connections k).
Definition set_connections (m : gmap bytes connState) (k : socket) : socket :=
  mkSocket (sk_typ k) (sk_conns k) (sk_topics k) (sk_props k) (sk_closedConns k) (sk_heartbeatIVL k) (sk_heartbeatTTL k)
    (sk_heartbeatTimeout k) (sk_heartbeatStarted k) (sk_heartbeatUpdateCh k) m.

(** ** Topics, sorted *)

(** The order of Go strings. *)
Fixpoint str_le (a b : bytes) : bool :=
  match a, b with
  | [], _ => true
  | _ :: _, [] => false
  | x :: a', y :: b' => if decide (x = y) then str_le a' b' else byte_Z x <? byte_Z y
  end.

(** [sort.Strings] of the keys of a map: the order of iteration is gone. *)
Definition sorted_keys (s : gset bytes) : list bytes := merge_sort str_le (elements s).

Section socket.
Context {SS X : Type} (sec : secops SS) {P : Pool SS X}.
(** The text of the peer's address. *)
Context (RemoteAddr : cptr → bytes).

Abbreviation state := (gmap cptr (Conn SS) * (socket * X))%type.

Definition on_pool {A} (m : M (gmap cptr (Conn SS) * X) A) : M state A := fun '(st, (k, x)) =>
  let '(r, (st', x')) := m (st, x) in (r, (st', (k, x'))).
Definition sck : M state socket := fun '(st, (k, x)) => (Ret k, (st, (k, x))).
Definition upd_sck (f : socket → socket) : M state unit := fun '(st, (k, x)) => (Ret tt, (st, (f k, x))).

(** [updateHeartbeatState]: the update is dropped when the channel is full. *)
Definition updateHeartbeatState (updateType : heartbeatUpdateType) (connID : bytes) (timestamp : Z) : M state unit :=
  upd_sck (fun k =>
    if decide (len (sk_heartbeatUpdateCh k) < 10) then
      set_updates (sk_heartbeatUpdateCh k ++ [mkUpdate updateType connID timestamp]) k
    else k).

(** The subscriptions sent to a new connection; errors are dropped. *)
Fixpoint send_subscriptions (p : cptr) (topics : list bytes) : M state unit :=
  match topics with
  | [] => mret tt
  | topic :: rest =>
      _ ← try (on_conn p (Conn_SendMsg sec (NewMsg (x01 :: topic))));
      send_subscriptions p rest
  end.

Definition socket_addConn (now : Z) (uuid : bytes) (p : cptr) : M state unit :=
  on_conn p (mupd (set_heartbeat (Some [])));;
  upd_sck (fun k => set_conns (sk_conns k ++ [p]) k);;
  updateHeartbeatState heartbeatConnected (RemoteAddr p) now;;
  on_conn p (mupd (fun c =>
    if decide (len (peer_id c) = 0 ∧ c_typ c = Router)
    then set_peer (c_PeerServer c) (<[sysSockID := uuid]> (c_PeerMeta c)) c else c));;
  on_pool (w_addConn p);;
  on_pool (r_addConn p);;
  k ← sck;
  match sk_topics k with
  | Some topics => send_subscriptions p (sorted_keys topics)
  | None => mret tt
  end.

Definition socket_rmConn (now : Z) (p : cptr) : M state unit :=
  k ← sck;
  if decide (p ∈ sk_conns k) then
    updateHeartbeatState heartbeatDisconnected (RemoteAddr p) now;;
    upd_sck (fun k => set_conns (cut_conn p (sk_conns k)) k);;
    on_pool (r_rmConn p);;
    on_pool (w_rmConn p)
  else mret tt.

Definition scheduleRmConn (p : cptr) : M state unit :=
  upd_sck (fun k => set_closedConns (sk_closedConns k ++ [p]) k).

Fixpoint reap (now : Z) (cc : list cptr) : M state unit :=
  match cc with
  | [] => mret tt
  | c :: rest => socket_rmConn now c;; reap now rest
  end.

(** One round of [connReaper]. *)
Definition connReaper (now : Z) : M state unit :=
  k ← sck;
  upd_sck (set_closedConns []);;
  reap now (sk_closedConns k).

Definition socket_Send (msg : Msg) : M state (option unit) := on_pool (w_write msg).
Definition socket_SendMulti (msg : Msg) : M state (option unit) :=
  on_pool (w_write (mkMsg (Frames msg) (Typ msg) true (msgerr msg))).
Definition socket_Recv : M state (option Msg) := on_pool r_read.

(** [topics]: the subscriptions of all connections. *)
Fixpoint gather_topics (l : list cptr) (keys : gset bytes) : M state (gset bytes) :=
  match l with
  | [] => mret keys
  | p :: rest => c ← on_conn p mget; gather_topics rest (keys ∪ c_topics c)
  end.

Definition socket_topics : M state (list bytes) :=
  k ← sck;
  keys ← gather_topics (sk_conns k) ∅;
  mret (sorted_keys keys).

(** [Close]: the connections are closed; the pools are left as they are. *)
Definition socket_Close : M state unit :=
  k ← sck;
  err ← close_all (sk_conns k) None;
  match err with Some e => mfail e | None => mret tt end.

(** ** Options *)

Definition maxTTL : Z := 65535 * 100 * 1000000.

Definition socket_SetOption (name : string) (value : optval) : M state unit :=
  if match value with ODuration d => bool_decide (name = OptionHeartbeatTTL) && (maxTTL <? d) | _ => false end
  then mfail (Errorf "zmq4: heartbeat TTL exceeds maximum")
  else upd_sck (fun k =>
    let props := <[name := value]> (sk_props k) in
    match value with
    | ODuration d =>
        if decide (name = OptionHeartbeatIVL) then
          set_options props d (sk_heartbeatTTL k) (sk_heartbeatTimeout k) (sk_heartbeatStarted k || (0 <? d)) k
        else if decide (name = OptionHeartbeatTTL) then
          set_options props (sk_heartbeatIVL k) d (sk_heartbeatTimeout k) (sk_heartbeatStarted k) k
        else if decide (name = OptionHeartbeatTimeout) then
          set_options props (sk_heartbeatIVL k) (sk_heartbeatTTL k) d (sk_heartbeatStarted k) k
        else set_options props (sk_heartbeatIVL k) (sk_heartbeatTTL k) (sk_heartbeatTimeout k) (sk_heartbeatStarted k) k
    | _ => set_options props (sk_heartbeatIVL k) (sk_heartbeatTTL k) (sk_heartbeatTimeout k) (sk_heartbeatStarted k) k
    end).

Definition socket_GetOption (name : string) : M state optval :=
  k ← sck;
  match sk_props k !! name with Some v => mret v | None => mfail ErrBadProperty end.

(** ** SUB *)

Definition sub_subscribe (topic : bytes) (v : Z) : M state unit :=
  upd_sck (fun k =>
    let topics := default ∅ (sk_topics k) in
    if decide (v = 0) then set_subTopics (Some (topics ∖ {[topic]})) k
    else if decide (v = 1) then set_subTopics (Some ({[topic]} ∪ topics)) k
    else k).

Definition as_string (v : optval) : outcome bytes :=
  match v with OString s => Ret s | _ => Panic "interface conversion" end.

Definition sub_SetOption (name : string) (value : optval) : M state (option unit) :=
  socket_SetOption name value;;
  let announce topic :=
    k ← sck;
    if decide (0 < len (sk_conns k)) then socket_Send (NewMsg topic) else mret (Some tt) in
  if decide (name = OptionSubscribe) then
    k ← lift (as_string value);
    sub_subscribe k 1;;
    announce (x01 :: k)
  else if decide (name = OptionUnsubscribe) then
    k ← lift (as_string value);
    sub_subscribe k 0;;
    announce (x00 :: k)
  else mfail ErrBadProperty.

Definition sub_Topics : M state (list bytes) :=
  k ← sck; mret (sorted_keys (default ∅ (sk_topics k))).

(** ** The heartbeat manager *)

(** Times are counted from Go's zero [time.Time]. *)

(** The connection [sendHeartbeatPing] and [handleHeartbeatTimeout] look for. *)
Definition find_conn (connID : bytes) (k : socket) : option cptr :=
  head (filter (fun p => RemoteAddr p = connID) (sk_conns k)).

Definition sendHeartbeatPing (now : Z) (connID : bytes) : M state unit :=
  k ← sck;
  match find_conn connID k with
  | None => mret tt
  | Some p =>
      c ← on_conn p mget;
      if Conn_Closed c then mret tt
      else
        let ttlDeciseconds := wrapu 16 (Z.quot (sk_heartbeatTTL k) (100 * 1000000)) in
        r ← try (on_conn p (Conn_SendCmd sec CmdPing (be_put 2 ttlDeciseconds)));
        match r with
        | inr _ => updateHeartbeatState heartbeatTimeout connID now
        | inl _ => updateHeartbeatState heartbeatPingSent connID now
        end
  end.

Definition handleHeartbeatTimeout (connID : bytes) : M state unit :=
  k ← sck;
  match find_conn connID k with
  | None => mret tt
  | Some p => _ ← try (on_conn p Conn_Close); scheduleRmConn p
  end.

(** The effect of one update on the manager's map. *)
Definition apply_update (u : heartbeatUpdate) (m : gmap bytes connState) : gmap bytes connState :=
  let id := hu_connID u in
  let s := default (mkConnState (hu_timestamp u) 0 false true) (m !! id) in
  match hu_updateType u with
  | heartbeatConnected => <[id := mkConnState (hu_timestamp u) (cs_lastPingSent s) false true]> m
  | heartbeatDisconnected => delete id m
  | heartbeatPingSent => <[id := mkConnState (cs_lastActivity s) (hu_timestamp u) true (cs_connected s)]> m
  | heartbeatPongReceived => <[id := mkConnState (hu_timestamp u) (cs_lastPingSent s) false (cs_connected s)]> m
  | heartbeatActivityDetected =>
      <[id := mkConnState (hu_timestamp u) (cs_lastPingSent s) (cs_waitingForPong s) (cs_connected s)]> m
  | heartbeatTimeout => <[id := s]> m
  end.

(** The manager receives the oldest update. *)
Definition hb_receive : M state unit :=
  upd_sck (fun k =>
    match sk_heartbeatUpdateCh k with
    | [] => k
    | u :: rest => set_connections (apply_update u (sk_connections k)) (set_updates rest k)
    end).

(** The answer to [queryConnectionLiveness]. *)
Definition hb_liveness (connID : bytes) (k : socket) : bool :=
  match sk_connections k !! connID with
  | Some s => cs_connected s && negb (cs_waitingForPong s)
  | None => false
  end.

(** What a tick decides for one connection. *)
Definition pong_overdue (now : Z) (k : socket) (s : connState) : bool :=
  cs_waitingForPong s && (0 <? sk_heartbeatTimeout k) && (sk_heartbeatTimeout k <? now - cs_lastPingSent s).
Definition needs_ping (now : Z) (k : socket) (s : connState) : bool :=
  ((sk_heartbeatIVL k <? now - cs_lastActivity s) || (sk_heartbeatIVL k <? now - cs_lastPingSent s))
  && negb (cs_waitingForPong s).

Fixpoint hb_scan (now now' : Z) (l : list (bytes * connState)) : M state (list bytes) :=
  match l with
  | [] => mret []
  | (connID, s) :: rest =>
      if negb (cs_connected s) then hb_scan now now' rest
      else
        k ← sck;
        if pong_overdue now k s then
          t ← hb_scan now now' rest; mret (connID :: t)
        else
          (if needs_ping now k s then sendHeartbeatPing now' connID else mret tt);;
          hb_scan now now' rest
  end.

Fixpoint hb_expire (l : list bytes) : M state unit :=
  match l with
  | [] => mret tt
  | connID :: rest =>
      handleHeartbeatTimeout connID;;
      upd_sck (fun k => set_connections (delete connID (sk_connections k)) k);;
      hb_expire rest
  end.

(** A tick at [now]; the PINGs are sent at [now']. *)
Definition hb_tick (range : gmap bytes connState → list (bytes * connState)) (now now' : Z) : M state unit :=
  k ← sck;
  timeoutConns ← hb_scan now now' (range (sk_connections k));
  hb_expire timeoutConns.
End socket.

(** ** PUB: its own option *)

Definition pub_SetOption {SS} (P : Pool SS pubPool) (name : string) (value : optval)
    : M (gmap cptr (Conn SS) * (socket * pubPool)) unit :=
  socket_SetOption name value;;
  if decide (name ≠ OptionHWM) then mfail ErrBadProperty
  else match value with
  | OInt hwm => on_pool (upd (fun r => mkPub (pb_rs r) (pb_c r) (pb_sem r) (pb_subscribers r) hwm (pb_chans r)))
  | _ => mfail ErrBadProperty
  end.
