(* ===== verification/CoreFacts.v ===== *)
(** * CoreFacts: sockets and their pools, subscriptions, heartbeats

    What the generic socket relies on is stated as laws of the interface
    [Pool]; each pool discharges them, and the bookkeeping of sockets is
    proved against the laws. Then: a SUB socket announces its topics to a new
    connection and the publisher at the other end has them; and what becomes
    of the PINGs of the heartbeat manager. *)

From Stdlib Require Import Strings.Byte ZArith Lia.
From stdpp Require Import base strings numbers gmap list sorting.
From S2P Require Import Prelude Zmtp Conn ConnFacts Sockets SocketFacts PubSub PubFacts CoreSocket.

#[local] Open Scope Z_scope.
#[local] Set Default Goal Selector "!".

(** ** Computations over the store *)

(** However [m] ends, the same connections exist afterwards and the rest of
    the state has changed as [R] says. *)
Definition steps_by {SS X A} (R : X → X → Prop) (m : M (gmap cptr (Conn SS) * X) A) : Prop :=
  ∀ st x, let '(_, (st', x')) := m (st, x) in dom st' = dom st ∧ R x x'.

Create HintDb steps.

Section steps.
Context {SS X : Type} (R : relation X) `{!PreOrder R}.
Implicit Types p : cptr.

Lemma steps_ret {A} (a : A) : steps_by (SS := SS) R (mret a).
Proof. by intros st x. Qed.
Lemma steps_fail {A} e : steps_by (SS := SS) R (mfail (A := A) e).
Proof. by intros st x. Qed.
Lemma steps_panic {A} e : steps_by (SS := SS) R (mpanic (A := A) e).
Proof. by intros st x. Qed.
Lemma steps_lift {A} (o : outcome A) : steps_by (SS := SS) R (lift o).
Proof. by intros st x. Qed.
Lemma steps_own : steps_by (SS := SS) R own.
Proof. by intros st x. Qed.
Lemma steps_upd f : (∀ x, R x (f x)) → steps_by (SS := SS) R (upd f).
Proof. by intros H st x. Qed.
Lemma steps_bind {A B} (m : M (gmap cptr (Conn SS) * X) A) (f : A → M _ B) :
  steps_by R m → (∀ a, steps_by R (f a)) → steps_by R (mbind f m).
Proof.
  intros Hm Hf st x. unfold mbind, M_bind. specialize (Hm st x). destruct (m (st, x)) as [[a|e|e] [st1 x1]]; [|done..].
  destruct Hm as [Hd1 HR1]. specialize (Hf a st1 x1). destruct (f a (st1, x1)) as [r [st2 x2]].
  destruct Hf as [Hd2 HR2]. split; [congruence|by etrans].
Qed.
Lemma steps_try {A} (m : M (gmap cptr (Conn SS) * X) A) : steps_by R m → steps_by R (try m).
Proof. intros Hm st x. unfold try. specialize (Hm st x). by destruct (m (st, x)) as [[| |] [? ?]]. Qed.
Lemma steps_on_conn {A} p (m : M (Conn SS) A) : steps_by R (on_conn p m).
Proof.
  intros st x. unfold on_conn. destruct (st !! p) as [c|] eqn:E; [|done]. destruct (m c) as [r c']. split; [|done].
  by rewrite dom_insert_lookup_L.
Qed.
Lemma steps_close_all l : ∀ err, steps_by (SS := SS) R (close_all l err).
Proof.
  induction l as [|p l IH]; intros err; cbn [close_all]; [apply steps_ret|].
  apply steps_bind; [apply steps_try, steps_on_conn|intros; apply IH].
Qed.
End steps.

#[export] Hint Resolve steps_ret steps_fail steps_panic steps_lift steps_own steps_on_conn steps_close_all : steps.

Ltac steps_tac :=
  repeat first
    [ progress intros
    | solve [eauto with steps typeclass_instances]
    | apply steps_bind; [typeclasses eauto| |]
    | apply steps_try
    | case_match ].

(** ** The laws of pools *)

Record members : Type := mkMembers { mb_ok : Prop; mb_w : gset cptr; mb_r : gset cptr }.

(** A pool that was in order is in order, with the same writers and no new readers. *)
Definition calm {X} (mem : X → members) (x x' : X) : Prop :=
  mb_ok (mem x) → mb_ok (mem x') ∧ mb_w (mem x') = mb_w (mem x) ∧ mb_r (mem x') ⊆ mb_r (mem x).

#[export] Instance calm_preorder {X} (mem : X → members) : PreOrder (calm mem).
Proof.
  split; [by intros x H|]. intros x y z Hxy Hyz Hx. destruct (Hxy Hx) as (Hy & E1 & S1).
  destruct (Hyz Hy) as (Hz & E2 & S2). split; [done|]. split; [congruence|set_solver].
Qed.

(** What a socket relies on: adding and removing a connection returns and
    does just that, everything else is [calm]. *)
Class PoolLaws {SS X : Type} (P : Pool SS X) : Type := {
  pl_mem : X → members;
  pl_wadd st x p : mb_ok (pl_mem x) → p ∉ mb_w (pl_mem x) →
    ∃ x', w_addConn p (st, x) = (Ret tt, (st, x')) ∧ mb_ok (pl_mem x') ∧
      mb_w (pl_mem x') = {[p]} ∪ mb_w (pl_mem x) ∧ mb_r (pl_mem x') = mb_r (pl_mem x);
  pl_radd st x p : mb_ok (pl_mem x) → p ∉ mb_r (pl_mem x) →
    ∃ x', r_addConn p (st, x) = (Ret tt, (st, x')) ∧ mb_ok (pl_mem x') ∧
      mb_w (pl_mem x') = mb_w (pl_mem x) ∧ mb_r (pl_mem x') ⊆ {[p]} ∪ mb_r (pl_mem x);
  pl_wrm st x p : mb_ok (pl_mem x) → p ∈ dom st →
    ∃ st' x', w_rmConn p (st, x) = (Ret tt, (st', x')) ∧ dom st' = dom st ∧ mb_ok (pl_mem x') ∧
      mb_w (pl_mem x') = mb_w (pl_mem x) ∖ {[p]} ∧ mb_r (pl_mem x') = mb_r (pl_mem x);
  pl_rrm st x p : mb_ok (pl_mem x) →
    ∃ x', r_rmConn p (st, x) = (Ret tt, (st, x')) ∧ mb_ok (pl_mem x') ∧
      mb_w (pl_mem x') = mb_w (pl_mem x) ∧ mb_r (pl_mem x') = mb_r (pl_mem x) ∖ {[p]};
  pl_listen p : steps_by (calm pl_mem) (r_listen p);
  pl_read : steps_by (calm pl_mem) r_read;
  pl_write msg : steps_by (calm pl_mem) (w_write msg) }.

Lemma cut_conn_set p l : NoDup l → NoDup (cut_conn p l) ∧ (list_to_set (cut_conn p l) : gset cptr) = list_to_set l ∖ {[p]}.
Proof.
  induction 1 as [|q l Hq Hnd IH]; cbn [cut_conn]; [split; [constructor|set_solver]|].
  destruct IH as [IH1 IH2]. case_decide as E.
  - subst. split; [done|]. cbn. set_solver.
  - split; [|cbn; rewrite IH2; set_solver]. constructor; [|done]. intros Hin. apply Hq.
    apply (elem_of_list_to_set (C := gset cptr)) in Hin. rewrite IH2 in Hin. set_solver.
Qed.

Lemma cut_conn_sub p l : (list_to_set (cut_conn p l) : gset cptr) ⊆ list_to_set l.
Proof. induction l as [|q l IH]; cbn [cut_conn]; [done|]. case_decide; cbn; set_solver. Qed.

(** The members of a pool that keeps a list of writers and a list of readers. *)
Definition lists_mem (ws rs : list cptr) : members :=
  mkMembers (NoDup ws ∧ NoDup rs) (list_to_set ws) (list_to_set rs).

Lemma lists_add ws p :
  NoDup ws → p ∉ (list_to_set ws : gset cptr) → NoDup (ws ++ [p]) ∧ (list_to_set (ws ++ [p]) : gset cptr) = {[p]} ∪ list_to_set ws.
Proof.
  intros Hnd Hp. rewrite elem_of_list_to_set in Hp. split; [|rewrite list_to_set_app_L; cbn; set_solver].
  apply NoDup_app. split; [done|]. split; [set_solver|]. apply NoDup_singleton.
Qed.

(** ** The pools satisfy the laws *)

Ltac laws_lists :=
  repeat match goal with H : _ ∧ _ |- _ => destruct H end;
  eexists; split; [reflexivity|]; cbn;
  repeat match goal with
  | H : NoDup ?l, Hp : ?p ∉ list_to_set ?l |- _ => destruct (lists_add l p H Hp) as [? ->]; clear Hp
  | |- context [cut_conn ?p ?l] =>
      let H1 := fresh in let H2 := fresh in
      destruct (cut_conn_set p l ltac:(assumption)) as [H1 H2]; rewrite ?H2; revert H1; generalize (cut_conn p l); intros
  end;
  split_and!; done.

(** An update that leaves the lists alone, or cuts the readers. *)
Ltac calm_upd :=
  apply steps_upd; intros ? [? ?]; cbn in *; split_and!;
  first [done | by apply cut_conn_set | apply cut_conn_sub].

Section laws.
Context {SS : Type} (sec : secops SS) (maxAlloc : Z).

#[export] Instance io_laws : PoolLaws (io_pool sec maxAlloc).
Proof.
  refine {| pl_mem := fun x => lists_mem (io_ws x) (io_rs x) |}; cbn [r_addConn r_rmConn r_read r_listen w_addConn w_rmConn w_write io_pool].
  - intros st x p Hok Hp. cbn in *. laws_lists.
  - intros st x p Hok Hp. cbn in *. laws_lists.
  - intros st x p Hok Hp. cbn in *. exists st. laws_lists.
  - intros st x p Hok. cbn in *. laws_lists.
  - intros p. unfold qreader_listen, qreader_rmConn. steps_tac; calm_upd.
  - unfold qreader_read. steps_tac; calm_upd.
  - intros msg. unfold mwriter_write. steps_tac. generalize (@None error).
    induction (io_ws a) as [|q l IH]; intros err; cbn [mwriter_loop]; steps_tac.
Defined.

#[export] Instance router_laws : PoolLaws (router_pool sec maxAlloc).
Proof.
  refine {| pl_mem := fun x => lists_mem (ro_ws x) (ro_rs x) |}; cbn [r_addConn r_rmConn r_read r_listen w_addConn w_rmConn w_write router_pool].
  - intros st x p Hok Hp. cbn in *. laws_lists.
  - intros st x p Hok Hp. cbn in *. laws_lists.
  - intros st x p Hok Hp. cbn in *. exists st. laws_lists.
  - intros st x p Hok. cbn in *. laws_lists.
  - intros p. unfold routerQReader_listen, routerQReader_rmConn. steps_tac; calm_upd.
  - unfold routerQReader_read. steps_tac; calm_upd.
  - intros msg. unfold routerMWriter_write. steps_tac. generalize (@None error).
    induction (ro_ws a) as [|q l IH]; intros err; cbn [routerMWriter_loop]; steps_tac.
Defined.

#[export] Instance rep_laws : PoolLaws (rep_pool sec maxAlloc).
Proof.
  refine {| pl_mem := fun x => lists_mem (rp_wconns x) (rp_rconns x) |}; cbn [r_addConn r_rmConn r_read r_listen w_addConn w_rmConn w_write rep_pool].
  - intros st x p Hok Hp. cbn in *. laws_lists.
  - intros st x p Hok Hp. cbn in *. laws_lists.
  - intros st x p Hok Hp. cbn in *. exists st. laws_lists.
  - intros st x p Hok. cbn in *. laws_lists.
  - intros p. unfold repReader_listen, repReader_rmConn. steps_tac; calm_upd.
  - unfold repReader_read, repState_Set. steps_tac; calm_upd.
  - intros msg. unfold repWriter_write, repWriter_sendPayload. steps_tac.
Defined.

#[export] Instance req_laws : PoolLaws (req_pool sec maxAlloc).
Proof.
  refine {| pl_mem := fun x => lists_mem (rq_conns x) [] |}; cbn [r_addConn r_rmConn r_read r_listen w_addConn w_rmConn w_write req_pool].
  - intros st x p Hok Hp. cbn in *. laws_lists.
  - intros st x p Hok Hp. exists x. cbn in *. destruct Hok. split_and!; first [done|set_solver].
  - intros st x p Hok Hp. cbn in *. exists st. laws_lists.
  - intros st x p Hok. exists x. cbn in *. destruct Hok. split_and!; first [done|set_solver].
  - steps_tac.
  - unfold reqReader_read, reqState_Get. steps_tac.
  - intros msg. unfold reqWriter_write, reqState_Set. steps_tac. generalize (@None error).
    induction (Z.of_nat <$> seq 0 (length (rq_conns a))) as [|q l IH]; intros err; cbn [reqWriter_loop]; steps_tac; calm_upd.
Defined.
End laws.

(** The publisher's pool: channels open and served for their subscriber. *)
Definition pub_mem (x : pubPool) : members :=
  match pb_subscribers x with
  | Some m => mkMembers (pub_wf m (pb_chans x) ∧ NoDup (pb_rs x) ∧ 0 <= pb_hwm x) (dom m) (list_to_set (pb_rs x))
  | None => mkMembers False ∅ ∅
  end.

Lemma pub_ok_inv x : mb_ok (pub_mem x) →
  ∃ m, pb_subscribers x = Some m ∧ pub_wf m (pb_chans x) ∧ NoDup (pb_rs x) ∧ 0 <= pb_hwm x ∧
    mb_w (pub_mem x) = dom m ∧ mb_r (pub_mem x) = list_to_set (pb_rs x).
Proof.
  unfold pub_mem. destruct (pb_subscribers x) as [m|]; [|done]. intros (? & ? & ?). exists m. split_and!; done.
Qed.

Lemma pub_wf_add m h p k cap :
  pub_wf m h → p ∉ dom m → k ∉ dom h → pub_wf (<[p := k]> m) (<[k := mkChan p [] cap false]> h).
Proof.
  intros Hwf Hp Hk q j. destruct (decide (q = p)) as [->|Hne].
  - rewrite lookup_insert_eq. intros [= <-]. rewrite lookup_insert_eq. by eexists.
  - rewrite lookup_insert_ne by done. intros Hq. destruct (Hwf q j Hq) as (c & Hc & ? & ?). exists c.
    rewrite lookup_insert_ne; [done|]. intros ->. apply Hk. by apply elem_of_dom_2 in Hc.
Qed.

Lemma pub_wf_remove m h p k c :
  pub_wf m h → m !! p = Some k → h !! k = Some c → pub_wf (delete p m) (<[k := close_chan c]> h).
Proof.
  intros Hwf Hp Hk q j. rewrite lookup_delete_Some. intros [Hne Hq].
  destruct (Hwf q j Hq) as (d & Hd & Hdq & ?). destruct (Hwf p k Hp) as (c' & Hc' & Hcp & _).
  exists d. rewrite lookup_insert_ne; [done|]. intros ->. congruence.
Qed.

Lemma try_close {SS X} p (st : gmap cptr (Conn SS)) (x : X) :
  p ∈ dom st → ∃ r st', try (on_conn p Conn_Close) (st, x) = (Ret r, (st', x)) ∧ dom st' = dom st.
Proof.
  intros [c Hc]%elem_of_dom. unfold try, on_conn. rewrite Hc. unfold Conn_Close, on_rw, rw_close, mupd.
  cbn. destruct (nc_open (c_rw c)); (eexists _, _; split; [reflexivity|]; by rewrite dom_insert_lookup_L).
Qed.

Section pub_laws.
Context {SS : Type} (sec : secops SS) (maxAlloc : Z) (range : gmap cptr nat → list (cptr * nat)).
Context (Hrange : range_order range).

Lemma pub_upd_calm f :
  (∀ x, pb_subscribers (f x) = pb_subscribers x ∧ pb_chans (f x) = pb_chans x ∧ pb_hwm (f x) = pb_hwm x ∧
        (NoDup (pb_rs x) → NoDup (pb_rs (f x))) ∧ (list_to_set (pb_rs (f x)) : gset cptr) ⊆ list_to_set (pb_rs x)) →
  steps_by (SS := SS) (calm pub_mem) (upd f).
Proof.
  intros H. apply steps_upd. intros x. destruct (H x) as (E1 & E2 & E3 & H4 & H5). unfold calm, pub_mem.
  rewrite E1. destruct (pb_subscribers x); [|done]. cbn. rewrite E2, E3. intros (? & ? & ?). split_and!; auto.
Qed.

Ltac pub_upd := apply pub_upd_calm; intros x; cbn; split_and!;
  first [done | intros; by apply cut_conn_set | apply cut_conn_sub].

Lemma pub_write_dom msg : steps_by (SS := SS) (fun _ _ => True) (pubMWriter_write range msg).
Proof.
  assert (Hpre : PreOrder (fun _ _ : pubPool => True)) by (by split).
  unfold pubMWriter_write. steps_tac. induction (default [] _) as [|[q k] l IH]; cbn [pubMWriter_loop]; [steps_tac|].
  unfold chan_of, set_chan. steps_tac; by apply steps_upd.
Qed.

Lemma pub_write_calm msg : steps_by (SS := SS) (calm pub_mem) (pubMWriter_write range msg).
Proof.
  intros st x. pose proof (pub_write_dom msg st x) as Hd. destruct (pubMWriter_write range msg (st, x)) as [r [st' x']] eqn:E.
  destruct Hd as [Hd _]. split; [done|]. intros (m & Hm & Hwf & Hnd & Hh & -> & ->)%pub_ok_inv. rewrite (write_ok range m msg st x Hrange Hm Hwf) in E. injection E as <- <- <-.
  unfold pub_mem. cbn. rewrite Hm. cbn. split_and!; try done. by apply pub_wf_offer; [eapply subs_NoDup|].
Qed.

#[local] Instance pub_laws : PoolLaws (pub_pool sec maxAlloc range).
Proof.
  refine {| pl_mem := pub_mem |}; cbn [r_addConn r_rmConn r_read r_listen w_addConn w_rmConn w_write pub_pool].
  - intros st x p (m & Hm & Hwf & Hnd & Hh & -> & ->)%pub_ok_inv Hp.
    unfold pubMWriter_addConn. eexists. split.
    + mstep reflexivity. rewrite decide_False by lia. mstep reflexivity. rewrite Hm. reflexivity.
    + unfold pub_mem. cbn. split_and!; [|done|done|by rewrite dom_insert_L|done].
      apply pub_wf_add; [done..|]. apply is_fresh.
  - intros st x p (m & Hm & Hwf & Hnd & Hh & -> & ->)%pub_ok_inv Hp.
    destruct (lists_add _ p Hnd Hp) as [? E]. eexists. split; [reflexivity|].
    unfold pub_mem. cbn. rewrite Hm. cbn. rewrite E. split_and!; done.
  - intros st x p (m & Hm & Hwf & Hnd & Hh & -> & ->)%pub_ok_inv Hp.
    unfold pubMWriter_rmConn. destruct (m !! p) as [k|] eqn:Hk.
    + destruct (Hwf p k Hk) as (c & Hc & Hcp & Hcl). destruct (try_close p st x Hp) as (r & st' & Ht & Hd).
      eexists st', _. split; [|split; [exact Hd|]].
      * mstep reflexivity. rewrite Hm. cbn [mbind option_bind]. rewrite Hk. mstep exact Ht. mstep reflexivity.
        unfold chan_close. mstep (unfold chan_of; mstep reflexivity; cbn; by rewrite Hc). rewrite Hcl. reflexivity.
      * unfold pub_mem. cbn. rewrite Hm. cbn. rewrite dom_delete_L. split_and!; [|done..]. by apply pub_wf_remove.
    + exists st, x. split; [mstep reflexivity; rewrite Hm; cbn [mbind option_bind]; by rewrite Hk|].
      unfold pub_mem. rewrite Hm. cbn. apply not_elem_of_dom in Hk. split_and!; try done. set_solver.
  - intros st x p (m & Hm & Hwf & Hnd & Hh & -> & ->)%pub_ok_inv.
    destruct (cut_conn_set p _ Hnd) as [? E]. eexists. split; [reflexivity|].
    unfold pub_mem. cbn. rewrite Hm. cbn. rewrite E. split_and!; done.
  - intros p. unfold pubQReader_listen, pubQReader_rmConn. steps_tac; pub_upd.
  - unfold pubQReader_read. steps_tac; pub_upd.
  - intros msg. apply steps_bind; [typeclasses eauto|apply pub_write_calm|steps_tac].
Defined.
End pub_laws.

(** ** The bookkeeping of sockets *)

Section sockets.
Context {SS X : Type} (sec : secops SS) {P : Pool SS X} {L : PoolLaws P} (RemoteAddr : cptr → bytes).
Implicit Types (s : gmap cptr (Conn SS) * (socket * X)) (st : gmap cptr (Conn SS)) (k : socket) (x : X).

(** The socket, its writers and its readers agree on the connections. *)
Record sock_ok st k x : Prop := {
  so_nodup : NoDup (sk_conns k);
  so_pool : mb_ok (pl_mem x);
  so_w : mb_w (pl_mem x) = list_to_set (sk_conns k);
  so_r : mb_r (pl_mem x) ⊆ list_to_set (sk_conns k);
  so_dom : list_to_set (sk_conns k) ⊆ dom st }.

Lemma on_pool_eq {A} (m : M (gmap cptr (Conn SS) * X) A) st k x r st' x' :
  m (st, x) = (r, (st', x')) → on_pool m (st, (k, x)) = (r, (st', (k, x'))).
Proof. intros H. unfold on_pool. by rewrite H. Qed.

Lemma conn_upd {Y} p f st (y : Y) c : st !! p = Some c → on_conn p (mupd f) (st, y) = (Ret tt, (<[p := f c]> st, y)).
Proof. intros H. by apply (on_conn_eq p (mupd f) st y c (Ret tt) (f c)). Qed.

(** Updates of the other fields of a socket. *)
Definition same_conns (kx kx' : socket * X) : Prop := sk_conns kx'.1 = sk_conns kx.1 ∧ kx'.2 = kx.2.

#[local] Instance same_conns_preorder : PreOrder same_conns.
Proof. split; [intros kx; by split|]. intros [] [] [] [E1 E2] [E3 E4]. unfold same_conns in *. cbn in *. split; congruence. Qed.

Lemma steps_upd_sck f : (∀ k, sk_conns (f k) = sk_conns k) → steps_by (SS := SS) same_conns (upd_sck f).
Proof. intros H st [k x]. cbn. split; [done|]. split; [apply H|done]. Qed.
Lemma steps_sck : steps_by (SS := SS) same_conns sck.
Proof. intros st [k x]. by repeat split. Qed.
Lemma steps_updateHeartbeat t id now : steps_by (SS := SS) same_conns (updateHeartbeatState t id now).
Proof. apply steps_upd_sck. intros k. by case_decide. Qed.
#[local] Hint Resolve steps_sck steps_updateHeartbeat : steps.
#[local] Hint Extern 1 (steps_by _ (upd_sck _)) => apply steps_upd_sck; intros; repeat case_match; reflexivity : steps.

Lemma updateHeartbeat_eq t id now st k x :
  ∃ k', updateHeartbeatState t id now (st, (k, x)) = (Ret tt, (st, (k', x))) ∧ sk_conns k' = sk_conns k ∧
    sk_closedConns k' = sk_closedConns k ∧ sk_topics k' = sk_topics k.
Proof. eexists. split; [reflexivity|]. by case_decide. Qed.

Lemma steps_subscriptions p topics : steps_by same_conns (send_subscriptions sec p topics).
Proof. induction topics; cbn [send_subscriptions]; steps_tac. Qed.

Lemma steps_tick range now now' : steps_by same_conns (hb_tick sec RemoteAddr range now now').
Proof.
  unfold hb_tick. apply steps_bind; [apply _|apply steps_sck|]. intros k. apply steps_bind; [apply _| |].
  - induction (range (sk_connections k)) as [|[id c] l IH]; cbn [hb_scan]; [steps_tac|].
    unfold sendHeartbeatPing. steps_tac.
  - intros l. induction l as [|id l IH]; cbn [hb_expire]; [steps_tac|].
    unfold handleHeartbeatTimeout, scheduleRmConn. steps_tac.
Qed.

Lemma sock_ok_same {A} (m : M (gmap cptr (Conn SS) * (socket * X)) A) st k x :
  steps_by same_conns m → sock_ok st k x →
  let '(_, (st', (k', x'))) := m (st, (k, x)) in sock_ok st' k' x'.
Proof.
  intros Hm [H1 H2 H3 H4 H5]. specialize (Hm st (k, x)). destruct (m (st, (k, x))) as [r [st' [k' x']]].
  destruct Hm as [Hd [E1 E2]]. cbn in E1, E2. subst x'. split; rewrite ?E1, ?Hd; done.
Qed.

Lemma sock_ok_calm {A} (m : M (gmap cptr (Conn SS) * X) A) st k x :
  steps_by (calm pl_mem) m → sock_ok st k x →
  let '(_, (st', (k', x'))) := on_pool m (st, (k, x)) in sock_ok st' k' x'.
Proof.
  intros Hm [H1 H2 H3 H4 H5]. unfold on_pool. specialize (Hm st x). destruct (m (st, x)) as [r [st' x']].
  destruct Hm as [Hd Hc]. destruct (Hc H2) as (Hok & Hw & Hr). split; rewrite ?Hw, ?Hd; [done..|set_solver|done].
Qed.

Lemma sock_ok_add now uuid p st k x :
  p ∉ sk_conns k → p ∈ dom st → sock_ok st k x →
  let '(_, (st', (k', x'))) := socket_addConn sec RemoteAddr now uuid p (st, (k, x)) in
  sock_ok st' k' x' ∧ sk_conns k' = sk_conns k ++ [p] ∧ dom st' = dom st.
Proof.
  intros Hp [c Hc]%elem_of_dom Hok. pose proof Hok as [H1 H2 H3 H4 H5]. unfold socket_addConn.
  assert (Hpl : p ∉ (list_to_set (sk_conns k) : gset cptr)) by (by rewrite elem_of_list_to_set).
  rewrite (M_bind_ret _ _ _ _ _ (conn_upd p _ st (k, x) c Hc)).
  erewrite (M_bind_ret (upd_sck _)); [|reflexivity].
  destruct (updateHeartbeat_eq heartbeatConnected (RemoteAddr p) now (<[p := set_heartbeat (Some []) c]> st)
    (set_conns (sk_conns k ++ [p]) k) x) as (k1 & Hu & Hk1 & _). rewrite (M_bind_ret _ _ _ _ _ Hu). cbn in Hk1.
  set (st1 := <[p := _]> st).
  rewrite (M_bind_ret _ _ _ _ _ (conn_upd p _ st1 (k1, x) _ (lookup_insert_eq _ _ _))). set (st2 := <[p := _]> st1).
  destruct (pl_wadd st2 x p H2) as (x1 & Hw & Hok1 & Ew & Er); [by rewrite H3|].
  rewrite (M_bind_ret _ _ _ _ _ (on_pool_eq _ st2 k1 x _ _ _ Hw)).
  destruct (pl_radd st2 x1 p Hok1) as (x2 & Hr & Hok2 & Ew2 & Er2); [rewrite Er; set_solver|].
  rewrite (M_bind_ret _ _ _ _ _ (on_pool_eq _ st2 k1 x1 _ _ _ Hr)).
  destruct (lists_add _ p H1 Hpl) as [Hnd Hset].
  assert (Hok' : sock_ok st2 k1 x2).
  { split; rewrite ?Hk1; [done|done|by rewrite Ew2, Ew, H3, Hset| |].
    - rewrite Hset. set_solver.
    - rewrite Hset. unfold st2, st1. rewrite !dom_insert_L. set_solver. }
  assert (Hd2 : dom st2 = dom st) by (unfold st2, st1; rewrite !dom_insert_L; apply elem_of_dom_2 in Hc; set_solver).
  erewrite (M_bind_ret sck); [|reflexivity]. destruct (sk_topics k1) as [T|]; [|done].
  pose proof (steps_subscriptions p (sorted_keys T) st2 (k1, x2)) as Hs.
  pose proof (sock_ok_same (send_subscriptions sec p (sorted_keys T)) st2 k1 x2 (steps_subscriptions _ _) Hok') as Hsame.
  destruct (send_subscriptions sec p (sorted_keys T) (st2, (k1, x2))) as [r [st3 [k3 x3]]]. destruct Hs as [Hd [Ek _]]. cbn in Ek.
  split; [done|]. split; congruence.
Qed.

(** Removing a connection returns, and takes it out everywhere. *)
Lemma sock_rm now p st k x :
  sock_ok st k x →
  ∃ st' k' x', socket_rmConn RemoteAddr now p (st, (k, x)) = (Ret tt, (st', (k', x'))) ∧ sock_ok st' k' x' ∧
    list_to_set (C := gset cptr) (sk_conns k') = list_to_set (sk_conns k) ∖ {[p]} ∧ sk_closedConns k' = sk_closedConns k.
Proof.
  intros Hok. pose proof Hok as [H1 H2 H3 H4 H5]. unfold socket_rmConn. destruct (decide (p ∈ sk_conns k)) as [Hp|Hp].
  - destruct (updateHeartbeat_eq heartbeatDisconnected (RemoteAddr p) now st k x) as (k0 & Hu & Hk0 & Hcc & _).
    set (k1 := set_conns (cut_conn p (sk_conns k0)) k0). destruct (cut_conn_set p _ H1) as [Hnd Hset].
    assert (Hk1 : sk_conns k1 = cut_conn p (sk_conns k)) by (unfold k1; cbn; by rewrite Hk0).
    destruct (pl_rrm st x p H2) as (x1 & Hr & Hok1 & Ew & Er).
    destruct (pl_wrm st x1 p Hok1) as (st2 & x2 & Hw & Hd & Hok2 & Ew2 & Er2); [apply H5; by apply elem_of_list_to_set|].
    exists st2, k1, x2. split.
    { mstep reflexivity. rewrite decide_True by done. mstep exact Hu. mstep reflexivity.
      mstep (apply on_pool_eq; exact Hr). by apply on_pool_eq. }
    split; [|split; [by rewrite Hk1|done]].
    split; rewrite ?Hk1, ?Hset; [done|done|by rewrite Ew2, Ew, H3|rewrite Er2, Er; set_solver|rewrite Hd; set_solver].
  - exists st, k, x. split; [mstep reflexivity; by rewrite decide_False|]. split; [done|]. split; [|done].
    assert (p ∉ (list_to_set (sk_conns k) : gset cptr)) by (by rewrite elem_of_list_to_set). set_solver.
Qed.

Lemma sock_reap now cc : ∀ st k x,
  sock_ok st k x →
  ∃ st' k' x', reap RemoteAddr now cc (st, (k, x)) = (Ret tt, (st', (k', x'))) ∧ sock_ok st' k' x' ∧
    list_to_set (C := gset cptr) (sk_conns k') = list_to_set (sk_conns k) ∖ list_to_set cc ∧ sk_closedConns k' = sk_closedConns k.
Proof.
  induction cc as [|c cc IH]; intros st k x Hok; cbn [reap].
  - exists st, k, x. split_and!; try done. cbn. set_solver.
  - destruct (sock_rm now c st k x Hok) as (st1 & k1 & x1 & E1 & Hok1 & Hs1 & Hc1).
    destruct (IH st1 k1 x1 Hok1) as (st2 & k2 & x2 & E2 & Hok2 & Hs2 & Hc2).
    exists st2, k2, x2. split; [by mstep exact E1|]. split; [done|]. split; [|congruence].
    rewrite Hs2, Hs1. cbn. set_solver.
Qed.

(** What happens to a socket: connections come into being, are added, send,
    receive, are listened to, close; the reaper and the heartbeat manager run. *)
Inductive sock_step : relation (gmap cptr (Conn SS) * (socket * X)) :=
| step_open st k x p c : st !! p = None → sock_step (st, (k, x)) (<[p := c]> st, (k, x))
| step_add st k x now uuid p :
    p ∉ sk_conns k → p ∈ dom st → sock_step (st, (k, x)) (socket_addConn sec RemoteAddr now uuid p (st, (k, x))).2
| step_listen s p : sock_step s (on_pool (r_listen p) s).2
| step_send s msg : sock_step s (socket_Send msg s).2
| step_multi s msg : sock_step s (socket_SendMulti msg s).2
| step_recv s : sock_step s (socket_Recv s).2
| step_closed s p : sock_step s (scheduleRmConn p s).2
| step_reap s now : sock_step s (connReaper RemoteAddr now s).2
| step_update s : sock_step s (hb_receive s).2
| step_tick s range now now' : sock_step s (hb_tick sec RemoteAddr range now now' s).2.

(** What a step with its outcome establishes about the state it leaves. *)
Lemma outcome_state {A} (r : outcome A * (gmap cptr (Conn SS) * (socket * X))) (φ : _ → _ → _ → Prop) :
  (let '(_, (st', (k', x'))) := r in φ st' k' x') → ∀ st' k' x', r.2 = (st', (k', x')) → φ st' k' x'.
Proof. destruct r as [o [a [b c]]]. cbn. intros H st' k' x' [= <- <- <-]. done. Qed.

Lemma sock_reaper now st k x :
  sock_ok st k x →
  ∃ st' k' x', connReaper RemoteAddr now (st, (k, x)) = (Ret tt, (st', (k', x'))) ∧ sock_ok st' k' x' ∧
    list_to_set (C := gset cptr) (sk_conns k') = list_to_set (sk_conns k) ∖ list_to_set (sk_closedConns k) ∧
    sk_closedConns k' = [].
Proof.
  intros Hok. assert (Hok0 : sock_ok st (set_closedConns [] k) x) by (by destruct Hok).
  destruct (sock_reap now (sk_closedConns k) _ _ _ Hok0) as (st' & k' & x' & Hr & Hok' & Hs & Hc).
  exists st', k', x'. split; [|done]. unfold connReaper. mstep reflexivity. mstep reflexivity. exact Hr.
Qed.

Lemma sock_step_ok s s' : sock_step s s' → ∀ st k x st' k' x',
  s = (st, (k, x)) → s' = (st', (k', x')) → sock_ok st k x → sock_ok st' k' x'.
Proof.
  assert (Hs : ∀ {A} (m : M (gmap cptr (Conn SS) * (socket * X)) A) st k x st' k' x',
    steps_by same_conns m → (m (st, (k, x))).2 = (st', (k', x')) → sock_ok st k x → sock_ok st' k' x').
  { intros A m st k x st' k' x' Hm E Hok. by eapply outcome_state; [apply sock_ok_same|]. }
  assert (Hc : ∀ {A} (m : M (gmap cptr (Conn SS) * X) A) st k x st' k' x',
    steps_by (calm pl_mem) m → (on_pool m (st, (k, x))).2 = (st', (k', x')) → sock_ok st k x → sock_ok st' k' x').
  { intros A m st k x st' k' x' Hm E Hok. by eapply outcome_state; [apply sock_ok_calm|]. }
  destruct 1 as [st0 k0 x0 p c Hp|st0 k0 x0 now uuid p Hp Hd| | | | | |[st0 [k0 x0]] now| |];
    intros st k x st' k' x' E1 E2 Hok; try subst s; try (injection E1 as -> -> ->).
  - injection E2 as <- <- <-. destruct Hok as [? ? ? ? Hdom]. split; try done. rewrite dom_insert_L. set_solver.
  - pose proof (sock_ok_add now uuid p _ _ _ Hp Hd Hok) as Ha.
    destruct (socket_addConn _ _ _ _ _ _) as [? [? [? ?]]]. injection E2 as -> -> ->. apply Ha.
  - eapply Hc; [apply pl_listen|done..].
  - eapply Hc; [apply pl_write|done..].
  - eapply Hc; [apply pl_write|done..].
  - eapply Hc; [apply pl_read|done..].
  - eapply (Hs _ (scheduleRmConn p)); [by apply steps_upd_sck|done..].
  - destruct (sock_reaper now st k x Hok) as (? & ? & ? & Hr & ? & _). rewrite Hr in E2. cbn in E2. by simplify_eq.
  - eapply (Hs _ hb_receive); [|done..]. apply steps_upd_sck. intros k1. by destruct (sk_heartbeatUpdateCh k1).
  - eapply Hs; [apply steps_tick|done..].
Qed.

Lemma sock_reachable_ok s s' : rtc sock_step s s' → ∀ st k x st' k' x',
  s = (st, (k, x)) → s' = (st', (k', x')) → sock_ok st k x → sock_ok st' k' x'.
Proof.
  induction 1 as [s|s s1 s' H1 _ IH]; intros st k x st' k' x' E1 E2 Hok; [by simplify_eq|].
  destruct s1 as [st1 [k1 x1]]. eapply IH; [done..|]. by eapply sock_step_ok.
Qed.
End sockets.

(** Connections of a socket: whatever happens to a socket, over any
    pools that keep the laws (all five of the library do), the socket and its
    pool of writers have exactly the same connections, the readers have no
    others, none is listed twice, and all of them exist. A round of the
    reaper returns and takes exactly the connections reported closed out of
    the socket and both pools. *)
Theorem socket_pools_agree {SS X : Type} (sec : secops SS) {P : Pool SS X} (L : PoolLaws P)
    (RemoteAddr : cptr → bytes) (typ : SocketType) (topics : option (gset bytes)) (x0 : X)
    (st0 st : gmap cptr (Conn SS)) (k : socket) (x : X) (now : Z) :
  mb_ok (pl_mem x0) → mb_w (pl_mem x0) = ∅ → mb_r (pl_mem x0) = ∅ →
  rtc (sock_step sec RemoteAddr) (st0, (newSocket typ topics, x0)) (st, (k, x)) →
  sock_ok st k x ∧
  ∃ st' k' x', connReaper RemoteAddr now (st, (k, x)) = (Ret tt, (st', (k', x'))) ∧ sock_ok st' k' x' ∧
    mb_w (pl_mem x') = mb_w (pl_mem x) ∖ list_to_set (sk_closedConns k) ∧
    mb_r (pl_mem x') ⊆ mb_w (pl_mem x') ∧ sk_closedConns k' = [].
Proof.
  intros Hok0 Hw0 Hr0 Hreach.
  assert (Hok : sock_ok st k x).
  { eapply (sock_reachable_ok sec RemoteAddr); [exact Hreach|done..|].
    split; cbn; [constructor|done|by rewrite Hw0|by rewrite Hr0|set_solver]. }
  split; [done|]. destruct (sock_reaper RemoteAddr now st k x Hok) as (st' & k' & x' & Hr & Hok' & Hs & Hc).
  exists st', k', x'. split; [done|]. split; [done|]. destruct Hok as [_ _ -> _ _], Hok' as [_ _ Ew Er _].
  rewrite Ew, Hs in *. done.
Qed.

Lemma socket_pools_agree_witness :
  let st := {[1%nat := idle_conn; 2%nat := idle_conn]} in
  let L := router_laws nullSecurity 1000 in
  let s := (st, (newSocket Router None, newRouter)) in
  let s1 := (socket_addConn (P := router_pool nullSecurity 1000) nullSecurity (fun _ => []) 0 (gs "u1") 1 s).2 in
  let s2 := (scheduleRmConn (X := routerPool) 1 s1).2 in
  ∃ st' k' x', connReaper (P := router_pool nullSecurity 1000) (fun _ => []) 5 s2 = (Ret tt, (st', (k', x'))) ∧
    sock_ok (L := L) st' k' x' ∧ mb_w (pl_mem x') = {[1%nat]} ∖ {[1%nat]} .
Proof.
  intros st L s s1 s2.
  destruct (socket_pools_agree nullSecurity L (fun _ => []) Router None newRouter st s2.1 s2.2.1 s2.2.2 5)
    as (_ & st' & k' & x' & H1 & H2 & H3 & _).
  - repeat constructor.
  - done.
  - done.
  - eapply rtc_l; [|apply rtc_once].
    + apply (step_add nullSecurity (fun _ => []) st (newSocket Router None) newRouter 0 (gs "u1") 1).
      * by apply not_elem_of_nil.
      * vm_compute. done.
    + apply (step_closed nullSecurity (fun _ => []) s1 1).
  - exists st', k', x'. split; [exact H1|]. split; [exact H2|]. rewrite H3. vm_compute. reflexivity.
Defined.

(** ** Subscriptions *)

Lemma sorted_keys_perm T : sorted_keys T ≡ₚ elements T.
Proof. apply merge_sort_Permutation. Qed.

Definition subscription (topic : bytes) : Msg := NewMsg (x01 :: topic).

Lemma send_subscriptions_wire {SS X} (sec : secops SS) `{!Transparent sec} p topics : ∀ st (kx : socket * X) c,
  st !! p = Some c → live c →
  send_subscriptions sec p topics (st, kx) = (Ret tt, (<[p := wrote (wires (subscription <$> topics)) c]> st, kx)).
Proof.
  induction topics as [|t topics IH]; intros st kx c Hp Hl; cbn [send_subscriptions].
  - unfold wires. cbn. by rewrite wrote_nil, insert_id.
  - mstep (by apply try_send). rewrite (IH _ _ (wrote (msg_wire false [x01 :: t]) c)); [|by rewrite lookup_insert_eq|by apply live_wrote].
    by rewrite insert_insert_eq, wrote_wrote.
Qed.

(** [n] iterations of the publisher's [listen]. *)
Fixpoint pub_listens {SS} (sec : secops SS) (maxAlloc : Z) (n : nat) (q : cptr) : M (gmap cptr (Conn SS) * pubPool) unit :=
  match n with
  | O => mret tt
  | S n' => _ ← pubQReader_listen sec maxAlloc q; pub_listens sec maxAlloc n' q
  end.

Definition topics_fit (maxAlloc : Z) (topics : list bytes) : Prop :=
  Forall (fun t => len t + 1 <= maxAlloc ∧ len t + 1 <= maxInt64) topics.

Lemma pub_listen_one {SS} (sec : secops SS) `{!Transparent sec} maxAlloc q t rest st r d :
  st !! q = Some d → live d → topics_fit maxAlloc [t] → nc_in (c_rw d) = msg_wire false [x01 :: t] ++ rest →
  pubQReader_listen sec maxAlloc q (st, r) =
    (Ret true, (<[q := set_topics ({[t]} ∪ c_topics d) (reading rest d)]> st, r)).
Proof.
  intros Hq Hl Hf Hin. unfold pubQReader_listen.
  rewrite (M_bind_ret _ _ _ _ _ (on_conn_read sec maxAlloc q st r d [x01 :: t] rest Hq Hl ltac:(done)
    ltac:(apply Forall_cons in Hf as [Hf _]; constructor; [rewrite len_cons; lia|constructor]) Hin)).
  cbn [msgerr NewMsgFrom]. rewrite (M_bind_ret _ _ _ tt (<[q := set_topics ({[t]} ∪ c_topics d) (reading rest d)]> st, r)); [done|].
  change (pub_topic (NewMsgFrom [x01 :: t])) with true. cbv iota.
  rewrite (on_conn_eq q _ (<[q := reading rest d]> st) r (reading rest d) (Ret tt)
    (set_topics ({[t]} ∪ c_topics d) (reading rest d)) (lookup_insert_eq _ _ _)); [by rewrite insert_insert_eq|].
  unfold Conn_subscribe. cbn. change (drop 0 t) with t. done.
Qed.

Lemma pub_listens_wire {SS} (sec : secops SS) `{!Transparent sec} maxAlloc q rest topics : ∀ st r d,
  st !! q = Some d → live d → topics_fit maxAlloc topics → nc_in (c_rw d) = wires (subscription <$> topics) ++ rest →
  pub_listens sec maxAlloc (length topics) q (st, r) =
    (Ret tt, (<[q := set_topics (list_to_set topics ∪ c_topics d) (reading rest d)]> st, r)).
Proof.
  induction topics as [|t topics IH]; intros st r d Hq Hl Hf Hin; cbn [length pub_listens].
  - cbn in Hin. do 2 f_equal. rewrite insert_id; [done|]. rewrite Hq. f_equal. destruct d as [? ? rw]. unfold set_topics, reading, set_rw.
    cbn in *. rewrite union_empty_l_L. destruct rw. cbn in *. by subst.
  - unfold topics_fit in Hf. apply Forall_cons in Hf as [Hf1 Hf2].
    assert (Hone : pubQReader_listen sec maxAlloc q (st, r) =
      (Ret true, (<[q := set_topics ({[t]} ∪ c_topics d) (reading (wires (subscription <$> topics) ++ rest) d)]> st, r))).
    { apply (pub_listen_one sec maxAlloc q t); [done|done|by apply Forall_singleton|].
      by rewrite Hin, fmap_cons, wires_cons, <- app_assoc. }
    mstep exact Hone.
    rewrite (IH _ _ (set_topics ({[t]} ∪ c_topics d) (reading (wires (subscription <$> topics) ++ rest) d)));
      [|by rewrite lookup_insert_eq|by destruct Hl as [[? ?] ?]|done|done].
    assert (E : list_to_set (t :: topics) ∪ c_topics d = list_to_set topics ∪ ({[t]} ∪ c_topics d)) by (cbn; set_solver).
    by rewrite insert_insert_eq, E.
Qed.

(** C12. Late joiners: when a SUB socket gets a new connection it writes one
    subscription for each of its topics to it at once, in sorted order; and
    the PUB socket that reads those bytes at the other end has taken every
    one of the topics, and nothing else, into the subscriptions of that
    connection once it has read as many messages as there are topics. *)
Theorem sub_announces {SS SS' : Type} (sec : secops SS) (sec' : secops SS') `{!Transparent sec, !Transparent sec'}
    (RemoteAddr : cptr → bytes) (maxAlloc now : Z) (uuid : bytes)
    (st : gmap cptr (Conn SS)) (k : socket) (x : ioPool) (p : cptr) (c : Conn SS) (T : gset bytes)
    (str : gmap cptr (Conn SS')) (r : pubPool) (q : cptr) (d : Conn SS') (rest : bytes) :
  sk_topics k = Some T → st !! p = Some c → live c → c_typ c ≠ Router → live d → topics_fit maxAlloc (elements T) →
  ∃ w st' k' x',
    socket_addConn (P := io_pool sec maxAlloc) sec RemoteAddr now uuid p (st, (k, x)) = (Ret tt, (st', (k', x'))) ∧
    st' !! p = Some (wrote w (set_heartbeat (Some []) c)) ∧
    pub_listens sec' maxAlloc (size T) q (<[q := reading (w ++ rest) d]> str, r) =
      (Ret tt, (<[q := set_topics (T ∪ c_topics d) (reading rest d)]> str, r)).
Proof.
  intros HT Hp Hl Htyp Hd Hfit. set (w := wires (subscription <$> sorted_keys T)). exists w.
  assert (Hpub : pub_listens sec' maxAlloc (size T) q (<[q := reading (w ++ rest) d]> str, r) =
      (Ret tt, (<[q := set_topics (T ∪ c_topics d) (reading rest d)]> str, r))).
  { replace (size T) with (length (sorted_keys T)) by (rewrite (Permutation_length (sorted_keys_perm T)); done).
    rewrite (pub_listens_wire sec' maxAlloc q rest (sorted_keys T) _ r (reading (w ++ rest) d));
      [|by rewrite lookup_insert_eq|by apply live_reading|unfold topics_fit; by rewrite sorted_keys_perm|done].
    by rewrite insert_insert_eq, (list_to_set_perm_L _ _ (sorted_keys_perm T)), list_to_set_elements_L. }
  unfold socket_addConn. set (c1 := set_heartbeat (Some []) c).
  destruct (updateHeartbeat_eq heartbeatConnected (RemoteAddr p) now (<[p := c1]> st)
    (set_conns (sk_conns k ++ [p]) k) x) as (k1 & Hu & _ & _ & Ht). cbn in Ht.
  eexists _, k1, _. split; [|split; [|exact Hpub]].
  - mstep (by apply conn_upd). mstep reflexivity. mstep exact Hu.
    mstep (apply conn_upd; by rewrite lookup_insert_eq). rewrite decide_False by (intros [_ ?]; done).
    mstep reflexivity. mstep reflexivity. mstep reflexivity. rewrite Ht, HT.
    rewrite (send_subscriptions_wire sec p (sorted_keys T) _ _ c1); [reflexivity|by rewrite lookup_insert_eq|by destruct Hl as [[? ?] ?]].
  - by rewrite lookup_insert_eq.
Qed.

Lemma sub_announces_witness :
  let T : gset bytes := {[gs "a"; gs "b"]} in
  ∃ w st' k' x',
    socket_addConn (P := io_pool nullSecurity 1000) nullSecurity (fun _ => []) 0 [] 1
      ({[1%nat := idle_conn]}, (newSocket Sub (Some T), newIo)) = (Ret tt, (st', (k', x'))) ∧
    st' !! 1%nat = Some (wrote w (set_heartbeat (Some []) idle_conn)) ∧
    pub_listens nullSecurity 1000 (size T) 7 (<[7%nat := reading (w ++ []) idle_conn]> ∅, newPub) =
      (Ret tt, (<[7%nat := set_topics (T ∪ ∅) (reading [] idle_conn)]> ∅, newPub)).
Proof.
  intros T. refine (sub_announces nullSecurity nullSecurity (fun _ => []) 1000 0 [] {[1%nat := idle_conn]}
    (newSocket Sub (Some T)) newIo 1 idle_conn T ∅ newPub 7 idle_conn [] _ _ _ _ _ _); try done.
  apply Forall_forall. intros t Ht. apply elem_of_elements in Ht.
  apply elem_of_union in Ht as [->%elem_of_singleton| ->%elem_of_singleton]; vm_compute; split; congruence.
Defined.

(** ** Heartbeats *)

(** The bytes of a PING with the socket's TTL. *)
Definition ping_frame (k : socket) : bytes :=
  cmd_body CmdPing (be_put 2 (wrapu 16 (Z.quot (sk_heartbeatTTL k) (100 * 1000000)))).

Lemma ping_sent {SS X} (sec : secops SS) `{!Transparent sec} RemoteAddr now id p st k (x : X) c :
  find_conn RemoteAddr id k = Some p → st !! p = Some c → live c →
  sendHeartbeatPing sec RemoteAddr now id (st, (k, x)) =
    (Ret tt, (<[p := wrote (msg_wire true [ping_frame k]) c]> st,
              (if decide (len (sk_heartbeatUpdateCh k) < 10)
               then set_updates (sk_heartbeatUpdateCh k ++ [mkUpdate heartbeatPingSent id now]) k else k, x))).
Proof.
  intros Hf Hp [Hw Hc]. unfold sendHeartbeatPing. mstep reflexivity. rewrite Hf.
  mstep (rewrite (on_conn_eq p mget st (k, x) c (Ret c) c Hp eq_refl); by rewrite insert_id).
  unfold Conn_Closed. rewrite Hc.
  assert (Hs : Conn_SendCmd sec CmdPing (be_put 2 (wrapu 16 (Z.quot (sk_heartbeatTTL k) (100 * 1000000)))) c =
    (Ret tt, wrote (msg_wire true [ping_frame k]) c)) by (apply SendCmd_wire; [done|vm_compute; congruence|done|done]).
  rewrite (M_bind_ret _ _ _ (inl tt) (<[p := wrote (msg_wire true [ping_frame k]) c]> st, (k, x))); [done|].
  unfold try. by rewrite (on_conn_eq p _ st (k, x) c _ _ Hp Hs).
Qed.

Lemma ping_queued {SS} (sec : secops SS) `{!Transparent sec} maxAlloc q frame rest st io d :
  st !! q = Some d → live d → len frame <= maxAlloc ∧ len frame <= maxInt64 →
  nc_in (c_rw d) = msg_wire true [frame] ++ rest →
  qreader_listen sec maxAlloc q (st, io) =
    (Ret true, (<[q := reading rest d]> st,
                mkIo (io_rs io) (io_ws io) (io_c io ++ [mkMsg [frame] CmdMsg false None]) (io_rsem io) (io_wsem io))).
Proof.
  intros Hq [[Ho _] _] Hf Hin. unfold qreader_listen.
  assert (Hread : Conn_read sec maxAlloc d = (Ret (mkMsg [frame] CmdMsg false None), reading rest d))
    by (apply (Conn_read_wire sec maxAlloc true); [done|done|done|by apply Forall_singleton]).
  by rewrite (M_bind_ret _ _ _ _ _ (on_conn_eq q _ st io d _ _ Hq Hread)).
Qed.

(** What is left of a connection that is closed. *)
Definition closed_rw {SS} (c : Conn SS) : Conn SS := (Conn_Close c).2.

Lemma tick_closes {SS X} (sec : secops SS) RemoteAddr now now' id p st k (x : X) c s :
  find_conn RemoteAddr id k = Some p → st !! p = Some c → sk_connections k = {[id := s]} →
  cs_connected s = true → pong_overdue now k s = true →
  hb_tick sec RemoteAddr map_to_list now now' (st, (k, x)) =
    (Ret tt, (<[p := closed_rw c]> st, (set_connections ∅ (set_closedConns (sk_closedConns k ++ [p]) k), x))).
Proof.
  intros Hf Hp Hm Hc Ho. unfold hb_tick. mstep reflexivity. rewrite Hm, map_to_list_singleton.
  mstep (cbn [hb_scan]; rewrite Hc; cbn [negb]; mstep reflexivity; rewrite Ho; mstep reflexivity; reflexivity).
  cbn [hb_expire]. unfold handleHeartbeatTimeout, scheduleRmConn.
  assert (Ht : ∃ r, try (on_conn p Conn_Close) (st, (k, x)) = (Ret r, (<[p := closed_rw c]> st, (k, x)))).
  { unfold try, on_conn, closed_rw. rewrite Hp. unfold Conn_Close, on_rw, rw_close. cbn. destruct (nc_open (c_rw c)); by eexists. }
  destruct Ht as [r Ht].
  mstep (mstep reflexivity; rewrite Hf; mstep exact Ht; reflexivity). mstep reflexivity.
  cbn. rewrite Hm, delete_singleton_eq. done.
Qed.

(** Heartbeats close healthy connections: a PING the heartbeat manager
    sends to another socket of this library is not answered. The pool of the
    other socket reads with [Conn.read], not with [RecvMsg]: it queues the
    PING command as a message for the application and writes nothing back.
    So no PONG can arrive, and a tick later than the heartbeat timeout closes
    the connection and has it removed, although the peer is alive. *)
Theorem heartbeat_unanswered {SS SS' X : Type} (sec : secops SS) (sec' : secops SS') `{!Transparent sec, !Transparent sec'}
    (RemoteAddr : cptr → bytes) (maxAlloc now now' later : Z) (id : bytes)
    (st : gmap cptr (Conn SS)) (k : socket) (x : X) (p : cptr) (c : Conn SS) (s : connState)
    (str : gmap cptr (Conn SS')) (io : ioPool) (q : cptr) (d : Conn SS') (rest : bytes) :
  find_conn RemoteAddr id k = Some p → st !! p = Some c → live c → live d →
  7 <= maxAlloc → sk_heartbeatUpdateCh k = [] → sk_connections k = {[id := s]} → cs_connected s = true →
  0 < sk_heartbeatTimeout k < later - now →
  ∃ w k1 s1,
    sendHeartbeatPing sec RemoteAddr now id (st, (k, x)) = (Ret tt, (<[p := wrote w c]> st, (k1, x))) ∧
    qreader_listen sec' maxAlloc q (<[q := reading (w ++ rest) d]> str, io) =
      (Ret true, (<[q := reading rest d]> str,
         mkIo (io_rs io) (io_ws io) (io_c io ++ [mkMsg [ping_frame k] CmdMsg false None]) (io_rsem io) (io_wsem io))) ∧
    hb_receive (<[p := wrote w c]> st, (k1, x)) = (Ret tt, (<[p := wrote w c]> st, (s1, x))) ∧
    hb_tick sec RemoteAddr map_to_list later now' (<[p := wrote w c]> st, (s1, x)) =
      (Ret tt, (<[p := closed_rw (wrote w c)]> st,
                (set_connections ∅ (set_closedConns (sk_closedConns k ++ [p]) s1), x))).
Proof.
  intros Hf Hp Hl Hd Hmax Hch Hm Hcon Htime. pose proof (ping_sent sec RemoteAddr now id p st k x c Hf Hp Hl) as Hping.
  rewrite Hch in Hping. rewrite decide_True in Hping by (by vm_compute). cbn [app] in Hping.
  set (w := msg_wire true [ping_frame k]) in *. set (k1 := set_updates _ k) in *.
  set (s1 := set_connections (apply_update (mkUpdate heartbeatPingSent id now) (sk_connections k)) (set_updates [] k1)).
  exists w, k1, s1. split; [exact Hping|]. split; [|split; [reflexivity|]].
  - rewrite (ping_queued sec' maxAlloc q (ping_frame k) rest _ io (reading (w ++ rest) d));
      [by rewrite insert_insert_eq|by rewrite lookup_insert_eq|by apply live_reading| |done].
    unfold ping_frame, cmd_body, CmdPing, len, maxInt64. rewrite ?length_app. cbn. lia.
  - rewrite (tick_closes sec RemoteAddr later now' id p _ s1 x (wrote w c)
      (mkConnState (cs_lastActivity s) now true (cs_connected s))).
    + by rewrite insert_insert_eq.
    + exact Hf.
    + by rewrite lookup_insert_eq.
    + unfold s1. cbn. unfold apply_update. cbn. rewrite Hm, lookup_singleton_eq. cbn. by rewrite insert_singleton_eq.
    + done.
    + unfold pong_overdue. cbn. rewrite !andb_true_iff, !Z.ltb_lt. lia.
Qed.

(** A socket with one connection, heartbeats on, that knows its connection. *)
Definition beating : socket :=
  mkSocket Dealer [1%nat] None ∅ [] 1000 0 50 true [] {[gs "peer" := mkConnState 0 0 false true]}.

Lemma heartbeat_unanswered_witness :
  ∃ w k1 s1,
    sendHeartbeatPing nullSecurity (fun _ => gs "peer") 100 (gs "peer") ({[1%nat := idle_conn]}, (beating, newIo))
      = (Ret tt, (<[1%nat := wrote w idle_conn]> {[1%nat := idle_conn]}, (k1, newIo))) ∧
    qreader_listen nullSecurity 1000 7 (<[7%nat := reading (w ++ []) idle_conn]> ∅, newIo) =
      (Ret true, (<[7%nat := reading [] idle_conn]> ∅,
         mkIo [] [] [mkMsg [ping_frame beating] CmdMsg false None] false false)) ∧
    hb_receive (<[1%nat := wrote w idle_conn]> {[1%nat := idle_conn]}, (k1, newIo)) =
      (Ret tt, (<[1%nat := wrote w idle_conn]> {[1%nat := idle_conn]}, (s1, newIo))) ∧
    hb_tick nullSecurity (fun _ => gs "peer") map_to_list 200 200 (<[1%nat := wrote w idle_conn]> {[1%nat := idle_conn]}, (s1, newIo)) =
      (Ret tt, (<[1%nat := closed_rw (wrote w idle_conn)]> {[1%nat := idle_conn]},
                (set_connections ∅ (set_closedConns [1%nat] s1), newIo))).
Proof.
  refine (heartbeat_unanswered nullSecurity nullSecurity (fun _ => gs "peer") 1000 100 200 200 (gs "peer")
    {[1%nat := idle_conn]} beating newIo 1 idle_conn (mkConnState 0 0 false true) ∅ newIo 7 idle_conn [] _ _ _ _ _ _ _ _ _);
    try done; cbn; lia.
Defined.
