(* ===== verification/Heartbeat.v ===== *)
(** * Heartbeat: what the heartbeat manager knows (src/core_socket.go)

    The callback by which a connection reports to the manager of its socket,
    the questions to the manager, and what the map of the manager means: for
    each connection a machine of three states, driven by the updates. The manager
    itself is in CoreSocket. *)

From Stdlib Require Import Strings.Byte ZArith Lia.
From stdpp Require Import base strings numbers gmap list.
From S2P Require Import Prelude Zmtp Conn Sockets CoreSocket CoreFacts.

#[local] Open Scope Z_scope.
#[local] Set Default Goal Selector "!".

(** ** Notifications *)

Section manager.
Context {SS X : Type} (sec : secops SS) {P : Pool SS X} (RemoteAddr : cptr → bytes).

Abbreviation state := (gmap cptr (Conn SS) * (socket * X))%type.

Definition heartbeatCallback (updateType : string) (connID : bytes) (timestamp : Z) : M state unit :=
  if decide (updateType = "activity"%string) then updateHeartbeatState heartbeatActivityDetected connID timestamp
  else if decide (updateType = "pong"%string) then updateHeartbeatState heartbeatPongReceived connID timestamp
  else mret tt.

(** The oldest call that connection [p] makes to it, at [now]. *)
Definition notified (p : cptr) (now : Z) : M state unit :=
  c ← on_conn p mget;
  match c_heartbeat c with
  | Some (e :: rest) =>
      on_conn p (mupd (set_heartbeat (Some rest)));;
      heartbeatCallback (match e with HbActivity => "activity" | HbPong => "pong" end) (RemoteAddr p) now
  | _ => mret tt
  end.
End manager.

(** ** Questions *)

Inductive heartbeatQueryType : Type := queryHeartbeatConnections | queryConnectionLiveness | queryHeartbeatStats.

Record heartbeatQuery : Type := mkQuery { hq_queryType : heartbeatQueryType; hq_connID : bytes }.

Inductive hbReply : Type :=
| HbConnections (l : list bytes)
| HbLiveness (b : bool)
| HbStats (active interval ttl timeout : Z).

(** How the manager answers. *)
Definition hb_answer (range : gmap bytes connState → list (bytes * connState)) (q : heartbeatQuery) (k : socket) : hbReply :=
  match hq_queryType q with
  | queryHeartbeatConnections => HbConnections (range (sk_connections k)).*1
  | queryConnectionLiveness => HbLiveness (hb_liveness (hq_connID q) k)
  | queryHeartbeatStats => HbStats (Z.of_nat (size (sk_connections k))) (sk_heartbeatIVL k) (sk_heartbeatTTL k) (sk_heartbeatTimeout k)
  end.

(** The channel of questions, each with the number of the call that asked, and
    the answers in the channels of the calls. *)
Record hbQueries : Type := mkHbQueries { hq_queue : list (nat * heartbeatQuery); hq_replies : gmap nat hbReply }.

(** [queryHeartbeatState] up to the wait: [false], it returns nil, the channel
    being full. *)
Definition query_send (n : nat) (q : heartbeatQuery) (h : hbQueries) : bool * hbQueries :=
  if decide (length (hq_queue h) < 5)%nat then (true, mkHbQueries (hq_queue h ++ [(n, q)]) (hq_replies h)) else (false, h).

(** Its wait: the answer, or nil after a tenth of a second. *)
Definition query_wait (n : nat) (timeout : bool) (h : hbQueries) : option (option hbReply * hbQueries) :=
  match hq_replies h !! n with
  | Some r => Some (Some r, mkHbQueries (hq_queue h) (delete n (hq_replies h)))
  | None => if timeout then Some (None, h) else None
  end.

(** The manager, when it runs, answers the oldest question. *)
Definition hb_serve (range : gmap bytes connState → list (bytes * connState)) (k : socket) (h : hbQueries) : hbQueries :=
  if sk_heartbeatStarted k then
    match hq_queue h with
    | [] => h
    | (n, q) :: rest => mkHbQueries rest (<[n := hb_answer range q k]> (hq_replies h))
    end
  else h.

(** ** The machine of a connection *)

Inductive hbStatus : Type := HbAbsent | HbAlive | HbWaiting.

#[global] Instance hbStatus_eq_dec : EqDecision hbStatus.
Proof. solve_decision. Defined.

Definition status_step (s : hbStatus) (t : heartbeatUpdateType) : hbStatus :=
  match t with
  | heartbeatConnected | heartbeatPongReceived => HbAlive
  | heartbeatDisconnected => HbAbsent
  | heartbeatPingSent => HbWaiting
  | heartbeatTimeout | heartbeatActivityDetected => if decide (s = HbAbsent) then HbAlive else s
  end.

(** What the manager has recorded of a connection, and what the updates about it
    say. *)
Definition recorded_status (m : gmap bytes connState) (id : bytes) : hbStatus :=
  match m !! id with
  | None => HbAbsent
  | Some s => if cs_waitingForPong s then HbWaiting else HbAlive
  end.
Definition updates_of (id : bytes) (us : list heartbeatUpdate) : list heartbeatUpdateType :=
  hu_updateType <$> filter (fun u => hu_connID u = id) us.
Definition apply_updates (us : list heartbeatUpdate) (m : gmap bytes connState) : gmap bytes connState := foldl (fun m u => apply_update u m) m us.

Definition all_connected (m : gmap bytes connState) : Prop := map_Forall (fun _ s => cs_connected s = true) m.

Lemma apply_connected u m : all_connected m → all_connected (apply_update u m).
Proof.
  intros H. unfold apply_update. assert (Hs : cs_connected (default (mkConnState (hu_timestamp u) 0 false true) (m !! hu_connID u)) = true).
  { destruct (m !! hu_connID u) as [s|] eqn:E; [by apply (H _ _ E)|done]. }
  destruct (hu_updateType u); try (by apply map_Forall_insert_2). by apply map_Forall_delete.
Qed.

Lemma apply_status u m id : recorded_status (apply_update u m) id =
  if decide (hu_connID u = id) then status_step (recorded_status m id) (hu_updateType u) else recorded_status m id.
Proof.
  unfold recorded_status, apply_update. case_decide as E; [subst id|].
  - destruct (hu_updateType u); rewrite ?lookup_insert_eq, ?lookup_delete_eq; cbn; try done;
      destruct (m !! hu_connID u) as [[? ? [] ?]|]; done.
  - destruct (hu_updateType u); by rewrite ?lookup_insert_ne, ?lookup_delete_ne by done.
Qed.

Lemma apply_updates_status us : ∀ m id, recorded_status (apply_updates us m) id = foldl status_step (recorded_status m id) (updates_of id us).
Proof.
  induction us as [|u us IH]; intros m id; [done|]. unfold apply_updates, updates_of in *. cbn [foldl]. rewrite IH, apply_status, filter_cons.
  by case_decide.
Qed.

Lemma apply_updates_connected us : ∀ m, all_connected m → all_connected (apply_updates us m).
Proof. induction us as [|u us IH]; intros m H; [done|]. by apply IH, apply_connected. Qed.


(** A question to a manager that does not run has no answer: the call gives up,
    and after five of them the channel is full. *)
Lemma unstarted_query range k h n q timeout :
  sk_heartbeatStarted k = false → hq_replies h !! n = None →
  let h' := hb_serve range k (query_send n q h).2 in
  hq_replies h' = hq_replies h ∧ query_wait n timeout h' = (if timeout then Some (None, h') else None).
Proof.
  intros Hk Hn. unfold hb_serve. rewrite Hk. unfold query_send. case_decide; cbn; (split; [done|]); unfold query_wait; cbn; by rewrite Hn.
Qed.

(** ** Entries that stay *)

Section stale.
Context {SS X : Type} (sec : secops SS) (RemoteAddr : cptr → bytes).

(** What a step does to the entry [id]. *)
Definition same_entry (id : bytes) (kx kx' : socket * X) : Prop := sk_connections kx'.1 !! id = sk_connections kx.1 !! id.

#[local] Instance same_entry_preorder id : PreOrder (same_entry id).
Proof. split; [by intros kx|]. intros [] [] [] E1 E2. unfold same_entry in *. congruence. Qed.

Lemma entry_upd id f : (∀ k, sk_connections (f k) !! id = sk_connections k !! id) → steps_by (SS := SS) (same_entry id) (upd_sck f).
Proof. intros H st [k x]. cbn. split; [done|]. apply H. Qed.
Lemma entry_sck id : steps_by (SS := SS) (same_entry id) sck.
Proof. intros st [k x]. by repeat split. Qed.
Lemma entry_update id t i now : steps_by (SS := SS) (same_entry id) (updateHeartbeatState t i now).
Proof. apply entry_upd. intros k. by case_decide. Qed.
#[local] Hint Resolve entry_sck entry_update : steps.
#[local] Hint Extern 1 (steps_by _ (upd_sck _)) => apply entry_upd; intros; repeat case_match; reflexivity : steps.

Lemma entry_scan id now now' l : steps_by (same_entry id) (hb_scan sec RemoteAddr now now' l).
Proof. induction l as [|[i s] l IH]; cbn [hb_scan]; [steps_tac|]. unfold sendHeartbeatPing. steps_tac. Qed.

(** The scan times out only connections that wait for a PONG. *)
Lemma scan_waiting id now now' l : (∀ s, (id, s) ∈ l → cs_waitingForPong s = false) → ∀ s0 : gmap cptr (Conn SS) * (socket * X),
  match (hb_scan sec RemoteAddr now now' l s0).1 with Ret t => id ∉ t | _ => True end.
Proof.
  induction l as [|[i s] l IH]; intros Hl s0; cbn [hb_scan]; [by apply not_elem_of_nil|].
  assert (Hl' : ∀ s, (id, s) ∈ l → cs_waitingForPong s = false) by (intros s' Hs'; apply Hl; by right).
  destruct (cs_connected s); [|by apply IH]. destruct s0 as [st [k x]]. cbn [negb]. unfold mbind at 1, M_bind. cbn [sck].
  destruct (pong_overdue now k s) eqn:Ho.
  - unfold mbind, M_bind. pose proof (IH Hl' (st, (k, x))) as Ht. destruct (hb_scan sec RemoteAddr now now' l (st, (k, x))) as [[t| |] s1]; cbn; [|done|done].
    cbn in *. apply not_elem_of_cons. split; [|done]. intros ->. unfold pong_overdue in Ho. rewrite (Hl s) in Ho by left. done.
  - match goal with |- context [mbind ?f ?m] => unfold mbind at 1, M_bind; destruct (m (st, (k, x))) as [[u| |] s1]; try done end. by apply IH.
Qed.

Lemma entry_expire id l : id ∉ l → steps_by (SS := SS) (X := socket * X) (same_entry id) (hb_expire RemoteAddr l).
Proof.
  induction l as [|i l IH]; cbn [hb_expire]; [steps_tac|]. intros [Hne Hl]%not_elem_of_cons. apply steps_bind; [apply _| |intros _; apply steps_bind; [apply _| |by intros _; apply IH]].
  - unfold handleHeartbeatTimeout, scheduleRmConn. steps_tac.
  - apply entry_upd. intros k. cbn. by rewrite lookup_delete_ne.
Qed.

(** An update about a connection that is gone brings its entry back, alive, and
    no tick of the manager removes it: it is counted and reported alive for
    good. *)
Theorem heartbeat_entry_stays range now now' id st (k : socket) (x : X) s :
  range_order range → sk_connections k !! id = Some s → cs_waitingForPong s = false →
  let '(_, (_, (k', _))) := hb_tick sec RemoteAddr range now now' (st, (k, x)) in sk_connections k' !! id = Some s.
Proof.
  intros Hr Hid Hw. unfold hb_tick. unfold mbind at 1, M_bind. cbn [sck].
  assert (Hl : ∀ s', (id, s') ∈ range (sk_connections k) → cs_waitingForPong s' = false).
  { intros s'. rewrite (Hr (sk_connections k)), elem_of_map_to_list. congruence. }
  unfold mbind at 1, M_bind. pose proof (scan_waiting id now now' _ Hl (st, (k, x))) as Ht. pose proof (entry_scan id now now' (range (sk_connections k)) st (k, x)) as Hs.
  destruct (hb_scan sec RemoteAddr now now' (range (sk_connections k)) (st, (k, x))) as [[t| |] [st1 [k1 x1]]]; cbn in Ht, Hs; destruct Hs as [_ Hs]; unfold same_entry in Hs; cbn in Hs; [|congruence..].
  pose proof (entry_expire id t Ht st1 (k1, x1)) as He. destruct (hb_expire RemoteAddr t (st1, (k1, x1))) as [r [st2 [k2 x2]]].
  destruct He as [_ He]. unfold same_entry in He. cbn in He. congruence.
Qed.
End stale.

(** A disconnection and then a late report of activity. *)
Lemma late_activity_revives (m : gmap bytes connState) id t :
  recorded_status (apply_updates [mkUpdate heartbeatDisconnected id t; mkUpdate heartbeatActivityDetected id t] m) id = HbAlive.
Proof. rewrite apply_updates_status. unfold updates_of. cbn. by rewrite !decide_True by done. Qed.

(** ** Witnesses *)

Definition some_updates : list heartbeatUpdate :=
  [mkUpdate heartbeatConnected (gs "a") 1; mkUpdate heartbeatConnected (gs "b") 2; mkUpdate heartbeatPingSent (gs "a") 3; mkUpdate heartbeatDisconnected (gs "b") 4].

