(* ===== verification/Cancel.v ===== *)
(** * Cancel: pools whose context is done (src/socket_rep.go,
    src/socket_router.go, src/socket_pub.go, src/protocol_msgio.go)

    The calls and goroutines of Sockets and PubSub once more, with the [select]s
    in which the context of the call or of the socket is a case; [done] says that
    it is done, [choice] which case is taken when several are ready. *)

From Stdlib Require Import Strings.Byte ZArith Lia.
From stdpp Require Import base strings numbers gmap list.
From S2P Require Import Prelude Zmtp Conn ConnFacts Deadline Sockets SocketFacts PubSub CoreSocket.

#[local] Open Scope Z_scope.
#[local] Set Default Goal Selector "!".

Section cancel.
Context {SS : Type} (sec : secops SS) (maxAlloc : Z).

Abbreviation store := (gmap cptr (Conn SS)).

(** ** Reading *)

(** [read] of the readers that queue, over [read] without a context. *)
Definition read_ctx {X} (done choice : bool) (read : M (store * X) (option Msg)) : M (store * X) (option Msg) :=
  if done && negb choice then mfail ContextErr
  else
    m ← read;
    match m with
    | None => if done then mfail ContextErr else mret None
    | Some _ => mret m
    end.

Definition qreader_read_ctx (done choice : bool) : M (store * ioPool) (option Msg) := read_ctx done choice qreader_read.
Definition routerQReader_read_ctx (done choice : bool) : M (store * routerPool) (option Msg) := read_ctx done choice routerQReader_read.
Definition repReader_read_ctx (done choice : bool) : M (store * repPool) (option Msg) := read_ctx done choice repReader_read.

(** The reader of publishers returns the error of the message it has not
    received. *)
Definition pubQReader_read_ctx (done choice : bool) : M (store * pubPool) (option Msg) :=
  if done && negb choice then mret (Some emptyMsg)
  else
    m ← pubQReader_read;
    match m with
    | None => if done then mret (Some emptyMsg) else mret None
    | Some _ => mret m
    end.

(** One iteration of [listen]: a message that arrives when the context is done is
    dropped, and the goroutine returns. *)
Definition listen_ctx {X} (done : bool) (rmConn : cptr → M (store * X) unit) (listen : cptr → M (store * X) bool) (p : cptr) : M (store * X) bool :=
  if done then
    _ ← on_conn p (Conn_read sec maxAlloc);
    _ ← try (on_conn p Conn_Close);
    rmConn p;;
    mret false
  else listen p.

(** ** Writing *)

Definition repState_Get : M (store * repPool) (option cptr * list bytes) := r ← own; mret (rp_conn r, rp_preamble r).

(** [write]; [running]: the goroutine [run] takes the payload. *)
Definition repWriter_write_ctx (done running choice : bool) (msg : Msg) : M (store * repPool) unit :=
  if done && negb (running && choice) then mfail ContextErr else repWriter_write sec msg.

(** One turn of [run]: the payload taken, if any; [false]: it returns. *)
Definition repWriter_run (done : bool) (payload : option (option cptr * list bytes * Msg)) : M (store * repPool) bool :=
  match payload with
  | Some (p, preamble, msg) => repWriter_sendPayload sec p preamble msg;; mret true
  | None => r ← own; mret (negb (done || rp_sendClosed r))
  end.

(** [write] of a publisher; the case of the context is ready for every
    subscriber. *)
Fixpoint pubMWriter_loop_ctx (choice : nat → bool) (subs : list (cptr * nat)) (msg : Msg) : M (store * pubPool) unit :=
  match subs with
  | [] => mret tt
  | (_, k) :: subs' =>
      c ← chan_of k;
      if negb (choice k) then mfail ContextErr
      else if ch_closed c then mpanic "send on closed channel"
      else if decide (len (ch_queue c) < ch_cap c) then set_chan k (push_chan msg c);; pubMWriter_loop_ctx choice subs' msg
      else mfail ContextErr
  end.

Definition pubMWriter_write_ctx (done : bool) (choice : nat → bool) (range : gmap cptr nat → list (cptr * nat)) (msg : Msg) : M (store * pubPool) unit :=
  if done then r ← own; pubMWriter_loop_ctx choice (default [] (range <$> pb_subscribers r)) msg else pubMWriter_write range msg.
End cancel.

(** ** What a cancelled call does *)

(** A read that would block changes nothing. *)
Definition blocks_still {S} (read : M S (option Msg)) : Prop := ∀ s s', read s = (Ret None, s') → s' = s.

Lemma qreader_blocks_still {SS} : blocks_still (qreader_read (SS := SS)).
Proof.
  intros [st io] s'. unfold qreader_read, own, mbind, M_bind. destruct (io_rsem io), (io_c io) as [|m rest]; cbn; try (by intros [= <-]).
  destruct (msgerr m); cbn; by intros [= ].
Qed.
Lemma router_blocks_still {SS} : blocks_still (routerQReader_read (SS := SS)).
Proof.
  intros [st r] s'. unfold routerQReader_read, own, mbind, M_bind. destruct (ro_rsem r), (ro_c r) as [|m rest]; cbn; try (by intros [= <-]).
  destruct (msgerr m); cbn; by intros [= ].
Qed.
Lemma rep_blocks_still {SS} : blocks_still (repReader_read (SS := SS)).
Proof.
  intros [st r] s'. unfold repReader_read, own, mbind, M_bind. destruct (rp_msgCh r) as [|[p m] rest]; cbn; [by intros [= <-]|].
  destruct (msgerr m); cbn; [by intros [= ]|]. destruct (splitReq m) as [[pre|] im]; cbn; by intros [= ].
Qed.

Lemma read_ctx_done {SS X} (read : M (gmap cptr (Conn SS) * X) (option Msg)) choice s : blocks_still read →
  read_ctx true choice read s = (Fail ContextErr, s) ∨
  (choice = true ∧ read_ctx true choice read s = read s ∧ ∀ s', read s ≠ (Ret None, s')).
Proof.
  intros Hb. unfold read_ctx. destruct choice; cbn [andb negb]; [|by left]. unfold mbind, M_bind.
  destruct (read s) as [[[m|]|e|p] s'] eqn:E; cbn; [by right| |by right|by right]. left. by rewrite (Hb _ _ E).
Qed.

(** Receiving on a socket that is closed, or in a call that is cancelled: the
    call returns. It reports the context and takes nothing from the queue, or it
    is the same as a call that is not cancelled, which does not block; so no
    message is lost. A XPUB socket, whose reader has no error to report, gives
    an empty message that nobody sent. *)
Theorem cancelled_recv {SS} (choice : bool) :
  (∀ s, let r := qreader_read_ctx (SS := SS) true choice s in
     r = (Fail ContextErr, s) ∨ (r = qreader_read s ∧ ∀ s', r ≠ (Ret None, s'))) ∧
  (∀ s, let r := routerQReader_read_ctx (SS := SS) true choice s in
     r = (Fail ContextErr, s) ∨ (r = routerQReader_read s ∧ ∀ s', r ≠ (Ret None, s'))) ∧
  (∀ s, let r := repReader_read_ctx (SS := SS) true choice s in
     r = (Fail ContextErr, s) ∨ (r = repReader_read s ∧ ∀ s', r ≠ (Ret None, s'))) ∧
  (∀ s, pubQReader_read_ctx (SS := SS) true false s = (Ret (Some emptyMsg), s)).
Proof.
  split_and!; [intros s r..|done].
  - destruct (read_ctx_done qreader_read choice s qreader_blocks_still) as [H|(_ & H & Hn)]; [by left|right]. unfold r, qreader_read_ctx. by rewrite H.
  - destruct (read_ctx_done routerQReader_read choice s router_blocks_still) as [H|(_ & H & Hn)]; [by left|right]. unfold r, routerQReader_read_ctx. by rewrite H.
  - destruct (read_ctx_done repReader_read choice s rep_blocks_still) as [H|(_ & H & Hn)]; [by left|right]. unfold r, repReader_read_ctx. by rewrite H.
Qed.

(** The goroutine of a connection ends with its context: the connection is
    taken out of the readers and what it read is not queued. *)
Lemma cancelled_listen {SS} (sec : secops SS) maxAlloc p st io c m c' :
  st !! p = Some c → Conn_read sec maxAlloc c = (Ret m, c') →
  ∃ st', listen_ctx sec maxAlloc true qreader_rmConn (qreader_listen sec maxAlloc) p (st, io) =
    (Ret false, (st', mkIo (cut_conn p (io_rs io)) (io_ws io) (io_c io) (io_rsem io) (io_wsem io))).
Proof.
  intros Hp Hr. exists (<[p := (Conn_Close c').2]> st). unfold listen_ctx. mstep (exact (on_conn_eq p _ st io c _ _ Hp Hr)).
  assert (Ht : ∃ r, try (on_conn p Conn_Close) (<[p := c']> st, io) = (Ret r, (<[p := (Conn_Close c').2]> st, io))).
  { unfold try, on_conn. rewrite lookup_insert_eq. unfold Conn_Close, on_rw, rw_close. cbn. destruct (nc_open (c_rw c')); cbn; rewrite insert_insert_eq; by eexists. }
  destruct Ht as [r Ht]. mstep exact Ht. done.
Qed.

(** A publication in a cancelled call reaches the subscribers before the one at
    which the case of the context is taken, one copy each, and no other. *)
Lemma cancelled_publish {SS} choice msg (st : gmap cptr (Conn SS)) subs : ∀ pb,
  NoDup subs.*2 → (∀ k, k ∈ subs.*2 → ∃ c, pb_chans pb !! k = Some c ∧ ch_closed c = false) →
  ∃ n, (n ≤ length subs)%nat ∧ pubMWriter_loop_ctx choice subs msg (st, pb) =
    (if decide (n = length subs) then Ret tt else Fail ContextErr,
     (st, set_chans (foldl (fun h k => alter (push_chan msg) k h) (pb_chans pb) (take n subs.*2)) pb)).
Proof.
  assert (Hset : ∀ pb, set_chans (pb_chans pb) pb = pb) by (by intros []).
  induction subs as [|[p k] subs IH]; intros pb Hnd Hc; cbn [pubMWriter_loop_ctx fmap list_fmap length snd] in *; [exists 0%nat; split; [done|]; cbn; by rewrite Hset|].
  apply NoDup_cons in Hnd as [Hk Hnd]. destruct (Hc k (list_elem_of_here _ _)) as (c & Hkc & Hcl).
  assert (Hch : chan_of k (st, pb) = (Ret c, (st, pb))) by (unfold chan_of, own, mbind, M_bind; cbn; by rewrite Hkc).
  rewrite (M_bind_ret _ _ _ _ _ Hch).
  destruct (choice k); cbn [negb]; [|exists 0%nat; split; [lia|]; cbn; by rewrite Hset]. rewrite Hcl. case_decide; [|exists 0%nat; split; [lia|]; cbn; by rewrite Hset].
  destruct (IH (set_chans (<[k := push_chan msg c]> (pb_chans pb)) pb) Hnd) as (n & Hn & E).
  { intros k' Hk'. cbn. rewrite lookup_insert_ne by (intros <-; done). apply Hc. by right. }
  exists (S n). split; [lia|]. rewrite (M_bind_ret _ _ _ tt (st, set_chans (<[k := push_chan msg c]> (pb_chans pb)) pb)) by done.
  rewrite E. cbn. rewrite (alter_alt_Some _ _ _ _ Hkc). f_equal. repeat case_decide; (done || lia).
Qed.
