(* ===== verification/SocketKinds.v ===== *)
(** * SocketKinds: the eleven kinds of socket (src/zmq4.go, src/socket_dealer.go,
    src/socket_pair.go, src/socket_push.go, src/socket_pull.go,
    src/socket_xsub.go, src/socket_xpub.go and the methods of the others)

    The interface [Socket], the pools each kind puts under the generic socket,
    and the methods that a kind does not pass on to it. [Listen], [Dial] and
    [Addr] are always passed on. *)

From Stdlib Require Import Strings.Byte ZArith Lia.
From stdpp Require Import base strings numbers gmap list.
From S2P Require Import Prelude Zmtp Conn ConnFacts Sockets SocketFacts PubSub CoreSocket CoreFacts.

#[local] Open Scope Z_scope.
#[local] Set Default Goal Selector "!".

(** ** The interface *)

(** The methods of [Socket] that are not passed on by every kind; [None] from a
    send or a receive: it waits. [s_Topics] is there for the kinds with the
    interface [Topics]. *)
Class Socket (SS X : Type) : Type := {
  s_Type : SocketType;
  s_Send : Msg → M (gmap cptr (Conn SS) * (socket * X)) (option unit);
  s_SendMulti : Msg → M (gmap cptr (Conn SS) * (socket * X)) (option unit);
  s_Recv : M (gmap cptr (Conn SS) * (socket * X)) (option Msg);
  s_Close : M (gmap cptr (Conn SS) * (socket * X)) unit;
  s_GetOption : string → M (gmap cptr (Conn SS) * (socket * X)) optval;
  s_SetOption : string → optval → M (gmap cptr (Conn SS) * (socket * X)) (option unit);
  s_Topics : option (M (gmap cptr (Conn SS) * (socket * X)) (list bytes)) }.

Section kinds.
Context {SS : Type} (sec : secops SS) (maxAlloc : Z) (range : gmap cptr nat → list (cptr * nat)).

(** The methods of the generic socket over some pools. *)
Definition generic_socket {X} (P : Pool SS X) (typ : SocketType) : Socket SS X := {|
  s_Type := typ;
  s_Send := socket_Send;
  s_SendMulti := socket_SendMulti;
  s_Recv := socket_Recv;
  s_Close := socket_Close;
  s_GetOption := socket_GetOption;
  s_SetOption name v := socket_SetOption name v;; mret (Some tt);
  s_Topics := None |}.

Definition dealerSocket : Socket SS ioPool := generic_socket (io_pool sec maxAlloc) Dealer.
Definition pairSocket : Socket SS ioPool := generic_socket (io_pool sec maxAlloc) Pair.
Definition xsubSocket : Socket SS ioPool := generic_socket (io_pool sec maxAlloc) XSub.

(** [sck.r = nil] and [sck.w = nil]: nothing is added to them, and a call
    of their methods panics. *)
Definition nil_call {S A : Type} : M S A := mpanic "invalid memory address or nil pointer dereference".

Definition push_pool : Pool SS ioPool := {|
  r_addConn := fun _ => mret tt; r_rmConn := fun _ => mret tt; r_read := nil_call; r_listen := fun _ => nil_call;
  w_addConn := mwriter_addConn; w_rmConn := mwriter_rmConn; w_write := mwriter_write sec |}.
Definition pull_pool : Pool SS ioPool := {|
  r_addConn := qreader_addConn; r_rmConn := qreader_rmConn; r_read := qreader_read; r_listen := qreader_listen sec maxAlloc;
  w_addConn := fun _ => mret tt; w_rmConn := fun _ => mret tt; w_write := fun _ => nil_call |}.

(** A method that fails and does nothing. *)
Definition cannot {A : Type} (what : string) : M (gmap cptr (Conn SS) * (socket * ioPool)) A := mfail (Errorf what).

Definition pushSocket : Socket SS ioPool :=
  let G := generic_socket push_pool Push in {|
  s_Type := s_Type; s_Send := s_Send; s_SendMulti := s_SendMulti;
  s_Recv := cannot "zmq4: PUSH sockets can't recv messages";
  s_Close := s_Close; s_GetOption := s_GetOption; s_SetOption := s_SetOption; s_Topics := None |}.

Definition pullSocket : Socket SS ioPool :=
  let G := generic_socket pull_pool Pull in {|
  s_Type := s_Type;
  s_Send _ := cannot "zmq4: PULL sockets can't send messages";
  s_SendMulti _ := cannot "zmq4: PULL sockets can't send messages";
  s_Recv := s_Recv; s_Close := s_Close; s_GetOption := s_GetOption; s_SetOption := s_SetOption; s_Topics := None |}.

(** The methods of REQ, REP, ROUTER and PUB that call the pools themselves are
    those of the generic socket. *)
Definition reqSocket : Socket SS reqPool := generic_socket (req_pool sec maxAlloc) Req.
Definition repSocket : Socket SS repPool := generic_socket (rep_pool sec maxAlloc) Rep.
Definition routerSocket : Socket SS routerPool := generic_socket (router_pool sec maxAlloc) Router.

(** [Topics] of PUB and XPUB. *)
Definition conn_topics {X} : option (M (gmap cptr (Conn SS) * (socket * X)) (list bytes)) := Some socket_topics.

Definition pubSocket : Socket SS pubPool :=
  let P := pub_pool sec maxAlloc range in
  let G := generic_socket P Pub in {|
  s_Type := s_Type; s_Send := s_Send; s_SendMulti := s_SendMulti;
  s_Recv := mfail (Errorf "zmq4: PUB sockets can't recv messages");
  s_Close := s_Close; s_GetOption := s_GetOption;
  s_SetOption name v := pub_SetOption P name v;; mret (Some tt);
  s_Topics := conn_topics |}.

Definition xpubSocket : Socket SS pubPool :=
  let G := generic_socket (pub_pool sec maxAlloc range) XPub in {|
  s_Type := s_Type; s_Send := s_Send; s_SendMulti := s_SendMulti; s_Recv := s_Recv;
  s_Close := s_Close; s_GetOption := s_GetOption; s_SetOption := s_SetOption; s_Topics := conn_topics |}.

Definition subSocket : Socket SS ioPool :=
  let P := io_pool sec maxAlloc in
  let G := generic_socket P Sub in {|
  s_Type := s_Type; s_Send := s_Send; s_SendMulti := s_SendMulti; s_Recv := s_Recv;
  s_Close := s_Close; s_GetOption := s_GetOption;
  s_SetOption := sub_SetOption (P := P);
  s_Topics := Some sub_Topics |}.
End kinds.

(** The state a constructor makes. *)
Definition NewPush : socket * ioPool := (newSocket Push None, newIo).
Definition NewPull : socket * ioPool := (newSocket Pull None, newIo).
Definition NewDealer : socket * ioPool := (newSocket Dealer None, newIo).
Definition NewPair : socket * ioPool := (newSocket Pair None, newIo).
Definition NewXSub : socket * ioPool := (newSocket XSub None, newIo).
Definition NewSub : socket * ioPool := (newSocket Sub (Some ∅), newIo).
Definition NewReq : socket * reqPool := (newSocket Req None, newReq).
Definition NewRep : socket * repPool := (newSocket Rep None, newRep).
Definition NewRouter : socket * routerPool := (newSocket Router None, newRouter).
Definition NewPub : socket * pubPool := (newSocket Pub None, newPub).
Definition NewXPub : socket * pubPool := (newSocket XPub None, newPub).

(** ** PUSH and PULL *)

Section pipeline.
Context {SS SS' : Type} (sec : secops SS) (sec' : secops SS') `{!Transparent sec, !Transparent sec'} (maxAlloc : Z).

(** A PULL socket reads the next message and hands it out. *)
Lemma pull_receives q frames rest st k io d :
  st !! q = Some d → live d → frames ≠ [] → fits maxAlloc frames → io_c io = [] → io_rsem io = true →
  nc_in (c_rw d) = msg_wire false frames ++ rest →
  ∃ s2 s3, on_pool (r_listen (Pool := pull_pool sec' maxAlloc) q) (st, (k, io)) = (Ret true, s2) ∧
    s_Recv (Socket := pullSocket sec' maxAlloc) s2 = (Ret (Some (NewMsgFrom frames)), s3) ∧
    s3 = (<[q := reading rest d]> st, (k, io)).
Proof.
  intros Hq Hl Hne Hf Hc Hs Hin. eexists _, _. split; [|split].
  - apply on_pool_eq. cbn [r_listen pull_pool]. unfold qreader_listen. mstep (by eapply on_conn_read). done.
  - apply on_pool_eq. cbn [r_read pull_pool]. unfold qreader_read. mstep reflexivity. cbn [io_c io_rsem io_ws io_rs io_wsem].
    rewrite Hc, Hs. mstep reflexivity. done.
  - cbn. rewrite <- Hc, <- Hs. by destruct io.
Qed.

(** PUSH does not share its messages out: what is sent on a PUSH socket
    is written to every connected peer, and each PULL socket at the other end
    receives all of it. Sending it as a multipart message makes no difference. *)
Theorem push_duplicates (st : gmap cptr (Conn SS)) (k : socket) (io : ioPool) (frames : list bytes) :
  io_wsem io = true → NoDup (io_ws io) → all_live (io_ws io) st → frames ≠ [] → fits maxAlloc frames →
  ∃ st',
    s_Send (Socket := pushSocket sec) (NewMsgFrom frames) (st, (k, io)) = (Ret (Some tt), (st', (k, io))) ∧
    s_SendMulti (Socket := pushSocket sec) (NewMsgFrom frames) (st, (k, io)) = (Ret (Some tt), (st', (k, io))) ∧
    ∀ p c, p ∈ io_ws io → st !! p = Some c → ∃ c', st' !! p = Some c' ∧
      ∀ q stq kq ioq (d : Conn SS') sent rest,
        nc_out (c_rw c') = nc_out (c_rw c) ++ sent →
        stq !! q = Some d → live d → io_c ioq = [] → io_rsem ioq = true → nc_in (c_rw d) = sent ++ rest →
        ∃ s2 s3, on_pool (r_listen (Pool := pull_pool sec' maxAlloc) q) (stq, (kq, ioq)) = (Ret true, s2) ∧
          s_Recv (Socket := pullSocket sec' maxAlloc) s2 = (Ret (Some (NewMsgFrom frames)), s3).
Proof.
  intros Hsem Hnd Hall Hne Hf. exists (routed (fun _ => true) (msg_wire false frames) (io_ws io) st).
  assert (Hw : ∀ msg, Frames msg = frames → s_Send (Socket := pushSocket sec) msg (st, (k, io)) =
    (Ret (Some tt), (routed (fun _ => true) (msg_wire false frames) (io_ws io) st, (k, io)))).
  { intros msg Hm. apply on_pool_eq. cbn [w_write push_pool]. unfold mwriter_write. mstep reflexivity. rewrite Hsem. cbn [negb].
    mstep (apply (mwriter_loop_all sec msg); done). by rewrite Hm. }
  split; [by apply Hw|]. split; [by apply (Hw (mkMsg frames UsrMsg true None))|].
  intros p c Hp Hc. eexists. split; [by apply routed_lookup|]. rewrite decide_True by done.
  intros q stq kq ioq d sent rest Hout Hq Hl Hcq Hsq Hin. cbn in Hout. apply app_inv_head in Hout as <-.
  destruct (pull_receives q frames rest stq kq ioq d) as (s2 & s3 & H1 & H2 & _); [done..|]. by exists s2, s3.
Qed.
End pipeline.

(** ** Which methods work *)

(** What the kinds refuse: a PULL socket sends nothing, a PUSH or PUB
    socket receives nothing, and they say so without touching any state. The
    high-water mark is an option of PUB only: PUB takes it and refuses every
    other option after storing it, XPUB stores the option and keeps the mark it
    has. *)
Theorem socket_refusals {SS : Type} (sec : secops SS) (maxAlloc : Z) (range : gmap cptr nat → list (cptr * nat))
    (st : gmap cptr (Conn SS)) (k : socket) (io : ioPool) (pb : pubPool) (msg : Msg) (hwm : Z) (name : string) (v : optval) :
  (∃ e, s_Send (Socket := pullSocket sec maxAlloc) msg (st, (k, io)) = (Fail e, (st, (k, io))) ∧
        s_SendMulti (Socket := pullSocket sec maxAlloc) msg (st, (k, io)) = (Fail e, (st, (k, io)))) ∧
  (∃ e, s_Recv (Socket := pushSocket sec) (st, (k, io)) = (Fail e, (st, (k, io)))) ∧
  (∃ e, s_Recv (Socket := pubSocket sec maxAlloc range) (st, (k, pb)) = (Fail e, (st, (k, pb)))) ∧
  (∃ k', s_SetOption (Socket := pubSocket sec maxAlloc range) OptionHWM (OInt hwm) (st, (k, pb)) =
     (Ret (Some tt), (st, (k', mkPub (pb_rs pb) (pb_c pb) (pb_sem pb) (pb_subscribers pb) hwm (pb_chans pb)))) ∧
     s_SetOption (Socket := xpubSocket sec maxAlloc range) OptionHWM (OInt hwm) (st, (k, pb)) = (Ret (Some tt), (st, (k', pb))) ∧
     sk_props k' = <[OptionHWM := OInt hwm]> (sk_props k)) ∧
  (name ≠ OptionHWM → ∃ e s', s_SetOption (Socket := pubSocket sec maxAlloc range) name v (st, (k, pb)) = (Fail e, s') ∧
     s'.2.2 = pb ∧ (e = ErrBadProperty → sk_props s'.2.1 = <[name := v]> (sk_props k))).
Proof.
  split_and!.
  - by eexists.
  - by eexists.
  - by eexists.
  - eexists. split_and!; [reflexivity..|done].
  - intros Hn. cbn [s_SetOption pubSocket]. unfold pub_SetOption, socket_SetOption.
    match goal with |- context [if ?b then mfail _ else upd_sck ?f] => destruct b; [|set (g := f)] end.
    + eexists _, _. split; [reflexivity|]. by split.
    + rewrite decide_True by done. eexists _, _. split; [reflexivity|]. split; [done|]. intros _. cbn. unfold g.
      destruct v; repeat case_decide; reflexivity.
Qed.

(** ** Witnesses *)

Lemma push_duplicates_witness :
  let st := {[1%nat := idle_conn; 2%nat := idle_conn]} in
  let io := mkIo [] [1%nat; 2%nat] [] true true in
  ∃ st', s_Send (Socket := pushSocket nullSecurity) (NewMsgFrom [gs "job"]) (st, (NewPush.1, io)) = (Ret (Some tt), (st', (NewPush.1, io))) ∧
    ∀ p, p ∈ [1%nat; 2%nat] → ∃ c', st' !! p = Some c'.
Proof.
  intros st io. destruct (push_duplicates nullSecurity nullSecurity 1000 st NewPush.1 io [gs "job"]) as (st' & H1 & _ & H2).
  - done.
  - repeat constructor; set_solver.
  - intros p Hp. apply list_elem_of_In in Hp. destruct Hp as [<-|[<-|[]]]; by exists idle_conn.
  - done.
  - unfold fits. repeat constructor; vm_compute; congruence.
  - exists st'. split; [exact H1|]. intros p Hp. assert (Hc : st !! p = Some idle_conn).
    { apply list_elem_of_In in Hp. destruct Hp as [<-|[<-|[]]]; reflexivity. }
    destruct (H2 p idle_conn Hp Hc) as (c' & Hc' & _). by exists c'.
Defined.
