(* ===== verification/Endpoint.v ===== *)
(** * Endpoint: addresses and transports (src/core_transport.go,
    src/transport/transport.go, src/internal/inproc/transport.go,
    src/core_utils.go)

    The table of transports, the parsing of endpoints, and what a transport
    makes of the address in one. [strings.Split], [net.SplitHostPort] and
    [net.JoinHostPort] are written out as the Go library has them. *)

From Stdlib Require Import Strings.Byte ZArith Lia.
From stdpp Require Import base strings numbers gmap list.
From S2P Require Import Prelude Zmtp CoreSocket.

#[local] Set Default Goal Selector "!".

(** ** Strings *)

Definition colon : byte := x3a.
Definition lbracket : byte := x5b.
Definition rbracket : byte := x5d.

(** [strings.Index] with what is before and after the separator. *)
Fixpoint cut_at (sep s : bytes) : option (bytes * bytes) :=
  if decide (take (length sep) s = sep) then Some ([], drop (length sep) s)
  else
    match s with
    | [] => None
    | b :: s => match cut_at sep s with Some (l, r) => Some (b :: l, r) | None => None end
    end.

(** [strings.Split] with a separator that is not empty: every cut shortens
    the string, so its length is enough fuel. *)
Fixpoint split_loop (fuel : nat) (sep s : bytes) : list bytes :=
  match fuel with
  | O => [s]
  | S fuel => match cut_at sep s with Some (l, r) => l :: split_loop fuel sep r | None => [s] end
  end.

Definition Split (s sep : bytes) : list bytes := split_loop (length s) sep s.

Fixpoint IndexByte (s : bytes) (c : byte) : option nat :=
  match s with
  | [] => None
  | b :: s => if decide (b = c) then Some 0%nat else S <$> IndexByte s c
  end.

Fixpoint LastIndexByte (s : bytes) (c : byte) : option nat :=
  match s with
  | [] => None
  | b :: s => match LastIndexByte s c with Some i => Some (S i) | None => if decide (b = c) then Some 0%nat else None end
  end.

(** [net.SplitHostPort]. *)
Definition SplitHostPort (hostport : bytes) : outcome (bytes * bytes) :=
  match LastIndexByte hostport colon with
  | None => Fail (Errorf "missing port in address")
  | Some i =>
      r ← (if decide (hostport !! 0%nat = Some lbracket) then
             match IndexByte hostport rbracket with
             | None => Fail (Errorf "missing ']' in address")
             | Some e =>
                 if decide (S e = length hostport) then Fail (Errorf "missing port in address")
                 else if decide (S e = i) then Ret (take (e - 1) (drop 1 hostport), 1%nat, S e)
                 else if decide (hostport !! S e = Some colon) then Fail (Errorf "too many colons in address")
                 else Fail (Errorf "missing port in address")
             end
           else if IndexByte (take i hostport) colon then Fail (Errorf "too many colons in address")
           else Ret (take i hostport, 0%nat, 0%nat));
      let '(host, j, k) := r in
      if IndexByte (drop j hostport) lbracket then Fail (Errorf "unexpected '[' in address")
      else if IndexByte (drop k hostport) rbracket then Fail (Errorf "unexpected ']' in address")
      else Ret (host, drop (S i) hostport)
  end.

(** [net.JoinHostPort]. *)
Definition JoinHostPort (host port : bytes) : bytes :=
  if IndexByte host colon then [lbracket] ++ host ++ [rbracket; colon] ++ port else host ++ [colon] ++ port.

(** ** Transports *)

(** [transport.New] of a network of the Go library, and the transport of the
    package inproc. *)
Inductive Transport : Type := netTransport (prot : string) | inprocTransport.

#[export] Instance Transport_eq_dec : EqDecision Transport.
Proof. solve_decision. Defined.

Definition netTransport_Addr (prot : string) (ep : bytes) : outcome bytes :=
  if decide (prot = "tcp" ∨ prot = "udp") then
    '(host, port) ← SplitHostPort ep;
    let port := if decide (port ∈ [gs "0"; gs "*"; []]) then gs "0" else port in
    let host := if decide (host ∈ [[]; gs "*"]) then gs "0.0.0.0" else host in
    Ret (JoinHostPort host port)
  else if decide (prot = "unix") then Ret ep
  else Fail (Errorf "zmq4: unknown protocol").

Definition inprocTransport_Addr (ep : bytes) : outcome bytes := Ret ep.

Definition Transport_Addr (t : Transport) (ep : bytes) : outcome bytes :=
  match t with netTransport prot => netTransport_Addr prot ep | inprocTransport => inprocTransport_Addr ep end.

Abbreviation transports := (gmap bytes Transport).

Definition transports_get (name : bytes) (ts : transports) : option Transport := ts !! name.
Definition transports_add (name : bytes) (trans : Transport) : M transports unit := fun ts =>
  match ts !! name with
  | Some _ => (Fail (Errorf "zmq4: duplicate transport"), ts)
  | None => (Ret tt, <[name := trans]> ts)
  end.
Definition transports_names (ts : transports) : list bytes := sorted_keys (dom ts).
Definition RegisterTransport (name : bytes) (trans : Transport) : M transports unit := transports_add name trans.

(** [init]; [must] panics. *)
Definition must (m : M transports unit) : M transports unit := fun ts =>
  match m ts with (Fail _, ts) => (Panic "duplicate transport", ts) | r => r end.
Definition drivers_init : M transports unit :=
  must (RegisterTransport (gs "ipc") (netTransport "unix"));;
  must (RegisterTransport (gs "tcp") (netTransport "tcp"));;
  must (RegisterTransport (gs "udp") (netTransport "udp"));;
  must (RegisterTransport (gs "inproc") inprocTransport).

(** The table after [init]. *)
Definition drivers : transports :=
  {[gs "ipc" := netTransport "unix"; gs "tcp" := netTransport "tcp"; gs "udp" := netTransport "udp"; gs "inproc" := inprocTransport]}.

Definition errInvalidAddress : error := Sentinel "zmq4: invalid address".

Definition splitAddr (ts : transports) (v : bytes) : outcome (bytes * bytes) :=
  match Split v (gs "://") with
  | [network; ep] =>
      match transports_get network ts with
      | None => Fail (Errorf "zmq4: unknown transport")
      | Some trans => addr ← Transport_Addr trans ep; Ret (network, addr)
      end
  | _ => Fail errInvalidAddress
  end.

(** [newUUID]: the 16 random bytes with the version and variant set. *)
Definition set_byte (i : nat) (f : Z → Z) (uuid : bytes) : bytes := alter (fun b => Z_byte (f (byte_Z b))) i uuid.

Definition newUUID (rand : bytes) : bytes :=
  let uuid := set_byte 8 (fun z => Z.lor (Z.ldiff z 0xc0) 0x80) rand in
  let uuid := set_byte 6 (fun z => Z.lor (Z.ldiff z 0xf0) 0x40) uuid in
  fmt_x (take 4 uuid) ++ gs "-" ++ fmt_x (take 2 (drop 4 uuid)) ++ gs "-" ++ fmt_x (take 2 (drop 6 uuid)) ++ gs "-" ++
  fmt_x (take 2 (drop 8 uuid)) ++ gs "-" ++ fmt_x (drop 10 uuid).

(** ** Facts *)

Lemma IndexByte_spec s c : ∀ i, IndexByte s c = Some i ↔ ∃ l r, s = l ++ c :: r ∧ length l = i ∧ c ∉ l.
Proof.
  induction s as [|b s IH]; intros i; cbn [IndexByte].
  - split; [done|]. intros (l & r & E & _). by destruct l.
  - destruct (decide (b = c)) as [->|Hb].
    + split.
      * intros [= <-]. exists [], s. split_and!; [done|done|by apply not_elem_of_nil].
      * intros (l & r & E & <- & Hl). destruct l as [|b l]; [done|]. injection E as <- _. exfalso. apply Hl. by left.
    + rewrite fmap_Some. split.
      * intros (j & Hj & ->). apply IH in Hj as (l & r & -> & <- & Hl). exists (b :: l), r. split_and!; [done|done|].
        by apply not_elem_of_cons.
      * intros (l & r & E & <- & Hl). destruct l as [|b' l]; [by injection E|]. injection E as <- E.
        exists (length l). split; [|done]. apply IH. exists l, r. apply not_elem_of_cons in Hl as [_ Hl]. done.
Qed.

Lemma IndexByte_none s c : IndexByte s c = None ↔ c ∉ s.
Proof.
  induction s as [|b s IH]; cbn [IndexByte]; [split; [intros _; by apply not_elem_of_nil|done]|].
  rewrite not_elem_of_cons. destruct (decide (b = c)) as [->|Hb]; [naive_solver|]. rewrite fmap_None, IH. naive_solver.
Qed.

Lemma LastIndexByte_none s c : LastIndexByte s c = None ↔ c ∉ s.
Proof.
  induction s as [|b s IH]; cbn [LastIndexByte]; [split; [intros _; by apply not_elem_of_nil|done]|].
  rewrite not_elem_of_cons, <- IH. destruct (LastIndexByte s c); [naive_solver|]. case_decide; naive_solver.
Qed.

Lemma LastIndexByte_spec s c : ∀ i, LastIndexByte s c = Some i ↔ ∃ l r, s = l ++ c :: r ∧ length l = i ∧ c ∉ r.
Proof.
  induction s as [|b s IH]; intros i; cbn [LastIndexByte].
  - split; [done|]. intros (l & r & E & _). by destruct l.
  - destruct (LastIndexByte s c) as [j|] eqn:Hj.
    + destruct (proj1 (IH j) eq_refl) as (l & r & -> & <- & Hr). split.
      * intros [= <-]. by exists (b :: l), r.
      * intros (l' & r' & E & <- & Hr'). f_equal. destruct l' as [|b' l'].
        { injection E as -> E. exfalso. apply Hr'. rewrite <- E. apply elem_of_app. right. by left. }
        injection E as -> E. cbn. f_equal. assert (Some (length l) = Some (length l')) as [= ->]; [|done].
        apply IH. by eauto.
    + apply LastIndexByte_none in Hj. case_decide as Hb; [subst|]; (split; [|intros (l & r & E & <- & Hr)]); try done.
      * intros [= <-]. by exists [], s.
      * destruct l as [|b l]; [done|]. injection E as <- ->. exfalso. apply Hj, elem_of_app. right. by left.
      * destruct l as [|b' l]; [by injection E|]. injection E as <- ->. exfalso. apply Hj, elem_of_app. right. by left.
Qed.

(** What [SplitHostPort] accepts: neither part has brackets, the port has no
    colon, and the host is in brackets when it has one. *)
Definition clean (h p : bytes) : Prop := lbracket ∉ h ∧ rbracket ∉ h ∧ colon ∉ p ∧ lbracket ∉ p ∧ rbracket ∉ p.
Definition host_port (s h p : bytes) : Prop :=
  clean h p ∧ ((colon ∉ h ∧ s = h ++ colon :: p) ∨ s = lbracket :: h ++ rbracket :: colon :: p).

Lemma LastIndexByte_at l r c : c ∉ r → LastIndexByte (l ++ c :: r) c = Some (length l).
Proof. intros H. apply LastIndexByte_spec. by exists l, r. Qed.
Lemma IndexByte_at l r c : c ∉ l → IndexByte (l ++ c :: r) c = Some (length l).
Proof. intros H. apply IndexByte_spec. by exists l, r. Qed.

Lemma app_cut {A} (l l' r r' : list A) : length l = length l' → l ++ r = l' ++ r' → l = l' ∧ r = r'.
Proof. apply app_inj_1. Qed.

Lemma SplitHostPort_accepts s h p : host_port s h p → SplitHostPort s = Ret (h, p).
Proof.
  intros [(H1 & H2 & H3 & H4 & H5) [[Hc ->]| ->]]; unfold SplitHostPort.
  - rewrite LastIndexByte_at by done. rewrite decide_False.
    2: { destruct h as [|b h]; [done|]. cbn. intros [= ->]. apply H1. by left. }
    rewrite take_app_length, (proj2 (IndexByte_none h colon)) by done. cbn [mbind outcome_bind]. rewrite !drop_0.
    rewrite !(proj2 (IndexByte_none _ _)) by (rewrite not_elem_of_app, not_elem_of_cons; done).
    rewrite drop_app_ge by lia. replace (S (length h) - length h)%nat with 1%nat by lia. done.
  - replace (lbracket :: h ++ rbracket :: colon :: p) with ((lbracket :: h ++ [rbracket]) ++ colon :: p) at 1
      by (cbn; by rewrite <- app_assoc).
    rewrite LastIndexByte_at by done. cbn [length]. rewrite length_app. cbn [length].
    rewrite decide_True by done.
    replace (lbracket :: h ++ rbracket :: colon :: p) with ((lbracket :: h) ++ rbracket :: colon :: p) at 1 by done.
    rewrite IndexByte_at by (rewrite not_elem_of_cons; done). cbn [length].
    rewrite decide_False by (rewrite length_app; cbn; lia). rewrite decide_True by lia. cbn [mbind outcome_bind drop]. rewrite !drop_0.
    rewrite (proj2 (IndexByte_none _ _)) by (rewrite not_elem_of_app, !not_elem_of_cons; done).
    rewrite drop_app_ge by lia. replace (S (length h) - length h)%nat with 1%nat by lia. cbn [drop]; rewrite ?drop_0.
    rewrite (proj2 (IndexByte_none _ _)) by (rewrite not_elem_of_cons; done). f_equal. f_equal.
    + replace (S (length h) - 1)%nat with (length h) by lia. apply take_app_length.
    + rewrite drop_app_ge by lia. by replace (S (length h + 1) - length h)%nat with 2%nat by lia.
Qed.

Lemma SplitHostPort_host_port s h p : SplitHostPort s = Ret (h, p) → host_port s h p.
Proof.
  unfold SplitHostPort. destruct (LastIndexByte s colon) as [i|] eqn:Hi; [|done].
  apply LastIndexByte_spec in Hi as (l & r & -> & <- & Hr). case_decide as Hb.
  - destruct (IndexByte (l ++ colon :: r) rbracket) as [e|] eqn:He; [|done]. repeat case_decide; try done.
    apply IndexByte_spec in He as (l' & r' & E & <- & Hl'). cbn [mbind outcome_bind].
    destruct (IndexByte (drop 1 _) lbracket) eqn:E1; [done|]. destruct (IndexByte (drop (S _) _) rbracket) eqn:E2; [done|].
    apply IndexByte_none in E1, E2. intros [= <- <-].
    destruct l' as [|b l']; [rewrite E in Hb; by injection Hb|]. cbn [length app] in *.
    assert (l = (b :: l') ++ [rbracket] ∧ r' = colon :: r) as [-> ->].
    { replace (b :: l' ++ rbracket :: r') with (((b :: l') ++ [rbracket]) ++ r') in E by (cbn; by rewrite <- app_assoc).
      apply app_cut in E as [-> <-]; [done|]. rewrite length_app. cbn in *. lia. }
    injection Hb as ->. cbn [app] in *. rewrite <- !app_assoc in *. cbn [app drop] in *; rewrite ?drop_0 in *.
    rewrite <- H0. replace (S (length l') - 1)%nat with (length l') by lia. rewrite take_app_length.
    rewrite drop_app_ge in E2 |- * by lia. replace (S (length l') - length l')%nat with 1%nat in E2 by lia.
    replace (S (S (length l')) - length l')%nat with 2%nat by lia. cbn [drop] in *; rewrite ?drop_0 in *.
    rewrite not_elem_of_app, !not_elem_of_cons in *. split; [|by right]. unfold clean. naive_solver.
  - destruct (IndexByte (take _ _) colon) eqn:E0; [done|]. cbn [mbind outcome_bind]. rewrite !drop_0.
    destruct (IndexByte _ lbracket) eqn:E1; [done|]. destruct (IndexByte _ rbracket) eqn:E2; [done|].
    apply IndexByte_none in E0, E1, E2. rewrite take_app_length in *. intros [= <- <-].
    rewrite drop_app_ge by lia. replace (S (length l) - length l)%nat with 1%nat by lia. cbn [drop]; rewrite ?drop_0.
    rewrite not_elem_of_app, not_elem_of_cons in *. split; [|by left]. unfold clean. naive_solver.
Qed.

Lemma SplitHostPort_iff s h p : SplitHostPort s = Ret (h, p) ↔ host_port s h p.
Proof. split; [apply SplitHostPort_host_port|apply SplitHostPort_accepts]. Qed.

Lemma JoinHostPort_host_port h p : clean h p → host_port (JoinHostPort h p) h p.
Proof.
  intros Hc. split; [done|]. unfold JoinHostPort. destruct (IndexByte h colon) eqn:E; [by right|].
  apply IndexByte_none in E. by left.
Qed.

Lemma cut_at_some sep s : ∀ l r, cut_at sep s = Some (l, r) → s = l ++ sep ++ r ∧ ∀ l' r', s = l' ++ sep ++ r' → length l <= length l'.
Proof.
  induction s as [|b s IH]; intros l r; cbn [cut_at].
  - case_decide as Hs; [|done]. intros [= <- <-]. split; [|cbn; lia]. by destruct sep.
  - case_decide as Hs.
    + intros [= <- <-]. split; [|cbn; lia]. cbn [app]. rewrite <- Hs at 1. by rewrite take_drop.
    + destruct (cut_at sep s) as [[l0 r0]|]; [|done]. intros [= <- <-]. destruct (IH l0 r0 eq_refl) as [-> Hmin].
      split; [done|]. intros [|b' l'] r' E.
      * exfalso. apply Hs. rewrite E. cbn [app]. apply take_app_length.
      * injection E as -> E. cbn. apply le_n_S, (Hmin l' r'), E.
Qed.

Lemma cut_at_none sep s : cut_at sep s = None → ∀ l r, s ≠ l ++ sep ++ r.
Proof.
  induction s as [|b s IH]; cbn [cut_at]; intros Hn l r E; case_decide as Hs; try done.
  - apply Hs. symmetry in E. apply app_eq_nil in E as [-> E]. apply app_eq_nil in E as [-> _]. done.
  - destruct (cut_at sep s) as [[? ?]|] eqn:E0; [done|]. destruct l as [|b' l].
    + apply Hs. rewrite E. cbn [app]. apply take_app_length.
    + injection E as -> E. by apply (IH eq_refl l r).
Qed.

Definition sep3 : bytes := gs "://".

Lemma split_loop_cons fuel sep s : split_loop fuel sep s ≠ [].
Proof. destruct fuel; [done|]. cbn. by destruct (cut_at sep s) as [[? ?]|]. Qed.

(** Two parts: the separator, which cannot overlap itself, occurs once. *)
Lemma Split_two v l r : Split v sep3 = [l; r] ↔ v = l ++ sep3 ++ r ∧ ∀ l' r', v = l' ++ sep3 ++ r' → l' = l.
Proof.
  assert (Hov : ∀ x y l' r' : bytes, x ++ sep3 ++ y = l' ++ sep3 ++ r' → length x < length l' → ∃ z, y = z ++ sep3 ++ r').
  { intros x y l' r' E Hlt. apply (f_equal (drop (length x))) in E. rewrite drop_app_length, drop_app_le in E by lia.
    destruct (drop (length x) l') as [|b1 [|b2 [|b3 z]]] eqn:Hd.
    - apply (f_equal length) in Hd. rewrite length_drop in Hd. cbn in Hd. lia.
    - discriminate E.
    - discriminate E.
    - exists z. injection E as _ _ _ E. exact E. }
  unfold Split. split.
  - destruct v as [|b v]; [done|]. cbn [length split_loop]. destruct (cut_at sep3 (b :: v)) as [[l0 r0]|] eqn:E; [|done].
    apply cut_at_some in E as [E Hmin]. intros [= -> Hr]. destruct (length v) as [|n] eqn:Hv; cbn [split_loop] in Hr.
    + apply (f_equal length) in E. rewrite !length_app in E. cbn in E. lia.
    + destruct (cut_at sep3 r0) as [[? ?]|] eqn:E0; [injection Hr as _ Hr; by apply split_loop_cons in Hr|].
      injection Hr as ->. split; [done|]. intros l' r' E'. rewrite E in E'.
      destruct (decide (length l < length l')) as [Hlt|Hge].
      * destruct (Hov _ _ _ _ E' Hlt) as [z Hz]. by apply (cut_at_none _ _ E0) in Hz.
      * assert (length l = length l') as Hl. { specialize (Hmin l' r'). rewrite E in Hmin. specialize (Hmin E'). lia. }
        by apply app_cut in E' as [-> _].
  - intros [-> Hu]. destruct (length (l ++ sep3 ++ r)) as [|[|n]] eqn:Hlen; [rewrite !length_app in Hlen; cbn in Hlen; lia..|].
    cbn [split_loop]. destruct (cut_at sep3 (l ++ sep3 ++ r)) as [[l0 r0]|] eqn:E; [|exfalso; by apply (cut_at_none _ _ E l r)].
    apply cut_at_some in E as [E _]. assert (l0 = l) as -> by by eapply Hu. apply app_inv_head, app_inv_head in E as <-.
    destruct (cut_at sep3 r) as [[l1 r1]|] eqn:E1; [|done]. apply cut_at_some in E1 as [-> _].
    exfalso. specialize (Hu (l ++ sep3 ++ l1) r1). rewrite <- !app_assoc in Hu. specialize (Hu eq_refl).
    apply (f_equal length) in Hu. rewrite !length_app in Hu. cbn in Hu. lia.
Qed.

(** What the address of a TCP endpoint becomes. *)
Definition tcp_host (h : bytes) : bytes := if decide (h ∈ [[]; gs "*"]) then gs "0.0.0.0" else h.
Definition tcp_port (p : bytes) : bytes := if decide (p ∈ [gs "0"; gs "*"; []]) then gs "0" else p.

Lemma tcp_clean h p : clean h p → clean (tcp_host h) (tcp_port p).
Proof.
  intros (H1 & H2 & H3 & H4 & H5). unfold clean, tcp_host, tcp_port.
  split_and!; case_decide; try done; compute_done.
Qed.

Lemma tcp_host_fix h : tcp_host (tcp_host h) = tcp_host h ∧ tcp_host h ∉ [[]; gs "*"].
Proof.
  unfold tcp_host. destruct (decide (h ∈ [[]; gs "*"])) as [|H].
  - split; [by vm_compute|]. compute_done.
  - by rewrite decide_False.
Qed.

Lemma tcp_port_fix p : tcp_port (tcp_port p) = tcp_port p ∧ tcp_port p ∉ [[]; gs "*"].
Proof.
  unfold tcp_port. destruct (decide (p ∈ [gs "0"; gs "*"; []])) as [|H].
  - split; [by vm_compute|]. compute_done.
  - rewrite decide_False by done. split; [done|]. rewrite !elem_of_cons in *. intros [|[|]]; naive_solver.
Qed.

Lemma tcp_Addr prot ep a : prot = "tcp" ∨ prot = "udp" →
  netTransport_Addr prot ep = Ret a ↔ ∃ h p, host_port ep h p ∧ a = JoinHostPort (tcp_host h) (tcp_port p).
Proof.
  intros Hp. unfold netTransport_Addr. rewrite decide_True by done. split.
  - destruct (SplitHostPort ep) as [[h p]| |] eqn:E; [|done..]. intros [= <-]. exists h, p. split; [by apply SplitHostPort_iff|done].
  - intros (h & p & E & ->). apply SplitHostPort_iff in E as ->. done.
Qed.

(** How endpoints are resolved. [splitAddr] accepts exactly the endpoints
    with one separator, a registered transport before it and an address the
    transport accepts after it. A TCP address is accepted exactly when it is a
    host and a port without stray brackets and colons; what comes out names a
    host and a port, never a wildcard, and is a fixed point: resolving it again
    changes nothing. *)
Theorem endpoint_resolved (ts : transports) (v network addr : bytes) :
  (splitAddr ts v = Ret (network, addr) ↔
   ∃ ep trans, v = network ++ sep3 ++ ep ∧ (∀ l r, v = l ++ sep3 ++ r → l = network) ∧
     ts !! network = Some trans ∧ Transport_Addr trans ep = Ret addr) ∧
  (∀ prot ep, prot = "tcp" ∨ prot = "udp" → netTransport_Addr prot ep = Ret addr →
     netTransport_Addr prot addr = Ret addr ∧
     ∃ h p, host_port addr h p ∧ h ∉ [[]; gs "*"] ∧ p ∉ [[]; gs "*"]) ∧
  (∀ prot h p, prot = "tcp" ∨ prot = "udp" → clean h p →
     netTransport_Addr prot (JoinHostPort h p) = Ret (JoinHostPort (tcp_host h) (tcp_port p))).
Proof.
  split_and!.
  - unfold splitAddr. split.
    + destruct (Split v (gs "://")) as [|n [|ep [|? ?]]] eqn:E; try done. apply Split_two in E as [-> Hu].
      unfold transports_get. destruct (ts !! n) as [trans|] eqn:Ht; [|done].
      destruct (Transport_Addr trans ep) as [a| |] eqn:Ha; [|done..]. intros [= -> ->]. by exists ep, trans.
    + intros (ep & trans & E & Hu & Ht & Ha). fold sep3. rewrite (proj2 (Split_two v network ep)) by done.
      unfold transports_get. by rewrite Ht, Ha.
  - intros prot ep Hp E. apply tcp_Addr in E as (h & p & [Hc _] & ->); [|done]. apply tcp_clean in Hc.
    destruct (tcp_host_fix h) as [Hh1 Hh2], (tcp_port_fix p) as [Hp1 Hp2].
    pose proof (JoinHostPort_host_port _ _ Hc) as Hj. split; [|by eauto].
    apply tcp_Addr; [done|]. exists (tcp_host h), (tcp_port p). by rewrite Hh1, Hp1.
  - intros prot h p Hp Hc. apply tcp_Addr; [done|]. exists h, p. split; [by apply JoinHostPort_host_port|done].
Qed.

(** The table after some registrations, whatever each of them answers. *)
Definition registered (ts : transports) (regs : list (bytes * Transport)) : transports :=
  foldl (fun ts r => (RegisterTransport r.1 r.2 ts).2) ts regs.

(** The table of transports keeps the first registration of every name:
    after any registrations it is what it was and, for new names, the first
    transport registered; a second one is refused. The initial registrations
    succeed and make exactly ipc, tcp, udp and inproc. *)
Theorem transports_registered (ts : transports) (regs : list (bytes * Transport)) (name : bytes) (trans : Transport) :
  registered ts regs = ts ∪ list_to_map regs ∧
  ((RegisterTransport name trans (registered ts regs)).1 = Ret tt ↔ ts !! name = None ∧ name ∉ regs.*1) ∧
  drivers_init ∅ = (Ret tt, drivers) ∧
  transports_names drivers = [gs "inproc"; gs "ipc"; gs "tcp"; gs "udp"].
Proof.
  assert (Hreg : registered ts regs = ts ∪ list_to_map regs).
  { unfold registered. revert ts. induction regs as [|[n t] regs IH]; intros ts; [cbn; by rewrite map_union_empty|]. cbn [foldl].
    rewrite IH, list_to_map_cons. unfold RegisterTransport, transports_add. cbn [fst snd].
    destruct (ts !! n) as [t'|] eqn:Hn; cbn [snd]; apply map_eq; intros i; rewrite !lookup_union;
      (destruct (decide (i = n)) as [->|Hi]; [rewrite ?Hn, ?lookup_insert_eq|by rewrite ?lookup_insert_ne]).
    - by destruct (list_to_map regs !! n).
    - by destruct (list_to_map regs !! n). }
  split_and!; [done| |apply injective_projections; compute_done|vm_compute; reflexivity].
  rewrite Hreg. unfold RegisterTransport, transports_add. rewrite lookup_union.
  destruct (ts !! name) as [t|], (list_to_map regs !! name : option Transport) as [t'|] eqn:E; cbn; try naive_solver.
  - split; [done|]. intros [_ Hn]. exfalso. apply Hn. apply elem_of_list_to_map_2 in E. by apply (list_elem_of_fmap_2 fst _ (name, t')).
  - split; [|done]. intros _. split; [done|]. by apply not_elem_of_list_to_map_2.
Qed.

Lemma version_digit b : hex_digit (byte_Z (Z_byte (Z.lor (Z.ldiff (byte_Z b) 0xf0) 0x40)) / 16)%Z = x34.
Proof. destruct b; vm_compute; reflexivity. Qed.

Lemma variant_digit b : hex_digit (byte_Z (Z_byte (Z.lor (Z.ldiff (byte_Z b) 0xc0) 0x80)) / 16)%Z ∈ gs "89ab".
Proof. destruct b; compute_done. Qed.

(** A generated identity is the text of a random UUID: 36 characters in
    five groups, version 4, the variant of RFC 4122. So it is never empty, and a
    peer that sends no identity always gets one the ROUTER can route by. *)
Theorem uuid_text (rand : bytes) :
  length rand = 16%nat →
  length (newUUID rand) = 36%nat ∧ newUUID rand !! 14%nat = Some x34 ∧
  (∃ d, newUUID rand !! 19%nat = Some d ∧ d ∈ gs "89ab") ∧
  (∀ i, i ∈ [8; 13; 18; 23]%nat → newUUID rand !! i = Some x2d).
Proof.
  intros H. do 16 (destruct rand as [|? rand]; [done|]). destruct rand; [|done]. clear H.
  match goal with |- context [newUUID ?l] => remember (newUUID l) as u eqn:Hu end.
  unfold newUUID, set_byte in Hu. Opaque hex_digit byte_Z Z_byte. cbn in Hu. subst u. cbn.
  split; [done|]. split; [by rewrite version_digit|]. split; [eexists; split; [done|apply variant_digit]|].
  intros i Hi. rewrite !elem_of_cons in Hi. destruct Hi as [->|[->|[->|[->|Hi]]]]; [done..|by apply not_elem_of_nil in Hi].
Qed.
Transparent hex_digit byte_Z Z_byte.

(** ** Witnesses *)

Lemma uuid_text_witness :
  length (newUUID (replicate 16 xff)) = 36%nat ∧ newUUID (replicate 16 xff) = gs "ffffffff-ffff-4fff-bfff-ffffffffffff".
Proof. split; [apply (uuid_text (replicate 16 xff) eq_refl)|vm_compute; reflexivity]. Defined.
