(* ===== verification/SocketDial.v ===== *)
(** * SocketDial: options, listening, dialing and automatic reconnection of
    the generic socket (src/core_options.go, src/core_socket.go)

    What the transports give is the world's: the result of every attempt to
    dial, and the connections a listener accepts. The handshake of the mechanism
    is an argument, as it is for [Open]. *)

From Stdlib Require Import Strings.Byte ZArith Lia.
From stdpp Require Import base strings numbers gmap list relations.
From S2P Require Import Prelude Zmtp Conn ConnFacts Handshake Sockets SocketFacts CoreSocket CoreFacts Endpoint.

#[local] Open Scope Z_scope.
#[local] Set Default Goal Selector "!".

(** ** Configuration *)

Definition Millisecond : Z := 1000000.
Definition Minute : Z := 60 * 1000 * Millisecond.
Definition defaultRetry : Z := 250 * Millisecond.
Definition defaultTimeout : Z := 5 * Minute.
Definition defaultMaxRetries : Z := 10.

(** The fields of a socket that options, [Listen] and [Dial] use. [sd_sec]:
    the state of the mechanism every connection starts with, [None] for a nil
    mechanism. *)
Record sockConf (SS : Type) : Type := mkConf {
  sd_ep : bytes;
  sd_id : bytes;
  sd_retry : Z;
  sd_maxRetries : Z;
  sd_sec : option SS;
  sd_autoReconnect : bool;
  sd_timeout : Z;
  sd_dialTimeout : Z;
  sd_listener : option (bytes * bytes);
  sd_reaperStarted : bool }.

Arguments mkConf {SS}.
Arguments sd_ep {SS}.
Arguments sd_id {SS}.
Arguments sd_retry {SS}.
Arguments sd_maxRetries {SS}.
Arguments sd_sec {SS}.
Arguments sd_autoReconnect {SS}.
Arguments sd_timeout {SS}.
Arguments sd_dialTimeout {SS}.
Arguments sd_listener {SS}.
Arguments sd_reaperStarted {SS}.

Section dial.
Context {SS X : Type} (sec : secops SS) {P : Pool SS X}.
Context (RemoteAddr : cptr → bytes) (Handshake : bool → M (Conn SS) unit) (drv : transports).

Abbreviation conf := (sockConf SS).
Abbreviation dstate := (conf * (gmap cptr (Conn SS) * (socket * X)))%type.

Definition set_sd_ep (v : bytes) (c : conf) : conf :=
  mkConf v (sd_id c) (sd_retry c) (sd_maxRetries c) (sd_sec c) (sd_autoReconnect c) (sd_timeout c) (sd_dialTimeout c) (sd_listener c) (sd_reaperStarted c).
Definition set_sd_id (v : bytes) (c : conf) : conf :=
  mkConf (sd_ep c) v (sd_retry c) (sd_maxRetries c) (sd_sec c) (sd_autoReconnect c) (sd_timeout c) (sd_dialTimeout c) (sd_listener c) (sd_reaperStarted c).
Definition set_sd_started (l : option (bytes * bytes)) (c : conf) : conf :=
  mkConf (sd_ep c) (sd_id c) (sd_retry c) (sd_maxRetries c) (sd_sec c) (sd_autoReconnect c) (sd_timeout c) (sd_dialTimeout c) l true.

(** An option changes the configuration, or the socket's own options; the
    latter drop the error. *)
Definition Option_fn : Type := conf * socket → conf * socket.

Definition WithID (id : bytes) : Option_fn := fun '(c, k) => (set_sd_id id c, k).
Definition WithSecurity (s : option SS) : Option_fn := fun '(c, k) =>
  (mkConf (sd_ep c) (sd_id c) (sd_retry c) (sd_maxRetries c) s (sd_autoReconnect c) (sd_timeout c) (sd_dialTimeout c) (sd_listener c) (sd_reaperStarted c), k).
Definition WithDialerRetry (retry : Z) : Option_fn := fun '(c, k) =>
  (mkConf (sd_ep c) (sd_id c) retry (sd_maxRetries c) (sd_sec c) (sd_autoReconnect c) (sd_timeout c) (sd_dialTimeout c) (sd_listener c) (sd_reaperStarted c), k).
Definition WithDialerTimeout (timeout : Z) : Option_fn := fun '(c, k) =>
  (mkConf (sd_ep c) (sd_id c) (sd_retry c) (sd_maxRetries c) (sd_sec c) (sd_autoReconnect c) (sd_timeout c) timeout (sd_listener c) (sd_reaperStarted c), k).
Definition WithTimeout (timeout : Z) : Option_fn := fun '(c, k) =>
  (mkConf (sd_ep c) (sd_id c) (sd_retry c) (sd_maxRetries c) (sd_sec c) (sd_autoReconnect c) timeout (sd_dialTimeout c) (sd_listener c) (sd_reaperStarted c), k).
Definition WithDialerMaxRetries (maxRetries : Z) : Option_fn := fun '(c, k) =>
  (mkConf (sd_ep c) (sd_id c) (sd_retry c) maxRetries (sd_sec c) (sd_autoReconnect c) (sd_timeout c) (sd_dialTimeout c) (sd_listener c) (sd_reaperStarted c), k).
Definition WithAutomaticReconnect (automaticReconnect : bool) : Option_fn := fun '(c, k) =>
  (mkConf (sd_ep c) (sd_id c) (sd_retry c) (sd_maxRetries c) (sd_sec c) automaticReconnect (sd_timeout c) (sd_dialTimeout c) (sd_listener c) (sd_reaperStarted c), k).

Definition heartbeat_option (name : string) (d : Z) : Option_fn := fun '(c, k) =>
  (c, (socket_SetOption (SS := unit) (X := unit) name (ODuration d) (∅, (k, tt))).2.2.1).
Definition WithHeartbeatIVL (heartbeatIVL : Z) : Option_fn := heartbeat_option OptionHeartbeatIVL heartbeatIVL.
Definition WithHeartbeatTTL (heartbeatTTL : Z) : Option_fn := heartbeat_option OptionHeartbeatTTL heartbeatTTL.
Definition WithHeartbeatTimeout (timeout : Z) : Option_fn := heartbeat_option OptionHeartbeatTimeout timeout.

(** [newDefaultSocket] and [newSocket]; [st0]: the state of the NULL
    mechanism. *)
Definition newDefaultSocket (st0 : SS) : conf :=
  mkConf [] [] defaultRetry defaultMaxRetries (Some st0) false defaultTimeout defaultTimeout None false.

Definition newSocket_with (st0 : SS) (typ : SocketType) (topics : option (gset bytes)) (uuid : bytes) (opts : list Option_fn) : conf * socket :=
  let '(c, k) := foldl (fun s opt => opt s) (newDefaultSocket st0, newSocket typ topics) opts in
  (if decide (sd_id c = []) then set_sd_id uuid c else c, k).

(** ** Dialing *)

Definition errDial : string := "zmq4: could not dial".

(** The attempts of [Dial], numbered from [retries]: [attempt n] is what
    [trans.Dial] returns the [n]-th time, a nil connection being [None];
    [cancelled n]: the context is cancelled after it. [None]: the fuel ran out
    while it tries. *)
Fixpoint dial_loop (fuel : nat) (attempt : nat → outcome (option netconn)) (cancelled : nat → bool) (maxRetries : Z) (retries : nat)
    : option (outcome (option netconn)) :=
  match fuel with
  | O => None
  | S fuel =>
      match attempt retries with
      | Fail e =>
          if ((maxRetries =? -1) || (Z.of_nat retries <? maxRetries)) && negb (cancelled retries)
          then dial_loop fuel attempt cancelled maxRetries (S retries)
          else Some (Fail (Wrap errDial e))
      | r => Some r
      end
  end.

(** A connection [Open] has made, given to the socket. *)
Definition add_opened (now : Z) (uuid : bytes) (zconn : Conn SS) (s : dstate) : outcome unit * dstate :=
  let '(c, (st, kx)) := s in
  let p := fresh (dom st) in
  let '(r, s') := socket_addConn sec RemoteAddr now uuid p (<[p := zconn]> st, kx) in (r, (c, s')).

(** The number of the callback [scheduleRmConn] in a connection. *)
Definition rm_callback : option nat := Some 0%nat.

(** [Dial]; [net network addr]: the attempts at an address. *)
Definition socket_Dial (fuel : nat) (net : bytes → bytes → nat → outcome (option netconn)) (cancelled : nat → bool)
    (now : Z) (uuid endpoint : bytes) (s : dstate) : option (outcome unit * dstate) :=
  let s := (set_sd_ep endpoint s.1, s.2) in
  let c := s.1 in
  match splitAddr drv endpoint with
  | Fail e => Some (Fail e, s)
  | Panic e => Some (Panic e, s)
  | Ret (network, addr) =>
      match transports_get network drv with
      | None => Some (Fail (Errorf "zmq4: unknown transport (UnknownTransportError)"), s)
      | Some _ =>
          match dial_loop fuel (net network addr) cancelled (sd_maxRetries c) 0 with
          | None => None
          | Some (Fail e) => Some (Fail e, s)
          | Some (Panic e) => Some (Panic e, s)
          | Some (Ret None) => Some (Fail (Errorf "zmq4: got a nil dial-conn"), s)
          | Some (Ret (Some conn)) =>
              match Open sec Handshake (Some conn) (sd_sec c) (sk_typ s.2.2.1) (sd_id c) false rm_callback with
              | Fail e => Some (Fail (Wrap "zmq4: could not open a ZMTP connection" e), s)
              | Panic e => Some (Panic e, s)
              | Ret zconn => Some (add_opened now uuid zconn (set_sd_started (sd_listener c) c, s.2))
              end
          end
      end
  end.

(** ** Listening *)

(** [listened]: the result of the transport's [Listen]. *)
Definition socket_Listen (listened : outcome unit) (endpoint : bytes) (s : dstate) : outcome unit * dstate :=
  let s := (set_sd_ep endpoint s.1, s.2) in
  match splitAddr drv endpoint with
  | Fail e => (Fail e, s)
  | Panic e => (Panic e, s)
  | Ret (network, addr) =>
      match transports_get network drv with
      | None => (Fail (Errorf "zmq4: unknown transport (UnknownTransportError)"), s)
      | Some _ =>
          match listened with
          | Fail e => (Fail (Wrap "zmq4: could not listen" e), s)
          | Panic e => (Panic e, s)
          | Ret _ => (Ret tt, (set_sd_started (Some (network, addr)) s.1, s.2))
          end
      end
  end.

(** One iteration of [accept]: an error of [Accept] is dropped, one of [Open]
    is logged. *)
Definition accept_turn (accepted : outcome netconn) (now : Z) (uuid : bytes) (s : dstate) : outcome unit * dstate :=
  match accepted with
  | Fail _ => (Ret tt, s)
  | Panic e => (Panic e, s)
  | Ret conn =>
      match Open sec Handshake (Some conn) (sd_sec s.1) (sk_typ s.2.2.1) (sd_id s.1) true rm_callback with
      | Fail _ => (Ret tt, s)
      | Panic e => (Panic e, s)
      | Ret zconn => add_opened now uuid zconn s
      end
  end.

(** [Addr]. *)
Definition socket_Addr (c : conf) : option (bytes * bytes) := sd_listener c.

(** ** Reconnecting *)

(** [scheduleRmConn], which a connection calls when it breaks; the error of
    [Dial] is dropped. *)
Definition on_close (fuel : nat) (net : bytes → bytes → nat → outcome (option netconn)) (cancelled : nat → bool)
    (now : Z) (uuid : bytes) (p : cptr) (s : dstate) : option (outcome unit * dstate) :=
  let s := (s.1, (scheduleRmConn p s.2).2) in
  if sd_autoReconnect s.1 then
    match socket_Dial fuel net cancelled now uuid (sd_ep s.1) s with
    | None => None
    | Some (Panic e, s) => Some (Panic e, s)
    | Some (_, s) => Some (Ret tt, s)
    end
  else Some (Ret tt, s).
End dial.

(** ** The attempts *)

Section attempts.
Context (attempt : nat → outcome (option netconn)) (cancelled : nat → bool) (maxRetries : Z).

(** The attempt after which [Dial] stops trying. *)
Definition dial_ends (n : nat) : Prop :=
  (∀ e, attempt n ≠ Fail e) ∨ (maxRetries ≠ -1 ∧ maxRetries <= Z.of_nat n) ∨ cancelled n = true.
Definition dial_last (n : nat) : Prop := dial_ends n ∧ ∀ i, (i < n)%nat → ¬ dial_ends i.
Definition dial_result (n : nat) : outcome (option netconn) :=
  match attempt n with Fail e => Fail (Wrap errDial e) | r => r end.

#[local] Instance dial_ends_dec n : Decision (dial_ends n).
Proof.
  unfold dial_ends. refine (cast_if (decide (match attempt n with Fail _ => false | _ => true end = true ∨ (maxRetries ≠ -1 ∧ maxRetries <= Z.of_nat n) ∨ cancelled n = true)));
    destruct (attempt n); naive_solver.
Defined.

Lemma dial_loop_step fuel n : ¬ dial_ends n →
  dial_loop (S fuel) attempt cancelled maxRetries n = dial_loop fuel attempt cancelled maxRetries (S n).
Proof.
  intros H. cbn [dial_loop]. unfold dial_ends in H. destruct (attempt n) as [|e|] eqn:E; [exfalso; naive_solver| |exfalso; naive_solver].
  destruct (cancelled n); [exfalso; naive_solver|]. rewrite andb_true_r.
  destruct (Z.eqb_spec maxRetries (-1)), (Z.ltb_spec (Z.of_nat n) maxRetries); cbn [orb]; try done. exfalso. apply H. right. left. lia.
Qed.

Lemma dial_loop_ends fuel n : dial_ends n → dial_loop (S fuel) attempt cancelled maxRetries n = Some (dial_result n).
Proof.
  intros H. cbn [dial_loop]. unfold dial_result. destruct (attempt n) as [|e|] eqn:E; [done| |done].
  destruct H as [H|[[H1 H2]|H]]; [by destruct (H e)| |].
  - destruct (Z.eqb_spec maxRetries (-1)); [done|]. by destruct (Z.ltb_spec (Z.of_nat n) maxRetries); [lia|].
  - rewrite H. by rewrite andb_false_r.
Qed.

Lemma dial_loop_from n : ∀ d m fuel, (m + d = n)%nat → dial_ends n → (∀ i, (m <= i < n)%nat → ¬ dial_ends i) →
  dial_loop fuel attempt cancelled maxRetries m = if decide (d < fuel)%nat then Some (dial_result n) else None.
Proof.
  induction d as [|d IH]; intros m fuel E Hn Hlt; destruct fuel as [|fuel]; try (by case_decide; [lia|]).
  - rewrite decide_True by lia. assert (m = n) as -> by lia. by apply dial_loop_ends.
  - rewrite dial_loop_step by (apply Hlt; lia). rewrite (IH (S m)) by (done || lia || (intros; apply Hlt; lia)).
    repeat case_decide; done || lia.
Qed.

Lemma dial_loop_never : (∀ n, ¬ dial_ends n) → ∀ fuel n, dial_loop fuel attempt cancelled maxRetries n = None.
Proof. intros H fuel. induction fuel as [|fuel IH]; intros n; [done|]. by rewrite dial_loop_step. Qed.

Lemma dial_last_exists n : dial_ends n → ∃ m, (m <= n)%nat ∧ dial_last m.
Proof.
  intros H. induction (lt_wf n) as [n _ IH].
  destruct (decide (Exists dial_ends (seq 0 n))) as [(i & Hi%elem_of_seq & He)%Exists_exists|Hno].
  - destruct (IH i) as (m & ? & ?); [lia|done|]. exists m. split; [lia|done].
  - exists n. split; [lia|]. split; [done|]. intros i Hi He. apply Hno, Exists_exists. exists i. split; [apply elem_of_seq; lia|done].
Qed.
End attempts.

(** C37. How often [Dial] tries: it stops after the first attempt that does
    not fail, or at which the retries are used up, or the context is cancelled,
    and returns that attempt's result; it makes exactly that many attempts. With
    a bound on the retries it always returns, after at most that many and one
    attempts (one, when the bound is negative but not -1); without it, it tries
    for ever while attempts fail and the context lives. *)
Theorem dial_attempts (attempt : nat → outcome (option netconn)) (cancelled : nat → bool) (maxRetries : Z) :
  (∀ n fuel, dial_last attempt cancelled maxRetries n →
     dial_loop fuel attempt cancelled maxRetries 0 = if decide (n < fuel)%nat then Some (dial_result attempt n) else None) ∧
  (maxRetries ≠ -1 → ∃ n, (n <= Z.to_nat maxRetries)%nat ∧ dial_last attempt cancelled maxRetries n ∧
     dial_loop (S (Z.to_nat maxRetries)) attempt cancelled maxRetries 0 = Some (dial_result attempt n)) ∧
  ((∀ n, ∃ e, attempt n = Fail e) → (∀ n, cancelled n = false) → ∀ fuel, dial_loop fuel attempt cancelled (-1) 0 = None).
Proof.
  assert (H1 : ∀ n fuel, dial_last attempt cancelled maxRetries n →
     dial_loop fuel attempt cancelled maxRetries 0 = if decide (n < fuel)%nat then Some (dial_result attempt n) else None).
  { intros n fuel [He Hl]. apply (dial_loop_from _ _ _ n n 0); [done|done|]. intros i Hi. apply Hl. lia. }
  split_and!; [exact H1| |].
  - intros Hm. destruct (dial_last_exists attempt cancelled maxRetries (Z.to_nat maxRetries)) as (n & Hn & Hl).
    { right. left. split; [done|]. lia. }
    exists n. split_and!; [done|done|]. rewrite (H1 n _ Hl), decide_True by lia. done.
  - intros Ha Hc fuel. apply dial_loop_never. intros n [H|[[H _]|H]]; [|done|by rewrite Hc in H].
    destruct (Ha n) as [e He]. by apply (H e).
Qed.

(** ** Connections gained *)

Section facts.
Context {SS X : Type} (sec : secops SS) {P : Pool SS X} {L : PoolLaws P}.
Context (RemoteAddr : cptr → bytes) (Handshake : bool → M (Conn SS) unit) (drv : transports).
Abbreviation dstate := (sockConf SS * (gmap cptr (Conn SS) * (socket * X)))%type.
Implicit Types (c : sockConf SS) (s : dstate).

(** The invariant of the generic socket. *)
Definition dsock_ok (s : dstate) : Prop := sock_ok s.2.1 s.2.2.1 s.2.2.2.

(** One connection more, with a number of its own. *)
Definition gained (s s' : dstate) : Prop :=
  ∃ p, p ∉ dom s.2.1 ∧ dom s'.2.1 = {[p]} ∪ dom s.2.1 ∧ sk_conns s'.2.2.1 = sk_conns s.2.2.1 ++ [p].

Lemma add_opened_ok now uuid zconn s r s' :
  add_opened sec RemoteAddr now uuid zconn s = (r, s') → dsock_ok s → dsock_ok s' ∧ s'.1 = s.1 ∧ gained s s'.
Proof.
  destruct s as [c [st [k x]]]. unfold add_opened, dsock_ok. cbn. set (p := fresh (dom st)). intros E Hok.
  assert (Hp : p ∉ dom st) by apply is_fresh.
  assert (Hok1 : sock_ok (<[p := zconn]> st) k x) by (destruct Hok as [? ? ? ? Hd]; split; try done; rewrite dom_insert_L; set_solver).
  assert (Hk : p ∉ sk_conns k).
  { intros Hin. apply Hp. destruct Hok as [_ _ _ _ Hd]. apply Hd. by apply elem_of_list_to_set. }
  pose proof (sock_ok_add sec RemoteAddr now uuid p (<[p := zconn]> st) k x Hk) as Ha.
  destruct (socket_addConn _ _ _ _ _ _) as [r0 [st1 [k1 x1]]]. injection E as <- <-.
  destruct Ha as (H1 & H2 & H3); [rewrite dom_insert_L; set_solver|done|]. split; [exact H1|]. split; [done|].
  exists p. cbn. split_and!; [done| |done]. by rewrite H3, dom_insert_L.
Qed.

(** What dialing and accepting may do to a socket. *)
Definition dial_outcome (r : outcome unit) (s s' : dstate) : Prop :=
  dsock_ok s' ∧ ((r ≠ Ret tt ∧ s'.2 = s.2) ∨ gained s s').

Lemma socket_Dial_outcome fuel net cancelled now uuid endpoint s r s' :
  socket_Dial sec RemoteAddr Handshake drv fuel net cancelled now uuid endpoint s = Some (r, s') → dsock_ok s →
  dial_outcome r s s' ∧ sd_ep s'.1 = endpoint ∧ sd_autoReconnect s'.1 = sd_autoReconnect s.1.
Proof.
  intros E Hok. unfold socket_Dial in E.
  destruct (splitAddr drv endpoint) as [[network addr]| |]; [|by injection E as <- <-; split_and!; [split; [|left]|..]..].
  destruct (transports_get network drv); [|by injection E as <- <-; split_and!; [split; [|left]|..]].
  destruct (dial_loop _ _ _ _ _) as [[[conn|]| |]|]; [|by injection E as <- <-; split_and!; [split; [|left]|..]..|done].
  destruct (Open _ _ _ _ _ _ _ _) as [zconn| |]; [|by injection E as <- <-; split_and!; [split; [|left]|..]..].
  apply (inj Some) in E. apply add_opened_ok in E as (H1 & H2 & H3); [|done]. rewrite H2.
  split; [|done]. split; [done|right]. destruct H3 as (p & ? & ? & ?). by exists p.
Qed.

(** Everything that happens to a socket, the configuration included. *)
Inductive dial_step : dstate → dstate → Prop :=
| ds_sock c inner inner' : sock_step sec RemoteAddr inner inner' → dial_step (c, inner) (c, inner')
| ds_dial fuel net cancelled now uuid endpoint s r s' :
    socket_Dial sec RemoteAddr Handshake drv fuel net cancelled now uuid endpoint s = Some (r, s') → dial_step s s'
| ds_listen listened endpoint s r s' : socket_Listen drv listened endpoint s = (r, s') → dial_step s s'
| ds_accept accepted now uuid s r s' :
    accept_turn sec RemoteAddr Handshake accepted now uuid s = (r, s') → dial_step s s'
| ds_close fuel net cancelled now uuid p s r s' :
    on_close sec RemoteAddr Handshake drv fuel net cancelled now uuid p s = Some (r, s') → dial_step s s'.

Lemma socket_Listen_same listened endpoint s r s' : socket_Listen drv listened endpoint s = (r, s') → s'.2 = s.2 ∧ sd_ep s'.1 = endpoint ∧
  sd_autoReconnect s'.1 = sd_autoReconnect s.1.
Proof.
  unfold socket_Listen. destruct (splitAddr _ _) as [[n a]| |]; [|by intros [= <- <-]..].
  destruct (transports_get _ _); [|by intros [= <- <-]]. destruct listened; by intros [= <- <-].
Qed.

Lemma scheduleRmConn_ok c p inner : dsock_ok (c, inner) → dsock_ok (c, (scheduleRmConn p inner).2).
Proof. destruct inner as [st [k x]]. unfold dsock_ok. cbn. by intros []. Qed.

Lemma dial_step_ok s s' : dial_step s s' → dsock_ok s → dsock_ok s'.
Proof.
  destruct 1 as [c [st [k x]] [st' [k' x']] H|fuel net cancelled now uuid endpoint s r s' E|listened endpoint s r s' E|accepted now uuid s r s' E
    |fuel net cancelled now uuid p s r s' E]; intros Hok.
  - unfold dsock_ok in *. cbn in *. by eapply (sock_step_ok sec RemoteAddr _ _ H).
  - by apply (socket_Dial_outcome _ _ _ _ _ _ _ _ _ E Hok).
  - apply socket_Listen_same in E as [E _]. unfold dsock_ok. by rewrite E.
  - unfold accept_turn in E. destruct accepted as [conn| |]; [|by injection E as <- <-..].
    destruct (Open _ _ _ _ _ _ _ _); [|by injection E as <- <-..]. by apply (add_opened_ok _ _ _ _ _ _ E).
  - unfold on_close in E. cbn [fst snd] in E. destruct s as [c s]. assert (Hok' : dsock_ok (c, (scheduleRmConn p s).2)) by by apply scheduleRmConn_ok.
    destruct (sd_autoReconnect _); [|by injection E as <- <-].
    destruct (socket_Dial _ _ _ _ _ _ _ _ _ _ _) as [[r0 s0]|] eqn:Ed; [|done].
    apply socket_Dial_outcome in Ed as [[Ed _] _]; [|done]. by destruct r0; injection E as <- <-.
Qed.
End facts.


(** Automatic reconnection dials the endpoint of the last [Listen] or
    [Dial], whatever it returned and whichever connection broke: a socket that has
    dialed two endpoints never comes back to the first, and a socket that listens
    dials itself. *)
Theorem reconnects_to_last {SS X : Type} (sec : secops SS) {P : Pool SS X} (RemoteAddr : cptr → bytes)
    (Handshake : bool → M (Conn SS) unit) (drv : transports) endpoint s r s1 :
  sd_autoReconnect s.1 = true →
  ((∃ fuel net cancelled now uuid, socket_Dial sec RemoteAddr Handshake drv fuel net cancelled now uuid endpoint s = Some (r, s1)) ∨
   (∃ listened, socket_Listen drv listened endpoint s = (r, s1))) →
  ∀ fuel net cancelled now uuid p inner,
  on_close sec RemoteAddr Handshake drv fuel net cancelled now uuid p (s1.1, inner) =
  match socket_Dial sec RemoteAddr Handshake drv fuel net cancelled now uuid endpoint (s1.1, (scheduleRmConn p inner).2) with
  | Some (Fail _, s2) => Some (Ret tt, s2)
  | Some (Ret _, s2) => Some (Ret tt, s2)
  | r => r
  end.
Proof.
  intros Ha Hlast fuel net cancelled now uuid p inner.
  assert (Hs : sd_ep s1.1 = endpoint ∧ sd_autoReconnect s1.1 = true).
  { destruct Hlast as [(fuel0 & net0 & canc0 & now0 & uuid0 & E)|(listened & E)].
    - unfold socket_Dial in E. destruct (splitAddr drv endpoint) as [[network addr]| |]; [|by injection E as <- <-..].
      destruct (transports_get network drv); [|by injection E as <- <-].
      destruct (dial_loop _ _ _ _ _) as [[[conn|]| |]|]; [|by injection E as <- <-..|done].
      destruct (Open _ _ _ _ _ _ _ _) as [zconn| |]; [|by injection E as <- <-..].
      destruct s as [c [st kx]]. unfold add_opened in E. cbn in E. destruct (socket_addConn _ _ _ _ _ _). by injection E as <- <-.
    - apply socket_Listen_same in E as (_ & E1 & E2). by rewrite E2. }
  destruct Hs as [<- Hauto]. unfold on_close. cbn [fst]. rewrite Hauto.
  by destruct (socket_Dial _ _ _ _ _ _ _ _ _ _ _) as [[[[]| |] ?]|].
Qed.

(** A nil mechanism is not the NULL mechanism: with [WithSecurity(nil)]
    no connection is ever opened, neither by [Dial] nor by [accept], whatever the
    peer does. *)
Theorem nil_security_mute {SS X : Type} (sec : secops SS) {P : Pool SS X} (RemoteAddr : cptr → bytes)
    (Handshake : bool → M (Conn SS) unit) (drv : transports) (c0 : sockConf SS) (k0 : socket) inner :
  let c := (WithSecurity None (c0, k0)).1 in
  (∀ fuel net cancelled now uuid endpoint r s',
     socket_Dial sec RemoteAddr Handshake drv fuel net cancelled now uuid endpoint (c, inner) = Some (r, s') →
     r ≠ Ret tt ∧ s'.2 = inner) ∧
  (∀ conn now uuid, accept_turn sec RemoteAddr Handshake (Ret conn) now uuid (c, inner) = (Ret tt, (c, inner))).
Proof.
  intros c. split; [|done]. intros fuel net cancelled now uuid endpoint r s' E. unfold socket_Dial in E.
  destruct (splitAddr drv endpoint) as [[network addr]| |]; [|by injection E as <- <-..].
  destruct (transports_get network drv); [|by injection E as <- <-].
  destruct (dial_loop _ _ _ _ _) as [[[conn|]| |]|]; [|by injection E as <- <-..|done].
  by injection E as <- <-.
Qed.

(** ** Witnesses *)

(** A DEALER socket with automatic reconnection, and a peer that answers as a
    ROUTER with the NULL mechanism after one failed attempt. *)
Definition ex_peer (id : bytes) : netconn :=
  fresh_net (greeting_wire NullSecurity ++
    msg_wire true [cmd_body CmdReady (match Metadata_MarshalZMTP ascii_title ascii_lower (p_range go_platform) (p_room go_platform)
      {[sysSockType := Router; sysSockID := id]} with Ret raw => raw | _ => [] end)]) EOF.

Definition ex_net (network addr : bytes) (n : nat) : outcome (option netconn) :=
  match n with O => Fail EOF | S _ => Ret (Some (ex_peer addr)) end.

Definition ex_hs : bool → M (Conn unit) unit :=
  null_Handshake ascii_title ascii_lower (p_range go_platform) (p_room go_platform) (p_spare go_platform) 4096.

Definition ex_conf : sockConf unit * socket :=
  newSocket_with tt Dealer None (gs "uuid") [WithID (gs "me"); WithAutomaticReconnect true; WithDialerMaxRetries 3].

Definition ex_dstate : sockConf unit * (gmap cptr (Conn unit) * (socket * ioPool)) := (ex_conf.1, (∅, (newSocket Dealer None, newIo))).

Abbreviation ex_dial := (socket_Dial (P := io_pool nullSecurity 4096) nullSecurity (fun _ => gs "peer") ex_hs drivers).


(** It has dialed A and B; when the connection to A breaks it dials B. *)
Lemma reconnects_to_last_witness :
  let s1 := match ex_dial 4 ex_net (fun _ => false) 0 (gs "u") (gs "tcp://hostA:1") ex_dstate with Some (_, s) => s | None => ex_dstate end in
  let dialB := ex_dial 4 ex_net (fun _ => false) 0 (gs "u") (gs "tcp://hostB:2") s1 in
  let s2 := match dialB with Some (_, s) => s | None => s1 end in
  on_close (P := io_pool nullSecurity 4096) nullSecurity (fun _ => gs "peer") ex_hs drivers 4 ex_net (fun _ => false) 0 (gs "u") 0 (s2.1, s1.2) =
  match ex_dial 4 ex_net (fun _ => false) 0 (gs "u") (gs "tcp://hostB:2") (s2.1, (scheduleRmConn 0 s1.2).2) with
  | Some (Fail _, s) => Some (Ret tt, s) | Some (Ret _, s) => Some (Ret tt, s) | r => r end.
Proof.
  intros s1 dialB s2. destruct dialB as [[r s]|] eqn:E.
  - apply (reconnects_to_last (P := io_pool nullSecurity 4096) nullSecurity (fun _ => gs "peer") ex_hs drivers (gs "tcp://hostB:2") s1 r s2).
    + vm_compute. reflexivity.
    + left. exists 4%nat, ex_net, (fun _ => false), 0, (gs "u"). exact E.
  - exfalso. assert (H : is_Some dialB) by (apply (bool_decide_unpack _); vm_compute; exact I). rewrite E in H. by destruct H.
Defined.
