(* ===== verification/Mdp.v ===== *)
(** * Mdp: messages of the Majordomo protocol (src/majordomo/mdp.go)

    Service names, the message structure shared by clients, workers and the
    broker, and the two frame formats with their parsers. [time.Now()] is an
    argument of the constructors and parsers; log lines are not modelled. *)

From Stdlib Require Import Strings.Byte ZArith Lia.
From stdpp Require Import base strings numbers gmap list.
From S2P Require Import Prelude Zmtp.

#[local] Open Scope Z_scope.
#[local] Set Default Goal Selector "!".

(** ** Constants *)

Definition ClientProtocol : bytes := gs "MDPC01".
Definition WorkerProtocol : bytes := gs "MDPW01".

(** Durations are in nanoseconds. *)
Definition DefaultHeartbeatLiveness : Z := 3.
Definition DefaultHeartbeatInterval : Z := 2500 * 1000000.
Definition DefaultHeartbeatExpiry : Z := DefaultHeartbeatInterval * DefaultHeartbeatLiveness.

Definition WorkerReady : bytes := [x01].
Definition WorkerRequest : bytes := [x02].
Definition WorkerReply : bytes := [x03].
Definition WorkerHeartbeat : bytes := [x04].
Definition WorkerDisconnect : bytes := [x05].

Definition cmdREQUEST : bytes := gs "REQUEST".
Definition cmdREPLY : bytes := gs "REPLY".

(** ** Names and identifiers *)

Definition ServiceName : Type := bytes.

Definition ServiceName_Validate (s : ServiceName) : outcome unit :=
  if decide (len s = 0) then Fail (Errorf "mdp: empty service name")
  else if decide (255 < len s) then Fail (Errorf "mdp: service name too long")
  else Ret tt.

(** ** Messages *)

Record mdpMessage : Type := mkMdp {
  mm_Frames : list bytes;
  mm_RoutingEnvelope : list bytes;
  mm_Service : ServiceName;
  mm_Body : bytes;
  mm_Command : bytes;
  mm_ClientAddr : bytes;
  mm_ClientEnvelope : list bytes;
  mm_Timestamp : Z }.

Definition NewClientRequest (now : Z) (service : ServiceName) (body : bytes) : mdpMessage :=
  mkMdp [] [] service body [] [] [] now.
Definition NewClientReply (now : Z) (service : ServiceName) (body : bytes) : mdpMessage :=
  mkMdp [] [] service body [] [] [] now.
Definition NewWorkerMessage (now : Z) (command clientAddr body : bytes) : mdpMessage :=
  mkMdp [] [] [] body command clientAddr [] now.

(** [if len(m.Body) > 0 { frames = append(frames, m.Body) }] *)
Definition opt_frame (b : bytes) : list bytes := if decide (0 < len b) then [b] else [].

Definition FormatClientRequest (m : mdpMessage) : list bytes :=
  [[]; ClientProtocol; cmdREQUEST; mm_Service m] ++ opt_frame (mm_Body m).

Definition FormatClientReply (m : mdpMessage) : list bytes :=
  (if decide (0 < len (mm_RoutingEnvelope m)) then mm_RoutingEnvelope m else []) ++
  [[]; ClientProtocol; cmdREPLY; mm_Service m] ++ opt_frame (mm_Body m).

Definition FormatWorkerMessage (m : mdpMessage) : list bytes :=
  let frames := (if decide (0 < len (mm_RoutingEnvelope m)) then mm_RoutingEnvelope m else []) ++
                [[]; WorkerProtocol; mm_Command m] in
  if beq (mm_Command m) WorkerReady then frames ++ opt_frame (mm_Service m)
  else if beq (mm_Command m) WorkerRequest || beq (mm_Command m) WorkerReply then
    frames ++
    (if decide (0 < len (mm_ClientEnvelope m)) then mm_ClientEnvelope m
     else opt_frame (mm_ClientAddr m)) ++
    [[]] ++ opt_frame (mm_Body m)
  else if beq (mm_Command m) WorkerHeartbeat || beq (mm_Command m) WorkerDisconnect then frames
  else
    frames ++
    (if decide (0 < len (mm_ClientEnvelope m)) then mm_ClientEnvelope m ++ [[]] ++ opt_frame (mm_Body m)
     else if decide (0 < len (mm_ClientAddr m)) then [mm_ClientAddr m] ++ [[]] ++ opt_frame (mm_Body m)
     else []).

(** The index of the first empty frame, counting from [i]; -1 if there is none. *)
Fixpoint find_empty (i : Z) (frames : list bytes) : Z :=
  match frames with
  | [] => -1
  | frame :: rest => if decide (len frame = 0) then i else find_empty (i + 1) rest
  end.

Definition findDelimiterFrame (frames : list bytes) : Z := find_empty 0 frames.

Definition ParseClientMessage (now : Z) (frames : list bytes) : outcome mdpMessage :=
  if decide (len frames < 2) then Fail (Errorf "mdp: client message too short")
  else
    let delimiterIdx := findDelimiterFrame frames in
    let routingEnvelope := if decide (0 <= delimiterIdx) then take (Z.to_nat delimiterIdx) frames else [] in
    let protocolFrames :=
      if decide (0 <= delimiterIdx) then drop (Z.to_nat (delimiterIdx + 1)) frames else frames in
    if decide (len protocolFrames < 2) then Fail (Errorf "mdp: client protocol frames too short")
    else
      p0 ← idx protocolFrames 0;
      if negb (beq p0 ClientProtocol) then Fail (Errorf "mdp: invalid client protocol")
      else if decide (len protocolFrames < 3) then
        Fail (Errorf "mdp: client protocol frames missing command or service")
      else
        command ← idx protocolFrames 1;
        (* a REQUEST or REPLY names its service next; the old format has it here *)
        let explicit := beq command cmdREQUEST || beq command cmdREPLY in
        service ← idx protocolFrames (if explicit then 2 else 1)%nat;
        let bodyIdx := (if explicit then 3 else 2)%nat in
        _ ← (if decide (0 < len service) then
               match ServiceName_Validate service with
               | Fail e => Fail (Wrap "mdp" e)
               | r => r
               end
             else Ret tt);
        Ret (mkMdp frames routingEnvelope service (default [] (protocolFrames !! bodyIdx))
               command [] [] now).

Definition ParseWorkerMessage (now : Z) (frames : list bytes) : outcome mdpMessage :=
  if decide (len frames < 3) then Fail (Errorf "mdp: worker message too short")
  else
    let delimiterIdx := findDelimiterFrame frames in
    if decide (delimiterIdx < 0) then Fail (Errorf "mdp: worker message missing empty separator")
    else
      let routingEnvelope := take (Z.to_nat delimiterIdx) frames in
      let protocolFrames := drop (Z.to_nat (delimiterIdx + 1)) frames in
      if decide (len protocolFrames < 2) then Fail (Errorf "mdp: worker protocol frames too short")
      else
        p0 ← idx protocolFrames 0;
        if negb (beq p0 WorkerProtocol) then Fail (Errorf "mdp: invalid worker protocol")
        else
          command ← idx protocolFrames 1;
          let msg service body addr env :=
            mkMdp frames routingEnvelope service body command addr env now in
          if beq command WorkerReady then
            if decide (len protocolFrames < 3) then Fail (Errorf "mdp: READY message missing service name")
            else
              service ← idx protocolFrames 2;
              match ServiceName_Validate service with
              | Fail e => Fail (Wrap "mdp" e)
              | Panic p => Panic p
              | Ret _ => Ret (msg service [] [] [])
              end
          else if beq command WorkerRequest || beq command WorkerReply then
            if decide (len protocolFrames < 3) then Fail (Errorf "mdp: message too short")
            else
              let separatorIdx := find_empty 2 (drop 2 protocolFrames) in
              if decide (separatorIdx = -1) then Fail (Errorf "mdp: message missing empty separator")
              else
                let env := if decide (2 < separatorIdx)
                           then take (Z.to_nat (separatorIdx - 2)) (drop 2 protocolFrames) else [] in
                Ret (msg [] (default [] (protocolFrames !! Z.to_nat (separatorIdx + 1)))
                       (default [] (head env)) env)
          else if beq command WorkerHeartbeat || beq command WorkerDisconnect then Ret (msg [] [] [] [])
          else Fail (Errorf "mdp: unknown worker command").

Definition Message_Age (now : Z) (m : mdpMessage) : Z := now - mm_Timestamp m.
Definition Message_IsExpired (now ttl : Z) (m : mdpMessage) : bool := ttl <? now - mm_Timestamp m.

(** ** Lemmas *)

(** Frames of an envelope are not empty: an empty frame ends it. *)
Definition envelope (frames : list bytes) : Prop := Forall (fun f => f ≠ []) frames.

#[global] Instance envelope_dec frames : Decision (envelope frames).
Proof. unfold envelope. apply _. Defined.

Lemma find_empty_app env rest : envelope env → ∀ i, find_empty i (env ++ [] :: rest) = i + len env.
Proof.
  induction 1 as [|f env Hf _ IH]; intros i; cbn [app find_empty].
  - rewrite decide_True by done. change (len []) with 0. lia.
  - rewrite decide_False by (by rewrite len_nil_iff). rewrite IH, len_cons. lia.
Qed.

Lemma find_empty_none env : envelope env → ∀ i, find_empty i env = -1.
Proof.
  induction 1 as [|f env Hf _ IH]; intros i; cbn [find_empty]; [done|].
  rewrite decide_False by (by rewrite len_nil_iff). apply IH.
Qed.

(** Every list is an envelope, or an envelope followed by an empty frame. *)
Lemma envelope_split frames :
  envelope frames ∨ ∃ env rest, envelope env ∧ frames = env ++ [] :: rest.
Proof.
  induction frames as [|f frames [IH|(env & rest & He & ->)]]; [left; constructor|..].
  - destruct f; [right; by exists [], frames; split; [constructor|]|left; by constructor].
  - right. destruct f; [by exists [], (env ++ [] :: rest); split; [constructor|]|].
    exists ((b :: f) :: env), rest. split; [by constructor|done].
Qed.

Lemma take_env {A} (env rest : list A) : take (Z.to_nat (0 + len env)) (env ++ rest) = env.
Proof. rewrite Z.add_0_l, len_to_nat. apply take_app_length. Qed.

Lemma drop_env (env rest : list bytes) : drop (Z.to_nat (0 + len env + 1)) (env ++ [] :: rest) = rest.
Proof.
  replace (Z.to_nat (0 + len env + 1)) with (length (env ++ [[]])) by (rewrite length_app; unfold len; simpl; lia).
  change ([] :: rest) with ([[]] ++ rest). rewrite app_assoc. apply drop_app_length.
Qed.

Lemma if_len_app {A} (l k : list A) : (if decide (0 < len l) then l else []) ++ k = l ++ k.
Proof. destruct l; [done|]. rewrite decide_True; [done|]. rewrite len_cons. pose proof (len_nonneg l). lia. Qed.

Lemma Validate_ok s : 0 < len s <= 255 → ServiceName_Validate s = Ret tt.
Proof. intros H. unfold ServiceName_Validate. by rewrite !decide_False by lia. Qed.

Lemma opt_frame_body b pre n : n = length pre → default [] ((pre ++ opt_frame b) !! n) = b.
Proof.
  intros ->. rewrite lookup_app_r, Nat.sub_diag by lia. unfold opt_frame. case_decide as H; [done|].
  destruct b; [done|]. rewrite len_cons in H. pose proof (len_nonneg b0). lia.
Qed.

(** The protocol part of a client message, behind any envelope. *)
Lemma ParseClient_ok now env command service body :
  envelope env → command = cmdREQUEST ∨ command = cmdREPLY → 0 < len service <= 255 →
  let frames := env ++ [[]; ClientProtocol; command; service] ++ opt_frame body in
  ParseClientMessage now frames = Ret (mkMdp frames env service body command [] [] now).
Proof.
  intros He Hc Hs. cbv zeta. unfold ParseClientMessage, findDelimiterFrame. cbn [app].
  rewrite decide_False by (rewrite len_app, !len_cons; pose proof (len_nonneg env); pose proof (len_nonneg (opt_frame body)); lia).
  rewrite find_empty_app by done. assert (Hd : 0 <= 0 + len env) by (pose proof (len_nonneg env); lia). rewrite !(decide_True _ _ Hd).
  rewrite take_env, drop_env.
  rewrite !decide_False by (rewrite !len_cons; pose proof (len_nonneg (opt_frame body)); lia).
  cbn [idx lookup list_lookup mbind outcome_bind]. change (beq ClientProtocol ClientProtocol) with true. cbn [negb].
  assert (Hb : beq command cmdREQUEST || beq command cmdREPLY = true)
    by (destruct Hc as [-> | ->]; reflexivity).
  rewrite Hb. cbn [idx lookup list_lookup mbind outcome_bind].
  rewrite decide_True, Validate_ok by lia. cbn [mbind outcome_bind]. do 2 f_equal.
  by apply (opt_frame_body body []).
Qed.

(** Whatever [ParseWorkerMessage] accepts has the worker format. *)
Lemma ParseWorker_inv now frames m :
  ParseWorkerMessage now frames = Ret m →
  ∃ rest, envelope (mm_RoutingEnvelope m) ∧
    frames = mm_RoutingEnvelope m ++ [[]; WorkerProtocol; mm_Command m] ++ rest ∧
    mm_Command m ∈ [WorkerReady; WorkerRequest; WorkerReply; WorkerHeartbeat; WorkerDisconnect].
Proof.
  unfold ParseWorkerMessage, findDelimiterFrame. case_decide as H0; [done|]. clear H0.
  destruct (envelope_split frames) as [He|(env & rest & He & ->)].
  { by rewrite find_empty_none, decide_True. }
  rewrite find_empty_app by done. rewrite decide_False by (pose proof (len_nonneg env); lia).
  rewrite take_env, drop_env. destruct rest as [|p0 [|command rest]]; try (intros; case_decide; done).
  rewrite decide_False by (rewrite !len_cons; pose proof (len_nonneg rest); lia).
  cbn [idx lookup list_lookup mbind outcome_bind].
  destruct (beq p0 WorkerProtocol) eqn:Ep; [|done]. apply bool_decide_eq_true in Ep as ->. cbn [negb].
  intros H. exists rest. revert H.
  assert (Hin : ∀ c, beq command c = true → c = command) by (intros c E; by apply bool_decide_eq_true in E).
  repeat match goal with
  | |- context [if beq command ?c then _ else _] => destruct (beq command c) eqn:?E
  | |- context [beq command ?c || _] => destruct (beq command c) eqn:?E; cbn [orb]
  end; intros H; repeat (case_decide; [done|]);
  try (obind H as s Hs; destruct (ServiceName_Validate s); [|done..]);
  simplify_eq; cbn [mm_RoutingEnvelope mm_Command];
  (split; [done|]; split; [done|]);
  match goal with E : beq command _ = true |- _ => apply Hin in E; rewrite <- E end; set_solver.
Qed.

Lemma ParseWorker_no_panic now frames p : ParseWorkerMessage now frames ≠ Panic p.
Proof.
  unfold ParseWorkerMessage. do 3 (case_decide; [done|]).
  destruct (drop _ frames) as [|p0 [|command rest]]; try done. cbn [idx lookup list_lookup mbind outcome_bind].
  destruct (beq p0 _); [|done]. cbn [negb]. repeat (case_match; try done).
  - destruct rest; [done|]. cbn [idx lookup list_lookup mbind outcome_bind].
    unfold ServiceName_Validate. by repeat case_decide.
Qed.

Lemma ParseClient_no_panic now frames p : ParseClientMessage now frames ≠ Panic p.
Proof.
  unfold ParseClientMessage. case_decide; [done|]. set (pf := if decide _ then drop _ _ else _).
  case_decide; [done|]. destruct pf as [|p0 [|command [|service rest]]]; try done.
  - cbn [idx lookup list_lookup mbind outcome_bind]. by destruct (negb _).
  - cbn [idx lookup list_lookup mbind outcome_bind]. destruct (negb _); [done|]. case_decide; [done|].
    destruct (_ || _); cbn [idx lookup list_lookup mbind outcome_bind];
      unfold ServiceName_Validate; by repeat case_decide.
Qed.

(** The client envelope a worker message carries. *)
Definition client_envelope (m : mdpMessage) : list bytes :=
  if decide (0 < len (mm_ClientEnvelope m)) then mm_ClientEnvelope m else opt_frame (mm_ClientAddr m).

(** What the receiver of a worker message knows of it. *)
Definition received (now : Z) (m : mdpMessage) : mdpMessage :=
  let frames := FormatWorkerMessage m in
  let env := client_envelope m in
  if beq (mm_Command m) WorkerReady
  then mkMdp frames (mm_RoutingEnvelope m) (mm_Service m) [] (mm_Command m) [] [] now
  else if beq (mm_Command m) WorkerRequest || beq (mm_Command m) WorkerReply
  then mkMdp frames (mm_RoutingEnvelope m) [] (mm_Body m) (mm_Command m) (default [] (head env)) env now
  else mkMdp frames (mm_RoutingEnvelope m) [] [] (mm_Command m) [] [] now.

(** A worker message that can be sent: a known command, envelopes without
    empty frames, and a valid service name in READY. *)
Definition sendable (m : mdpMessage) : Prop :=
  mm_Command m ∈ [WorkerReady; WorkerRequest; WorkerReply; WorkerHeartbeat; WorkerDisconnect] ∧
  envelope (mm_RoutingEnvelope m) ∧ envelope (client_envelope m) ∧
  (mm_Command m = WorkerReady → 0 < len (mm_Service m) <= 255).

(** The parser behind the routing envelope. *)
Lemma ParseWorker_prefix now env command rest :
  envelope env →
  let frames := env ++ [[]; WorkerProtocol; command] ++ rest in
  let protocolFrames := [WorkerProtocol; command] ++ rest in
  let msg service body addr cenv := mkMdp frames env service body command addr cenv now in
  ParseWorkerMessage now frames =
    if beq command WorkerReady then
      if decide (len protocolFrames < 3) then Fail (Errorf "mdp: READY message missing service name")
      else
        service ← idx protocolFrames 2;
        match ServiceName_Validate service with
        | Fail e => Fail (Wrap "mdp" e)
        | Panic p => Panic p
        | Ret _ => Ret (msg service [] [] [])
        end
    else if beq command WorkerRequest || beq command WorkerReply then
      if decide (len protocolFrames < 3) then Fail (Errorf "mdp: message too short")
      else
        let separatorIdx := find_empty 2 (drop 2 protocolFrames) in
        if decide (separatorIdx = -1) then Fail (Errorf "mdp: message missing empty separator")
        else
          let cenv := if decide (2 < separatorIdx)
                     then take (Z.to_nat (separatorIdx - 2)) (drop 2 protocolFrames) else [] in
          Ret (msg [] (default [] (protocolFrames !! Z.to_nat (separatorIdx + 1)))
                 (default [] (head cenv)) cenv)
    else if beq command WorkerHeartbeat || beq command WorkerDisconnect then Ret (msg [] [] [] [])
    else Fail (Errorf "mdp: unknown worker command").
Proof.
  intros He. cbv zeta. unfold ParseWorkerMessage, findDelimiterFrame. cbn [app].
  rewrite decide_False by (rewrite len_app, !len_cons; pose proof (len_nonneg env); pose proof (len_nonneg rest); lia).
  rewrite find_empty_app by done. rewrite decide_False by (pose proof (len_nonneg env); lia).
  rewrite take_env, drop_env.
  rewrite decide_False by (rewrite !len_cons; pose proof (len_nonneg rest); lia). done.
Qed.

(** A REQUEST or REPLY with its client envelope and separator. *)
Lemma ParseWorker_envelope now env command cenv body :
  envelope env → envelope cenv → beq command WorkerReady = false →
  beq command WorkerRequest || beq command WorkerReply = true →
  let frames := env ++ [[]; WorkerProtocol; command] ++ cenv ++ [[]] ++ opt_frame body in
  ParseWorkerMessage now frames =
    Ret (mkMdp frames env [] body command (default [] (head cenv)) cenv now).
Proof.
  intros He Hc Hr Hrr. cbv zeta. rewrite ParseWorker_prefix by done. cbv zeta. rewrite Hr, Hrr.
  set (rest := cenv ++ [] :: opt_frame body).
  change (drop 2 ([WorkerProtocol; command] ++ cenv ++ [[]] ++ opt_frame body)) with (drop 0 rest).
  rewrite drop_0. assert (Hsep : find_empty 2 rest = 2 + len cenv) by (by apply find_empty_app).
  pose proof (len_nonneg cenv) as Hlc. rewrite !Hsep.
  rewrite decide_False by (rewrite !len_app; change (len [WorkerProtocol; command]) with 2;
    change (len [[]]) with 1; pose proof (len_nonneg (opt_frame body)); lia).
  rewrite decide_False by lia.
  assert (Henv : (if decide (2 < 2 + len cenv) then take (Z.to_nat (2 + len cenv - 2)) rest else []) = cenv).
  { case_decide as H; [|destruct cenv; [done|rewrite len_cons in H; pose proof (len_nonneg cenv); lia]].
    replace (2 + len cenv - 2) with (len cenv) by lia. by rewrite len_to_nat; apply take_app_length. }
  rewrite !Henv. do 2 f_equal.
  rewrite app_assoc, app_assoc. apply opt_frame_body. rewrite !length_app. unfold len. simpl. lia.
Qed.

(** C36. Client messages: behind any routing envelope without empty frames,
    [ParseClientMessage] restores service, body and envelope of what
    [FormatClientRequest] and [FormatClientReply] produce, for every service
    name of 1 to 255 octets and every body, the empty one included. *)
Lemma client_message_roundtrip (now now' : Z) (env : list bytes) (service body : bytes) (m : mdpMessage) :
  envelope env → 0 < len service <= 255 →
  ParseClientMessage now (env ++ FormatClientRequest (NewClientRequest now' service body)) =
    Ret (mkMdp (env ++ FormatClientRequest (NewClientRequest now' service body))
           env service body cmdREQUEST [] [] now) ∧
  (m = mkMdp [] env service body [] [] [] now' →
   ParseClientMessage now (FormatClientReply m) =
     Ret (mkMdp (FormatClientReply m) env service body cmdREPLY [] [] now)).
Proof.
  intros He Hs. split; [by apply ParseClient_ok; [|left|]|].
  intros ->. unfold FormatClientReply. cbn [mm_RoutingEnvelope mm_Service mm_Body].
  rewrite if_len_app. by apply ParseClient_ok; [|right|].
Qed.

Lemma client_message_roundtrip_witness :
  ParseClientMessage 5 ([gs "id"] ++ FormatClientRequest (NewClientRequest 0 (gs "echo") [])) =
    Ret (mkMdp ([gs "id"] ++ FormatClientRequest (NewClientRequest 0 (gs "echo") []))
           [gs "id"] (gs "echo") [] cmdREQUEST [] [] 5).
Proof.
  apply (client_message_roundtrip 5 0 [gs "id"] (gs "echo") [] (NewClientRequest 0 [] []));
    [by repeat constructor|vm_compute; split; congruence].
Defined.

(** C35. Worker messages: [ParseWorkerMessage] restores what
    [FormatWorkerMessage] sends for each of the five commands, and conversely
    accepts only frames of that shape. *)
Lemma worker_message_roundtrip (now : Z) (m m' : mdpMessage) (frames : list bytes) :
  (sendable m → ParseWorkerMessage now (FormatWorkerMessage m) = Ret (received now m)) ∧
  (ParseWorkerMessage now frames = Ret m' →
     ∃ rest, envelope (mm_RoutingEnvelope m') ∧
       frames = mm_RoutingEnvelope m' ++ [[]; WorkerProtocol; mm_Command m'] ++ rest ∧
       mm_Command m' ∈ [WorkerReady; WorkerRequest; WorkerReply; WorkerHeartbeat; WorkerDisconnect]).
Proof.
  split; [|apply ParseWorker_inv]. intros (Hin & He & Hc & Hready).
  unfold received, FormatWorkerMessage. fold (client_envelope m). rewrite if_len_app.
  destruct (beq (mm_Command m) WorkerReady) eqn:E1.
  - pose proof E1 as E1'. apply bool_decide_eq_true in E1'. specialize (Hready E1').
    rewrite <- app_assoc. rewrite ParseWorker_prefix by done. cbv zeta. rewrite E1.
    unfold opt_frame. rewrite !(decide_True _ _ (proj1 Hready)). rewrite decide_False by (rewrite len_app; change (len [mm_Service m]) with 1; change (len [WorkerProtocol; mm_Command m]) with 2; lia).
    cbn [idx lookup list_lookup mbind outcome_bind app]. by rewrite Validate_ok.
  - destruct (beq (mm_Command m) WorkerRequest || beq (mm_Command m) WorkerReply) eqn:E2.
    + rewrite <- !app_assoc. by apply ParseWorker_envelope.
    + pose proof (ParseWorker_prefix now (mm_RoutingEnvelope m) (mm_Command m) [] He) as HP.
      cbv zeta in HP. rewrite E1, E2 in HP. revert HP. cbn [app].
      replace (beq (mm_Command m) WorkerHeartbeat || beq (mm_Command m) WorkerDisconnect) with true; [done|].
      symmetry. apply orb_false_iff in E2 as [E2 E3]. unfold beq in *.
      rewrite bool_decide_eq_false in E1, E2, E3. rewrite orb_true_iff, !bool_decide_eq_true.
      clear -Hin E1 E2 E3. set_solver.
Qed.

Lemma worker_message_roundtrip_witness :
  let m := mkMdp [] [] [] (gs "hi") WorkerReply (gs "client") [] 0 in
  ParseWorkerMessage 9 (FormatWorkerMessage m) = Ret (received 9 m).
Proof.
  refine (proj1 (worker_message_roundtrip 9 (mkMdp [] [] [] (gs "hi") WorkerReply (gs "client") [] 0)
    (mkMdp [] [] [] [] [] [] [] 0) []) _).
  split; [set_solver|]. split; [constructor|]. split; [by repeat constructor|done].
Defined.

(** Majordomo messages survive the wire: client requests and replies are
    restored by the client parser behind any routing envelope, worker
    messages of the five commands by the worker parser; and what the worker
    parser accepts has the shape of such a message. *)
Theorem mdp_codecs :
  (∀ (now now' : Z) (env : list bytes) (service body : bytes),
     envelope env → 0 < len service <= 255 →
     let request := env ++ FormatClientRequest (NewClientRequest now' service body) in
     let reply := mkMdp [] env service body [] [] [] now' in
     ParseClientMessage now request = Ret (mkMdp request env service body cmdREQUEST [] [] now) ∧
     ParseClientMessage now (FormatClientReply reply) = Ret (mkMdp (FormatClientReply reply) env service body cmdREPLY [] [] now)) ∧
  (∀ (now : Z) (m : mdpMessage), sendable m → ParseWorkerMessage now (FormatWorkerMessage m) = Ret (received now m)) ∧
  (∀ (now : Z) (frames : list bytes) (m' : mdpMessage), ParseWorkerMessage now frames = Ret m' →
     ∃ rest, envelope (mm_RoutingEnvelope m') ∧
       frames = mm_RoutingEnvelope m' ++ [[]; WorkerProtocol; mm_Command m'] ++ rest ∧
       mm_Command m' ∈ [WorkerReady; WorkerRequest; WorkerReply; WorkerHeartbeat; WorkerDisconnect]).
Proof.
  split_and!.
  - intros now now' env service body He Hs request reply.
    destruct (client_message_roundtrip now now' env service body reply He Hs) as [H1 H2]. split; [done|]. by apply H2.
  - intros now m. apply (worker_message_roundtrip now m m []).
  - intros now frames m'. apply (worker_message_roundtrip now m' m' frames).
Qed.
