(* ===== verification/Broker.v ===== *)
(** * Broker: the Majordomo broker (src/majordomo/broker.go)

    The broker keeps, under one mutex, a map of registered workers and a map
    of services, each with its pending requests and its lists of available
    and busy workers. Workers are shared by pointer between the map and the
    lists, so they live in a heap; services are reached through their map
    only and never removed, so a service is its name.

    The handlers run one at a time, as the mutex makes them. [time.Now()]
    reads an arbitrary clock, one tick per call; the ROUTER socket is an
    arbitrary function of the history of sends that says which send fails.
    Log lines are not modelled, except where the code that prepares them can
    panic or create a service ([LogInfo]). *)

From Stdlib Require Import Strings.Byte ZArith Lia.
From stdpp Require Import base strings numbers gmap list.
From S2P Require Import Prelude Zmtp Mdp.

#[local] Open Scope Z_scope.
#[local] Set Default Goal Selector "!".

(** ** State *)

(** A pointer to a [BrokerWorker]. *)
Abbreviation wptr := nat.

Record BrokerWorker : Type := mkWorker {
  bw_ID : bytes;
  bw_Service : ServiceName;
  bw_Identity : bytes;
  bw_Address : bytes;
  bw_Expiry : Z;
  bw_InstanceID : Z;      (* the nanoseconds in "worker-%d" *)
  bw_RequestsProcessed : Z;
  bw_LastSeen : Z }.

Record PendingRequest : Type := mkRequest {
  pr_Client : bytes;
  pr_Service : ServiceName;
  pr_Body : bytes;
  pr_Created : Z }.

Record Service : Type := mkService {
  sv_Name : ServiceName;
  sv_Requests : list PendingRequest;
  sv_AvailableWorkers : list wptr;
  sv_BusyWorkers : list wptr;
  sv_TotalRequests : Z;
  sv_TotalResponses : Z;
  sv_ActiveWorkers : Z }.

Record BrokerOptions : Type := mkOptions {
  bo_HeartbeatLiveness : Z;
  bo_HeartbeatInterval : Z;
  bo_RequestTimeout : Z;
  bo_LogInfo : bool }.

Definition DefaultBrokerOptions : BrokerOptions :=
  mkOptions DefaultHeartbeatLiveness DefaultHeartbeatInterval (30 * 1000000000) false.

(** What the mutex protects. *)
Record brokerState : Type := mkState {
  bs_services : gmap ServiceName Service;
  bs_workers : gmap bytes wptr;
  bs_heap : gmap wptr BrokerWorker;
  bs_totalWorkers : Z;
  bs_totalRequests : Z;
  bs_totalReplies : Z }.

Record Broker : Type := mkBroker {
  b_heartbeatLiveness : Z;
  b_heartbeatInterval : Z;
  b_heartbeatExpiry : Z;
  b_requestTimeout : Z;
  b_options : BrokerOptions;
  b_running : bool;
  b_stopClosed : bool;                             (* [stopCh] has been closed *)
  b_state : brokerState;
  b_ticks : nat;                                   (* readings of the clock *)
  b_sends : list (list bytes * option error) }.    (* sends and their results *)

Definition NewBroker (options : option BrokerOptions) : Broker :=
  let o := default DefaultBrokerOptions options in
  mkBroker (bo_HeartbeatLiveness o) (bo_HeartbeatInterval o)
    (wraps 64 (bo_HeartbeatInterval o * bo_HeartbeatLiveness o)) (bo_RequestTimeout o) o
    false false (mkState ∅ ∅ ∅ 0 0 0) 0 [].

(** Assignments. *)
Definition set_state (st : brokerState) (b : Broker) : Broker :=
  mkBroker (b_heartbeatLiveness b) (b_heartbeatInterval b) (b_heartbeatExpiry b) (b_requestTimeout b)
    (b_options b) (b_running b) (b_stopClosed b) st (b_ticks b) (b_sends b).
Definition set_running (r s : bool) (b : Broker) : Broker :=
  mkBroker (b_heartbeatLiveness b) (b_heartbeatInterval b) (b_heartbeatExpiry b) (b_requestTimeout b)
    (b_options b) r s (b_state b) (b_ticks b) (b_sends b).
Definition set_env (t : nat) (s : list (list bytes * option error)) (b : Broker) : Broker :=
  mkBroker (b_heartbeatLiveness b) (b_heartbeatInterval b) (b_heartbeatExpiry b) (b_requestTimeout b)
    (b_options b) (b_running b) (b_stopClosed b) (b_state b) t s.
Definition upd_state (f : brokerState → brokerState) : M Broker unit :=
  mupd (fun b => set_state (f (b_state b)) b).

Definition set_service (n : ServiceName) (s : Service) (st : brokerState) : brokerState :=
  mkState (<[n := s]> (bs_services st)) (bs_workers st) (bs_heap st)
    (bs_totalWorkers st) (bs_totalRequests st) (bs_totalReplies st).
Definition set_lists (avail busy : list wptr) (s : Service) : Service :=
  mkService (sv_Name s) (sv_Requests s) avail busy (sv_TotalRequests s) (sv_TotalResponses s) (sv_ActiveWorkers s).
Definition set_requests (rs : list PendingRequest) (s : Service) : Service :=
  mkService (sv_Name s) rs (sv_AvailableWorkers s) (sv_BusyWorkers s)
    (sv_TotalRequests s) (sv_TotalResponses s) (sv_ActiveWorkers s).
Definition add_active (d : Z) (s : Service) : Service :=
  mkService (sv_Name s) (sv_Requests s) (sv_AvailableWorkers s) (sv_BusyWorkers s)
    (sv_TotalRequests s) (sv_TotalResponses s) (sv_ActiveWorkers s + d).
Definition set_worker (p : wptr) (w : BrokerWorker) (st : brokerState) : brokerState :=
  mkState (bs_services st) (bs_workers st) (<[p := w]> (bs_heap st))
    (bs_totalWorkers st) (bs_totalRequests st) (bs_totalReplies st).

Section broker.
(** The readings of [time.Now()], and the socket: the error, if any, of the
    next send given the earlier ones. *)
Context (clock : nat → Z) (net : list (list bytes * option error) → list bytes → option error).
(** The orders in which [range] visits the two maps. *)
Context (range_w : gmap bytes wptr → list (bytes * wptr)).
Context (range_s : gmap ServiceName Service → list (ServiceName * Service)).

Definition time_Now : M Broker Z := fun b =>
  (Ret (clock (b_ticks b)), set_env (S (b_ticks b)) (b_sends b) b).

Definition socket_Send (frames : list bytes) : M Broker unit := fun b =>
  let r := net (b_sends b) frames in
  (match r with None => Ret tt | Some e => Fail e end,
   set_env (b_ticks b) (b_sends b ++ [(frames, r)]) b).

(** Pointer dereference. *)
Definition deref (p : wptr) : M Broker BrokerWorker := fun b =>
  match bs_heap (b_state b) !! p with
  | Some w => (Ret w, b)
  | None => (Panic "nil pointer dereference", b)
  end.

(** The service a pointer obtained from the map stands for. *)
Definition service_of (n : ServiceName) : M Broker Service := fun b =>
  match bs_services (b_state b) !! n with
  | Some s => (Ret s, b)
  | None => (Panic "nil pointer dereference", b)
  end.

Definition upd_service (n : ServiceName) (f : Service → Service) : M Broker unit :=
  s ← service_of n; upd_state (set_service n (f s)).

Definition BrokerWorker_IsExpired (p : wptr) : M Broker bool :=
  now ← time_Now; w ← deref p; mret (bw_Expiry w <? now).

Definition PendingRequest_IsExpired (r : PendingRequest) (ttl : Z) : M Broker bool :=
  now ← time_Now; mret (ttl <? now - pr_Created r).

(** The elements a loop keeps, with a test that reads the clock. *)
Fixpoint filterM {A} (test : A → M Broker bool) (l : list A) : M Broker (list A) :=
  match l with
  | [] => mret []
  | x :: l' => b ← test x; r ← filterM test l'; mret (if (b : bool) then x :: r else r)
  end.

Fixpoint forM {A} (body : A → M Broker unit) (l : list A) : M Broker unit :=
  match l with
  | [] => mret tt
  | x :: l' => body x;; forM body l'
  end.

(** ** Configuration, start and stop *)

Definition SetHeartbeat (liveness interval : Z) : M Broker unit := mupd (fun b =>
  mkBroker liveness interval (wraps 64 (interval * liveness)) (b_requestTimeout b) (b_options b)
    (b_running b) (b_stopClosed b) (b_state b) (b_ticks b) (b_sends b)).

Definition SetRequestTimeout (timeout : Z) : M Broker unit := mupd (fun b =>
  mkBroker (b_heartbeatLiveness b) (b_heartbeatInterval b) (b_heartbeatExpiry b) timeout (b_options b)
    (b_running b) (b_stopClosed b) (b_state b) (b_ticks b) (b_sends b)).

(** [Start]; [listen] is the result of [socket.Listen]. *)
Definition Broker_Start (listen : option error) : M Broker unit :=
  b ← mget;
  if b_running b then mfail (Errorf "mdp: broker already running")
  else match listen with
  | Some e => mfail (Wrap "mdp: failed to bind broker socket" e)
  | None => mupd (set_running true (b_stopClosed b))
  end.

(** [Stop]; [close] is the result of [socket.Close]. *)
Definition Broker_Stop (close : option error) : M Broker unit :=
  b ← mget;
  if negb (b_running b) then mfail (Errorf "mdp: broker not running")
  else
    mupd (set_running false (b_stopClosed b));;
    if b_stopClosed b then mpanic "close of closed channel"
    else
      mupd (set_running false true);;
      match close with
      | Some e => mfail (Wrap "mdp: failed to close broker socket" e)
      | None => mret tt
      end.

(** ** Sending *)

Definition sendToWorker (identity command clientAddr body : bytes) : M Broker unit :=
  now ← time_Now;
  let frames := FormatWorkerMessage (NewWorkerMessage now command clientAddr body) in
  wrapE "failed to send to worker" (socket_Send (identity :: frames)).

Definition sendToClient (identity : bytes) (service : ServiceName) (body : bytes) : M Broker unit :=
  now ← time_Now;
  let frames := FormatClientReply (NewClientReply now service body) in
  _ ← try (socket_Send (identity :: frames));
  mret tt.

(** ** Services and their worker lists *)

Definition getOrCreateService (name : ServiceName) : M Broker unit :=
  b ← mget;
  match bs_services (b_state b) !! name with
  | Some _ => mret tt
  | None => upd_state (set_service name (mkService name [] [] [] 0 0 0))
  end.

Definition isWorkerInAvailableList (worker : wptr) (s : Service) : bool :=
  bool_decide (worker ∈ sv_AvailableWorkers s).

(** The loop that removes the first occurrence of a pointer. *)
Fixpoint remove_first (worker : wptr) (l : list wptr) : list wptr :=
  match l with
  | [] => []
  | w :: l' => if decide (w = worker) then l' else w :: remove_first worker l'
  end.

Definition moveWorkerToBusy (worker : wptr) (name : ServiceName) : M Broker unit :=
  upd_service name (fun s =>
    set_lists (remove_first worker (sv_AvailableWorkers s)) (sv_BusyWorkers s ++ [worker]) s).

Definition moveWorkerToAvailable (worker : wptr) (name : ServiceName) : M Broker unit :=
  upd_service name (fun s =>
    let busy := remove_first worker (sv_BusyWorkers s) in
    if isWorkerInAvailableList worker s then set_lists (sv_AvailableWorkers s) busy s
    else set_lists (sv_AvailableWorkers s ++ [worker]) busy s).

Definition getAvailableWorkersForService (name : ServiceName) : M Broker (list wptr) :=
  getOrCreateService name;;
  s ← service_of name;
  filterM (fun w => e ← BrokerWorker_IsExpired w; mret (negb e)) (sv_AvailableWorkers s).

(** The dispatch loop: a failed send puts worker and request back and tries
    again, so the number of iterations has no bound of its own and the loop
    takes fuel. *)
Fixpoint dispatch_loop (fuel : nat) (name : ServiceName) : M Broker unit :=
  s ← service_of name;
  match sv_Requests s, sv_AvailableWorkers s with
  | request :: requests, worker :: _ =>
      match fuel with
      | O => mpanic "out of fuel"
      | S fuel' =>
          upd_service name (set_requests requests);;
          moveWorkerToBusy worker name;;
          w ← deref worker;
          r ← try (sendToWorker (bw_Identity w) WorkerRequest (pr_Client request) (pr_Body request));
          match r with
          | inl _ => dispatch_loop fuel' name
          | inr _ =>
              moveWorkerToAvailable worker name;;
              upd_service name (fun s => set_requests (request :: sv_Requests s) s);;
              dispatch_loop fuel' name
          end
      end
  | _, _ => mret tt
  end.

Definition dispatchRequests (fuel : nat) (name : ServiceName) : M Broker unit :=
  s ← service_of name;
  valid ← filterM (fun w => e ← BrokerWorker_IsExpired w; mret (negb e)) (sv_AvailableWorkers s);
  upd_service name (fun s => set_lists valid (sv_BusyWorkers s) s);;
  dispatch_loop fuel name.

(** Removing a worker from the map under [key] and from its service's lists. *)
Definition forget_worker (key : bytes) (p : wptr) (service : ServiceName) (st : brokerState) : brokerState :=
  let st' := mkState (bs_services st) (delete key (bs_workers st)) (bs_heap st)
               (bs_totalWorkers st) (bs_totalRequests st) (bs_totalReplies st) in
  match bs_services st !! service with
  | None => st'
  | Some s =>
      set_service service
        (add_active (-1) (set_lists (remove_first p (sv_AvailableWorkers s))
                                    (remove_first p (sv_BusyWorkers s)) s)) st'
  end.

Definition disconnectWorker (p : wptr) (send : bool) : M Broker unit :=
  w ← deref p;
  (if send then _ ← try (sendToWorker (bw_Identity w) WorkerDisconnect [] []); mret tt else mret tt);;
  upd_state (forget_worker (bw_Identity w) p (bw_Service w)).

(** ** Message analysis *)

Inductive messageType : Type := messageTypeUnknown | messageTypeWorker | messageTypeClient.

#[global] Instance messageType_eq_dec : EqDecision messageType.
Proof. solve_decision. Defined.

(** The loop of [splitOnSeparators], [cur] being the current part. *)
Fixpoint split_loop (frames cur : list bytes) : list (list bytes) :=
  let flush := match cur with [] => [] | _ => [cur] end in
  match frames with
  | [] => flush
  | frame :: rest =>
      if decide (len frame = 0) then flush ++ split_loop rest []
      else split_loop rest (cur ++ [frame])
  end.

Definition splitOnSeparators (frames : list bytes) : list (list bytes) := split_loop frames [].

(** The first part that starts with a protocol identifier. A worker message
    is rebuilt from that part and all parts but the first. *)
Fixpoint detect_parts (parts todo : list (list bytes)) : option (messageType * bytes * list bytes) :=
  match todo with
  | [] => None
  | part :: todo' =>
      match part with
      | [] => detect_parts parts todo'
      | protocolFrame :: _ =>
          if beq protocolFrame WorkerProtocol then
            Some (messageTypeWorker, protocolFrame,
                  [[]] ++ part ++ (drop 1 parts ≫= fun q => [[]] ++ q))
          else if beq protocolFrame ClientProtocol then
            Some (messageTypeClient, protocolFrame, [[]] ++ part)
          else detect_parts parts todo'
      end
  end.

(** The fallback scan; [prev] is the frame before, if any. *)
Fixpoint detect_scan (prev : option bytes) (frames : list bytes) : option (messageType * bytes * list bytes) :=
  match frames with
  | [] => None
  | frame :: rest =>
      if decide (0 < len frame ∧ (frame = WorkerProtocol ∨ frame = ClientProtocol)) then
        let t := if beq frame WorkerProtocol then messageTypeWorker else messageTypeClient in
        (* preceded by an empty frame or not, the message starts with one *)
        match prev with
        | Some [] => Some (t, frame, [] :: frames)
        | _ => Some (t, frame, [[]] ++ frames)
        end
      else detect_scan (Some frame) rest
  end.

Definition detectMessageType (workingFrames : list bytes) : messageType * bytes * list bytes :=
  if decide (len workingFrames < 2) then (messageTypeUnknown, [], [])
  else
    let parts := splitOnSeparators workingFrames in
    match detect_parts parts parts with
    | Some r => r
    | None => default (messageTypeUnknown, [], []) (detect_scan None workingFrames)
    end.

Definition analyzeMessageStructure (frames : list bytes) : messageType * bytes * list bytes :=
  if decide (len frames < 2) then (messageTypeUnknown, [], []) else detectMessageType (drop 1 frames).

(** ** Handlers *)

(** [key[:8]], evaluated for a log line. *)
Definition log_key (key : bytes) : M Broker unit :=
  if decide (len key < 8) then mpanic "slice bounds out of range" else mret tt.

Definition processWorkerMessage (identity : bytes) (frames : list bytes) : M Broker unit :=
  now ← time_Now;
  match ParseWorkerMessage now frames with
  | Panic p => mpanic p
  | Fail _ => mret tt
  | Ret workerMsg =>
      b ← mget;
      let exists_ := bs_workers (b_state b) !! identity in
      (if bo_LogInfo (b_options b) then
         log_key identity;;
         match exists_ with
         | Some p => w ← deref p; getOrCreateService (bw_Service w)
         | None => mret tt
         end
       else mret tt);;
      let unknown := _ ← try (sendToWorker identity WorkerDisconnect [] []); mret tt in
      if beq (mm_Command workerMsg) WorkerReady then
        match exists_ with
        | Some p => disconnectWorker p true
        | None =>
            now ← time_Now;
            let worker := mkWorker identity (mm_Service workerMsg) identity identity
                            (now + b_heartbeatExpiry b) now 0 now in
            getOrCreateService (mm_Service workerMsg);;
            b ← mget;
            let p := fresh (dom (bs_heap (b_state b))) in
            upd_state (set_worker p worker);;
            upd_service (mm_Service workerMsg) (fun s =>
              add_active 1 (set_lists (sv_AvailableWorkers s ++ [p]) (sv_BusyWorkers s) s));;
            upd_state (fun st =>
              mkState (bs_services st) (<[identity := p]> (bs_workers st)) (bs_heap st)
                (wrapu 64 (bs_totalWorkers st + 1)) (bs_totalRequests st) (bs_totalReplies st))
        end
      else if beq (mm_Command workerMsg) WorkerReply then
        match exists_ with
        | None => unknown
        | Some p =>
            w ← deref p;
            sendToClient (mm_ClientAddr workerMsg) (bw_Service w) (mm_Body workerMsg);;
            seen ← time_Now;
            now ← time_Now;
            upd_state (set_worker p (mkWorker (bw_ID w) (bw_Service w) (bw_Identity w) (bw_Address w)
              (now + b_heartbeatExpiry b) (bw_InstanceID w)
              (wrapu 64 (bw_RequestsProcessed w + 1)) seen));;
            upd_state (fun st => mkState (bs_services st) (bs_workers st) (bs_heap st)
              (bs_totalWorkers st) (bs_totalRequests st) (wrapu 64 (bs_totalReplies st + 1)));;
            getOrCreateService (bw_Service w);;
            moveWorkerToAvailable p (bw_Service w)
        end
      else if beq (mm_Command workerMsg) WorkerHeartbeat then
        match exists_ with
        | None => unknown
        | Some p =>
            seen ← time_Now;
            now ← time_Now;
            w ← deref p;
            upd_state (set_worker p (mkWorker (bw_ID w) (bw_Service w) (bw_Identity w) (bw_Address w)
              (now + b_heartbeatExpiry b) (bw_InstanceID w) (bw_RequestsProcessed w) seen))
        end
      else if beq (mm_Command workerMsg) WorkerDisconnect then
        match exists_ with
        | None => mret tt
        | Some p => disconnectWorker p false
        end
      else mret tt
  end.

Definition processClientMessage (fuel : nat) (identity : bytes) (frames : list bytes) : M Broker unit :=
  now ← time_Now;
  match ParseClientMessage now frames with
  | Panic p => mpanic p
  | Fail _ => mret tt
  | Ret clientMsg =>
      let name := mm_Service clientMsg in
      getOrCreateService name;;
      b ← mget;
      (if bo_LogInfo (b_options b) then
         forM (fun '(key, p) =>
           _ ← BrokerWorker_IsExpired p;
           w ← deref p;
           getOrCreateService (bw_Service w);;
           log_key key) (range_w (bs_workers (b_state b)))
       else mret tt);;
      created ← time_Now;
      upd_service name (fun s =>
        mkService (sv_Name s) (sv_Requests s ++ [mkRequest identity name (mm_Body clientMsg) created])
          (sv_AvailableWorkers s) (sv_BusyWorkers s)
          (wrapu 64 (sv_TotalRequests s + 1)) (sv_TotalResponses s) (sv_ActiveWorkers s));;
      upd_state (fun st => mkState (bs_services st) (bs_workers st) (bs_heap st)
        (bs_totalWorkers st) (wrapu 64 (bs_totalRequests st + 1)) (bs_totalReplies st));;
      dispatchRequests fuel name
  end.

Definition processMessage (fuel : nat) (frames : list bytes) : M Broker unit :=
  match frames with
  | [] => mret tt
  | sender :: _ =>
      if decide (len frames < 3) then mret tt
      else
        let '(msgType, protocolFrame, messageFrames) := analyzeMessageStructure frames in
        if decide (msgType = messageTypeUnknown) then mret tt
        else if beq protocolFrame WorkerProtocol then processWorkerMessage sender messageFrames
        else if beq protocolFrame ClientProtocol then processClientMessage fuel sender messageFrames
        else mret tt
  end.

Definition sendHeartbeats : M Broker unit :=
  b ← mget;
  forM (fun p =>
    w ← deref p;
    _ ← try (sendToWorker (bw_Identity w) WorkerHeartbeat [] []);
    mret tt) (range_w (bs_workers (b_state b))).*2.

Definition cleanup : M Broker unit :=
  b ← mget;
  forM (fun '(key, p) =>
    expired ← BrokerWorker_IsExpired p;
    if (expired : bool) then
      w ← deref p;
      upd_state (forget_worker key p (bw_Service w))
    else mret tt) (range_w (bs_workers (b_state b)));;
  b ← mget;
  forM (fun name =>
    s ← service_of name;
    valid ← filterM (fun r => e ← PendingRequest_IsExpired r (b_requestTimeout b); mret (negb e))
              (sv_Requests s);
    upd_service name (set_requests valid)) (range_s (bs_services (b_state b))).*1.

(** ** Statistics *)

Record serviceStats : Type := mkServiceStats {
  ss_active_workers : Z; ss_pending_requests : Z; ss_total_requests : Z; ss_total_responses : Z }.

Record brokerStats : Type := mkStats {
  st_total_workers : Z; st_total_requests : Z; st_total_replies : Z;
  st_active_workers : Z; st_available_workers : Z;
  st_services : gmap ServiceName serviceStats }.

Definition GetStats : M Broker brokerStats :=
  b ← mget;
  let st := b_state b in
  alive ← filterM (fun w => e ← BrokerWorker_IsExpired w; mret (negb e))
            (range_s (bs_services st) ≫= fun '(_, s) => sv_AvailableWorkers s);
  mret (mkStats (bs_totalWorkers st) (bs_totalRequests st) (bs_totalReplies st)
    (Z.of_nat (size (bs_workers st))) (len alive)
    ((fun s => mkServiceStats (sv_ActiveWorkers s) (len (sv_Requests s))
                 (sv_TotalRequests s) (sv_TotalResponses s)) <$> bs_services st)).

(** ** The loops *)

(** One turn of each loop, with its [select]; [false]: the loop returns. [recv]
    is what the socket gives; [tick]: the case of the ticker is taken. *)
Definition messageLoop_turn (fuel : nat) (recv : list bytes + error) : M Broker bool :=
  b ← mget;
  if b_stopClosed b then mret false
  else match recv with inr _ => mret true | inl frames => processMessage fuel frames;; mret true end.
Definition heartbeatLoop_turn (tick : bool) : M Broker bool :=
  b ← mget; if tick then sendHeartbeats;; mret true else mret (negb (b_stopClosed b)).
Definition cleanupLoop_turn (tick : bool) : M Broker bool :=
  b ← mget; if tick then cleanup;; mret true else mret (negb (b_stopClosed b)).
End broker.
