(* ===== verification/BrokerFacts.v ===== *)
(** * BrokerFacts: what the Majordomo broker guarantees

    The bookkeeping invariant of the broker and that every handler keeps it
    without a nil dereference; the order in which requests are dispatched;
    and where the code falls short of the protocol it implements. *)

From Stdlib Require Import Strings.Byte ZArith Lia.
From stdpp Require Import base strings numbers gmap list.
From S2P Require Import Prelude Zmtp Mdp Broker.

#[local] Open Scope Z_scope.
#[local] Set Default Goal Selector "!".

(** ** The invariant *)

(** [p] is a live worker of service [n] that is registered under its identity. *)
Definition worker_in (st : brokerState) (n : ServiceName) (p : wptr) : Prop :=
  ∃ w, bs_heap st !! p = Some w ∧ bw_Service w = n ∧ bs_workers st !! bw_Identity w = Some p.

Definition serves (st : brokerState) (n : ServiceName) (p : wptr) : Prop :=
  bw_Service <$> bs_heap st !! p = Some n.

(** The number of registered workers of a service. *)
Definition registered (st : brokerState) (n : ServiceName) : Z :=
  Z.of_nat (size (filter (fun kp => bw_Service <$> bs_heap st !! kp.2 = Some n) (bs_workers st))).

Definition sv_lists (s : Service) : list wptr := sv_AvailableWorkers s ++ sv_BusyWorkers s.

(** Registered workers exist under their own identity and their service
    exists; a service lists each worker at most once, only registered workers
    of its own, and counts them right. *)
Record wf (st : brokerState) : Prop := {
  wf_workers k p : bs_workers st !! k = Some p →
    ∃ w, bs_heap st !! p = Some w ∧ bw_Identity w = k ∧ is_Some (bs_services st !! bw_Service w);
  wf_services n s : bs_services st !! n = Some s →
    sv_Name s = n ∧ NoDup (sv_lists s) ∧ (∀ p, p ∈ sv_lists s → worker_in st n p) ∧
    sv_ActiveWorkers s = registered st n }.

(** ** Removing the first occurrence of a pointer *)

Lemma remove_first_sublist p l : remove_first p l `sublist_of` l.
Proof.
  induction l as [|q l IH]; simpl; [done|]. case_decide; [by apply sublist_cons|by apply sublist_skip].
Qed.

Lemma remove_first_notin p l : NoDup l → p ∉ remove_first p l.
Proof.
  induction 1 as [|q l Hq Hnd IH]; simpl; [set_solver|].
  case_decide as E; [by subst|]. rewrite not_elem_of_cons. done.
Qed.

Lemma remove_first_elem p q l : q ∈ remove_first p l → q ∈ l.
Proof. intros H. eapply sublist_subseteq; [apply remove_first_sublist|done]. Qed.

(** ** Preservation by the updates of the state *)

Section preservation.
Implicit Types st : brokerState.

(** The invariant does not read the counters. *)
Lemma wf_totals st a b c :
  wf st → wf (mkState (bs_services st) (bs_workers st) (bs_heap st) a b c).
Proof. intros [H1 H2]. by split. Qed.

Lemma wf_set_service st n s s' :
  wf st → bs_services st !! n = Some s →
  sv_Name s' = sv_Name s → sv_ActiveWorkers s' = sv_ActiveWorkers s →
  NoDup (sv_lists s') → (∀ p, p ∈ sv_lists s' → worker_in st n p) →
  wf (set_service n s' st).
Proof.
  intros [Hw Hs] Hn Hname Hact Hnd Hin. split.
  - intros k p Hk. destruct (Hw k p Hk) as (w & ? & ? & [t Ht]). exists w. repeat split; [done..|].
    cbn. destruct (decide (bw_Service w = n)) as [->|?]; [by rewrite lookup_insert_eq|].
    rewrite lookup_insert_ne by done. eauto.
  - intros m t. cbn. destruct (decide (m = n)) as [->|?].
    + rewrite lookup_insert_eq. intros [= <-]. destruct (Hs n s Hn) as (? & _ & _ & Ha).
      repeat split; [congruence|done|done|]. by rewrite Hact, Ha.
    + rewrite lookup_insert_ne by done. apply Hs.
Qed.

Lemma registered_unknown st n : wf st → bs_services st !! n = None → registered st n = 0.
Proof.
  intros [Hw _] Hn. unfold registered. replace (filter _ _) with (∅ : gmap bytes wptr); [done|].
  symmetry. apply map_empty_filter_2. intros k p Hk Hs. simpl in Hs.
  destruct (Hw k p Hk) as (w & Hp & _ & [t Ht]). rewrite Hp in Hs. simpl in Hs. congruence.
Qed.

Lemma wf_new_service st n :
  wf st → bs_services st !! n = None → wf (set_service n (mkService n [] [] [] 0 0 0) st).
Proof.
  intros Hwf Hn. pose proof (registered_unknown st n Hwf Hn) as H0. destruct Hwf as [Hw Hs]. split.
  - intros k p Hk. destruct (Hw k p Hk) as (w & ? & ? & [t Ht]). exists w. repeat split; [done..|].
    cbn. rewrite lookup_insert_ne by congruence. eauto.
  - intros m t. cbn. destruct (decide (m = n)) as [->|?].
    + rewrite lookup_insert_eq. intros [= <-]. repeat split; [constructor|set_solver|]. done.
    + rewrite lookup_insert_ne by done. apply Hs.
Qed.

(** Updating a worker without changing its service or identity. *)
Lemma wf_set_worker st p w w' :
  wf st → bs_heap st !! p = Some w → bw_Service w' = bw_Service w → bw_Identity w' = bw_Identity w →
  wf (set_worker p w' st).
Proof.
  intros [Hw Hs] Hp Hsv Hid.
  assert (Hl : ∀ q x, bs_heap st !! q = Some x → ∃ y, <[p := w']> (bs_heap st) !! q = Some y ∧
             bw_Service y = bw_Service x ∧ bw_Identity y = bw_Identity x).
  { intros q x Hq. destruct (decide (q = p)) as [->|?].
    - exists w'. rewrite lookup_insert_eq. replace x with w by congruence. done.
    - exists x. by rewrite lookup_insert_ne. }
  assert (Hf : ∀ q, bw_Service <$> <[p := w']> (bs_heap st) !! q = bw_Service <$> bs_heap st !! q).
  { intros q. destruct (decide (q = p)) as [->|?].
    - rewrite lookup_insert_eq, Hp. simpl. by rewrite Hsv.
    - by rewrite lookup_insert_ne. }
  split.
  - intros k q Hk. destruct (Hw k q Hk) as (x & Hx & Hk' & Hex). destruct (Hl q x Hx) as (y & ? & ? & ?).
    exists y. cbn. repeat split; [done|congruence|congruence].
  - intros n s Hn. destruct (Hs n s Hn) as (? & ? & Hin & ->). repeat split; [done..| |].
    + intros q Hq. destruct (Hin q Hq) as (x & Hx & ? & ?). destruct (Hl q x Hx) as (y & ? & ? & ?).
      exists y. cbn. repeat split; [done|congruence|congruence].
    + unfold registered. cbn. do 2 f_equal. apply map_filter_ext. intros k q Hk. cbn. by rewrite Hf.
Qed.

(** Registration of a new worker. *)
Lemma wf_register st n s p w k a b c :
  wf st → bs_services st !! n = Some s → bs_heap st !! p = None → bs_workers st !! k = None →
  bw_Service w = n → bw_Identity w = k →
  wf (mkState (<[n := add_active 1 (set_lists (sv_AvailableWorkers s ++ [p]) (sv_BusyWorkers s) s)]> (bs_services st))
        (<[k := p]> (bs_workers st)) (<[p := w]> (bs_heap st)) a b c).
Proof.
  intros [Hw Hs] Hn Hp Hk Hsv Hid.
  assert (Hne : ∀ q x, bs_heap st !! q = Some x → q ≠ p) by congruence.
  assert (Hreg : ∀ m, registered (mkState (<[n := s]> (bs_services st)) (<[k := p]> (bs_workers st))
             (<[p := w]> (bs_heap st)) a b c) m = registered st m + if decide (m = n) then 1 else 0).
  { intros m. unfold registered. cbn.
    assert (Hext : filter (fun kp => bw_Service <$> <[p := w]> (bs_heap st) !! kp.2 = Some m) (bs_workers st)
              = filter (fun kp => bw_Service <$> bs_heap st !! kp.2 = Some m) (bs_workers st)).
    { apply map_filter_ext. intros j q Hj. cbn. destruct (Hw j q Hj) as (x & Hx & _).
      by rewrite lookup_insert_ne by (intros ->; congruence). }
    case_decide as E.
    - rewrite map_filter_insert_True by (cbn; rewrite lookup_insert_eq; cbn; by rewrite Hsv, E).
      rewrite map_size_insert_None, Hext; [lia|]. apply map_lookup_filter_None. by left.
    - rewrite map_filter_insert_False by (cbn; rewrite lookup_insert_eq; cbn; congruence).
      rewrite delete_id, Hext by done. lia. }
  assert (Hin' : ∀ m q, worker_in st m q →
     worker_in (mkState (<[n := s]> (bs_services st)) (<[k := p]> (bs_workers st)) (<[p := w]> (bs_heap st)) a b c) m q).
  { intros m q (x & Hx & ? & Hq). exists x. cbn. rewrite lookup_insert_ne by (intros ->; congruence).
    repeat split; [done..|]. rewrite lookup_insert_ne; [done|]. intros ->. congruence. }
  split.
  - intros j q. cbn. destruct (decide (j = k)) as [->|?].
    + rewrite lookup_insert_eq. intros [= <-]. exists w. rewrite lookup_insert_eq, Hsv, lookup_insert_eq. eauto.
    + rewrite lookup_insert_ne by done. intros Hj. destruct (Hw j q Hj) as (x & Hx & ? & [t Ht]).
      exists x. rewrite lookup_insert_ne by (intros ->; congruence). repeat split; [done..|].
      destruct (decide (bw_Service x = n)) as [->|?]; [by rewrite lookup_insert_eq|].
      rewrite lookup_insert_ne by done. eauto.
  - intros m t. cbn. destruct (decide (m = n)) as [->|?].
    + rewrite lookup_insert_eq. intros [= <-]. destruct (Hs n s Hn) as (? & Hnd & Hin & Hact). cbn.
      assert (Hpin : p ∉ sv_lists s) by (intros H'; destruct (Hin p H') as (x & ? & _); congruence).
      unfold sv_lists in *. cbn. rewrite <- app_assoc. cbn [app]. split; [done|]. split; [|split].
      * rewrite <- Permutation_middle. by constructor.
      * intros q Hq. rewrite !elem_of_app, elem_of_cons in Hq.
        destruct (decide (q = p)) as [->|?]; [|apply Hin', Hin; rewrite elem_of_app; by destruct Hq as [?|[?|?]]; auto].
        exists w. cbn. rewrite lookup_insert_eq, Hid, lookup_insert_eq. done.
      * specialize (Hreg n). rewrite decide_True in Hreg by done. rewrite Hact. symmetry. exact Hreg.
    + rewrite lookup_insert_ne by done. intros Hm. destruct (Hs m t Hm) as (? & ? & Hin & Hact).
      repeat split; [done..|by intros q Hq; apply Hin', Hin|].
      specialize (Hreg m). rewrite decide_False, Z.add_0_r in Hreg by done. rewrite Hact. symmetry. exact Hreg.
Qed.

(** Removal of a registered worker. *)
Lemma wf_forget st k p w :
  wf st → bs_workers st !! k = Some p → bs_heap st !! p = Some w → wf (forget_worker k p (bw_Service w) st).
Proof.
  intros [Hw Hs] Hk Hp. destruct (Hw k p Hk) as (w' & Hp' & Hid & [s Hsv]).
  rewrite Hp in Hp'. injection Hp' as <-. unfold forget_worker. rewrite Hsv.
  set (n := bw_Service w) in *.
  assert (Hreg : ∀ m, registered (mkState (bs_services st) (delete k (bs_workers st)) (bs_heap st) 0 0 0) m
             = registered st m - if decide (m = n) then 1 else 0).
  { intros m. unfold registered. cbn. rewrite map_filter_delete. case_decide as E.
    - subst m. rewrite map_size_delete_Some; [|eexists; apply map_lookup_filter_Some; cbn; by rewrite Hk, Hp].
      assert (size (filter (λ kp : bytes * wptr, bw_Service <$> bs_heap st !! kp.2 = Some n) (bs_workers st)) ≠ 0%nat);
        [|lia].
      apply (map_size_ne_0_lookup_2 _ k). exists p. apply map_lookup_filter_Some. cbn. by rewrite Hp.
    - rewrite map_size_delete_None; [lia|]. apply map_lookup_filter_None. right. intros x Hx. cbn.
      replace x with p by congruence. rewrite Hp. cbn. fold n. congruence. }
  assert (Hin' : ∀ m q, worker_in st m q → q ≠ p →
     worker_in (mkState (bs_services st) (delete k (bs_workers st)) (bs_heap st) 0 0 0) m q).
  { intros m q (x & Hx & ? & Hq) Hne. exists x. cbn. repeat split; [done..|].
    rewrite lookup_delete_ne; [done|]. intros ->. congruence. }
  split.
  - intros j q. cbn. rewrite lookup_delete_Some. intros [Hne Hj]. destruct (Hw j q Hj) as (x & Hx & ? & [t Ht]).
    exists x. repeat split; [done..|]. destruct (decide (bw_Service x = n)) as [->|?]; [by rewrite lookup_insert_eq|].
    rewrite lookup_insert_ne by done. eauto.
  - intros m t. cbn. destruct (decide (m = n)) as [->|Hmn].
    + rewrite lookup_insert_eq. intros [= <-]. destruct (Hs n s Hsv) as (? & Hnd & Hin & Hact).
      unfold sv_lists in *. cbn. apply NoDup_app in Hnd as (Hnd1 & Hdis & Hnd2). split; [done|]. split; [|split].
      * apply NoDup_app. split; [by eapply sublist_NoDup, remove_first_sublist|]. split.
        -- intros q Hq1%remove_first_elem Hq2%remove_first_elem. by eapply Hdis.
        -- by eapply sublist_NoDup, remove_first_sublist.
      * intros q Hq. apply Hin'.
        -- apply Hin. rewrite elem_of_app in *. destruct Hq as [Hq|Hq]; apply remove_first_elem in Hq; auto.
        -- intros ->. rewrite elem_of_app in Hq. destruct Hq as [Hq|Hq]; by apply remove_first_notin in Hq.
      * specialize (Hreg n). rewrite decide_True in Hreg by done. rewrite Hact. symmetry. exact Hreg.
    + rewrite lookup_insert_ne by done. intros Hm. destruct (Hs m t Hm) as (? & ? & Hin & Hact).
      repeat split; [done..| |].
      * intros q Hq. apply Hin'; [by apply Hin|]. intros ->. destruct (Hin p Hq) as (x & Hx & Hxm & _).
        rewrite Hp in Hx. injection Hx as <-. done.
      * specialize (Hreg m). rewrite decide_False, Z.sub_0_r in Hreg by done. rewrite Hact. symmetry. exact Hreg.
Qed.
End preservation.

(** ** Computations that only touch the environment *)

Section environment.
Context (clock : nat → Z) (net : list (list bytes * option error) → list bytes → option error).
Context (Q : brokerState → Prop).

Lemma keeps_env {A} (m : M Broker A) : (∀ b, b_state (m b).2 = b_state b) → keeps (fun b => Q (b_state b)) m.
Proof. intros H b Hb. by rewrite H. Qed.
Lemma keeps_time_Now : keeps (fun b => Q (b_state b)) (time_Now clock).
Proof. by apply keeps_env. Qed.
Lemma keeps_deref p : keeps (fun b => Q (b_state b)) (deref p).
Proof. apply keeps_env. intros b. unfold deref. by destruct (_ !! p). Qed.
Lemma keeps_service_of n : keeps (fun b => Q (b_state b)) (service_of n).
Proof. apply keeps_env. intros b. unfold service_of. by destruct (_ !! n). Qed.
Lemma keeps_Send f : keeps (fun b => Q (b_state b)) (socket_Send net f).
Proof. by apply keeps_env. Qed.
Lemma keeps_log_key k : keeps (fun b => Q (b_state b)) (log_key k).
Proof. apply keeps_env. intros b. unfold log_key. by case_decide. Qed.
Lemma keeps_update f : (∀ st, Q st → Q (f st)) → keeps (fun b => Q (b_state b)) (upd_state f).
Proof. intros H b Hb. by apply H. Qed.
Lemma keeps_filterM {A} (test : A → M Broker bool) l :
  (∀ x, keeps (fun b => Q (b_state b)) (test x)) → keeps (fun b => Q (b_state b)) (filterM test l).
Proof. intros H. induction l as [|x l IH]; cbn [filterM]; keeps_tac. Qed.
Lemma keeps_forM {A} (body : A → M Broker unit) l :
  (∀ x, keeps (fun b => Q (b_state b)) (body x)) → keeps (fun b => Q (b_state b)) (forM body l).
Proof. intros H. induction l as [|x l IH]; cbn [forM]; keeps_tac. Qed.

#[local] Hint Resolve keeps_time_Now keeps_deref keeps_Send : keeps.
Lemma keeps_sendToWorker id c a bo : keeps (fun b => Q (b_state b)) (sendToWorker clock net id c a bo).
Proof. unfold sendToWorker. keeps_tac. Qed.
Lemma keeps_sendToClient id sv bo : keeps (fun b => Q (b_state b)) (sendToClient clock net id sv bo).
Proof. unfold sendToClient. keeps_tac. Qed.
Lemma keeps_IsExpired p : keeps (fun b => Q (b_state b)) (BrokerWorker_IsExpired clock p).
Proof. unfold BrokerWorker_IsExpired. keeps_tac. Qed.
Lemma keeps_request_IsExpired r t : keeps (fun b => Q (b_state b)) (PendingRequest_IsExpired clock r t).
Proof. unfold PendingRequest_IsExpired. keeps_tac. Qed.
End environment.

#[export] Hint Resolve keeps_time_Now keeps_deref keeps_service_of keeps_Send keeps_log_key keeps_sendToWorker
  keeps_sendToClient keeps_IsExpired keeps_request_IsExpired keeps_filterM keeps_forM : keeps.

(** ** Handlers *)

Section handlers.
Context (clock : nat → Z) (net : list (list bytes * option error) → list bytes → option error).
Context (range_w : gmap bytes wptr → list (bytes * wptr)).
Context (range_s : gmap ServiceName Service → list (ServiceName * Service)).
Context (Hrw : range_order range_w) (Hrs : range_order range_s).

(** Whether running out of fuel is tolerated. *)
Context (F : Prop).
Local Abbreviation triple := (Prelude.triple F).

(** The broker does not log at info level and its protected state is [st]. *)
Definition at_ (st : brokerState) (b : Broker) : Prop := b_state b = st ∧ bo_LogInfo (b_options b) = false.

(** Some state with a property. *)
Definition some_state (φ : brokerState → Prop) (b : Broker) : Prop := φ (b_state b) ∧ bo_LogInfo (b_options b) = false.

Lemma some_at {A} φ (m : M Broker A) Q : (∀ st, φ st → triple (at_ st) m Q) → triple (some_state φ) m Q.
Proof. intros H b [Hb Hl]. by apply (H _ Hb). Qed.

Lemma at_some st (φ : brokerState → Prop) b : φ st → at_ st b → some_state φ b.
Proof. intros H [Hb ?]. by split; [rewrite Hb|]. Qed.

Lemma t_now st : triple (at_ st) (time_Now clock) (fun _ => at_ st).
Proof. by intros b [? ?]. Qed.

Lemma t_try_worker st id cmd addr body :
  triple (at_ st) (try (sendToWorker clock net id cmd addr body)) (fun _ => at_ st).
Proof.
  intros b [Hb Hl]. unfold try, sendToWorker, socket_Send, time_Now, wrapE, mbind, M_bind. cbn.
  by destruct (net _ _).
Qed.

Lemma t_send st id cmd addr body :
  triple (at_ st) (try (sendToWorker clock net id cmd addr body))
    (fun r b => ((∀ h f, net h f = None) → r = inl tt) ∧ at_ st b).
Proof.
  intros b [Hb Hl]. unfold try, sendToWorker, socket_Send, time_Now, wrapE, mbind, M_bind. cbn.
  destruct (net _ _) eqn:E; (split; [intros Hn|done]); [by rewrite Hn in E|done].
Qed.

Lemma t_client st id service body :
  triple (at_ st) (sendToClient clock net id service body) (fun _ => at_ st).
Proof.
  intros b [Hb Hl]. unfold sendToClient, try, socket_Send, time_Now, mbind, M_bind. cbn. by destruct (net _ _).
Qed.

Lemma t_upd st f : triple (at_ st) (upd_state f) (fun _ => at_ (f st)).
Proof. intros b [Hb Hl]. split; [cbn; by rewrite Hb|done]. Qed.

Lemma t_deref st p w :
  bs_heap st !! p = Some w → triple (at_ st) (deref p) (fun w' b => w' = w ∧ at_ st b).
Proof. intros Hp b [Hb Hl]. unfold deref. by rewrite Hb, Hp. Qed.

Lemma t_service st n s :
  bs_services st !! n = Some s → triple (at_ st) (service_of n) (fun s' b => s' = s ∧ at_ st b).
Proof. intros Hn b [Hb Hl]. unfold service_of. by rewrite Hb, Hn. Qed.

Lemma t_upd_service st n s f :
  bs_services st !! n = Some s →
  triple (at_ st) (upd_service n f) (fun _ => at_ (set_service n (f s) st)).
Proof.
  intros Hn. eapply triple_bind; [by apply t_service|]. intros s'. apply triple_pure. intros ->.
  apply (t_upd st (set_service n (f s))).
Qed.

Lemma t_expired st p w :
  bs_heap st !! p = Some w → triple (at_ st) (BrokerWorker_IsExpired clock p) (fun _ => at_ st).
Proof.
  intros Hp. eapply triple_bind; [apply t_now|]. intros now.
  eapply triple_bind; [by apply t_deref|]. intros w'. apply triple_pure. intros _.
  eapply triple_conseq; [apply triple_ret|done|]. by intros ? ? [? ?].
Qed.

(** A loop whose body leaves the state alone keeps a sublist. *)
Lemma t_filter {A} st (test : A → M Broker bool) l :
  (∀ x, x ∈ l → triple (at_ st) (test x) (fun _ => at_ st)) →
  triple (at_ st) (filterM test l) (fun r b => r `sublist_of` l ∧ at_ st b).
Proof.
  induction l as [|x l IH]; intros Ht; cbn [filterM].
  - eapply triple_conseq; [apply triple_ret|done|]. by intros ? ? [-> ?].
  - eapply triple_bind; [apply Ht; left|]. intros keep.
    eapply triple_bind; [apply IH; intros; apply Ht; by right|]. intros r. apply triple_pure. intros Hr.
    eapply triple_conseq; [apply triple_ret|done|]. intros a b [-> ?]. split; [|done].
    destruct keep; [by apply sublist_skip|by apply sublist_cons].
Qed.

Lemma t_alive st l :
  (∀ p, p ∈ l → is_Some (bs_heap st !! p)) →
  triple (at_ st) (filterM (fun w => e ← BrokerWorker_IsExpired clock w; mret (negb e)) l)
    (fun r b => r `sublist_of` l ∧ at_ st b).
Proof.
  intros Hl. apply t_filter. intros p Hp. destruct (Hl p Hp) as [w Hw].
  eapply triple_bind; [by eapply t_expired|]. intros e.
  eapply triple_conseq; [apply triple_ret|done|]. by intros ? ? [? ?].
Qed.

(** A loop that keeps a property of the state, over a list. *)
Lemma t_forM {A} (φ : brokerState → list A → Prop) (body : A → M Broker unit) l :
  (∀ x l' st, φ st (x :: l') → triple (at_ st) (body x) (fun _ => some_state (fun st' => φ st' l'))) →
  ∀ st, φ st l → triple (at_ st) (forM body l) (fun _ => some_state (fun st' => φ st' [])).
Proof.
  intros Hbody. induction l as [|x l IH]; intros st Hst; cbn [forM].
  - eapply triple_conseq; [apply triple_ret|done|]. intros ? ? [_ ?]. by eapply at_some.
  - eapply triple_bind; [by apply Hbody|]. intros u. cbv beta. by apply some_at.
Qed.

(** Running the first computation of a bind with a triple; the result of a
    computation that returns a known value is substituted. *)
Local Tactic Notation "tb" tactic3(t) := eapply triple_bind; [solve [t]|intros ?; cbv beta].
Local Ltac tpure := apply triple_pure; intros ->.
Local Ltac tret := eapply triple_conseq; [apply triple_ret|done|]; intros ? ? [? ?].

Lemma t_ignore st id cmd addr body :
  triple (at_ st) (_ ← try (sendToWorker clock net id cmd addr body); mret tt) (fun _ => at_ st).
Proof. tb (apply t_try_worker). by tret. Qed.

Definition extends (st st' : brokerState) : Prop :=
  bs_workers st' = bs_workers st ∧ bs_heap st' = bs_heap st ∧
  ∀ m s, bs_services st !! m = Some s → bs_services st' !! m = Some s.

Lemma t_getOrCreate st n :
  wf st → triple (at_ st) (getOrCreateService n)
    (fun _ => some_state (fun st' => wf st' ∧ is_Some (bs_services st' !! n) ∧ extends st st')).
Proof.
  intros Hwf. tb (apply triple_get). intros b [-> [Hb Hl]]. rewrite Hb.
  destruct (bs_services st !! n) as [s|] eqn:E.
  - cbn. split; [|done]. rewrite Hb. split; [done|]. split; [eauto|by repeat split].
  - cbn. split; [|done]. cbn. rewrite Hb. split; [by apply wf_new_service|]. split; [by rewrite lookup_insert_eq; eauto|].
    repeat split. intros m s Hm. cbn. rewrite lookup_insert_ne; [done|]. intros ->. congruence.
Qed.

(** The lists of a service after [moveWorkerToBusy] of its first available worker. *)
Lemma wf_to_busy st n s p rest :
  wf st → bs_services st !! n = Some s → sv_AvailableWorkers s = p :: rest →
  ∀ s', sv_Name s' = sv_Name s → sv_ActiveWorkers s' = sv_ActiveWorkers s →
  sv_AvailableWorkers s' = rest → sv_BusyWorkers s' = sv_BusyWorkers s ++ [p] → wf (set_service n s' st).
Proof.
  intros Hwf Hn Ha s' H1 H2 H3 H4. destruct (wf_services st Hwf n s Hn) as (_ & Hnd & Hin & _).
  assert (Hp : sv_lists s' ≡ₚ sv_lists s).
  { unfold sv_lists. rewrite H3, H4, Ha. rewrite app_assoc, (Permutation_app_comm _ [p]). done. }
  apply (wf_set_service st n s); [done..|by rewrite Hp|]. intros q. rewrite Hp. apply Hin.
Qed.

Lemma wf_to_available st n s p :
  wf st → bs_services st !! n = Some s → worker_in st n p →
  let busy := remove_first p (sv_BusyWorkers s) in
  wf (set_service n (if isWorkerInAvailableList p s then set_lists (sv_AvailableWorkers s) busy s
                     else set_lists (sv_AvailableWorkers s ++ [p]) busy s) st).
Proof.
  intros Hwf Hn Hp busy. destruct (wf_services st Hwf n s Hn) as (_ & Hnd & Hin & _).
  unfold sv_lists in *. apply NoDup_app in Hnd as (Hn1 & Hdis & Hn2).
  assert (Hsub : ∀ q, q ∈ busy → q ∈ sv_BusyWorkers s) by (intros q; apply remove_first_elem).
  assert (Hb : NoDup busy) by (eapply sublist_NoDup; [exact Hn2|apply remove_first_sublist]).
  unfold isWorkerInAvailableList. case_bool_decide as Hav.
  - apply (wf_set_service st n s); [done..| |].
    + apply NoDup_app. split; [done|]. split; [|done]. intros q ? ?%Hsub. by eapply Hdis.
    + intros q Hq. apply Hin. unfold sv_lists in Hq. cbn in Hq. rewrite elem_of_app in *. destruct Hq; auto.
  - apply (wf_set_service st n s); [done..| |].
    + unfold sv_lists. cbn. rewrite <- app_assoc. cbn [app]. rewrite <- Permutation_middle. constructor.
      * rewrite elem_of_app. intros [?|Hq]; [done|]. by apply remove_first_notin in Hq.
      * apply NoDup_app. split; [done|]. split; [|done]. intros q ? ?%Hsub. by eapply Hdis.
    + intros q Hq. unfold sv_lists in Hq. cbn in Hq. rewrite !elem_of_app in Hq.
      destruct Hq as [[Hq|Hq]|Hq].
      * apply Hin. rewrite elem_of_app. auto.
      * apply list_elem_of_singleton in Hq as ->. done.
      * apply Hin. rewrite elem_of_app. auto.
Qed.

Lemma worker_in_set_service st n s m p : worker_in st m p → worker_in (set_service n s st) m p.
Proof. done. Qed.

(** Fuel for [k] iterations of a loop whose sends succeed. *)
Definition enough (fuel k : nat) : Prop := F ∨ (∀ h f, net h f = None) ∧ (k <= fuel)%nat.

Lemma enough_less fuel k k' : (k' <= k)%nat → enough fuel k → enough fuel k'.
Proof. intros Hk [HF|[Hn Hf]]; [by left|right; split; [done|lia]]. Qed.

Lemma t_dispatch_loop n fuel : ∀ st s,
  wf st → bs_services st !! n = Some s → enough fuel (length (sv_AvailableWorkers s)) →
  triple (at_ st) (dispatch_loop clock net fuel n) (fun _ => some_state wf).
Proof.
  induction fuel as [|fuel IH]; intros st s Hwf Hn Hf; cbn [dispatch_loop].
  - tb (by apply t_service). tpure.
    destruct (sv_Requests s); [|destruct (sv_AvailableWorkers s); [|apply triple_fuel; destruct Hf as [|[_ Hf]]; [done|cbn in Hf; lia]]];
      (eapply triple_conseq; [apply triple_ret|done|]; intros ? ? [_ ?]; by eapply at_some).
  - tb (by apply t_service). tpure.
    destruct (sv_Requests s) as [|request requests]; [tret; by eapply at_some|].
    destruct (sv_AvailableWorkers s) as [|p rest] eqn:Ha; [tret; by eapply at_some|].
    destruct (wf_services st Hwf n s Hn) as (_ & Hnd & Hin & _).
    destruct (Hin p) as (w & Hp & Hw & Hreg); [unfold sv_lists; rewrite Ha; left|].
    tb (by eapply t_upd_service).
    tb (apply (t_upd_service _ _ (set_requests requests s)); cbn; by rewrite lookup_insert_eq).
    match goal with |- triple (at_ (set_service n ?x (set_service n ?y st))) _ _ =>
      set (s1 := x); set (st1 := set_service n s1 (set_service n y st)) end.
    assert (Hst1 : st1 = set_service n s1 st) by (unfold st1, set_service; cbn; by rewrite insert_insert_eq).
    assert (Ha1 : sv_AvailableWorkers s1 = rest) by (unfold s1; cbn; rewrite Ha; cbn; by rewrite decide_True).
    assert (Hwf1 : wf st1) by (rewrite Hst1; by apply (wf_to_busy st n s p rest)).
    assert (Hn1 : bs_services st1 !! n = Some s1) by (unfold st1; cbn; by rewrite lookup_insert_eq).
    tb (apply (t_deref st1 p w); done). tpure. eapply triple_bind; [apply t_send|]. intros r. apply triple_pure. intros Hr.
    destruct r as [|e].
    { apply (IH st1 s1); [done..|]. rewrite Ha1. destruct Hf as [|[Hnet Hf]]; [by left|right]. cbn in Hf. split; [done|lia]. }
    assert (HF : F) by (destruct Hf as [|[Hnet _]]; [done|by specialize (Hr Hnet)]).
    tb (by eapply t_upd_service).
    assert (Hin1 : worker_in st1 n p) by (by exists w).
    pose proof (wf_to_available st1 n s1 p Hwf1 Hn1 Hin1) as Hwf2. cbv zeta in Hwf2.
    match type of Hwf2 with wf (set_service n ?s2 st1) => set (s2' := s2) in *; set (st2 := set_service n s2' st1) in * end.
    assert (Hn2 : bs_services st2 !! n = Some s2') by (unfold st2; cbn; by rewrite lookup_insert_eq).
    tb (by eapply t_upd_service). eapply IH; [|cbn; by rewrite lookup_insert_eq|by left].
    destruct (wf_services st2 Hwf2 n s2' Hn2) as (_ & ? & ? & _).
    by apply (wf_set_service st2 n s2').
Qed.

(** The available workers of a service are registered, each under its key. *)
Lemma available_registered st n s :
  wf st → bs_services st !! n = Some s → (length (sv_AvailableWorkers s) <= size (bs_workers st))%nat.
Proof.
  intros Hwf Hn. destruct (wf_services st Hwf n s Hn) as (_ & Hnd & Hin & _).
  unfold sv_lists in *. apply NoDup_app in Hnd as (Hnd & _).
  transitivity (length (map_to_list (bs_workers st)).*2); [|by rewrite length_fmap, length_map_to_list].
  apply submseteq_length, NoDup_submseteq; [done|]. intros p Hp.
  destruct (Hin p) as (w & _ & _ & Hk); [rewrite elem_of_app; auto|].
  apply (list_elem_of_fmap_2' snd _ (bw_Identity w, p)); [by apply elem_of_map_to_list|done].
Qed.

Lemma t_dispatch fuel n st :
  wf st → is_Some (bs_services st !! n) → enough fuel (size (bs_workers st)) →
  triple (at_ st) (dispatchRequests clock net fuel n) (fun _ => some_state wf).
Proof.
  intros Hwf [s Hn] Hf. destruct (wf_services st Hwf n s Hn) as (_ & Hnd & Hin & _).
  pose proof (available_registered st n s Hwf Hn) as Hav.
  tb (by apply t_service). tpure.
  tb (apply t_alive; intros p Hp; destruct (Hin p) as (w & Hw & _); [unfold sv_lists; rewrite elem_of_app; auto|eauto]).
  apply triple_pure. intros Hsub. pose proof (sublist_length _ _ Hsub). tb (by eapply t_upd_service).
  eapply t_dispatch_loop; [|cbn; by rewrite lookup_insert_eq|eapply enough_less; [|exact Hf]; cbn; lia].
  apply (wf_set_service st n s); [done..| |].
  - eapply sublist_NoDup; [exact Hnd|]. by apply sublist_app.
  - intros q Hq. apply Hin. eapply sublist_subseteq; [|exact Hq]. by apply sublist_app.
Qed.

Lemma t_disconnect st k p send :
  wf st → bs_workers st !! k = Some p →
  triple (at_ st) (disconnectWorker clock net p send) (fun _ => some_state wf).
Proof.
  intros Hwf Hk. destruct (wf_workers st Hwf k p Hk) as (w & Hp & Hid & Hs).
  tb (by apply (t_deref st p w)). tpure.
  tb (instantiate (1 := fun _ => at_ st); destruct send; [apply t_ignore|by tret]).
  eapply triple_conseq; [apply t_upd|done|]. intros ? b Hb. eapply at_some; [|exact Hb].
  apply wf_forget; [done|by rewrite Hid|done].
Qed.

Lemma t_ready st identity service k b0 :
  wf st → bs_workers st !! identity = None →
  triple (at_ st)
    (now ← time_Now clock;
     let worker := mkWorker identity service identity identity (now + k) now 0 now in
     getOrCreateService service;;
     b ← mget;
     let p := fresh (dom (bs_heap (b_state b))) in
     upd_state (set_worker p worker);;
     upd_service service (fun s =>
       add_active 1 (set_lists (sv_AvailableWorkers s ++ [p]) (sv_BusyWorkers s) s));;
     upd_state (fun st =>
       mkState (bs_services st) (<[identity := p]> (bs_workers st)) (bs_heap st)
         (wrapu 64 (bs_totalWorkers st + b0)) (bs_totalRequests st) (bs_totalReplies st)))
    (fun _ => some_state wf).
Proof.
  intros Hwf Hk. tb apply t_now. tb (by apply t_getOrCreate). apply some_at.
  intros st1 (Hwf1 & [s Hs] & Hw & Hh & _).
  eapply triple_bind; [apply triple_get|]. intros b1. cbv beta zeta. intros b2 [<- [Hb Hl]].
  set (p := fresh _).
  assert (Hp : bs_heap st1 !! p = None).
  { apply not_elem_of_dom. subst p. rewrite Hb. apply is_fresh. }
  revert b1 Hb Hl p Hp. intros b1 Hb Hl p Hp.
  enough (Ht : triple (at_ st1) (upd_state (set_worker p (mkWorker identity service identity identity (a + k) a 0 a));;
     upd_service service (fun s =>
       add_active 1 (set_lists (sv_AvailableWorkers s ++ [p]) (sv_BusyWorkers s) s));;
     upd_state (fun st =>
       mkState (bs_services st) (<[identity := p]> (bs_workers st)) (bs_heap st)
         (wrapu 64 (bs_totalWorkers st + b0)) (bs_totalRequests st) (bs_totalReplies st)))
    (fun _ => some_state wf)) by (apply Ht; by split).
  tb apply t_upd. tb (by apply t_upd_service).
  eapply triple_conseq; [apply t_upd|done|]. intros ? b Hb'. eapply at_some; [|exact Hb'].
  by apply (wf_register st1 service s p); rewrite ?Hw.
Qed.

(** A message from a worker. *)
Lemma t_worker st identity frames :
  wf st → triple (at_ st) (processWorkerMessage clock net identity frames) (fun _ => some_state wf).
Proof.
  intros Hwf. unfold processWorkerMessage. tb apply t_now.
  destruct (ParseWorkerMessage a frames) as [m|e|p] eqn:Hparse.
  2: { tret. by eapply at_some. }
  2: { exfalso. revert Hparse. apply ParseWorker_no_panic. }
  eapply triple_bind; [apply triple_get|]. intros b1. cbv beta zeta. intros b2 [<- [Hb Hl]].
  rewrite Hb, Hl. rewrite (M_bind_ret (mret tt) _ b1 tt b1) by done.
  match goal with |- match ?m b1 with _ => _ end => enough (Ht : triple (at_ st) m (fun _ => some_state wf)) by (apply Ht; by split) end.
  assert (Hunk : triple (at_ st) (_ ← try (sendToWorker clock net identity WorkerDisconnect [] []); mret tt) (fun _ => some_state wf)).
  { eapply triple_conseq; [apply t_ignore|done|]. intros. by eapply at_some. }
  destruct (bs_workers st !! identity) as [p|] eqn:Hk.
  - destruct (wf_workers st Hwf identity p Hk) as (w & Hp & Hid & Hs).
    destruct (beq (mm_Command m) WorkerReady); [by eapply t_disconnect|].
    destruct (beq (mm_Command m) WorkerReply).
    { tb (by apply (t_deref st p w)). tpure. tb apply t_client. tb apply t_now. tb apply t_now.
      tb apply t_upd. tb apply t_upd. set (st1 := mkState _ _ _ _ _ _).
      assert (Hwf1 : wf st1) by (by apply wf_totals, (wf_set_worker st p w)).
      tb (by apply t_getOrCreate). apply some_at. intros st2 (Hwf2 & [s2 Hs2] & Hw2 & Hh2 & _).
      eapply triple_conseq; [by apply t_upd_service|done|]. intros ? b Hb'. eapply at_some; [|exact Hb'].
      apply wf_to_available; [done..|]. eexists. rewrite Hh2, Hw2. cbn. rewrite lookup_insert_eq. repeat split.
      cbn. by rewrite Hid. }
    destruct (beq (mm_Command m) WorkerHeartbeat).
    { tb apply t_now. tb apply t_now. tb (by apply (t_deref st p w)). tpure.
      eapply triple_conseq; [apply t_upd|done|]. intros ? b Hb'. eapply at_some; [|exact Hb'].
      by apply (wf_set_worker st p w). }
    destruct (beq (mm_Command m) WorkerDisconnect); [by eapply t_disconnect|]. tret. by eapply at_some.
  - destruct (beq (mm_Command m) WorkerReady); [by apply t_ready|].
    destruct (beq (mm_Command m) WorkerReply); [done|].
    destruct (beq (mm_Command m) WorkerHeartbeat); [done|].
    destruct (beq (mm_Command m) WorkerDisconnect); tret; by eapply at_some.
Qed.

(** A message from a client. *)
Lemma t_client_message st fuel identity frames :
  wf st → enough fuel (size (bs_workers st)) →
  triple (at_ st) (processClientMessage clock net range_w fuel identity frames) (fun _ => some_state wf).
Proof.
  intros Hwf Hf. unfold processClientMessage. tb apply t_now.
  destruct (ParseClientMessage a frames) as [m|e|p] eqn:Hparse.
  2: { tret. by eapply at_some. }
  2: { exfalso. revert Hparse. apply ParseClient_no_panic. }
  tb (by apply t_getOrCreate). apply some_at. intros st1 (Hwf1 & [s Hs] & Hw1 & _).
  eapply triple_bind; [apply triple_get|]. intros b1. cbv beta zeta. intros b2 [<- [Hb Hl]].
  rewrite Hl. rewrite (M_bind_ret (mret tt) _ b1 tt b1) by done.
  match goal with |- match ?m b1 with _ => _ end => enough (Ht : triple (at_ st1) m (fun _ => some_state wf)) by (apply Ht; by split) end.
  tb apply t_now. tb (by apply t_upd_service). tb apply t_upd.
  apply t_dispatch; [|cbn; rewrite lookup_insert_eq; eauto|cbn; by rewrite Hw1].
  apply wf_totals. destruct (wf_services st1 Hwf1 _ s Hs) as (_ & ? & ? & _). by apply (wf_set_service st1 _ s).
Qed.

Lemma t_message st fuel frames :
  wf st → enough fuel (size (bs_workers st)) →
  triple (at_ st) (processMessage clock net range_w fuel frames) (fun _ => some_state wf).
Proof.
  intros Hwf Hf. assert (Hret : triple (at_ st) (mret tt) (fun _ => some_state wf)) by (tret; by eapply at_some).
  unfold processMessage. destruct frames as [|sender frames]; [done|]. case_decide; [done|].
  destruct (analyzeMessageStructure _) as [[t pf] mf]. case_decide; [done|].
  destruct (beq pf WorkerProtocol); [by apply t_worker|].
  destruct (beq pf ClientProtocol); [by apply t_client_message|done].
Qed.

Lemma t_heartbeats st : wf st → triple (at_ st) (sendHeartbeats clock net range_w) (fun _ => some_state wf).
Proof.
  intros Hwf. eapply triple_bind; [apply triple_get|]. intros b1. cbv beta. intros b2 [<- [Hb Hl]].
  rewrite Hb.
  match goal with |- match ?m b1 with _ => _ end => enough (Ht : triple (at_ st) m (fun _ => some_state wf)) by (apply Ht; by split) end.
  assert (Hall : ∀ p, p ∈ (range_w (bs_workers st)).*2 → is_Some (bs_heap st !! p)).
  { intros p Hin%list_elem_of_fmap. destruct Hin as ([k q] & -> & Hin).
    rewrite (range_order_elem range_w _ k q Hrw) in Hin. destruct (wf_workers st Hwf k q Hin) as (w & ? & _). eauto. }
  eapply triple_conseq; [apply (t_forM (fun st' l => st' = st ∧ ∀ p, p ∈ l → is_Some (bs_heap st !! p)))|done|].
  - intros p l st' [-> Hin]. destruct (Hin p) as [w Hw]; [left|]. tb (by apply (t_deref st p w)). tpure.
    eapply triple_conseq; [apply t_ignore|done|]. intros ? b Hb'. eapply at_some; [|exact Hb'].
    split; [done|]. intros q Hq. apply Hin. by right.
  - done.
  - intros ? b [[E _] ?]. split; [by rewrite E|done].
Qed.

(** The entries of the worker map still to be visited by the cleanup loop. *)
Definition to_visit (st : brokerState) (l : list (bytes * wptr)) : Prop :=
  wf st ∧ NoDup l.*1 ∧ ∀ k p, (k, p) ∈ l → bs_workers st !! k = Some p.

Lemma to_visit_tail st k p l : to_visit st ((k, p) :: l) → to_visit st l.
Proof.
  intros (Hwf & Hnd & Hl). apply NoDup_cons in Hnd as [_ Hnd]. split; [done|]. split; [done|].
  intros. apply Hl. by right.
Qed.

Lemma forget_workers k p n st : bs_workers (forget_worker k p n st) = delete k (bs_workers st).
Proof. unfold forget_worker. by destruct (bs_services st !! n). Qed.

Lemma t_cleanup_worker key p l st :
  to_visit st ((key, p) :: l) →
  triple (at_ st)
    (expired ← BrokerWorker_IsExpired clock p;
     if (expired : bool) then w ← deref p; upd_state (forget_worker key p (bw_Service w)) else mret tt)
    (fun _ => some_state (fun st' => to_visit st' l)).
Proof.
  intros Hv. pose proof Hv as (Hwf & Hnd & Hl). pose proof (Hl key p ltac:(left)) as Hk.
  destruct (wf_workers st Hwf key p Hk) as (w & Hp & _). tb (by eapply t_expired).
  match goal with |- triple _ (if ?e then _ else _) _ => destruct e end.
  - tb (by apply (t_deref st p w)). tpure. eapply triple_conseq; [apply t_upd|done|].
    intros ? b Hb. eapply at_some; [|exact Hb]. split; [by apply wf_forget|].
    apply NoDup_cons in Hnd as [Hnin Hnd]. split; [done|]. intros k q Hkq. rewrite forget_workers.
    rewrite lookup_delete_ne; [apply Hl; by right|]. intros ->. apply Hnin.
    by apply (list_elem_of_fmap_2 fst _ (k, q)).
  - tret. eapply at_some; [|done]. by eapply to_visit_tail.
Qed.

Lemma t_cleanup st : wf st → triple (at_ st) (cleanup clock range_w range_s) (fun _ => some_state wf).
Proof.
  intros Hwf. eapply triple_bind; [apply triple_get|]. intros b1. cbv beta. intros b2 [<- [Hb Hl]]. rewrite Hb.
  match goal with |- match ?m b1 with _ => _ end => enough (Ht : triple (at_ st) m (fun _ => some_state wf)) by (apply Ht; by split) end.
  clear b1 Hb Hl. tb (apply (t_forM to_visit); [intros [k p] l st' Hv; by apply t_cleanup_worker|];
    split; [done|]; split; [by apply range_order_NoDup|]; intros k p; by rewrite (range_order_elem range_w)).
  apply some_at. intros st1 (Hwf1 & _).
  eapply triple_bind; [apply triple_get|]. intros b1. cbv beta. intros b2 [<- [Hb Hl]]. rewrite Hb.
  match goal with |- match ?m b1 with _ => _ end => enough (Ht : triple (at_ st1) m (fun _ => some_state wf)) by (apply Ht; by split) end.
  eapply triple_conseq; [apply (t_forM (fun st' l => wf st' ∧ ∀ n, n ∈ l → is_Some (bs_services st' !! n)))|done|].
  - intros n l st2 [Hwf2 Hn]. destruct (Hn n) as [s Hs]; [left|]. tb (by apply t_service). tpure.
    tb (apply t_filter; intros r Hr; tb (unfold PendingRequest_IsExpired; tb apply t_now;
          eapply triple_conseq; [apply triple_ret|done|]; intros ? ? [_ H']; exact H');
        eapply triple_conseq; [apply triple_ret|done|]; intros ? ? [_ H']; exact H').
    apply triple_pure. intros _. eapply triple_conseq; [by apply t_upd_service|done|].
    intros ? b Hb'. eapply at_some; [|exact Hb']. split.
    + destruct (wf_services st2 Hwf2 n s Hs) as (_ & ? & ? & _). by apply (wf_set_service st2 n s).
    + intros m Hm. cbn. destruct (decide (m = n)) as [->|?]; [rewrite lookup_insert_eq; eauto|].
      rewrite lookup_insert_ne by done. apply Hn. by right.
  - split; [done|]. intros n ([m s] & -> & Hin)%list_elem_of_fmap.
    rewrite (range_order_elem range_s _ m s Hrs) in Hin. eauto.
  - intros ? b [[? _] ?]. by split.
Qed.
End handlers.

(** ** Who can be registered *)

Section senders.
Context (clock : nat → Z) (net : list (list bytes * option error) → list bytes → option error).
Context (range_w : gmap bytes wptr → list (bytes * wptr)).
Context (range_s : gmap ServiceName Service → list (ServiceName * Service)).
Context (X : gset bytes).

(** Only members of [X] are registered. *)
Definition only_from (st : brokerState) : Prop := dom (bs_workers st) ⊆ X.
Local Abbreviation P := (fun b => only_from (b_state b)).

Lemma keeps_upd_workers f : (∀ st, bs_workers (f st) = bs_workers st) → keeps P (upd_state f).
Proof. intros H. apply keeps_update. intros st. unfold only_from. by rewrite H. Qed.

Lemma keeps_upd_service_workers m f : keeps P (upd_service m f).
Proof. unfold upd_service. apply keeps_bind; [apply keeps_service_of|]. intros s. by apply keeps_upd_workers. Qed.

Lemma keeps_getOrCreate_workers m : keeps P (getOrCreateService m).
Proof. unfold getOrCreateService. keeps_tac; by apply keeps_upd_workers. Qed.

Lemma keeps_forget_workers k p n : keeps P (upd_state (forget_worker k p n)).
Proof. apply keeps_update. intros st. unfold only_from. rewrite forget_workers. set_solver. Qed.

Lemma keeps_register id f :
  id ∈ X → (∀ st, ∃ p, bs_workers (f st) = <[id := p]> (bs_workers st)) → keeps P (upd_state f).
Proof.
  intros Hid Hf. apply keeps_update. intros st. unfold only_from. destruct (Hf st) as [p ->]. set_solver.
Qed.

#[local] Hint Resolve keeps_upd_service_workers keeps_getOrCreate_workers keeps_forget_workers : keeps.
#[local] Hint Extern 1 (keeps _ (upd_state _)) => apply keeps_upd_workers; intros; reflexivity : keeps.
#[local] Hint Extern 2 (keeps _ (upd_state _)) => eapply keeps_register; [eassumption|intros; eexists; reflexivity] : keeps.

Lemma keeps_worker_message id frames : id ∈ X → keeps P (processWorkerMessage clock net id frames).
Proof. intros Hid. unfold processWorkerMessage, disconnectWorker, moveWorkerToAvailable. keeps_tac. Qed.

Lemma keeps_dispatch_loop fuel n : keeps P (dispatch_loop clock net fuel n).
Proof. induction fuel; cbn [dispatch_loop]; unfold moveWorkerToBusy, moveWorkerToAvailable; keeps_tac. Qed.
#[local] Hint Resolve keeps_dispatch_loop : keeps.

Lemma keeps_client_message fuel id frames : keeps P (processClientMessage clock net range_w fuel id frames).
Proof. unfold processClientMessage, dispatchRequests. keeps_tac; (apply keeps_filterM || apply keeps_forM); keeps_tac. Qed.

Lemma keeps_cleanup : keeps P (cleanup clock range_w range_s).
Proof. unfold cleanup. keeps_tac; apply keeps_forM; keeps_tac; apply keeps_filterM; keeps_tac. Qed.

Lemma keeps_heartbeats : keeps P (sendHeartbeats clock net range_w).
Proof. unfold sendHeartbeats. keeps_tac. apply keeps_forM. keeps_tac. Qed.
End senders.

(** ** The invariant, for every history *)

(** What the broker's goroutines do to its state, one handler at a time. *)
Inductive brokerOp : Type :=
| OpMessage (frames : list bytes)
| OpCleanup
| OpHeartbeats
| OpSetHeartbeat (liveness interval : Z)
| OpSetRequestTimeout (timeout : Z).

Section histories.
Context (clock : nat → Z) (net : list (list bytes * option error) → list bytes → option error).
Context (range_w : gmap bytes wptr → list (bytes * wptr)).
Context (range_s : gmap ServiceName Service → list (ServiceName * Service)).

Definition run_op (fuel : nat) (o : brokerOp) : M Broker unit :=
  match o with
  | OpMessage frames => processMessage clock net range_w fuel frames
  | OpCleanup => cleanup clock range_w range_s
  | OpHeartbeats => sendHeartbeats clock net range_w
  | OpSetHeartbeat liveness interval => SetHeartbeat liveness interval
  | OpSetRequestTimeout timeout => SetRequestTimeout timeout
  end.

(** The identities that appear in a history. *)
Definition sender_of (o : brokerOp) : list bytes :=
  match o with OpMessage (sender :: _) => [sender] | _ => [] end.
Definition senders (ops : list brokerOp) : gset bytes := list_to_set (ops ≫= sender_of).

Lemma keeps_run_op X fuel o :
  (∀ x, x ∈ sender_of o → x ∈ X) → keeps (fun b => only_from X (b_state b)) (run_op fuel o).
Proof.
  intros Hx. destruct o as [frames| | | |]; cbn [run_op].
  - unfold processMessage. destruct frames as [|sender frames]; [keeps_tac|]. case_decide; [keeps_tac|].
    destruct (analyzeMessageStructure _) as [[t pf] mf]. case_decide; [keeps_tac|].
    destruct (beq pf WorkerProtocol); [apply keeps_worker_message, Hx; left|].
    destruct (beq pf ClientProtocol); [apply keeps_client_message|keeps_tac].
  - apply keeps_cleanup.
  - apply keeps_heartbeats.
  - by apply keeps_env.
  - by apply keeps_env.
Qed.

Lemma t_run_op F fuel o st :
  range_order range_w → range_order range_s → wf st → enough net F fuel (size (bs_workers st)) →
  triple F (at_ st) (run_op fuel o) (fun _ => some_state wf).
Proof.
  intros Hrw Hrs Hwf Hf. destruct o; cbn [run_op].
  - by apply t_message.
  - by apply t_cleanup.
  - by apply t_heartbeats.
  - intros b [Hb Hl]. split; [cbn; by rewrite Hb|done].
  - intros b [Hb Hl]. split; [cbn; by rewrite Hb|done].
Qed.

(** Any history: the state stays well-formed, and with enough fuel for one
    iteration per sender every handler returns. *)
Lemma t_history F fuel ops : ∀ X st,
  range_order range_w → range_order range_s → (∀ o x, o ∈ ops → x ∈ sender_of o → x ∈ X) →
  enough net F fuel (size X) → wf st → only_from X st →
  triple F (at_ st) (forM (run_op fuel) ops) (fun _ => some_state wf).
Proof.
  intros X st Hrw Hrs HX Hf Hwf Hdom.
  eapply triple_conseq; [apply (t_forM F (fun st l => wf st ∧ only_from X st ∧ ∀ o, o ∈ l → o ∈ ops))|done|].
  - intros o l st' (Hwf' & Hdom' & Hl).
    assert (Hsz : enough net F fuel (size (bs_workers st'))).
    { eapply enough_less; [|exact Hf]. rewrite <- size_dom. by apply subseteq_size. }
    eapply triple_conseq; [apply (triple_keeps _ _ _ _ (t_run_op F fuel o st' Hrw Hrs Hwf' Hsz) (keeps_run_op X fuel o (fun x => HX o x (Hl o (list_elem_of_here _ _)))))| |].
    + intros b [Hb Hlog]. split; [done|]. by rewrite Hb.
    + intros ? b [[Hw Hlog] Hd]. split; [|done]. split; [done|]. split; [done|]. intros. apply Hl. by right.
  - done.
  - intros ? b [(? & _) ?]. by split.
Qed.

(** C5. The broker's invariant: whatever messages arrive in whatever order,
    whichever sends fail, whatever the clock shows and however the maps are
    iterated, from a fresh broker with informational logging off (its log
    lines slice the identity of a worker) every history of handlers keeps the
    bookkeeping consistent: each worker is listed at most once, under its own
    service, only while it is registered, and the count of active workers is
    exact. No handler dereferences a nil pointer or indexes out of range; the
    only way not to return is the dispatch loop running for ever, and when the
    socket accepts what is sent every handler returns, each dispatch loop
    within as many iterations as identities have sent messages. *)
Theorem broker_invariant (fuel : nat) (ops : list brokerOp) (options : option BrokerOptions) :
  range_order range_w → range_order range_s →
  bo_LogInfo (default DefaultBrokerOptions options) = false →
  match forM (run_op fuel) ops (NewBroker options) with
  | (Ret _, b) => wf (b_state b)
  | (Fail _, _) => False
  | (Panic p, _) => p = "out of fuel"%string
  end ∧
  ((∀ h f, net h f = None) → (size (senders ops) <= fuel)%nat →
   ∃ b, forM (run_op fuel) ops (NewBroker options) = (Ret tt, b) ∧ wf (b_state b)).
Proof.
  intros Hrw Hrs Hl.
  assert (Hwf0 : wf (b_state (NewBroker options))).
  { split; cbn; [intros k p|intros n s]; by rewrite lookup_empty. }
  assert (HX : ∀ o x, o ∈ ops → x ∈ sender_of o → x ∈ senders ops).
  { intros o x Ho Hx. unfold senders. rewrite elem_of_list_to_set, list_elem_of_bind. eauto. }
  assert (Hd : only_from (senders ops) (b_state (NewBroker options))) by (unfold only_from; cbn; set_solver).
  split.
  - pose proof (t_history True fuel ops _ _ Hrw Hrs HX (or_introl I) Hwf0 Hd (NewBroker options) (conj eq_refl Hl)) as H.
    destruct (forM _ _ _) as [[| |] b]; [by destruct H|done|by destruct H].
  - intros Hnet Hf.
    pose proof (t_history False fuel ops _ _ Hrw Hrs HX (or_intror (conj Hnet Hf)) Hwf0 Hd (NewBroker options) (conj eq_refl Hl)) as H.
    destruct (forM _ _ _) as [[[]| |] b]; [exists b; by destruct H|done|by destruct H].
Qed.
End histories.

Definition ready_frames (id : string) (service : string) : list bytes :=
  gs id :: FormatWorkerMessage (mkMdp [] [] (gs service) [] WorkerReady [] [] 0).
Definition request_frames (id : string) (service body : string) : list bytes :=
  gs id :: FormatClientRequest (NewClientRequest 0 (gs service) (gs body)).

Definition example_history : list brokerOp :=
  [OpMessage (request_frames "c1" "echo" "hello"); OpMessage (ready_frames "w1" "echo");
   OpMessage (request_frames "c2" "echo" "world"); OpCleanup; OpHeartbeats].

Lemma broker_invariant_witness :
  ∃ b, forM (run_op (fun t => Z.of_nat t) (fun _ _ => None) map_to_list map_to_list 3) example_history (NewBroker None)
    = (Ret tt, b) ∧ wf (b_state b).
Proof.
  apply (broker_invariant (fun t => Z.of_nat t) (fun _ _ => None) map_to_list map_to_list 3 example_history None);
    [by intros m|by intros m|reflexivity|done|vm_compute; lia].
Defined.

(** ** Dispatching *)

(** The frames of a REQUEST to a worker. *)
Definition request_to (w : BrokerWorker) (r : PendingRequest) : list bytes :=
  bw_Identity w :: FormatWorkerMessage (NewWorkerMessage 0 WorkerRequest (pr_Client r) (pr_Body r)).

Definition worker_at (st : brokerState) (p : wptr) : BrokerWorker :=
  default (mkWorker [] [] [] [] 0 0 0 0) (bs_heap st !! p).

(** A service whose available workers exist and never expire on this clock. *)
Definition staffed (clock : nat → Z) (st : brokerState) (n : ServiceName) (s : Service) : Prop :=
  bs_services st !! n = Some s ∧
  ∀ p, p ∈ sv_AvailableWorkers s → ∃ w, bs_heap st !! p = Some w ∧ ∀ t, clock t <= bw_Expiry w.

Section dispatch.
Context (clock : nat → Z) (net : list (list bytes * option error) → list bytes → option error).

Lemma upd_service_eq n f s b :
  bs_services (b_state b) !! n = Some s →
  upd_service n f b = (Ret tt, set_state (set_service n (f s) (b_state b)) b).
Proof. intros H. unfold upd_service, service_of, mbind, M_bind. by rewrite H. Qed.

Lemma set_state_state st b : b_state (set_state st b) = st.
Proof. done. Qed.

Lemma set_service_twice n s s' st : set_service n s' (set_service n s st) = set_service n s' st.
Proof. unfold set_service. cbn. by rewrite insert_insert_eq. Qed.

Lemma lookup_set_service n s st : bs_services (set_service n s st) !! n = Some s.
Proof. cbn. by rewrite lookup_insert_eq. Qed.

Lemma set_service_same n s st : bs_services st !! n = Some s → set_service n s st = st.
Proof. intros H. unfold set_service. rewrite insert_id by done. by destruct st. Qed.

Lemma try_worker_eq id cmd addr body b :
  let frames := id :: FormatWorkerMessage (NewWorkerMessage 0 cmd addr body) in
  let r := net (b_sends b) frames in
  try (sendToWorker clock net id cmd addr body) b =
    (Ret (match r with None => inl tt | Some e => inr (Wrap "failed to send to worker" e) end),
     set_env (S (b_ticks b)) (b_sends b ++ [(frames, r)]) b).
Proof.
  cbv zeta. unfold try, sendToWorker, socket_Send, time_Now, wrapE, mbind, M_bind. cbn [b_sends b_ticks set_env].
  change (FormatWorkerMessage (NewWorkerMessage (clock (b_ticks b)) cmd addr body))
    with (FormatWorkerMessage (NewWorkerMessage 0 cmd addr body)).
  by destruct (net _ _).
Qed.

(** The filter keeps every worker that never expires, and only reads the clock. *)
Lemma alive_all l : ∀ b,
  (∀ p, p ∈ l → ∃ w, bs_heap (b_state b) !! p = Some w ∧ ∀ t, clock t <= bw_Expiry w) →
  filterM (fun w => e ← BrokerWorker_IsExpired clock w; mret (negb e)) l b =
    (Ret l, set_env (b_ticks b + length l) (b_sends b) b).
Proof.
  induction l as [|p l IH]; intros b Hl; cbn [filterM].
  - cbn. rewrite Nat.add_0_r. by destruct b.
  - destruct (Hl p ltac:(left)) as (w & Hp & Hw).
    rewrite (M_bind_ret _ _ _ true (set_env (S (b_ticks b)) (b_sends b) b)).
    + rewrite (M_bind_ret _ _ _ l (set_env (S (b_ticks b) + length l) (b_sends b) b));
        [cbn; by rewrite Nat.add_succ_r|].
      rewrite IH; [done|]. intros q Hq. apply Hl. by right.
    + unfold BrokerWorker_IsExpired, time_Now, deref, mbind, M_bind. cbn. rewrite Hp. cbn.
      specialize (Hw (b_ticks b)). by replace (bw_Expiry w <? clock (b_ticks b)) with false by (symmetry; apply Z.ltb_ge; lia).
Qed.

(** The service after the first [k] requests went to the first [k] workers. *)
Definition dispatched (k : nat) (s : Service) : Service :=
  set_requests (drop k (sv_Requests s))
    (set_lists (drop k (sv_AvailableWorkers s)) (sv_BusyWorkers s ++ take k (sv_AvailableWorkers s)) s).

Lemma remove_first_head p l : remove_first p (p :: l) = l.
Proof. cbn. by rewrite decide_True. Qed.

(** One iteration of the loop, up to the result of the send. *)
Lemma dispatch_step fuel n s b r rs p ps w :
  bs_services (b_state b) !! n = Some s → sv_Requests s = r :: rs → sv_AvailableWorkers s = p :: ps →
  bs_heap (b_state b) !! p = Some w →
  let s1 := set_lists ps (sv_BusyWorkers s ++ [p]) (set_requests rs s) in
  let res := net (b_sends b) (request_to w r) in
  let b1 := set_env (S (b_ticks b)) (b_sends b ++ [(request_to w r, res)])
              (set_state (set_service n s1 (b_state b)) b) in
  dispatch_loop clock net (S fuel) n b =
    match res with
    | None => dispatch_loop clock net fuel n b1
    | Some _ =>
        (moveWorkerToAvailable p n;;
         upd_service n (fun s => set_requests (r :: sv_Requests s) s);;
         dispatch_loop clock net fuel n) b1
    end.
Proof.
  intros Hn Hr Ha Hp. cbv zeta. cbn [dispatch_loop].
  rewrite (M_bind_ret _ _ _ s b) by (unfold service_of; by rewrite Hn). rewrite Hr, Ha.
  rewrite (M_bind_ret _ _ _ tt _ (upd_service_eq n _ s b Hn)).
  erewrite M_bind_ret; [|apply upd_service_eq; rewrite set_state_state; apply lookup_set_service].
  rewrite set_state_state, set_service_twice. cbn [sv_AvailableWorkers sv_BusyWorkers set_requests].
  rewrite Ha, remove_first_head.
  erewrite (M_bind_ret _ _ _ w); [|unfold deref; cbn; by rewrite Hp].
  erewrite M_bind_ret; [|apply try_worker_eq]. cbn [b_sends set_state set_env].
  fold (request_to w r). by destruct (net (b_sends b) (request_to w r)).
Qed.

Lemma dispatch_loop_done fuel n s b :
  bs_services (b_state b) !! n = Some s → sv_Requests s = [] ∨ sv_AvailableWorkers s = [] →
  dispatch_loop clock net fuel n b = (Ret tt, b).
Proof.
  intros Hn H. destruct fuel; cbn [dispatch_loop];
    (rewrite (M_bind_ret _ _ _ s b) by (unfold service_of; by rewrite Hn));
    destruct H as [-> | ->]; try done; by destruct (sv_Requests s).
Qed.

Lemma dispatched_0 s : dispatched 0 s = s.
Proof. unfold dispatched. destruct s. cbn. by rewrite !drop_0, app_nil_r. Qed.

Lemma set_env_id b : set_env (b_ticks b) (b_sends b) b = b.
Proof. by destruct b. Qed.
Lemma set_state_id b : set_state (b_state b) b = b.
Proof. by destruct b. Qed.

Lemma dispatch_loop_accepting n fuel : ∀ b s,
  (∀ h f, net h f = None) → staffed clock (b_state b) n s →
  let k := Nat.min (length (sv_Requests s)) (length (sv_AvailableWorkers s)) in
  (k <= fuel)%nat →
  dispatch_loop clock net fuel n b =
    (Ret tt, set_env (b_ticks b + k)
       (b_sends b ++ zip_with (fun p r => (request_to (worker_at (b_state b) p) r, None))
                       (sv_AvailableWorkers s) (sv_Requests s))
       (set_state (set_service n (dispatched k s) (b_state b)) b)).
Proof.
  induction fuel as [|fuel IH]; intros b s Hnet [Hn Hst] k Hk.
  all: destruct (decide (k = 0%nat)) as [Hk0|Hk0].
  1,3: assert (Hz : sv_Requests s = [] ∨ sv_AvailableWorkers s = [])
         by (subst k; destruct (sv_Requests s), (sv_AvailableWorkers s); cbn in *; auto; lia);
       rewrite (dispatch_loop_done _ n s b Hn Hz), Hk0, dispatched_0, Nat.add_0_r, set_service_same, set_state_id by done;
       replace (zip_with _ _ _) with ([] : list (list bytes * option error))
         by (destruct Hz as [-> | ->]; by destruct (sv_AvailableWorkers s));
       by rewrite app_nil_r, set_env_id.
  1: lia.
  destruct (sv_Requests s) as [|r rs] eqn:Hr; [done|]. destruct (sv_AvailableWorkers s) as [|p ps] eqn:Ha; [done|].
  subst k. cbn in Hk. cbn [length Nat.min zip_with].
  destruct (Hst p ltac:(left)) as (w & Hp & _).
  rewrite (dispatch_step fuel n s b r rs p ps w Hn Hr Ha Hp), Hnet.
  set (s1 := set_lists ps (sv_BusyWorkers s ++ [p]) (set_requests rs s)).
  match goal with |- dispatch_loop _ _ _ _ ?b1 = _ => specialize (IH b1 s1 Hnet) end.
  rewrite IH; [| |cbn; lia].
  - cbn [sv_Requests sv_AvailableWorkers s1 set_lists set_requests b_ticks b_sends b_state set_env set_state].
    assert (Hd : dispatched (Nat.min (length rs) (length ps)) s1 = dispatched (S (Nat.min (length rs) (length ps))) s).
    { unfold dispatched. rewrite Hr, Ha. unfold s1, set_requests, set_lists. cbn. by rewrite <- app_assoc. }
    unfold set_env, set_state. cbn. rewrite set_service_twice, Hd.
    rewrite Nat.add_succ_r, <- app_assoc. unfold worker_at at 2. rewrite Hp. done.
  - split; [cbn; by rewrite lookup_insert_eq|]. intros q Hq. cbn. apply Hst. by right.
Qed.

(** A service that keeps work and workers when every send fails. *)
Lemma dispatch_loop_refusing n fuel : ∀ b s,
  (∀ h f, net h f ≠ None) → bs_services (b_state b) !! n = Some s →
  (∀ p, p ∈ sv_AvailableWorkers s → is_Some (bs_heap (b_state b) !! p)) →
  sv_Requests s ≠ [] → sv_AvailableWorkers s ≠ [] →
  (dispatch_loop clock net fuel n b).1 = Panic "out of fuel".
Proof.
  induction fuel as [|fuel IH]; intros b s Hnet Hn Hh Hr0 Ha0;
    destruct (sv_Requests s) as [|r rs] eqn:Hr; [done| |done|];
    destruct (sv_AvailableWorkers s) as [|p ps] eqn:Ha; [done| |done|].
  - cbn [dispatch_loop]. rewrite (M_bind_ret _ _ _ s b) by (unfold service_of; by rewrite Hn). by rewrite Hr, Ha.
  - destruct (Hh p ltac:(left)) as [w Hp].
    rewrite (dispatch_step fuel n s b r rs p ps w Hn Hr Ha Hp).
    destruct (net _ _) eqn:E; [|by apply Hnet in E]. cbv iota.
    erewrite M_bind_ret; [|apply upd_service_eq; cbn; by rewrite lookup_insert_eq].
    erewrite M_bind_ret; [|apply upd_service_eq; cbn; by rewrite lookup_insert_eq].
    eapply IH; [done|cbn; by rewrite lookup_insert_eq| | |].
    + intros q. cbn. unfold isWorkerInAvailableList. case_bool_decide; cbn.
      * intros Hq. apply Hh. by right.
      * rewrite elem_of_app, list_elem_of_singleton. intros [Hq| ->]; [apply Hh; by right|eauto].
    + cbn. by destruct (isWorkerInAvailableList _ _).
    + cbn. unfold isWorkerInAvailableList. case_bool_decide as Hin; cbn in *; [by destruct ps; [set_solver|]|].
      by destruct ps.
Qed.

(** With a staffed service [dispatchRequests] is its loop, a few ticks later. *)
Lemma dispatch_staffed fuel n s b :
  staffed clock (b_state b) n s →
  dispatchRequests clock net fuel n b =
    dispatch_loop clock net fuel n (set_env (b_ticks b + length (sv_AvailableWorkers s)) (b_sends b) b).
Proof.
  intros [Hn Hst]. unfold dispatchRequests.
  rewrite (M_bind_ret _ _ _ s b) by (unfold service_of; by rewrite Hn).
  rewrite (M_bind_ret _ _ _ _ _ (alive_all (sv_AvailableWorkers s) b Hst)).
  erewrite M_bind_ret; [|apply upd_service_eq; exact Hn].
  cbv beta. replace (set_lists (sv_AvailableWorkers s) (sv_BusyWorkers s) s) with s by (by destruct s).
  cbn [b_state set_env]. by rewrite set_service_same.
Qed.
End dispatch.

(** C6. Dispatching: with a socket that accepts every send and workers that
    do not expire meanwhile, [dispatchRequests] returns and hands the oldest
    pending requests to the longest waiting workers, in order, one request
    per worker: exactly the first [k] of each, [k] being the smaller of the
    two counts. Those workers become busy, the rest keep waiting, nothing
    else changes, and [k] iterations of the loop are enough. *)
Theorem dispatch_fifo (clock : nat → Z) (net : list (list bytes * option error) → list bytes → option error)
    (fuel : nat) (n : ServiceName) (s : Service) (b : Broker) :
  (∀ h f, net h f = None) → staffed clock (b_state b) n s →
  let k := Nat.min (length (sv_Requests s)) (length (sv_AvailableWorkers s)) in
  (k <= fuel)%nat →
  ∃ b', dispatchRequests clock net fuel n b = (Ret tt, b') ∧
    b_state b' = set_service n (dispatched k s) (b_state b) ∧
    b_sends b' = b_sends b ++
      zip_with (fun p r => (request_to (worker_at (b_state b) p) r, None))
        (sv_AvailableWorkers s) (sv_Requests s).
Proof.
  intros Hnet Hst k Hk. rewrite (dispatch_staffed clock net fuel n s b Hst).
  eexists. split; [by apply (dispatch_loop_accepting clock net n fuel _ s)|]. done.
Qed.

(** A broker with one service, two requests and one worker. *)
Definition one_worker : Broker :=
  set_state (mkState
    {[gs "echo" := mkService (gs "echo")
        [mkRequest (gs "c1") (gs "echo") (gs "a") 0; mkRequest (gs "c2") (gs "echo") (gs "b") 0] [7%nat] [] 2 0 1]}
    {[gs "w1" := 7%nat]} {[7%nat := mkWorker (gs "w1") (gs "echo") (gs "w1") (gs "w1") 100 0 0 0]} 1 2 0)
    (NewBroker None).

Lemma one_worker_staffed :
  staffed (fun _ => 5) (b_state one_worker) (gs "echo")
    (mkService (gs "echo")
      [mkRequest (gs "c1") (gs "echo") (gs "a") 0; mkRequest (gs "c2") (gs "echo") (gs "b") 0] [7%nat] [] 2 0 1).
Proof.
  split; [reflexivity|]. cbn. intros p Hp. apply list_elem_of_singleton in Hp as ->.
  eexists. split; [reflexivity|]. cbn. lia.
Qed.

Lemma dispatch_fifo_witness :
  ∃ b', dispatchRequests (fun _ => 5) (fun _ _ => None) 3 (gs "echo") one_worker = (Ret tt, b') ∧
    b_sends b' = [([gs "w1"; []; WorkerProtocol; WorkerRequest; gs "c1"; []; gs "a"], None)].
Proof.
  destruct (dispatch_fifo (fun _ => 5) (fun _ _ => None) 3 (gs "echo") _ one_worker
    (fun _ _ => eq_refl) one_worker_staffed ltac:(cbn; lia)) as (b' & H1 & _ & H3).
  exists b'. split; [exact H1|]. rewrite H3. vm_compute. reflexivity.
Defined.

(** A failing socket: while every send fails, [dispatchRequests] puts the
    request and the worker back and tries again, and never returns: no fuel
    is enough. It runs with the broker's mutex held. *)
Theorem dispatch_diverges (clock : nat → Z) (net : list (list bytes * option error) → list bytes → option error)
    (fuel : nat) (n : ServiceName) (s : Service) (b : Broker) :
  (∀ h f, net h f ≠ None) → staffed clock (b_state b) n s →
  sv_Requests s ≠ [] → sv_AvailableWorkers s ≠ [] →
  (dispatchRequests clock net fuel n b).1 = Panic "out of fuel".
Proof.
  intros Hnet Hst Hr Ha. rewrite (dispatch_staffed clock net fuel n s b Hst). destruct Hst as [Hn Hh].
  apply (dispatch_loop_refusing clock net n fuel _ s); try done.
  intros p Hp. destruct (Hh p Hp) as (w & Hw & _). exists w. exact Hw.
Qed.

Lemma dispatch_diverges_witness :
  (dispatchRequests (fun _ => 5) (fun _ _ => Some (Errorf "no route")) 100 (gs "echo") one_worker).1
  = Panic "out of fuel".
Proof.
  exact (dispatch_diverges (fun _ => 5) (fun _ _ => Some (Errorf "no route")) 100 (gs "echo") _ one_worker
    (fun _ _ (H : Some _ = None) => match H with end) one_worker_staffed ltac:(done) ltac:(done)).
Defined.

(** ** Worker messages and pending requests *)

Definition pending (b : Broker) (n : ServiceName) : list PendingRequest :=
  default [] (sv_Requests <$> bs_services (b_state b) !! n).

Section pending.
Context (clock : nat → Z) (net : list (list bytes * option error) → list bytes → option error).
Context (n : ServiceName) (rs : list PendingRequest).
Let Q (st : brokerState) : Prop := default [] (sv_Requests <$> bs_services st !! n) = rs.
Local Abbreviation P := (fun b => Q (b_state b)).

(** An update that changes no list of requests. *)
Lemma keeps_upd_state f :
  (∀ st, sv_Requests <$> bs_services (f st) !! n = sv_Requests <$> bs_services st !! n) → keeps P (upd_state f).
Proof. intros H b Hb. unfold Q in *. cbn. by rewrite H. Qed.

Lemma keeps_upd_service m f : (∀ s, sv_Requests (f s) = sv_Requests s) → keeps P (upd_service m f).
Proof.
  intros H b Hb. unfold upd_service, service_of, mbind, M_bind.
  destruct (bs_services (b_state b) !! m) as [s|] eqn:E; [|done]. unfold Q in *. cbn.
  destruct (decide (m = n)) as [->|?]; [|by rewrite lookup_insert_ne].
  rewrite lookup_insert_eq. cbn. rewrite H. by rewrite E in Hb.
Qed.

Lemma keeps_getOrCreate m : keeps P (getOrCreateService m).
Proof.
  intros b Hb. unfold getOrCreateService, mget, mbind, M_bind.
  destruct (bs_services (b_state b) !! m) as [s|] eqn:E; [done|]. unfold Q in *. cbn.
  destruct (decide (m = n)) as [->|?]; [|by rewrite lookup_insert_ne]. rewrite lookup_insert_eq. by rewrite E in Hb.
Qed.

Lemma keeps_forget k p m : keeps P (upd_state (forget_worker k p m)).
Proof.
  apply keeps_upd_state. intros st. unfold forget_worker. destruct (bs_services st !! m) as [s|] eqn:E; [|done]. cbn.
  destruct (decide (m = n)) as [->|?]; [|by rewrite lookup_insert_ne]. by rewrite lookup_insert_eq, E.
Qed.
#[local] Hint Resolve keeps_getOrCreate keeps_forget : keeps.

Lemma keeps_disconnect p send : keeps P (disconnectWorker clock net p send).
Proof. unfold disconnectWorker. keeps_tac. Qed.
#[local] Hint Resolve keeps_disconnect : keeps.
#[local] Hint Extern 1 (keeps _ (upd_state _)) => apply keeps_upd_state; intros; reflexivity : keeps.
#[local] Hint Extern 1 (keeps _ (upd_service _ _)) => apply keeps_upd_service; intros; repeat case_match; reflexivity : keeps.

Lemma keeps_processWorker id frames : keeps P (processWorkerMessage clock net id frames).
Proof. unfold processWorkerMessage, moveWorkerToAvailable. keeps_tac. Qed.
End pending.

(** Worker messages do not move requests: whatever a worker sends,
    READY and REPLY included, the pending requests of every service are the
    same afterwards. A worker that becomes available is given nothing to do
    until the next client message for its service arrives. *)
Theorem worker_message_keeps_pending (clock : nat → Z)
    (net : list (list bytes * option error) → list bytes → option error)
    (identity : bytes) (frames : list bytes) (b : Broker) (n : ServiceName) :
  pending (processWorkerMessage clock net identity frames b).2 n = pending b n.
Proof. by apply (keeps_processWorker clock net n (pending b n)). Qed.

(** ** Message analysis *)

Lemma split_loop_part part rest : envelope part → ∀ cur,
  split_loop (part ++ rest) cur = split_loop rest (cur ++ part).
Proof.
  induction 1 as [|f part Hf _ IH]; intros cur; cbn [app split_loop]; [by rewrite app_nil_r|].
  rewrite decide_False by (by rewrite len_nil_iff). rewrite IH. by rewrite <- app_assoc.
Qed.

Lemma split_loop_last part cur :
  envelope part → split_loop part cur = match cur ++ part with [] => [] | l => [l] end.
Proof. intros H. rewrite <- (app_nil_r part) at 1. rewrite split_loop_part by done. cbn. by destruct (cur ++ part). Qed.

Lemma split_loop_sep cur rest :
  split_loop ([] :: rest) cur = match cur with [] => [] | l => [l] end ++ split_loop rest [].
Proof. by destruct cur. Qed.

(** An empty frame and one part, or two parts with a separator between them. *)
Lemma split_one p1 : envelope p1 → p1 ≠ [] → splitOnSeparators ([] :: p1) = [p1].
Proof.
  intros H1 Hne. unfold splitOnSeparators. rewrite split_loop_sep, split_loop_last by done. by destruct p1.
Qed.

Lemma split_two p1 p2 :
  envelope p1 → envelope p2 → p1 ≠ [] → p2 ≠ [] → splitOnSeparators ([] :: p1 ++ [] :: p2) = [p1; p2].
Proof.
  intros H1 H2 Hne1 Hne2. unfold splitOnSeparators. rewrite split_loop_sep, split_loop_part by done.
  rewrite split_loop_sep, split_loop_last by done. by destruct p1, p2.
Qed.

(** Routing of a message whose parts are known. *)
Lemma detect_worker part p2 :
  let parts := (WorkerProtocol :: part) :: p2 in
  detect_parts parts parts = Some (messageTypeWorker, WorkerProtocol,
    [[]] ++ (WorkerProtocol :: part) ++ (p2 ≫= fun q => [[]] ++ q)).
Proof. cbv zeta. cbn [detect_parts]. change (beq WorkerProtocol WorkerProtocol) with true. done. Qed.

Lemma detect_client part p2 :
  let parts := (ClientProtocol :: part) :: p2 in
  detect_parts parts parts = Some (messageTypeClient, ClientProtocol, [[]] ++ ClientProtocol :: part).
Proof. cbv zeta. done. Qed.

Lemma opt_frame_envelope b : envelope (opt_frame b).
Proof. unfold opt_frame. case_decide as H; repeat constructor. intros ->. done. Qed.

(** The frames of a worker message without routing envelope, in two parts. *)
Lemma FormatWorker_parts m :
  sendable m → mm_RoutingEnvelope m = [] →
  ∃ part, envelope part ∧
    if decide (mm_Command m = WorkerRequest ∨ mm_Command m = WorkerReply)
    then FormatWorkerMessage m = [] :: (WorkerProtocol :: part) ++ [] :: opt_frame (mm_Body m)
    else FormatWorkerMessage m = [] :: WorkerProtocol :: part.
Proof.
  intros (Hin & _ & Hc & Hr) Hroute. unfold FormatWorkerMessage. rewrite Hroute. fold (client_envelope m).
  assert (Hcmd : mm_Command m ≠ []) by (clear -Hin; intros E; rewrite E in Hin; set_solver).
  case_decide as Hd.
  - exists (mm_Command m :: client_envelope m). split; [by constructor|].
    destruct Hd as [-> | ->]; reflexivity.
  - exists (mm_Command m :: if beq (mm_Command m) WorkerReady then opt_frame (mm_Service m) else []). split.
    { constructor; [done|]. destruct (beq _ _); [apply opt_frame_envelope|constructor]. }
    assert (Hc5 : mm_Command m = WorkerReady ∨ mm_Command m = WorkerHeartbeat ∨ mm_Command m = WorkerDisconnect)
      by (clear -Hin Hd; set_solver).
    by destruct Hc5 as [-> |[-> | ->]].
Qed.

Lemma detect_worker_frames m :
  sendable m → mm_RoutingEnvelope m = [] →
  (mm_Command m = WorkerRequest ∨ mm_Command m = WorkerReply → mm_Body m ≠ []) →
  detectMessageType (FormatWorkerMessage m) = (messageTypeWorker, WorkerProtocol, FormatWorkerMessage m) ∧
  2 <= len (FormatWorkerMessage m).
Proof.
  intros Hs Hr Hb. destruct (FormatWorker_parts m Hs Hr) as (part & Hp & Hf).
  assert (He : envelope (WorkerProtocol :: part)) by (by constructor).
  pose proof (len_nonneg part). unfold detectMessageType. case_decide as Hd.
  - rewrite Hf. assert (Hbody : opt_frame (mm_Body m) = [mm_Body m]).
    { unfold opt_frame. rewrite decide_True; [done|]. specialize (Hb Hd). destruct (mm_Body m) as [|x l]; [done|].
      rewrite len_cons. pose proof (len_nonneg l). lia. }
    rewrite Hbody. rewrite len_cons, len_app, !len_cons. change (len []) with 0.
    split; [|lia]. rewrite decide_False by lia.
    rewrite split_two; [|done|rewrite <- Hbody; apply opt_frame_envelope|done|done].
    rewrite detect_worker. cbn. done.
  - rewrite Hf, !len_cons. split; [|lia]. rewrite decide_False by lia.
    rewrite split_one by done. rewrite detect_worker. cbn. by rewrite app_nil_r.
Qed.

(** Message analysis: the broker recognises what workers and clients
    send, whatever the sender's identity: a worker message whose body, in a
    REQUEST or REPLY, is not empty reaches [processWorkerMessage] with the
    frames the worker formatted, and a client request reaches
    [processClientMessage] with the frames the client formatted. *)
Theorem broker_classifies (clock : nat → Z)
    (net : list (list bytes * option error) → list bytes → option error)
    (range_w : gmap bytes wptr → list (bytes * wptr)) (fuel : nat)
    (sender service body : bytes) (m : mdpMessage) (now : Z) :
  (sendable m → mm_RoutingEnvelope m = [] →
   (mm_Command m = WorkerRequest ∨ mm_Command m = WorkerReply → mm_Body m ≠ []) →
   processMessage clock net range_w fuel (sender :: FormatWorkerMessage m) =
     processWorkerMessage clock net sender (FormatWorkerMessage m)) ∧
  (service ≠ [] →
   processMessage clock net range_w fuel (sender :: FormatClientRequest (NewClientRequest now service body)) =
     processClientMessage clock net range_w fuel sender (FormatClientRequest (NewClientRequest now service body))).
Proof.
  split.
  - intros Hs Hr Hb. destruct (detect_worker_frames m Hs Hr Hb) as [Hdet Hlen].
    unfold processMessage, analyzeMessageStructure.
    rewrite !(decide_False (P := len (_ :: _) < _)) by (rewrite len_cons; lia).
    change (drop 1 (sender :: FormatWorkerMessage m)) with (FormatWorkerMessage m). by rewrite Hdet.
  - intros Hs. set (frames := FormatClientRequest _).
    assert (Hf : frames = [] :: [ClientProtocol; cmdREQUEST; service] ++ opt_frame body) by done.
    assert (Hlen : 4 <= len frames) by (rewrite Hf; cbn [app]; rewrite !len_cons; pose proof (len_nonneg (opt_frame body)); lia).
    unfold processMessage, analyzeMessageStructure, detectMessageType.
    change (drop 1 (sender :: frames)) with frames.
    rewrite !(decide_False (P := len _ < _)) by (rewrite ?len_cons; lia).
    assert (Hsp : splitOnSeparators frames = [[ClientProtocol; cmdREQUEST; service] ++ opt_frame body]).
    { rewrite Hf. apply split_one; [|done]. repeat constructor; [done..|]. apply opt_frame_envelope. }
    rewrite Hsp. cbn [app]. by rewrite detect_client.
Qed.

Lemma broker_classifies_witness :
  processMessage (fun _ => 0) (fun _ _ => None) map_to_list 0
    (gs "w1" :: FormatWorkerMessage (mkMdp [] [] (gs "echo") [] WorkerReady [] [] 0)) =
  processWorkerMessage (fun _ => 0) (fun _ _ => None) (gs "w1")
    (FormatWorkerMessage (mkMdp [] [] (gs "echo") [] WorkerReady [] [] 0)).
Proof.
  refine (proj1 (broker_classifies (fun _ => 0) (fun _ _ => None) map_to_list 0 (gs "w1") [] []
    (mkMdp [] [] (gs "echo") [] WorkerReady [] [] 0) 0) _ _ _).
  - split; [set_solver|]. split; [constructor|]. split; [constructor|]. intros _. vm_compute. split; congruence.
  - reflexivity.
  - cbn. intros [H|H]; discriminate H.
Defined.

(** Empty replies are lost: the frames of a REPLY with an empty body end
    with the separator, which the broker's analysis drops; the rebuilt
    message has no separator, is refused by [ParseWorkerMessage], and nothing
    happens: nothing is sent to the client and the worker stays busy. *)
Theorem empty_reply_lost (clock : nat → Z)
    (net : list (list bytes * option error) → list bytes → option error)
    (range_w : gmap bytes wptr → list (bytes * wptr)) (fuel : nat)
    (sender client : bytes) (b : Broker) (now : Z) :
  processMessage clock net range_w fuel
    (sender :: FormatWorkerMessage (NewWorkerMessage now WorkerReply client [])) b =
  (Ret tt, set_env (S (b_ticks b)) (b_sends b) b).
Proof.
  set (frames := FormatWorkerMessage _).
  assert (Hf : frames = [] :: ([WorkerProtocol; WorkerReply] ++ opt_frame client) ++ [[]]) by done.
  assert (He : envelope ([WorkerProtocol; WorkerReply] ++ opt_frame client)).
  { repeat constructor; [done..|]. apply opt_frame_envelope. }
  assert (Hlen : 4 <= len frames).
  { rewrite Hf. cbn [app]. rewrite !len_cons, len_app. pose proof (len_nonneg (opt_frame client)). change (len [[]]) with 1. lia. }
  assert (Hdet : detectMessageType frames = (messageTypeWorker, WorkerProtocol,
                   [[]] ++ [WorkerProtocol; WorkerReply] ++ opt_frame client)).
  { unfold detectMessageType. rewrite decide_False by lia. rewrite Hf. unfold splitOnSeparators.
    rewrite split_loop_sep, split_loop_part by done. cbn [app split_loop]. rewrite (decide_True (P := len [] = 0)) by done.
    cbn [app]. rewrite detect_worker. cbn. by rewrite app_nil_r. }
  unfold processMessage, analyzeMessageStructure. rewrite !(decide_False (P := len (_ :: _) < _)) by (rewrite len_cons; lia).
  change (drop 1 (sender :: frames)) with frames. rewrite Hdet.
  rewrite decide_False by done. change (beq WorkerProtocol WorkerProtocol) with true. cbv iota.
  unfold processWorkerMessage. rewrite (M_bind_ret _ _ _ (clock (b_ticks b)) (set_env (S (b_ticks b)) (b_sends b) b)) by done.
  pose proof (ParseWorker_prefix (clock (b_ticks b)) [] WorkerReply (opt_frame client) ltac:(constructor)) as HP.
  cbv zeta in HP. cbn [app] in HP |- *. rewrite HP.
  change (beq WorkerReply WorkerReady) with false. change (beq WorkerReply WorkerRequest || beq WorkerReply WorkerReply) with true.
  cbv iota. case_decide; [done|].
  change (drop 2 (WorkerProtocol :: WorkerReply :: opt_frame client)) with (opt_frame client).
  by rewrite find_empty_none by apply opt_frame_envelope.
Qed.

(** Stopping and starting again: the stop channel is made once, in
    [NewBroker], so the second [Stop] closes it a second time and panics. *)
Lemma restart_panics (b : Broker) :
  b_running b = false → b_stopClosed b = false →
  (Broker_Start None;; Broker_Stop None;; Broker_Start None;; Broker_Stop None) b =
    (Panic "close of closed channel", set_running false true b).
Proof. intros H1 H2. unfold Broker_Start, Broker_Stop, mget, mupd, mbind, M_bind. rewrite H1. cbn. by rewrite H2. Qed.

(** A broker that was stopped starts again, but is deaf: its loops find the stop
    channel closed and return, whatever the socket receives. *)
Lemma restart_deaf clock net range_w fuel recv (b : Broker) :
  b_running b = false → b_stopClosed b = false →
  ∃ b', (Broker_Start None;; Broker_Stop None;; Broker_Start None) b = (Ret tt, b') ∧ b_running b' = true ∧
    messageLoop_turn clock net range_w fuel recv b' = (Ret false, b') ∧ heartbeatLoop_turn clock net range_w false b' = (Ret false, b').
Proof. intros H1 H2. unfold Broker_Start, Broker_Stop, mget, mupd, mbind, M_bind. rewrite H1. cbn. rewrite H2. by eexists. Qed.
