(* ===== verification/MdpWorker.v ===== *)
(** * MdpWorker: the Majordomo worker (src/majordomo/worker.go)

    A worker is three goroutines. The state manager owns the state and serves
    two queues of updates and one of queries; the worker's loop handles what
    the broker sends, asking the state manager for every decision; the socket
    manager writes what is queued for the broker. The state manager picks any
    queue that is ready, so a query may be answered before updates that were
    queued earlier: a schedule says, for each query, how many updates have
    been applied when it is answered, or that it is not answered in time. The
    model is of a worker that has not been stopped. *)

From Stdlib Require Import Strings.Byte ZArith Lia.
From stdpp Require Import base strings numbers gmap list.
From S2P Require Import Prelude Zmtp Mdp.

#[local] Open Scope Z_scope.
#[local] Set Default Goal Selector "!".

(** ** The state manager *)

Inductive stateUpdate : Type :=
| stateConnected
| stateDisconnected
| stateExpectReply (addr : bytes)
| stateReplyComplete
| stateSetLiveness (val : Z)
| stateDecreaseLiveness
| stateSetHeartbeatTime (val : Z)
| stateSetRunning (val : bool)
| stateSetSocketReady (val : bool)
| stateSetSocketClosed.

Inductive statsUpdate : Type := statsIncRequests | statsIncReplies | statsIncErrors | statsIncReconnects.

Record WorkerOptions : Type := mkWorkerOptions {
  wo_HeartbeatLiveness : Z;
  wo_HeartbeatInterval : Z;
  wo_ReconnectInterval : Z;
  wo_Security : bool }.

Definition DefaultWorkerOptions : WorkerOptions :=
  mkWorkerOptions DefaultHeartbeatLiveness DefaultHeartbeatInterval (2500 * 1000000) false.

(** The local variables of [stateManager]. *)
Record WorkerState : Type := mkWorkerState {
  ws_connected : bool;
  ws_running : bool;
  ws_expectReply : bool;
  ws_replyTo : bytes;
  ws_liveness : Z;
  ws_heartbeatAt : Z;
  ws_socketReady : bool;
  ws_requests : Z;
  ws_replies : Z;
  ws_errors : Z;
  ws_reconnects : Z }.

Definition set_ws_conn (connected socketReady : bool) (s : WorkerState) : WorkerState :=
  mkWorkerState connected (ws_running s) (ws_expectReply s) (ws_replyTo s) (ws_liveness s) (ws_heartbeatAt s) socketReady
    (ws_requests s) (ws_replies s) (ws_errors s) (ws_reconnects s).
Definition set_ws_expect (expectReply : bool) (replyTo : bytes) (s : WorkerState) : WorkerState :=
  mkWorkerState (ws_connected s) (ws_running s) expectReply replyTo (ws_liveness s) (ws_heartbeatAt s) (ws_socketReady s)
    (ws_requests s) (ws_replies s) (ws_errors s) (ws_reconnects s).
Definition set_ws_liveness (liveness : Z) (s : WorkerState) : WorkerState :=
  mkWorkerState (ws_connected s) (ws_running s) (ws_expectReply s) (ws_replyTo s) liveness (ws_heartbeatAt s) (ws_socketReady s)
    (ws_requests s) (ws_replies s) (ws_errors s) (ws_reconnects s).
Definition set_ws_heartbeatAt (heartbeatAt : Z) (s : WorkerState) : WorkerState :=
  mkWorkerState (ws_connected s) (ws_running s) (ws_expectReply s) (ws_replyTo s) (ws_liveness s) heartbeatAt (ws_socketReady s)
    (ws_requests s) (ws_replies s) (ws_errors s) (ws_reconnects s).
Definition set_ws_running (running : bool) (s : WorkerState) : WorkerState :=
  mkWorkerState (ws_connected s) running (ws_expectReply s) (ws_replyTo s) (ws_liveness s) (ws_heartbeatAt s) (ws_socketReady s)
    (ws_requests s) (ws_replies s) (ws_errors s) (ws_reconnects s).
Definition set_ws_stats (requests replies errors reconnects : Z) (s : WorkerState) : WorkerState :=
  mkWorkerState (ws_connected s) (ws_running s) (ws_expectReply s) (ws_replyTo s) (ws_liveness s) (ws_heartbeatAt s) (ws_socketReady s)
    requests replies errors reconnects.

Section Worker.
Context (opts : WorkerOptions).

Definition initial_state (now : Z) : WorkerState :=
  mkWorkerState false false false [] (wo_HeartbeatLiveness opts) (now + wo_HeartbeatInterval opts) false 0 0 0 0.

(** The [switch] over the updates; [now] is the clock when it is applied. *)
Definition apply_state (now : Z) (s : WorkerState) (u : stateUpdate) : WorkerState :=
  match u with
  | stateConnected =>
      set_ws_heartbeatAt (now + wo_HeartbeatInterval opts) (set_ws_liveness (wo_HeartbeatLiveness opts) (set_ws_conn true (ws_socketReady s) s))
  | stateDisconnected => set_ws_expect false [] (set_ws_conn false false s)
  | stateExpectReply addr => set_ws_expect true addr s
  | stateReplyComplete => set_ws_expect false [] s
  | stateSetLiveness val => set_ws_liveness val s
  | stateDecreaseLiveness => set_ws_liveness (wraps 64 (ws_liveness s - 1)) s
  | stateSetHeartbeatTime val => set_ws_heartbeatAt val s
  | stateSetRunning val => set_ws_running val s
  | stateSetSocketReady val => set_ws_conn (ws_connected s) val s
  | stateSetSocketClosed => set_ws_conn (ws_connected s) false s
  end.

Definition apply_stats (s : WorkerState) (u : statsUpdate) : WorkerState :=
  let '(a, b, c, d) := (ws_requests s, ws_replies s, ws_errors s, ws_reconnects s) in
  match u with
  | statsIncRequests => set_ws_stats (wrapu 64 (a + 1)) b c d s
  | statsIncReplies => set_ws_stats a (wrapu 64 (b + 1)) c d s
  | statsIncErrors => set_ws_stats a b (wrapu 64 (c + 1)) d s
  | statsIncReconnects => set_ws_stats a b c (wrapu 64 (d + 1)) s
  end.

(** ** The worker *)

Record workerMessage : Type := mkWorkerMessage { wm_command : bytes; wm_clientAddr : bytes; wm_body : bytes }.

(** Whether a query is answered in time, and how many of the queued updates
    the state manager has applied by then. *)
Inductive answer : Type := Answer (updates stats : nat) | NoAnswer.

Record Worker : Type := mkWorker {
  wk_state : WorkerState;
  wk_updates : list stateUpdate;
  wk_stats : list statsUpdate;
  wk_sendCh : list workerMessage;
  wk_recvCh : list (list bytes);
  wk_receiving : bool;
  wk_socket : bool;
  wk_managerID : Z;
  wk_closing : bool;
  wk_sent : list (list bytes);
  wk_schedule : list answer }.

Definition set_wk_queues (st : WorkerState) (us : list stateUpdate) (ss : list statsUpdate) (w : Worker) : Worker :=
  mkWorker st us ss (wk_sendCh w) (wk_recvCh w) (wk_receiving w) (wk_socket w) (wk_managerID w) (wk_closing w) (wk_sent w) (wk_schedule w).
Definition set_wk_sendCh (v : list workerMessage) (w : Worker) : Worker :=
  mkWorker (wk_state w) (wk_updates w) (wk_stats w) v (wk_recvCh w) (wk_receiving w) (wk_socket w) (wk_managerID w) (wk_closing w) (wk_sent w) (wk_schedule w).
Definition set_wk_recv (recvCh : list (list bytes)) (receiving : bool) (w : Worker) : Worker :=
  mkWorker (wk_state w) (wk_updates w) (wk_stats w) (wk_sendCh w) recvCh receiving (wk_socket w) (wk_managerID w) (wk_closing w) (wk_sent w) (wk_schedule w).
Definition set_wk_socket (socket : bool) (w : Worker) : Worker :=
  mkWorker (wk_state w) (wk_updates w) (wk_stats w) (wk_sendCh w) (wk_recvCh w) (wk_receiving w) socket (wk_managerID w) (wk_closing w) (wk_sent w) (wk_schedule w).
Definition set_wk_closing (closing : bool) (w : Worker) : Worker :=
  mkWorker (wk_state w) (wk_updates w) (wk_stats w) (wk_sendCh w) (wk_recvCh w) (wk_receiving w) (wk_socket w) (wk_managerID w) closing (wk_sent w) (wk_schedule w).
Definition set_wk_sent (v : list (list bytes)) (w : Worker) : Worker :=
  mkWorker (wk_state w) (wk_updates w) (wk_stats w) (wk_sendCh w) (wk_recvCh w) (wk_receiving w) (wk_socket w) (wk_managerID w) (wk_closing w) v (wk_schedule w).
Definition set_wk_schedule (v : list answer) (w : Worker) : Worker :=
  mkWorker (wk_state w) (wk_updates w) (wk_stats w) (wk_sendCh w) (wk_recvCh w) (wk_receiving w) (wk_socket w) (wk_managerID w) (wk_closing w) (wk_sent w) v.

(** [NewWorker], after [initSocketChannels]. *)
Definition NewWorker (now : Z) (service : ServiceName) (schedule : list answer) : outcome Worker :=
  match ServiceName_Validate service with
  | Fail e => Fail (Wrap "mdp" e)
  | Panic p => Panic p
  | Ret _ => Ret (mkWorker (initial_state now) [] [] [] [] false false 1 false [] schedule)
  end.

(** The state manager takes [nu] state updates and [ns] statistics. *)
Definition manage (now : Z) (nu ns : nat) (w : Worker) : Worker :=
  let s := foldl (apply_state now) (wk_state w) (take nu (wk_updates w)) in
  let s := foldl apply_stats s (take ns (wk_stats w)) in
  set_wk_queues s (drop nu (wk_updates w)) (drop ns (wk_stats w)) w.

(** The queues hold ten updates; what does not fit is dropped. *)
Definition updateState (u : stateUpdate) : M Worker unit :=
  mupd (fun w => if decide (length (wk_updates w) < 10)%nat then set_wk_queues (wk_state w) (wk_updates w ++ [u]) (wk_stats w) w else w).

Definition updateStats (u : statsUpdate) : M Worker unit :=
  mupd (fun w => if decide (length (wk_stats w) < 10)%nat then set_wk_queues (wk_state w) (wk_updates w) (wk_stats w ++ [u]) w else w).

(** [queryState]: [None] is nil. A schedule that has run out answers when all
    updates are applied. *)
Definition queryState {A} (now : Z) (f : WorkerState → A) : M Worker (option A) := fun w =>
  match wk_schedule w with
  | NoAnswer :: rest => (Ret None, set_wk_schedule rest w)
  | Answer nu ns :: rest => let w := manage now nu ns w in (Ret (Some (f (wk_state w))), set_wk_schedule rest w)
  | [] => let w := manage now 10 10 w in (Ret (Some (f (wk_state w))), w)
  end.

(** [v != nil && v.(bool)] *)
Definition is_yes (o : option bool) : bool := default false o.

(** ** Sending *)

Definition sendToBroker (now : Z) (command clientAddr body : bytes) : M Worker unit :=
  socketReady ← queryState now ws_socketReady;
  if negb (is_yes socketReady) then updateState stateDecreaseLiveness
  else
    w ← mget;
    if decide (length (wk_sendCh w) < 10)%nat then
      mupd (fun w => set_wk_sendCh (wk_sendCh w ++ [mkWorkerMessage command clientAddr body]) w)
    else updateState stateDecreaseLiveness.

(** [doSendToBroker]; [ok] says whether the socket takes the message. *)
Definition worker_frames (now : Z) (msg : workerMessage) : list bytes :=
  let m := NewWorkerMessage now (wm_command msg) (wm_clientAddr msg) (wm_body msg) in
  let m := if beq (wm_command msg) WorkerReady
           then mkMdp (mm_Frames m) (mm_RoutingEnvelope m) (wm_body msg) [] (mm_Command m) (mm_ClientAddr m) (mm_ClientEnvelope m) (mm_Timestamp m)
           else m in
  FormatWorkerMessage m.

Definition doSendToBroker (now : Z) (ok : bool) (msg : workerMessage) : M Worker unit :=
  if ok then mupd (fun w => set_wk_sent (wk_sent w ++ [worker_frames now msg]) w)
  else updateState stateDecreaseLiveness.

(** A turn of [socketManager]. With nothing to close or to send it calls
    [Recv], and stays there until a message comes: [incoming], if it comes
    now. The channel [recvCh] holds ten messages. *)
Definition socketManager_turn (now : Z) (ok : bool) (incoming : option (list bytes)) : M Worker unit :=
  w ← mget;
  if wk_receiving w then
    match incoming with
    | Some frames =>
        if decide (length (wk_recvCh w) < 10)%nat then mupd (set_wk_recv (wk_recvCh w ++ [frames]) false) else mret tt
    | None => mret tt
    end
  else if wk_closing w then mupd (fun w => set_wk_closing false (set_wk_socket false w))
  else
    match wk_sendCh w with
    | msg :: rest =>
        mupd (set_wk_sendCh rest);;
        if wk_socket w then doSendToBroker now ok msg else mret tt
    | [] => if wk_socket w then mupd (set_wk_recv (wk_recvCh w) true) else mret tt
    end.

(** ** Requests *)

Definition sendReply (now : Z) (reply : bytes) : M Worker unit :=
  expectReply ← queryState now ws_expectReply;
  if negb (is_yes expectReply) then mret tt
  else
    replyTo ← queryState now ws_replyTo;
    match replyTo with
    | None => mret tt
    | Some replyAddr =>
        sendToBroker now WorkerReply replyAddr reply;;
        updateState stateReplyComplete;;
        updateStats statsIncReplies
    end.

(** The handler returns a reply, or the text of an error. *)
Definition worker_processRequest (now : Z) (handler : bytes → bytes + bytes) (workerMsg : mdpMessage) : M Worker unit :=
  expectReply ← queryState now ws_expectReply;
  if is_yes expectReply then mret tt
  else
    updateState (stateExpectReply (mm_ClientAddr workerMsg));;
    updateStats statsIncRequests;;
    match handler (mm_Body workerMsg) with
    | inl reply => sendReply now reply
    | inr err => updateStats statsIncErrors;; sendReply now (gs "Error: " ++ err)
    end.

(** The close signal is lost when the socket manager is not waiting for it:
    [taken] says whether it is. *)
Definition disconnect (now : Z) (taken : bool) : M Worker unit :=
  connected ← queryState now ws_connected;
  if negb (is_yes connected) then mret tt
  else
    updateState stateSetSocketClosed;;
    updateState stateDisconnected;;
    if taken then mupd (set_wk_closing true) else mret tt.

Definition worker_processMessage (now : Z) (taken : bool) (handler : bytes → bytes + bytes) (frames : list bytes) : M Worker unit :=
  updateState (stateSetLiveness (wo_HeartbeatLiveness opts));;
  match ParseWorkerMessage now frames with
  | Ret workerMsg =>
      if beq (mm_Command workerMsg) WorkerRequest then worker_processRequest now handler workerMsg
      else if beq (mm_Command workerMsg) WorkerHeartbeat then mret tt
      else if beq (mm_Command workerMsg) WorkerDisconnect then disconnect now taken
      else mret tt
  | _ => mret tt
  end.

(** ** Heartbeats and health *)

Definition sendHeartbeat (now : Z) : M Worker unit :=
  connected ← queryState now ws_connected;
  if negb (is_yes connected) then mret tt
  else
    sendToBroker now WorkerHeartbeat [] [];;
    updateState (stateSetHeartbeatTime (now + wo_HeartbeatInterval opts)).

(** [secure] is the readiness of the security mechanism, if there is one. *)
Definition validateConnectionState (now : Z) (secure : bool) : M Worker (option string) :=
  connected ← queryState now ws_connected;
  if negb (is_yes connected) then mret (Some "worker not connected to broker"%string)
  else
    socketReady ← queryState now ws_socketReady;
    if negb (is_yes socketReady) then mret (Some "socket not ready for operations"%string)
    else
      w ← mget;
      if negb (wk_socket w) then mret (Some "socket is nil"%string)
      else if decide (wk_managerID w = 0) then mret (Some "socket manager not initialized"%string)
      else if wo_Security opts && negb secure then mret (Some "security validation failed"%string)
      else
        liveness ← queryState now ws_liveness;
        match liveness with
        | Some l => if decide (l <= 0) then mret (Some "broker liveness exhausted"%string) else mret None
        | None => mret None
        end.

(** The ticker's case of [processMessages]; the result says whether the loop
    goes on, with the counter of ticks since the last health check. *)
Definition worker_tick (now : Z) (secure taken : bool) (counter : nat) : M Worker (option nat) :=
  let rest (counter : nat) : M Worker (option nat) :=
    heartbeatTime ← queryState now ws_heartbeatAt;
    (match heartbeatTime with
     | Some t => if decide (t < now) then sendHeartbeat now else mret tt
     | None => mret tt
     end);;
    liveness ← queryState now ws_liveness;
    match liveness with
    | Some l => if decide (l <= 0) then disconnect now taken;; mret None else mret (Some counter)
    | None => mret (Some counter)
    end in
  if decide (50 <= S counter)%nat then
    err ← validateConnectionState now secure;
    match err with
    | Some _ => disconnect now taken;; mret None
    | None => rest O
    end
  else rest (S counter).

(** The case of a message; the result says whether the loop goes on. *)
Definition worker_receive (now : Z) (secure taken : bool) (handler : bytes → bytes + bytes) : M Worker bool :=
  w ← mget;
  match wk_recvCh w with
  | frames :: rest =>
      mupd (set_wk_recv rest (wk_receiving w));;
      err ← validateConnectionState now secure;
      match err with
      | Some _ => disconnect now taken;; mret false
      | None => worker_processMessage now taken handler frames;; mret true
      end
  | [] => mret true
  end.

(** ** Connecting *)

(** [dial] and [secure] are the outcomes of dialling and of validating the
    security mechanism. *)
Definition connectToBroker (now : Z) (service : ServiceName) (dial secure : bool) : M Worker bool :=
  connected ← queryState now ws_connected;
  if is_yes connected then mret true
  else
    mupd (fun w => mkWorker (wk_state w) (wk_updates w) (wk_stats w) [] [] false false (wrapu 64 (wk_managerID w + 1)) false (wk_sent w) (wk_schedule w));;
    if negb dial then mret false
    else
      mupd (set_wk_socket true);;
      updateState stateConnected;;
      updateStats statsIncReconnects;;
      if wo_Security opts && negb secure then
        mupd (set_wk_socket false);;
        updateState stateSetSocketClosed;;
        mret false
      else
        updateState (stateSetSocketReady true);;
        sendToBroker now WorkerReady [] service;;
        mret true.

Definition worker_IsConnected (now : Z) : M Worker bool :=
  connected ← queryState now ws_connected; mret (is_yes connected).

Definition worker_IsRunning (now : Z) : M Worker bool :=
  running ← queryState now ws_running; mret (is_yes running).

Definition worker_Start (now : Z) : M Worker unit :=
  running ← queryState now ws_running;
  if is_yes running then mfail (Errorf "mdp: worker already running")
  else updateState (stateSetRunning true).

(** [GetStats]: [None] stands for the map that reports the failed query. *)
Record workerStats : Type := mkWorkerStats {
  wt_service : ServiceName;
  wt_total_requests : Z;
  wt_total_replies : Z;
  wt_total_errors : Z;
  wt_reconnects : Z;
  wt_connected : bool;
  wt_running : bool;
  wt_liveness : Z }.

Definition worker_stats (service : ServiceName) (s : WorkerState) : workerStats :=
  mkWorkerStats service (ws_requests s) (ws_replies s) (ws_errors s) (ws_reconnects s) (ws_connected s) (ws_running s) (ws_liveness s).
Definition worker_GetStats (now : Z) (service : ServiceName) : M Worker (option workerStats) := queryState now (worker_stats service).

(** [SetHandler]; the handler is a value of its own. *)
Definition SetHandler {H} (handler : option H) : M H unit :=
  match handler with None => mfail (Errorf "mdp: request handler cannot be nil") | Some h => mupd (fun _ => h) end.

End Worker.
