(* ===== verification/MdpSession.v ===== *)
(** * MdpSession: how a Majordomo worker reconnects (src/majordomo/worker.go)

    [workerLoop] connects, starts a socket manager for the session, processes
    messages until the connection is lost and starts again. A new session
    replaces the channels of the worker; the manager of the old one is told to
    stop by a signal nobody waits for, and finds out at its next look at the
    session number. Here the loop and the managers of all sessions are a step
    relation at the grain of their channel and lock operations; what
    [processMessages] does with a message is in MdpWorker. The fields of a worker
    are read anew at every use, so an old manager works on the channels of the
    current session. [Stop] is in MdpLifecycle. *)

From Stdlib Require Import Strings.Byte ZArith Lia.
From stdpp Require Import base strings numbers gmap relations list.
From S2P Require Import Prelude Zmtp Mdp MdpWorker.

#[local] Set Default Goal Selector "!".

(** ** The state *)

(** Where a socket manager is: before its first statement, before a look at the
    session number, at its [select], with a message it has taken (not yet
    validated, validated), before it receives, in [Recv] on a socket, with what
    it received, waiting for room in the channel of session [gen], with an
    error. *)
Inductive mpc : Type :=
| MNew | MEntry | MTop | MSelect | MGot (msg : workerMessage) | MSend (msg : workerMessage)
| MValidate | MRecv (sock : nat) | MForward (frames : list bytes) | MBlocked (gen : nat) (frames : list bytes) | MError (e : error).

(** [mg_done]: the session whose [socketDone] the deferred close will close. *)
Record mgr : Type := mkMgr { mg_session : nat; mg_done : nat; mg_pc : mpc }.

(** Where the loop is: at the top, waiting for [socketDone] with the lock held,
    connecting (before the old socket is closed, before the channels are
    replaced, before dialing, before the manager is started), processing
    messages, waiting for the manager. *)
Inductive lpc : Type := LTop | LWait | LConnect | LInit | LDial | LGo | LRun | LAwait.

(** [ss_id] is [socketManagerID], the number of the session. The last four are
    histories: what was queued for the broker, what was sent on which socket,
    what was taken and not sent, and what went with replaced channels. *)
Record sess : Type := mkSess {
  ss_pc : lpc;
  ss_lock : bool;
  ss_connected : bool;
  ss_id : nat;
  ss_socket : option nat;
  ss_next : nat;
  ss_closed : gset nat;
  ss_send : list workerMessage;
  ss_recv : list (list bytes);
  ss_err : option error;
  ss_done : gset nat;
  ss_mgrs : gmap nat mgr;
  ss_panic : bool;
  ss_queued : list workerMessage;
  ss_sent : list (nat * workerMessage);
  ss_lost : list workerMessage;
  ss_dropped : list workerMessage }.

(** A worker as [NewWorker] leaves it, with the loop started. *)
Definition sess_new : sess := mkSess LTop false false 1 None 0 ∅ [] [] None ∅ ∅ false [] [] [] [].

Definition set_ss_pc (pc : lpc) (lock : bool) (s : sess) : sess :=
  mkSess pc lock (ss_connected s) (ss_id s) (ss_socket s) (ss_next s) (ss_closed s) (ss_send s) (ss_recv s) (ss_err s) (ss_done s) (ss_mgrs s) (ss_panic s)
    (ss_queued s) (ss_sent s) (ss_lost s) (ss_dropped s).
Definition set_ss_mgrs (m : gmap nat mgr) (s : sess) : sess :=
  mkSess (ss_pc s) (ss_lock s) (ss_connected s) (ss_id s) (ss_socket s) (ss_next s) (ss_closed s) (ss_send s) (ss_recv s) (ss_err s) (ss_done s) m (ss_panic s)
    (ss_queued s) (ss_sent s) (ss_lost s) (ss_dropped s).
Definition set_ss_done (d : gset nat) (p : bool) (s : sess) : sess :=
  mkSess (ss_pc s) (ss_lock s) (ss_connected s) (ss_id s) (ss_socket s) (ss_next s) (ss_closed s) (ss_send s) (ss_recv s) (ss_err s) d (ss_mgrs s) p
    (ss_queued s) (ss_sent s) (ss_lost s) (ss_dropped s).
Definition set_ss_in (recv : list (list bytes)) (err : option error) (s : sess) : sess :=
  mkSess (ss_pc s) (ss_lock s) (ss_connected s) (ss_id s) (ss_socket s) (ss_next s) (ss_closed s) (ss_send s) recv err (ss_done s) (ss_mgrs s) (ss_panic s)
    (ss_queued s) (ss_sent s) (ss_lost s) (ss_dropped s).
Definition set_ss_send (send queued : list workerMessage) (s : sess) : sess :=
  mkSess (ss_pc s) (ss_lock s) (ss_connected s) (ss_id s) (ss_socket s) (ss_next s) (ss_closed s) send (ss_recv s) (ss_err s) (ss_done s) (ss_mgrs s) (ss_panic s)
    queued (ss_sent s) (ss_lost s) (ss_dropped s).
Definition set_ss_sent (sent : list (nat * workerMessage)) (lost : list workerMessage) (s : sess) : sess :=
  mkSess (ss_pc s) (ss_lock s) (ss_connected s) (ss_id s) (ss_socket s) (ss_next s) (ss_closed s) (ss_send s) (ss_recv s) (ss_err s) (ss_done s) (ss_mgrs s) (ss_panic s)
    (ss_queued s) sent lost (ss_dropped s).

Definition set_ss_connected (c : bool) (s : sess) : sess :=
  mkSess (ss_pc s) (ss_lock s) c (ss_id s) (ss_socket s) (ss_next s) (ss_closed s) (ss_send s) (ss_recv s) (ss_err s) (ss_done s) (ss_mgrs s) (ss_panic s)
    (ss_queued s) (ss_sent s) (ss_lost s) (ss_dropped s).

(** ** The socket manager *)

Definition mg_goto (n : nat) (m : mgr) (pc : mpc) (s : sess) : sess :=
  set_ss_mgrs (<[n := mkMgr (mg_session m) (mg_done m) pc]> (ss_mgrs s)) s.

(** It returns, and the deferred call closes [socketDone]; closing it twice
    panics. *)
Definition mg_exit (n : nat) (m : mgr) (s : sess) : sess :=
  set_ss_done ({[mg_done m]} ∪ ss_done s) (ss_panic s || bool_decide (mg_done m ∈ ss_done s)) (set_ss_mgrs (delete n (ss_mgrs s)) s).

(** [sessionID != w.getSocketManagerID()], which takes the lock. *)
Definition mg_check (n : nat) (m : mgr) (pc : mpc) (s : sess) : option sess :=
  if ss_lock s then None
  else if decide (mg_session m = ss_id s) then Some (mg_goto n m pc s) else Some (mg_exit n m s).

(** One turn of manager [n]; [ev] is what [Recv] returns. Nobody offers the
    close signal without looking whether it is taken, and the manager's own
    [select] has a default, so the two never meet there. *)
Definition mg_turn (n : nat) (ev : list bytes + error) (s : sess) : option sess :=
  m ← ss_mgrs s !! n;
  match mg_pc m with
  | MNew => Some (set_ss_mgrs (<[n := mkMgr (mg_session m) (ss_id s) MEntry]> (ss_mgrs s)) s)
  | MEntry => mg_check n m MTop s
  | MTop => mg_check n m MSelect s
  | MSelect =>
      match ss_send s with
      | msg :: rest => Some (mg_goto n m (MGot msg) (set_ss_send rest (ss_queued s) s))
      | [] => Some (mg_goto n m MValidate s)
      end
  | MGot msg =>
      if ss_lock s then None
      else if decide (mg_session m = ss_id s) then Some (mg_goto n m (MSend msg) s)
      else Some (set_ss_sent (ss_sent s) (ss_lost s ++ [msg]) (mg_exit n m s))
  | MSend msg =>
      Some (mg_goto n m MTop
        match ss_socket s with
        | Some k => set_ss_sent (ss_sent s ++ [(k, msg)]) (ss_lost s) s
        | None => set_ss_sent (ss_sent s) (ss_lost s ++ [msg]) s
        end)
  | MValidate => mg_check n m (match ss_socket s with Some k => MRecv k | None => MTop end) s
  | MRecv k =>
      match ev with
      | inl frames => if decide (k ∈ ss_closed s) then None else Some (mg_goto n m (MForward frames) s)
      | inr e => Some (mg_goto n m (MError e) s)
      end
  | MForward frames =>
      if decide (length (ss_recv s) < 10) then Some (mg_goto n m MTop (set_ss_in (ss_recv s ++ [frames]) (ss_err s) s))
      else Some (mg_goto n m (MBlocked (ss_id s) frames) s)
  | MBlocked gen frames =>
      if decide (gen = ss_id s ∧ length (ss_recv s) < 10)
      then Some (mg_goto n m MTop (set_ss_in (ss_recv s ++ [frames]) (ss_err s) s)) else None
  | MError e =>
      Some (mg_goto n m MTop (match ss_err s with None => set_ss_in (ss_recv s) (Some e) s | Some _ => s end))
  end.

(** ** The loop *)

(** The close signal of the current session, taken by a manager that waits for
    room. *)
Definition signalled (taker : option nat) (s : sess) : sess :=
  match taker with
  | Some n =>
      match ss_mgrs s !! n with
      | Some m => match mg_pc m with MBlocked gen _ => if decide (gen = ss_id s) then mg_exit n m s else s | _ => s end
      | None => s
      end
  | None => s
  end.

(** [closeSocketChannels] up to the wait, and its end: [socketDone] or the
    timeout of a second. *)
Definition l_close (taker : option nat) (s : sess) : option sess :=
  match ss_pc s with LTop => Some (set_ss_pc LWait true (signalled taker s)) | _ => None end.
Definition l_closed (timeout : bool) (s : sess) : option sess :=
  match ss_pc s with
  | LWait => if bool_decide (ss_id s ∈ ss_done s) || timeout then Some (set_ss_pc LConnect false s) else None
  | _ => None
  end.

(** [connectToBroker]. The state manager answers the question whether the worker
    is connected, or not in time ([None]); connected, it returns true at once.
    Otherwise the old socket is closed, [initSocketChannels], the dial. *)
Definition is_connected (answer : bool) (s : sess) : bool := answer && ss_connected s.
Definition close_socket (s : sess) : sess :=
  mkSess (ss_pc s) (ss_lock s) (ss_connected s) (ss_id s) None (ss_next s) (match ss_socket s with Some k => {[k]} ∪ ss_closed s | None => ss_closed s end)
    (ss_send s) (ss_recv s) (ss_err s) (ss_done s) (ss_mgrs s) (ss_panic s) (ss_queued s) (ss_sent s) (ss_lost s) (ss_dropped s).
Definition l_connect (answer : bool) (s : sess) : option sess :=
  match ss_pc s with
  | LConnect => if is_connected answer s then Some (set_ss_pc LGo false s) else Some (set_ss_pc LInit false (close_socket s))
  | _ => None
  end.
Definition initSocketChannels (s : sess) : option sess :=
  match ss_pc s with
  | LInit =>
      Some (mkSess LDial false (ss_connected s) (S (ss_id s)) (ss_socket s) (ss_next s) (ss_closed s) [] [] None (ss_done s) (ss_mgrs s) (ss_panic s)
        (ss_queued s) (ss_sent s) (ss_lost s) (ss_dropped s ++ ss_send s))
  | _ => None
  end.

(** How the rest of [connectToBroker] goes: the dial fails, the security check
    fails, or neither; then READY is queued if the state manager answers that the
    socket is ready. *)
Inductive dialed : Type := DialFails | Insecure | Ready (answer : bool) (msg : workerMessage).
Definition l_dial (d : dialed) (s : sess) : option sess :=
  match ss_pc s, d with
  | LDial, DialFails => Some (set_ss_pc LTop false s)
  | LDial, Insecure => Some (mkSess LTop false true (ss_id s) None (S (ss_next s)) ({[ss_next s]} ∪ ss_closed s) (ss_send s) (ss_recv s) (ss_err s)
      (ss_done s) (ss_mgrs s) (ss_panic s) (ss_queued s) (ss_sent s) (ss_lost s) (ss_dropped s))
  | LDial, Ready answer msg =>
      let new := if answer then [msg] else [] in
      Some (mkSess LGo false true (ss_id s) (Some (ss_next s)) (S (ss_next s)) (ss_closed s) (ss_send s ++ new) (ss_recv s) (ss_err s) (ss_done s)
        (ss_mgrs s) (ss_panic s) (ss_queued s ++ new) (ss_sent s) (ss_lost s) (ss_dropped s))
  | _, _ => None
  end.

(** [go w.socketManager(currentManagerID)] as goroutine [n]. *)
Definition l_go (n : nat) (s : sess) : option sess :=
  match ss_pc s, ss_mgrs s !! n with
  | LGo, None => Some (set_ss_pc LRun false (set_ss_mgrs (<[n := mkMgr (ss_id s) 0 MNew]> (ss_mgrs s)) s))
  | _, _ => None
  end.

(** [processMessages]: a message is taken, one is queued, an error or the loss
    of the broker ends it with [disconnect], which does nothing when the state
    manager does not answer that the worker is connected. *)
Definition l_receive (s : sess) : option sess :=
  match ss_pc s, ss_recv s with LRun, _ :: rest => Some (set_ss_in rest (ss_err s) s) | _, _ => None end.
Definition l_send (msg : workerMessage) (s : sess) : option sess :=
  match ss_pc s with
  | LRun => if decide (length (ss_send s) < 10) then Some (set_ss_send (ss_send s ++ [msg]) (ss_queued s ++ [msg]) s) else None
  | _ => None
  end.
Definition session_disconnect (answer : bool) (taker : option nat) (s : sess) : sess :=
  if is_connected answer s then signalled taker (set_ss_connected false s) else s.
Definition l_error (answer : bool) (taker : option nat) (s : sess) : option sess :=
  match ss_pc s, ss_err s with
  | LRun, Some _ => Some (set_ss_pc LAwait false (session_disconnect answer taker (set_ss_in (ss_recv s) None s)))
  | _, _ => None
  end.
Definition l_lost (answer : bool) (taker : option nat) (s : sess) : option sess :=
  match ss_pc s with LRun => Some (set_ss_pc LAwait false (session_disconnect answer taker s)) | _ => None end.

(** The wait for the manager, for two seconds at most. *)
Definition l_awaited (timeout : bool) (s : sess) : option sess :=
  match ss_pc s with
  | LAwait => if bool_decide (ss_id s ∈ ss_done s) || timeout then Some (set_ss_pc LTop false s) else None
  | _ => None
  end.

(** ** Runs *)

Inductive sop : Type :=
| OMgr (n : nat) (ev : list bytes + error)
| OClose (taker : option nat)
| OClosed (timeout : bool)
| OConnect (answer : bool)
| OInit
| ODial (d : dialed)
| OGo (n : nat)
| OReceive
| OSend (msg : workerMessage)
| OError (answer : bool) (taker : option nat)
| OLost (answer : bool) (taker : option nat)
| OAwaited (timeout : bool).

Definition s_do (op : sop) (s : sess) : option sess :=
  match op with
  | OMgr n ev => mg_turn n ev s
  | OClose taker => l_close taker s
  | OClosed timeout => l_closed timeout s
  | OConnect answer => l_connect answer s
  | OInit => initSocketChannels s
  | ODial d => l_dial d s
  | OGo n => l_go n s
  | OReceive => l_receive s
  | OSend msg => l_send msg s
  | OError answer taker => l_error answer taker s
  | OLost answer taker => l_lost answer taker s
  | OAwaited timeout => l_awaited timeout s
  end.

(** A goroutine has begun. *)
Definition begun (m : mgr) : bool := match mg_pc m with MNew => false | _ => true end.

(** The machine is not so slow that a question to the state manager goes
    unanswered for a tenth of a second, or that a goroutine that was started has
    not begun when the channels are replaced again, three seconds later at
    least. *)
Definition in_time (op : sop) (s : sess) : Prop :=
  match op with
  | OInit => map_Forall (fun _ m => begun m = true) (ss_mgrs s)
  | OConnect answer | ODial (Ready answer _) | OError answer _ | OLost answer _ => answer = true
  | _ => True
  end.

Definition s_step (s s' : sess) : Prop := ∃ op, s_do op s = Some s'.
Definition p_step (s s' : sess) : Prop := ∃ op, in_time op s ∧ s_do op s = Some s'.

#[global] Instance in_time_dec op s : Decision (in_time op s).
Proof. unfold in_time. repeat case_match; apply _. Defined.

(** A run given by its operations; [strict]: all in time. *)
Fixpoint s_ops (strict : bool) (ops : list sop) (s : sess) : option sess :=
  match ops with
  | [] => Some s
  | op :: rest => if strict && negb (bool_decide (in_time op s)) then None else s' ← s_do op s; s_ops strict rest s'
  end.

(** ** One manager per session, and no channel closed twice *)

(** Nothing was started yet in the session that the loop will start a manager
    for. *)
Definition unstarted (s : sess) : bool :=
  match ss_pc s with LGo | LDial => true | LTop | LWait | LConnect => ss_connected s | _ => false end.

Definition linked (s : sess) : Prop :=
  match ss_pc s with LInit | LDial | LAwait => ss_connected s = false | LGo | LRun => ss_connected s = true | _ => True end.

Record sess_ok (s : sess) : Prop := {
  so_panic : ss_panic s = false;
  so_mgr n m : ss_mgrs s !! n = Some m →
    mg_session m ≤ ss_id s ∧ mg_session m ∉ ss_done s ∧ (if begun m then mg_done m = mg_session m else mg_session m = ss_id s);
  so_uniq n n' m m' : ss_mgrs s !! n = Some m → ss_mgrs s !! n' = Some m' → mg_session m = mg_session m' → n = n';
  so_done i : i ∈ ss_done s → i ≤ ss_id s;
  so_fresh : unstarted s = true → ss_id s ∉ ss_done s ∧ ∀ n m, ss_mgrs s !! n = Some m → mg_session m ≠ ss_id s;
  so_linked : linked s }.

(** What the invariant looks at. *)
Definition sess_core (s : sess) := (ss_pc s, ss_connected s, ss_id s, ss_done s, ss_mgrs s, ss_panic s).

Lemma sess_ok_core s s' : sess_core s' = sess_core s → sess_ok s → sess_ok s'.
Proof.
  destruct s, s'. unfold sess_core. simpl. intros [= -> -> -> -> -> ->] [H1 H2 H3 H4 H5 H6].
  split; [exact H1|exact H2|exact H3|exact H4|exact H5|exact H6].
Qed.

Lemma mg_set_ok n m m' s : ss_mgrs s !! n = Some m → mg_session m' = mg_session m → begun m' = true → mg_done m' = mg_session m →
  sess_ok s → sess_ok (set_ss_mgrs (<[n := m']> (ss_mgrs s)) s).
Proof.
  intros Hm Hs Hb Hd [H1 H2 H3 H4 H5 H6].
  assert (Hold : ∀ k x, <[n := m']> (ss_mgrs s) !! k = Some x → ∃ y, ss_mgrs s !! k = Some y ∧ mg_session y = mg_session x).
  { intros k x [[<- <-]|[_ Hx]]%lookup_insert_Some; eauto. }
  split; simpl; [exact H1| | |exact H4| |exact H6].
  - intros k x [[<- <-]|[_ Hx]]%lookup_insert_Some; [|eauto]. rewrite Hb, Hd, Hs. destruct (H2 _ _ Hm) as (? & ? & ?). done.
  - intros k k' x x' (y & Hy & Ey)%Hold (y' & Hy' & Ey')%Hold E. apply (H3 k k' y y' Hy Hy'). congruence.
  - intros [Hn Hall]%H5. split; [done|]. intros k x (y & Hy & <-)%Hold. eauto.
Qed.

Lemma mg_goto_ok n m pc s : ss_mgrs s !! n = Some m → begun m = true → pc ≠ MNew → sess_ok s → sess_ok (mg_goto n m pc s).
Proof.
  intros Hm Hb Hpc H. apply (mg_set_ok _ m); [done|done|by destruct pc| |done].
  destruct (so_mgr _ H _ _ Hm) as (_ & _ & Hd). by rewrite Hb in Hd.
Qed.

Lemma mg_exit_ok n m s : ss_mgrs s !! n = Some m → begun m = true → sess_ok s → sess_ok (mg_exit n m s).
Proof.
  intros Hm Hb H. destruct H as [H1 H2 H3 H4 H5 H6]. pose proof (H2 _ _ Hm) as (Hle & Hnd & Hd). rewrite Hb in Hd. unfold mg_exit. rewrite Hd.
  split; simpl.
  - rewrite H1. by rewrite bool_decide_eq_false_2.
  - intros k x [Hne Hx]%lookup_delete_Some. destruct (H2 _ _ Hx) as (? & ? & ?). split_and!; [done| |done].
    rewrite elem_of_union, elem_of_singleton. intros [E|E]; [|done]. destruct Hne. by apply (H3 n k m x).
  - intros k k' x x' [_ Hx]%lookup_delete_Some [_ Hx']%lookup_delete_Some. eauto.
  - intros i [->%elem_of_singleton|Hi]%elem_of_union; eauto.
  - intros [Hn Hall]%H5. pose proof (Hall _ _ Hm) as Hne. split; [|intros k x [_ Hx]%lookup_delete_Some; eauto].
    rewrite elem_of_union, elem_of_singleton. intros [E|E]; [by destruct Hne|done].
  - exact H6.
Qed.

#[local] Hint Resolve mg_goto_ok mg_exit_ok : core.

Lemma mg_check_ok n m pc s s' : ss_mgrs s !! n = Some m → begun m = true → pc ≠ MNew → mg_check n m pc s = Some s' → sess_ok s → sess_ok s'.
Proof. unfold mg_check. intros Hm Hb Hpc. destruct (ss_lock s); [done|]. case_decide; intros [= <-]; eauto. Qed.

Lemma mg_turn_ok n ev s s' : mg_turn n ev s = Some s' → sess_ok s → sess_ok s'.
Proof.
  unfold mg_turn. intros (m & Hm & E)%bind_Some H. destruct (begun m) eqn:Hb; unfold begun in Hb; destruct (mg_pc m) eqn:Hpc; try done.
  all: match type of Hb with _ = ?b => assert (begun m = b) as Hb' by (unfold begun; by rewrite Hpc) end; clear Hb.
  - by apply (mg_check_ok _ _ MTop _ _ Hm Hb').
  - by apply (mg_check_ok _ _ MSelect _ _ Hm Hb').
  - destruct (ss_send s) as [|msg rest]; injection E as <-; [by apply mg_goto_ok|]. (apply mg_goto_ok; [done|done|done|by apply (sess_ok_core s)]).
  - destruct (ss_lock s); [done|]. case_decide; injection E as <-; [by apply mg_goto_ok|]. apply (sess_ok_core (mg_exit n m s)); eauto.
  - injection E as <-. apply mg_goto_ok; [by destruct (ss_socket s)|done|done|]. destruct (ss_socket s); by apply (sess_ok_core s).
  - apply (mg_check_ok _ _ _ _ _ Hm Hb') in E; [done| |done]. by destruct (ss_socket s).
  - destruct ev; [case_decide; [done|]|]; injection E as <-; by apply mg_goto_ok.
  - case_decide; injection E as <-; (apply mg_goto_ok; [done|done|done|by apply (sess_ok_core s)]).
  - case_decide; [|done]. injection E as <-. (apply mg_goto_ok; [done|done|done|by apply (sess_ok_core s)]).
  - injection E as <-. apply mg_goto_ok; destruct (ss_err s); try done. by apply (sess_ok_core s).
  - injection E as <-. destruct (so_mgr _ H _ _ Hm) as (_ & _ & Hid). rewrite Hb' in Hid. by apply (mg_set_ok _ m).
Qed.

Lemma signalled_ok taker s : sess_ok s → sess_ok (signalled taker s).
Proof.
  intros H. unfold signalled. destruct taker as [n|]; [|done]. destruct (ss_mgrs s !! n) as [m|] eqn:Hm; [|done].
  destruct (mg_pc m) eqn:Hpc; try done. case_decide; [|done]. apply mg_exit_ok; [done| |done]. unfold begun. by rewrite Hpc.
Qed.

(** The signal changes neither the place of the loop nor its idea of being
    connected, nor the session. *)
Lemma signalled_loop taker s :
  ss_pc (signalled taker s) = ss_pc s ∧ ss_connected (signalled taker s) = ss_connected s ∧ ss_id (signalled taker s) = ss_id s.
Proof. unfold signalled. repeat (case_match; try done). Qed.

(** A step of the loop that leaves the managers and the session alone. *)
Lemma goto_ok pc lock s : sess_ok s → linked (set_ss_pc pc lock s) →
  (unstarted (set_ss_pc pc lock s) = true → unstarted s = true) → sess_ok (set_ss_pc pc lock s).
Proof.
  intros [H1 H2 H3 H4 H5 H6] Hl Hu. split; simpl; [exact H1|exact H2|exact H3|exact H4| |exact Hl]. intros Hu'. by apply H5, Hu.
Qed.

Lemma disconnect_ok taker s : sess_ok s → ss_pc s = LRun → sess_ok (set_ss_pc LAwait false (session_disconnect true taker s)).
Proof.
  intros H Hpc. assert (Hc : ss_connected s = true) by (pose proof (so_linked _ H) as Hl; unfold linked in Hl; by rewrite Hpc in Hl).
  unfold session_disconnect, is_connected. rewrite Hc. simpl.
  set (s1 := set_ss_pc LAwait false (set_ss_connected false s)).
  assert (H1 : sess_ok s1). { destruct H as [? H2 H3 H4 H5 H6]. split; simpl; [done|exact H2|exact H3|exact H4|done|done]. }
  replace (set_ss_pc LAwait false (signalled taker (set_ss_connected false s))) with (signalled taker s1); [by apply signalled_ok|].
  subst s1. unfold signalled. simpl. repeat (case_match; try done).
Qed.

Lemma init_ok s s' : map_Forall (fun _ m => begun m = true) (ss_mgrs s) → initSocketChannels s = Some s' → sess_ok s → sess_ok s'.
Proof.
  unfold initSocketChannels. intros Hb E [H1 H2 H3 H4 H5 H6]. unfold linked in H6. destruct (ss_pc s); try done. injection E as <-.
  split; simpl; [exact H1| |exact H3| | |exact H6].
  - intros n m Hm. destruct (H2 _ _ Hm) as (? & ? & Hd). rewrite (Hb _ _ Hm) in *. split_and!; [lia|done|done].
  - intros i Hi%H4. lia.
  - intros _. split; [intros Hi%H4; lia|]. intros n m Hm. destruct (H2 _ _ Hm) as (? & _). lia.
Qed.

Lemma dial_ok d s s' : l_dial d s = Some s' → sess_ok s → sess_ok s'.
Proof.
  unfold l_dial. intros E H. pose proof (so_linked _ H) as Hl. unfold linked in Hl. destruct H as [H1 H2 H3 H4 H5 H6]. unfold unstarted in H5.
  destruct (ss_pc s), d; try done; injection E as <-; split; simpl; unfold unstarted; simpl; try done; try (exact H2); try (exact H3); try (exact H4); try (intros; exact (H5 eq_refl)).
Qed.

Lemma go_ok n s s' : l_go n s = Some s' → sess_ok s → sess_ok s'.
Proof.
  unfold l_go. intros E [H1 H2 H3 H4 H5 H6]. unfold unstarted in H5. unfold linked in H6. destruct (ss_pc s); try done.
  destruct (ss_mgrs s !! n) eqn:Hn; [done|]. injection E as <-. destruct (H5 eq_refl) as [Hnd Hall].
  split; simpl; [exact H1| | |exact H4|done|exact H6].
  - intros k m [[<- <-]|[_ Hm]]%lookup_insert_Some; [by split_and!|]. eauto.
  - intros k k' m m' [[<- <-]|[_ Hm]]%lookup_insert_Some [[<- <-]|[_ Hm']]%lookup_insert_Some; simpl; [done| | |eauto].
    + intros E. by destruct (Hall _ _ Hm').
    + intros E. by destruct (Hall _ _ Hm).
Qed.

Lemma s_do_ok op s s' : in_time op s → s_do op s = Some s' → sess_ok s → sess_ok s'.
Proof.
  intros Ht E H. pose proof (so_linked _ H) as Hl. unfold linked in Hl. destruct op; simpl in E, Ht.
  - by eapply mg_turn_ok.
  - unfold l_close in E. destruct (ss_pc s) eqn:Hpc; try done. injection E as <-. destruct (signalled_loop taker s) as (Ep & Ec & _).
    apply goto_ok; [by apply signalled_ok|done|]. unfold unstarted. simpl. by rewrite Ep, Hpc.
  - unfold l_closed in E. destruct (ss_pc s) eqn:Hpc; try done. case_match; [|done]. injection E as <-.
    apply goto_ok; [done|done|]. unfold unstarted. simpl. by rewrite Hpc.
  - subst answer. unfold l_connect, is_connected in E. destruct (ss_pc s) eqn:Hpc; try done. simpl in E. destruct (ss_connected s) eqn:Hc; injection E as <-.
    + apply goto_ok; [done|done|]. intros _. unfold unstarted. by rewrite Hpc.
    + apply goto_ok; [by apply (sess_ok_core s)|by unfold linked|done].
  - by eapply init_ok.
  - by eapply dial_ok.
  - by eapply go_ok.
  - unfold l_receive in E. destruct (ss_pc s), (ss_recv s); try done. injection E as <-. by apply (sess_ok_core s).
  - unfold l_send in E. destruct (ss_pc s); try done. case_decide; [|done]. injection E as <-. by apply (sess_ok_core s).
  - subst answer. unfold l_error in E. destruct (ss_pc s) eqn:Hpc, (ss_err s); try done. injection E as <-. apply disconnect_ok; [by apply (sess_ok_core s)|done].
  - subst answer. unfold l_lost in E. destruct (ss_pc s) eqn:Hpc; try done. injection E as <-. by apply disconnect_ok.
  - unfold l_awaited in E. destruct (ss_pc s) eqn:Hpc; try done. case_match; [|done]. injection E as <-.
    apply goto_ok; [done|done|]. unfold unstarted. simpl. by rewrite Hl.
Qed.

Lemma sess_new_ok : sess_ok sess_new.
Proof. split; try done; set_solver. Qed.

Lemma p_steps_ok s : rtc p_step sess_new s → sess_ok s.
Proof.
  revert s. refine (rtc_ind_r _ _ sess_new_ok _). intros s s' _ (op & Ht & E) H. by eapply s_do_ok.
Qed.

(** ** What becomes of the messages *)

Definition holding (m : mgr) : list workerMessage := match mg_pc m with MGot msg | MSend msg => [msg] | _ => [] end.
Definition held (mgrs : gmap nat mgr) : list workerMessage := map_to_list mgrs ≫= fun nm => holding nm.2.

(** Every message queued for the broker is still in the channel, in the hands of
    a manager, was sent, was given up by a manager, or went with the channel. *)
Definition accounted (s : sess) : Prop :=
  ss_queued s ≡ₚ ss_send s ++ held (ss_mgrs s) ++ (ss_sent s).*2 ++ ss_lost s ++ ss_dropped s.

Lemma held_delete n m mgrs : mgrs !! n = Some m → held mgrs ≡ₚ holding m ++ held (delete n mgrs).
Proof. intros Hm. unfold held. rewrite <- (map_to_list_delete _ _ _ Hm). by rewrite bind_cons. Qed.
Lemma held_insert n m mgrs : held (<[n := m]> mgrs) ≡ₚ holding m ++ held (delete n mgrs).
Proof. rewrite <- insert_delete_eq. unfold held at 1. rewrite map_to_list_insert by apply lookup_delete_eq. by rewrite bind_cons. Qed.

Lemma goto_accounted n m pc s : ss_mgrs s !! n = Some m → holding (mkMgr (mg_session m) (mg_done m) pc) = holding m → accounted s → accounted (mg_goto n m pc s).
Proof. unfold accounted. simpl. intros Hm Hh ->. rewrite held_insert, Hh. by rewrite <- held_delete. Qed.
Lemma exit_accounted n m s : ss_mgrs s !! n = Some m → holding m = [] → accounted s → accounted (mg_exit n m s).
Proof. unfold accounted. simpl. intros Hm Hh ->. rewrite (held_delete _ _ _ Hm), Hh. done. Qed.

Lemma check_accounted n m pc s s' : ss_mgrs s !! n = Some m → holding m = [] → holding (mkMgr (mg_session m) (mg_done m) pc) = [] →
  mg_check n m pc s = Some s' → accounted s → accounted s'.
Proof.
  unfold mg_check. intros Hm Hh Hpc. destruct (ss_lock s); [done|].
  case_decide; intros [= <-]; [apply goto_accounted; congruence|by apply exit_accounted].
Qed.

Lemma mg_turn_accounted n ev s s' : mg_turn n ev s = Some s' → accounted s → accounted s'.
Proof.
  unfold mg_turn. intros (m & Hm & E)%bind_Some H. assert (holding m = match mg_pc m with MGot msg | MSend msg => [msg] | _ => [] end) as Hh by done.
  destruct (mg_pc m) eqn:Hpc.
  - injection E as <-. unfold accounted in *. simpl. rewrite H, held_insert, (held_delete _ _ _ Hm), Hh. done.
  - by apply (check_accounted _ _ MTop _ _ Hm).
  - by apply (check_accounted _ _ MSelect _ _ Hm).
  - destruct (ss_send s) as [|msg rest] eqn:Es; injection E as <-; [by apply goto_accounted|].
    unfold accounted in *. simpl. rewrite H, Es, held_insert, (held_delete _ _ _ Hm), Hh. simpl. by rewrite <- Permutation_middle.
  - destruct (ss_lock s); [done|]. case_decide; injection E as <-; [by apply goto_accounted|].
    unfold accounted in *. simpl. rewrite H, (held_delete _ _ _ Hm), Hh. solve_Permutation.
  - injection E as <-. unfold accounted in *. destruct (ss_socket s) as [k|]; simpl; rewrite H, held_insert, (held_delete _ _ _ Hm), Hh; simpl.
    + rewrite fmap_app. simpl. solve_Permutation.
    + solve_Permutation.
  - eapply (check_accounted _ _ _ _ _ Hm Hh); [|done|done]. by destruct (ss_socket s).
  - destruct ev; [case_decide; [done|]|]; injection E as <-; by apply goto_accounted.
  - case_decide; injection E as <-; by apply goto_accounted.
  - case_decide; [|done]. injection E as <-. by apply goto_accounted.
  - injection E as <-. destruct (ss_err s); by apply goto_accounted.
Qed.

Lemma signalled_accounted taker s : accounted s → accounted (signalled taker s).
Proof.
  intros H. unfold signalled. destruct taker as [n|]; [|done]. destruct (ss_mgrs s !! n) as [m|] eqn:Hm; [|done].
  destruct (mg_pc m) eqn:Hpc; try done. case_decide; [|done]. apply exit_accounted; [done| |done]. unfold holding. by rewrite Hpc.
Qed.

Lemma disconnect_accounted answer taker s : accounted s → accounted (session_disconnect answer taker s).
Proof. intros H. unfold session_disconnect. destruct (is_connected answer s); [|done]. by apply signalled_accounted. Qed.

Lemma s_do_accounted op s s' : s_do op s = Some s' → accounted s → accounted s'.
Proof.
  destruct op; simpl; intros E H.
  - by eapply mg_turn_accounted.
  - unfold l_close in E. case_match; simplify_eq. by apply (signalled_accounted taker s).
  - unfold l_closed in E. by repeat case_match; simplify_eq.
  - unfold l_connect in E. by repeat case_match; simplify_eq.
  - unfold initSocketChannels in E. case_match; simplify_eq. unfold accounted in *. simpl. rewrite H. solve_Permutation.
  - unfold l_dial in E. repeat case_match; simplify_eq; try done. all: unfold accounted in *; simpl; rewrite H; solve_Permutation.
  - unfold l_go in E. repeat case_match; simplify_eq. unfold accounted in *. simpl. rewrite H, held_insert, delete_id by done. done.
  - unfold l_receive in E. by repeat case_match; simplify_eq.
  - unfold l_send in E. repeat case_match; simplify_eq. unfold accounted in *. simpl. rewrite H. solve_Permutation.
  - unfold l_error in E. repeat case_match; simplify_eq. by apply (disconnect_accounted answer taker).
  - unfold l_lost in E. repeat case_match; simplify_eq. by apply (disconnect_accounted answer taker).
  - unfold l_awaited in E. by repeat case_match; simplify_eq.
Qed.

Lemma p_ops_rtc ops s s' : s_ops true ops s = Some s' → rtc p_step s s'.
Proof.
  revert s. induction ops as [|op ops IH]; intros s; simpl; [intros [= ->]; apply rtc_refl|].
  case_bool_decide as Ht; [|done]. intros (s1 & E & H)%bind_Some. eapply rtc_l; [by exists op|by apply IH].
Qed.

Lemma s_ops_rtc ops s s' : s_ops false ops s = Some s' → rtc s_step s s'.
Proof.
  revert s. induction ops as [|op ops IH]; intros s; simpl; [intros [= ->]; apply rtc_refl|].
  intros (s1 & E & H)%bind_Some. eapply rtc_l; [by exists op|by apply IH].
Qed.

Lemma p_steps_accounted s : rtc p_step sess_new s → accounted s.
Proof.
  revert s. refine (rtc_ind_r _ _ _ _); [by vm_compute|]. intros s s' _ (op & _ & E) H. by eapply s_do_accounted.
Qed.


(** ** Runs *)

(** To a connected worker: the first session is numbered 2. *)
Definition connect_ops (msg : workerMessage) : list sop := [OClose None; OClosed true; OConnect true; OInit; ODial (Ready true msg)].
Definition some_ready : workerMessage := mkWorkerMessage WorkerReady [] [x65].
Definition turns (n k : nat) : list sop := replicate k (OMgr n (inr (Errorf "closed"))).

(** The manager waits in [Recv] when the broker is given up for lost; the
    manager of the next session is running when [Recv] fails, as its socket was
    closed, and the error ends the new session. *)
Definition stale_error_ops : list sop :=
  connect_ops some_ready ++ OGo 0 :: turns 0 9 ++ [OLost true None; OAwaited true] ++ connect_ops some_ready ++ [OGo 1] ++ turns 1 1 ++ turns 0 2 ++ [OError true None].

(** The manager stands before its [select] when the channels are replaced: it
    takes the READY of the new session and throws it away. *)
Definition lost_ready_ops : list sop :=
  connect_ops some_ready ++ OGo 0 :: turns 0 7 ++ [OLost true None; OAwaited true] ++ connect_ops some_ready ++ turns 0 2.

(** It has received a message when the channels are replaced: the message of the
    old connection goes to the new session. *)
Definition old_message_ops (frames : list bytes) : list sop :=
  connect_ops some_ready ++ OGo 0 :: turns 0 9 ++ [OMgr 0 (inl frames); OLost true None; OAwaited true] ++ connect_ops some_ready ++ turns 0 1.

(** [disconnect] has no answer and leaves the worker connected: a second manager
    starts in the same session, and both close its [socketDone]. *)
Definition two_managers_ops : list sop :=
  connect_ops some_ready ++ OGo 0 :: turns 0 6 ++ [OLost false None; OAwaited true; OClose None; OClosed true; OConnect true; OGo 1] ++ turns 1 1 ++
  [OLost true None; OAwaited true] ++ connect_ops some_ready ++ turns 0 1 ++ turns 1 1.

#[global] Instance lpc_eq_dec : EqDecision lpc.
Proof. solve_decision. Defined.

Lemma p_run ops (P : sess → Prop) (D : ∀ s, Decision (P s)) :
  default false ((fun s => @bool_decide (P s) (D s)) <$> s_ops true ops sess_new) = true → ∃ s, rtc p_step sess_new s ∧ P s.
Proof. destruct (s_ops true ops sess_new) as [s|] eqn:E; [|done]. apply p_ops_rtc in E. simpl. intros HP%bool_decide_eq_true_1. eauto. Qed.

Lemma s_run ops (P : sess → Prop) (D : ∀ s, Decision (P s)) :
  default false ((fun s => @bool_decide (P s) (D s)) <$> s_ops false ops sess_new) = true → ∃ s, rtc s_step sess_new s ∧ P s.
Proof. destruct (s_ops false ops sess_new) as [s|] eqn:E; [|done]. apply s_ops_rtc in E. simpl. intros HP%bool_decide_eq_true_1. eauto. Qed.

(** An error that the closed socket of an old session reports ends the new
    session, the READY of a new session may be lost to the old manager, which may
    also deliver a message of the old connection to it, all with everything in
    time; and when the question of [disconnect] goes unanswered, the channel of
    the session may be closed twice. *)
Theorem stale_managers :
  (∃ s, rtc p_step sess_new s ∧ (ss_pc s = LAwait ∧ ss_id s = 3 ∧ ss_connected s = false ∧ ss_socket s = Some 1 ∧ 1 ∉ ss_closed s ∧ (ss_sent s).*1 = [0])) ∧
  (∃ s, rtc p_step sess_new s ∧ (ss_pc s = LGo ∧ ss_id s = 3 ∧ ss_send s = [] ∧ (ss_sent s).*1 = [0] ∧ length (ss_lost s) = 1)) ∧
  (∃ s, rtc p_step sess_new s ∧ (ss_pc s = LGo ∧ ss_id s = 3 ∧ ss_recv s = [[[x01]]])) ∧
  (∃ s, rtc s_step sess_new s ∧ ss_panic s = true).
Proof.
  split_and!.
  - apply (p_run stale_error_ops _ _). by vm_compute.
  - apply (p_run lost_ready_ops _ _). by vm_compute.
  - apply (p_run (old_message_ops [[x01]]) _ _). by vm_compute.
  - apply (s_run two_managers_ops _ _). by vm_compute.
Qed.

(** ** A manager that waits for ever *)

Lemma turn_others n k ev s s' : mg_turn k ev s = Some s' → ss_id s' = ss_id s ∧ (n ≠ k → ss_mgrs s' !! n = ss_mgrs s !! n).
Proof.
  unfold mg_turn, mg_check. intros (m & Hm & E)%bind_Some.
  repeat case_match; simplify_eq; simpl; (split; [done|intros Hne; by rewrite ?lookup_insert_ne, ?lookup_delete_ne by done]).
Qed.

Lemma signalled_blocked taker n m gen frames s : ss_mgrs s !! n = Some m → mg_pc m = MBlocked gen frames → gen < ss_id s →
  ss_mgrs (signalled taker s) !! n = Some m.
Proof.
  intros Hm Hpc Hlt. unfold signalled. destruct taker as [k|]; [|done]. destruct (ss_mgrs s !! k) as [m'|] eqn:Hk; [|done].
  destruct (mg_pc m') eqn:Hpc'; try done. case_decide; [|done]. simpl. rewrite lookup_delete_ne; [done|]. intros <-. assert (m = m') as <- by congruence. assert (gen0 = gen) by congruence. lia.
Qed.

Lemma blocked_step n m gen frames s s' : ss_mgrs s !! n = Some m → mg_pc m = MBlocked gen frames → gen < ss_id s → s_step s s' →
  ss_mgrs s' !! n = Some m ∧ ss_id s ≤ ss_id s'.
Proof.
  intros Hm Hpc Hlt (op & E). destruct op; simpl in E.
  - destruct (turn_others n _ _ _ _ E) as [-> Ho]. destruct (decide (n = n0)) as [<-|Hne]; [|by rewrite Ho].
    exfalso. unfold mg_turn in E. rewrite Hm in E. simpl in E. rewrite Hpc in E. case_decide; [lia|done].
  - unfold l_close in E. case_match; simplify_eq. simpl. destruct (signalled_loop taker s) as (_ & _ & ->). by erewrite signalled_blocked.
  - unfold l_closed in E. by repeat case_match; simplify_eq.
  - unfold l_connect in E. by repeat case_match; simplify_eq.
  - unfold initSocketChannels in E. case_match; simplify_eq. simpl. split; [done|lia].
  - unfold l_dial in E. by repeat case_match; simplify_eq.
  - unfold l_go in E. repeat case_match; simplify_eq. simpl. rewrite lookup_insert_ne; [done|congruence].
  - unfold l_receive in E. by repeat case_match; simplify_eq.
  - unfold l_send in E. by repeat case_match; simplify_eq.
  - unfold l_error, session_disconnect in E. repeat case_match; simplify_eq; simpl; try done.
    match goal with |- context [signalled taker ?x] => destruct (signalled_loop taker x) as (_ & _ & ->); by erewrite (signalled_blocked _ _ _ _ _ x) end.
  - unfold l_lost, session_disconnect in E. repeat case_match; simplify_eq; simpl; try done.
    match goal with |- context [signalled taker ?x] => destruct (signalled_loop taker x) as (_ & _ & ->); by erewrite (signalled_blocked _ _ _ _ _ x) end.
  - unfold l_awaited in E. by repeat case_match; simplify_eq.
Qed.

(** A manager that waits for room in a channel that was replaced waits for ever:
    nobody reads that channel any more, and the close signal is sent on the new
    one. *)
Theorem blocked_for_ever n m gen frames s s' : ss_mgrs s !! n = Some m → mg_pc m = MBlocked gen frames → gen < ss_id s → rtc s_step s s' →
  ss_mgrs s' !! n = Some m.
Proof.
  intros Hm Hpc Hlt H. induction H as [|s1 s2 s3 H12 H23 IH]; [done|]. destruct (blocked_step _ _ _ _ _ _ Hm Hpc Hlt H12). apply IH; [done|lia].
Qed.


Lemma blocked_for_ever_witness : ∀ s', let m := mkMgr 2 2 (MBlocked 2 [[x01]]) in
  let s := set_ss_mgrs {[0 := m]} (mkSess LRun false true 3 (Some 1) 2 ∅ [] [] None ∅ ∅ false [] [] [] []) in
  rtc s_step s s' → ss_mgrs s' !! 0 = Some m.
Proof. intros s' m s H. apply (blocked_for_ever 0 m 2 [[x01]] s s'); [done|done|simpl; lia|done]. Defined.
