(* ===== verification/MdpClient.v ===== *)
(** * MdpClient: the Majordomo clients (src/majordomo/client.go)

    The synchronous client retries a request over a REQ socket; the
    asynchronous one matches replies to requests by an identifier it puts in
    front of them. What sockets do is given by the environment: the fate of
    each attempt, of each dial and of each send. *)

From Stdlib Require Import Strings.Byte ZArith Lia.
From stdpp Require Import base strings pretty numbers gmap list.
From S2P Require Import Prelude Zmtp Mdp.

#[local] Open Scope Z_scope.
#[local] Set Default Goal Selector "!".

Record ClientOptions : Type := mkClientOptions { co_Timeout : Z; co_Retries : Z }.

Definition DefaultClientOptions : ClientOptions := mkClientOptions (30 * 1000000000) 3.

(** ** The synchronous client *)

(** [mc_open]: the current socket has not been closed. *)
Record mdpClient : Type := mkMdpClient {
  mc_running : bool;
  mc_open : bool;
  mc_requests : Z;
  mc_replies : Z;
  mc_errors : Z;
  mc_sent : list (list bytes) }.

Definition set_mc_conn (running open : bool) (c : mdpClient) : mdpClient :=
  mkMdpClient running open (mc_requests c) (mc_replies c) (mc_errors c) (mc_sent c).
Definition set_mc_stats (requests replies errors : Z) (c : mdpClient) : mdpClient :=
  mkMdpClient (mc_running c) (mc_open c) requests replies errors (mc_sent c).
Definition set_mc_sent (v : list (list bytes)) (c : mdpClient) : mdpClient :=
  mkMdpClient (mc_running c) (mc_open c) (mc_requests c) (mc_replies c) (mc_errors c) v.

Definition NewClient : mdpClient := mkMdpClient false false 0 0 0 [].

(** [dial] is the error of dialling, if it fails. *)
Definition client_Connect (dial : option error) : M mdpClient unit :=
  c ← mget;
  if mc_running c then mfail (Errorf "mdp: client already connected")
  else
    match dial with
    | Some err => mfail (Wrap "mdp: failed to connect to broker" err)
    | None => mupd (set_mc_conn true true)
    end.

Definition client_Disconnect (close : option error) : M mdpClient unit :=
  c ← mget;
  if negb (mc_running c) then mfail (Errorf "mdp: client not connected")
  else
    mupd (set_mc_conn false false);;
    match close with
    | Some err => mfail (Wrap "mdp: failed to close client socket" err)
    | None => mret tt
    end.

Definition client_processReply (now : Z) (expectedService : ServiceName) (frames : list bytes) : outcome bytes :=
  match ParseClientMessage now frames with
  | Ret reply =>
      if negb (beq (mm_Service reply) expectedService) then Fail (Errorf "mdp: service mismatch in reply") else Ret (mm_Body reply)
  | Fail err => Fail (Wrap "mdp: invalid reply message" err)
  | Panic p => Panic p
  end.

(** What becomes of an attempt. *)
Inductive attempt : Type := SendFails (err : error) | Replies (frames : list bytes) | RecvFails (err : error) | TimesOut.

Definition doRequest (now : Z) (service : ServiceName) (request : bytes) (a : attempt) : M mdpClient bytes :=
  match a with
  | SendFails err => mfail (Wrap "mdp: failed to send request" err)
  | _ =>
      mupd (fun c => set_mc_sent (mc_sent c ++ [FormatClientRequest (NewClientRequest now service request)]) c);;
      match a with
      | Replies frames => lift (client_processReply now service frames)
      | RecvFails err => mfail (Wrap "mdp: failed to receive reply" err)
      | _ => mfail (Errorf "mdp: request timeout")
      end
  end.

(** [reconnect]: the old socket is closed; a failed dial leaves it so. *)
Definition client_reconnect (dial : bool) : M mdpClient unit := mupd (fun c => set_mc_conn (mc_running c) dial c).

(** [env k] is the fate of attempt [k] and of the dial after it. *)
Fixpoint request_loop (now : Z) (env : nat → attempt * bool) (service : ServiceName) (request : bytes)
    (n k : nat) (lastErr : option error) : M mdpClient bytes :=
  match n with
  | O => mfail (match lastErr with Some err => Wrap "mdp: request failed" err | None => Errorf "mdp: request failed" end)
  | S n' =>
      r ← try (doRequest now service request (env k).1);
      match r with
      | inl reply =>
          mupd (fun c => set_mc_stats (wrapu 64 (mc_requests c + 1)) (wrapu 64 (mc_replies c + 1)) (mc_errors c) c);;
          mret reply
      | inr err =>
          mupd (fun c => set_mc_stats (mc_requests c) (mc_replies c) (wrapu 64 (mc_errors c + 1)) c);;
          (if decide (n' = O) then mret tt else client_reconnect (env k).2);;
          request_loop now env service request n' (S k) (Some err)
      end
  end.

Definition client_Request (opts : ClientOptions) (now : Z) (env : nat → attempt * bool) (service : ServiceName) (request : bytes) :
    M mdpClient bytes :=
  c ← mget;
  if negb (mc_running c) then mfail (Errorf "mdp: client not connected")
  else
    match ServiceName_Validate service with
    | Fail err => mfail (Wrap "mdp" err)
    | Panic p => mpanic p
    | Ret _ => request_loop now env service request (Z.to_nat (co_Retries opts + 1)) 0 None
    end.

(** ** The asynchronous client *)

Record AsyncReply : Type := mkAsyncReply { ar_Service : ServiceName; ar_Body : bytes; ar_Error : option error }.

(** A reply channel: it has room for one reply. *)
Record ReplyChan : Type := mkReplyChan { rc_buf : list AsyncReply; rc_closed : bool }.

Record pendingRequest : Type := mkPending { pq_Service : ServiceName; pq_Body : bytes; pq_Timestamp : Z; pq_ReplyCh : nat }.

Record AsyncClient : Type := mkAsync {
  ac_running : bool;
  ac_pending : gmap bytes pendingRequest;
  ac_requestID : Z;
  ac_chans : gmap nat ReplyChan;
  ac_sent : list (list bytes);
  ac_requests : Z;
  ac_replies : Z;
  ac_errors : Z }.

Definition set_ac_running (v : bool) (c : AsyncClient) : AsyncClient :=
  mkAsync v (ac_pending c) (ac_requestID c) (ac_chans c) (ac_sent c) (ac_requests c) (ac_replies c) (ac_errors c).
Definition set_ac_pending (v : gmap bytes pendingRequest) (c : AsyncClient) : AsyncClient :=
  mkAsync (ac_running c) v (ac_requestID c) (ac_chans c) (ac_sent c) (ac_requests c) (ac_replies c) (ac_errors c).
Definition set_ac_chans (v : gmap nat ReplyChan) (c : AsyncClient) : AsyncClient :=
  mkAsync (ac_running c) (ac_pending c) (ac_requestID c) v (ac_sent c) (ac_requests c) (ac_replies c) (ac_errors c).
Definition set_ac_stats (requests replies errors : Z) (c : AsyncClient) : AsyncClient :=
  mkAsync (ac_running c) (ac_pending c) (ac_requestID c) (ac_chans c) (ac_sent c) requests replies errors.

Definition NewAsyncClient : AsyncClient := mkAsync false ∅ 0 ∅ [] 0 0 0.

Definition async_Connect (dial : option error) : M AsyncClient unit :=
  c ← mget;
  if ac_running c then mfail (Errorf "mdp: async client already connected")
  else
    match dial with
    | Some err => mfail (Wrap "mdp: failed to connect to broker" err)
    | None => mupd (set_ac_running true)
    end.

(** [ch <- reply; close(ch)] on a channel of capacity one that nobody
    receives from. *)
Definition answer_ch (ch : nat) (reply : AsyncReply) : M AsyncClient unit :=
  c ← mget;
  match ac_chans c !! ch with
  | None => mpanic "blocked on a nil channel"
  | Some (mkReplyChan _ true) => mpanic "send on closed channel"
  | Some (mkReplyChan (_ :: _) false) => mpanic "blocked on a full channel"
  | Some (mkReplyChan [] false) => mupd (fun c => set_ac_chans (<[ch := mkReplyChan [reply] true]> (ac_chans c)) c)
  end.

Definition error_reply (err : error) : AsyncReply := mkAsyncReply [] [] (Some err).

(** The loop of [Disconnect] over the pending requests. *)
Fixpoint answer_all (err : error) (l : list (bytes * pendingRequest)) : M AsyncClient unit :=
  match l with
  | [] => mret tt
  | (_, pending) :: l => answer_ch (pq_ReplyCh pending) (error_reply err);; answer_all err l
  end.

Definition async_Disconnect (range : gmap bytes pendingRequest → list (bytes * pendingRequest)) (close : option error) : M AsyncClient unit :=
  c ← mget;
  if negb (ac_running c) then mfail (Errorf "mdp: async client not connected")
  else
    mupd (set_ac_running false);;
    match close with
    | Some err => mfail (Wrap "mdp: failed to close async client socket" err)
    | None =>
        answer_all (Errorf "mdp: client disconnected") (range (ac_pending c));;
        mupd (set_ac_pending ∅)
    end.

(** [fmt.Sprintf("%d", c.requestID)] *)
Definition request_id (n : Z) : bytes := gs (pretty (Z.to_N n)).

(** [send] is the error of the socket, if it fails. *)
Definition RequestAsync (now : Z) (send : option error) (service : ServiceName) (request : bytes) : M AsyncClient nat :=
  c ← mget;
  if negb (ac_running c) then mfail (Errorf "mdp: async client not connected")
  else
    match ServiceName_Validate service with
    | Fail err => mfail (Wrap "mdp" err)
    | Panic p => mpanic p
    | Ret _ =>
        let n := wrapu 64 (ac_requestID c + 1) in
        let reqID := request_id n in
        let replyCh := fresh (dom (ac_chans c)) in
        let pending := mkPending service request now replyCh in
        mupd (fun c => mkAsync (ac_running c) (<[reqID := pending]> (ac_pending c)) n (<[replyCh := mkReplyChan [] false]> (ac_chans c))
                 (ac_sent c) (ac_requests c) (ac_replies c) (ac_errors c));;
        match send with
        | Some err =>
            mupd (fun c => set_ac_chans (<[replyCh := mkReplyChan [] true]> (ac_chans c)) (set_ac_pending (delete reqID (ac_pending c)) c));;
            mfail (Wrap "mdp: failed to send async request" err)
        | None =>
            mupd (fun c => mkAsync (ac_running c) (ac_pending c) (ac_requestID c) (ac_chans c)
                     (ac_sent c ++ [reqID :: FormatClientRequest (NewClientRequest now service request)])
                     (wrapu 64 (ac_requests c + 1)) (ac_replies c) (ac_errors c));;
            mret replyCh
        end
    end.

Definition count_error : M AsyncClient unit :=
  mupd (fun c => set_ac_stats (ac_requests c) (ac_replies c) (wrapu 64 (ac_errors c + 1)) c).

Definition async_processReply (now : Z) (frames : list bytes) : M AsyncClient unit :=
  match frames with
  | [] => mret tt
  | reqID :: rest =>
      c ← mget;
      match ac_pending c !! reqID with
      | None => mret tt
      | Some pending =>
          mupd (set_ac_pending (delete reqID (ac_pending c)));;
          match ParseClientMessage now rest with
          | Panic p => mpanic p
          | Fail err => answer_ch (pq_ReplyCh pending) (error_reply (Wrap "mdp: invalid reply message" err));; count_error
          | Ret reply =>
              if negb (beq (mm_Service reply) (pq_Service pending)) then
                answer_ch (pq_ReplyCh pending) (error_reply (Errorf "mdp: service mismatch in reply"));; count_error
              else
                answer_ch (pq_ReplyCh pending) (mkAsyncReply (mm_Service reply) (mm_Body reply) None);;
                mupd (fun c => set_ac_stats (ac_requests c) (wrapu 64 (ac_replies c + 1)) (ac_errors c) c)
          end
      end
  end.

(** The loop of [cleanup]. *)
Fixpoint cleanup_loop (opts : ClientOptions) (now : Z) (l : list (bytes * pendingRequest)) : M AsyncClient unit :=
  match l with
  | [] => mret tt
  | (reqID, pending) :: l =>
      (if decide (co_Timeout opts < now - pq_Timestamp pending) then
         answer_ch (pq_ReplyCh pending) (error_reply (Errorf "mdp: request timeout"));;
         mupd (fun c => set_ac_pending (delete reqID (ac_pending c)) c);;
         count_error
       else mret tt);;
      cleanup_loop opts now l
  end.

Definition async_cleanup (opts : ClientOptions) (range : gmap bytes pendingRequest → list (bytes * pendingRequest)) (now : Z) : M AsyncClient unit :=
  c ← mget; cleanup_loop opts now (range (ac_pending c)).

(** ** Statistics and loops *)

Record clientStats : Type := mkClientStats { ct_requests : Z; ct_replies : Z; ct_errors : Z; ct_pending : Z; ct_connected : bool }.

(** The synchronous client has no pending requests to report. *)
Definition client_GetStats (c : mdpClient) : clientStats := mkClientStats (mc_requests c) (mc_replies c) (mc_errors c) 0 (mc_running c).
Definition async_GetStats (c : AsyncClient) : clientStats :=
  mkClientStats (ac_requests c) (ac_replies c) (ac_errors c) (Z.of_nat (size (ac_pending c))) (ac_running c).

(** One turn of the loops of the asynchronous client, with their [select]s;
    [false]: the loop returns. *)
Definition async_messageLoop (stopped : bool) (now : Z) (recv : list bytes + error) : M AsyncClient bool :=
  if stopped then mret false
  else match recv with inr _ => mret true | inl frames => async_processReply now frames;; mret true end.
Definition async_cleanupLoop (opts : ClientOptions) (range : gmap bytes pendingRequest → list (bytes * pendingRequest)) (tick stopped : bool) (now : Z) :
    M AsyncClient bool :=
  if tick then async_cleanup opts range now;; mret true else mret (negb stopped).
