(* ===== verification/MdpClientFacts.v ===== *)
(** * MdpClientFacts: what the Majordomo clients guarantee

    The synchronous client returns the first good reply within its retries;
    the asynchronous one answers every request exactly once; and the replies
    of this broker carry no identifier, so the asynchronous client drops
    them. *)

From Stdlib Require Import Strings.Byte ZArith Lia.
From stdpp Require Import base strings pretty numbers gmap list.
From S2P Require Import Prelude Zmtp Mdp MdpClient.

#[local] Open Scope Z_scope.
#[local] Set Default Goal Selector "!".

(** ** Retries *)

(** What an attempt would return. *)
Definition attempt_result (now : Z) (service : ServiceName) (a : attempt) : outcome bytes :=
  match a with
  | SendFails err => Fail (Wrap "mdp: failed to send request" err)
  | Replies frames => client_processReply now service frames
  | RecvFails err => Fail (Wrap "mdp: failed to receive reply" err)
  | TimesOut => Fail (Errorf "mdp: request timeout")
  end.

Definition attempt_frames (now : Z) (service : ServiceName) (request : bytes) (a : attempt) : list (list bytes) :=
  match a with SendFails _ => [] | _ => [FormatClientRequest (NewClientRequest now service request)] end.

Lemma doRequest_result now service request a c :
  doRequest now service request a c =
    (attempt_result now service a, set_mc_sent (mc_sent c ++ attempt_frames now service request a) c).
Proof. destruct a; cbn; [|done..]. rewrite app_nil_r. by destruct c. Qed.

Lemma wrapu_idem x : wrapu 64 (wrapu 64 x) = wrapu 64 x.
Proof. unfold wrapu. by rewrite Z.mod_mod by lia. Qed.

(** What the client has done since [c]: [e] failed attempts, [m] messages. *)
Definition tried (now : Z) (service : ServiceName) (request : bytes) (c c' : mdpClient) (e : Z) (m : nat) : Prop :=
  mc_running c' = mc_running c ∧ wrapu 64 (mc_errors c') = wrapu 64 (mc_errors c + e) ∧
  mc_sent c' = mc_sent c ++ replicate m (FormatClientRequest (NewClientRequest now service request)).

Section Retries.
Context (now : Z) (env : nat → attempt * bool) (service : ServiceName) (request : bytes).

(** One failed attempt. *)
Lemma loop_fails n k lastErr c e :
  attempt_result now service (env k).1 = Fail e →
  ∃ c' m, (m <= 1)%nat ∧ request_loop now env service request (S n) k lastErr c = request_loop now env service request n (S k) (Some e) c' ∧
    mc_requests c' = mc_requests c ∧ mc_replies c' = mc_replies c ∧ tried now service request c c' 1 m.
Proof.
  intros He. cbn [request_loop]. unfold mbind at 1, M_bind at 1. unfold try. rewrite doRequest_result, He. cbv beta iota.
  set (c1 := set_mc_sent _ c).
  set (c2 := set_mc_stats (mc_requests c1) (mc_replies c1) (wrapu 64 (mc_errors c1 + 1)) c1).
  rewrite (M_bind_ret _ _ _ tt c2) by done. cbv beta.
  assert (Hframes : ∃ m, (m <= 1)%nat ∧ attempt_frames now service request (env k).1 = replicate m (FormatClientRequest (NewClientRequest now service request)))
    by (destruct (env k).1; [exists 0%nat|exists 1%nat..]; split; (lia || done)).
  destruct Hframes as (m & Hm & Hf).
  assert (Ht : ∀ b, tried now service request c (set_mc_conn (mc_running c2) b c2) 1 m).
  { intros b. split; [done|]. split; [apply wrapu_idem|]. cbn. by rewrite Hf. }
  exists (if decide (n = O) then c2 else set_mc_conn (mc_running c2) (env k).2 c2), m. split; [done|].
  destruct (decide (n = O)).
  - rewrite (M_bind_ret _ _ _ tt c2) by done. split; [done|]. split_and!; [done|done|exact (Ht (mc_open c2))].
  - rewrite (M_bind_ret _ _ _ tt (set_mc_conn (mc_running c2) (env k).2 c2)) by done. split; [done|]. by split_and!.
Qed.

Lemma tried_trans c1 c2 c3 e1 e2 m1 m2 :
  tried now service request c1 c2 e1 m1 → tried now service request c2 c3 e2 m2 → tried now service request c1 c3 (e1 + e2) (m1 + m2).
Proof.
  intros (R1 & E1 & S1) (R2 & E2 & S2). split; [congruence|]. split.
  - rewrite E2. unfold wrapu in *. rewrite <- (Z.add_mod_idemp_l (mc_errors c2)), E1, Z.add_mod_idemp_l by lia. f_equal. lia.
  - rewrite S2, S1, replicate_add. by rewrite app_assoc.
Qed.

Lemma loop_prefix j : ∀ n k lastErr c,
  (∀ i, (i < j)%nat → ∃ e, attempt_result now service (env (k + i)).1 = Fail e) →
  ∃ c' m err, (m <= j)%nat ∧
    request_loop now env service request (j + n) k lastErr c = request_loop now env service request n (k + j) err c' ∧
    mc_requests c' = mc_requests c ∧ mc_replies c' = mc_replies c ∧ tried now service request c c' (Z.of_nat j) m.
Proof.
  induction j as [|j IH]; intros n k lastErr c Hfail.
  - exists c, 0%nat, lastErr. rewrite Nat.add_0_r. split; [done|]. split; [done|]. do 2 (split; [done|]).
    split; [done|]. cbn. by rewrite Z.add_0_r, app_nil_r.
  - destruct (Hfail 0%nat) as [e He]; [lia|]. rewrite Nat.add_0_r in He.
    destruct (loop_fails (j + n) k lastErr c e He) as (c1 & m1 & Hm1 & E1 & Hr1 & Hp1 & Ht1).
    destruct (IH n (S k) (Some e) c1) as (c' & m & err & Hm & E & Hr & Hp & Ht).
    { intros i Hi. destruct (Hfail (S i)) as [e' He']; [lia|]. exists e'. by replace (S k + i)%nat with (k + S i)%nat by lia. }
    exists c', (m1 + m)%nat, err. split; [lia|]. cbn [Nat.add]. rewrite E1, E. replace (S k + j)%nat with (k + S j)%nat by lia.
    split; [done|]. split; [congruence|]. split; [congruence|].
    replace (Z.of_nat (S j)) with (1 + Z.of_nat j) by lia. by eapply tried_trans.
Qed.
End Retries.

Lemma broker_reply_accepted now now' service body :
  0 < len service <= 255 → client_processReply now service (FormatClientReply (NewClientReply now' service body)) = Ret body.
Proof.
  intros Hs. unfold client_processReply.
  destruct (client_message_roundtrip now now' [] service body (NewClientReply now' service body)) as [_ H]; [constructor|done|].
  rewrite H by done. cbn [mm_Service mm_Body]. unfold beq. by rewrite bool_decide_true.
Qed.

(** A request is retried until it is answered: a connected client returns
    the body of the first good reply among its first [Retries + 1] attempts,
    counting the failures before it, and fails after that many failures, no
    sooner and no later; it sends the same request each time and at most once
    per attempt; and what the broker sends as a reply for the service is a
    good reply, whatever its body. *)
Theorem client_retries opts now env service request c :
  mc_running c = true → 0 < len service <= 255 → 0 <= co_Retries opts →
  let n := Z.to_nat (co_Retries opts + 1) in
  (∀ k body, (k < n)%nat → (∀ j, (j < k)%nat → ∃ e, attempt_result now service (env j).1 = Fail e) →
     attempt_result now service (env k).1 = Ret body →
     ∃ c' m, client_Request opts now env service request c = (Ret body, c') ∧ (m <= S k)%nat ∧
       tried now service request c c' (Z.of_nat k) m ∧ mc_replies c' = wrapu 64 (mc_replies c + 1)) ∧
  ((∀ j, (j < n)%nat → ∃ e, attempt_result now service (env j).1 = Fail e) →
     ∃ e c' m, client_Request opts now env service request c = (Fail e, c') ∧ (m <= n)%nat ∧
       tried now service request c c' (Z.of_nat n) m) ∧
  ∀ now' body, attempt_result now service (Replies (FormatClientReply (NewClientReply now' service body))) = Ret body.
Proof.
  intros Hrun Hs Hret n. unfold client_Request. rewrite (M_bind_ret _ _ _ _ _ (eq_refl : mget c = (Ret c, c))). cbv beta.
  rewrite Hrun, Validate_ok by done. cbn [negb]. fold n. split_and!.
  - intros k body Hk Hfail Hok.
    destruct (loop_prefix now env service request k (n - k) 0 None c) as (c1 & m & err & Hm & E & Hr & Hp & Ht); [done|].
    replace (k + (n - k))%nat with n in E by lia. rewrite Nat.add_0_l in E. rewrite E. destruct (n - k)%nat as [|n'] eqn:En; [lia|]. cbn [request_loop].
    unfold mbind, M_bind, try, mupd. rewrite doRequest_result, Hok. cbv beta iota.
    eexists _, (m + length (attempt_frames now service request (env k).1))%nat. split; [reflexivity|].
    split; [destruct (env k).1; cbn; lia|]. split; [|cbn; by rewrite Hp].
    rewrite <- (Z.add_0_r (Z.of_nat k)). eapply tried_trans; [exact Ht|]. split; [done|]. split; [cbn; by rewrite Z.add_0_r|].
    cbn. f_equal. by destruct (env k).1.
  - intros Hfail. destruct (loop_prefix now env service request n 0 0 None c) as (c1 & m & err & Hm & E & _ & _ & Ht); [done|].
    rewrite Nat.add_0_r in E. rewrite E. by eexists _, c1, m.
  - intros now' body. by apply broker_reply_accepted.
Qed.

Lemma client_retries_witness :
  let env (k : nat) := (if decide (k = 2)%nat then Replies (FormatClientReply (NewClientReply 7 (gs "echo") (gs "hi"))) else TimesOut, true) in
  ∃ c', client_Request DefaultClientOptions 5 env (gs "echo") (gs "hi") (mkMdpClient true true 0 0 0 []) = (Ret (gs "hi"), c') ∧
    mc_replies c' = 1.
Proof.
  intros env. destruct (client_retries DefaultClientOptions 5 env (gs "echo") (gs "hi") (mkMdpClient true true 0 0 0 [])) as (H & _ & Hr).
  - done.
  - change (len (gs "echo")) with 4. lia.
  - cbn. lia.
  - destruct (H 2%nat (gs "hi")) as (c' & m & Hc & _ & _ & Hrep).
    + cbn. lia.
    + intros [|[|j]] Hj; [by eexists|by eexists|lia].
    + apply (Hr 7).
    + exists c'. by split.
Defined.

(** ** Answering once *)

Inductive async_op : Type :=
| OpConnect (dial : option error)
| OpDisconnect (range : gmap bytes pendingRequest → list (bytes * pendingRequest)) (close : option error)
| OpRequest (now : Z) (send : option error) (service : ServiceName) (request : bytes)
| OpReply (now : Z) (frames : list bytes)
| OpCleanup (opts : ClientOptions) (range : gmap bytes pendingRequest → list (bytes * pendingRequest)) (now : Z).

(** An operation and the reply channel it hands out, if any. *)
Definition run_op (op : async_op) : M AsyncClient (option nat) :=
  match op with
  | OpConnect dial => async_Connect dial;; mret None
  | OpDisconnect range close => async_Disconnect range close;; mret None
  | OpRequest now send service request => ch ← RequestAsync now send service request; mret (Some ch)
  | OpReply now frames => async_processReply now frames;; mret None
  | OpCleanup opts range now => async_cleanup opts range now;; mret None
  end.

Definition op_ok (op : async_op) : Prop :=
  match op with OpDisconnect range _ | OpCleanup _ range _ => range_order range | _ => True end.

(** A client and the reply channels handed out so far. *)
Inductive async_step : AsyncClient * list nat → AsyncClient * list nat → Prop :=
| AsyncStep op c issued : op_ok op →
    async_step (c, issued) ((run_op op c).2, issued ++ match (run_op op c).1 with Ret (Some ch) => [ch] | _ => [] end).

(** Pending requests have identifiers that were given out, and channels of
    their own, open and empty; a channel that was handed out belongs to a
    pending request or holds one reply and is closed. *)
Definition async_ok (c : AsyncClient) (issued : list nat) : Prop :=
  (∀ id p, ac_pending c !! id = Some p →
     ac_chans c !! pq_ReplyCh p = Some (mkReplyChan [] false) ∧ ∃ k, 1 <= k <= ac_requestID c ∧ id = request_id k) ∧
  (∀ id id' p p', ac_pending c !! id = Some p → ac_pending c !! id' = Some p' → pq_ReplyCh p = pq_ReplyCh p' → id = id') ∧
  (∀ ch, ch ∈ issued → (∃ id p, ac_pending c !! id = Some p ∧ pq_ReplyCh p = ch) ∨ ∃ r, ac_chans c !! ch = Some (mkReplyChan [r] true)).

Lemma gs_inj a b : gs a = gs b → a = b.
Proof.
  unfold gs. intros H. rewrite <- (String.string_of_list_byte_of_string a), <- (String.string_of_list_byte_of_string b). by rewrite H.
Qed.

Lemma request_id_inj a b : 0 <= a → 0 <= b → request_id a = request_id b → a = b.
Proof. intros Ha Hb H%gs_inj%(inj pretty). lia. Qed.

(** A pending request is answered and forgotten. *)
Definition resolve (id : bytes) (p : pendingRequest) (r : AsyncReply) (c : AsyncClient) : AsyncClient :=
  set_ac_chans (<[pq_ReplyCh p := mkReplyChan [r] true]> (ac_chans c)) (set_ac_pending (delete id (ac_pending c)) c).

Lemma resolve_ok id p r c issued : async_ok c issued → ac_pending c !! id = Some p → async_ok (resolve id p r c) issued.
Proof.
  intros (HA & HB & HC) Hp. split_and!.
  - intros id' p'. cbn. intros [Hne Hp']%lookup_delete_Some. destruct (HA _ _ Hp') as [Hch Hid]. split; [|done].
    rewrite lookup_insert_ne; [done|]. intros E. by apply Hne, (HB id id' p p').
  - cbn. intros id1 id2 p1 p2 [_ H1]%lookup_delete_Some [_ H2]%lookup_delete_Some. by apply HB.
  - cbn. intros ch Hch. destruct (HC ch Hch) as [(id' & p' & Hp' & <-)|[r' Hr']].
    + destruct (decide (id' = id)) as [->|Hne].
      * rewrite Hp in Hp'. injection Hp' as <-. right. exists r. by rewrite lookup_insert_eq.
      * left. exists id', p'. split; [|done]. apply lookup_delete_Some. by split.
    + right. exists r'. rewrite lookup_insert_ne; [done|]. intros E. destruct (HA _ _ Hp) as [Ho _]. rewrite E, Hr' in Ho. done.
Qed.

Lemma answer_open ch r c : ac_chans c !! ch = Some (mkReplyChan [] false) →
  answer_ch ch r c = (Ret tt, set_ac_chans (<[ch := mkReplyChan [r] true]> (ac_chans c)) c).
Proof. intros H. unfold answer_ch. rewrite (M_bind_ret _ _ _ _ _ (eq_refl : mget c = (Ret c, c))). by rewrite H. Qed.

Lemma async_ok_stats a b e c issued : async_ok c issued → async_ok (set_ac_stats a b e c) issued.
Proof. done. Qed.

Lemma processReply_ok now frames c issued :
  async_ok c issued → ∃ c', async_processReply now frames c = (Ret tt, c') ∧ async_ok c' issued ∧ ac_requestID c' = ac_requestID c.
Proof.
  intros Hok. unfold async_processReply. destruct frames as [|reqID rest]; [by exists c|].
  rewrite (M_bind_ret _ _ _ _ _ (eq_refl : mget c = (Ret c, c))). cbv beta.
  destruct (ac_pending c !! reqID) as [p|] eqn:Hp; [|by exists c].
  set (c1 := set_ac_pending (delete reqID (ac_pending c)) c). rewrite (M_bind_ret _ _ _ tt c1) by done. cbv beta.
  assert (Ha : ∀ r, answer_ch (pq_ReplyCh p) r c1 = (Ret tt, resolve reqID p r c)).
  { intros r. rewrite answer_open by (by apply Hok in Hp as [? _]). done. }
  pose proof (fun r => resolve_ok reqID p r c issued Hok Hp) as Hres.
  destruct (ParseClientMessage now rest) as [reply|err|pmsg] eqn:Epm; [|..|by apply ParseClient_no_panic in Epm].
  - destruct (negb _); rewrite (M_bind_ret _ _ _ _ _ (Ha _)); eexists; (split; [reflexivity|]); by split; [apply async_ok_stats, Hres|].
  - rewrite (M_bind_ret _ _ _ _ _ (Ha _)). eexists. split; [reflexivity|]. by split; [apply async_ok_stats, Hres|].
Qed.

Lemma cleanup_ok_loop opts now issued l : ∀ c,
  NoDup l.*1 → (∀ id p, (id, p) ∈ l → ac_pending c !! id = Some p) → async_ok c issued →
  ∃ c', cleanup_loop opts now l c = (Ret tt, c') ∧ async_ok c' issued ∧ ac_requestID c' = ac_requestID c.
Proof.
  induction l as [|[id p] l IH]; intros c Hnd Hin Hok; [by exists c|]. apply NoDup_cons in Hnd as [Hid Hnd]. cbn [cleanup_loop].
  assert (Hp : ac_pending c !! id = Some p) by (apply Hin; by left). case_decide.
  - pose proof (proj1 (proj1 Hok _ _ Hp)) as Hopen.
    set (r := error_reply (Errorf "mdp: request timeout")). set (c1 := resolve id p r c).
    set (c2 := set_ac_stats (ac_requests c1) (ac_replies c1) (wrapu 64 (ac_errors c1 + 1)) c1).
    rewrite (M_bind_ret _ _ _ tt c2).
    2:{ rewrite (M_bind_ret _ _ _ _ _ (answer_open _ r _ Hopen)). done. }
    cbv beta. destruct (IH c2) as (c' & E & Hok' & Hn); [done| |by apply async_ok_stats, resolve_ok|by exists c'].
    intros id' p' Hl. cbn. apply lookup_delete_Some. split; [|apply Hin; by right].
    intros ->. apply Hid, list_elem_of_fmap. by exists (id', p').
  - rewrite (M_bind_ret _ _ _ tt c) by done. cbv beta. apply IH; [done| |done]. intros id' p' Hl. apply Hin. by right.
Qed.

(** The loop of [Disconnect]: every channel of the list gets the reply. *)
Lemma answer_all_ok err l : ∀ c,
  NoDup ((fun e => pq_ReplyCh e.2) <$> l) → (∀ e, e ∈ l → ac_chans c !! pq_ReplyCh e.2 = Some (mkReplyChan [] false)) →
  ∃ chans, answer_all err l c = (Ret tt, set_ac_chans chans c) ∧
    (∀ e, e ∈ l → chans !! pq_ReplyCh e.2 = Some (mkReplyChan [error_reply err] true)) ∧
    ∀ ch, (∀ e, e ∈ l → pq_ReplyCh e.2 ≠ ch) → chans !! ch = ac_chans c !! ch.
Proof.
  induction l as [|[id p] l IH]; intros c Hnd Hopen; cbn [answer_all].
  - exists (ac_chans c). split; [by destruct c|]. split; [by intros e ?%elem_of_nil|done].
  - cbn [fmap list_fmap] in Hnd. apply NoDup_cons in Hnd as [Hp Hnd].
    rewrite (M_bind_ret _ _ _ _ _ (answer_open _ (error_reply err) _ (Hopen (id, p) ltac:(by left)))). cbv beta.
    assert (Hne : ∀ e, e ∈ l → pq_ReplyCh e.2 ≠ pq_ReplyCh p).
    { intros e He E. apply Hp, list_elem_of_fmap. by exists e. }
    set (c1 := set_ac_chans _ c). destruct (IH c1) as (chans & E & Hans & Hsame); [done| |].
    { intros e He. cbn. rewrite lookup_insert_ne by (symmetry; by apply Hne). apply Hopen. by right. }
    exists chans. split; [done|]. split.
    + intros e [->|He]%elem_of_cons; [|by apply Hans]. cbn. rewrite Hsame by done. cbn. by rewrite lookup_insert_eq.
    + intros ch Hch. rewrite Hsame by (intros e He; apply Hch; by right). cbn. rewrite lookup_insert_ne; [done|].
      apply (Hch (id, p)). by left.
Qed.

Lemma Disconnect_ok range close c issued :
  range_order range → async_ok c issued →
  async_ok (async_Disconnect range close c).2 issued ∧ ac_requestID (async_Disconnect range close c).2 = ac_requestID c ∧
  ∀ p, (async_Disconnect range close c).1 ≠ Panic p.
Proof.
  intros Hr Hok. unfold async_Disconnect. rewrite (M_bind_ret _ _ _ _ _ (eq_refl : mget c = (Ret c, c))). cbv beta.
  destruct (ac_running c); [|done]. cbn [negb]. rewrite (M_bind_ret _ _ _ tt (set_ac_running false c)) by done. cbv beta.
  destruct close; [done|]. destruct Hok as (HA & HB & HC).
  assert (Hin : ∀ id p, (id, p) ∈ range (ac_pending c) ↔ ac_pending c !! id = Some p) by (intros; by apply range_order_elem).
  destruct (answer_all_ok (Errorf "mdp: client disconnected") (range (ac_pending c)) (set_ac_running false c)) as (chans & E & Hans & Hsame).
  - apply NoDup_fmap_2_strong; [|by eapply NoDup_fmap_1, range_order_NoDup].
    intros [id p] [id' p'] H1%Hin H2%Hin Heq. cbn in Heq. assert (id = id') as <- by (by apply (HB id id' p p')). congruence.
  - intros [id p] Hp%Hin. cbn. by apply HA in Hp as [? _].
  - rewrite (M_bind_ret _ _ _ _ _ E). cbn. split; [|done]. split_and!.
    + intros id p. cbn. by rewrite lookup_empty.
    + intros id id' p p'. cbn. by rewrite lookup_empty.
    + intros ch Hch. cbn. right. destruct (HC ch Hch) as [(id & p & Hp & <-)|[r Hr']].
      * eexists. apply (Hans (id, p)). by apply Hin.
      * exists r. rewrite Hsame; [done|]. intros [id p] Hp%Hin Heq. cbn in Heq. apply HA in Hp as [Ho _]. rewrite Heq, Hr' in Ho. done.
Qed.

Lemma Request_ok now send service request c issued :
  async_ok c issued → 0 <= ac_requestID c < 2 ^ 64 - 1 →
  let r := RequestAsync now send service request c in
  async_ok r.2 (issued ++ match r.1 with Ret ch => [ch] | _ => [] end) ∧ ac_requestID c <= ac_requestID r.2 <= ac_requestID c + 1 ∧
  ∀ p, r.1 ≠ Panic p.
Proof.
  intros Hok Hn. unfold RequestAsync. rewrite (M_bind_ret _ _ _ _ _ (eq_refl : mget c = (Ret c, c))). cbv beta.
  destruct (ac_running c); [|cbn; rewrite app_nil_r; split; [done|split; [lia|done]]]. cbn [negb].
  destruct (ServiceName_Validate service) as [[]|e|p] eqn:Ev; [|cbn; rewrite app_nil_r; split; [done|split; [lia|done]]|].
  2:{ unfold ServiceName_Validate in Ev. repeat case_decide; done. }
  set (n := wrapu 64 (ac_requestID c + 1)). assert (En : n = ac_requestID c + 1) by (unfold n, wrapu; apply Z.mod_small; lia).
  clearbody n. set (ch := fresh (dom (ac_chans c))). pose proof (is_fresh (dom (ac_chans c))) as Hfresh%not_elem_of_dom. fold ch in Hfresh.
  set (pending := mkPending service request now ch).
  set (c1 := mkAsync (ac_running c) (<[request_id n := pending]> (ac_pending c)) n (<[ch := mkReplyChan [] false]> (ac_chans c))
    (ac_sent c) (ac_requests c) (ac_replies c) (ac_errors c)).
  rewrite (M_bind_ret _ _ _ tt c1) by done. cbv beta. destruct Hok as (HA & HB & HC).
  assert (Hnew : ac_pending c !! request_id n = None).
  { destruct (ac_pending c !! request_id n) as [p|] eqn:Hp; [|done]. apply HA in Hp as (_ & k & Hk & E).
    apply request_id_inj in E; lia. }
  assert (Hold : ∀ id p, ac_pending c !! id = Some p → pq_ReplyCh p ≠ ch) by (intros id p [Hp _]%HA E; rewrite E in Hp; congruence).
  assert (Hiss : ∀ ch', ch' ∈ issued → ch' ≠ ch).
  { intros ch' Hch' ->. destruct (HC ch Hch') as [(id & p & Hp & E)|[r Hr]]; [by apply Hold in Hp|congruence]. }
  destruct send as [e|]; unfold mbind, M_bind, mupd, mfail, mret, M_ret; cbn.
  - split; [|split; [lia|done]]. rewrite app_nil_r, delete_insert_id by done. split_and!; cbn.
    + intros id p Hp. destruct (HA id p Hp) as (Ho & k & Hk & ->). split; [|by exists k; split; [lia|]].
      apply Hold in Hp. by rewrite !lookup_insert_ne.
    + done.
    + intros ch' Hch'. rewrite !lookup_insert_ne by (symmetry; by apply Hiss). by apply HC.
  - split; [|split; [lia|done]]. split_and!; cbn.
    + intros id p [[<- <-]|[Hne Hp]]%lookup_insert_Some.
      * split; [by rewrite lookup_insert_eq|]. exists n. split; [lia|done].
      * destruct (HA id p Hp) as (Ho & k & Hk & ->). split; [|by exists k; split; [lia|]]. apply Hold in Hp. by rewrite lookup_insert_ne.
    + intros id id' p p' [[<- <-]|[Hne Hp]]%lookup_insert_Some [[<- <-]|[Hne' Hp']]%lookup_insert_Some; cbn; intros E; [done|..].
      * by apply Hold in Hp'.
      * by apply Hold in Hp.
      * by apply (HB id id' p p').
    + intros ch' [Hch'| ->%list_elem_of_singleton]%elem_of_app.
      * rewrite lookup_insert_ne by (symmetry; by apply Hiss). destruct (HC ch' Hch') as [(id & p & Hp & E)|?]; [left|by right].
        exists id, p. split; [|done]. apply lookup_insert_Some. right. split; [congruence|done].
      * left. exists (request_id n), pending. by rewrite lookup_insert_eq.
Qed.

Lemma async_step_ok c issued c' issued' n :
  async_step (c, issued) (c', issued') → async_ok c issued → 0 <= ac_requestID c <= Z.of_nat n → Z.of_nat n < 2 ^ 64 - 1 →
  async_ok c' issued' ∧ 0 <= ac_requestID c' <= Z.of_nat (S n).
Proof.
  intros Hstep Hok Hn Hlt. inversion Hstep as [op ? ? Hop]; subst.
  assert (Hnop : ∀ m : M AsyncClient unit, async_ok (m c).2 issued → ac_requestID (m c).2 = ac_requestID c →
    async_ok ((m;; mret (@None nat)) c).2 (issued ++ match ((m;; mret (@None nat)) c).1 with Ret (Some ch) => [ch] | _ => [] end) ∧
    0 <= ac_requestID ((m;; mret (@None nat)) c).2 <= Z.of_nat (S n)).
  { intros m Hm Hid. unfold mbind, M_bind. destruct (m c) as [[]]; cbn in *; rewrite app_nil_r; (split; [done|lia]). }
  destruct op as [dial|range close|now send service request|now frames|opts range now]; cbn [run_op].
  - apply Hnop; unfold async_Connect, mbind, M_bind, mget; destruct (ac_running c); try done; by destruct dial.
  - destruct (Disconnect_ok range close c issued Hop Hok) as (? & ? & _). by apply Hnop.
  - destruct (Request_ok now send service request c issued Hok) as (H1 & H2 & _); [lia|].
    unfold mbind, M_bind. destruct (RequestAsync now send service request c) as [[] c2]; cbn in *; (split; [done|lia]).
  - destruct (processReply_ok now frames c issued Hok) as (c2 & E & H1 & H2). apply Hnop; by rewrite E.
  - unfold async_cleanup. destruct (cleanup_ok_loop opts now issued (range (ac_pending c)) c) as (c2 & E & H1 & H2);
      [by apply range_order_NoDup|intros id p; by apply range_order_elem|done|].
    apply Hnop; rewrite (M_bind_ret _ _ _ _ _ (eq_refl : mget c = (Ret c, c))); by rewrite E.
Qed.

Lemma op_no_panic op c issued p :
  op_ok op → async_ok c issued → 0 <= ac_requestID c < 2 ^ 64 - 1 → (run_op op c).1 ≠ Panic p.
Proof.
  intros Hop Hok Hn.
  assert (Hnop : ∀ m : M AsyncClient unit, (∀ p, (m c).1 ≠ Panic p) → ((m;; mret (@None nat)) c).1 ≠ Panic p).
  { intros m Hm. unfold mbind, M_bind. specialize (Hm p). destruct (m c) as [[] ?]; [done|done|]. intros [= ->]. by apply Hm. }
  destruct op as [dial|range close|now send service request|now frames|opts range now]; cbn [run_op].
  - apply Hnop. intros q. unfold async_Connect, mbind, M_bind, mget. destruct (ac_running c); [done|]. by destruct dial.
  - apply Hnop. by apply (Disconnect_ok range close c issued).
  - destruct (Request_ok now send service request c issued Hok Hn) as (_ & _ & H). specialize (H p).
    unfold mbind, M_bind. destruct (RequestAsync now send service request c) as [[] ?]; [done|done|]. intros [= ->]. by apply H.
  - apply Hnop. intros q. destruct (processReply_ok now frames c issued Hok) as (c2 & E & _). by rewrite E.
  - apply Hnop. intros q. unfold async_cleanup. rewrite (M_bind_ret _ _ _ _ _ (eq_refl : mget c = (Ret c, c))).
    destruct (cleanup_ok_loop opts now issued (range (ac_pending c)) c) as (c2 & E & _);
      [by apply range_order_NoDup|intros id p'; by apply range_order_elem|done|]. by rewrite E.
Qed.

Lemma async_reachable n c issued :
  nsteps async_step n (NewAsyncClient, []) (c, issued) → Z.of_nat n < 2 ^ 64 → async_ok c issued ∧ 0 <= ac_requestID c <= Z.of_nat n.
Proof.
  revert c issued. induction n as [|n IH]; intros c issued Hrun Hn.
  - inversion Hrun; subst. split; [|cbn; lia]. split_and!.
    + intros id p. cbn. by rewrite lookup_empty.
    + intros id id' p p'. cbn. by rewrite lookup_empty.
    + by intros ch ?%elem_of_nil.
  - apply nsteps_inv_r in Hrun as ([c1 i1] & Hrun & Hstep). destruct (IH c1 i1 Hrun) as [Hok Hid]; [lia|].
    eapply async_step_ok; [exact Hstep|done|done|lia].
Qed.


(** ** Replies without an identifier *)

Lemma pretty_N_go_nonempty x s : s ≠ EmptyString → pretty_N_go x s ≠ EmptyString.
Proof.
  revert s. induction (N.lt_wf_0 x) as [x _ IH]; intros s Hs. destruct (decide (x = 0)%N) as [->|Hx]; [by rewrite pretty_N_go_0|].
  rewrite pretty_N_go_step by lia. apply IH; [|done]. apply N.div_lt; lia.
Qed.

Lemma request_id_nonempty k : request_id k ≠ [].
Proof.
  unfold request_id. intros H. apply (gs_inj _ EmptyString) in H. revert H. unfold pretty, pretty_N. case_decide as Hk; [done|].
  rewrite pretty_N_go_step by lia. by apply pretty_N_go_nonempty.
Qed.

(** An asynchronous client and this broker do not work together: the
    broker answers with the frames of a reply behind the client's identity
    only, so the first frame the client sees is the empty delimiter; it is
    never the identifier of a request, and the reply is dropped. With the
    identifier in front, the same frames are the reply. *)
Theorem async_replies_dropped n c issued now now' service body :
  nsteps async_step n (NewAsyncClient, []) (c, issued) → Z.of_nat n < 2 ^ 64 → 0 < len service <= 255 →
  let frames := FormatClientReply (NewClientReply now' service body) in
  async_processReply now frames c = (Ret tt, c) ∧
  ∀ id p, ac_pending c !! id = Some p → pq_Service p = service →
    ∃ c', async_processReply now (id :: frames) c = (Ret tt, c') ∧ ac_pending c' = delete id (ac_pending c) ∧
      ac_chans c' !! pq_ReplyCh p = Some (mkReplyChan [mkAsyncReply service body None] true).
Proof.
  intros Hrun Hn Hs frames. destruct (async_reachable n c issued Hrun Hn) as [(HA & _ & _) _]. split.
  - assert (Hf : ∃ rest, frames = [] :: rest) by (by eexists). destruct Hf as [rest ->]. unfold async_processReply.
    rewrite (M_bind_ret _ _ _ _ _ (eq_refl : mget c = (Ret c, c))). cbv beta.
    destruct (ac_pending c !! []) as [p|] eqn:Hp; [|done]. apply HA in Hp as (_ & k & _ & E). by apply eq_sym, request_id_nonempty in E.
  - intros id p Hp Hsv. unfold async_processReply. rewrite (M_bind_ret _ _ _ _ _ (eq_refl : mget c = (Ret c, c))). cbv beta. rewrite Hp.
    set (c1 := set_ac_pending (delete id (ac_pending c)) c). rewrite (M_bind_ret _ _ _ tt c1) by done. cbv beta.
    destruct (client_message_roundtrip now now' [] service body (NewClientReply now' service body)) as [_ H]; [constructor|done|].
    change (FormatClientReply (NewClientReply now' service body)) with frames in H. rewrite H by done. cbn [mm_Service mm_Body].
    unfold beq. rewrite bool_decide_true by done. cbn [negb]. destruct (HA _ _ Hp) as [Ho _].
    rewrite (M_bind_ret _ _ _ _ _ (answer_open (pq_ReplyCh p) _ c1 Ho)). eexists. split; [reflexivity|]. split; [done|].
    cbn. by rewrite lookup_insert_eq.
Qed.

(** ** Witnesses *)

Definition one_async : AsyncClient := (run_op (OpRequest 1 None (gs "echo") (gs "hi")) (run_op (OpConnect None) NewAsyncClient).2).2.

Lemma one_async_reachable : nsteps async_step 2 (NewAsyncClient, []) (one_async, [0%nat]).
Proof.
  eapply nsteps_l; [exact (AsyncStep (OpConnect None) NewAsyncClient [] I)|].
  eapply nsteps_l; [exact (AsyncStep (OpRequest 1 None (gs "echo") (gs "hi")) _ _ I)|]. apply nsteps_O.
Defined.


Lemma async_replies_dropped_witness :
  async_processReply 9 (FormatClientReply (NewClientReply 8 (gs "echo") (gs "hi"))) one_async = (Ret tt, one_async).
Proof.
  apply (async_replies_dropped 2 one_async [0%nat] 9 8 (gs "echo") (gs "hi")); [exact one_async_reachable|lia|].
  change (len (gs "echo")) with 4. lia.
Defined.
