(* ===== verification/MdpLifecycle.v ===== *)
(** * MdpLifecycle: securing, starting and stopping the parts of Majordomo

    The CURVE configurations of src/majordomo/security.go, the readiness check
    of a mechanism, and [Start] and [Stop] of a worker (src/majordomo/worker.go)
    with the channels they close, which MdpWorker leaves out. *)

From Stdlib Require Import Strings.Byte ZArith Lia.
From stdpp Require Import base strings numbers gmap list.
From S2P Require Import Prelude Z85 Zmtp Conn Curve Mdp Broker MdpWorker MdpClient.

#[local] Open Scope Z_scope.
#[local] Set Default Goal Selector "!".

(** ** CURVE configurations *)

Record CURVESecurityConfig : Type := mkCURVE { cu_ServerKeys : option KeyPair; cu_ClientKeys : option KeyPair; cu_ServerPubKey : bytes }.

Definition NewCURVEServerSecurity (serverKeys : option KeyPair) : CURVESecurityConfig := mkCURVE serverKeys None (replicate 32 x00).
Definition NewCURVEClientSecurity (clientKeys : option KeyPair) (serverPublicKey : bytes) : CURVESecurityConfig := mkCURVE None clientKeys serverPublicKey.

Definition ToZMQSecurity (isServer : bool) (c : CURVESecurityConfig) : outcome Security :=
  if isServer then
    match cu_ServerKeys c with
    | None => Fail (Errorf "mdp: server keys required for server security")
    | Some k => Ret (NewServerSecurity (Some k))
    end
  else
    match cu_ClientKeys c with
    | None => Fail (Errorf "mdp: client keys required for client security")
    | Some k => Ret (NewClientSecurity (Some k) (cu_ServerPubKey c))
    end.

(** The constructors with CURVE: the options the broker, worker or client gets,
    and the mechanism put into them. *)
Definition NewBrokerWithCURVE (serverKeys : option KeyPair) (options : option BrokerOptions) : outcome (BrokerOptions * Security) :=
  match serverKeys with
  | None => Fail (Errorf "mdp: server keys required for CURVE broker")
  | Some k => Ret (default DefaultBrokerOptions options, NewServerSecurity (Some k))
  end.

Definition NewWorkerWithCURVE (clientKeys : option KeyPair) (serverPublicKey : bytes) (options : option WorkerOptions) : outcome (WorkerOptions * Security) :=
  match clientKeys with
  | None => Fail (Errorf "mdp: client keys required for CURVE worker")
  | Some k =>
      let o := default DefaultWorkerOptions options in
      Ret (mkWorkerOptions (wo_HeartbeatLiveness o) (wo_HeartbeatInterval o) (wo_ReconnectInterval o) true, NewClientSecurity (Some k) serverPublicKey)
  end.

Definition NewClientWithCURVE (clientKeys : option KeyPair) (serverPublicKey : bytes) (options : option ClientOptions) : outcome (ClientOptions * Security) :=
  match clientKeys with
  | None => Fail (Errorf "mdp: client keys required for CURVE client")
  | Some k => Ret (default DefaultClientOptions options, NewClientSecurity (Some k) serverPublicKey)
  end.

Definition NewAsyncClientWithCURVE (clientKeys : option KeyPair) (serverPublicKey : bytes) (options : option ClientOptions) : outcome (ClientOptions * Security) :=
  match clientKeys with
  | None => Fail (Errorf "mdp: client keys required for CURVE async client")
  | Some k => Ret (default DefaultClientOptions options, NewClientSecurity (Some k) serverPublicKey)
  end.

Definition LoadCURVEKeysFromZ85 (publicZ85 secretZ85 : bytes) : outcome KeyPair := NewKeyPairFromZ85 publicZ85 secretZ85.
Definition LoadCURVEKeysFromHex (publicHex secretHex : bytes) : outcome KeyPair := NewKeyPairFromHex publicHex secretHex.
Definition ValidateCURVEKey (keyZ85 : bytes) : outcome unit := ValidateZ85Key keyZ85.

(** ** Readiness *)

(** [validateSecurityReadiness] with the CURVE mechanism; [None]: no
    security. *)
Definition validateSecurityReadiness (security : option Security) : outcome unit :=
  match security with
  | None => Ret tt
  | Some s => ValidateMessageReadiness s
  end.

(** ** Starting and stopping a worker *)

(** [wl_running] is the state manager's variable; [wl_updates]: the updates
    that wait for it; [wl_manager]: it runs; [wl_stopCh], [wl_updatesClosed]:
    the channels are closed; [wl_stateStopped]: the atomic flag; [wl_loops]:
    worker loops started. *)
Record WorkerLife : Type := mkLife {
  wl_running : bool;
  wl_updates : list bool;
  wl_manager : bool;
  wl_stopCh : bool;
  wl_updatesClosed : bool;
  wl_stateStopped : bool;
  wl_loops : nat }.

(** A worker as [NewWorker] leaves it: the state manager runs, no loop does. *)
Definition new_life : WorkerLife := mkLife false [] true false false false 0.

(** The state manager takes [n] of the updates of [running]; it returns when
    the channel is closed and drained. *)
Definition life_manage (n : nat) (l : WorkerLife) : WorkerLife :=
  if wl_manager l then
    mkLife (foldl (fun _ v => v) (wl_running l) (take n (wl_updates l))) (drop n (wl_updates l)) true (wl_stopCh l) (wl_updatesClosed l)
      (wl_stateStopped l) (wl_loops l)
  else l.

(** [queryState(queryIsRunning)]; [answer]: how many updates are applied when
    it is answered, [None] when it is not answered in time. Nobody answers
    once the state manager has returned. *)
Definition life_query (answer : option nat) : M WorkerLife (option bool) := fun l =>
  match answer with
  | Some n => let l := life_manage n l in (Ret (if wl_manager l then Some (wl_running l) else None), l)
  | None => (Ret None, l)
  end.

(** [updateState(stateSetRunning, v)]: a send on the closed channel is ready and
    panics; when [stopCh] is closed too, [choice] says which case is taken. *)
Definition life_update (choice v : bool) : M WorkerLife unit := fun l =>
  if wl_updatesClosed l then
    if wl_stopCh l && negb choice then (Ret tt, l) else (Panic "send on closed channel", l)
  else if decide (length (wl_updates l) < 10)%nat then
    (Ret tt, mkLife (wl_running l) (wl_updates l ++ [v]) (wl_manager l) (wl_stopCh l) (wl_updatesClosed l) (wl_stateStopped l) (wl_loops l))
  else (Ret tt, l).

Definition life_Start (answer : option nat) (choice : bool) : M WorkerLife unit :=
  running ← life_query answer;
  if is_yes running then mfail (Errorf "mdp: worker already running")
  else
    life_update choice true;;
    mupd (fun l => mkLife (wl_running l) (wl_updates l) (wl_manager l) (wl_stopCh l) (wl_updatesClosed l) (wl_stateStopped l) (S (wl_loops l))).

(** The channel is closed once; the state manager drains it and returns. *)
Definition stopStateManager : M WorkerLife unit := mupd (fun l =>
  if wl_stateStopped l then l
  else mkLife (foldl (fun _ v => v) (wl_running l) (wl_updates l)) [] false (wl_stopCh l) true true (wl_loops l)).

(** [closed]: the error of closing the socket. *)
Definition life_Stop (answer : option nat) (choice : bool) (closed : option error) : M WorkerLife unit :=
  running ← life_query answer;
  if negb (is_yes running) then stopStateManager;; mfail (Errorf "mdp: worker not running")
  else
    life_update choice false;;
    l ← mget;
    if wl_stopCh l then mpanic "close of closed channel"
    else
      mupd (fun l => mkLife (wl_running l) (wl_updates l) (wl_manager l) true (wl_updatesClosed l) (wl_stateStopped l) (wl_loops l));;
      match closed with
      | Some e => mfail (Wrap "mdp: failed to close worker socket" e)
      | None => stopStateManager
      end.

(** Stopping a worker that was not started breaks it: [Stop] reports that
    the worker is not running, and every [Start] after it panics, whatever the
    state manager answers, since the channel of updates is closed and nothing else
    in its [select] is ready. A worker that is started and stopped returns from both, and
    [Start] may then panic. Two calls of [Start] in a row may both succeed, and run
    two loops, when the state manager has not applied the first one's update. *)
Theorem worker_start_stop :
  (∀ answer choice closed, ∃ l, life_Stop answer choice closed new_life = (Fail (Errorf "mdp: worker not running"), l) ∧
     ∀ answer' choice', (life_Start answer' choice' l).1 = Panic "send on closed channel") ∧
  (∃ l1 l2, life_Start (Some 0%nat) true new_life = (Ret tt, l1) ∧ life_Stop (Some 1%nat) true None l1 = (Ret tt, l2) ∧
     wl_manager l2 = false ∧ wl_running l2 = false ∧ (life_Start None true l2).1 = Panic "send on closed channel" ∧ (life_Start None false l2).1 = Ret tt) ∧
  (∃ l1 l2, life_Start (Some 0%nat) true new_life = (Ret tt, l1) ∧ life_Start (Some 0%nat) true l1 = (Ret tt, l2) ∧ wl_loops l2 = 2%nat ∧
     (life_Start (Some 1%nat) true l1).1 = Fail (Errorf "mdp: worker already running")).
Proof.
  split_and!; [|by repeat eexists..]. intros answer choice closed. exists (mkLife false [] false false true true 0). split; [by destruct answer as [[]|]|].
  intros answer' choice'. by destruct answer', choice'.
Qed.
