(* ===== verification/Reader.v ===== *)
(** * Reader: length-prefixed fields read from a [bytes.Reader]

    What the message codecs of malamute, zyre and dafka share: strings with a
    one-byte length, attribute maps, bodies. A decoder runs over its receiver
    and the reader together, so that the fields it has assigned before an
    error keep their new values. *)

From Stdlib Require Import Strings.Byte ZArith Lia.
From stdpp Require Import base strings numbers gmap list.
From S2P Require Import Prelude.

#[local] Open Scope Z_scope.
#[local] Set Default Goal Selector "!".

Abbreviation Attributes := (gmap bytes bytes).

(** [buf.WriteByte(byte(len(s))); buf.WriteString(s)] *)
Definition put_string (s : bytes) : bytes := Z_byte (len s) :: s.

(** [readString]: an empty string needs no second read; a string longer than
    what is left is filled up with zero bytes, as [Read] leaves them. *)
Definition readString : M bytes bytes :=
  lengthBuf ← rd_read 1;
  b ← lift (idx lengthBuf 0);
  let length := byte_Z b in
  if decide (length = 0) then mret [] else rd_read (Z.to_nat length).

(** A decoder with its receiver, run on a fresh reader over [data]. *)
Definition decode {T} (p : M (T * bytes) unit) (data : bytes) : M T unit := fun m =>
  let '(r, (m', _)) := p (m, data) in (r, m').

Section fields.
Context {T : Type} (get : T → Attributes) (set : Attributes → T → T).

(** A map of strings: a one-byte count, then keys and values. [what] is the
    word of the error texts: malamute has attributes, dafka headers. *)
Fixpoint read_map_loop (what : string) (n : nat) : M (T * bytes) unit :=
  match n with
  | O => mret tt
  | S n' =>
      key ← wrapE ("failed to read " +:+ what +:+ " key") (on_snd readString);
      value ← wrapE ("failed to read " +:+ what +:+ " value") (on_snd readString);
      upd_fst (fun m => set (<[key := value]> (get m)) m);;
      read_map_loop what n'
  end.

Definition read_map (what : string) : M (T * bytes) unit :=
  count ← wrapE ("failed to read " +:+ what +:+ " count") (on_snd rd_byte);
  upd_fst (set ∅);;
  read_map_loop what (Z.to_nat (byte_Z count)).

(** Bytes with an [n]-byte length; the field keeps its old value when the
    length is zero. *)
Definition read_blob (what : string) (n : nat) (set_body : bytes → T → T) : M (T * bytes) unit :=
  bodyLen ← wrapE ("failed to read " +:+ what +:+ " length") (on_snd (rd_uint n));
  if decide (0 < bodyLen) then
    upd_fst (set_body (replicate (Z.to_nat bodyLen) x00));;
    b ← wrapE ("failed to read " +:+ what) (on_snd (rd_read (Z.to_nat bodyLen)));
    upd_fst (set_body b)
  else mret tt.

(** A string field. *)
Definition read_field (fmt : string) (set_field : bytes → T → T) : M (T * bytes) unit :=
  s ← wrapE fmt (on_snd readString);
  upd_fst (set_field s).

(** An integer field of [n] bytes. *)
Definition read_int (fmt : string) (n : nat) (set_field : Z → T → T) : M (T * bytes) unit :=
  z ← wrapE fmt (on_snd (rd_uint n));
  upd_fst (set_field z).
End fields.

Abbreviation read_attrs get set := (read_map get set "attribute").
Abbreviation read_body := (read_blob "body" 4).

(** Writing: the entries in the order [range] yields them. *)
Fixpoint write_map_loop (what : string) (entries : list (bytes * bytes)) : outcome bytes :=
  match entries with
  | [] => Ret []
  | (key, value) :: rest =>
      if decide (255 < len key ∨ 255 < len value) then Fail (Errorf (what +:+ " key or value too long"))
      else w ← write_map_loop what rest; Ret (put_string key ++ put_string value ++ w)
  end.

Definition write_map (what : string) (range : Attributes → list (bytes * bytes)) (attrs : Attributes) : outcome bytes :=
  if decide (255 < Z.of_nat (size attrs)) then Fail (Errorf ("too many " +:+ what +:+ "s"))
  else w ← write_map_loop what (range attrs); Ret (Z_byte (Z.of_nat (size attrs)) :: w).

Abbreviation write_attrs := (write_map "attribute").

(** A string with a maximal length. *)
Definition write_string (max : Z) (fmt : string) (s : bytes) : outcome bytes :=
  if decide (max < len s) then Fail (Errorf fmt) else Ret (put_string s).

(** Bytes with an [n]-byte length and a maximal length. *)
Definition write_blob (n : nat) (fmt : string) (max : Z) (body : bytes) : outcome bytes :=
  if decide (max < len body) then Fail (Errorf fmt)
  else Ret (be_put n (len body) ++ body).

Abbreviation write_body := (write_blob 4 "message body too large").

(** ** Lemmas *)

Lemma readString_put s r : len s <= 255 → readString (put_string s ++ r) = (Ret s, r).
Proof.
  intros Hs. unfold readString, put_string. cbn [app].
  mstep (apply (rd_read_app 1 [Z_byte (len s)]); done). mstep reflexivity.
  rewrite byte_Z_Z_byte, Z.mod_small by (pose proof (len_nonneg s); lia).
  case_decide as H; [apply len_nil_iff in H as ->; done|].
  rewrite len_to_nat. apply rd_read_app; [done|]. destruct s; done.
Qed.

Lemma read_field_put {T} fmt (f : bytes → T → T) s m r :
  len s <= 255 → read_field fmt f (m, put_string s ++ r) = (Ret tt, (f s m, r)).
Proof.
  intros Hs. unfold read_field. mstep (by apply wrapE_ret, on_snd_ret, readString_put). done.
Qed.

Lemma read_int_put {T} fmt n (f : Z → T → T) z m r :
  0 <= z < 256 ^ Z.of_nat n → read_int fmt n f (m, be_put n z ++ r) = (Ret tt, (f z m, r)).
Proof.
  intros Hz. unfold read_int. mstep (by apply wrapE_ret, on_snd_ret, rd_uint_put). done.
Qed.

Lemma read_blob_put {T} what n (f : bytes → T → T) body m r :
  len body < 256 ^ Z.of_nat n → (∀ a b m, f b (f a m) = f b m) → (body = [] → f body m = m) →
  read_blob what n f (m, be_put n (len body) ++ body ++ r) = (Ret tt, (f body m, r)).
Proof.
  intros Hb Hf H0. unfold read_blob.
  mstep (apply wrapE_ret, on_snd_ret, rd_uint_put; pose proof (len_nonneg body); lia).
  case_decide as H.
  - mstep reflexivity. mstep (apply wrapE_ret, on_snd_ret; rewrite len_to_nat; apply rd_read_app; [done|by destruct body]).
    unfold upd_fst, mupd. by rewrite Hf.
  - assert (body = []) as -> by (apply len_nil_iff; pose proof (len_nonneg body); lia). by rewrite H0.
Qed.

Section attributes.
Context {T : Type} (get : T → Attributes) (set : Attributes → T → T).
Context (Hgs : ∀ a m, get (set a m) = a) (Hss : ∀ a b m, set b (set a m) = set b m).

Lemma read_map_loop_put what entries : ∀ m w r,
  write_map_loop what entries = Ret w →
  read_map_loop get set what (length entries) (set (get m) m, w ++ r) =
    (Ret tt, (set (foldl (fun a kv => <[kv.1 := kv.2]> a) (get m) entries) m, r)).
Proof.
  induction entries as [|[k v] entries IH]; intros m w r Hw; cbn [write_map_loop read_map_loop length] in *.
  - by injection Hw as <-.
  - case_decide as Hkv; [done|]. obind Hw as w' Hw'.
    assert (w = put_string k ++ put_string v ++ w') as -> by congruence. rewrite <- !app_assoc.
    mstep (apply wrapE_ret, on_snd_ret, readString_put; lia).
    mstep (apply wrapE_ret, on_snd_ret, readString_put; lia).
    mstep reflexivity. rewrite Hgs, Hss. cbn [foldl fst snd].
    specialize (IH (set (<[k := v]> (get m)) m) w' r Hw'). rewrite Hgs, !Hss in IH. exact IH.
Qed.

Lemma read_map_put what range attrs w m r :
  range_order range → write_map what range attrs = Ret w →
  read_map get set what (m, w ++ r) = (Ret tt, (set attrs m, r)).
Proof.
  intros Hr. unfold write_map, read_map. case_decide as Hn; [done|].
  intros H. obind H as w' Hw. injection H as <-. cbn [app].
  mstep (apply wrapE_ret, on_snd_ret; reflexivity). mstep reflexivity.
  rewrite byte_Z_Z_byte, Z.mod_small by lia. rewrite Nat2Z.id, <- (range_order_length range attrs Hr).
  pose proof (read_map_loop_put what (range attrs) (set ∅ m) w' r Hw) as H.
  rewrite !Hgs, !Hss in H. rewrite H. by rewrite range_order_insert.
Qed.
End attributes.

(** What makes a map writable. *)
Definition attrs_ok (attrs : Attributes) : Prop :=
  Z.of_nat (size attrs) <= 255 ∧ ∀ k v, attrs !! k = Some v → len k <= 255 ∧ len v <= 255.

Lemma attrs_ok_empty : attrs_ok ∅.
Proof. split; [rewrite map_size_empty; lia|]. intros k v H. by rewrite lookup_empty in H. Qed.

Lemma write_map_ok what range attrs :
  range_order range → attrs_ok attrs → ∃ w, write_map what range attrs = Ret w.
Proof.
  intros Hr [Hn Hkv]. unfold write_map. rewrite decide_False by lia.
  assert (Hall : ∀ kv, kv ∈ range attrs → len kv.1 <= 255 ∧ len kv.2 <= 255).
  { intros [k v] Hin. rewrite (range_order_elem range attrs k v Hr) in Hin. by apply (Hkv k v). }
  assert (Hl : ∃ w, write_map_loop what (range attrs) = Ret w).
  { revert Hall. generalize (range attrs). induction l as [|[k v] l IH]; intros Hall; cbn; [eauto|].
    destruct (Hall (k, v) ltac:(left)) as [? ?]. cbn in *. rewrite decide_False by lia.
    destruct IH as [w ->]; [intros; apply Hall; by right|]. cbn. eauto. }
  destruct Hl as [w ->]. cbn. eauto.
Qed.

Lemma decode_ret {T} (p : M (T * bytes) unit) data m m' r :
  p (m, data) = (Ret tt, (m', r)) → decode p data m = (Ret tt, m').
Proof. intros H. unfold decode. by rewrite H. Qed.

(** The same with the input written as a sequence of fields. *)
Lemma decode_fields {T} (p : M (T * bytes) unit) data m m' :
  p (m, data ++ []) = (Ret tt, (m', [])) → decode p data m = (Ret tt, m').
Proof. rewrite app_nil_r. apply decode_ret. Qed.

Lemma write_string_ok max fmt s : len s <= max → write_string max fmt s = Ret (put_string s).
Proof. intros H. unfold write_string. by rewrite decide_False by lia. Qed.

Lemma write_blob_ok n fmt max body : len body <= max → write_blob n fmt max body = Ret (be_put n (len body) ++ body).
Proof. intros H. unfold write_blob. by rewrite decide_False by lia. Qed.

(** [read_step]: run the next field reader of a decoder on its wire form. *)
Ltac read_step :=
  first
    [ mstep (apply read_field_put; assumption)
    | mstep (apply read_int_put; cbn; lia)
    | mstep (eapply read_map_put; [reflexivity|reflexivity|eassumption|eassumption]) ].

(** [read_last]: the same for the last field, a map or a body. *)
Ltac read_last :=
  etransitivity;
  [ first
      [ eapply read_map_put; [reflexivity|reflexivity|eassumption|eassumption]
      | apply read_blob_put; [cbn in *; lia|reflexivity|let E := fresh in intros E; rewrite E; reflexivity] ]
  | ].
