(* ===== verification/MlmMessage.v ===== *)
(** * MlmMessage: messages of the Malamute broker (src/malamute/message.go)

    The envelope message and the bodies it carries, each with its [Marshal]
    and [Unmarshal]. A decoder assigns the fields of its receiver one by one,
    so it is a computation over the receiver. The codec of every type is an
    instance of one class; its law is the round trip. *)

From Stdlib Require Import Strings.Byte ZArith Lia.
From stdpp Require Import base strings numbers gmap list.
From S2P Require Import Prelude Reader.

#[local] Open Scope Z_scope.
#[local] Set Default Goal Selector "!".

Definition ProtocolVersion : byte := x01.
Definition MaxMessageSize : Z := 16 * 1024 * 1024.
Definition MaxStreamName : Z := 255.
Definition MaxMailboxName : Z := 255.
Definition MaxServiceName : Z := 255.
Definition MaxClientID : Z := 255.
Definition MessageTypeError : byte := x63.

(** ** The envelope *)

Record mlmMessage : Type := mkMlm {
  ml_Type : byte;
  ml_Version : byte;
  ml_Sequence : Z;
  ml_ClientID : bytes;
  ml_Attributes : Attributes;
  ml_Body : bytes }.

Definition set_ml_Type (v : byte) (m : mlmMessage) : mlmMessage :=
  mkMlm v (ml_Version m) (ml_Sequence m) (ml_ClientID m) (ml_Attributes m) (ml_Body m).
Definition set_ml_Version (v : byte) (m : mlmMessage) : mlmMessage :=
  mkMlm (ml_Type m) v (ml_Sequence m) (ml_ClientID m) (ml_Attributes m) (ml_Body m).
Definition set_ml_Sequence (v : Z) (m : mlmMessage) : mlmMessage :=
  mkMlm (ml_Type m) (ml_Version m) v (ml_ClientID m) (ml_Attributes m) (ml_Body m).
Definition set_ml_ClientID (v : bytes) (m : mlmMessage) : mlmMessage :=
  mkMlm (ml_Type m) (ml_Version m) (ml_Sequence m) v (ml_Attributes m) (ml_Body m).
Definition set_ml_Attributes (v : Attributes) (m : mlmMessage) : mlmMessage :=
  mkMlm (ml_Type m) (ml_Version m) (ml_Sequence m) (ml_ClientID m) v (ml_Body m).
Definition set_ml_Body (v : bytes) (m : mlmMessage) : mlmMessage :=
  mkMlm (ml_Type m) (ml_Version m) (ml_Sequence m) (ml_ClientID m) (ml_Attributes m) v.
Definition zero_ml : mlmMessage := mkMlm x00 x00 0 [] ∅ [].

Definition Message_Marshal (range : Attributes → list (bytes * bytes)) (m : mlmMessage) : outcome bytes :=
  let header := [ml_Type m; ml_Version m] ++ be_put 4 (ml_Sequence m) in
  w1 ← write_string MaxClientID "client ID too long" (ml_ClientID m);
  w2 ← write_attrs range (ml_Attributes m);
  w3 ← write_body MaxMessageSize (ml_Body m);
  Ret (header ++ w1 ++ w2 ++ w3).

(** The errors of the header reads are dropped; eight bytes are there. *)
Definition Message_Unmarshal (data : bytes) : M mlmMessage unit :=
  if decide (len data < 8) then mfail (Errorf "message too short")
  else decode (
    t ← on_snd rd_byte; upd_fst (set_ml_Type t);;
    v ← on_snd rd_byte; upd_fst (set_ml_Version v);;
    read_int "" 4 set_ml_Sequence;;
    read_field "failed to read client ID" set_ml_ClientID;;
    read_attrs ml_Attributes set_ml_Attributes;;
    read_body set_ml_Body) data.

Definition Message_ok (m : mlmMessage) : Prop :=
  0 <= ml_Sequence m < 2 ^ 32 ∧ len (ml_ClientID m) <= MaxClientID ∧ attrs_ok (ml_Attributes m) ∧
  len (ml_Body m) <= MaxMessageSize.

(** ** Bodies *)

Record ConnectionOpenMessage : Type := mkConnectionOpen {
  co_ClientID : bytes;
  co_ClientType : Z;
  co_Attributes : Attributes }.

Definition set_co_ClientID (v : bytes) (m : ConnectionOpenMessage) : ConnectionOpenMessage :=
  mkConnectionOpen v (co_ClientType m) (co_Attributes m).
Definition set_co_ClientType (v : Z) (m : ConnectionOpenMessage) : ConnectionOpenMessage :=
  mkConnectionOpen (co_ClientID m) v (co_Attributes m).
Definition set_co_Attributes (v : Attributes) (m : ConnectionOpenMessage) : ConnectionOpenMessage :=
  mkConnectionOpen (co_ClientID m) (co_ClientType m) v.
Definition zero_co : ConnectionOpenMessage := mkConnectionOpen [] 0 ∅.

Definition ConnectionOpen_Marshal (range : Attributes → list (bytes * bytes)) (m : ConnectionOpenMessage) : outcome bytes :=
  w1 ← write_string MaxClientID "client ID too long" (co_ClientID m);
  let w2 := be_put 4 (co_ClientType m) in
  w3 ← write_attrs range (co_Attributes m);
  Ret (w1 ++ w2 ++ w3).

Definition ConnectionOpen_Unmarshal (data : bytes) : M ConnectionOpenMessage unit :=
  decode (read_field "failed to read client ID" set_co_ClientID;;
    read_int "failed to read client type" 4 set_co_ClientType;;
    read_attrs co_Attributes set_co_Attributes) data.

Definition ConnectionOpen_ok (m : ConnectionOpenMessage) : Prop :=
  len (co_ClientID m) <= MaxClientID ∧
  0 <= co_ClientType m < 2 ^ 32 ∧
  attrs_ok (co_Attributes m).

Record StreamWriteMessage : Type := mkStreamWrite {
  sw_Stream : bytes;
  sw_Subject : bytes;
  sw_Attributes : Attributes;
  sw_Body : bytes }.

Definition set_sw_Stream (v : bytes) (m : StreamWriteMessage) : StreamWriteMessage :=
  mkStreamWrite v (sw_Subject m) (sw_Attributes m) (sw_Body m).
Definition set_sw_Subject (v : bytes) (m : StreamWriteMessage) : StreamWriteMessage :=
  mkStreamWrite (sw_Stream m) v (sw_Attributes m) (sw_Body m).
Definition set_sw_Attributes (v : Attributes) (m : StreamWriteMessage) : StreamWriteMessage :=
  mkStreamWrite (sw_Stream m) (sw_Subject m) v (sw_Body m).
Definition set_sw_Body (v : bytes) (m : StreamWriteMessage) : StreamWriteMessage :=
  mkStreamWrite (sw_Stream m) (sw_Subject m) (sw_Attributes m) v.
Definition zero_sw : StreamWriteMessage := mkStreamWrite [] [] ∅ [].

Definition StreamWrite_Marshal (range : Attributes → list (bytes * bytes)) (m : StreamWriteMessage) : outcome bytes :=
  w1 ← write_string MaxStreamName "stream name too long" (sw_Stream m);
  w2 ← write_string 255 "subject too long" (sw_Subject m);
  w3 ← write_attrs range (sw_Attributes m);
  w4 ← write_body MaxMessageSize (sw_Body m);
  Ret (w1 ++ w2 ++ w3 ++ w4).

Definition StreamWrite_Unmarshal (data : bytes) : M StreamWriteMessage unit :=
  decode (read_field "failed to read stream" set_sw_Stream;;
    read_field "failed to read subject" set_sw_Subject;;
    read_attrs sw_Attributes set_sw_Attributes;;
    read_body set_sw_Body) data.

Definition StreamWrite_ok (m : StreamWriteMessage) : Prop :=
  len (sw_Stream m) <= MaxStreamName ∧
  len (sw_Subject m) <= 255 ∧
  attrs_ok (sw_Attributes m) ∧
  len (sw_Body m) <= MaxMessageSize.

Record StreamReadMessage : Type := mkStreamRead {
  sr_Stream : bytes;
  sr_Pattern : bytes;
  sr_Attributes : Attributes }.

Definition set_sr_Stream (v : bytes) (m : StreamReadMessage) : StreamReadMessage :=
  mkStreamRead v (sr_Pattern m) (sr_Attributes m).
Definition set_sr_Pattern (v : bytes) (m : StreamReadMessage) : StreamReadMessage :=
  mkStreamRead (sr_Stream m) v (sr_Attributes m).
Definition set_sr_Attributes (v : Attributes) (m : StreamReadMessage) : StreamReadMessage :=
  mkStreamRead (sr_Stream m) (sr_Pattern m) v.
Definition zero_sr : StreamReadMessage := mkStreamRead [] [] ∅.

Definition StreamRead_Marshal (range : Attributes → list (bytes * bytes)) (m : StreamReadMessage) : outcome bytes :=
  w1 ← write_string MaxStreamName "stream name too long" (sr_Stream m);
  w2 ← write_string 255 "pattern too long" (sr_Pattern m);
  w3 ← write_attrs range (sr_Attributes m);
  Ret (w1 ++ w2 ++ w3).

Definition StreamRead_Unmarshal (data : bytes) : M StreamReadMessage unit :=
  decode (read_field "failed to read stream" set_sr_Stream;;
    read_field "failed to read pattern" set_sr_Pattern;;
    read_attrs sr_Attributes set_sr_Attributes) data.

Definition StreamRead_ok (m : StreamReadMessage) : Prop :=
  len (sr_Stream m) <= MaxStreamName ∧
  len (sr_Pattern m) <= 255 ∧
  attrs_ok (sr_Attributes m).

Record MailboxSendMessage : Type := mkMailboxSend {
  ms_Address : bytes;
  ms_Subject : bytes;
  ms_Tracker : bytes;
  ms_Timeout : Z;
  ms_Attributes : Attributes;
  ms_Body : bytes }.

Definition set_ms_Address (v : bytes) (m : MailboxSendMessage) : MailboxSendMessage :=
  mkMailboxSend v (ms_Subject m) (ms_Tracker m) (ms_Timeout m) (ms_Attributes m) (ms_Body m).
Definition set_ms_Subject (v : bytes) (m : MailboxSendMessage) : MailboxSendMessage :=
  mkMailboxSend (ms_Address m) v (ms_Tracker m) (ms_Timeout m) (ms_Attributes m) (ms_Body m).
Definition set_ms_Tracker (v : bytes) (m : MailboxSendMessage) : MailboxSendMessage :=
  mkMailboxSend (ms_Address m) (ms_Subject m) v (ms_Timeout m) (ms_Attributes m) (ms_Body m).
Definition set_ms_Timeout (v : Z) (m : MailboxSendMessage) : MailboxSendMessage :=
  mkMailboxSend (ms_Address m) (ms_Subject m) (ms_Tracker m) v (ms_Attributes m) (ms_Body m).
Definition set_ms_Attributes (v : Attributes) (m : MailboxSendMessage) : MailboxSendMessage :=
  mkMailboxSend (ms_Address m) (ms_Subject m) (ms_Tracker m) (ms_Timeout m) v (ms_Body m).
Definition set_ms_Body (v : bytes) (m : MailboxSendMessage) : MailboxSendMessage :=
  mkMailboxSend (ms_Address m) (ms_Subject m) (ms_Tracker m) (ms_Timeout m) (ms_Attributes m) v.
Definition zero_ms : MailboxSendMessage := mkMailboxSend [] [] [] 0 ∅ [].

Definition MailboxSend_Marshal (range : Attributes → list (bytes * bytes)) (m : MailboxSendMessage) : outcome bytes :=
  w1 ← write_string MaxMailboxName "address too long" (ms_Address m);
  w2 ← write_string 255 "subject too long" (ms_Subject m);
  w3 ← write_string 255 "tracker too long" (ms_Tracker m);
  let w4 := be_put 8 (ms_Timeout m) in
  w5 ← write_attrs range (ms_Attributes m);
  w6 ← write_body MaxMessageSize (ms_Body m);
  Ret (w1 ++ w2 ++ w3 ++ w4 ++ w5 ++ w6).

Definition MailboxSend_Unmarshal (data : bytes) : M MailboxSendMessage unit :=
  decode (read_field "failed to read address" set_ms_Address;;
    read_field "failed to read subject" set_ms_Subject;;
    read_field "failed to read tracker" set_ms_Tracker;;
    read_int "failed to read timeout" 8 (fun z => set_ms_Timeout (wraps 64 z));;
    read_attrs ms_Attributes set_ms_Attributes;;
    read_body set_ms_Body) data.

Definition MailboxSend_ok (m : MailboxSendMessage) : Prop :=
  len (ms_Address m) <= MaxMailboxName ∧
  len (ms_Subject m) <= 255 ∧
  len (ms_Tracker m) <= 255 ∧
  - 2 ^ 63 <= ms_Timeout m < 2 ^ 63 ∧
  attrs_ok (ms_Attributes m) ∧
  len (ms_Body m) <= MaxMessageSize.

Record ServiceOfferMessage : Type := mkServiceOffer {
  so_Service : bytes;
  so_Pattern : bytes;
  so_Attributes : Attributes }.

Definition set_so_Service (v : bytes) (m : ServiceOfferMessage) : ServiceOfferMessage :=
  mkServiceOffer v (so_Pattern m) (so_Attributes m).
Definition set_so_Pattern (v : bytes) (m : ServiceOfferMessage) : ServiceOfferMessage :=
  mkServiceOffer (so_Service m) v (so_Attributes m).
Definition set_so_Attributes (v : Attributes) (m : ServiceOfferMessage) : ServiceOfferMessage :=
  mkServiceOffer (so_Service m) (so_Pattern m) v.
Definition zero_so : ServiceOfferMessage := mkServiceOffer [] [] ∅.

Definition ServiceOffer_Marshal (range : Attributes → list (bytes * bytes)) (m : ServiceOfferMessage) : outcome bytes :=
  w1 ← write_string MaxServiceName "service name too long" (so_Service m);
  w2 ← write_string 255 "pattern too long" (so_Pattern m);
  w3 ← write_attrs range (so_Attributes m);
  Ret (w1 ++ w2 ++ w3).

Definition ServiceOffer_Unmarshal (data : bytes) : M ServiceOfferMessage unit :=
  decode (read_field "failed to read service" set_so_Service;;
    read_field "failed to read pattern" set_so_Pattern;;
    read_attrs so_Attributes set_so_Attributes) data.

Definition ServiceOffer_ok (m : ServiceOfferMessage) : Prop :=
  len (so_Service m) <= MaxServiceName ∧
  len (so_Pattern m) <= 255 ∧
  attrs_ok (so_Attributes m).

Record ErrorMessage : Type := mkError {
  er_Code : Z;
  er_Reason : bytes;
  er_Attributes : Attributes }.

Definition set_er_Code (v : Z) (m : ErrorMessage) : ErrorMessage :=
  mkError v (er_Reason m) (er_Attributes m).
Definition set_er_Reason (v : bytes) (m : ErrorMessage) : ErrorMessage :=
  mkError (er_Code m) v (er_Attributes m).
Definition set_er_Attributes (v : Attributes) (m : ErrorMessage) : ErrorMessage :=
  mkError (er_Code m) (er_Reason m) v.
Definition zero_er : ErrorMessage := mkError 0 [] ∅.

Definition Error_Marshal (range : Attributes → list (bytes * bytes)) (m : ErrorMessage) : outcome bytes :=
  let w1 := be_put 4 (er_Code m) in
  w2 ← write_string 255 "reason too long" (er_Reason m);
  w3 ← write_attrs range (er_Attributes m);
  Ret (w1 ++ w2 ++ w3).

Definition Error_Unmarshal (data : bytes) : M ErrorMessage unit :=
  decode (read_int "failed to read error code" 4 set_er_Code;;
    read_field "failed to read reason" set_er_Reason;;
    read_attrs er_Attributes set_er_Attributes) data.

Definition Error_ok (m : ErrorMessage) : Prop :=
  0 <= er_Code m < 2 ^ 32 ∧
  len (er_Reason m) <= 255 ∧
  attrs_ok (er_Attributes m).

Record CreditRequestMessage : Type := mkCreditRequest { cr_Credit : Z }.

Definition CreditRequest_Marshal (range : Attributes → list (bytes * bytes)) (m : CreditRequestMessage) : outcome bytes :=
  Ret (be_put 4 (cr_Credit m)).

Definition CreditRequest_Unmarshal (data : bytes) : M CreditRequestMessage unit :=
  decode (z ← on_snd (rd_uint 4); upd_fst (fun _ => mkCreditRequest (wraps 32 z))) data.

Definition CreditRequest_ok (m : CreditRequestMessage) : Prop := - 2 ^ 31 <= cr_Credit m < 2 ^ 31.

Definition CreateMessage (msgType : byte) (clientID : bytes) (sequence : Z) : mlmMessage :=
  mkMlm msgType ProtocolVersion sequence clientID ∅ [].

(** The error of [errorMsg.Marshal] is dropped: the body is then nil. *)
Definition CreateErrorMessage (range : Attributes → list (bytes * bytes)) (code : Z) (reason clientID : bytes)
    (sequence : Z) : mlmMessage :=
  let body := match Error_Marshal range (mkError code reason ∅) with Ret b => b | _ => [] end in
  mkMlm MessageTypeError ProtocolVersion sequence clientID ∅ body.

(** ** The codecs as instances of one class *)

(** What the broker relies on for every type of message: a zero value to
    decode into, an encoder that may refuse, a decoder, and the values that
    can travel. *)
Class Wire (T : Type) : Type := {
  w_zero : T;
  w_marshal : (Attributes → list (bytes * bytes)) → T → outcome bytes;
  w_unmarshal : bytes → M T unit;
  w_ok : T → Prop }.

(** The law: whatever can travel is encoded, under any order of iteration of
    its attributes, and decoding the bytes into a zero value restores it. *)
Definition round_trips (T : Type) `{Wire T} : Prop :=
  ∀ range m, range_order range → w_ok m →
  ∃ data, w_marshal range m = Ret data ∧ w_unmarshal data w_zero = (Ret tt, m).

#[export] Instance Message_wire : Wire mlmMessage :=
  {| w_zero := zero_ml; w_marshal := Message_Marshal; w_unmarshal := Message_Unmarshal; w_ok := Message_ok |}.
#[export] Instance ConnectionOpen_wire : Wire ConnectionOpenMessage :=
  {| w_zero := zero_co; w_marshal := ConnectionOpen_Marshal; w_unmarshal := ConnectionOpen_Unmarshal; w_ok := ConnectionOpen_ok |}.
#[export] Instance StreamWrite_wire : Wire StreamWriteMessage :=
  {| w_zero := zero_sw; w_marshal := StreamWrite_Marshal; w_unmarshal := StreamWrite_Unmarshal; w_ok := StreamWrite_ok |}.
#[export] Instance StreamRead_wire : Wire StreamReadMessage :=
  {| w_zero := zero_sr; w_marshal := StreamRead_Marshal; w_unmarshal := StreamRead_Unmarshal; w_ok := StreamRead_ok |}.
#[export] Instance MailboxSend_wire : Wire MailboxSendMessage :=
  {| w_zero := zero_ms; w_marshal := MailboxSend_Marshal; w_unmarshal := MailboxSend_Unmarshal; w_ok := MailboxSend_ok |}.
#[export] Instance ServiceOffer_wire : Wire ServiceOfferMessage :=
  {| w_zero := zero_so; w_marshal := ServiceOffer_Marshal; w_unmarshal := ServiceOffer_Unmarshal; w_ok := ServiceOffer_ok |}.
#[export] Instance Error_wire : Wire ErrorMessage :=
  {| w_zero := zero_er; w_marshal := Error_Marshal; w_unmarshal := Error_Unmarshal; w_ok := Error_ok |}.
#[export] Instance CreditRequest_wire : Wire CreditRequestMessage :=
  {| w_zero := mkCreditRequest 0; w_marshal := CreditRequest_Marshal; w_unmarshal := CreditRequest_Unmarshal; w_ok := CreditRequest_ok |}.

(** Encode field by field. *)
Ltac marshal_fields Hr :=
  match goal with Ha : attrs_ok _ |- _ => 
    let wa := fresh "wa" in let Hwa := fresh "Hwa" in
    destruct (write_map_ok "attribute" _ _ Hr Ha) as [wa Hwa];
    rewrite ?write_string_ok, ?write_blob_ok, ?Hwa by (assumption || lia); cbn [mbind outcome_bind] end.

Lemma int64_wire z : - 2 ^ 63 <= z < 2 ^ 63 → be_put 8 z = be_put 8 (z mod 2 ^ 64) ∧ wraps 64 (z mod 2 ^ 64) = z.
Proof.
  intros Hz. split; [|by apply wraps_wrapu].
  rewrite <- (be_put_get (be_put 8 z)), length_be_put, be_get_put. done.
Qed.

Lemma Message_round_trips : round_trips mlmMessage.
Proof.
  intros range m Hr (Hs & Hc & Ha & Hb). cbn [w_marshal w_unmarshal w_zero Message_wire].
  unfold Message_Marshal, Message_Unmarshal. unfold MaxClientID, MaxMessageSize in *.
  marshal_fields Hr. eexists. split; [done|]. rewrite decide_False.
  - apply decode_fields. rewrite <- !app_assoc. cbn [app].
    mstep reflexivity. mstep reflexivity. mstep reflexivity. mstep reflexivity.
    repeat read_step. read_last. by destruct m.
  - rewrite !len_app, !len_be_put. change (len [ml_Type m; ml_Version m]) with 2.
    unfold put_string. rewrite len_cons. pose proof (len_nonneg (ml_ClientID m)). pose proof (len_nonneg wa).
    pose proof (len_nonneg (ml_Body m)). lia.
Qed.

Lemma ConnectionOpen_round_trips : round_trips ConnectionOpenMessage.
Proof.
  intros range m Hr (Hc & Ht & Ha). cbn. unfold ConnectionOpen_Marshal, ConnectionOpen_Unmarshal. unfold MaxClientID in *.
  marshal_fields Hr. eexists. split; [done|]. apply decode_fields. rewrite <- !app_assoc.
  repeat read_step. read_last. by destruct m.
Qed.

Lemma StreamWrite_round_trips : round_trips StreamWriteMessage.
Proof.
  intros range m Hr (Hs & Hj & Ha & Hb). cbn. unfold StreamWrite_Marshal, StreamWrite_Unmarshal.
  unfold MaxStreamName, MaxMessageSize in *.
  marshal_fields Hr. eexists. split; [done|]. apply decode_fields. rewrite <- !app_assoc.
  repeat read_step. read_last. by destruct m.
Qed.

Lemma StreamRead_round_trips : round_trips StreamReadMessage.
Proof.
  intros range m Hr (Hs & Hp & Ha). cbn. unfold StreamRead_Marshal, StreamRead_Unmarshal. unfold MaxStreamName in *.
  marshal_fields Hr. eexists. split; [done|]. apply decode_fields. rewrite <- !app_assoc.
  repeat read_step. read_last. by destruct m.
Qed.

Lemma ServiceOffer_round_trips : round_trips ServiceOfferMessage.
Proof.
  intros range m Hr (Hs & Hp & Ha). cbn. unfold ServiceOffer_Marshal, ServiceOffer_Unmarshal. unfold MaxServiceName in *.
  marshal_fields Hr. eexists. split; [done|]. apply decode_fields. rewrite <- !app_assoc.
  repeat read_step. read_last. by destruct m.
Qed.

Lemma Error_round_trips : round_trips ErrorMessage.
Proof.
  intros range m Hr (Hc & Hs & Ha). cbn. unfold Error_Marshal, Error_Unmarshal.
  marshal_fields Hr. eexists. split; [done|]. apply decode_fields. rewrite <- !app_assoc.
  repeat read_step. read_last. by destruct m.
Qed.

Lemma MailboxSend_round_trips : round_trips MailboxSendMessage.
Proof.
  intros range m Hr (Ha1 & Hs & Ht & Hto & Ha & Hb). cbn. unfold MailboxSend_Marshal, MailboxSend_Unmarshal.
  unfold MaxMailboxName, MaxMessageSize in *. marshal_fields Hr.
  destruct (int64_wire (ms_Timeout m) Hto) as [-> Hw]. eexists. split; [done|].
  apply decode_fields. rewrite <- !app_assoc.
  assert (0 <= ms_Timeout m mod 2 ^ 64 < 2 ^ 64) by (apply Z.mod_pos_bound; lia).
  repeat read_step. read_last. rewrite Hw. by destruct m.
Qed.

Lemma CreditRequest_round_trips : round_trips CreditRequestMessage.
Proof.
  intros range [z] Hr Hz. cbn in Hz. eexists. split; [reflexivity|]. cbn [w_unmarshal w_zero CreditRequest_wire cr_Credit].
  apply decode_fields.
  replace (be_put 4 z) with (be_put 4 (z mod 2 ^ 32))
    by (rewrite <- (be_put_get (be_put 4 z)), length_be_put, be_get_put; done).
  mstep (apply on_snd_ret, rd_uint_put; apply Z.mod_pos_bound; lia).
  unfold upd_fst, mupd. do 4 f_equal. by apply wraps_wrapu.
Qed.

(** Decoding up to the body. *)
Lemma Message_Unmarshal_header range m wa r :
  range_order range → 0 <= ml_Sequence m < 2 ^ 32 → len (ml_ClientID m) <= 255 →
  write_attrs range (ml_Attributes m) = Ret wa → 1 <= len r →
  Message_Unmarshal (([ml_Type m; ml_Version m] ++ be_put 4 (ml_Sequence m) ++
                      put_string (ml_ClientID m) ++ wa) ++ r) zero_ml =
  decode (read_body set_ml_Body) r (set_ml_Body [] m).
Proof.
  intros Hr Hs Hc Hwa Hlen. unfold Message_Unmarshal. rewrite decide_False.
  - unfold decode. rewrite <- !app_assoc.
    match goal with |- context [mbind ?f ?p (zero_ml, ?d)] =>
      replace (mbind f p (zero_ml, d)) with (read_body set_ml_Body (set_ml_Body [] m, r)); [done|symmetry] end.
    cbn [app]. mstep reflexivity. mstep reflexivity. mstep reflexivity. mstep reflexivity.
    repeat read_step. by destruct m.
  - rewrite !len_app, !len_be_put. change (len [ml_Type m; ml_Version m]) with 2.
    unfold put_string. rewrite len_cons. pose proof (len_nonneg (ml_ClientID m)). pose proof (len_nonneg wa). lia.
Qed.

(** Malamute codecs: for the envelope and every type of body, whatever
    satisfies the documented limits is encoded whatever the order in which
    its attribute map is iterated, and decoding the bytes restores it. *)
Theorem mlm_codecs :
  round_trips mlmMessage ∧ round_trips ConnectionOpenMessage ∧ round_trips StreamWriteMessage ∧
  round_trips StreamReadMessage ∧ round_trips MailboxSendMessage ∧ round_trips ServiceOfferMessage ∧
  round_trips ErrorMessage ∧ round_trips CreditRequestMessage.
Proof.
  repeat split; intros range m.
  - apply Message_round_trips.
  - apply ConnectionOpen_round_trips.
  - apply StreamWrite_round_trips.
  - apply StreamRead_round_trips.
  - apply MailboxSend_round_trips.
  - apply ServiceOffer_round_trips.
  - apply Error_round_trips.
  - apply CreditRequest_round_trips.
Qed.

(** Truncated messages: cut any number [k] of bytes, but not all, off the
    end of the body of an encoded message: it is still accepted, and the
    missing bytes read as zeros, because [bytes.Reader.Read] may return fewer
    bytes than asked for and its count is not looked at. *)
Theorem mlm_truncated_accepted (range : Attributes → list (bytes * bytes)) (m : mlmMessage) (k : nat) :
  range_order range → Message_ok m → (0 < k < length (ml_Body m))%nat →
  ∃ data, Message_Marshal range m = Ret data ∧
    Message_Unmarshal (take (length data - k) data) zero_ml =
      (Ret tt, set_ml_Body (take (length (ml_Body m) - k) (ml_Body m) ++ replicate k x00) m).
Proof.
  intros Hr (Hs & Hc & Ha & Hb) Hk. unfold Message_Marshal. unfold MaxClientID, MaxMessageSize in *.
  marshal_fields Hr. eexists. split; [done|].
  set (body := ml_Body m) in *. set (hdr := [ml_Type m; ml_Version m] ++ be_put 4 (ml_Sequence m) ++ put_string (ml_ClientID m) ++ wa).
  replace (([ml_Type m; ml_Version m] ++ be_put 4 (ml_Sequence m)) ++ put_string (ml_ClientID m) ++ wa ++ be_put 4 (len body) ++ body)
    with (hdr ++ be_put 4 (len body) ++ body) by (unfold hdr; by rewrite <- !app_assoc).
  set (part := take (length body - k) body).
  assert (Hpart : length part = (length body - k)%nat) by (unfold part; rewrite length_take; lia).
  replace (take (length (hdr ++ be_put 4 (len body) ++ body) - k) (hdr ++ be_put 4 (len body) ++ body))
    with (hdr ++ be_put 4 (len body) ++ part).
  2: { rewrite !length_app, !take_app, length_be_put. rewrite (take_ge hdr) by lia. f_equal.
       rewrite (take_ge (be_put _ _)) by (rewrite length_be_put; lia). f_equal. unfold part. f_equal. lia. }
  unfold hdr. rewrite (Message_Unmarshal_header range m wa) by
    (done || (rewrite len_app, len_be_put; pose proof (len_nonneg part); lia)).
  apply (decode_ret _ _ _ _ []). unfold read_body.
  mstep (apply wrapE_ret, on_snd_ret, rd_uint_put; pose proof (len_nonneg body); lia).
  rewrite decide_True by (unfold len; lia). mstep reflexivity. rewrite len_to_nat.
  mstep (apply wrapE_ret, on_snd_ret; instantiate (1 := []); instantiate (1 := part ++ replicate k x00);
    unfold rd_read; destruct part as [|x part'] eqn:E; [simpl in Hpart; lia|];
    rewrite take_ge, drop_ge by (cbn [length] in *; lia); do 4 f_equal; cbn [length] in *; lia).
  done.
Qed.

Definition example_message : mlmMessage := mkMlm x0a x01 7 (gs "client") ∅ [x01; x02; x03].

Lemma mlm_truncated_accepted_witness :
  ∃ data, Message_Marshal map_to_list example_message = Ret data ∧
    Message_Unmarshal (take (length data - 2) data) zero_ml =
      (Ret tt, set_ml_Body [x01; x00; x00] example_message).
Proof.
  apply (mlm_truncated_accepted map_to_list example_message 2).
  - by intros a.
  - split; [cbn; lia|]. split; [vm_compute; congruence|]. split; [apply attrs_ok_empty|vm_compute; congruence].
  - cbn. lia.
Defined.

(** Error replies: the message [CreateErrorMessage] builds for a code and
    a reason that fit is decoded by the client to the same code and reason;
    when the reason is longer than 255 octets the body is empty instead, and
    the client's decoder fails. *)
Theorem mlm_error_reply (range : Attributes → list (bytes * bytes)) (code : Z) (reason clientID : bytes) (seq : Z) :
  range_order range → 0 <= code < 2 ^ 32 →
  let m := CreateErrorMessage range code reason clientID seq in
  (len reason <= 255 → Error_Unmarshal (ml_Body m) zero_er = (Ret tt, mkError code reason ∅)) ∧
  (255 < len reason → ml_Body m = [] ∧
     (Error_Unmarshal (ml_Body m) zero_er).1 = Fail (Wrap "failed to read error code" EOF)).
Proof.
  intros Hr Hc. unfold CreateErrorMessage. cbn [ml_Body]. split.
  - intros Hl. destruct (Error_round_trips range (mkError code reason ∅) Hr) as (data & Hm & Hu).
    + split; [done|]. split; [done|]. apply attrs_ok_empty.
    + cbn in Hm, Hu. by rewrite Hm.
  - intros Hl. unfold Error_Marshal, write_string. cbn [er_Reason]. by rewrite decide_True.
Qed.

