(* ===== verification/MlmCredit.v ===== *)
(** * MlmCredit: credit-based flow control of Malamute (src/malamute/credit.go)

    The controller keeps one record per client under its mutex. Requests,
    confirmations and commands reach it through channels and are processed
    one at a time by its goroutines; the model is the processing functions
    over the protected state. Credits are int32 and wrap around. The clock
    readings are arguments. *)

From Stdlib Require Import Strings.Byte ZArith Lia.
From stdpp Require Import base strings numbers gmap list.
From S2P Require Import Prelude.

#[local] Open Scope Z_scope.
#[local] Set Default Goal Selector "!".

Definition DefaultCreditWindow : Z := 1000.
Definition MinCreditWindow : Z := 10.
Definition MaxCreditWindow : Z := 100000.

Abbreviation i32 := (wraps 32).
Abbreviation u64 := (wrapu 64).

Record ClientCredit : Type := mkCredit {
  cc_Available : Z;
  cc_Total : Z;
  cc_Used : Z;
  cc_Reserved : Z;
  cc_LastRequest : Z;
  cc_LastConfirm : Z;
  cc_RequestCount : Z;
  cc_ConfirmCount : Z;
  cc_DenialCount : Z }.

Record CreditStatistics : Type := mkCreditStats {
  cs_TotalRequests : Z;
  cs_TotalConfirmations : Z;
  cs_TotalGranted : Z;
  cs_TotalDenied : Z;
  cs_TotalReturned : Z;
  cs_ActiveClients : Z;
  cs_TotalCredit : Z;
  cs_AvailableCredit : Z;
  cs_UsedCredit : Z;
  cs_LastUpdate : Z }.

Record CreditController : Type := mkController {
  k_windowSize : Z;
  k_lowWatermark : Z;
  k_highWatermark : Z;
  k_clientCredits : gmap bytes ClientCredit;
  k_statistics : CreditStatistics }.

Record CreditResponse : Type := mkResponse { re_Granted : Z; re_Available : Z; re_Error : option error }.

Definition NewCreditController (windowSize : Z) : CreditController :=
  let w := if decide (windowSize <= 0) then DefaultCreditWindow else windowSize in
  mkController w (Z.quot w 4) (Z.quot (i32 (w * 3)) 4) ∅ (mkCreditStats 0 0 0 0 0 0 0 0 0 0).

Definition set_clients (m : gmap bytes ClientCredit) (k : CreditController) : CreditController :=
  mkController (k_windowSize k) (k_lowWatermark k) (k_highWatermark k) m (k_statistics k).

Definition calculateGrantedCredit (k : CreditController) (c : ClientCredit) (requested : Z) : Z :=
  if decide (k_highWatermark k <= cc_Available c) then 0
  else
    let maxCredit := k_windowSize k in
    if decide (maxCredit <= cc_Total c) then 0
    else
      let available := i32 (maxCredit - cc_Total c) in
      let granted := if decide (available < requested) then available else requested in
      if decide (Z.quot (k_windowSize k) 2 < granted) then Z.quot (k_windowSize k) 2 else granted.

Definition newClient (now : Z) : ClientCredit := mkCredit 0 0 0 0 now 0 0 0 0.

(** [processRequest]; [now] and [now'] are its last two clock readings. *)
Definition processRequest (now now' : Z) (clientID : bytes) (amount : Z) : M CreditController CreditResponse := fun k =>
  let c := default (newClient now) (k_clientCredits k !! clientID) in
  let c := mkCredit (cc_Available c) (cc_Total c) (cc_Used c) (cc_Reserved c) now (cc_LastConfirm c)
             (u64 (cc_RequestCount c + 1)) (cc_ConfirmCount c) (cc_DenialCount c) in
  let s := k_statistics k in
  let granted := calculateGrantedCredit k c amount in
  if decide (0 < granted) then
    let c' := mkCredit (i32 (cc_Available c + granted)) (i32 (cc_Total c + granted)) (cc_Used c) (cc_Reserved c)
                (cc_LastRequest c) now' (cc_RequestCount c) (u64 (cc_ConfirmCount c + 1)) (cc_DenialCount c) in
    let s' := mkCreditStats (u64 (cs_TotalRequests s + 1)) (u64 (cs_TotalConfirmations s + 1))
                (u64 (cs_TotalGranted s + granted)) (cs_TotalDenied s) (cs_TotalReturned s) (cs_ActiveClients s)
                (cs_TotalCredit s) (cs_AvailableCredit s) (cs_UsedCredit s) (cs_LastUpdate s) in
    (Ret (mkResponse granted (cc_Available c') None),
     mkController (k_windowSize k) (k_lowWatermark k) (k_highWatermark k) (<[clientID := c']> (k_clientCredits k)) s')
  else
    let c' := mkCredit (cc_Available c) (cc_Total c) (cc_Used c) (cc_Reserved c)
                (cc_LastRequest c) (cc_LastConfirm c) (cc_RequestCount c) (cc_ConfirmCount c) (u64 (cc_DenialCount c + 1)) in
    let s' := mkCreditStats (u64 (cs_TotalRequests s + 1)) (cs_TotalConfirmations s)
                (cs_TotalGranted s) (u64 (cs_TotalDenied s + 1)) (cs_TotalReturned s) (cs_ActiveClients s)
                (cs_TotalCredit s) (cs_AvailableCredit s) (cs_UsedCredit s) (cs_LastUpdate s) in
    (Ret (mkResponse 0 (cc_Available c') (Some (Errorf "insufficient credit available"))),
     mkController (k_windowSize k) (k_lowWatermark k) (k_highWatermark k) (<[clientID := c']> (k_clientCredits k)) s').

Definition set_used (available used : Z) (c : ClientCredit) : ClientCredit :=
  mkCredit available (cc_Total c) used (cc_Reserved c) (cc_LastRequest c) (cc_LastConfirm c)
    (cc_RequestCount c) (cc_ConfirmCount c) (cc_DenialCount c).

Definition processConfirmation (clientID : bytes) (amount : Z) : M CreditController unit := mupd (fun k =>
  match k_clientCredits k !! clientID with
  | None => k
  | Some c =>
      if decide (0 < amount) then
        let used := i32 (cc_Used c - amount) in
        let used := if decide (used < 0) then 0 else used in
        let s := k_statistics k in
        mkController (k_windowSize k) (k_lowWatermark k) (k_highWatermark k)
          (<[clientID := set_used (cc_Available c) used c]> (k_clientCredits k))
          (mkCreditStats (cs_TotalRequests s) (cs_TotalConfirmations s) (cs_TotalGranted s) (cs_TotalDenied s)
             (u64 (cs_TotalReturned s + amount)) (cs_ActiveClients s) (cs_TotalCredit s)
             (cs_AvailableCredit s) (cs_UsedCredit s) (cs_LastUpdate s))
      else k
  end).

Definition UseCredit (clientID : bytes) (amount : Z) : M CreditController unit := fun k =>
  match k_clientCredits k !! clientID with
  | None => (Fail (Errorf "client not found"), k)
  | Some c =>
      if decide (cc_Available c < amount) then (Fail (Errorf "insufficient credit"), k)
      else (Ret tt, set_clients (<[clientID := set_used (i32 (cc_Available c - amount)) (i32 (cc_Used c + amount)) c]>
                                  (k_clientCredits k)) k)
  end.

Definition CheckCredit (clientID : bytes) (amount : Z) (k : CreditController) : bool :=
  match k_clientCredits k !! clientID with
  | None => false
  | Some c => amount <=? cc_Available c
  end.

Definition GetAvailableCredit (clientID : bytes) (k : CreditController) : Z :=
  match k_clientCredits k !! clientID with None => 0 | Some c => cc_Available c end.

(** The commands of [handleCommand]. *)
Inductive creditReply : Type :=
| ReplyNil
| ReplyCredit (c : ClientCredit)
| ReplyStats (s : CreditStatistics).

Inductive creditCmd : Type :=
| get_client_credit (clientID : bytes)
| set_window_size (size : Z)
| get_statistics
| remove_client (clientID : bytes).

Section commands.
Context (range : gmap bytes ClientCredit → list (bytes * ClientCredit)).

Definition calculateStatistics (now : Z) (k : CreditController) : CreditStatistics :=
  let s := k_statistics k in
  let sum (f : ClientCredit → Z) := foldl (fun acc kv => i32 (acc + f kv.2)) 0 (range (k_clientCredits k)) in
  mkCreditStats (cs_TotalRequests s) (cs_TotalConfirmations s) (cs_TotalGranted s) (cs_TotalDenied s)
    (cs_TotalReturned s) (Z.of_nat (size (k_clientCredits k)))
    (sum cc_Total) (sum cc_Available) (sum cc_Used) now.

Definition handleCommand (now : Z) (cmd : creditCmd) : M CreditController creditReply := fun k =>
  match cmd with
  | get_client_credit clientID =>
      (Ret (match k_clientCredits k !! clientID with Some c => ReplyCredit c | None => ReplyNil end), k)
  | set_window_size size =>
      (Ret ReplyNil,
       mkController size (Z.quot size 4) (Z.quot (i32 (size * 3)) 4) (k_clientCredits k) (k_statistics k))
  | get_statistics => (Ret (ReplyStats (calculateStatistics now k)), k)
  | remove_client clientID => (Ret ReplyNil, set_clients (delete clientID (k_clientCredits k)) k)
  end.
End commands.

(** [SetWindowSize] checks its bounds before it queues the command. *)
Definition SetWindowSize range (now size : Z) : M CreditController unit :=
  if decide (size < MinCreditWindow ∨ MaxCreditWindow < size) then mfail (Errorf "invalid window size")
  else _ ← handleCommand range now (set_window_size size); mret tt.

(** [cleanupInactiveClients]: idle for an hour with nothing outstanding. *)
Definition inactive (cutoff : Z) (c : ClientCredit) : bool :=
  (cc_LastRequest c <? cutoff) && (cc_Available c =? 0) && (cc_Used c =? 0).

Definition cleanupInactiveClients (range : gmap bytes ClientCredit → list (bytes * ClientCredit)) (now : Z)
    : M CreditController unit := mupd (fun k =>
  let cutoff := now - 60 * 60 * 1000000000 in
  set_clients (foldl (fun m kv => if inactive cutoff kv.2 then delete kv.1 m else m)
                 (k_clientCredits k) (range (k_clientCredits k))) k).

(** ** The invariant of a client's credit *)

Record credit_ok (bound : Z) (c : ClientCredit) : Prop := {
  ck_available : 0 <= cc_Available c;
  ck_used : 0 <= cc_Used c;
  ck_sum : cc_Available c + cc_Used c <= cc_Total c;
  ck_total : cc_Total c <= bound }.

(** What happens to the controller, with the amounts its callers pass. *)
Inductive creditOp : Type :=
| COpRequest (now now' : Z) (clientID : bytes) (amount : Z)
| COpConfirm (clientID : bytes) (amount : Z)
| COpUse (clientID : bytes) (amount : Z)
| COpSetWindow (now size : Z)
| COpRemove (now : Z) (clientID : bytes)
| COpCleanup (now : Z).

Section histories.
Context (range : gmap bytes ClientCredit → list (bytes * ClientCredit)).

Definition credit_step (o : creditOp) (k : CreditController) : CreditController :=
  match o with
  | COpRequest now now' clientID amount => (processRequest now now' clientID amount k).2
  | COpConfirm clientID amount => (processConfirmation clientID amount k).2
  | COpUse clientID amount => (UseCredit clientID amount k).2
  | COpSetWindow now size => (SetWindowSize range now size k).2
  | COpRemove now clientID => (handleCommand range now (remove_client clientID) k).2
  | COpCleanup now => (cleanupInactiveClients range now k).2
  end.

Definition op_amount_ok (o : creditOp) : Prop :=
  match o with COpUse _ amount => 0 <= amount | COpRequest _ _ _ a | COpConfirm _ a => - 2 ^ 31 <= a < 2 ^ 31 | _ => True end.

Definition credits_ok (bound : Z) (k : CreditController) : Prop :=
  0 < k_windowSize k <= bound ∧ map_Forall (fun _ c => credit_ok bound c) (k_clientCredits k).
End histories.

(** ** Lemmas *)

Lemma i32_small z : - 2 ^ 31 <= z < 2 ^ 31 → i32 z = z.
Proof. intros H. apply wraps_small; lia. Qed.

(** A grant never takes the total over the window. *)
Lemma granted_bound k c requested :
  0 < k_windowSize k < 2 ^ 31 → 0 <= cc_Total c →
  let g := calculateGrantedCredit k c requested in 0 < g → g <= k_windowSize k - cc_Total c.
Proof.
  intros Hw Ht. cbv zeta. unfold calculateGrantedCredit.
  case_decide; [lia|]. case_decide; [lia|]. rewrite i32_small by lia.
  assert (Z.quot (k_windowSize k) 2 <= k_windowSize k) by (apply Z.quot_le_upper_bound; lia).
  repeat case_decide; lia.
Qed.

Lemma credits_ok_insert bound k k' id c :
  credits_ok bound k → credit_ok bound c → 0 < k_windowSize k' <= bound →
  k_clientCredits k' = <[id := c]> (k_clientCredits k) → credits_ok bound k'.
Proof. intros [_ Hm] Hc Hw E. split; [done|]. rewrite E. by apply map_Forall_insert_2. Qed.

Lemma foldl_delete_sub (P : ClientCredit → bool) (l : list (bytes * ClientCredit)) (m : gmap bytes ClientCredit) :
  foldl (fun m kv => if P kv.2 then delete kv.1 m else m) m l ⊆ m.
Proof.
  revert m. induction l as [|[id c] l IH]; intros m; cbn; [done|].
  destruct (P c); [|apply IH]. transitivity (delete id m); [apply IH|apply delete_subseteq].
Qed.

Section invariant.
Context (range : gmap bytes ClientCredit → list (bytes * ClientCredit)).
Context (bound : Z) (Hbound : bound < 2 ^ 31).

Lemma request_ok k now now' id amount :
  credits_ok bound k → credits_ok bound (processRequest now now' id amount k).2.
Proof.
  intros Hk. pose proof Hk as [Hw Hm]. unfold processRequest.
  set (c0 := default (newClient now) (k_clientCredits k !! id)).
  assert (Hc0 : credit_ok bound c0).
  { unfold c0. destruct (k_clientCredits k !! id) as [c|] eqn:E; cbn; [by apply (Hm id)|]. split; cbn; lia. }
  destruct Hc0 as [H1 H2 H3 H4]. set (c1 := mkCredit _ _ _ _ _ _ _ _ _).
  pose proof (granted_bound k c1 amount ltac:(lia) ltac:(cbn; lia)) as Hg. cbv zeta in Hg.
  case_decide as Hpos.
  - specialize (Hg Hpos). cbn in Hg. eapply (credits_ok_insert bound k _ id); [done| |done|reflexivity].
    split; cbn; rewrite ?i32_small by lia; lia.
  - eapply (credits_ok_insert bound k _ id); [done| |done|reflexivity]. by split; cbn.
Qed.

(** Only a change of the window needs the bound to allow every window. *)
Lemma credit_step_ok o k :
  (match o with COpSetWindow _ _ => MaxCreditWindow <= bound | _ => True end) → op_amount_ok o → credits_ok bound k → credits_ok bound (credit_step range o k).
Proof.
  intros Hset Ho Hk. pose proof Hk as [Hw Hm]. destruct o as [now now' id a|id a|id a|now size|now id|now]; cbn in Ho |- *.
  - by apply request_ok.
  - destruct (k_clientCredits k !! id) as [c|] eqn:E; [|done]. destruct (Hm id c E) as [H1 H2 H3 H4].
    case_decide; [|done]. eapply (credits_ok_insert bound k _ id); [done| |done|reflexivity].
    split; cbn; rewrite ?i32_small by lia; repeat case_decide; lia.
  - unfold UseCredit. destruct (k_clientCredits k !! id) as [c|] eqn:E; [|done]. destruct (Hm id c E) as [H1 H2 H3 H4].
    case_decide; [done|]. eapply (credits_ok_insert bound k _ id); [done| |done|reflexivity].
    split; cbn; rewrite ?i32_small by lia; lia.
  - unfold SetWindowSize. case_decide as Hs; [done|]. unfold mbind, M_bind. cbn. split; [cbn|done]. unfold MinCreditWindow, MaxCreditWindow in *. lia.
  - split; [done|]. cbn. by apply map_Forall_delete.
  - split; [done|]. cbn. intros id c Hc. apply (Hm id).
    eapply lookup_weaken; [exact Hc|]. apply (foldl_delete_sub (inactive _)).
Qed.
End invariant.

(** Credit is never over-issued: from a new controller with any window,
    after any sequence of requests, confirmations, uses of non-negative
    amounts, window changes, removals and cleanups, every client has
    non-negative available and used credit, their sum is at most the total it
    was granted, and the total is at most the largest window there can be. *)
Theorem credit_invariant (range : gmap bytes ClientCredit → list (bytes * ClientCredit))
    (windowSize : Z) (ops : list creditOp) :
  windowSize < 2 ^ 31 → Forall op_amount_ok ops →
  credits_ok (Z.max windowSize MaxCreditWindow)
    (foldl (fun k o => credit_step range o k) (NewCreditController windowSize) ops).
Proof.
  intros Hw Hops.
  assert (Hb : MaxCreditWindow <= Z.max windowSize MaxCreditWindow < 2 ^ 31) by (unfold MaxCreditWindow; lia).
  assert (H0 : credits_ok (Z.max windowSize MaxCreditWindow) (NewCreditController windowSize)).
  { split; [cbn; unfold DefaultCreditWindow, MaxCreditWindow; case_decide; lia|]. apply map_Forall_empty. }
  revert H0. generalize (NewCreditController windowSize).
  induction Hops as [|o ops Ho _ IH]; intros k Hk; cbn; [done|]. apply IH. apply credit_step_ok; [lia|by destruct o; try lia|done|done].
Qed.

Lemma credit_invariant_witness :
  credits_ok (Z.max 100 MaxCreditWindow)
    (foldl (fun k o => credit_step map_to_list o k) (NewCreditController 100)
      [COpRequest 0 0 (gs "c") 80; COpUse (gs "c") 30; COpConfirm (gs "c") 10; COpSetWindow 0 200; COpRequest 1 1 (gs "c") 500; COpCleanup 5]).
Proof. apply credit_invariant; [lia|repeat constructor; cbn; lia]. Defined.

(** ** Exhausted windows *)

(** The client has been granted the whole window at some time. *)
Definition exhausted (k : CreditController) (id : bytes) : Prop :=
  ∃ c, k_clientCredits k !! id = Some c ∧ k_windowSize k <= cc_Total c.

(** The traffic of clients: neither removal nor a change of the window. *)
Definition traffic (o : creditOp) : Prop :=
  match o with COpRequest _ _ _ _ | COpConfirm _ _ | COpUse _ _ => True | _ => False end.

Lemma granted_exhausted k c a : k_windowSize k <= cc_Total c → calculateGrantedCredit k c a = 0.
Proof. intros H. unfold calculateGrantedCredit. case_decide; [done|]. by rewrite decide_True. Qed.

Lemma exhausted_insert k k' id id' c' :
  exhausted k id → k_windowSize k' = k_windowSize k →
  k_clientCredits k' = <[id' := c']> (k_clientCredits k) →
  (∀ c, k_clientCredits k !! id' = Some c → k_windowSize k <= cc_Total c → k_windowSize k <= cc_Total c') →
  exhausted k' id.
Proof.
  intros (c & Hc & Hf) Hw Hk Hmono. unfold exhausted. rewrite Hk, Hw. destruct (decide (id = id')) as [->|?].
  - exists c'. rewrite lookup_insert_eq. split; [done|]. by apply (Hmono c).
  - exists c. by rewrite lookup_insert_ne.
Qed.

Lemma exhausted_step range o k id :
  traffic o → exhausted k id → exhausted (credit_step range o k) id.
Proof.
  intros Ht Hf. destruct o as [now now' id' a|id' a|id' a| | |]; cbn in Ht; try done; cbn [credit_step].
  - unfold processRequest. set (c0 := default _ _). set (c1 := mkCredit _ _ _ _ _ _ _ _ _).
    destruct (decide (0 < calculateGrantedCredit k c1 a)) as [Hg|Hg].
    + eapply (exhausted_insert k _ id id'); [done|reflexivity|reflexivity|].
      intros c Hc Hfull. exfalso. rewrite granted_exhausted in Hg; [lia|]. cbn. unfold c0. by rewrite Hc.
    + eapply (exhausted_insert k _ id id'); [done|reflexivity|reflexivity|].
      intros c Hc Hfull. cbn. unfold c0. by rewrite Hc.
  - cbn. destruct (k_clientCredits k !! id') as [c|] eqn:E; [|done]. case_decide; [|done].
    eapply (exhausted_insert k _ id id'); [done|reflexivity|reflexivity|]. cbn. intros. simplify_eq. done.
  - unfold UseCredit. destruct (k_clientCredits k !! id') as [c|] eqn:E; [|done]. case_decide; [done|].
    eapply (exhausted_insert k _ id id'); [done|reflexivity|reflexivity|]. cbn. intros. simplify_eq. done.
Qed.

(** Credit is not renewed: once a client has been granted its whole
    window, every later request of it is denied, however much credit it and
    the others use and return in the meantime: confirmations lower the used
    credit only, and grants are limited by the total, which never goes down. *)
Theorem credit_not_renewed (range : gmap bytes ClientCredit → list (bytes * ClientCredit))
    (k : CreditController) (id : bytes) (ops : list creditOp) (now now' amount : Z) :
  exhausted k id → Forall traffic ops →
  ∃ resp k', processRequest now now' id amount (foldl (fun k o => credit_step range o k) k ops) = (Ret resp, k') ∧
    re_Granted resp = 0 ∧ re_Error resp = Some (Errorf "insufficient credit available").
Proof.
  intros Hf Hops.
  assert (He : exhausted (foldl (fun k o => credit_step range o k) k ops) id).
  { revert k Hf. induction Hops as [|o ops Ho _ IH]; intros k Hf; cbn; [done|]. apply IH. by apply exhausted_step. }
  destruct He as (c & Hc & Hfull). set (k1 := foldl _ _ _) in *. unfold processRequest. rewrite Hc. cbn [default from_option Datatypes.id].
  rewrite granted_exhausted by done. rewrite decide_False by lia. eexists _, _. split; [reflexivity|]. done.
Qed.

Lemma credit_not_renewed_witness :
  let k := foldl (fun k o => credit_step map_to_list o k) (NewCreditController 100)
             [COpRequest 0 0 (gs "c") 50; COpRequest 0 0 (gs "c") 50] in
  ∃ resp k', processRequest 5 5 (gs "c") 10 (foldl (fun k o => credit_step map_to_list o k) k
               [COpUse (gs "c") 100; COpConfirm (gs "c") 100]) = (Ret resp, k') ∧
    re_Granted resp = 0 ∧ re_Error resp = Some (Errorf "insufficient credit available").
Proof.
  intros k. apply (credit_not_renewed map_to_list k (gs "c") [COpUse (gs "c") 100; COpConfirm (gs "c") 100]).
  - eexists. split; [vm_compute; reflexivity|]. vm_compute. congruence.
  - repeat constructor.
Defined.

(** A negative amount passes the check of [UseCredit] and adds to the
    available credit. *)
Lemma negative_use_mints k id c a :
  k_clientCredits k !! id = Some c → 0 <= cc_Available c → 0 < a → cc_Available c + a < 2 ^ 31 →
  ∃ k', UseCredit id (- a) k = (Ret tt, k') ∧ GetAvailableCredit id k' = cc_Available c + a.
Proof.
  intros Hc H0 Ha Hs. unfold UseCredit. rewrite Hc, decide_False by lia. eexists. split; [reflexivity|].
  unfold GetAvailableCredit. cbn. rewrite lookup_insert_eq. cbn. rewrite i32_small by lia. lia.
Qed.
