(* ===== verification/MlmMailbox.v ===== *)
(** * MlmMailbox: direct messaging of Malamute (src/malamute/mailbox.go)

    The manager keeps its mailboxes under a mutex; deliveries wait in a
    channel of 10000 entries, commands are answered one at a time. The model
    is the manager's state with that channel's contents, one definition per
    handler, and the events of a running manager as an explicit sequence.
    Times and durations are nanoseconds; the readings of the clock and the
    iteration order of maps are arguments. *)

From Stdlib Require Import Strings.Byte ZArith Lia Sorted.
From stdpp Require Import base strings numbers gmap sorting functions list.
From S2P Require Import Prelude MlmMessage MlmCredit.

#[local] Open Scope Z_scope.
#[local] Set Default Goal Selector "!".

Definition MaxMailboxBacklog : Z := 10000.
(** The capacity of the [deliveries] channel. *)
Definition deliveries_cap : Z := 10000.

Record MailboxMessage : Type := mkMailMsg {
  mg_ID : Z;
  mg_Subject : bytes;
  mg_Sender : bytes;
  mg_Tracker : bytes;
  mg_Attributes : gmap bytes bytes;
  mg_Body : bytes;
  mg_Timestamp : Z;
  mg_Timeout : Z;
  mg_Retries : Z }.

Record Mailbox : Type := mkMailbox {
  mb_Address : bytes;
  mb_Messages : list MailboxMessage;
  mb_Owner : bytes;
  mb_Attributes : gmap bytes bytes;
  mb_CreatedAt : Z;
  mb_LastActivity : Z;
  mb_MessageCount : Z;
  mb_BytesStored : Z }.

Record MailboxDelivery : Type := mkDelivery {
  dl_Address : bytes;
  dl_Subject : bytes;
  dl_Sender : bytes;
  dl_Tracker : bytes;
  dl_Body : bytes;
  dl_Attributes : gmap bytes bytes;
  dl_Timeout : Z;
  dl_Timestamp : Z }.

Record MailboxManager : Type := mkMailboxManager {
  mm_maxMailboxes : Z;
  mm_retention : Z;
  mm_mailboxes : gmap bytes Mailbox;
  mm_deliveries : list MailboxDelivery;
  mm_messageID : Z }.

Definition NewMailboxManager (maxMailboxes retention : Z) : MailboxManager :=
  mkMailboxManager maxMailboxes retention ∅ [] 0.

Definition set_mailboxes (m : gmap bytes Mailbox) (mm : MailboxManager) : MailboxManager :=
  mkMailboxManager (mm_maxMailboxes mm) (mm_retention mm) m (mm_deliveries mm) (mm_messageID mm).

(** [SendMessage]: the checks, then a send that never blocks. *)
Definition SendMessage (now : Z) (address subject sender tracker body : bytes)
    (attributes : gmap bytes bytes) (timeout : Z) : M MailboxManager unit := fun mm =>
  if decide (len address = 0 ∨ MaxMailboxName < len address) then
    (Fail (Errorf "invalid mailbox address length: %d"), mm)
  else if decide (MaxMessageSize < len body) then
    (Fail (Errorf "message too large: %d bytes"), mm)
  else if decide (len (mm_deliveries mm) < deliveries_cap) then
    (Ret tt, mkMailboxManager (mm_maxMailboxes mm) (mm_retention mm) (mm_mailboxes mm)
               (mm_deliveries mm ++ [mkDelivery address subject sender tracker body attributes timeout now])
               (mm_messageID mm))
  else (Fail (Errorf "delivery queue full"), mm).

(** [uint64(len(body))] *)
Definition body_size (m : MailboxMessage) : Z := u64 (len (mg_Body m)).

(** The part of [processDelivery] that stores the message and keeps the
    backlog within its limit. *)
Definition store_message (now : Z) (message : MailboxMessage) (mailbox : Mailbox) : Mailbox :=
  let messages := mb_Messages mailbox ++ [message] in
  let stored := u64 (mb_BytesStored mailbox + body_size message) in
  let put msgs bytes := mkMailbox (mb_Address mailbox) msgs (mb_Owner mailbox) (mb_Attributes mailbox)
                          (mb_CreatedAt mailbox) now (u64 (mb_MessageCount mailbox + 1)) bytes in
  if decide (MaxMailboxBacklog < len messages) then
    match messages with
    | removed :: rest => put rest (u64 (stored - body_size removed))
    | [] => put messages stored
    end
  else put messages stored.

(** [processDelivery]; [t1], [t2] and [t3] are its clock readings. *)
Definition processDelivery (t1 t2 t3 : Z) (d : MailboxDelivery) : M MailboxManager unit := fun mm =>
  let go mailbox :=
    let id := u64 (mm_messageID mm + 1) in
    let message := mkMailMsg id (dl_Subject d) (dl_Sender d) (dl_Tracker d) (dl_Attributes d) (dl_Body d)
                     (dl_Timestamp d) (dl_Timestamp d + dl_Timeout d) 0 in
    (Ret tt, mkMailboxManager (mm_maxMailboxes mm) (mm_retention mm)
               (<[dl_Address d := store_message t3 message mailbox]> (mm_mailboxes mm)) (mm_deliveries mm) id) in
  match mm_mailboxes mm !! dl_Address d with
  | Some mailbox => go mailbox
  | None =>
      if decide (mm_maxMailboxes mm <= Z.of_nat (size (mm_mailboxes mm))) then (Ret tt, mm)
      else go (mkMailbox (dl_Address d) [] [] ∅ t1 t2 0 0)
  end.

(** One turn of [deliveryLoop]. *)
Definition deliveryLoop (t1 t2 t3 : Z) : M MailboxManager unit := fun mm =>
  match mm_deliveries mm with
  | [] => (Ret tt, mm)
  | d :: rest =>
      processDelivery t1 t2 t3 d
        (mkMailboxManager (mm_maxMailboxes mm) (mm_retention mm) (mm_mailboxes mm) rest (mm_messageID mm))
  end.

(** What a command's reply channel may carry. *)
Inductive mailboxReply : Type :=
| MRNil
| MRMessage (m : MailboxMessage)
| MRError (e : error)
| MRMailbox (m : Mailbox)
| MRMailboxes (m : gmap bytes Mailbox).

Inductive mailboxCmd : Type :=
| mc_receive (clientID address : bytes)
| mc_create (address owner : bytes) (attributes : gmap bytes bytes)
| mc_remove_client (clientID : bytes)
| mc_get_mailbox (address : bytes)
| mc_get_mailboxes
| mc_get_message_count (address : bytes).

(** [handleReceive]; [now] and [now'] are its clock readings. *)
Definition handleReceive (now now' : Z) (clientID address : bytes) : M MailboxManager mailboxReply := fun mm =>
  match mm_mailboxes mm !! address with
  | None => (Ret (MRError (Errorf "mailbox not found: %s")), mm)
  | Some mailbox =>
      if decide (mb_Owner mailbox ≠ [] ∧ mb_Owner mailbox ≠ clientID) then
        (Ret (MRError (Errorf "access denied to mailbox: %s")), mm)
      else
        let owner := if decide (mb_Owner mailbox = []) then clientID else mb_Owner mailbox in
        match list_find (fun m => now < mg_Timeout m) (mb_Messages mailbox) with
        | Some (i, message) =>
            (Ret (MRMessage message),
             set_mailboxes (<[address := mkMailbox (mb_Address mailbox) (delete i (mb_Messages mailbox)) owner
                                (mb_Attributes mailbox) (mb_CreatedAt mailbox) now' (mb_MessageCount mailbox)
                                (u64 (mb_BytesStored mailbox - body_size message))]> (mm_mailboxes mm)) mm)
        | None =>
            (Ret MRNil,
             set_mailboxes (<[address := mkMailbox (mb_Address mailbox) (mb_Messages mailbox) owner
                                (mb_Attributes mailbox) (mb_CreatedAt mailbox) (mb_LastActivity mailbox)
                                (mb_MessageCount mailbox) (mb_BytesStored mailbox)]> (mm_mailboxes mm)) mm)
        end
  end.

Definition handleCreate (now now' : Z) (address owner : bytes) (attributes : gmap bytes bytes)
    : M MailboxManager unit := fun mm =>
  if decide (mm_maxMailboxes mm <= Z.of_nat (size (mm_mailboxes mm))) then
    (Fail (Errorf "maximum mailboxes exceeded"), mm)
  else match mm_mailboxes mm !! address with
       | Some _ => (Fail (Errorf "mailbox already exists: %s"), mm)
       | None => (Ret tt, set_mailboxes (<[address := mkMailbox address [] owner attributes now now' 0 0]> (mm_mailboxes mm)) mm)
       end.

Section manager.
Context (range : gmap bytes Mailbox → list (bytes * Mailbox)).

Definition handleRemoveClient (clientID : bytes) : M MailboxManager unit := mupd (fun mm =>
  set_mailboxes (sweep (fun _ mailbox => if decide (mb_Owner mailbox = clientID) then None else Some mailbox)
                   (range (mm_mailboxes mm)) (mm_mailboxes mm)) mm).

(** The loop of [cleanupExpiredMessages] over one mailbox's messages: the
    valid messages and the bytes stored. *)
Definition expire (now : Z) (messages : list MailboxMessage) (stored : Z) : list MailboxMessage * Z :=
  foldl (fun '(valid, stored) message =>
           if decide (now < mg_Timeout message) then (valid ++ [message], stored)
           else (valid, u64 (stored - body_size message))) ([], stored) messages.

(** One mailbox's turn; [now'] is the clock at its [time.Since]. *)
Definition cleanup_mailbox (retention now now' : Z) (mailbox : Mailbox) : option Mailbox :=
  let '(valid, stored) := expire now (mb_Messages mailbox) (mb_BytesStored mailbox) in
  if decide (len valid = 0 ∧ retention < now' - mb_LastActivity mailbox) then None
  else Some (mkMailbox (mb_Address mailbox) valid (mb_Owner mailbox) (mb_Attributes mailbox)
               (mb_CreatedAt mailbox) (mb_LastActivity mailbox) (mb_MessageCount mailbox) stored).

Definition cleanupExpiredMessages (now : Z) (clock : bytes → Z) : M MailboxManager unit := mupd (fun mm =>
  set_mailboxes (sweep (fun address => cleanup_mailbox (mm_retention mm) now (clock address))
                   (range (mm_mailboxes mm)) (mm_mailboxes mm)) mm).

(** [handleCommand]: the value sent on the reply channel, if any. *)
Definition mailbox_handleCommand (now now' : Z) (cmd : mailboxCmd) : M MailboxManager (option mailboxReply) :=
  match cmd with
  | mc_receive clientID address => r ← handleReceive now now' clientID address; mret (Some r)
  | mc_create address owner attributes =>
      r ← try (handleCreate now now' address owner attributes);
      mret (Some (match r with inl _ => MRNil | inr e => MRError e end))
  | mc_remove_client clientID => _ ← handleRemoveClient clientID; mret (Some MRNil)
  | mc_get_mailbox address =>
      mm ← mget; mret (Some (match mm_mailboxes mm !! address with Some mailbox => MRMailbox mailbox | None => MRNil end))
  | mc_get_mailboxes =>
      mm ← mget; mret (Some (MRMailboxes (foldl (fun m kv => <[kv.1 := kv.2]> m) ∅ (range (mm_mailboxes mm)))))
  | mc_get_message_count _ => mret None
  end.

(** The callers' side of a command of a running manager. [None] is a caller
    that waits on its reply channel for ever. *)
Definition ReceiveMessage (now now' : Z) (clientID address : bytes) : M MailboxManager (option (option MailboxMessage)) :=
  r ← mailbox_handleCommand now now' (mc_receive clientID address);
  match r with
  | None => mret None
  | Some (MRMessage m) => mret (Some (Some m))
  | Some (MRError e) => mfail e
  | Some _ => mret (Some None)
  end.

Definition CreateMailbox (now now' : Z) (address owner : bytes) (attributes : gmap bytes bytes)
    : M MailboxManager (option unit) :=
  r ← mailbox_handleCommand now now' (mc_create address owner attributes);
  match r with None => mret None | Some (MRError e) => mfail e | Some _ => mret (Some tt) end.

Definition mailbox_RemoveClient (clientID : bytes) : M MailboxManager (option unit) :=
  r ← mailbox_handleCommand 0 0 (mc_remove_client clientID);
  match r with None => mret None | Some _ => mret (Some tt) end.

Definition GetMailbox (address : bytes) : M MailboxManager (option Mailbox) :=
  r ← mailbox_handleCommand 0 0 (mc_get_mailbox address);
  match r with
  | None => mret None
  | Some (MRMailbox m) => mret (Some m)
  | Some _ => mfail (Errorf "mailbox not found: %s")
  end.

Definition GetMailboxes : M MailboxManager (option (gmap bytes Mailbox)) :=
  r ← mailbox_handleCommand 0 0 mc_get_mailboxes;
  match r with
  | None => mret None
  | Some (MRMailboxes m) => mret (Some m)
  | Some _ => mpanic "interface conversion"
  end.

(** [GetMessageCount]: the reply, were there one, would be an int. *)
Definition GetMessageCount (address : bytes) : M MailboxManager (option Z) :=
  r ← mailbox_handleCommand 0 0 (mc_get_message_count address);
  match r with None => mret None | Some _ => mfail (Errorf "mailbox not found: %s") end.
End manager.

(** ** Histories of a running manager *)

Inductive mailEvent : Type :=
| MSend (now : Z) (address subject sender tracker body : bytes) (attributes : gmap bytes bytes) (timeout : Z)
| MDeliver (t1 t2 t3 : Z)
| MReceive (now now' : Z) (clientID address : bytes)
| MCreate (now now' : Z) (address owner : bytes) (attributes : gmap bytes bytes)
| MRemove (clientID : bytes)
| MCleanup (now : Z) (clock : bytes → Z).

Section histories.
Context (range : gmap bytes Mailbox → list (bytes * Mailbox)).

(** One event: the message handed to a receiver, with its mailbox's address,
    and the state after it. *)
Definition mail_step (e : mailEvent) (mm : MailboxManager) : list (bytes * MailboxMessage) * MailboxManager :=
  match e with
  | MSend now address subject sender tracker body attributes timeout =>
      ([], (SendMessage now address subject sender tracker body attributes timeout mm).2)
  | MDeliver t1 t2 t3 => ([], (deliveryLoop t1 t2 t3 mm).2)
  | MReceive now now' clientID address =>
      let '(r, mm') := ReceiveMessage range now now' clientID address mm in
      (match r with Ret (Some (Some m)) => [(address, m)] | _ => [] end, mm')
  | MCreate now now' address owner attributes => ([], (CreateMailbox range now now' address owner attributes mm).2)
  | MRemove clientID => ([], (mailbox_RemoveClient range clientID mm).2)
  | MCleanup now clock => ([], (cleanupExpiredMessages range now clock mm).2)
  end.

Fixpoint mail_run (es : list mailEvent) (mm : MailboxManager) : list (bytes * MailboxMessage) * MailboxManager :=
  match es with
  | [] => ([], mm)
  | e :: es => let '(got, mm') := mail_step e mm in let '(rest, mm'') := mail_run es mm' in (got ++ rest, mm'')
  end.
End histories.

(** What was received from one mailbox, in order. *)
Definition received (address : bytes) (log : list (bytes * MailboxMessage)) : list MailboxMessage :=
  (filter (fun am => am.1 = address) log).*2.

(** The clock seen by the receivers never goes back. *)
Fixpoint clock_from (t : Z) (es : list mailEvent) : Prop :=
  match es with
  | [] => True
  | MReceive now _ _ _ :: es => t <= now ∧ clock_from now es
  | _ :: es => clock_from t es
  end.

(** What [SendMessage] lets into the delivery queue. *)
Definition delivery_ok (d : MailboxDelivery) : Prop :=
  0 < len (dl_Address d) <= MaxMailboxName ∧ len (dl_Body d) <= MaxMessageSize.

Definition total_size (messages : list MailboxMessage) : Z :=
  foldr (fun m acc => len (mg_Body m) + acc) 0 messages.

Record mailbox_ok (address : bytes) (mailbox : Mailbox) : Prop := {
  mo_address : mb_Address mailbox = address;
  mo_backlog : len (mb_Messages mailbox) <= MaxMailboxBacklog;
  mo_bodies : Forall (fun m => len (mg_Body m) <= MaxMessageSize) (mb_Messages mailbox);
  mo_stored : mb_BytesStored mailbox = total_size (mb_Messages mailbox) }.

Record manager_ok (mm : MailboxManager) : Prop := {
  mk_count : Z.of_nat (size (mm_mailboxes mm)) <= Z.max 0 (mm_maxMailboxes mm);
  mk_queue : len (mm_deliveries mm) <= deliveries_cap;
  mk_deliveries : Forall delivery_ok (mm_deliveries mm);
  mk_mailboxes : map_Forall mailbox_ok (mm_mailboxes mm) }.

(** ** Lemmas *)

Lemma u64_small z : 0 <= z < 2 ^ 64 → u64 z = z.
Proof. intros H. unfold wrapu. by apply Z.mod_small. Qed.

#[local] Arguments total_size : simpl never.

Lemma total_size_cons m l : total_size (m :: l) = len (mg_Body m) + total_size l.
Proof. done. Qed.

Lemma total_size_app l k : total_size (l ++ k) = total_size l + total_size k.
Proof. induction l as [|m l IH]; [done|]. cbn [app]. rewrite !total_size_cons. lia. Qed.

Lemma total_size_bound l :
  Forall (fun m => len (mg_Body m) <= MaxMessageSize) l → 0 <= total_size l <= len l * MaxMessageSize.
Proof.
  induction 1 as [|m l Hm _ IH]; [change (0 <= 0 <= 0); lia|]. rewrite len_cons, total_size_cons.
  pose proof (len_nonneg (mg_Body m)). unfold MaxMessageSize in *. lia.
Qed.

(** The sums the manager keeps never wrap. *)
Lemma total_size_u64 l :
  Forall (fun m => len (mg_Body m) <= MaxMessageSize) l → len l <= MaxMailboxBacklog + 1 →
  0 <= total_size l < 2 ^ 64.
Proof.
  intros Hl Hn. pose proof (total_size_bound l Hl). unfold MaxMessageSize, MaxMailboxBacklog in *. lia.
Qed.

Lemma body_size_small m : len (mg_Body m) <= MaxMessageSize → body_size m = len (mg_Body m).
Proof. intros H. apply u64_small. pose proof (len_nonneg (mg_Body m)). unfold MaxMessageSize in *. lia. Qed.

Lemma mailbox_ok_new a owner attrs t t' : mailbox_ok a (mkMailbox a [] owner attrs t t' 0 0).
Proof. split; [done|unfold MaxMailboxBacklog, len; cbn; lia|by constructor|done]. Qed.

Lemma store_message_ok now m a mailbox :
  mailbox_ok a mailbox → len (mg_Body m) <= MaxMessageSize → mailbox_ok a (store_message now m mailbox).
Proof.
  intros [Ha Hn Hb Hs] Hm. unfold store_message. rewrite body_size_small by done.
  assert (HF : Forall (fun m => len (mg_Body m) <= MaxMessageSize) (mb_Messages mailbox ++ [m]))
    by (apply Forall_app; split; [done|by constructor]).
  assert (Hlen : len (mb_Messages mailbox ++ [m]) <= MaxMailboxBacklog + 1) by (rewrite len_app; change (len [m]) with 1; lia).
  pose proof (total_size_u64 _ HF Hlen) as Hr. pose proof (total_size_app (mb_Messages mailbox) [m]) as Happ.
  rewrite total_size_cons in Happ. change (total_size []) with 0 in Happ. rewrite Hs.
  replace (total_size (mb_Messages mailbox) + len (mg_Body m)) with (total_size (mb_Messages mailbox ++ [m])) by lia.
  rewrite (u64_small (total_size _)) by done. clear Happ.
  destruct (mb_Messages mailbox ++ [m]) as [|r rest]; [case_decide; by split|].
  case_decide as Hd; [|by split; [|cbn; lia| |]].
  rewrite len_cons in *. apply Forall_cons in HF as [Hr0 HF]. rewrite total_size_cons in *.
  pose proof (len_nonneg (mg_Body r)). pose proof (total_size_bound rest HF).
  split; cbn; [done|lia|done|]. rewrite body_size_small by done. rewrite u64_small by lia. lia.
Qed.

Lemma total_size_delete i m l : l !! i = Some m → total_size (delete i l) = total_size l - len (mg_Body m).
Proof.
  intros Hi. rewrite delete_take_drop, total_size_app. rewrite <- (take_drop_middle l i m Hi) at 3.
  rewrite total_size_app, total_size_cons. lia.
Qed.

(** Taking a message out of a mailbox. *)
Lemma take_message_ok a mailbox i m owner t :
  mailbox_ok a mailbox → mb_Messages mailbox !! i = Some m →
  mailbox_ok a (mkMailbox (mb_Address mailbox) (delete i (mb_Messages mailbox)) owner (mb_Attributes mailbox)
                  (mb_CreatedAt mailbox) t (mb_MessageCount mailbox) (u64 (mb_BytesStored mailbox - body_size m))).
Proof.
  intros [Ha Hn Hb Hs] Hi. pose proof (Forall_lookup_1 _ _ _ _ Hb Hi) as Hm.
  pose proof (length_delete (mb_Messages mailbox) i ltac:(eauto)) as Hlen.
  assert (HF : Forall (fun m => len (mg_Body m) <= MaxMessageSize) (delete i (mb_Messages mailbox))) by by apply Forall_delete.
  assert (len (delete i (mb_Messages mailbox)) <= MaxMailboxBacklog) as Hd by (unfold len in *; lia).
  split; cbn; [done|done|done|]. rewrite body_size_small, Hs by done. rewrite (total_size_delete i m) by done.
  apply u64_small. rewrite <- (total_size_delete i m) by done. apply total_size_u64; [done|lia].
Qed.

(** The cleanup loop keeps the live messages and subtracts the others. *)
Lemma expire_spec now l : ∀ valid stored, Forall (fun m => len (mg_Body m) <= MaxMessageSize) l →
  total_size l <= stored < 2 ^ 64 →
  foldl (fun '(valid, stored) message =>
           if decide (now < mg_Timeout message) then (valid ++ [message], stored)
           else (valid, u64 (stored - body_size message))) (valid, stored) l
  = (valid ++ filter (fun m => now < mg_Timeout m) l,
     stored - total_size l + total_size (filter (fun m => now < mg_Timeout m) l)).
Proof.
  induction l as [|m l IH]; intros valid stored HF Hs; cbn [foldl].
  - cbn. by rewrite app_nil_r, Z.sub_0_r, Z.add_0_r.
  - apply Forall_cons in HF as [Hm HF]. rewrite total_size_cons in *.
    pose proof (len_nonneg (mg_Body m)). pose proof (total_size_bound l HF) as [H0 _]. case_decide as Hd.
    + rewrite IH by (done || lia). rewrite filter_cons_True by done. rewrite <- app_assoc, total_size_cons.
      cbn [app]. f_equal. lia.
    + rewrite body_size_small, u64_small by (done || lia). rewrite IH by (done || lia).
      rewrite filter_cons_False by done. f_equal. lia.
Qed.

Lemma expire_fst now l stored : (expire now l stored).1 = filter (fun m => now < mg_Timeout m) l.
Proof.
  enough (H : ∀ valid, (foldl (fun '(valid, stored) message =>
           if decide (now < mg_Timeout message) then (valid ++ [message], stored)
           else (valid, u64 (stored - body_size message))) (valid, stored) l).1
      = valid ++ filter (fun m => now < mg_Timeout m) l) by apply H.
  revert stored. induction l as [|m l IH]; intros stored valid; cbn [foldl]; [by rewrite app_nil_r|].
  case_decide; rewrite IH.
  - rewrite filter_cons_True by done. by rewrite <- app_assoc.
  - by rewrite filter_cons_False.
Qed.

Lemma expire_ok now a mailbox : mailbox_ok a mailbox →
  expire now (mb_Messages mailbox) (mb_BytesStored mailbox)
  = (filter (fun m => now < mg_Timeout m) (mb_Messages mailbox),
     total_size (filter (fun m => now < mg_Timeout m) (mb_Messages mailbox))).
Proof.
  intros [Ha Hn Hb Hs]. unfold expire. pose proof (total_size_u64 _ Hb ltac:(lia)).
  rewrite expire_spec by (done || lia). cbn. f_equal. lia.
Qed.

Lemma cleanup_mailbox_ok retention now now' a mailbox mailbox' :
  mailbox_ok a mailbox → cleanup_mailbox retention now now' mailbox = Some mailbox' → mailbox_ok a mailbox'.
Proof.
  intros Hok. pose proof Hok as [Ha Hn Hb Hs]. unfold cleanup_mailbox. rewrite (expire_ok now a) by done.
  case_decide; [done|]. intros [= <-]. split; cbn; [done| | |done].
  2: { apply Forall_forall. intros m [_ Hm]%list_elem_of_filter. rewrite Forall_forall in Hb. by apply Hb. }
  pose proof (length_filter (fun m => now < mg_Timeout m) (mb_Messages mailbox)). unfold len in *. lia.
Qed.

Section reachable.
Context (range : gmap bytes Mailbox → list (bytes * Mailbox)) (Hrange : range_order range).

Lemma manager_ok_set mm m :
  manager_ok mm → Z.of_nat (size m) <= Z.max 0 (mm_maxMailboxes mm) → map_Forall mailbox_ok m →
  manager_ok (set_mailboxes m mm).
Proof. intros [H1 H2 H3 H4] Hs Hm. by split. Qed.

(** Replacing a mailbox that is there, or adding one below the limit. *)
Lemma mailbox_count_insert mm a mailbox :
  manager_ok mm → (is_Some (mm_mailboxes mm !! a) ∨ Z.of_nat (size (mm_mailboxes mm)) < mm_maxMailboxes mm) →
  Z.of_nat (size (<[a := mailbox]> (mm_mailboxes mm))) <= Z.max 0 (mm_maxMailboxes mm).
Proof.
  intros [H1 _ _ _] Ha. destruct (mm_mailboxes mm !! a) eqn:E.
  - rewrite map_size_insert_Some by by eexists. done.
  - rewrite map_size_insert_None by done. destruct Ha as [[? [=]]|?]. lia.
Qed.

Lemma deliver_ok mm t1 t2 t3 d :
  manager_ok mm → delivery_ok d → manager_ok (processDelivery t1 t2 t3 d mm).2.
Proof.
  intros Hok [_ Hbody]. pose proof Hok as [H1 H2 H3 H4]. unfold processDelivery.
  assert (Hgo : ∀ mailbox, mailbox_ok (dl_Address d) mailbox →
    (is_Some (mm_mailboxes mm !! dl_Address d) ∨ Z.of_nat (size (mm_mailboxes mm)) < mm_maxMailboxes mm) →
    ∀ m, mg_Body m = dl_Body d → manager_ok (mkMailboxManager (mm_maxMailboxes mm) (mm_retention mm)
       (<[dl_Address d := store_message t3 m mailbox]> (mm_mailboxes mm)) (mm_deliveries mm) (mg_ID m))).
  { intros mailbox Hm Hc m Hb. split; cbn; [by apply mailbox_count_insert|done|done|].
    apply map_Forall_insert_2; [|done]. apply store_message_ok; [done|by rewrite Hb]. }
  destruct (mm_mailboxes mm !! dl_Address d) as [mailbox|] eqn:E.
  - refine (Hgo mailbox _ _ (mkMailMsg _ _ _ _ _ _ _ _ _) _); [by apply H4|by left|done].
  - case_decide as Hd; [done|].
    refine (Hgo _ _ _ (mkMailMsg _ _ _ _ _ _ _ _ _) _); [apply mailbox_ok_new|right; lia|done].
Qed.

Lemma receive_ok mm now now' c a : manager_ok mm → manager_ok (handleReceive now now' c a mm).2.
Proof.
  intros Hok. pose proof Hok as [H1 H2 H3 H4]. unfold handleReceive.
  destruct (mm_mailboxes mm !! a) as [mailbox|] eqn:E; [|done]. case_decide; [done|].
  destruct (list_find _ _) as [[i m]|] eqn:Ef; cbn.
  - apply manager_ok_set; [done|apply mailbox_count_insert; eauto|]. apply map_Forall_insert_2; [|done].
    apply list_find_Some in Ef as (Hi & _ & _). by apply take_message_ok; [apply H4|].
  - apply manager_ok_set; [done|apply mailbox_count_insert; eauto|]. apply map_Forall_insert_2; [|done].
    pose proof (H4 a mailbox E) as [? ? ? ?]. by split.
Qed.

Lemma create_ok mm t t' a owner attrs : manager_ok mm → manager_ok (handleCreate t t' a owner attrs mm).2.
Proof.
  intros Hok. pose proof Hok as [H1 H2 H3 H4]. unfold handleCreate. case_decide; [done|].
  destruct (mm_mailboxes mm !! a) eqn:E; [done|]. cbn.
  apply manager_ok_set; [done|apply mailbox_count_insert; [done|right; lia]|].
  apply map_Forall_insert_2; [apply mailbox_ok_new|done].
Qed.

Lemma manager_sweep_ok mm f :
  manager_ok mm → (∀ a mailbox mailbox', mailbox_ok a mailbox → f a mailbox = Some mailbox' → mailbox_ok a mailbox') →
  manager_ok (set_mailboxes (sweep f (range (mm_mailboxes mm)) (mm_mailboxes mm)) mm).
Proof.
  intros Hok Hf. pose proof Hok as [H1 H2 H3 H4]. apply manager_ok_set; [done| |].
  - pose proof (sweep_size range f (mm_mailboxes mm) Hrange). lia.
  - by eapply sweep_Forall.
Qed.

(** The state after each event, in terms of the handlers. *)
Lemma mail_step_receive mm now now' c a :
  (mail_step range (MReceive now now' c a) mm).2 = (handleReceive now now' c a mm).2.
Proof.
  cbn. unfold ReceiveMessage, mailbox_handleCommand, mbind, M_bind.
  destruct (handleReceive now now' c a mm) as [[[]| |] ?]; done.
Qed.

Lemma mail_step_create mm t t' a owner attrs :
  (mail_step range (MCreate t t' a owner attrs) mm).2 = (handleCreate t t' a owner attrs mm).2.
Proof.
  cbn. unfold CreateMailbox, mailbox_handleCommand, mbind, M_bind, try.
  destruct (handleCreate t t' a owner attrs mm) as [[]]; done.
Qed.

Lemma mail_step_ok e mm : manager_ok mm → manager_ok (mail_step range e mm).2.
Proof.
  intros Hok. pose proof Hok as [H1 H2 H3 H4].
  destruct e as [now a subj sender tr body attrs tmo|t1 t2 t3|now now' c a|now now' a owner attrs|c|now clock].
  - cbn. unfold SendMessage. case_decide as Ha; [done|]. case_decide as Hb; [done|]. case_decide as Hq; [|done].
    split; cbn; [done| | |done].
    + rewrite len_app. change (len [_]) with 1. lia.
    + apply Forall_app. split; [done|]. constructor; [|done]. split; cbn; [|lia]. pose proof (len_nonneg a). lia.
  - cbn. unfold deliveryLoop. destruct (mm_deliveries mm) as [|d rest] eqn:E; [done|].
    apply Forall_cons in H3 as [Hd H3]. apply deliver_ok; [|done]. split; cbn; [done| |done|done]. rewrite len_cons in H2. lia.
  - rewrite mail_step_receive. by apply receive_ok.
  - rewrite mail_step_create. by apply create_ok.
  - apply manager_sweep_ok; [done|]. intros a' mb mb' Hmb. case_decide; [done|]. by intros [= <-].
  - apply manager_sweep_ok; [done|]. intros a' mb mb'. apply cleanup_mailbox_ok.
Qed.

Lemma mail_run_ok es mm : manager_ok mm → manager_ok (mail_run range es mm).2.
Proof.
  revert mm. induction es as [|e es IH]; intros mm Hok; cbn [mail_run]; [done|].
  pose proof (mail_step_ok e mm Hok) as Hs. destruct (mail_step range e mm) as [got mm']. cbn in Hs.
  specialize (IH mm' Hs). by destruct (mail_run range es mm') as [rest mm''].
Qed.
End reachable.

(** ** Order of reception *)

(** The delivery a message in mailbox [a] came from. *)
Definition delivery_of (a : bytes) (m : MailboxMessage) : MailboxDelivery :=
  mkDelivery a (mg_Subject m) (mg_Sender m) (mg_Tracker m) (mg_Body m) (mg_Attributes m)
    (mg_Timeout m - mg_Timestamp m) (mg_Timestamp m).

(** The delivery an event asks for. *)
Definition sends (e : mailEvent) : option MailboxDelivery :=
  match e with
  | MSend now address subject sender tracker body attributes timeout =>
      Some (mkDelivery address subject sender tracker body attributes timeout now)
  | _ => None
  end.

Definition id_lt (m m' : MailboxMessage) : Prop := mg_ID m < mg_ID m'.

Section order.
Context (D : MailboxDelivery → Prop).

(** The messages of a mailbox, when [n] deliveries were made in all, [r] is
    the last message received from it and [t] the clock at the last
    reception: those up to [r] have expired. *)
Record queue_ok (n r t : Z) (a : bytes) (l : list MailboxMessage) : Prop := {
  qo_sorted : StronglySorted id_lt l;
  qo_ids : Forall (fun m => 0 < mg_ID m <= n ∧ (mg_ID m <= r → mg_Timeout m <= t) ∧ D (delivery_of a m)) l }.

Lemma queue_ok_mono n n' r t t' a l : n <= n' → t <= t' → queue_ok n r t a l → queue_ok n' r t' a l.
Proof.
  intros Hn Ht [H1 H2]. split; [done|]. eapply Forall_impl; [exact H2|]. cbn. intros m (? & H & ?).
  split_and!; [lia|lia|intros Hr; specialize (H Hr); lia|done].
Qed.

Lemma sublist_elem {A} (l k : list A) x : sublist l k → x ∈ l → x ∈ k.
Proof. intros Hs Hx. eapply elem_of_submseteq; [exact Hx|by apply sublist_submseteq]. Qed.

Lemma StronglySorted_sublist {A} (R : A → A → Prop) l k : sublist l k → StronglySorted R k → StronglySorted R l.
Proof.
  induction 1 as [|x l k Hs IH|x l k Hs IH]; [done| |]; rewrite StronglySorted_cons, ?Forall_forall.
  - intros [HF H]. constructor; [by apply IH|]. apply Forall_forall. intros y Hy. by eapply HF, sublist_elem.
  - intros [_ H]. by apply IH.
Qed.

Lemma queue_ok_sublist n r t a l k : sublist l k → queue_ok n r t a k → queue_ok n r t a l.
Proof.
  intros Hs [H1 H2]. split; [by eapply StronglySorted_sublist|].
  rewrite Forall_forall in H2 |- *. intros m Hm. by eapply H2, sublist_elem.
Qed.

Lemma queue_ok_snoc n r t a l m :
  queue_ok n r t a l → 0 <= n → r <= n → mg_ID m = n + 1 → D (delivery_of a m) → queue_ok (n + 1) r t a (l ++ [m]).
Proof.
  intros Hq H0 Hr Hm HD. pose proof (queue_ok_mono n (n + 1) r t t a l ltac:(lia) ltac:(lia) Hq) as [H1 H2]. split.
  - apply StronglySorted_app. split_and!; [|done|by repeat constructor]. destruct Hq as [_ Hids]. rewrite Forall_forall in Hids.
    intros x y Hx ->%list_elem_of_singleton. unfold id_lt. destruct (Hids x Hx) as [? _]. lia.
  - apply Forall_app. split; [done|]. constructor; [|done]. split_and!; [lia|lia|lia|done].
Qed.

(** Receiving at [now]: the message found is new, and those before it in the
    queue have expired for good. *)
Lemma queue_ok_take n r t a l now i m :
  queue_ok n r t a l → t <= now → list_find (fun m => now < mg_Timeout m) l = Some (i, m) →
  r < mg_ID m <= n ∧ D (delivery_of a m) ∧ queue_ok n (mg_ID m) now a (delete i l).
Proof.
  intros Hq Ht (Hi & Hlive & Hbefore)%list_find_Some. pose proof Hq as [H1 H2].
  pose proof (Forall_lookup_1 _ _ _ _ H2 Hi) as (Hid & Hexp & HD). split_and!; [lia|lia|done|].
  pose proof (queue_ok_sublist n r t a (delete i l) l (sublist_delete l i) Hq) as [H3 H4]. split; [done|].
  rewrite Forall_forall in H4 |- *. intros m' Hm'. destruct (H4 m' Hm') as (? & _ & ?). split_and!; [lia|lia| |done].
  intros Hle. rewrite delete_take_drop in Hm'. apply elem_of_app in Hm' as [Hm'|Hm'].
  - apply list_elem_of_lookup in Hm' as [j Hj]. apply lookup_take_Some in Hj as [Hj Hji].
    specialize (Hbefore j m' Hj Hji). lia.
  - exfalso. rewrite <- (take_drop_middle l i m Hi) in H1. apply StronglySorted_app in H1 as (_ & _ & H1).
    apply StronglySorted_cons in H1 as [HF _]. rewrite Forall_forall in HF. specialize (HF m' Hm'). unfold id_lt in HF. lia.
Qed.

Record order_ok (last : bytes → Z) (t : Z) (mm : MailboxManager) : Prop := {
  oo_id : 0 <= mm_messageID mm;
  oo_last : ∀ a, last a <= mm_messageID mm;
  oo_deliveries : Forall D (mm_deliveries mm);
  oo_queues : map_Forall (fun a mailbox => queue_ok (mm_messageID mm) (last a) t a (mb_Messages mailbox)) (mm_mailboxes mm) }.

Context (range : gmap bytes Mailbox → list (bytes * Mailbox)) (Hrange : range_order range).

Lemma order_ok_set last t mm m :
  order_ok last t mm →
  map_Forall (fun a mailbox => queue_ok (mm_messageID mm) (last a) t a (mb_Messages mailbox)) m →
  order_ok last t (set_mailboxes m mm).
Proof. intros [H1 H2 H3 H4] Hm. by split. Qed.

Lemma order_ok_sweep last t mm f :
  order_ok last t mm →
  (∀ a mailbox mailbox', f a mailbox = Some mailbox' → sublist (mb_Messages mailbox') (mb_Messages mailbox)) →
  order_ok last t (set_mailboxes (sweep f (range (mm_mailboxes mm)) (mm_mailboxes mm)) mm).
Proof.
  intros Hok Hf. apply order_ok_set; [done|]. eapply sweep_Forall; [done|apply (oo_queues _ _ _ Hok)|].
  cbn. intros a mb mb' Hq Hsome. eapply queue_ok_sublist; [by eapply Hf|done].
Qed.

Lemma store_message_sublist now m mailbox :
  sublist (mb_Messages (store_message now m mailbox)) (mb_Messages mailbox ++ [m]).
Proof.
  unfold store_message. destruct (mb_Messages mailbox ++ [m]) as [|r rest]; case_decide; cbn; try done.
  by apply sublist_cons.
Qed.

Lemma order_ok_deliver last t mm t1 t2 t3 d :
  order_ok last t mm → D d → mm_messageID mm + 1 < 2 ^ 64 → order_ok last t (processDelivery t1 t2 t3 d mm).2.
Proof.
  intros [H1 H2 H3 H4] HD Hid. unfold processDelivery.
  assert (Hgo : ∀ mailbox m, queue_ok (mm_messageID mm) (last (dl_Address d)) t (dl_Address d) (mb_Messages mailbox) →
    mg_ID m = mm_messageID mm + 1 → delivery_of (dl_Address d) m = d →
    order_ok last t (mkMailboxManager (mm_maxMailboxes mm) (mm_retention mm)
       (<[dl_Address d := store_message t3 m mailbox]> (mm_mailboxes mm)) (mm_deliveries mm) (mm_messageID mm + 1))).
  { intros mailbox m Hq Hm Hd. split; cbn; [lia|intros a; specialize (H2 a); lia|done|]. apply map_Forall_insert_2.
    - eapply queue_ok_sublist; [apply store_message_sublist|]. apply queue_ok_snoc; auto. by rewrite Hd.
    - eapply map_Forall_impl; [exact H4|]. cbn. intros a mb. apply queue_ok_mono; lia. }
  assert (Hd : ∀ subj, delivery_of (dl_Address d) (mkMailMsg subj (dl_Subject d) (dl_Sender d) (dl_Tracker d) (dl_Attributes d)
     (dl_Body d) (dl_Timestamp d) (dl_Timestamp d + dl_Timeout d) 0) = d).
  { intros. destruct d. unfold delivery_of. cbn. f_equal. lia. }
  rewrite u64_small by lia. destruct (mm_mailboxes mm !! dl_Address d) as [mailbox|] eqn:E.
  - apply Hgo; [by apply (H4 _ _ E)|done|apply Hd].
  - case_decide; [done|]. apply Hgo; [|done|apply Hd]. split; constructor.
Qed.

Lemma order_ok_receive last t mm now now' c a :
  order_ok last t mm → t <= now →
  let '(got, mm') := mail_step range (MReceive now now' c a) mm in
  mm_messageID mm' = mm_messageID mm ∧
  ((got = [] ∧ order_ok last now mm') ∨
   ∃ m, got = [(a, m)] ∧ last a < mg_ID m ∧ D (delivery_of a m) ∧ order_ok (<[a := mg_ID m]> last) now mm').
Proof.
  intros [H1 H2 H3 H4] Ht.
  assert (Hsame : map_Forall (fun a mailbox => queue_ok (mm_messageID mm) (last a) now a (mb_Messages mailbox)) (mm_mailboxes mm)).
  { eapply map_Forall_impl; [exact H4|]. cbn. intros a' mb. apply queue_ok_mono; lia. }
  cbn. unfold ReceiveMessage, mailbox_handleCommand, handleReceive, mbind, M_bind.
  destruct (mm_mailboxes mm !! a) as [mailbox|] eqn:E; [|cbn; split; [done|]; left; split; [done|by split]].
  case_decide; [cbn; split; [done|]; left; split; [done|by split]|].
  destruct (list_find _ _) as [[i m]|] eqn:Ef; cbn; (split; [done|]).
  - right. exists m. destruct (queue_ok_take _ _ _ _ _ _ _ _ (H4 a mailbox E) Ht Ef) as (Hid & HD & Hq).
    split_and!; [done|lia|done|]. split; cbn; [done| |done|].
    + intros b. destruct (decide (b = a)) as [->|Hb]; [rewrite fn_lookup_insert; lia|by rewrite fn_lookup_insert_ne].
    + intros b mb [[<- <-]|[Hne Hmb]]%lookup_insert_Some; [by rewrite fn_lookup_insert|].
      rewrite fn_lookup_insert_ne by done. by apply Hsame.
  - left. split; [done|]. split; cbn; [done|done|done|].
    intros b mb [[<- <-]|[Hne Hmb]]%lookup_insert_Some; [by apply (Hsame a mailbox)|by apply Hsame].
Qed.

(** Events other than receptions add nothing to the log. *)
Lemma order_ok_step last t mm e :
  order_ok last t mm → mm_messageID mm + 1 < 2 ^ 64 →
  (∀ d, sends e = Some d → D d) → (∀ now now' c a, e ≠ MReceive now now' c a) →
  let '(got, mm') := mail_step range e mm in
  got = [] ∧ mm_messageID mm' <= mm_messageID mm + 1 ∧ order_ok last t mm'.
Proof.
  intros Hok Hid HD Hnr. pose proof Hok as [H1 H2 H3 H4].
  destruct e as [now a subj sender tr body attrs tmo|t1 t2 t3|now now' c a|now now' a owner attrs|c|now clock];
    [| |by destruct (Hnr now now' c a)| | |].
  - cbn. unfold SendMessage. repeat case_decide; (split_and!; [done|cbn; lia|]); try done.
    split; cbn; [done|done| |done]. apply Forall_app. split; [done|]. constructor; [by apply HD|done].
  - cbn. unfold deliveryLoop. destruct (mm_deliveries mm) as [|d rest] eqn:E; [split_and!; [done|cbn; lia|done]|].
    apply Forall_cons in H3 as [Hd H3]. split_and!; [done| |].
    + unfold processDelivery. cbn. rewrite u64_small by lia. destruct (mm_mailboxes mm !! _); [cbn; lia|].
      case_decide; cbn; lia.
    + apply order_ok_deliver; [by split|done|done].
  - pose proof (mail_step_create range mm now now' a owner attrs) as Hs. cbn in Hs |- *. rewrite Hs. unfold handleCreate.
    case_decide; [split_and!; [done|cbn; lia|done]|].
    destruct (mm_mailboxes mm !! a) eqn:E; (split_and!; [done|cbn; lia|]); [done|].
    apply order_ok_set; [done|]. apply map_Forall_insert_2; [|done]. split; constructor.
  - split_and!; [done|change (mm_messageID mm <= mm_messageID mm + 1); lia|]. apply order_ok_sweep; [done|]. intros a mb mb'. case_decide; [done|]. by intros [= <-].
  - split_and!; [done|change (mm_messageID mm <= mm_messageID mm + 1); lia|]. apply order_ok_sweep; [done|]. intros a mb mb'. unfold cleanup_mailbox.
    destruct (expire _ _ _) as [valid stored] eqn:Ee. case_decide; [done|]. intros [= <-]. cbn.
    change valid with (valid, stored).1. rewrite <- Ee, expire_fst. apply sublist_filter.
Qed.

Lemma received_app a l k : received a (l ++ k) = received a l ++ received a k.
Proof. unfold received. by rewrite filter_app, fmap_app. Qed.

Lemma order_run es : ∀ last t mm,
  order_ok last t mm → clock_from t es → mm_messageID mm + Z.of_nat (length es) < 2 ^ 64 →
  (∀ e d, e ∈ es → sends e = Some d → D d) →
  let log := (mail_run range es mm).1 in
  ∀ a, StronglySorted id_lt (received a log) ∧
       Forall (fun m => last a < mg_ID m ∧ D (delivery_of a m)) (received a log).
Proof.
  induction es as [|e es IH]; intros last t mm Hok Hclock Hid HD; cbn zeta; [intros a; split; constructor|].
  cbn [mail_run length] in *.
  assert (HDes : ∀ e' d, e' ∈ es → sends e' = Some d → D d) by (intros e' d He; apply HD; by apply list_elem_of_further).
  assert (Hcase : (∃ now now' c a, e = MReceive now now' c a) ∨ (∀ now now' c a, e ≠ MReceive now now' c a))
    by (destruct e; (left; by do 4 eexists) || (right; by intros)).
  destruct Hcase as [(now & now' & c & b & ->)|Hnr].
  - destruct Hclock as [Hnow Hclock]. pose proof (order_ok_receive last t mm now now' c b Hok Hnow) as Hstep.
    destruct (mail_step range (MReceive now now' c b) mm) as [got mm'].
    destruct Hstep as [Hsame [[-> Hok']|(m & -> & Hlt & HDm & Hok')]].
    + specialize (IH last now mm' Hok' Hclock ltac:(lia) HDes). by destruct (mail_run range es mm').
    + specialize (IH _ now mm' Hok' Hclock ltac:(lia) HDes). destruct (mail_run range es mm') as [rest mm'']. cbn [fst] in *.
      intros a. destruct (IH a) as [IH1 IH2]. rewrite received_app. unfold received at 1 3.
      destruct (decide (b = a)) as [->|Hne].
      * rewrite filter_cons_True, filter_nil by done. cbn [fmap list_fmap snd app]. rewrite fn_lookup_insert in IH2. split.
        -- constructor; [done|]. eapply Forall_impl; [exact IH2|]. intros m' [? _]. done.
        -- constructor; [done|]. eapply Forall_impl; [exact IH2|]. intros m' [? ?]. split; [lia|done].
      * rewrite filter_cons_False, filter_nil by done. cbn. rewrite fn_lookup_insert_ne in IH2 by done. done.
  - assert (Hclock' : clock_from t es) by (destruct e; try done; by edestruct Hnr).
    pose proof (order_ok_step last t mm e Hok ltac:(lia) (fun d => HD e d ltac:(apply list_elem_of_here)) Hnr) as Hstep.
    destruct (mail_step range e mm) as [got mm']. destruct Hstep as (-> & Hle & Hok').
    specialize (IH last t mm' Hok' Hclock' ltac:(lia) HDes). by destruct (mail_run range es mm').
Qed.
End order.

(** The accounting of the mailboxes: after any history of sends, turns of
    the delivery loop, receptions, creations, removals and cleanups, there are
    no more mailboxes than allowed, the delivery queue is within its capacity,
    every mailbox is stored under its own address and holds at most
    [MaxMailboxBacklog] messages of permitted size, and its [BytesStored],
    a uint64 that is only added to and subtracted from, is exactly the number of bytes it
    holds. *)
Theorem mailbox_accounting (range : gmap bytes Mailbox → list (bytes * Mailbox)) (maxMailboxes retention : Z) (es : list mailEvent) :
  range_order range → manager_ok (mail_run range es (NewMailboxManager maxMailboxes retention)).2.
Proof.
  intros Hr. apply mail_run_ok; [done|]. split; [cbn; rewrite map_size_empty; lia|unfold deliveries_cap, len; cbn; lia|by constructor|apply map_Forall_empty].
Qed.

(** C20. Reception is in order, at most once and of what was sent: as long as
    the receivers' clock does not go back and fewer than 2^64 events happened,
    the messages received from a mailbox, by whatever clients and however the
    receptions are interleaved with deliveries, expiry, cleanups, removals and
    re-creations of the mailbox, have strictly increasing IDs, which are given in order
    of delivery, and each of them was sent to that mailbox with its subject, sender,
    tracker, body, attributes and timeout. *)
Theorem mailbox_in_order (range : gmap bytes Mailbox → list (bytes * Mailbox)) (maxMailboxes retention t0 : Z)
    (es : list mailEvent) (a : bytes) :
  range_order range → clock_from t0 es → Z.of_nat (length es) < 2 ^ 64 →
  let got := received a (mail_run range es (NewMailboxManager maxMailboxes retention)).1 in
  StronglySorted Z.lt (mg_ID <$> got) ∧
  ∀ m, m ∈ got → Some (delivery_of a m) ∈ sends <$> es.
Proof.
  intros Hr Hclock Hlen got.
  destruct (order_run (fun d => Some d ∈ sends <$> es) range Hr es (fun _ => 0) t0
    (NewMailboxManager maxMailboxes retention)) with (a := a) as [H1 H2].
  - split; cbn; [done|done|constructor|apply map_Forall_empty].
  - done.
  - cbn. lia.
  - intros e d He Hd. rewrite <- Hd. by apply list_elem_of_fmap_2.
  - split.
    + fold got in H1. clear -H1. induction H1 as [|m l _ IH HF]; cbn; constructor; [done|]. by apply Forall_fmap.
    + intros m Hm. rewrite Forall_forall in H2. by apply H2.
Qed.

(** ** From a send to its reception *)

Definition ev_send (d : MailboxDelivery) : mailEvent :=
  MSend (dl_Timestamp d) (dl_Address d) (dl_Subject d) (dl_Sender d) (dl_Tracker d) (dl_Body d) (dl_Attributes d) (dl_Timeout d).

Section transfer.
Context (range : gmap bytes Mailbox → list (bytes * Mailbox)).

Lemma mail_run_app es es' mm :
  mail_run range (es ++ es') mm =
  let '(got, mm') := mail_run range es mm in let '(rest, mm'') := mail_run range es' mm' in (got ++ rest, mm'').
Proof.
  revert mm. induction es as [|e es IH]; intros mm; cbn [mail_run app]; [by destruct (mail_run range es' mm)|].
  destruct (mail_step range e mm) as [got mm']. rewrite IH. destruct (mail_run range es mm') as [rest mm''].
  destruct (mail_run range es' mm''). by rewrite app_assoc.
Qed.

Lemma send_all ds mm :
  Forall delivery_ok ds → len (mm_deliveries mm) + len ds <= deliveries_cap →
  mail_run range (ev_send <$> ds) mm =
  ([], mkMailboxManager (mm_maxMailboxes mm) (mm_retention mm) (mm_mailboxes mm) (mm_deliveries mm ++ ds) (mm_messageID mm)).
Proof.
  intros Hds. revert mm. induction Hds as [|d ds [Ha Hb] Hds IH]; intros mm Hcap; cbn [fmap list_fmap mail_run].
  - rewrite app_nil_r. by destruct mm.
  - rewrite len_cons in Hcap. pose proof (len_nonneg ds). cbn [ev_send mail_step]. unfold SendMessage.
    rewrite decide_False by lia. rewrite decide_False by lia. rewrite decide_True by lia. cbn [snd].
    change ((λ d, ev_send d) <$> ds) with (ev_send <$> ds). rewrite IH.
    + cbn. rewrite <- app_assoc. cbn. by destruct d.
    + cbn. rewrite len_app. change (len [_]) with 1. lia.
Qed.

Lemma store_message_fits now m mailbox :
  len (mb_Messages mailbox) < MaxMailboxBacklog →
  mb_Messages (store_message now m mailbox) = mb_Messages mailbox ++ [m] ∧
  mb_Owner (store_message now m mailbox) = mb_Owner mailbox.
Proof.
  intros Hl. unfold store_message. rewrite decide_False by (rewrite len_app; change (len [m]) with 1; lia). done.
Qed.

Lemma deliver_all a t1 t2 t3 ds : ∀ mm mailbox,
  mm_deliveries mm = ds → Forall (fun d => dl_Address d = a) ds →
  mm_mailboxes mm !! a = Some mailbox → len (mb_Messages mailbox) + len ds <= MaxMailboxBacklog →
  ∃ mm' mailbox', mail_run range (replicate (length ds) (MDeliver t1 t2 t3)) mm = ([], mm') ∧
    mm_mailboxes mm' !! a = Some mailbox' ∧ mb_Owner mailbox' = mb_Owner mailbox ∧
    delivery_of a <$> mb_Messages mailbox' = (delivery_of a <$> mb_Messages mailbox) ++ ds.
Proof.
  induction ds as [|d ds IH]; intros mm mailbox Hds HF Hm Hlen; cbn [length replicate mail_run].
  - exists mm, mailbox. by rewrite app_nil_r.
  - apply Forall_cons in HF as [Ha HF]. rewrite len_cons in Hlen. pose proof (len_nonneg ds).
    cbn [mail_step]. unfold deliveryLoop. rewrite Hds. unfold processDelivery. cbn [mm_mailboxes]. rewrite Ha, Hm. cbn [snd mm_messageID].
    set (m := mkMailMsg _ _ _ _ _ _ _ _ _). destruct (store_message_fits t3 m mailbox ltac:(lia)) as [Hmsgs Hown].
    edestruct (IH (mkMailboxManager (mm_maxMailboxes mm) (mm_retention mm)
      (<[a := store_message t3 m mailbox]> (mm_mailboxes mm)) ds (u64 (mm_messageID mm + 1))) (store_message t3 m mailbox))
      as (mm' & mailbox' & Hrun & Hm' & Ho & Hmsgs'); [done|done|by cbn; rewrite lookup_insert_eq| |].
    + rewrite Hmsgs, len_app. change (len [m]) with 1. lia.
    + exists mm', mailbox'. cbn [mm_maxMailboxes mm_retention mm_deliveries]. rewrite Hrun. split_and!; [done|done|congruence|].
      rewrite Hmsgs', Hmsgs, fmap_app, <- app_assoc. do 2 f_equal. cbn. f_equal. unfold delivery_of, m. cbn.
      destruct d. cbn in *. subst. f_equal. lia.
Qed.

Lemma receive_all a c now now' msgs : ∀ mm mailbox,
  mm_mailboxes mm !! a = Some mailbox → mb_Messages mailbox = msgs → Forall (fun m => now < mg_Timeout m) msgs →
  (mb_Owner mailbox = [] ∨ mb_Owner mailbox = c) →
  ∃ mm' mailbox', mail_run range (replicate (length msgs) (MReceive now now' c a)) mm = (pair a <$> msgs, mm') ∧
    mm_mailboxes mm' !! a = Some mailbox' ∧ mb_Messages mailbox' = [].
Proof.
  induction msgs as [|m msgs IH]; intros mm mailbox Hm Hmsgs HF Ho; cbn [length replicate mail_run].
  - by exists mm, mailbox.
  - apply Forall_cons in HF as [Hlive HF]. cbn [mail_step].
    unfold ReceiveMessage, mailbox_handleCommand, handleReceive, mbind, M_bind. rewrite Hm.
    rewrite decide_False by (intros [? ?]; by destruct Ho). rewrite Hmsgs. cbn [list_find].
    rewrite decide_True by done. cbn [delete list_delete].
    match goal with |- context [set_mailboxes (<[a := ?mb]> _) _] =>
      destruct (IH (set_mailboxes (<[a := mb]> (mm_mailboxes mm)) mm) mb) as (mm' & mailbox' & Hrun & Hm' & Hempty) end.
    + cbn. apply lookup_insert_eq.
    + done.
    + done.
    + cbn. case_decide; [by right|]. destruct Ho; [done|by right].
    + exists mm', mailbox'. cbn -[set_mailboxes]. by rewrite Hrun.
Qed.
End transfer.

(** What is sent arrives: with an empty delivery queue and an empty
    mailbox that [c] owns or nobody does, up to [MaxMailboxBacklog] messages
    sent to it, and then delivered, are received by [c], all of them and in the
    order of sending, by as many receptions at a time when none of them has
    expired; the mailbox is then empty again. *)
Theorem mailbox_transfer (range : gmap bytes Mailbox → list (bytes * Mailbox)) (mm : MailboxManager) (mailbox : Mailbox)
    (a c : bytes) (ds : list MailboxDelivery) (t1 t2 t3 now now' : Z) :
  mm_deliveries mm = [] → mm_mailboxes mm !! a = Some mailbox → mb_Messages mailbox = [] →
  (mb_Owner mailbox = [] ∨ mb_Owner mailbox = c) →
  Forall delivery_ok ds → Forall (fun d => dl_Address d = a ∧ now < dl_Timestamp d + dl_Timeout d) ds →
  len ds <= MaxMailboxBacklog →
  ∃ log mm' mailbox',
    mail_run range ((ev_send <$> ds) ++ replicate (length ds) (MDeliver t1 t2 t3)
                    ++ replicate (length ds) (MReceive now now' c a)) mm = (log, mm') ∧
    delivery_of a <$> received a log = ds ∧
    mm_mailboxes mm' !! a = Some mailbox' ∧ mb_Messages mailbox' = [].
Proof.
  intros Hq Hm Hempty Ho Hok Hds Hlen. rewrite !mail_run_app, send_all by (rewrite ?Hq; done).
  rewrite Hq. cbn [app].
  destruct (deliver_all range a t1 t2 t3 ds
    (mkMailboxManager (mm_maxMailboxes mm) (mm_retention mm) (mm_mailboxes mm) ds (mm_messageID mm)) mailbox)
    as (mm1 & mb1 & Hrun1 & Hm1 & Ho1 & Hmsgs1); [done| |done|by rewrite Hempty|].
  { eapply Forall_impl; [exact Hds|]. by intros d [? _]. }
  rewrite mail_run_app, Hrun1. rewrite Hempty in Hmsgs1. cbn [fmap list_fmap app] in Hmsgs1.
  destruct (receive_all range a c now now' (mb_Messages mb1) mm1 mb1) as (mm2 & mb2 & Hrun2 & Hm2 & He2); [done|done| |by rewrite Ho1|].
  { apply Forall_forall. intros m Hin. rewrite Forall_forall in Hds.
    destruct (Hds (delivery_of a m)) as [_ Hlive]; [rewrite <- Hmsgs1; by apply list_elem_of_fmap_2|]. cbn in Hlive. lia. }
  replace (length ds) with (length (mb_Messages mb1)) by (rewrite <- Hmsgs1; by rewrite length_fmap). rewrite Hrun2.
  eexists _, _, _. split; [reflexivity|]. split_and!; [|done|done]. rewrite <- Hmsgs1. f_equal. cbn [app].
  generalize (mb_Messages mb1). intros l. unfold received. induction l as [|m l IH]; [done|].
  cbn [fmap list_fmap]. rewrite filter_cons_True by done. cbn. by rewrite IH.
Qed.

(** C4. A mailbox is its owner's: a client that is not the owner is refused,
    and neither this nor a reception from a mailbox that is not there changes
    anything. *)
Theorem mailbox_access (range : gmap bytes Mailbox → list (bytes * Mailbox)) (mm : MailboxManager) (a c : bytes) (now now' : Z) :
  (∀ mailbox, mm_mailboxes mm !! a = Some mailbox → mb_Owner mailbox ≠ [] ∧ mb_Owner mailbox ≠ c) →
  ∃ e, ReceiveMessage range now now' c a mm = (Fail e, mm) ∧
    e = match mm_mailboxes mm !! a with
        | Some _ => Errorf "access denied to mailbox: %s"
        | None => Errorf "mailbox not found: %s"
        end.
Proof.
  intros H. unfold ReceiveMessage, mailbox_handleCommand, handleReceive, mbind, M_bind.
  destruct (mm_mailboxes mm !! a) as [mailbox|]; [rewrite decide_True by (by apply H)|]; by eexists.
Qed.

(** C5. [GetMessageCount] is never answered: its command is not one that the
    command loop knows, so its caller waits for ever. *)
Theorem message_count_unanswered (range : gmap bytes Mailbox → list (bytes * Mailbox)) (mm : MailboxManager) (a : bytes) :
  GetMessageCount range a mm = (Ret None, mm).
Proof. done. Qed.

(** A short history used below: two messages, the first of which expires. *)
Definition demo_mail : list mailEvent :=
  [MSend 0 (gs "box") (gs "s1") (gs "bob") [] (gs "one") ∅ 5; MSend 1 (gs "box") (gs "s2") (gs "bob") [] (gs "two") ∅ 100;
   MDeliver 1 1 1; MDeliver 2 2 2; MReceive 10 10 (gs "alice") (gs "box"); MReceive 11 11 (gs "eve") (gs "box")].

Lemma mailbox_accounting_witness : manager_ok (mail_run map_to_list demo_mail (NewMailboxManager 10 60)).2.
Proof. apply mailbox_accounting, map_to_list_range_order. Defined.

Lemma mailbox_in_order_witness :
  let got := received (gs "box") (mail_run map_to_list demo_mail (NewMailboxManager 10 60)).1 in
  StronglySorted Z.lt (mg_ID <$> got) ∧ ∀ m, m ∈ got → Some (delivery_of (gs "box") m) ∈ sends <$> demo_mail.
Proof. apply (mailbox_in_order map_to_list 10 60 0 demo_mail); [apply map_to_list_range_order|cbn; lia|cbn; lia]. Defined.

Example demo_mail_received :
  (mg_ID <$> received (gs "box") (mail_run map_to_list demo_mail (NewMailboxManager 10 60)).1) = [2].
Proof. vm_compute. reflexivity. Qed.

Definition demo_box : Mailbox := mkMailbox (gs "box") [] (gs "alice") ∅ 0 0 0 0.
Definition demo_deliveries : list MailboxDelivery :=
  [mkDelivery (gs "box") (gs "s1") (gs "bob") [] (gs "one") ∅ 100 0; mkDelivery (gs "box") (gs "s2") (gs "bob") [] (gs "two") ∅ 100 1].

Lemma mailbox_transfer_witness :
  let mm := mkMailboxManager 10 60 {[ gs "box" := demo_box ]} [] 0 in
  ∃ log mm' mailbox',
    mail_run map_to_list ((ev_send <$> demo_deliveries) ++ replicate 2 (MDeliver 2 2 2)
       ++ replicate 2 (MReceive 10 10 (gs "alice") (gs "box"))) mm = (log, mm') ∧
    delivery_of (gs "box") <$> received (gs "box") log = demo_deliveries ∧
    mm_mailboxes mm' !! gs "box" = Some mailbox' ∧ mb_Messages mailbox' = [].
Proof.
  intros mm. apply (mailbox_transfer map_to_list mm demo_box (gs "box") (gs "alice") demo_deliveries).
  - done.
  - reflexivity.
  - done.
  - by right.
  - repeat constructor; vm_compute; congruence.
  - repeat constructor; vm_compute; congruence.
  - vm_compute. congruence.
Defined.

Lemma mailbox_access_witness :
  let mm := mkMailboxManager 10 60 {[ gs "box" := demo_box ]} [] 0 in
  ∃ e, ReceiveMessage map_to_list 1 1 (gs "eve") (gs "box") mm = (Fail e, mm) ∧
    e = match mm_mailboxes mm !! gs "box" with
        | Some _ => Errorf "access denied to mailbox: %s"
        | None => Errorf "mailbox not found: %s"
        end.
Proof.
  intros mm. apply (mailbox_access map_to_list mm (gs "box") (gs "eve") 1 1).
  intros mailbox [= <-]. split; vm_compute; congruence.
Defined.
