(* ===== verification/Glob.v ===== *)
(** * Glob: Go's [path/filepath.Match] as Malamute's patterns use it

    The matcher of the standard library on a system whose separator is a
    slash, with [utf8.DecodeRuneInString]: [scanChunk], [matchChunk],
    [getEsc] and the main loop with its greedy treatment of stars. The loops
    take fuel: the length of the pattern, which is enough. [glob] is the
    reference meaning of the patterns that have neither classes nor
    escapes, and [Match_glob] says the greedy matcher decides it. *)

From Stdlib Require Import Strings.Byte ZArith Lia.
From stdpp Require Import base strings numbers gmap list.
From S2P Require Import Prelude.

#[local] Open Scope Z_scope.
#[local] Set Default Goal Selector "!".

Definition RuneError : Z := 65533.
Definition Separator : byte := "/"%byte.

Definition is_eq {A} `{EqDecision A} (x y : A) : bool := bool_decide (x = y).

(** [utf8.DecodeRuneInString]: the first rune and its width. *)
Definition DecodeRuneInString (s : bytes) : Z * nat :=
  let between b lo hi := (lo <=? byte_Z b) && (byte_Z b <=? hi) in
  match s with
  | [] => (RuneError, 0%nat)
  | b0 :: r =>
      let x := byte_Z b0 in
      if x <? 128 then (x, 1%nat)
      else if between b0 194 223 then
        match r with
        | b1 :: _ => if between b1 128 191 then ((x - 192) * 64 + (byte_Z b1 - 128), 2%nat) else (RuneError, 1%nat)
        | _ => (RuneError, 1%nat)
        end
      else if between b0 224 239 then
        match r with
        | b1 :: b2 :: _ =>
            if between b1 (if x =? 224 then 160 else 128) (if x =? 237 then 159 else 191) && between b2 128 191
            then ((x - 224) * 4096 + (byte_Z b1 - 128) * 64 + (byte_Z b2 - 128), 3%nat) else (RuneError, 1%nat)
        | _ => (RuneError, 1%nat)
        end
      else if between b0 240 244 then
        match r with
        | b1 :: b2 :: b3 :: _ =>
            if between b1 (if x =? 240 then 144 else 128) (if x =? 244 then 143 else 191) && between b2 128 191 && between b3 128 191
            then ((x - 240) * 262144 + (byte_Z b1 - 128) * 4096 + (byte_Z b2 - 128) * 64 + (byte_Z b3 - 128), 4%nat)
            else (RuneError, 1%nat)
        | _ => (RuneError, 1%nat)
        end
      else (RuneError, 1%nat)
  end.

(** [ErrBadPattern] is the only error; running out of fuel is a third way to
    end, which [Match_total] rules out. *)
Inductive globR (A : Type) : Type := GOk (a : A) | GBad | GFuel.
Arguments GOk {A} a.
Arguments GBad {A}.
Arguments GFuel {A}.

Definition getEsc (chunk : bytes) : globR (Z * bytes) :=
  match chunk with
  | [] => GBad
  | c :: rest =>
      if is_eq c "-"%byte || is_eq c "]"%byte then GBad
      else
        let chunk := if is_eq c "\"%byte then rest else chunk in
        match chunk with
        | [] => GBad
        | _ =>
            let '(r, n) := DecodeRuneInString chunk in
            if (r =? RuneError) && Nat.eqb n 1 then GBad
            else match drop n chunk with [] => GBad | nchunk => GOk (r, nchunk) end
        end
  end.

(** The ranges of a character class: whether [r] is in one, and the chunk
    after the closing bracket. *)
Fixpoint class_loop (fuel : nat) (r : Z) (nrange : nat) (found : bool) (chunk : bytes) : globR (bool * bytes) :=
  match fuel with
  | O => GFuel
  | S fuel =>
      match chunk with
      | c :: rest =>
          if is_eq c "]"%byte && Nat.ltb 0 nrange then GOk (found, rest)
          else
            match getEsc chunk with
            | GOk (lo, chunk) =>
                match chunk with
                | c' :: rest' =>
                    if is_eq c' "-"%byte then
                      match getEsc rest' with
                      | GOk (hi, chunk) => class_loop fuel r (S nrange) (found || ((lo <=? r) && (r <=? hi))) chunk
                      | GBad => GBad
                      | GFuel => GFuel
                      end
                    else class_loop fuel r (S nrange) (found || ((lo <=? r) && (r <=? lo))) chunk
                | [] => GBad
                end
            | GBad => GBad
            | GFuel => GFuel
            end
      | [] => GBad
      end
  end.

(** [matchChunk]: [GOk (Some rest)] when the chunk matches a prefix of [s]. *)
Fixpoint matchChunk (fuel : nat) (failed : bool) (chunk s : bytes) : globR (option bytes) :=
  match fuel with
  | O => GFuel
  | S fuel =>
      match chunk with
      | [] => GOk (if failed then None else Some s)
      | c :: rest =>
          let failed := failed || match s with [] => true | _ => false end in
          let default rest :=
            match rest with
            | [] => GBad
            | c :: rest =>
                if failed then matchChunk fuel true rest s
                else matchChunk fuel (negb (match s with b :: _ => is_eq c b | [] => false end)) rest (drop 1 s)
            end in
          if is_eq c "["%byte then
            let '(r, n) := if failed then (0, 0%nat) else DecodeRuneInString s in
            let '(negated, rest) := match rest with c' :: rest' => if is_eq c' "^"%byte then (true, rest') else (false, rest) | [] => (false, rest) end in
            match class_loop fuel r 0 false rest with
            | GOk (found, rest) => matchChunk fuel (failed || Bool.eqb found negated) rest (drop n s)
            | GBad => GBad
            | GFuel => GFuel
            end
          else if is_eq c "?"%byte then
            if failed then matchChunk fuel true rest s
            else matchChunk fuel (match s with b :: _ => is_eq b Separator | [] => true end) rest
                   (drop (DecodeRuneInString s).2 s)
          else if is_eq c "\"%byte then default rest
          else default chunk
      end
  end.

(** The scan of [scanChunk] after the stars: the chunk and what follows. *)
Fixpoint scan (inrange : bool) (pattern : bytes) : bytes * bytes :=
  match pattern with
  | [] => ([], [])
  | c :: rest =>
      if is_eq c "\"%byte then
        match rest with
        | c' :: rest' => let '(chunk, tl) := scan inrange rest' in (c :: c' :: chunk, tl)
        | [] => ([c], [])
        end
      else if is_eq c "*"%byte && negb inrange then ([], pattern)
      else
        let inrange := if is_eq c "["%byte then true else if is_eq c "]"%byte then false else inrange in
        let '(chunk, tl) := scan inrange rest in (c :: chunk, tl)
  end.

Fixpoint scanChunk (star : bool) (pattern : bytes) : bool * bytes * bytes :=
  match pattern with
  | c :: rest => if is_eq c "*"%byte then scanChunk true rest else (star, (scan false pattern).1, (scan false pattern).2)
  | [] => (star, [], [])
  end.

Definition run_chunk (chunk s : bytes) : globR (option bytes) := matchChunk (S (length chunk)) false chunk s.

(** The check that what is left of the pattern is well formed. *)
Fixpoint check_rest (fuel : nat) (pattern : bytes) : globR bool :=
  match fuel with
  | O => GFuel
  | S fuel =>
      match pattern with
      | [] => GOk false
      | _ => let '(_, chunk, pattern) := scanChunk false pattern in
             match run_chunk chunk [] with GOk _ => check_rest fuel pattern | GBad => GBad | GFuel => GFuel end
      end
  end.

(** The search of a star: skip bytes other than the separator until the
    chunk matches (and, when it is the last one, exhausts the name). *)
Fixpoint star_search (chunk : bytes) (is_last : bool) (name : bytes) : globR (option bytes) :=
  match name with
  | [] => GOk None
  | b :: name' =>
      if is_eq b Separator then GOk None
      else match run_chunk chunk name' with
           | GOk (Some t) => if is_last && negb (is_eq t []) then star_search chunk is_last name' else GOk (Some t)
           | GOk None => star_search chunk is_last name'
           | GBad => GBad
           | GFuel => GFuel
           end
  end.

Fixpoint match_loop (fuel : nat) (pattern name : bytes) : globR bool :=
  match fuel with
  | O => GFuel
  | S fuel =>
      match pattern with
      | [] => GOk (is_eq name [])
      | _ =>
          let '(star, chunk, pattern) := scanChunk false pattern in
          if star && is_eq chunk [] then GOk (negb (existsb (fun b => is_eq b Separator) name))
          else
            let is_last := is_eq pattern [] in
            let no_later_match := check_rest (S (length pattern)) pattern in
            let skip := if star then
                          match star_search chunk is_last name with
                          | GOk (Some t) => match_loop fuel pattern t
                          | GOk None => no_later_match
                          | GBad => GBad
                          | GFuel => GFuel
                          end
                        else no_later_match in
            match run_chunk chunk name with
            | GOk (Some t) => if is_eq t [] || negb is_last then match_loop fuel pattern t else skip
            | GOk None => skip
            | GBad => GBad
            | GFuel => GFuel
            end
      end
  end.

(** [filepath.Match]: the result, or [ErrBadPattern]. *)
Definition filepath_Match (pattern name : bytes) : globR bool := match_loop (S (length pattern)) pattern name.

(** ** The fuel is enough *)

Lemma DecodeRune_width s : s ≠ [] → (1 <= (DecodeRuneInString s).2)%nat.
Proof. destruct s as [|b r]; [done|]. intros _. cbn. repeat case_match; cbn; lia. Qed.

Lemma getEsc_shorter chunk r rest : getEsc chunk = GOk (r, rest) → (length rest < length chunk)%nat.
Proof.
  unfold getEsc. destruct chunk as [|c tl]; [done|]. case_match; [done|].
  set (k := if is_eq c _ then tl else c :: tl).
  assert (Hk : (length k <= length (c :: tl))%nat) by (unfold k; case_match; cbn; lia).
  destruct k as [|d k'] eqn:E; [done|]. pose proof (DecodeRune_width (d :: k') ltac:(done)) as Hw.
  destruct (DecodeRuneInString (d :: k')) as [r' n]. cbn [snd] in Hw. case_match; [done|].
  destruct (drop n (d :: k')) as [|e rest'] eqn:Ed; [done|]. intros [= <- <-].
  pose proof (length_drop (d :: k') n) as Hd. rewrite Ed in Hd. cbn [length] in *. lia.
Qed.

Lemma getEsc_total chunk : getEsc chunk ≠ GFuel.
Proof. unfold getEsc. repeat case_match; done. Qed.

Lemma class_loop_total fuel : ∀ r nrange found chunk, (length chunk < fuel)%nat →
  class_loop fuel r nrange found chunk ≠ GFuel ∧
  ∀ found' rest, class_loop fuel r nrange found chunk = GOk (found', rest) → (length rest < length chunk)%nat.
Proof.
  induction fuel as [|fuel IH]; intros r nrange found chunk Hlen; [lia|]. cbn [class_loop].
  destruct chunk as [|c rest]; [done|]. case_match; [split; [done|intros ? ? [= <- <-]; cbn; lia]|].
  destruct (getEsc (c :: rest)) as [[lo chunk]| |] eqn:E1; [|done|by apply getEsc_total in E1].
  apply getEsc_shorter in E1. destruct chunk as [|c' rest']; [done|]. case_match.
  - destruct (getEsc rest') as [[hi chunk]| |] eqn:E2; [|done|by apply getEsc_total in E2].
    apply getEsc_shorter in E2. cbn [length] in *.
    destruct (IH r (S nrange) (found || ((lo <=? r) && (r <=? hi))) chunk) as [IH1 IH2]; [lia|].
    split; [done|]. intros ? ? H'. apply IH2 in H'. lia.
  - cbn [length] in *. destruct (IH r (S nrange) (found || ((lo <=? r) && (r <=? lo))) (c' :: rest')) as [IH1 IH2]; [cbn; lia|].
    split; [done|]. intros ? ? H'. apply IH2 in H'. cbn in H'. lia.
Qed.

Lemma matchChunk_total fuel : ∀ failed chunk s, (length chunk < fuel)%nat → matchChunk fuel failed chunk s ≠ GFuel.
Proof.
  induction fuel as [|fuel IH]; intros failed chunk s Hlen; [lia|]. cbn [matchChunk].
  destruct chunk as [|c rest]; [done|]. cbn [length] in Hlen. case_match.
  - destruct (if failed || _ then _ else _) as [r n].
    assert (Hneg : ∃ negated rest', (match rest with c' :: rest' => if is_eq c' "^"%byte then (true, rest') else (false, rest) | [] => (false, rest) end)
      = (negated, rest') ∧ (length rest' <= length rest)%nat).
    { destruct rest as [|c' rest']; [by exists false, []|]. destruct (is_eq c' _); eexists _, _; (split; [done|]); cbn; lia. }
    destruct Hneg as (negated & rest' & -> & Hr). destruct (class_loop_total fuel r 0 false rest') as [H1 H2]; [lia|].
    destruct (class_loop fuel r 0 false rest') as [[found rest'']| |]; [|done|done]. apply IH. specialize (H2 _ _ eq_refl). lia.
  - repeat case_match; try done; subst; cbn [length] in *; apply IH; lia.
Qed.

Lemma run_chunk_total chunk s : run_chunk chunk s ≠ GFuel.
Proof. apply matchChunk_total. lia. Qed.

Lemma scan_length inrange p : length p = (length (scan inrange p).1 + length (scan inrange p).2)%nat.
Proof.
  assert (∀ n inrange p, (length p <= n)%nat → length p = (length (scan inrange p).1 + length (scan inrange p).2)%nat); [|eauto].
  clear. intros n. induction n as [|n IH]; intros inrange [|c p] Hn; [done|cbn in Hn; lia|done|]. cbn [scan].
  destruct (is_eq c "\"%byte).
  - destruct p as [|c' p]; [done|]. cbn in Hn. pose proof (IH inrange p ltac:(lia)) as H. destruct (scan inrange p) as [chunk tl]. cbn [fst snd length] in *. lia.
  - destruct (is_eq c "*"%byte && negb inrange); [done|]. cbn in Hn.
    match goal with |- context [scan ?i p] => pose proof (IH i p ltac:(lia)) as H; destruct (scan i p) as [chunk tl] end. cbn [fst snd length] in *. lia.
Qed.

Lemma scan_nonempty c p : is_eq c "*"%byte = false → (0 < length (scan false (c :: p)).1)%nat.
Proof. intros H. cbn. rewrite H. repeat case_match; cbn; lia. Qed.

(** A step of the main loop consumes some of the pattern. *)
Lemma scanChunk_shorter star p s chunk rest :
  scanChunk star p = (s, chunk, rest) → p ≠ [] → (length rest < length p)%nat.
Proof.
  revert star. induction p as [|c p IH]; intros star; [done|]. cbn [scanChunk]. destruct (is_eq c _) eqn:E.
  - intros H _. destruct p as [|c' p]; [|specialize (IH true H ltac:(done)); cbn in *; lia].
    injection H as <- <- <-. cbn. lia.
  - intros Heq _. apply (f_equal snd) in Heq. cbn [snd] in Heq. rewrite <- Heq. pose proof (scan_length false (c :: p)). pose proof (scan_nonempty c p E). lia.
Qed.

Lemma check_rest_total fuel : ∀ p, (length p < fuel)%nat → check_rest fuel p ≠ GFuel.
Proof.
  induction fuel as [|fuel IH]; intros p Hlen; [lia|]. cbn [check_rest]. destruct p as [|c p'] eqn:Ep; [done|]. rewrite <- Ep in Hlen |- *.
  destruct (scanChunk false p) as [[s chunk] rest] eqn:E. apply scanChunk_shorter in E; [|by subst].
  pose proof (run_chunk_total chunk []). destruct (run_chunk chunk []); [apply IH; lia|done|done].
Qed.

Lemma star_search_total chunk is_last name : star_search chunk is_last name ≠ GFuel.
Proof.
  induction name as [|b name IH]; cbn [star_search]; [done|]. case_match; [done|].
  pose proof (run_chunk_total chunk name). repeat case_match; done.
Qed.

Lemma match_loop_total fuel : ∀ p name, (length p < fuel)%nat → match_loop fuel p name ≠ GFuel.
Proof.
  induction fuel as [|fuel IH]; intros p name Hlen; [lia|]. cbn [match_loop]. destruct p as [|c p'] eqn:Ep; [done|]. rewrite <- Ep in Hlen |- *.
  destruct (scanChunk false p) as [[s chunk] rest] eqn:E. apply scanChunk_shorter in E; [|by subst].
  case_match; [done|]. pose proof (run_chunk_total chunk name). pose proof (check_rest_total (S (length rest)) rest ltac:(lia)).
  pose proof (star_search_total chunk (is_eq rest []) name).
  assert (∀ t, match_loop fuel rest t ≠ GFuel) by (intros t; apply IH; lia).
  repeat case_match; done.
Qed.

(** The matcher always comes to an end. *)
Lemma Match_total p name : filepath_Match p name ≠ GFuel.
Proof. apply match_loop_total. lia. Qed.

(** ** Reference meaning of plain patterns *)

(** A star stands for any bytes without a separator, a question mark for one
    byte other than the separator, every other byte for itself. *)
Fixpoint glob (p n : bytes) : bool :=
  match p with
  | [] => is_eq n []
  | c :: p' =>
      if is_eq c "*"%byte then
        (fix star n := glob p' n || match n with b :: n' => negb (is_eq b Separator) && star n' | [] => false end) n
      else match n with
           | [] => false
           | b :: n' => (if is_eq c "?"%byte then negb (is_eq b Separator) else is_eq c b) && glob p' n'
           end
  end.

(** Patterns without classes and escapes, and names of one-byte runes. *)
Definition plain (p : bytes) : Prop := Forall (fun c => c ≠ "["%byte ∧ c ≠ "\"%byte) p.
Definition ascii_only (n : bytes) : Prop := Forall (fun b => byte_Z b < 128) n.
Definition starless (c : bytes) : Prop := Forall (fun b => b ≠ "*"%byte) c.
Definition nosep (l : bytes) : Prop := Forall (fun b => b ≠ Separator) l.

(** A byte of a chunk against a byte of the name. *)
Definition fits (c b : byte) : Prop := if is_eq c "?"%byte then b ≠ Separator else c = b.

#[local] Instance fits_dec c b : Decision (fits c b).
Proof. unfold fits. destruct (is_eq c _); apply _. Defined.

(** What a plain chunk does to a name: its length is consumed. *)
Definition chunk_match (c n : bytes) : option bytes :=
  if decide (length c <= length n ∧ Forall2 fits c (take (length c) n))%nat then Some (drop (length c) n) else None.

Lemma is_eq_true {A} `{EqDecision A} (x y : A) : is_eq x y = true ↔ x = y.
Proof. apply bool_decide_eq_true. Qed.
Lemma is_eq_false {A} `{EqDecision A} (x y : A) : is_eq x y = false ↔ x ≠ y.
Proof. apply bool_decide_eq_false. Qed.
Lemma is_eq_refl {A} `{EqDecision A} (x : A) : is_eq x x = true.
Proof. by apply is_eq_true. Qed.

Lemma chunk_match_Some c n t : chunk_match c n = Some t ↔ ∃ m, n = m ++ t ∧ Forall2 fits c m.
Proof.
  unfold chunk_match. split.
  - case_decide as H; [|done]. intros [= <-]. destruct H as [_ H]. exists (take (length c) n). by rewrite take_drop.
  - intros (m & -> & H). pose proof (Forall2_length _ _ _ H) as Hl. rewrite decide_True.
    + by rewrite Hl, drop_app_length.
    + rewrite length_app, Hl, take_app_length. split; [lia|done].
Qed.

Lemma chunk_match_nil n : chunk_match [] n = Some n.
Proof. apply chunk_match_Some. by exists []. Qed.

Lemma chunk_match_cons_nil c p : chunk_match (c :: p) [] = None.
Proof. unfold chunk_match. rewrite decide_False; [done|]. cbn. lia. Qed.

Definition fitsb (c b : byte) : bool := if is_eq c "?"%byte then negb (is_eq b Separator) else is_eq c b.

Lemma fitsb_true c b : fitsb c b = true ↔ fits c b.
Proof. unfold fitsb, fits. destruct (is_eq c _); [rewrite negb_true_iff; apply is_eq_false|apply is_eq_true]. Qed.

Lemma chunk_match_cons c p b n : chunk_match (c :: p) (b :: n) = if fitsb c b then chunk_match p n else None.
Proof.
  unfold chunk_match. cbn [length take drop]. destruct (fitsb c b) eqn:Hf.
  - apply fitsb_true in Hf. destruct (decide (length p <= length n ∧ Forall2 fits p (take (length p) n))%nat) as [[H1 H2]|H].
    + rewrite decide_True; [done|]. split; [lia|by constructor].
    + rewrite decide_False; [done|]. intros [H1 H2]. apply H. apply Forall2_cons in H2 as [_ H2]. split; [lia|done].
  - rewrite decide_False; [done|]. intros [_ H2]. apply Forall2_cons in H2 as [H2 _]. apply fitsb_true in H2. congruence.
Qed.

Lemma DecodeRune_ascii b n : byte_Z b < 128 → DecodeRuneInString (b :: n) = (byte_Z b, 1%nat).
Proof. intros H. cbn. by rewrite (proj2 (Z.ltb_lt _ _) H). Qed.

(** [matchChunk] on a plain chunk and a name of one-byte runes. *)
Lemma matchChunk_plain fuel : ∀ failed c n,
  (length c < fuel)%nat → plain c → ascii_only n →
  matchChunk fuel failed c n = GOk (if failed then None else chunk_match c n).
Proof.
  induction fuel as [|fuel IH]; intros failed c n Hfuel Hp Ha; [lia|]. cbn [matchChunk].
  destruct c as [|c p]; [by rewrite chunk_match_nil|]. cbn [length] in Hfuel. apply Forall_cons in Hp as [[Hc1 Hc2] Hp].
  apply is_eq_false in Hc1, Hc2. rewrite Hc1, Hc2.
  destruct failed; cbv beta iota zeta delta [orb]; [destruct (is_eq c "?"%byte); apply IH; (done || lia)|].
  destruct n as [|b n]; [rewrite chunk_match_cons_nil; destruct (is_eq c "?"%byte); apply (IH true); (done || lia)|].
  apply Forall_cons in Ha as [Hb Ha]. rewrite DecodeRune_ascii, chunk_match_cons by done. cbn [snd drop]. unfold fitsb.
  change (drop 0 n) with n.
  destruct (is_eq c "?"%byte); rewrite IH by (done || lia); [by destruct (is_eq b Separator)|by destruct (is_eq c b)].
Qed.

Lemma run_chunk_plain c n : plain c → ascii_only n → run_chunk c n = GOk (chunk_match c n).
Proof. intros. unfold run_chunk. rewrite matchChunk_plain by (done || lia). done. Qed.

(** ** Facts about the reference *)

Lemma glob_chunk c p n : starless c → glob (c ++ p) n = match chunk_match c n with Some t => glob p t | None => false end.
Proof.
  intros Hs. revert n. induction Hs as [|c l Hc Hs IH]; intros n; [by rewrite chunk_match_nil|].
  cbn [app glob]. apply is_eq_false in Hc. rewrite Hc. destruct n as [|b n]; [by rewrite chunk_match_cons_nil|].
  rewrite chunk_match_cons, IH. unfold fitsb. by destruct (if is_eq c _ then _ else _).
Qed.

Lemma glob_star_unfold p n :
  glob ("*"%byte :: p) n = glob p n || match n with b :: n' => negb (is_eq b Separator) && glob ("*"%byte :: p) n' | [] => false end.
Proof. cbn [glob]. rewrite is_eq_refl. by destruct n. Qed.

Lemma nosep_nil : nosep [].
Proof. constructor. Qed.
#[local] Hint Resolve nosep_nil : core.

Lemma glob_star p n : glob ("*"%byte :: p) n = true ↔ ∃ u v, n = u ++ v ∧ nosep u ∧ glob p v = true.
Proof.
  induction n as [|b n IH]; rewrite glob_star_unfold, orb_true_iff.
  - split; [intros [H|]; [by exists [], []|done]|]. intros (u & v & E & _ & H). symmetry in E. apply app_eq_nil in E as [-> ->]. by left.
  - rewrite andb_true_iff, negb_true_iff, is_eq_false, IH. split.
    + intros [H|(Hb & u & v & -> & Hu & H)]; [by exists [], (b :: n)|]. exists (b :: u), v. split_and!; [done|by constructor|done].
    + intros ([|b' u] & v & E & Hu & H); [left; by rewrite E|]. injection E as <- ->. apply Forall_cons in Hu as [? ?].
      right. split; [done|]. by exists u, v.
Qed.

Lemma glob_stars p n : glob ("*"%byte :: "*"%byte :: p) n = glob ("*"%byte :: p) n.
Proof.
  apply eq_true_iff_eq. rewrite (glob_star ("*"%byte :: p)). split.
  - intros (u & v & -> & Hu & H). apply glob_star in H as (u' & v' & -> & Hu' & H). apply glob_star.
    exists (u ++ u'), v'. split_and!; [by rewrite app_assoc|by apply Forall_app|done].
  - intros H. by exists [], n.
Qed.

Lemma glob_star_nil n : glob ["*"%byte] n = negb (existsb (fun b => is_eq b Separator) n).
Proof.
  apply eq_true_iff_eq. rewrite glob_star, negb_true_iff. split.
  - intros (u & v & -> & Hu & Hv). cbn in Hv. apply is_eq_true in Hv as ->. rewrite app_nil_r. clear -Hu.
    induction Hu as [|b l Hb _ IH]; [done|]. cbn. apply is_eq_false in Hb. by rewrite Hb.
  - intros H. exists n, []. split_and!; [by rewrite app_nil_r| |done].
    induction n as [|b n IH]; [constructor|]. cbn in H. apply orb_false_iff in H as [Hb H]. apply is_eq_false in Hb. constructor; [done|by apply IH].
Qed.

(** ** The earliest match of a chunk is as good as any *)

Definition seps (l : bytes) : nat := length (filter (fun b => b = Separator) l).

Lemma seps_app l k : seps (l ++ k) = (seps l + seps k)%nat.
Proof. unfold seps. by rewrite filter_app, length_app. Qed.

Lemma seps_nosep l : seps l = 0%nat ↔ nosep l.
Proof.
  unfold seps, nosep. induction l as [|b l IH]; [done|]. rewrite filter_cons, Forall_cons. case_decide as H; cbn; [|tauto].
  split; [lia|tauto].
Qed.

(** The separators a chunk matches are those it has. *)
Lemma fits_seps c m : Forall2 fits c m → seps m = seps c.
Proof.
  unfold seps. induction 1 as [|c b l k Hf _ IH]; [done|]. rewrite !filter_cons. unfold fits in Hf. destruct (is_eq c _) eqn:E.
  - apply is_eq_true in E as ->. rewrite (decide_False (P := b = _)) by done. by rewrite decide_False.
  - subst. case_decide; cbn; by rewrite IH.
Qed.

Lemma earliest_match c v t x v' t' :
  chunk_match c v = Some t → v = x ++ v' → nosep x → chunk_match c v' = Some t' → ∃ w, t = w ++ t' ∧ nosep w.
Proof.
  intros (m & -> & Hm)%chunk_match_Some E Hx (m' & -> & Hm')%chunk_match_Some. rewrite app_assoc in E.
  assert (Hlen : (length m <= length (x ++ m'))%nat).
  { rewrite length_app, <- (Forall2_length _ _ _ Hm), <- (Forall2_length _ _ _ Hm'). lia. }
  assert (∃ w, x ++ m' = m ++ w ∧ t = w ++ t') as (w & Hw & Ht).
  { apply app_eq_inv in E as [(w & Hw & Ht)|(w & Hw & Ht)]; [|by exists w].
    rewrite Hw, length_app in Hlen. destruct w as [|? w]; [|cbn in Hlen; lia].
    rewrite app_nil_r in Hw. exists []. rewrite app_nil_r. by split. }
  exists w. split; [done|]. apply seps_nosep. apply (f_equal seps) in Hw. apply seps_nosep in Hx.
  rewrite !seps_app, Hx, (fits_seps _ _ Hm), (fits_seps _ _ Hm') in Hw. lia.
Qed.

(** A match of a chunk that the loop accepts: the last one must exhaust the name. *)
Definition good (c : bytes) (is_last : bool) (v t : bytes) : Prop := chunk_match c v = Some t ∧ (is_last = true → t = []).

Lemma star_search_spec c is_last name : plain c → ascii_only name →
  match star_search c is_last name with
  | GOk (Some t) =>
      ∃ u v, name = u ++ v ∧ nosep u ∧ good c is_last v t ∧
        ∀ u' v' t', name = u' ++ v' → u' ≠ [] → nosep u' → good c is_last v' t' → ∃ x, v = x ++ v' ∧ nosep x
  | GOk None => ∀ u' v' t', name = u' ++ v' → u' ≠ [] → nosep u' → ¬ good c is_last v' t'
  | _ => False
  end.
Proof.
  intros Hc. induction name as [|b name IH]; intros Ha; cbn [star_search].
  - intros u' v' t' E Hu'. symmetry in E. by apply app_eq_nil in E as [-> _].
  - apply Forall_cons in Ha as [_ Ha]. specialize (IH Ha). destruct (is_eq b Separator) eqn:Eb.
    { apply is_eq_true in Eb as ->. intros [|b' u'] v' t' E Hne Hu'; [done|]. injection E as <- _. by apply Forall_cons in Hu' as [? _]. }
    apply is_eq_false in Eb. rewrite run_chunk_plain by done.
    assert (Hskip : (∀ t, ¬ good c is_last name t) →
      match star_search c is_last name with
      | GOk (Some t) =>
          ∃ u v, b :: name = u ++ v ∧ nosep u ∧ good c is_last v t ∧
            ∀ u' v' t', b :: name = u' ++ v' → u' ≠ [] → nosep u' → good c is_last v' t' → ∃ x, v = x ++ v' ∧ nosep x
      | GOk None => ∀ u' v' t', b :: name = u' ++ v' → u' ≠ [] → nosep u' → ¬ good c is_last v' t'
      | _ => False
      end).
    { intros Hno. destruct (star_search c is_last name) as [[t|]| |]; [| |done|done].
      - destruct IH as (u & v & -> & Hu & Hg & Hall). exists (b :: u), v. split_and!; [done|by constructor|done|].
        intros [|b' u'] v' t' E Hne Hu' Hg'; [done|]. injection E as <- E. apply Forall_cons in Hu' as [_ Hu'].
        destruct u' as [|b'' u']; [cbn in E; subst v'; by destruct (Hno t')|].
        eapply (Hall _ _ t' E); done.
      - intros [|b' u'] v' t' E Hne Hu' Hg'; [done|]. injection E as <- E. apply Forall_cons in Hu' as [_ Hu'].
        destruct u' as [|b'' u']; [cbn in E; subst v'; by destruct (Hno t')|].
        eapply (IH _ _ t' E); done. }
    destruct (chunk_match c name) as [t|] eqn:Em; [|apply Hskip; intros t [Ht _]; rewrite Em in Ht; discriminate Ht].
    destruct (is_last && negb (is_eq t [])) eqn:El.
    + apply Hskip. intros t' [? Hl]. simplify_eq. apply andb_true_iff in El as [-> Ht]. rewrite Hl in Ht by done.
      by rewrite is_eq_refl in Ht.
    + exists [b], name. split_and!; [done|by constructor| |].
      * split; [done|]. intros ->. cbn [andb] in El. apply negb_false_iff in El. by apply (proj1 (is_eq_true t [])).
      * intros [|b' u'] v' t' E Hne Hu' Hg'; [done|]. injection E as <- ->. apply Forall_cons in Hu' as [_ Hu']. by exists u'.
Qed.

Lemma glob_star_skip q w t : nosep w → glob ("*"%byte :: q) t = true → glob ("*"%byte :: q) (w ++ t) = true.
Proof.
  intros Hw (u & v & -> & Hu & Hv)%glob_star. apply glob_star. exists (w ++ u), v.
  split_and!; [by rewrite app_assoc|by apply Forall_app|done].
Qed.

(** What a star followed by a chunk means, in terms of accepted matches. *)
Lemma glob_star_chunk c tl n : starless c →
  glob ("*"%byte :: c ++ tl) n = true ↔
  ∃ u v t, n = u ++ v ∧ nosep u ∧ good c (is_eq tl []) v t ∧ glob tl t = true.
Proof.
  intros Hs. rewrite glob_star. split.
  - intros (u & v & -> & Hu & H). rewrite glob_chunk in H by done. destruct (chunk_match c v) as [t|] eqn:E; [|done].
    exists u, v, t. split_and!; [done|done| |done]. split; [done|]. intros Hl. apply is_eq_true in Hl as ->. cbn [glob] in H. by apply (proj1 (is_eq_true t [])).
  - intros (u & v & t & -> & Hu & [E _] & H). exists u, v. split_and!; [done|done|]. by rewrite glob_chunk, E by done.
Qed.

(** Stopping at the earliest accepted match loses nothing. *)
Lemma greedy_step c tl n u v t :
  starless c → (tl = [] ∨ ∃ q, tl = "*"%byte :: q) → n = u ++ v → nosep u → good c (is_eq tl []) v t →
  (∀ u' v' t', n = u' ++ v' → nosep u' → good c (is_eq tl []) v' t' → ∃ x, v = x ++ v' ∧ nosep x) →
  glob ("*"%byte :: c ++ tl) n = glob tl t.
Proof.
  intros Hs Htl Hn Hu Hg Hall. apply eq_true_iff_eq. rewrite glob_star_chunk by done. split.
  - intros (u' & v' & t' & Hn' & Hu' & Hg' & H). destruct Htl as [->|[q ->]].
    + destruct Hg as [_ Hl]. rewrite Hl by done. done.
    + destruct (Hall u' v' t' Hn' Hu' Hg') as (x & Hx & Hnx). destruct Hg as [E _], Hg' as [E' _].
      destruct (earliest_match c v t x v' t' E Hx Hnx E') as (w & -> & Hw). by apply glob_star_skip.
  - intros H. by exists u, v, t.
Qed.

Lemma no_match c tl n :
  starless c → (∀ u' v' t', n = u' ++ v' → nosep u' → ¬ good c (is_eq tl []) v' t') → glob ("*"%byte :: c ++ tl) n = false.
Proof.
  intros Hs Hno. apply not_true_is_false. rewrite glob_star_chunk by done. intros (u & v & t & Hn & Hu & Hg & _).
  by destruct (Hno u v t Hn Hu).
Qed.

(** ** Scanning plain patterns *)

Lemma scan_plain p : plain p →
  p = (scan false p).1 ++ (scan false p).2 ∧ starless (scan false p).1 ∧
  ((scan false p).2 = [] ∨ ∃ q, (scan false p).2 = "*"%byte :: q).
Proof.
  induction 1 as [|c p [H1 H2] Hp IH]; [split_and!; [done|constructor|by left]|]. cbn [scan].
  apply is_eq_false in H1, H2. rewrite H2. cbn [negb]. rewrite andb_true_r. destruct (is_eq c "*"%byte) eqn:E.
  - apply is_eq_true in E as ->. split_and!; [done|constructor|right; by eexists].
  - rewrite H1. replace (if is_eq c "]"%byte then false else false) with false by by destruct (is_eq c "]"%byte).
    destruct (scan false p) as [chunk tl]. cbn [fst snd] in *. destruct IH as (-> & IH2 & IH3).
    split_and!; [done| |done]. constructor; [by apply is_eq_false|done].
Qed.

Lemma scanChunk_plain star p s c tl : scanChunk star p = (s, c, tl) → plain p →
  (∀ n, glob ((if star then ["*"%byte] else []) ++ p) n = glob ((if s then ["*"%byte] else []) ++ c ++ tl) n) ∧
  starless c ∧ plain c ∧ plain tl ∧ (tl = [] ∨ ∃ q, tl = "*"%byte :: q) ∧ (c = [] → tl = []).
Proof.
  intros Hsc Hp. revert star Hsc. induction Hp as [|b p Hb Hp IH]; intros star; cbn [scanChunk].
  - intros [= <- <- <-]. split_and!; try done; try constructor. done.
  - destruct (is_eq b "*"%byte) eqn:E.
    + intros Hsc. destruct (IH true Hsc) as (Hg & Hrest). split; [|done]. intros n. rewrite <- Hg.
      apply is_eq_true in E as ->. destruct star; cbn [app]; [apply glob_stars|done].
    + intros Heq. pose proof (scan_plain (b :: p) ltac:(by constructor)) as (Hcat & Hs & Htl).
      pose proof (scan_nonempty b p E) as Hne.
      destruct (scan false (b :: p)) as [ch rest]. cbn [fst snd] in *. injection Heq as <- <- <-.
      assert (Hpl : plain (ch ++ rest)) by (rewrite <- Hcat; by constructor).
      apply Forall_app in Hpl as [? ?]. split_and!; try done; [by rewrite Hcat|].
      intros ->. cbn in Hne. lia.
Qed.

Lemma check_rest_plain fuel : ∀ p, (length p < fuel)%nat → plain p → check_rest fuel p = GOk false.
Proof.
  induction fuel as [|fuel IH]; intros p Hlen Hp; [lia|]. cbn [check_rest]. destruct p as [|c p'] eqn:Ep; [done|]. rewrite <- Ep in Hlen, Hp |- *.
  destruct (scanChunk false p) as [[s chunk] rest] eqn:E. pose proof (scanChunk_plain _ _ _ _ _ E Hp) as (_ & _ & Hc & Hr & _).
  apply scanChunk_shorter in E; [|by subst]. rewrite run_chunk_plain by (done || constructor). apply IH; [lia|done].
Qed.

(** The greedy matcher decides the reference meaning. *)
Lemma match_loop_glob fuel : ∀ p n,
  (length p < fuel)%nat → plain p → ascii_only n → match_loop fuel p n = GOk (glob p n).
Proof.
  induction fuel as [|fuel IH]; intros p n Hlen Hp Hn; [lia|]. cbn [match_loop].
  destruct p as [|b p'] eqn:Ep; [done|]. rewrite <- Ep in Hlen, Hp |- *.
  destruct (scanChunk false p) as [[s c] tl] eqn:E. pose proof (scanChunk_plain _ _ _ _ _ E Hp) as (Hg & Hs & Hc & Htl & Hstar & Hnil).
  apply scanChunk_shorter in E; [|by subst]. cbn [app] in Hg. rewrite Hg. clear Hg.
  rewrite check_rest_plain by (done || lia). rewrite run_chunk_plain by done.
  assert (IH' : ∀ t u, n = u ++ t → match_loop fuel tl t = GOk (glob tl t)).
  { intros t u ->. apply Forall_app in Hn as [_ Hn]. apply IH; [lia|done|done]. }
  assert (Hsuf : ∀ v t, chunk_match c v = Some t → ∃ m, v = m ++ t) by (intros v t (m & -> & _)%chunk_match_Some; by exists m).
  destruct s; cbn [app andb].
  - destruct (is_eq c []) eqn:Ec.
    { apply is_eq_true in Ec as ->. rewrite Hnil by done. cbn [app]. by rewrite glob_star_nil. }
    assert (Hskip : (∀ t, ¬ good c (is_eq tl []) n t) →
      match star_search c (is_eq tl []) n with
      | GOk (Some t) => match_loop fuel tl t | GOk None => GOk false | GBad => GBad | GFuel => GFuel
      end = GOk (glob ("*"%byte :: c ++ tl) n)).
    { intros Hno. pose proof (star_search_spec c (is_eq tl []) n Hc Hn) as Hss.
      destruct (star_search c (is_eq tl []) n) as [[t|]| |]; [| |done|done].
      - destruct Hss as (u & v & Hu & Hnu & Hgood & Hall). destruct (Hsuf v t (proj1 Hgood)) as [m ->].
        rewrite (IH' t (u ++ m)) by (by rewrite <- app_assoc). f_equal. symmetry.
        eapply (greedy_step c tl n u); [done|done|done|done|exact Hgood|].
        intros [|x u'] v' t' E' Hnu' Hg'; [cbn in E'; subst v'; by destruct (Hno t')|]. eapply Hall; done.
      - f_equal. symmetry. apply no_match; [done|].
        intros [|x u'] v' t' E' Hnu' Hg'; [cbn in E'; subst v'; by destruct (Hno t')|]. by eapply Hss. }
    destruct (chunk_match c n) as [t|] eqn:Em; [|apply Hskip; intros t [Ht _]; congruence].
    destruct (is_eq t [] || negb (is_eq tl [])) eqn:El.
    + destruct (Hsuf n t Em) as [m ->]. rewrite (IH' t m) by done. f_equal. symmetry.
      apply (greedy_step c tl _ [] (m ++ t) t); [done|done|done|done| |].
      * split; [done|]. intros Hl. rewrite Hl in El. cbn [negb] in El. rewrite orb_false_r in El. by apply (proj1 (is_eq_true t [])).
      * intros u' v' t' E' Hnu' _. by exists u'.
    + apply Hskip. intros t' [Ht' Hl]. rewrite Em in Ht'. injection Ht' as <-. apply orb_false_iff in El as [E1 E2].
      apply negb_false_iff in E2. rewrite (Hl E2) in E1. by rewrite is_eq_refl in E1.
  - rewrite glob_chunk by done. destruct (chunk_match c n) as [t|] eqn:Em; [|done].
    destruct (is_eq t [] || negb (is_eq tl [])) eqn:El; [destruct (Hsuf n t Em) as [m Hm]; by eapply IH'|].
    apply orb_false_iff in El as [E1 E2]. apply negb_false_iff, is_eq_true in E2 as ->. cbn [glob]. by rewrite E1.
Qed.

Lemma Match_glob p n : plain p → ascii_only n → filepath_Match p n = GOk (glob p n).
Proof. intros. by apply match_loop_glob; [lia| |]. Qed.

(** Some entries of the standard library's own table of matches. *)
Example match_table :
  (fun '(p, n) => filepath_Match (gs p) (gs n)) <$>
    [("*c", "abc"); ("a*/b", "abc/b"); ("a*/b", "a/c/b"); ("a*b*c*d*e*/f", "axbxcxdxe/f"); ("a*b?c*x", "abxbbxdbxebxczzx");
     ("ab[^e-g]", "abc"); ("a\*b", "a*b"); ("[a-ζ]*", "α"); ("[\]a]", "]"); ("*x", "xxx"); ("a*", "ab/c")]%string
  = [GOk true; GOk true; GOk false; GOk true; GOk true; GOk true; GOk true; GOk true; GOk true; GOk true; GOk false].
Proof. vm_compute. reflexivity. Qed.

Example match_table_bad :
  (fun '(p, n) => filepath_Match (gs p) (gs n)) <$> [("[]a]", "]"); ("[-]", "-"); ("[a-]", "a"); ("a[", "a"); ("a[", "ab"); ("[-x]", "x"); ("\", "a")]%string
  = replicate 7 GBad.
Proof. vm_compute. reflexivity. Qed.
