(* ===== verification/MlmStream.v ===== *)
(** * MlmStream: publish and subscribe streams of Malamute (src/malamute/stream.go)

    The manager's state is its streams, with their stored messages and
    subscriptions, and the contents of the [publications] channel. Handlers
    run one at a time under the mutex. Delivery to a subscriber is what the
    code prints: the subscriber and the message. The clock readings, the
    iteration orders of maps and [time.ParseDuration] (only used for the
    [ttl] attribute) are arguments. *)

From Stdlib Require Import Strings.Byte ZArith Lia.
From stdpp Require Import base strings numbers gmap sorting list.
From S2P Require Import Prelude MlmMessage MlmCredit MlmMailbox Glob.

#[local] Open Scope Z_scope.
#[local] Set Default Goal Selector "!".

Definition MaxStreamBacklog : Z := 100000.
Definition StreamAttrTimeToLive : bytes := gs "ttl".
(** The capacity of the [publications] channel. *)
Definition publications_cap : Z := 10000.
Definition hour : Z := 60 * 60 * 1000000000.

Record StreamMessage : Type := mkStreamMsg {
  sg_ID : Z;
  sg_Subject : bytes;
  sg_Sender : bytes;
  sg_Attributes : gmap bytes bytes;
  sg_Body : bytes;
  sg_Timestamp : Z;
  sg_TTL : Z;
  sg_Priority : Z }.

Record StreamSubscription : Type := mkStreamSub {
  sb_ClientID : bytes;
  sb_Pattern : bytes;
  sb_Credit : Z;
  sb_Attributes : gmap bytes bytes;
  sb_CreatedAt : Z;
  sb_LastRead : Z }.

Record Stream : Type := mkStream {
  st_Name : bytes;
  st_Messages : list StreamMessage;
  st_Subscribers : gmap bytes StreamSubscription;
  st_Attributes : gmap bytes bytes;
  st_CreatedAt : Z;
  st_LastActivity : Z;
  st_MessageCount : Z;
  st_BytesStored : Z }.

Record StreamPub : Type := mkPub {
  pu_Stream : bytes;
  pu_Subject : bytes;
  pu_Sender : bytes;
  pu_Body : bytes;
  pu_Attributes : gmap bytes bytes;
  pu_Timestamp : Z }.

Record StreamManager : Type := mkStreamManager {
  sm_maxStreams : Z;
  sm_retention : Z;
  sm_streams : gmap bytes Stream;
  sm_publications : list StreamPub }.

Definition NewStreamManager (maxStreams retention : Z) : StreamManager := mkStreamManager maxStreams retention ∅ [].

Definition set_streams (m : gmap bytes Stream) (sm : StreamManager) : StreamManager :=
  mkStreamManager (sm_maxStreams sm) (sm_retention sm) m (sm_publications sm).

Definition set_subscribers (m : gmap bytes StreamSubscription) (s : Stream) : Stream :=
  mkStream (st_Name s) (st_Messages s) m (st_Attributes s) (st_CreatedAt s) (st_LastActivity s)
    (st_MessageCount s) (st_BytesStored s).

Definition WriteMessage (now : Z) (streamName subject sender body : bytes) (attributes : gmap bytes bytes)
    : M StreamManager unit := fun sm =>
  if decide (len streamName = 0 ∨ MaxStreamName < len streamName) then
    (Fail (Errorf "invalid stream name length: %d"), sm)
  else if decide (MaxMessageSize < len body) then (Fail (Errorf "message too large: %d bytes"), sm)
  else if decide (len (sm_publications sm) < publications_cap) then
    (Ret tt, mkStreamManager (sm_maxStreams sm) (sm_retention sm) (sm_streams sm)
               (sm_publications sm ++ [mkPub streamName subject sender body attributes now]))
  else (Fail (Errorf "publication queue full"), sm).

(** [matchesPattern]: [filepath.Match] with two special cases. *)
Definition matchesPattern (subject pattern : bytes) : bool :=
  if is_eq pattern (gs "*") then true
  else match filepath_Match pattern subject with
       | GOk matched => matched
       | GBad | GFuel => is_eq subject pattern
       end.

(** What the loop of [deliverToSubscribers] does for one subscription: whether
    it is served, and its new state. *)
Definition sub_served (subject : bytes) (sub : StreamSubscription) : bool :=
  matchesPattern subject (sb_Pattern sub) && bool_decide (0 < sb_Credit sub).

Definition serve (message : StreamMessage) (sub : StreamSubscription) : StreamSubscription :=
  if sub_served (sg_Subject message) sub then
    mkStreamSub (sb_ClientID sub) (sb_Pattern sub) (i32 (sb_Credit sub - 1)) (sb_Attributes sub) (sb_CreatedAt sub) (sg_ID message)
  else sub.

(** [handleSubscribe] and [processPublication] create a stream alike. *)
Definition get_or_create (t1 t2 : Z) (name : bytes) (sm : StreamManager) : option Stream :=
  match sm_streams sm !! name with
  | Some s => Some s
  | None =>
      if decide (sm_maxStreams sm <= Z.of_nat (size (sm_streams sm))) then None
      else Some (mkStream name [] ∅ ∅ t1 t2 0 0)
  end.

Section streams.
Context (ParseDuration : bytes → option Z).
Context (range : gmap bytes Stream → list (bytes * Stream)).
Context (subs_range : gmap bytes StreamSubscription → list (bytes * StreamSubscription)).

(** [deliverToSubscribers]: the deliveries made, in the order of the map's
    iteration, and the stream after it. *)
Definition deliverToSubscribers (message : StreamMessage) (s : Stream) : list (bytes * StreamMessage) * Stream :=
  let order := subs_range (st_Subscribers s) in
  (omap (fun '(clientID, sub) => if sub_served (sg_Subject message) sub then Some (clientID, message) else None) order,
   set_subscribers (sweep (fun _ sub => Some (serve message sub)) order (st_Subscribers s)) s).

(** The message that [processPublication] builds. *)
Definition publication_message (retention : Z) (pub : StreamPub) (s : Stream) : StreamMessage :=
  let ttl := match pu_Attributes pub !! StreamAttrTimeToLive with
             | Some str => default retention (ParseDuration str)
             | None => retention
             end in
  mkStreamMsg (u64 (st_MessageCount s + 1)) (pu_Subject pub) (pu_Sender pub) (pu_Attributes pub) (pu_Body pub)
    (pu_Timestamp pub) ttl 0.

(** Storing it, within the backlog. *)
Definition store_publication (now : Z) (message : StreamMessage) (s : Stream) : Stream :=
  let messages := st_Messages s ++ [message] in
  let messages := if decide (MaxStreamBacklog < len messages) then drop 1 messages else messages in
  mkStream (st_Name s) messages (st_Subscribers s) (st_Attributes s) (st_CreatedAt s) now
    (u64 (st_MessageCount s + 1)) (u64 (st_BytesStored s + u64 (len (sg_Body message)))).

(** [processPublication]; [t1], [t2] and [t3] are its clock readings. *)
Definition processPublication (t1 t2 t3 : Z) (pub : StreamPub) : M StreamManager (list (bytes * StreamMessage)) := fun sm =>
  match get_or_create t1 t2 (pu_Stream pub) sm with
  | None => (Ret [], sm)
  | Some s =>
      let message := publication_message (sm_retention sm) pub s in
      let '(out, s') := deliverToSubscribers message (store_publication t3 message s) in
      (Ret out, set_streams (<[pu_Stream pub := s']> (sm_streams sm)) sm)
  end.

(** One turn of [publicationLoop]. *)
Definition publicationLoop (t1 t2 t3 : Z) : M StreamManager (list (bytes * StreamMessage)) := fun sm =>
  match sm_publications sm with
  | [] => (Ret [], sm)
  | pub :: rest =>
      processPublication t1 t2 t3 pub (mkStreamManager (sm_maxStreams sm) (sm_retention sm) (sm_streams sm) rest)
  end.

Definition handleSubscribe (t1 t2 t3 : Z) (clientID stream pattern : bytes) (attributes : gmap bytes bytes)
    : M StreamManager unit := fun sm =>
  match get_or_create t1 t2 stream sm with
  | None => (Fail (Errorf "maximum streams exceeded"), sm)
  | Some s =>
      let sub := mkStreamSub clientID pattern DefaultCreditWindow attributes t3 (st_MessageCount s) in
      (Ret tt, set_streams (<[stream := set_subscribers (<[clientID := sub]> (st_Subscribers s)) s]> (sm_streams sm)) sm)
  end.

(** What becomes of a stream that a client leaves; [now] is the clock at its
    [time.Since]. *)
Definition leave (now : Z) (clientID : bytes) (s : Stream) : option Stream :=
  let subs := delete clientID (st_Subscribers s) in
  if decide (Z.of_nat (size subs) = 0 ∧ hour < now - st_LastActivity s) then None
  else Some (set_subscribers subs s).

Definition handleUnsubscribe (now : Z) (clientID streamName : bytes) : M StreamManager unit := mupd (fun sm =>
  match sm_streams sm !! streamName with
  | Some s =>
      match leave now clientID s with
      | Some s' => set_streams (<[streamName := s']> (sm_streams sm)) sm
      | None => set_streams (delete streamName (sm_streams sm)) sm
      end
  | None => sm
  end).

Definition stream_handleRemoveClient (clock : bytes → Z) (clientID : bytes) : M StreamManager unit := mupd (fun sm =>
  set_streams (sweep (fun name s => leave (clock name) clientID s) (range (sm_streams sm)) (sm_streams sm)) sm).

(** The loop of [cleanupExpiredMessages] over one stream's messages. *)
Definition stream_expired (now : Z) (m : StreamMessage) : Prop := 0 < sg_TTL m ∧ sg_TTL m < now - sg_Timestamp m.

#[global] Instance stream_expired_dec now m : Decision (stream_expired now m).
Proof. unfold stream_expired. apply _. Defined.

Definition stream_expire (now : Z) (messages : list StreamMessage) (stored : Z) : list StreamMessage * Z :=
  foldl (fun '(valid, stored) message =>
           if decide (stream_expired now message) then (valid, u64 (stored - u64 (len (sg_Body message))))
           else (valid ++ [message], stored)) ([], stored) messages.

Definition cleanup_stream (now now' : Z) (s : Stream) : option Stream :=
  let '(valid, stored) := stream_expire now (st_Messages s) (st_BytesStored s) in
  if decide (Z.of_nat (size (st_Subscribers s)) = 0 ∧ len valid = 0 ∧ 24 * hour < now' - st_LastActivity s) then None
  else Some (mkStream (st_Name s) valid (st_Subscribers s) (st_Attributes s) (st_CreatedAt s) (st_LastActivity s)
               (st_MessageCount s) stored).

Definition stream_cleanupExpiredMessages (now : Z) (clock : bytes → Z) : M StreamManager unit := mupd (fun sm =>
  set_streams (sweep (fun name => cleanup_stream now (clock name)) (range (sm_streams sm)) (sm_streams sm)) sm).

Inductive streamCmd : Type :=
| sc_subscribe (clientID stream pattern : bytes) (attributes : gmap bytes bytes)
| sc_unsubscribe (clientID stream : bytes)
| sc_remove_client (clientID : bytes)
| sc_get_stream (stream : bytes)
| sc_get_streams
| sc_restore_credit (clientID stream : bytes) (credit : Z).

Inductive streamReply : Type :=
| SRNil
| SRError (e : error)
| SRStream (s : Stream)
| SRStreams (m : gmap bytes Stream).

(** [handleCommand]: the value sent on the reply channel, if any. *)
Definition stream_handleCommand (clock : bytes → Z) (t1 t2 t3 : Z) (cmd : streamCmd) : M StreamManager (option streamReply) :=
  match cmd with
  | sc_subscribe clientID stream pattern attributes =>
      r ← try (handleSubscribe t1 t2 t3 clientID stream pattern attributes);
      mret (Some (match r with inl _ => SRNil | inr e => SRError e end))
  | sc_unsubscribe clientID stream => _ ← handleUnsubscribe t1 clientID stream; mret (Some SRNil)
  | sc_remove_client clientID => _ ← stream_handleRemoveClient clock clientID; mret (Some SRNil)
  | sc_get_stream stream =>
      sm ← mget; mret (Some (match sm_streams sm !! stream with Some s => SRStream s | None => SRNil end))
  | sc_get_streams =>
      sm ← mget; mret (Some (SRStreams (foldl (fun m kv => <[kv.1 := kv.2]> m) ∅ (range (sm_streams sm)))))
  | sc_restore_credit _ _ _ => mret None
  end.

(** The callers' side of the commands of a running manager; [None] is a
    caller that waits for ever. *)
Definition Subscribe (t1 t2 t3 : Z) (clientID streamName pattern : bytes) (attributes : gmap bytes bytes)
    : M StreamManager (option unit) :=
  r ← stream_handleCommand (fun _ => 0) t1 t2 t3 (sc_subscribe clientID streamName pattern attributes);
  match r with None => mret None | Some (SRError e) => mfail e | Some _ => mret (Some tt) end.

Definition Unsubscribe (now : Z) (clientID streamName : bytes) : M StreamManager (option unit) :=
  r ← stream_handleCommand (fun _ => 0) now now now (sc_unsubscribe clientID streamName);
  match r with None => mret None | Some _ => mret (Some tt) end.

Definition stream_RemoveClient (clock : bytes → Z) (clientID : bytes) : M StreamManager (option unit) :=
  r ← stream_handleCommand clock 0 0 0 (sc_remove_client clientID);
  match r with None => mret None | Some _ => mret (Some tt) end.

Definition GetStream (streamName : bytes) : M StreamManager (option Stream) :=
  r ← stream_handleCommand (fun _ => 0) 0 0 0 (sc_get_stream streamName);
  match r with
  | None => mret None
  | Some (SRStream s) => mret (Some s)
  | Some _ => mfail (Errorf "stream not found: %s")
  end.

Definition GetStreams : M StreamManager (option (gmap bytes Stream)) :=
  r ← stream_handleCommand (fun _ => 0) 0 0 0 sc_get_streams;
  match r with
  | None => mret None
  | Some (SRStreams m) => mret (Some m)
  | Some _ => mpanic "interface conversion"
  end.

Definition RestoreCredit (clientID streamName : bytes) (credit : Z) : M StreamManager (option unit) :=
  r ← stream_handleCommand (fun _ => 0) 0 0 0 (sc_restore_credit clientID streamName credit);
  match r with None => mret None | Some _ => mret (Some tt) end.

(** ** Histories *)

Inductive streamEvent : Type :=
| SWrite (now : Z) (stream subject sender body : bytes) (attributes : gmap bytes bytes)
| SPublish (t1 t2 t3 : Z)
| SCommand (clock : bytes → Z) (t1 t2 t3 : Z) (cmd : streamCmd)
| SCleanup (now : Z) (clock : bytes → Z).

(** One event: the deliveries it makes, each with the stream's name. *)
Definition stream_step (e : streamEvent) (sm : StreamManager) : list (bytes * bytes * StreamMessage) * StreamManager :=
  match e with
  | SWrite now stream subject sender body attributes => ([], (WriteMessage now stream subject sender body attributes sm).2)
  | SPublish t1 t2 t3 =>
      let '(r, sm') := publicationLoop t1 t2 t3 sm in
      (match r, sm_publications sm with
       | Ret out, pub :: _ => (fun '(c, m) => (pu_Stream pub, c, m)) <$> out
       | _, _ => []
       end, sm')
  | SCommand clock t1 t2 t3 cmd => ([], (stream_handleCommand clock t1 t2 t3 cmd sm).2)
  | SCleanup now clock => ([], (stream_cleanupExpiredMessages now clock sm).2)
  end.

Fixpoint stream_run (es : list streamEvent) (sm : StreamManager) : list (bytes * bytes * StreamMessage) * StreamManager :=
  match es with
  | [] => ([], sm)
  | e :: es => let '(out, sm') := stream_step e sm in let '(rest, sm'') := stream_run es sm' in (out ++ rest, sm'')
  end.
End streams.

(** ** Well-formed managers *)

Definition sub_ok (n : Z) (c : bytes) (sub : StreamSubscription) : Prop :=
  sb_ClientID sub = c ∧ 0 <= sb_Credit sub <= DefaultCreditWindow ∧ 0 <= sb_LastRead sub <= n.

Definition sid_lt (m m' : StreamMessage) : Prop := sg_ID m < sg_ID m'.

Record stream_ok (a : bytes) (s : Stream) : Prop := {
  so_name : st_Name s = a;
  so_backlog : len (st_Messages s) <= MaxStreamBacklog;
  so_sorted : StronglySorted sid_lt (st_Messages s);
  so_ids : Forall (fun m => 0 < sg_ID m <= st_MessageCount s) (st_Messages s);
  so_subs : map_Forall (sub_ok (st_MessageCount s)) (st_Subscribers s) }.

(** [n] bounds the number of messages any stream has had. *)
Record streams_ok (n : Z) (sm : StreamManager) : Prop := {
  ss_count : Z.of_nat (size (sm_streams sm)) <= Z.max 0 (sm_maxStreams sm);
  ss_queue : len (sm_publications sm) <= publications_cap;
  ss_streams : map_Forall stream_ok (sm_streams sm);
  ss_bound : map_Forall (fun _ s => 0 <= st_MessageCount s <= n) (sm_streams sm) }.

(** ** Lemmas *)

Section facts.
Context (ParseDuration : bytes → option Z).
Context (range : gmap bytes Stream → list (bytes * Stream)) (Hrange : range_order range).
Context (subs_range : gmap bytes StreamSubscription → list (bytes * StreamSubscription)) (Hsubs : range_order subs_range).

Lemma streams_ok_mono n n' sm : n <= n' → streams_ok n sm → streams_ok n' sm.
Proof. intros Hn [H1 H2 H3 H4]. split; try done. eapply map_Forall_impl; [exact H4|]. cbn. lia. Qed.

Lemma streams_ok_set n sm m :
  streams_ok n sm → Z.of_nat (size m) <= Z.max 0 (sm_maxStreams sm) →
  map_Forall (fun a s => stream_ok a s ∧ 0 <= st_MessageCount s <= n) m → streams_ok n (set_streams m sm).
Proof. intros [H1 H2 H3 H4] Hs Hm. split; cbn; [done|done| |]; intros a s Ha; by destruct (Hm a s Ha). Qed.

Lemma streams_ok_sweep n sm f :
  streams_ok n sm →
  (∀ a s s', stream_ok a s → f a s = Some s' → stream_ok a s' ∧ st_MessageCount s' = st_MessageCount s) →
  streams_ok n (set_streams (sweep f (range (sm_streams sm)) (sm_streams sm)) sm).
Proof.
  intros Hok Hf. pose proof Hok as [H1 H2 H3 H4]. apply streams_ok_set; [done| |].
  - pose proof (sweep_size range f (sm_streams sm) Hrange). lia.
  - eapply (sweep_Forall range f _ (fun a s => stream_ok a s ∧ 0 <= st_MessageCount s <= n)); [done| |].
    + intros a s Ha. split; [by apply H3|by apply (H4 a)].
    + cbn. intros a s s' [Hs Hn] Hs'. destruct (Hf a s s' Hs Hs') as [? ->]. by split.
Qed.

(** A stream obtained by [get_or_create] is well formed and fits. *)
Lemma get_or_create_ok n sm t1 t2 name s :
  streams_ok n sm → 0 <= n → get_or_create t1 t2 name sm = Some s →
  stream_ok name s ∧ 0 <= st_MessageCount s <= n ∧
  ∀ s', Z.of_nat (size (<[name := s']> (sm_streams sm))) <= Z.max 0 (sm_maxStreams sm).
Proof.
  intros [H1 H2 H3 H4] Hn. unfold get_or_create. destruct (sm_streams sm !! name) as [s0|] eqn:E.
  - intros [= ->]. split_and!; [by apply H3|by apply (H4 name)|by apply (H4 name)|].
    intros s'. rewrite map_size_insert_Some by by eexists. done.
  - case_decide; [done|]. intros [= <-]. split_and!; [|cbn; lia|cbn; lia|].
    + split; cbn; try done; constructor.
    + intros s'. rewrite map_size_insert_None by done. lia.
Qed.

Lemma streams_ok_insert n sm name s :
  streams_ok n sm → stream_ok name s → 0 <= st_MessageCount s <= n →
  Z.of_nat (size (<[name := s]> (sm_streams sm))) <= Z.max 0 (sm_maxStreams sm) →
  streams_ok n (set_streams (<[name := s]> (sm_streams sm)) sm).
Proof.
  intros Hok Hs Hb Hsize. pose proof Hok as [H1 H2 H3 H4]. apply streams_ok_set; [done|done|].
  apply map_Forall_insert_2; [done|]. intros a s' Ha. split; [by apply H3|by apply (H4 a)].
Qed.

Lemma serve_ok n c message sub : sub_ok n c sub → 0 <= sg_ID message <= n → sub_ok n c (serve message sub).
Proof.
  intros (H1 & H2 & H3) Hm. unfold serve, sub_served. destruct (matchesPattern _ _); [|done]. cbn [andb].
  case_bool_decide; [|done]. unfold sub_ok, DefaultCreditWindow in *. cbn. rewrite i32_small by lia. split_and!; lia || done.
Qed.

Lemma store_publication_messages now m s :
  sublist (st_Messages (store_publication now m s)) (st_Messages s ++ [m]) ∧
  (len (st_Messages s) <= MaxStreamBacklog → len (st_Messages (store_publication now m s)) <= MaxStreamBacklog).
Proof.
  unfold store_publication. cbn. case_decide as H.
  - split; [apply sublist_drop|]. intros Hl. unfold len in *. rewrite length_drop, length_app in *. cbn in *. lia.
  - split; [done|]. lia.
Qed.

Lemma publication_ok n sm name s retention pub t3 :
  streams_ok n sm → stream_ok name s → 0 <= st_MessageCount s <= n → n + 1 < 2 ^ 64 →
  let m := publication_message ParseDuration retention pub s in
  let s' := (deliverToSubscribers subs_range m (store_publication t3 m s)).2 in
  stream_ok name s' ∧ 0 <= st_MessageCount s' <= n + 1.
Proof.
  intros Hok [Hn Hb Hsort Hids Hsub] Hc Hlim m s'. unfold s', deliverToSubscribers. cbn [snd].
  destruct (store_publication_messages t3 m s) as [Hsubl Hlen].
  assert (Hid : sg_ID m = st_MessageCount s + 1) by (cbn; apply u64_small; lia).
  assert (Hall : StronglySorted sid_lt (st_Messages s ++ [m]) ∧ Forall (fun x => 0 < sg_ID x <= st_MessageCount s + 1) (st_Messages s ++ [m])).
  { rewrite Forall_forall in Hids. split.
    - apply StronglySorted_app. split_and!; [|done|by repeat constructor].
      intros x y Hx ->%list_elem_of_singleton. unfold sid_lt. specialize (Hids x Hx). lia.
    - apply Forall_forall. intros x [Hx| ->%list_elem_of_singleton]%elem_of_app; [specialize (Hids x Hx)|]; lia. }
  destruct Hall as [Hsorted Hall]. cbn [st_MessageCount store_publication set_subscribers]. rewrite u64_small by lia.
  split; [|lia]. split; cbn [st_MessageCount st_Name st_Subscribers st_Messages set_subscribers]; [done|by apply Hlen| | |].
  - by eapply StronglySorted_sublist.
  - unfold store_publication at 1. cbn [st_MessageCount]. rewrite u64_small by lia.
    rewrite Forall_forall in Hall |- *. intros x Hx. apply Hall. by eapply sublist_elem.
  - unfold store_publication at 1. cbn [st_MessageCount]. rewrite u64_small by lia.
    eapply sweep_Forall; [done|exact Hsub|]. intros c sub sub' (? & ? & ?) [= <-].
    apply serve_ok; [split_and!; [done|lia|lia|lia|lia]|lia].
Qed.

Lemma leave_ok now c a s s' : stream_ok a s → leave now c s = Some s' → stream_ok a s' ∧ st_MessageCount s' = st_MessageCount s.
Proof.
  intros [? ? ? ? Hsub]. unfold leave. case_decide; [done|]. intros [= <-]. split; [|done]. split; try done.
  cbn. by apply map_Forall_delete.
Qed.

Lemma stream_expire_sublist now l stored : sublist (stream_expire now l stored).1 l.
Proof.
  enough (H : ∀ valid, (foldl (fun '(valid, stored) message =>
           if decide (stream_expired now message) then (valid, u64 (stored - u64 (len (sg_Body message))))
           else (valid ++ [message], stored)) (valid, stored) l).1
      = valid ++ filter (fun m => ¬ stream_expired now m) l).
  { unfold stream_expire. rewrite H. apply sublist_filter. }
  revert stored. induction l as [|m l IH]; intros stored valid; cbn [foldl]; [by rewrite app_nil_r|].
  case_decide; rewrite IH.
  - by rewrite filter_cons_False by tauto.
  - rewrite filter_cons_True by done. by rewrite <- app_assoc.
Qed.

Lemma cleanup_stream_ok now now' a s s' :
  stream_ok a s → cleanup_stream now now' s = Some s' → stream_ok a s' ∧ st_MessageCount s' = st_MessageCount s.
Proof.
  intros [? Hb Hs Hi ?]. unfold cleanup_stream. pose proof (stream_expire_sublist now (st_Messages s) (st_BytesStored s)) as Hsub.
  destruct (stream_expire _ _ _) as [valid stored]. case_decide; [done|]. intros [= <-]. split; [|done]. cbn in Hsub.
  split; cbn; [done| |by eapply StronglySorted_sublist| |done].
  - apply sublist_length in Hsub. unfold len in *. lia.
  - rewrite Forall_forall in Hi |- *. intros x Hx. apply Hi. by eapply sublist_elem.
Qed.

Lemma stream_command_ok n sm clock t1 t2 t3 cmd :
  streams_ok n sm → 0 <= n → streams_ok n (stream_handleCommand range clock t1 t2 t3 cmd sm).2.
Proof.
  intros Hok Hn. destruct cmd as [c name pat attrs|c name|c|name| |c name cr]; try done.
  - cbn. unfold try, handleSubscribe, mbind, M_bind. destruct (get_or_create t1 t2 name sm) as [s|] eqn:E; [|done]. cbn.
    destruct (get_or_create_ok n sm t1 t2 name s Hok Hn E) as ([? ? ? ? Hsub] & Hb & Hsize).
    apply streams_ok_insert; [done| |done|apply Hsize]. split; try done. cbn.
    apply map_Forall_insert_2; [|done]. unfold sub_ok, DefaultCreditWindow. cbn. split_and!; (lia || done).
  - cbn. unfold mbind, M_bind, handleUnsubscribe. cbn. destruct (sm_streams sm !! name) as [s|] eqn:E; [|done].
    pose proof Hok as [H1 H2 H3 H4]. destruct (leave t1 c s) as [s'|] eqn:El; cbn.
    + destruct (leave_ok _ _ _ _ _ (H3 name s E) El) as [Hs' Hc]. apply streams_ok_insert; [done|done|rewrite Hc; by apply (H4 name)|].
      by rewrite map_size_insert_Some by by eexists.
    + apply streams_ok_set; [done| |].
      * rewrite map_size_delete_Some by by eexists. lia.
      * apply map_Forall_delete. intros a s' Ha. split; [by apply H3|by apply (H4 a)].
  - apply streams_ok_sweep; [done|]. intros a s s' Hs. by apply leave_ok.
Qed.

Lemma stream_step_ok n e sm :
  streams_ok n sm → 0 <= n → n + 1 < 2 ^ 64 → streams_ok (n + 1) (stream_step ParseDuration range subs_range e sm).2.
Proof.
  intros Hok Hn Hlim. pose proof Hok as [H1 H2 H3 H4]. destruct e as [now name subj sender body attrs|t1 t2 t3|clock t1 t2 t3 cmd|now clock].
  - apply (streams_ok_mono n); [lia|]. cbn. unfold WriteMessage. repeat case_decide; try done. split; cbn; try done.
    rewrite len_app. change (len [_]) with 1. lia.
  - cbn [stream_step]. unfold publicationLoop. destruct (sm_publications sm) as [|pub rest] eqn:E; [by apply (streams_ok_mono n); [lia|]|].
    set (sm0 := mkStreamManager _ _ _ _).
    assert (Hok0 : streams_ok n sm0) by (split; cbn; try done; rewrite len_cons in H2; lia).
    unfold processPublication. destruct (get_or_create t1 t2 (pu_Stream pub) sm0) as [s|] eqn:Eg; [|by apply (streams_ok_mono n); [lia|]].
    destruct (get_or_create_ok n sm0 t1 t2 _ s Hok0 Hn Eg) as (Hs & Hb & Hsize).
    destruct (publication_ok n sm0 (pu_Stream pub) s (sm_retention sm0) pub t3 Hok0 Hs Hb Hlim) as [Hs' Hb'].
    destruct (deliverToSubscribers _ _ _) as [out s']. cbn [snd] in *.
    apply (streams_ok_insert (n + 1) sm0); [by apply (streams_ok_mono n); [lia|]|done|done|apply Hsize].
  - apply (streams_ok_mono n); [lia|]. by apply stream_command_ok.
  - apply (streams_ok_mono n); [lia|]. apply streams_ok_sweep; [done|]. intros a s s' Hs. by apply cleanup_stream_ok.
Qed.

Lemma stream_run_ok es : ∀ n sm, streams_ok n sm → 0 <= n → n + Z.of_nat (length es) < 2 ^ 64 →
  streams_ok (n + Z.of_nat (length es)) (stream_run ParseDuration range subs_range es sm).2.
Proof.
  induction es as [|e es IH]; intros n sm Hok Hn Hlim; cbn [stream_run length] in *; [by rewrite Z.add_0_r|].
  pose proof (stream_step_ok n e sm Hok Hn ltac:(lia)) as Hs. destruct (stream_step _ _ _ e sm) as [out sm'].
  specialize (IH (n + 1) sm' Hs ltac:(lia) ltac:(lia)). destruct (stream_run _ _ _ es sm'). cbn in *.
  by replace (n + Z.of_nat (S (length es))) with (n + 1 + Z.of_nat (length es)) by lia.
Qed.
End facts.

(** ** Deliveries *)

Section deliveries.
Context (subs_range : gmap bytes StreamSubscription → list (bytes * StreamSubscription)) (Hsubs : range_order subs_range).

Lemma deliver_elem message s c m :
  (c, m) ∈ (deliverToSubscribers subs_range message s).1 ↔
  m = message ∧ ∃ sub, st_Subscribers s !! c = Some sub ∧ sub_served (sg_Subject message) sub = true.
Proof.
  unfold deliverToSubscribers. cbn [fst]. rewrite list_elem_of_omap. split.
  - intros ([c' sub] & Hin & H). destruct (sub_served _ sub) eqn:E; [|done]. injection H as <- <-.
    apply range_order_elem in Hin; [|done]. eauto.
  - intros [-> (sub & Hs & H)]. exists (c, sub). rewrite H. split; [|done]. by apply range_order_elem.
Qed.

Lemma deliver_NoDup message s : NoDup (deliverToSubscribers subs_range message s).1.*1.
Proof.
  unfold deliverToSubscribers. cbn [fst]. pose proof (range_order_NoDup subs_range (st_Subscribers s) Hsubs) as Hnd.
  induction (subs_range (st_Subscribers s)) as [|[c sub] l IH]; [constructor|]. cbn [omap list_omap].
  apply NoDup_cons in Hnd as [Hc Hnd]. specialize (IH Hnd). destruct (sub_served _ sub); [|done]. cbn. constructor; [|done].
  intros ([c' m] & Heq & Hin)%list_elem_of_fmap. cbn in Heq. subst c'. apply Hc.
  apply list_elem_of_omap in Hin as ([c' sub'] & Hin & H). destruct (sub_served _ sub'); [|done]. injection H as -> _.
  apply list_elem_of_fmap. by exists (c, sub').
Qed.

Lemma deliver_subscribers message s c :
  st_Subscribers (deliverToSubscribers subs_range message s).2 !! c = serve message <$> st_Subscribers s !! c.
Proof. unfold deliverToSubscribers. cbn. rewrite sweep_lookup by done. by destruct (st_Subscribers s !! c). Qed.
End deliveries.

(** The deliveries of a log to one subscriber of one stream. *)
Definition deliveries_to (name c : bytes) (log : list (bytes * bytes * StreamMessage)) : list StreamMessage :=
  (filter (fun x => x.1 = (name, c)) log).*2.

Definition credit_of (name c : bytes) (sm : StreamManager) : Z :=
  match sm_streams sm !! name with
  | Some s => match st_Subscribers s !! c with Some sub => sb_Credit sub | None => 0 end
  | None => 0
  end.

(** The event does not subscribe [c] to [name] (again). *)
Definition no_subscribe (name c : bytes) (e : streamEvent) : Prop :=
  match e with SCommand _ _ _ _ (sc_subscribe c' name' _ _) => (name', c') ≠ (name, c) | _ => True end.

Section budget.
Context (ParseDuration : bytes → option Z).
Context (range : gmap bytes Stream → list (bytes * Stream)) (Hrange : range_order range).
Context (subs_range : gmap bytes StreamSubscription → list (bytes * StreamSubscription)) (Hsubs : range_order subs_range).
Context (name c : bytes).

Definition tag (name' : bytes) (cm : bytes * StreamMessage) : bytes * bytes * StreamMessage := (name', cm.1, cm.2).

Lemma deliveries_tag_none name' out :
  (name' = name → ∀ m, (c, m) ∉ out) → deliveries_to name c (tag name' <$> out) = [].
Proof.
  intros H. unfold deliveries_to. induction out as [|[c' m] out IH]; [done|]. cbn [fmap list_fmap].
  rewrite filter_cons_False.
  - apply IH. intros E m' Hin. apply (H E m'). by apply list_elem_of_further.
  - cbn. intros [= -> ->]. apply (H eq_refl m). apply list_elem_of_here.
Qed.

Lemma deliveries_tag_le1 name' out : NoDup out.*1 → len (deliveries_to name c (tag name' <$> out)) <= 1.
Proof.
  unfold deliveries_to. induction out as [|[c' m] out IH]; intros Hnd; [cbn; unfold len; cbn; lia|].
  apply NoDup_cons in Hnd as [Hc Hnd]. cbn [fmap list_fmap]. rewrite filter_cons. case_decide as Heq; [|by apply IH].
  cbn in Heq. injection Heq as -> ->. cbn [fmap list_fmap]. rewrite len_cons.
  change ((filter (fun x => x.1 = (name, c)) (tag name <$> out)).*2) with (deliveries_to name c (tag name <$> out)).
  rewrite deliveries_tag_none; [unfold len; cbn; lia|]. intros _ m' Hin. apply Hc. apply list_elem_of_fmap. by exists (c, m').
Qed.

Lemma credit_of_bounds n sm : streams_ok n sm → 0 <= credit_of name c sm <= DefaultCreditWindow.
Proof.
  intros [H1 H2 H3 H4]. unfold credit_of, DefaultCreditWindow. destruct (sm_streams sm !! name) as [s|] eqn:E; [|lia].
  destruct (H3 name s E) as [_ _ _ _ Hsub]. destruct (st_Subscribers s !! c) as [sub|] eqn:Es; [|lia].
  destruct (Hsub c sub Es) as (_ & ? & _). unfold DefaultCreditWindow in *. lia.
Qed.

(** A sweep that never adds to a subscription's credit. *)
Lemma credit_of_sweep sm f n :
  streams_ok n sm →
  (∀ a s s', f a s = Some s' → st_Subscribers s' ⊆ st_Subscribers s) →
  credit_of name c (set_streams (sweep f (range (sm_streams sm)) (sm_streams sm)) sm) <= credit_of name c sm.
Proof.
  intros Hok Hf. pose proof (credit_of_bounds n sm Hok) as Hb. unfold credit_of in *. cbn. rewrite sweep_lookup by done.
  destruct (sm_streams sm !! name) as [s|]; [|done]. cbn. destruct (f name s) as [s'|] eqn:Ef; [|lia].
  specialize (Hf _ _ _ Ef). destruct (st_Subscribers s' !! c) as [sub|] eqn:Es; [|lia].
  by rewrite (lookup_weaken _ _ _ _ Es Hf).
Qed.

Lemma leave_subs now c' s s' : leave now c' s = Some s' → st_Subscribers s' ⊆ st_Subscribers s.
Proof. unfold leave. case_decide; [done|]. intros [= <-]. apply delete_subseteq. Qed.

Lemma cleanup_subs now now' s s' : cleanup_stream now now' s = Some s' → st_Subscribers s' ⊆ st_Subscribers s.
Proof. unfold cleanup_stream. destruct (stream_expire _ _ _). case_decide; [done|]. by intros [= <-]. Qed.

Lemma command_credit n sm clock t1 t2 t3 cmd :
  streams_ok n sm → no_subscribe name c (SCommand clock t1 t2 t3 cmd) →
  credit_of name c (stream_handleCommand range clock t1 t2 t3 cmd sm).2 <= credit_of name c sm.
Proof.
  intros Hok Hns. destruct cmd as [c' name' pat attrs|c' name'|c'|name'| |c' name' cr]; try done; cbn [stream_handleCommand].
  - unfold try, handleSubscribe, mbind, M_bind. destruct (get_or_create t1 t2 name' sm) as [s|] eqn:E; [|done]. cbn.
    unfold credit_of. cbn. destruct (decide (name' = name)) as [->|Hne]; [|by rewrite lookup_insert_ne by done].
    rewrite lookup_insert_eq. cbn. rewrite lookup_insert_ne by (intros ->; by apply Hns).
    unfold get_or_create in E. destruct (sm_streams sm !! name); [by injection E as <-|].
    case_decide; [done|]. injection E as <-. cbn. by rewrite lookup_empty.
  - unfold mbind, M_bind, handleUnsubscribe. cbn. destruct (sm_streams sm !! name') as [s|] eqn:E; [|done].
    pose proof (credit_of_bounds n sm Hok) as Hb. unfold credit_of in *.
    destruct (leave t1 c' s) as [s'|] eqn:El; cbn; (destruct (decide (name' = name)) as [->|Hne];
      [|by rewrite ?lookup_insert_ne, ?lookup_delete_ne by done]); rewrite ?lookup_insert_eq, ?lookup_delete_eq; [|lia].
    rewrite E in *. apply leave_subs in El. destruct (st_Subscribers s' !! c) as [sub|] eqn:Es; [|lia].
    by rewrite (lookup_weaken _ _ _ _ Es El).
  - apply (credit_of_sweep sm _ n); [done|]. intros a s s'. apply leave_subs.
Qed.

(** What an event delivers to the subscription is paid with its credit. *)
Lemma step_credit n e sm :
  streams_ok n sm → no_subscribe name c e →
  let '(out, sm') := stream_step ParseDuration range subs_range e sm in
  len (deliveries_to name c out) + credit_of name c sm' <= credit_of name c sm.
Proof.
  intros Hok Hns. destruct e as [now nm subj sender body attrs|t1 t2 t3|clock t1 t2 t3 cmd|now clock]; cbn [stream_step].
  - unfold WriteMessage. repeat case_decide; unfold credit_of, len; cbn; lia.
  - unfold publicationLoop. destruct (sm_publications sm) as [|pub rest] eqn:E; [unfold len; cbn; lia|]. unfold processPublication.
    set (sm0 := mkStreamManager _ _ _ _). change (credit_of name c sm) with (credit_of name c sm0).
    assert (Hok0 : streams_ok n sm0) by (pose proof Hok as [? H2 ? ?]; split; cbn; try done; rewrite E, len_cons in H2; lia).
    clearbody sm0. clear sm Hok E rest. pose proof (credit_of_bounds n sm0 Hok0) as Hb.
    destruct (get_or_create t1 t2 (pu_Stream pub) sm0) as [s|] eqn:Eg; [|unfold len; cbn; lia].
    set (m := publication_message _ _ _ _). set (s1 := store_publication t3 m s).
    pose proof (deliver_elem subs_range Hsubs m s1) as Helem. pose proof (deliver_NoDup subs_range Hsubs m s1) as Hnd.
    pose proof (deliver_subscribers subs_range Hsubs m s1) as Hafter.
    destruct (deliverToSubscribers subs_range m s1) as [out s2]. cbn [fst snd] in *.
    replace ((fun '(c0, m0) => (pu_Stream pub, c0, m0)) <$> out) with (tag (pu_Stream pub) <$> out)
      by (apply list_fmap_ext; by intros ? [] _).
    destruct (decide (pu_Stream pub = name)) as [Hnm|Hne].
    + unfold credit_of in *. cbn. rewrite Hnm, lookup_insert_eq, Hafter. rewrite Hnm in Eg.
      assert (Hsame : match sm_streams sm0 !! name with
                      | Some s => match st_Subscribers s !! c with Some sub => sb_Credit sub | None => 0 end
                      | None => 0 end = match st_Subscribers s1 !! c with Some sub => sb_Credit sub | None => 0 end).
      { unfold get_or_create in Eg. destruct (sm_streams sm0 !! name); [by injection Eg as <-|].
        case_decide; [done|]. by injection Eg as <-. }
      rewrite Hsame in *. destruct (st_Subscribers s1 !! c) as [sub|] eqn:Es; cbn.
      * destruct (sub_served (sg_Subject m) sub) eqn:Ev.
        -- pose proof (deliveries_tag_le1 name out Hnd). unfold serve. rewrite Ev. cbn.
           apply andb_true_iff in Ev as [_ Hcr]. apply bool_decide_eq_true in Hcr. unfold DefaultCreditWindow in Hb.
           rewrite i32_small by lia. lia.
        -- rewrite deliveries_tag_none; [unfold serve; rewrite Ev; unfold len; cbn; lia|].
           intros _ m' Hin. apply Helem in Hin as (_ & sub' & ? & ?). congruence.
      * rewrite deliveries_tag_none; [unfold len; cbn; lia|]. intros _ m' Hin. apply Helem in Hin as (_ & sub' & ? & ?). congruence.
    + rewrite deliveries_tag_none by done. unfold credit_of. cbn. rewrite lookup_insert_ne by done. unfold len. cbn. lia.
  - change (len (deliveries_to name c [])) with 0. rewrite Z.add_0_l. by eapply command_credit.
  - change (len (deliveries_to name c [])) with 0. rewrite Z.add_0_l. eapply (credit_of_sweep sm _ n); [done|].
    intros a s s'. apply cleanup_subs.
Qed.

Lemma deliveries_to_app l k : deliveries_to name c (l ++ k) = deliveries_to name c l ++ deliveries_to name c k.
Proof. unfold deliveries_to. by rewrite filter_app, fmap_app. Qed.

Lemma run_credit es : ∀ n sm,
  streams_ok n sm → 0 <= n → n + Z.of_nat (length es) < 2 ^ 64 → Forall (no_subscribe name c) es →
  let '(out, sm') := stream_run ParseDuration range subs_range es sm in
  len (deliveries_to name c out) + credit_of name c sm' <= credit_of name c sm.
Proof.
  induction es as [|e es IH]; intros n sm Hok Hn Hlim Hns; cbn [stream_run length] in *; [unfold len; cbn; lia|].
  apply Forall_cons in Hns as [He Hns]. pose proof (step_credit n e sm Hok He) as Hstep.
  pose proof (stream_step_ok ParseDuration range Hrange subs_range Hsubs n e sm Hok Hn ltac:(lia)) as Hok'.
  destruct (stream_step _ _ _ e sm) as [out sm']. specialize (IH (n + 1) sm' Hok' ltac:(lia) ltac:(lia) Hns).
  destruct (stream_run _ _ _ es sm') as [rest sm'']. rewrite deliveries_to_app, len_app. lia.
Qed.
End budget.

(** C39. The streams stay well formed: after any history of writes, turns of
    the publication loop, commands and cleanups (fewer than 2^64 of them),
    there are no more streams than allowed, each is stored under its name and
    keeps at most [MaxStreamBacklog] messages in increasing order of IDs that
    were given out, and every subscription has between 0 and
    [DefaultCreditWindow] credits and a read position within the stream. *)
Theorem stream_accounting (ParseDuration : bytes → option Z)
    (range : gmap bytes Stream → list (bytes * Stream))
    (subs_range : gmap bytes StreamSubscription → list (bytes * StreamSubscription))
    (maxStreams retention : Z) (es : list streamEvent) :
  range_order range → range_order subs_range → Z.of_nat (length es) < 2 ^ 64 →
  streams_ok (Z.of_nat (length es)) (stream_run ParseDuration range subs_range es (NewStreamManager maxStreams retention)).2.
Proof.
  intros Hr Hs Hlim. apply (stream_run_ok ParseDuration range Hr subs_range Hs es 0); [|lia|lia].
  split; [cbn; rewrite map_size_empty; lia|unfold publications_cap, len; cbn; lia|apply map_Forall_empty|apply map_Forall_empty].
Qed.

(** A publication reaches exactly the subscribers it should: whatever the
    iteration order, a message is delivered once to every subscriber of its
    stream whose pattern matches the subject and who has credit, and to nobody
    else; each of these has one credit less and the message as its read
    position, and the other subscriptions are unchanged. *)
Theorem stream_delivery (ParseDuration : bytes → option Z)
    (subs_range : gmap bytes StreamSubscription → list (bytes * StreamSubscription))
    (sm : StreamManager) (s : Stream) (pub : StreamPub) (t1 t2 t3 : Z) :
  range_order subs_range → sm_streams sm !! pu_Stream pub = Some s →
  let message := publication_message ParseDuration (sm_retention sm) pub s in
  ∃ out sm' s',
    processPublication ParseDuration subs_range t1 t2 t3 pub sm = (Ret out, sm') ∧
    sm_streams sm' = <[pu_Stream pub := s']> (sm_streams sm) ∧ NoDup out.*1 ∧
    (∀ c m, (c, m) ∈ out ↔ m = message ∧ ∃ sub, st_Subscribers s !! c = Some sub ∧
       matchesPattern (pu_Subject pub) (sb_Pattern sub) = true ∧ 0 < sb_Credit sub) ∧
    (∀ c, st_Subscribers s' !! c =
       (fun sub => if matchesPattern (pu_Subject pub) (sb_Pattern sub) && bool_decide (0 < sb_Credit sub)
                   then mkStreamSub (sb_ClientID sub) (sb_Pattern sub) (i32 (sb_Credit sub - 1)) (sb_Attributes sub)
                          (sb_CreatedAt sub) (sg_ID message)
                   else sub) <$> st_Subscribers s !! c).
Proof.
  intros Hs Hlook message. unfold processPublication, get_or_create. rewrite Hlook. fold message.
  set (s1 := store_publication t3 message s).
  pose proof (deliver_elem subs_range Hs message s1) as Helem. pose proof (deliver_NoDup subs_range Hs message s1) as Hnd.
  pose proof (deliver_subscribers subs_range Hs message s1) as Hafter.
  destruct (deliverToSubscribers subs_range message s1) as [out s']. cbn [fst snd] in *.
  eexists out, _, s'. split; [reflexivity|]. split_and!; [done|done| |done].
  intros c m. rewrite Helem. cbn. unfold sub_served. setoid_rewrite andb_true_iff. by setoid_rewrite bool_decide_eq_true.
Qed.

(** A subscription has a budget: as long as the client does not subscribe
    again, the messages a stream delivers to it are at most the credit it
    had, so at most [DefaultCreditWindow] after its subscription; nothing
    renews the credit, and the command that should ([RestoreCredit]) is never
    answered. *)
Theorem stream_budget (ParseDuration : bytes → option Z)
    (range : gmap bytes Stream → list (bytes * Stream))
    (subs_range : gmap bytes StreamSubscription → list (bytes * StreamSubscription))
    (maxStreams retention : Z) (before after : list streamEvent) (name c : bytes) :
  range_order range → range_order subs_range → Z.of_nat (length before + length after) < 2 ^ 64 →
  Forall (no_subscribe name c) after →
  let sm := (stream_run ParseDuration range subs_range before (NewStreamManager maxStreams retention)).2 in
  let out := (stream_run ParseDuration range subs_range after sm).1 in
  len (deliveries_to name c out) <= credit_of name c sm <= DefaultCreditWindow ∧
  ∀ credit, RestoreCredit range c name credit sm = (Ret None, sm).
Proof.
  intros Hr Hs Hlim Hns sm out.
  assert (Hok : streams_ok (0 + Z.of_nat (length before)) sm).
  { apply (stream_run_ok ParseDuration range Hr subs_range Hs before 0); [|lia|lia].
    split; [cbn; rewrite map_size_empty; lia|unfold publications_cap, len; cbn; lia|apply map_Forall_empty|apply map_Forall_empty]. }
  split; [|done]. pose proof (credit_of_bounds name c _ sm Hok) as Hb.
  pose proof (run_credit ParseDuration range Hr subs_range Hs name c after _ sm Hok ltac:(lia) ltac:(lia) Hns) as Hrun.
  pose proof (stream_run_ok ParseDuration range Hr subs_range Hs after _ sm Hok ltac:(lia) ltac:(lia)) as Hok'.
  unfold out. destruct (stream_run _ _ _ after sm) as [out' sm']. cbn [fst snd] in *.
  pose proof (credit_of_bounds name c _ sm' Hok'). lia.
Qed.

(** C21. Subscription patterns mean what glob patterns mean: for a pattern
    without classes and escapes and an ASCII subject, the matcher (a
    greedy search that never backtracks over an earlier star) agrees with the
    reference meaning, in which a star stands for any bytes but slashes, a
    question mark for one such byte, and anything else for itself; only the
    pattern [*] alone also matches subjects with slashes. *)
Theorem matches_glob (subject pattern : bytes) :
  plain pattern → ascii_only subject →
  matchesPattern subject pattern = is_eq pattern (gs "*") || glob pattern subject.
Proof. intros Hp Ha. unfold matchesPattern. rewrite Match_glob by done. by destruct (is_eq pattern (gs "*")). Qed.

(** A pattern that does not parse is compared as a string. *)
Lemma matches_bad subject pattern :
  filepath_Match pattern subject = GBad → pattern ≠ gs "*" → matchesPattern subject pattern = is_eq subject pattern.
Proof. intros H Hne. unfold matchesPattern. apply is_eq_false in Hne. by rewrite Hne, H. Qed.

Definition stream_size (l : list StreamMessage) : Z := foldr (fun m acc => len (sg_Body m) + acc) 0 l.

Lemma stream_size_app l k : stream_size (l ++ k) = stream_size l + stream_size k.
Proof. unfold stream_size. induction l as [|m l IH]; [done|]. cbn [app foldr]. lia. Qed.

(** C5. The byte count of a stream drifts: a message published when the
    backlog is full drops the oldest message, whose bytes stay in
    [BytesStored]; unlike a mailbox, the stream then reports more bytes than
    it holds. *)
Theorem stream_bytes_drift (now : Z) (m oldest : StreamMessage) (rest : list StreamMessage) (s : Stream) :
  st_Messages s = oldest :: rest → len (st_Messages s) = MaxStreamBacklog →
  0 <= st_BytesStored s → st_BytesStored s + len (sg_Body m) < 2 ^ 64 →
  let s' := store_publication now m s in
  st_BytesStored s' - stream_size (st_Messages s')
  = (st_BytesStored s - stream_size (st_Messages s)) + len (sg_Body oldest).
Proof.
  intros Hm Hl H0 Hlim s'. unfold s', store_publication. pose proof (len_nonneg (sg_Body m)). cbn [st_Messages st_BytesStored].
  rewrite decide_True by (rewrite len_app; change (len [m]) with 1; lia). rewrite Hm. cbn [app drop]. change (drop 0 ?l) with l.
  rewrite (u64_small (len _)), u64_small by lia. rewrite stream_size_app. unfold stream_size. cbn [foldr]. lia.
Qed.

(** ** Instances *)

Definition demo_stream : list streamEvent :=
  [SCommand (fun _ => 0) 0 0 0 (sc_subscribe (gs "c1") (gs "weather") (gs "temp.*") ∅);
   SCommand (fun _ => 0) 0 0 0 (sc_subscribe (gs "c2") (gs "weather") (gs "rain.?") ∅);
   SWrite 1 (gs "weather") (gs "temp.moscow") (gs "p") (gs "10") ∅; SWrite 2 (gs "weather") (gs "rain.x") (gs "p") (gs "5") ∅].
Definition demo_stream_after : list streamEvent := [SPublish 3 3 3; SPublish 4 4 4].

Example demo_stream_log :
  (fun '(n, c, m) => (c, sg_ID m)) <$> (stream_run (fun _ => None) map_to_list map_to_list (demo_stream ++ demo_stream_after) (NewStreamManager 5 0)).1
  = [(gs "c1", 1); (gs "c2", 2)].
Proof. vm_compute. reflexivity. Qed.

Lemma stream_accounting_witness :
  streams_ok 6 (stream_run (fun _ => None) map_to_list map_to_list (demo_stream ++ demo_stream_after) (NewStreamManager 5 0)).2.
Proof.
  apply (stream_accounting (fun _ => None) map_to_list map_to_list 5 0 (demo_stream ++ demo_stream_after));
    [apply map_to_list_range_order|apply map_to_list_range_order|cbn; lia].
Defined.

Lemma stream_budget_witness :
  let sm := (stream_run (fun _ => None) map_to_list map_to_list demo_stream (NewStreamManager 5 0)).2 in
  let out := (stream_run (fun _ => None) map_to_list map_to_list demo_stream_after sm).1 in
  len (deliveries_to (gs "weather") (gs "c1") out) <= credit_of (gs "weather") (gs "c1") sm <= DefaultCreditWindow ∧
  ∀ credit, RestoreCredit map_to_list (gs "c1") (gs "weather") credit sm = (Ret None, sm).
Proof.
  apply (stream_budget (fun _ => None) map_to_list map_to_list 5 0 demo_stream demo_stream_after (gs "weather") (gs "c1"));
    [apply map_to_list_range_order|apply map_to_list_range_order|cbn; lia|by repeat constructor].
Defined.

Definition demo_sub : StreamSubscription := mkStreamSub (gs "c1") (gs "temp.*") 7 ∅ 0 0.
Definition demo_weather : Stream := mkStream (gs "weather") [] {[ gs "c1" := demo_sub ]} ∅ 0 0 0 0.
Definition demo_pub : StreamPub := mkPub (gs "weather") (gs "temp.moscow") (gs "p") (gs "10") ∅ 1.

Lemma stream_delivery_witness :
  let sm := mkStreamManager 5 0 {[ gs "weather" := demo_weather ]} [] in
  ∃ out sm' s',
    processPublication (fun _ => None) map_to_list 2 2 2 demo_pub sm = (Ret out, sm') ∧
    sm_streams sm' = <[gs "weather" := s']> (sm_streams sm) ∧ NoDup out.*1 ∧
    (∀ c m, (c, m) ∈ out ↔ m = publication_message (fun _ => None) 0 demo_pub demo_weather ∧
       ∃ sub, st_Subscribers demo_weather !! c = Some sub ∧
       matchesPattern (gs "temp.moscow") (sb_Pattern sub) = true ∧ 0 < sb_Credit sub) ∧
    (∀ c, st_Subscribers s' !! c =
       (fun sub => if matchesPattern (gs "temp.moscow") (sb_Pattern sub) && bool_decide (0 < sb_Credit sub)
                   then mkStreamSub (sb_ClientID sub) (sb_Pattern sub) (i32 (sb_Credit sub - 1)) (sb_Attributes sub)
                          (sb_CreatedAt sub) 1
                   else sub) <$> st_Subscribers demo_weather !! c).
Proof.
  intros sm. apply (stream_delivery (fun _ => None) map_to_list sm demo_weather demo_pub 2 2 2);
    [apply map_to_list_range_order|reflexivity].
Defined.

Lemma matches_glob_witness :
  matchesPattern (gs "temp.moscow.north") (gs "*.mosc?w*") = is_eq (gs "*.mosc?w*") (gs "*") || glob (gs "*.mosc?w*") (gs "temp.moscow.north").
Proof. apply (matches_glob (gs "temp.moscow.north") (gs "*.mosc?w*")); repeat constructor; vm_compute; congruence. Defined.

Definition demo_msg : StreamMessage := mkStreamMsg 1 [] [] ∅ (gs "abc") 0 0 0.
Lemma stream_bytes_drift_witness :
  let s := mkStream (gs "s") (demo_msg :: replicate (Z.to_nat 99999) demo_msg) ∅ ∅ 0 0 100000 300000 in
  let s' := store_publication 0 demo_msg s in
  st_BytesStored s' - stream_size (st_Messages s') = (300000 - stream_size (st_Messages s)) + 3.
Proof.
  intros s. apply (stream_bytes_drift 0 demo_msg demo_msg (replicate (Z.to_nat 99999) demo_msg) s).
  - reflexivity.
  - unfold s, len. cbn [st_Messages length]. rewrite length_replicate. unfold MaxStreamBacklog. lia.
  - cbn. lia.
  - vm_compute. reflexivity.
Defined.
