(* ===== verification/MlmService.v ===== *)
(** * MlmService: request and reply services of Malamute (src/malamute/service.go)

    Services with their workers and queued requests, under the manager's
    mutex, and the contents of the request and reply channels. A delivery to
    a worker is what the code prints. Clock readings and iteration orders are
    arguments; credits are int32, counters uint64. *)

From Stdlib Require Import Strings.Byte ZArith Lia.
From stdpp Require Import base strings numbers gmap sorting list.
From S2P Require Import Prelude MlmMessage MlmCredit MlmMailbox Glob MlmStream.

#[local] Open Scope Z_scope.
#[local] Set Default Goal Selector "!".

Definition MaxServiceBacklog : Z := 10000.
(** The capacity of the [requests] and [replies] channels. *)
Definition requests_cap : Z := 10000.

Record ServiceWorker : Type := mkWorker {
  wk_ClientID : bytes;
  wk_Pattern : bytes;
  wk_Credit : Z;
  wk_Attributes : gmap bytes bytes;
  wk_RegisteredAt : Z;
  wk_LastRequest : Z;
  wk_RequestCount : Z }.

Record ServiceRequest : Type := mkRequest {
  rq_ID : Z;
  rq_Service : bytes;
  rq_Method : bytes;
  rq_Sender : bytes;
  rq_Tracker : bytes;
  rq_Attributes : gmap bytes bytes;
  rq_Body : bytes;
  rq_Timestamp : Z;
  rq_Timeout : Z;
  rq_Retries : Z }.

Record mlmService : Type := mkService {
  sv_Name : bytes;
  sv_Workers : gmap bytes ServiceWorker;
  sv_Queue : list ServiceRequest;
  sv_Attributes : gmap bytes bytes;
  sv_CreatedAt : Z;
  sv_LastActivity : Z;
  sv_RequestCount : Z;
  sv_ReplyCount : Z }.

Record ServiceReq : Type := mkReq {
  rr_Service : bytes;
  rr_Method : bytes;
  rr_Sender : bytes;
  rr_Tracker : bytes;
  rr_Body : bytes;
  rr_Attributes : gmap bytes bytes;
  rr_Timeout : Z;
  rr_Timestamp : Z }.

Record ServiceReply : Type := mkReply {
  rp_Tracker : bytes;
  rp_Status : Z;
  rp_Body : bytes;
  rp_Attributes : gmap bytes bytes;
  rp_Timestamp : Z }.

Record ServiceManager : Type := mkServiceManager {
  vm_maxServices : Z;
  vm_serviceTimeout : Z;
  vm_services : gmap bytes mlmService;
  vm_requests : list ServiceReq;
  vm_replies : list ServiceReply;
  vm_requestID : Z }.

Definition NewServiceManager (maxServices serviceTimeout : Z) : ServiceManager :=
  mkServiceManager maxServices serviceTimeout ∅ [] [] 0.

Definition set_services (m : gmap bytes mlmService) (vm : ServiceManager) : ServiceManager :=
  mkServiceManager (vm_maxServices vm) (vm_serviceTimeout vm) m (vm_requests vm) (vm_replies vm) (vm_requestID vm).

Definition set_workers (m : gmap bytes ServiceWorker) (s : mlmService) : mlmService :=
  mkService (sv_Name s) m (sv_Queue s) (sv_Attributes s) (sv_CreatedAt s) (sv_LastActivity s) (sv_RequestCount s) (sv_ReplyCount s).

Definition set_sv_queue (q : list ServiceRequest) (s : mlmService) : mlmService :=
  mkService (sv_Name s) (sv_Workers s) q (sv_Attributes s) (sv_CreatedAt s) (sv_LastActivity s) (sv_RequestCount s) (sv_ReplyCount s).

(** [ProcessRequest] and [ProcessReply]: a check, then a send that never blocks. *)
Definition ProcessRequest (now : Z) (serviceName method sender tracker body : bytes) (attributes : gmap bytes bytes) (timeout : Z)
    : M ServiceManager unit := fun vm =>
  if decide (MaxMessageSize < len body) then (Fail (Errorf "request too large: %d bytes"), vm)
  else if decide (len (vm_requests vm) < requests_cap) then
    (Ret tt, mkServiceManager (vm_maxServices vm) (vm_serviceTimeout vm) (vm_services vm)
               (vm_requests vm ++ [mkReq serviceName method sender tracker body attributes timeout now])
               (vm_replies vm) (vm_requestID vm))
  else (Fail (Errorf "request queue full"), vm).

Definition ProcessReply (now : Z) (tracker : bytes) (status : Z) (body : bytes) (attributes : gmap bytes bytes)
    : M ServiceManager unit := fun vm =>
  if decide (len (vm_replies vm) < requests_cap) then
    (Ret tt, mkServiceManager (vm_maxServices vm) (vm_serviceTimeout vm) (vm_services vm) (vm_requests vm)
               (vm_replies vm ++ [mkReply tracker status body attributes now]) (vm_requestID vm))
  else (Fail (Errorf "reply queue full"), vm).

(** [matchesPattern] of the service manager has the same body as the
    streams' one. *)
Definition service_matchesPattern (method pattern : bytes) : bool :=
  if is_eq pattern (gs "*") then true
  else match filepath_Match pattern method with
       | GOk matched => matched
       | GBad | GFuel => is_eq method pattern
       end.

Definition available (method : bytes) (worker : ServiceWorker) : bool :=
  bool_decide (0 < wk_Credit worker) && service_matchesPattern method (wk_Pattern worker).

(** What delivering a request to a worker does to it. *)
Definition charge (now : Z) (w : ServiceWorker) : ServiceWorker :=
  mkWorker (wk_ClientID w) (wk_Pattern w) (i32 (wk_Credit w - 1)) (wk_Attributes w) (wk_RegisteredAt w) now
    (u64 (wk_RequestCount w + 1)).

Inductive delivered : Type :=
| Direct (r : ServiceReq)
| Dispatched (r : ServiceRequest).

Section services.
Context (range : gmap bytes mlmService → list (bytes * mlmService)).
Context (w_range : gmap bytes ServiceWorker → list (bytes * ServiceWorker)).

(** [findAvailableWorker]: the first one in the order of the iteration. *)
Definition findAvailableWorker (s : mlmService) (method : bytes) : option (bytes * ServiceWorker) :=
  List.find (fun '(_, worker) => available method worker) (w_range (sv_Workers s)).

(** The delivery of a request to worker [w], found under [k]. *)
Definition deliver_to (now now' : Z) (k : bytes) (w : ServiceWorker) (s : mlmService) : mlmService :=
  mkService (sv_Name s) (<[k := charge now w]> (sv_Workers s)) (sv_Queue s) (sv_Attributes s) (sv_CreatedAt s) now'
    (u64 (sv_RequestCount s + 1)) (sv_ReplyCount s).

(** [processRequest]: the worker served, if any. *)
Definition service_processRequest (now now' : Z) (r : ServiceReq) : M ServiceManager (option (bytes * delivered)) := fun vm =>
  match vm_services vm !! rr_Service r with
  | None => (Ret None, vm)
  | Some s =>
      match findAvailableWorker s (rr_Method r) with
      | None =>
          let id := u64 (vm_requestID vm + 1) in
          let request := mkRequest id (rr_Service r) (rr_Method r) (rr_Sender r) (rr_Tracker r) (rr_Attributes r) (rr_Body r)
                           (rr_Timestamp r) (rr_Timestamp r + rr_Timeout r) 0 in
          let queue := sv_Queue s ++ [request] in
          let queue := if decide (MaxServiceBacklog < len queue) then drop 1 queue else queue in
          (Ret None, mkServiceManager (vm_maxServices vm) (vm_serviceTimeout vm)
                       (<[rr_Service r := set_sv_queue queue s]> (vm_services vm)) (vm_requests vm) (vm_replies vm) id)
      | Some (k, w) =>
          (Ret (Some (wk_ClientID w, Direct r)),
           set_services (<[rr_Service r := deliver_to now now' k w s]> (vm_services vm)) vm)
      end
  end.

(** The loop of [dispatchQueuedRequests]: what is delivered, the requests
    kept and the service. *)
Fixpoint dispatch_queue (now t t' : Z) (queue kept : list ServiceRequest) (s : mlmService)
    : list (bytes * delivered) * list ServiceRequest * mlmService :=
  match queue with
  | [] => ([], kept, s)
  | r :: queue =>
      if decide (now < rq_Timeout r) then
        match findAvailableWorker s (rq_Method r) with
        | Some (k, w) =>
            let '(out, kept', s') := dispatch_queue now t t' queue kept (deliver_to t t' k w s) in
            ((wk_ClientID w, Dispatched r) :: out, kept', s')
        | None => dispatch_queue now t t' queue (kept ++ [r]) s
        end
      else dispatch_queue now t t' queue kept s
  end.

Definition dispatchQueuedRequests (now t t' : Z) (s : mlmService) : list (bytes * delivered) * mlmService :=
  let '(out, kept, s') := dispatch_queue now t t' (sv_Queue s) [] s in (out, set_sv_queue kept s').

(** The second half of [handleRegisterWorker]: the new worker, and the
    dispatch. *)
Definition register_in (t3 t4 now t t' : Z) (clientID pattern : bytes) (attributes : gmap bytes bytes) (s : mlmService)
    : list (bytes * delivered) * mlmService :=
  let worker := mkWorker clientID pattern DefaultCreditWindow attributes t3 0 0 in
  dispatchQueuedRequests now t t'
    (mkService (sv_Name s) (<[clientID := worker]> (sv_Workers s)) (sv_Queue s) (sv_Attributes s) (sv_CreatedAt s) t4
       (sv_RequestCount s) (sv_ReplyCount s)).

(** [handleRegisterWorker]; the clock readings in order, [t] and [t'] for all
    the deliveries of the dispatch. *)
Definition handleRegisterWorker (t1 t2 t3 t4 now t t' : Z) (service clientID pattern : bytes) (attributes : gmap bytes bytes)
    : M ServiceManager (list (bytes * delivered)) := fun vm =>
  let go s :=
    let '(out, s) := register_in t3 t4 now t t' clientID pattern attributes s in
    (Ret out, set_services (<[service := s]> (vm_services vm)) vm) in
  match vm_services vm !! service with
  | Some s => go s
  | None =>
      if decide (vm_maxServices vm <= Z.of_nat (size (vm_services vm))) then (Fail (Errorf "maximum services exceeded"), vm)
      else go (mkService service ∅ [] ∅ t1 t2 0 0)
  end.

(** What becomes of a service that a worker leaves. *)
Definition retire (clientID : bytes) (s : mlmService) : option mlmService :=
  let workers := delete clientID (sv_Workers s) in
  if decide (Z.of_nat (size workers) = 0 ∧ len (sv_Queue s) = 0) then None else Some (set_workers workers s).

Definition handleUnregisterWorker (serviceName clientID : bytes) : M ServiceManager unit := mupd (fun vm =>
  match vm_services vm !! serviceName with
  | Some s =>
      match retire clientID s with
      | Some s' => set_services (<[serviceName := s']> (vm_services vm)) vm
      | None => set_services (delete serviceName (vm_services vm)) vm
      end
  | None => vm
  end).

Definition service_handleRemoveClient (clientID : bytes) : M ServiceManager unit := mupd (fun vm =>
  set_services (sweep (fun _ s => retire clientID s) (range (vm_services vm)) (vm_services vm)) vm).

(** [processReply]: only statistics, of every service. *)
Definition processReply (r : ServiceReply) : M ServiceManager unit := mupd (fun vm =>
  set_services (sweep (fun _ s => Some (mkService (sv_Name s) (sv_Workers s) (sv_Queue s) (sv_Attributes s) (sv_CreatedAt s)
                                         (sv_LastActivity s) (sv_RequestCount s) (u64 (sv_ReplyCount s + 1))))
                  (range (vm_services vm)) (vm_services vm)) vm).

Definition cleanup_service (timeout now now' : Z) (s : mlmService) : option mlmService :=
  let valid := filter (fun r => now < rq_Timeout r) (sv_Queue s) in
  if decide (Z.of_nat (size (sv_Workers s)) = 0 ∧ len valid = 0 ∧ timeout < now' - sv_LastActivity s) then None
  else Some (set_sv_queue valid s).

Definition cleanupExpiredRequests (now : Z) (clock : bytes → Z) : M ServiceManager unit := mupd (fun vm =>
  set_services (sweep (fun name => cleanup_service (vm_serviceTimeout vm) now (clock name)) (range (vm_services vm)) (vm_services vm)) vm).

(** One turn of [requestLoop] and of [replyLoop]. *)
Definition requestLoop (now now' : Z) : M ServiceManager (option (bytes * delivered)) := fun vm =>
  match vm_requests vm with
  | [] => (Ret None, vm)
  | r :: rest => service_processRequest now now' r
      (mkServiceManager (vm_maxServices vm) (vm_serviceTimeout vm) (vm_services vm) rest (vm_replies vm) (vm_requestID vm))
  end.

Definition replyLoop : M ServiceManager unit := fun vm =>
  match vm_replies vm with
  | [] => (Ret tt, vm)
  | r :: rest => processReply r
      (mkServiceManager (vm_maxServices vm) (vm_serviceTimeout vm) (vm_services vm) (vm_requests vm) rest (vm_requestID vm))
  end.

Inductive serviceCmd : Type :=
| vc_register_worker (service clientID pattern : bytes) (attributes : gmap bytes bytes)
| vc_unregister_worker (service clientID : bytes)
| vc_remove_client (clientID : bytes)
| vc_get_service (service : bytes)
| vc_get_services
| vc_restore_credit (service clientID : bytes) (credit : Z).

Inductive serviceReply : Type :=
| VRNil
| VRError (e : error)
| VRService (s : mlmService)
| VRServices (m : gmap bytes mlmService).

(** [handleCommand]: the value sent on the reply channel, if any. *)
Definition service_handleCommand (t1 t2 t3 t4 now t t' : Z) (cmd : serviceCmd) : M ServiceManager (option serviceReply) :=
  match cmd with
  | vc_register_worker service clientID pattern attributes =>
      r ← try (handleRegisterWorker t1 t2 t3 t4 now t t' service clientID pattern attributes);
      mret (Some (match r with inl _ => VRNil | inr e => VRError e end))
  | vc_unregister_worker service clientID => _ ← handleUnregisterWorker service clientID; mret (Some VRNil)
  | vc_remove_client clientID => _ ← service_handleRemoveClient clientID; mret (Some VRNil)
  | vc_get_service service =>
      vm ← mget; mret (Some (match vm_services vm !! service with Some s => VRService s | None => VRNil end))
  | vc_get_services =>
      vm ← mget; mret (Some (VRServices (foldl (fun m kv => <[kv.1 := kv.2]> m) ∅ (range (vm_services vm)))))
  | vc_restore_credit _ _ _ => mret None
  end.

(** The callers' side; [None] is a caller that waits for ever. *)
Definition RegisterWorker (t1 t2 t3 t4 now t t' : Z) (serviceName clientID pattern : bytes) (attributes : gmap bytes bytes)
    : M ServiceManager (option unit) :=
  if decide (len serviceName = 0 ∨ MaxServiceName < len serviceName) then mfail (Errorf "invalid service name length: %d")
  else r ← service_handleCommand t1 t2 t3 t4 now t t' (vc_register_worker serviceName clientID pattern attributes);
       match r with None => mret None | Some (VRError e) => mfail e | Some _ => mret (Some tt) end.

Definition UnregisterWorker (serviceName clientID : bytes) : M ServiceManager (option unit) :=
  r ← service_handleCommand 0 0 0 0 0 0 0 (vc_unregister_worker serviceName clientID);
  match r with None => mret None | Some _ => mret (Some tt) end.

Definition service_RemoveClient (clientID : bytes) : M ServiceManager (option unit) :=
  r ← service_handleCommand 0 0 0 0 0 0 0 (vc_remove_client clientID);
  match r with None => mret None | Some _ => mret (Some tt) end.

Definition GetService (serviceName : bytes) : M ServiceManager (option mlmService) :=
  r ← service_handleCommand 0 0 0 0 0 0 0 (vc_get_service serviceName);
  match r with
  | None => mret None
  | Some (VRService s) => mret (Some s)
  | Some _ => mfail (Errorf "service not found: %s")
  end.

Definition GetServices : M ServiceManager (option (gmap bytes mlmService)) :=
  r ← service_handleCommand 0 0 0 0 0 0 0 vc_get_services;
  match r with
  | None => mret None
  | Some (VRServices m) => mret (Some m)
  | Some _ => mpanic "interface conversion"
  end.

Definition service_RestoreCredit (serviceName clientID : bytes) (credit : Z) : M ServiceManager (option unit) :=
  r ← service_handleCommand 0 0 0 0 0 0 0 (vc_restore_credit serviceName clientID credit);
  match r with None => mret None | Some _ => mret (Some tt) end.

(** ** Histories *)

Inductive serviceEvent : Type :=
| VRequest (now : Z) (service method sender tracker body : bytes) (attributes : gmap bytes bytes) (timeout : Z)
| VReply (now : Z) (tracker : bytes) (status : Z) (body : bytes) (attributes : gmap bytes bytes)
| VRequestTurn (now now' : Z)
| VReplyTurn
| VCommand (t1 t2 t3 t4 now t t' : Z) (cmd : serviceCmd)
| VCleanup (now : Z) (clock : bytes → Z).

Definition service_step (e : serviceEvent) (vm : ServiceManager) : ServiceManager :=
  match e with
  | VRequest now service method sender tracker body attributes timeout =>
      (ProcessRequest now service method sender tracker body attributes timeout vm).2
  | VReply now tracker status body attributes => (ProcessReply now tracker status body attributes vm).2
  | VRequestTurn now now' => (requestLoop now now' vm).2
  | VReplyTurn => (replyLoop vm).2
  | VCommand t1 t2 t3 t4 now t t' cmd => (service_handleCommand t1 t2 t3 t4 now t t' cmd vm).2
  | VCleanup now clock => (cleanupExpiredRequests now clock vm).2
  end.

Definition service_run (es : list serviceEvent) (vm : ServiceManager) : ServiceManager :=
  foldl (fun vm e => service_step e vm) vm es.
End services.

(** ** Well-formed services *)

(** A worker pays a credit per request: the two always add up to the window. *)
Definition worker_ok (c : bytes) (w : ServiceWorker) : Prop :=
  wk_ClientID w = c ∧ 0 <= wk_Credit w ∧ 0 <= wk_RequestCount w ∧ wk_Credit w + wk_RequestCount w = DefaultCreditWindow.

(** No worker of the service can take a request for [method]. *)
Definition nobody_for (method : bytes) (s : mlmService) : Prop :=
  map_Forall (fun _ w => available method w = false) (sv_Workers s).

Record service_ok (a : bytes) (s : mlmService) : Prop := {
  sk_name : sv_Name s = a;
  sk_backlog : len (sv_Queue s) <= MaxServiceBacklog;
  sk_workers : map_Forall worker_ok (sv_Workers s);
  sk_idle : Forall (fun r => nobody_for (rq_Method r) s) (sv_Queue s) }.

Record services_ok (vm : ServiceManager) : Prop := {
  vk_count : Z.of_nat (size (vm_services vm)) <= Z.max 0 (vm_maxServices vm);
  vk_requests : len (vm_requests vm) <= requests_cap;
  vk_replies : len (vm_replies vm) <= requests_cap;
  vk_services : map_Forall service_ok (vm_services vm) }.

(** The queued requests among what a dispatch delivers. *)
Definition dispatched (out : list (bytes * delivered)) : list ServiceRequest :=
  omap (fun d => match d.2 with Dispatched r => Some r | Direct _ => None end) out.

Section facts.
Context (range : gmap bytes mlmService → list (bytes * mlmService)) (Hrange : range_order range).
Context (w_range : gmap bytes ServiceWorker → list (bytes * ServiceWorker)) (Hw : range_order w_range).

Lemma find_some s method k w :
  findAvailableWorker w_range s method = Some (k, w) → sv_Workers s !! k = Some w ∧ available method w = true.
Proof.
  unfold findAvailableWorker. intros [Hin Ha]%List.find_some. split; [|done].
  apply (range_order_elem w_range); [done|]. by apply list_elem_of_In.
Qed.

Lemma find_none s method : findAvailableWorker w_range s method = None → nobody_for method s.
Proof.
  unfold findAvailableWorker. intros Hf k w Hk. apply (range_order_elem w_range) in Hk; [|done].
  apply list_elem_of_In in Hk. exact (List.find_none _ _ Hf _ Hk).
Qed.

Lemma charge_ok c now w : worker_ok c w → 0 < wk_Credit w → worker_ok c (charge now w).
Proof.
  unfold worker_ok, DefaultCreditWindow. intros (H1 & H2 & H3 & H4) Hc. cbn. rewrite i32_small, u64_small by lia.
  split_and!; (done || lia).
Qed.

Lemma charge_unavailable c now w method : worker_ok c w → available method w = false → available method (charge now w) = false.
Proof.
  unfold worker_ok, DefaultCreditWindow, available. cbn. intros (H1 & H2 & H3 & H4) Ha.
  destruct (service_matchesPattern method (wk_Pattern w)); [|by rewrite andb_false_r].
  rewrite andb_true_r in *. apply bool_decide_eq_false in Ha. rewrite bool_decide_eq_false. rewrite i32_small by lia. lia.
Qed.

Lemma available_credit method w : available method w = true → 0 < wk_Credit w.
Proof. unfold available. intros [H _]%andb_true_iff. by apply bool_decide_eq_true in H. Qed.

(** Delivering a request keeps the workers well formed and makes nobody available. *)
Lemma deliver_to_ok t t' k w s method :
  map_Forall worker_ok (sv_Workers s) → sv_Workers s !! k = Some w → available method w = true →
  map_Forall worker_ok (sv_Workers (deliver_to t t' k w s)) ∧
  ∀ m, nobody_for m s → nobody_for m (deliver_to t t' k w s).
Proof.
  intros Hws Hk Ha. cbn. split.
  - apply map_Forall_insert_2; [|done]. apply charge_ok; [by apply Hws|by eapply available_credit].
  - intros m Hm. unfold nobody_for. cbn. apply map_Forall_insert_2; [|done].
    eapply charge_unavailable; [by apply Hws|]. by apply (Hm k).
Qed.

Lemma dispatch_queue_spec now t t' queue : ∀ kept s out kept' s',
  map_Forall worker_ok (sv_Workers s) →
  dispatch_queue w_range now t t' queue kept s = (out, kept', s') →
  sv_Name s' = sv_Name s ∧ map_Forall worker_ok (sv_Workers s') ∧
  (∀ m, nobody_for m s → nobody_for m s') ∧
  ∃ held, kept' = kept ++ held ∧ sublist held queue ∧ sublist (dispatched out) queue ∧
    Forall (fun r => nobody_for (rq_Method r) s') held ∧
    queue ≡ₚ dispatched out ++ held ++ filter (fun r => ¬ now < rq_Timeout r) queue.
Proof.
  induction queue as [|r queue IH]; intros kept s out kept' s' Hws; cbn [dispatch_queue].
  - intros [= <- <- <-]. split_and!; try done. exists []. by rewrite app_nil_r.
  - case_decide as Hlive.
    + destruct (findAvailableWorker w_range s (rq_Method r)) as [[k w]|] eqn:Ef.
      * destruct (find_some s _ k w Ef) as [Hk Ha]. destruct (deliver_to_ok t t' k w s _ Hws Hk Ha) as [Hws' Hmono].
        destruct (dispatch_queue w_range now t t' queue kept (deliver_to t t' k w s)) as [[out1 kept1] s1] eqn:E.
        intros [= <- <- <-]. destruct (IH _ _ _ _ _ Hws' E) as (Hn & Hws1 & Hmono1 & held & -> & H1 & H2 & H3 & H4).
        split_and!; [done|done|by auto|]. exists held. change (dispatched ((wk_ClientID w, Dispatched r) :: out1)) with (r :: dispatched out1).
        rewrite filter_cons_False by tauto. split_and!; [done|by apply sublist_cons|by apply sublist_skip|done|].
        cbn [app]. by apply perm_skip.
      * apply find_none in Ef. intros E. destruct (IH _ _ _ _ _ Hws E) as (Hn & Hws1 & Hmono1 & held & -> & H1 & H2 & H3 & H4).
        split_and!; [done|done|done|]. exists (r :: held). rewrite filter_cons_False by tauto.
        split_and!; [by rewrite <- app_assoc|by apply sublist_skip|by apply sublist_cons|by constructor; auto|].
        cbn [app]. rewrite <- Permutation_middle. by apply perm_skip.
    + intros E. destruct (IH _ _ _ _ _ Hws E) as (Hn & Hws1 & Hmono1 & held & -> & H1 & H2 & H3 & H4).
      split_and!; [done|done|done|]. exists held. rewrite filter_cons_True by done.
      split_and!; [done|by apply sublist_cons|by apply sublist_cons|done|].
      rewrite (app_assoc _ held), <- Permutation_middle. apply perm_skip. by rewrite <- app_assoc.
Qed.

Lemma services_ok_set vm m :
  services_ok vm → Z.of_nat (size m) <= Z.max 0 (vm_maxServices vm) → map_Forall service_ok m → services_ok (set_services m vm).
Proof. intros [H1 H2 H3 H4] Hs Hm. by split. Qed.

Lemma services_ok_sweep vm f :
  services_ok vm → (∀ a s s', service_ok a s → f a s = Some s' → service_ok a s') →
  services_ok (set_services (sweep f (range (vm_services vm)) (vm_services vm)) vm).
Proof.
  intros Hok Hf. pose proof Hok as [H1 H2 H3 H4]. apply services_ok_set; [done| |].
  - pose proof (sweep_size range f (vm_services vm) Hrange). lia.
  - by eapply sweep_Forall.
Qed.

Lemma services_ok_insert vm name s :
  services_ok vm → service_ok name s →
  (is_Some (vm_services vm !! name) ∨ Z.of_nat (size (vm_services vm)) < vm_maxServices vm) →
  services_ok (set_services (<[name := s]> (vm_services vm)) vm).
Proof.
  intros Hok Hs Hroom. pose proof Hok as [H1 H2 H3 H4]. apply services_ok_set; [done| |by apply map_Forall_insert_2].
  destruct (vm_services vm !! name) eqn:E.
  - rewrite map_size_insert_Some by by eexists. done.
  - rewrite map_size_insert_None by done. destruct Hroom as [[? [=]]|?]. lia.
Qed.

Lemma retire_ok c a s s' : service_ok a s → retire c s = Some s' → service_ok a s'.
Proof.
  intros [H1 H2 H3 H4]. unfold retire. case_decide; [done|]. intros [= <-]. split; cbn; [done|done|by apply map_Forall_delete|].
  eapply Forall_impl; [exact H4|]. intros r Hr. unfold nobody_for in *. cbn. by apply map_Forall_delete.
Qed.

Lemma register_in_ok a t3 t4 now t t' c pat attrs s :
  sv_Name s = a → len (sv_Queue s) <= MaxServiceBacklog → map_Forall worker_ok (sv_Workers s) →
  service_ok a (register_in w_range t3 t4 now t t' c pat attrs s).2.
Proof.
  intros Hn Hq Hws. unfold register_in, dispatchQueuedRequests. set (s1 := mkService _ _ _ _ _ _ _ _).
  destruct (dispatch_queue w_range now t t' (sv_Queue s1) [] s1) as [[out kept] s2] eqn:E.
  assert (Hws1 : map_Forall worker_ok (sv_Workers s1)) by (apply map_Forall_insert_2; [done|exact Hws]).
  destruct (dispatch_queue_spec _ _ _ _ _ _ _ _ _ Hws1 E) as (Hn2 & Hws2 & _ & held & -> & Hsub & _ & Hidle & _).
  cbn [snd app]. split; cbn; [by rewrite Hn2| |done|done].
  apply sublist_length in Hsub. cbn in Hsub. unfold len in *. lia.
Qed.

Lemma register_ok vm t1 t2 t3 t4 now t t' service c pat attrs :
  services_ok vm → services_ok (handleRegisterWorker w_range t1 t2 t3 t4 now t t' service c pat attrs vm).2.
Proof.
  intros Hok. pose proof Hok as [H1 H2 H3 H4]. unfold handleRegisterWorker.
  destruct (vm_services vm !! service) as [s|] eqn:E.
  - destruct (H4 service s E) as [Hn Hq Hws _]. pose proof (register_in_ok _ t3 t4 now t t' c pat attrs s Hn Hq Hws) as Hs.
    destruct (register_in _ _ _ _ _ _ _ _ _ s) as [out s']. apply services_ok_insert; eauto.
  - case_decide; [done|]. set (s0 := mkService _ _ _ _ _ _ _ _).
    assert (Hs : service_ok service (register_in w_range t3 t4 now t t' c pat attrs s0).2).
    { apply register_in_ok; [done| |apply map_Forall_empty]. cbn. unfold MaxServiceBacklog, len. cbn. lia. }
    destruct (register_in _ _ _ _ _ _ _ _ _ s0) as [out s']. apply services_ok_insert; [done|done|right; lia].
Qed.

Lemma service_command_ok vm t1 t2 t3 t4 now t t' cmd :
  services_ok vm → services_ok (service_handleCommand range w_range t1 t2 t3 t4 now t t' cmd vm).2.
Proof.
  intros Hok. pose proof Hok as [H1 H2 H3 H4]. destruct cmd as [sv c pat attrs|sv c|c|sv| |sv c cr]; try done; cbn [service_handleCommand].
  - pose proof (register_ok vm t1 t2 t3 t4 now t t' sv c pat attrs Hok) as Hr. unfold mbind, M_bind, try.
    by destruct (handleRegisterWorker w_range t1 t2 t3 t4 now t t' sv c pat attrs vm) as [[]].
  - unfold mbind, M_bind, handleUnregisterWorker. cbn. destruct (vm_services vm !! sv) as [s|] eqn:E; [|done].
    destruct (retire c s) as [s'|] eqn:Er; cbn.
    + apply services_ok_insert; [done|by eapply retire_ok; [apply H4|]|left; eauto].
    + apply services_ok_set; [done| |by apply map_Forall_delete]. rewrite map_size_delete_Some by by eexists. lia.
  - apply services_ok_sweep; [done|]. intros a s s'. apply retire_ok.
Qed.

Lemma process_request_ok vm now now' r : services_ok vm → services_ok (service_processRequest w_range now now' r vm).2.
Proof.
  intros Hok. pose proof Hok as [H1 H2 H3 H4]. unfold service_processRequest.
  destruct (vm_services vm !! rr_Service r) as [s|] eqn:E; [|done]. destruct (H4 _ _ E) as [Hn Hq Hws Hidle].
  destruct (findAvailableWorker w_range s (rr_Method r)) as [[k w]|] eqn:Ef; cbn [snd].
  - destruct (find_some s _ k w Ef) as [Hk Ha]. destruct (deliver_to_ok now now' k w s _ Hws Hk Ha) as [Hws' Hmono].
    apply services_ok_insert; [done| |left; eauto]. split; [done|done|done|].
    eapply Forall_impl; [exact Hidle|]. cbn. auto.
  - apply find_none in Ef. set (q := if decide _ then _ else _).
    assert (Hs : service_ok (rr_Service r) (set_sv_queue q s)).
    { split; cbn; [done| |done|].
      - unfold q. case_decide as Hd; [|lia]. unfold len in *. rewrite length_drop, length_app in *. cbn in *. lia.
      - assert (HF : Forall (fun x => nobody_for (rq_Method x) s) (sv_Queue s ++ [mkRequest (u64 (vm_requestID vm + 1)) (rr_Service r) (rr_Method r)
          (rr_Sender r) (rr_Tracker r) (rr_Attributes r) (rr_Body r) (rr_Timestamp r) (rr_Timestamp r + rr_Timeout r) 0]))
          by (apply Forall_app; split; [done|by constructor]).
        unfold q. case_decide; [by apply Forall_drop|done]. }
    pose proof (services_ok_insert vm _ _ Hok Hs ltac:(left; eauto)) as [? ? ? ?]. by split.
Qed.

Lemma service_step_ok e vm : services_ok vm → services_ok (service_step range w_range e vm).
Proof.
  intros Hok. pose proof Hok as [H1 H2 H3 H4].
  destruct e as [now sv me se tr body attrs tmo|now tr st body attrs|now now'| |t1 t2 t3 t4 now t t' cmd|now clock]; cbn [service_step].
  - unfold ProcessRequest. repeat case_decide; try done. split; cbn; try done. rewrite len_app. change (len [_]) with 1. lia.
  - unfold ProcessReply. repeat case_decide; try done. split; cbn; try done. rewrite len_app. change (len [_]) with 1. lia.
  - unfold requestLoop. destruct (vm_requests vm) as [|r rest] eqn:E; [done|]. apply process_request_ok. split; cbn; try done.
    rewrite len_cons in H2. lia.
  - unfold replyLoop. destruct (vm_replies vm) as [|r rest] eqn:E; [done|].
    assert (Hok' : services_ok (mkServiceManager (vm_maxServices vm) (vm_serviceTimeout vm) (vm_services vm) (vm_requests vm) rest (vm_requestID vm)))
      by (split; cbn; try done; rewrite len_cons in H3; lia).
    apply (services_ok_sweep _ _ Hok'). intros a s s' [? ? ? ?] [= <-]. by split.
  - by apply service_command_ok.
  - apply services_ok_sweep; [done|]. intros a s s' [? Hq ? Hi]. unfold cleanup_service. case_decide; [done|]. intros [= <-].
    split; cbn; [done| |done|].
    + pose proof (length_filter (fun r => now < rq_Timeout r) (sv_Queue s)). unfold len in *. lia.
    + rewrite Forall_forall in Hi |- *. intros r [_ Hr]%list_elem_of_filter. by apply Hi.
Qed.
End facts.

(** C22. The service manager is work conserving and never overspends: after
    any history of requests, replies, registrations, removals and cleanups, a
    request is queued only while no registered worker can take it, queues and
    the number of services stay within their limits, and every worker has
    used and remaining credits that add up to the window it registered
    with. *)
Theorem service_work_conserving (range : gmap bytes mlmService → list (bytes * mlmService))
    (w_range : gmap bytes ServiceWorker → list (bytes * ServiceWorker)) (maxServices serviceTimeout : Z) (es : list serviceEvent) :
  range_order range → range_order w_range →
  services_ok (service_run range w_range es (NewServiceManager maxServices serviceTimeout)).
Proof.
  intros Hr Hw. unfold service_run.
  assert (H0 : services_ok (NewServiceManager maxServices serviceTimeout)).
  { split; [cbn; rewrite map_size_empty; lia|unfold requests_cap, len; cbn; lia|unfold requests_cap, len; cbn; lia|apply map_Forall_empty]. }
  revert H0. generalize (NewServiceManager maxServices serviceTimeout).
  induction es as [|e es IH]; intros vm Hok; cbn; [done|]. apply IH. by apply service_step_ok.
Qed.

(** Registering a worker drains the queue in order: of the requests
    queued for a service, each is dispatched, kept or expired, exactly once;
    what is dispatched and what is kept stay in their order of arrival; and
    what is kept no worker of the service can take. *)
Theorem service_dispatch (w_range : gmap bytes ServiceWorker → list (bytes * ServiceWorker)) (s : mlmService) (now t t' : Z) :
  range_order w_range → map_Forall worker_ok (sv_Workers s) →
  let '(out, s') := dispatchQueuedRequests w_range now t t' s in
  sv_Queue s ≡ₚ dispatched out ++ sv_Queue s' ++ filter (fun r => ¬ now < rq_Timeout r) (sv_Queue s) ∧
  sublist (dispatched out) (sv_Queue s) ∧ sublist (sv_Queue s') (sv_Queue s) ∧
  Forall (fun r => nobody_for (rq_Method r) s') (sv_Queue s').
Proof.
  intros Hw Hws. unfold dispatchQueuedRequests.
  destruct (dispatch_queue w_range now t t' (sv_Queue s) [] s) as [[out kept] s'] eqn:E.
  destruct (dispatch_queue_spec w_range Hw _ _ _ _ _ _ _ _ _ Hws E) as (_ & _ & _ & held & -> & H1 & H2 & H3 & H4). done.
Qed.

(** ** Instances *)

Definition demo_service : list serviceEvent :=
  [VCommand 0 0 0 0 0 0 0 (vc_register_worker (gs "print") (gs "w1") (gs "pdf*") ∅);
   VRequest 1 (gs "print") (gs "scan") (gs "c") (gs "t1") (gs "x") ∅ 100; VRequestTurn 2 2;
   VRequest 2 (gs "print") (gs "pdf.a4") (gs "c") (gs "t2") (gs "y") ∅ 100; VRequestTurn 3 3; VReply 4 (gs "t2") 200 [] ∅; VReplyTurn].

(** The request nobody takes is queued, the other one is served. *)
Example demo_service_state :
  (fun s => (length (sv_Queue s), sv_RequestCount s, sv_ReplyCount s)) <$>
    vm_services (service_run map_to_list map_to_list demo_service (NewServiceManager 3 1000)) !! gs "print" = Some (1%nat, 1, 1).
Proof. vm_compute. reflexivity. Qed.

Lemma service_work_conserving_witness :
  services_ok (service_run map_to_list map_to_list demo_service (NewServiceManager 3 1000)).
Proof. apply service_work_conserving; apply map_to_list_range_order. Defined.

Definition demo_queue : list ServiceRequest :=
  [mkRequest 1 (gs "print") (gs "scan") [] [] ∅ [] 0 100 0; mkRequest 2 (gs "print") (gs "pdf") [] [] ∅ [] 0 100 0;
   mkRequest 3 (gs "print") (gs "pdf") [] [] ∅ [] 0 5 0].
Definition demo_print : mlmService :=
  mkService (gs "print") {[ gs "w1" := mkWorker (gs "w1") (gs "pdf*") DefaultCreditWindow ∅ 0 0 0 ]} demo_queue ∅ 0 0 0 0.

Lemma service_dispatch_witness :
  let '(out, s') := dispatchQueuedRequests map_to_list 10 10 10 demo_print in
  demo_queue ≡ₚ dispatched out ++ sv_Queue s' ++ filter (fun r => ¬ 10 < rq_Timeout r) demo_queue ∧
  sublist (dispatched out) demo_queue ∧ sublist (sv_Queue s') demo_queue ∧
  Forall (fun r => nobody_for (rq_Method r) s') (sv_Queue s').
Proof.
  apply (service_dispatch map_to_list demo_print 10 10 10); [apply map_to_list_range_order|].
  unfold demo_print. cbn [sv_Workers]. intros k w [<- <-]%lookup_singleton_Some. split_and!; [done|by vm_compute|by vm_compute|done].
Defined.
