(* ===== verification/MlmManagers.v ===== *)
(** * MlmManagers: the goroutines of the Malamute managers

    Each manager of src/malamute (credit.go, mailbox.go, stream.go, service.go)
    runs a [commandLoop] beside the loops that empty its other channels. Here
    each is a [Server] of Actor: the commands are those of [handleCommand], and
    the other loops, and the methods that only take the mutex or offer to a
    channel, are its other goroutines. *)

From Stdlib Require Import Strings.Byte ZArith Lia.
From stdpp Require Import base strings numbers gmap list.
From S2P Require Import Prelude Actor MlmMessage MlmCredit MlmMailbox Glob MlmStream MlmService.

#[local] Open Scope Z_scope.
#[local] Set Default Goal Selector "!".

(** ** Credit control *)

(** The controller with its two other channels; a request carries the number of
    the channel its response goes to. *)
Record creditState : Type := mkCreditState {
  cz_ctrl : CreditController;
  cz_requests : list (nat * bytes * Z);
  cz_confirmations : list (bytes * Z);
  cz_responses : gmap nat CreditResponse }.

(** A [select] that offers to a channel, sees the context and has a default. *)
Inductive offer : Type := Offered | OfferCancelled | OfferFull | OfferPanics.

Definition try_offer (choice room cancelled closed : bool) : offer :=
  if closed then (if choice then OfferPanics else OfferCancelled)
  else if cancelled && negb (room && choice) then OfferCancelled
  else if room then Offered else OfferFull.

Definition add_request (id : nat) (clientID : bytes) (amount : Z) (z : creditState) : creditState :=
  mkCreditState (cz_ctrl z) (cz_requests z ++ [(id, clientID, amount)]) (cz_confirmations z) (cz_responses z).
Definition add_confirmation (clientID : bytes) (amount : Z) (z : creditState) : creditState :=
  mkCreditState (cz_ctrl z) (cz_requests z) (cz_confirmations z ++ [(clientID, amount)]) (cz_responses z).
Definition set_ctrl (k : CreditController) (z : creditState) : creditState :=
  mkCreditState k (cz_requests z) (cz_confirmations z) (cz_responses z).

(** One turn of [requestLoop] and of [confirmationLoop]; the response channel
    of a request is its own, so its one place is free. *)
Definition credit_requestLoop (now now' : Z) (z : creditState) : creditState :=
  match cz_requests z with
  | [] => z
  | (id, clientID, amount) :: rest =>
      match processRequest now now' clientID amount (cz_ctrl z) with
      | (Ret resp, k) => mkCreditState k rest (cz_confirmations z) (<[id := resp]> (cz_responses z))
      | (_, k) => mkCreditState k rest (cz_confirmations z) (cz_responses z)
      end
  end.

Definition credit_confirmationLoop (z : creditState) : creditState :=
  match cz_confirmations z with
  | [] => z
  | (clientID, amount) :: rest =>
      mkCreditState (processConfirmation clientID amount (cz_ctrl z)).2 (cz_requests z) rest (cz_responses z)
  end.

Section credit.
Context (range : gmap bytes ClientCredit → list (bytes * ClientCredit)).

(** What the other goroutines do: callers of [RequestCredit], [ConfirmCredit]
    and [UseCredit], the two loops and the tick of [cleanupLoop]. *)
Inductive credit_bg : creditState → creditState → Prop :=
| cb_request id clientID amount z : credit_bg z (add_request id clientID amount z)
| cb_confirm clientID amount z : - 2 ^ 31 <= amount < 2 ^ 31 → credit_bg z (add_confirmation clientID amount z)
| cb_requestLoop now now' z : credit_bg z (credit_requestLoop now now' z)
| cb_confirmationLoop z : credit_bg z (credit_confirmationLoop z)
| cb_use clientID amount z : 0 <= amount → credit_bg z (set_ctrl (UseCredit clientID amount (cz_ctrl z)).2 z)
| cb_cleanup now z : credit_bg z (set_ctrl (cleanupInactiveClients range now (cz_ctrl z)).2 z)
| cb_response id z : credit_bg z (mkCreditState (cz_ctrl z) (cz_requests z) (cz_confirmations z) (delete id (cz_responses z))).

#[export] Instance credit_server : Server creditState creditCmd creditReply Z := {|
  srv_cap := 100;
  srv_handle now cmd z :=
    '(r, k) ← serves (r ← handleCommand range now cmd; mret (Some r)) (cz_ctrl z); Some (r, set_ctrl k z);
  srv_bg := credit_bg |}.

Definition creditActor : Type := actor creditState creditCmd creditReply.

(** [Start] of a new controller. *)
Definition credit_Start (windowSize : Z) : creditActor := actor_start (mkCreditState (NewCreditController windowSize) [] [] ∅).
Definition credit_commandLoop : Z → creditActor → option creditActor := actor_turn.

(** [RequestCredit] in its two halves. *)
Definition RequestCredit_send (choice : bool) (id : nat) (clientID : bytes) (amount : Z) (s : creditActor) : offer * creditActor :=
  let z := at_state s in
  match try_offer choice (bool_decide (len (cz_requests z) < 1000)) (at_cancelled s) (at_closed s) with
  | Offered => (Offered, set_at_state (add_request id clientID amount z) s)
  | o => (o, s)
  end.

Inductive ready : Type := ReadyResponse | ReadyDone | ReadyTimeout.

(** The case of the second [select] that is taken, if it is ready; [expired]:
    the five seconds are over. *)
Definition RequestCredit_wait (w : ready) (expired : bool) (id : nat) (s : creditActor)
    : option (option CreditResponse * option error * creditActor) :=
  let z := at_state s in
  match w with
  | ReadyResponse =>
      match cz_responses z !! id with
      | Some resp => Some (Some resp, re_Error resp,
          set_at_state (mkCreditState (cz_ctrl z) (cz_requests z) (cz_confirmations z) (delete id (cz_responses z))) s)
      | None => None
      end
  | ReadyDone => if at_cancelled s then Some (None, Some (Errorf "context canceled"), s) else None
  | ReadyTimeout => if expired then Some (None, Some (Errorf "credit request timeout"), s) else None
  end.

Definition ConfirmCredit (choice : bool) (clientID : bytes) (amount : Z) (s : creditActor) : offer * creditActor :=
  let z := at_state s in
  match try_offer choice (bool_decide (len (cz_confirmations z) < 1000)) (at_cancelled s) (at_closed s) with
  | Offered => (Offered, set_at_state (add_confirmation clientID amount z) s)
  | o => (o, s)
  end.

(** What the callers of commands make of a reply. *)
Definition GetClientCredit_result (r : creditReply) : outcome ClientCredit :=
  match r with ReplyCredit c => Ret c | _ => Fail (Errorf "client not found") end.
Definition GetStatistics_result (r : creditReply) : outcome CreditStatistics :=
  match r with ReplyStats s => Ret s | _ => Panic "interface conversion" end.

(** ** The credit of a running controller *)

Lemma credit_ctrl_step bound o k :
  bound < 2 ^ 31 → MaxCreditWindow <= bound → op_amount_ok o → credits_ok bound k → credits_ok bound (credit_step range o k).
Proof. intros ? ? ? ?. apply credit_step_ok; [done|by destruct o|done|done]. Qed.

Definition credit_state_ok (bound : Z) (z : creditState) : Prop :=
  credits_ok bound (cz_ctrl z) ∧ Forall (fun ca => - 2 ^ 31 <= ca.2 < 2 ^ 31) (cz_confirmations z) ∧
  map_Forall (fun _ resp => 0 <= re_Granted resp <= bound) (cz_responses z).

(** The window sizes [SetWindowSize] lets through. *)
Definition window_ok (cmd : creditCmd) : Prop :=
  match cmd with set_window_size size => MinCreditWindow <= size <= MaxCreditWindow | _ => True end.

Lemma response_ok bound k now now' id amount r :
  credits_ok bound k → bound < 2 ^ 31 → (processRequest now now' id amount k).1 = Ret r → 0 <= re_Granted r <= bound.
Proof.
  intros [Hw Hm] Hb. unfold processRequest. set (c0 := default _ _).
  assert (H0 : 0 <= cc_Total c0).
  { unfold c0. destruct (k_clientCredits k !! id) as [c|] eqn:E; cbn; [|lia]. destruct (Hm id c E). lia. }
  set (c1 := mkCredit _ _ _ _ _ _ _ _ _).
  pose proof (granted_bound k c1 amount ltac:(lia) ltac:(cbn; lia)) as Hg. cbv zeta in Hg.
  case_decide as Hpos; cbn [fst]; intros [= <-]; cbn in *; lia.
Qed.

Lemma credit_bg_ok bound z z' :
  bound < 2 ^ 31 → MaxCreditWindow <= bound → credit_bg z z' → credit_state_ok bound z → credit_state_ok bound z'.
Proof.
  intros Hb Hm Hs (Hk & Hc & Hr). destruct Hs as [id c a z|c a z Ha|now now' z|z|c a z Ha|now z|id z].
  - by split_and!.
  - split_and!; [done|apply Forall_app; split; [done|by apply Forall_singleton]|done].
  - unfold credit_requestLoop. destruct (cz_requests z) as [|[[id c] a] rest]; [by split_and!|].
    pose proof (request_ok bound Hb (cz_ctrl z) now now' c a Hk) as Hk'.
    pose proof (response_ok bound (cz_ctrl z) now now' c a) as Hresp.
    destruct (processRequest now now' c a (cz_ctrl z)) as [[resp| |] k]; split_and!; try done.
    apply map_Forall_insert_2; [by apply Hresp|done].
  - unfold credit_confirmationLoop. destruct (cz_confirmations z) as [|[c a] rest] eqn:E; [by split_and!; rewrite ?E|].
    apply Forall_cons in Hc as [Ha Hc]. split_and!; [|done..]. by apply (credit_ctrl_step bound (COpConfirm c a)).
  - split_and!; [|done..]. by apply (credit_ctrl_step bound (COpUse c a)).
  - split_and!; [|done..]. by apply (credit_ctrl_step bound (COpCleanup now)).
  - split_and!; [done..|]. by apply map_Forall_delete.
Qed.

Lemma credit_handle_ok bound now cmd z r z' :
  bound < 2 ^ 31 → MaxCreditWindow <= bound → window_ok cmd → credit_state_ok bound z →
  srv_handle now cmd z = Some (r, z') → credit_state_ok bound z' ∧ ∀ c, r = Some (ReplyCredit c) → credit_ok bound c.
Proof.
  intros Hb Hm Hw (Hk & Hc & Hr). pose proof Hk as [Hwin Hall].
  destruct cmd as [id|sz| |id]; cbn; intros [= <- <-]; (split; [split_and!; [split; [cbn|cbn]|done..]|]); try done.
  - intros c E. destruct (k_clientCredits (cz_ctrl z) !! id) as [c0|] eqn:E0; [|done]. injection E as <-. by apply (Hall id).
  - unfold window_ok, MinCreditWindow in *. lia.
  - by apply map_Forall_delete.
Qed.

(** In every interleaving of its callers, its four loops and [Stop], with any
    window at first: no client's credit is over-issued, no response grants more
    than the largest window there can be, and the credit that [GetClientCredit]
    reads is consistent. *)
Theorem credit_controller_runs (windowSize : Z) ls s :
  windowSize < 2 ^ 31 → actor_run (credit_Start windowSize) ls s → Forall window_ok (called ls).*2 →
  credit_state_ok (Z.max windowSize MaxCreditWindow) (at_state s) ∧
  ∀ k id c, ls !! k = Some (LReturn id (ReplyCredit c)) → credit_ok (Z.max windowSize MaxCreditWindow) c.
Proof.
  intros Hw Hrun Hcalls. set (bound := Z.max windowSize MaxCreditWindow).
  assert (Hb : MaxCreditWindow <= bound < 2 ^ 31) by (unfold bound, MaxCreditWindow; lia). destruct Hb as [Hm Hb].
  destruct (actor_invariant (credit_state_ok bound) window_ok _ ls s Hrun) as [H1 H2].
  - split_and!; [|constructor|apply map_Forall_empty]. split; [|apply map_Forall_empty].
    cbn. unfold bound, DefaultCreditWindow, MaxCreditWindow. case_decide; lia.
  - intros now cmd z r z' Hc Hz Hh. by eapply credit_handle_ok.
  - intros z z'. by apply credit_bg_ok.
  - intros p Hp. rewrite Forall_forall in Hcalls. apply Hcalls, list_elem_of_fmap. by exists p.
  - split; [done|]. intros k id c Hk. destruct (H2 k id _ Hk) as (now & cmd & z1 & z2 & Hin & Hz & Hh).
    eapply credit_handle_ok; [done..| |done|exact Hh|done].
    rewrite Forall_forall in Hcalls. apply Hcalls, list_elem_of_fmap. by exists (id, cmd).
Qed.

(** A request that timed out is granted all the same: the credit is booked to a
    client that was told of an error. *)
Lemma timed_out_granted (s : creditActor) (id : nat) (clientID : bytes) (amount now now' : Z) :
  cz_requests (at_state s) = [(id, clientID, amount)] →
  let z' := credit_requestLoop now now' (at_state s) in
  (∃ s', RequestCredit_wait ReadyTimeout true id s = Some (None, Some (Errorf "credit request timeout"), s')) ∧
  cz_ctrl z' = (processRequest now now' clientID amount (cz_ctrl (at_state s))).2 ∧ cz_requests z' = [].
Proof.
  intros E. cbv zeta. split; [by eexists|]. unfold credit_requestLoop. rewrite E.
  by destruct (processRequest now now' clientID amount (cz_ctrl (at_state s))) as [[resp| |] k].
Qed.
End credit.

(** ** Mailboxes *)

Section mailboxes.
Context (range : gmap bytes Mailbox → list (bytes * Mailbox)).

(** [SendMessage], a turn of [deliveryLoop], a tick of [cleanupLoop]. *)
Inductive mailbox_bg : MailboxManager → MailboxManager → Prop :=
| mb_send now address subject sender tracker body attributes timeout mm :
    mailbox_bg mm (SendMessage now address subject sender tracker body attributes timeout mm).2
| mb_deliver t1 t2 t3 mm : mailbox_bg mm (deliveryLoop t1 t2 t3 mm).2
| mb_cleanup now clock mm : mailbox_bg mm (cleanupExpiredMessages range now clock mm).2.

#[export] Instance mailbox_server : Server MailboxManager mailboxCmd mailboxReply (Z * Z) := {|
  srv_cap := 1000;
  srv_handle e cmd := serves (mailbox_handleCommand range e.1 e.2 cmd);
  srv_bg := mailbox_bg |}.

Definition mailboxActor : Type := actor MailboxManager mailboxCmd mailboxReply.
Definition mailbox_Start (maxMailboxes retention : Z) : mailboxActor := actor_start (NewMailboxManager maxMailboxes retention).
Definition mailbox_commandLoop : Z * Z → mailboxActor → option mailboxActor := actor_turn.

Context (Hrange : range_order range).

Lemma mailbox_command_ok now now' cmd mm :
  manager_ok mm → manager_ok (mailbox_handleCommand range now now' cmd mm).2.
Proof.
  intros Hok. destruct cmd as [c a|a owner attrs|c|a| |a]; cbn -[handleReceive handleCreate]; try done.
  - pose proof (receive_ok mm now now' c a Hok) as H. unfold mbind, M_bind. by destruct (handleReceive _ _ _ _ mm) as [[| |] ?].
  - pose proof (create_ok mm now now' a owner attrs Hok) as H. unfold mbind, M_bind, try. by destruct (handleCreate _ _ _ _ _ mm) as [[| |] ?].
  - apply (mail_step_ok range Hrange (MRemove c) mm Hok).
Qed.

(** In every interleaving, the mailboxes stay within their limits. *)
Theorem mailbox_manager_runs (maxMailboxes retention : Z) ls s :
  actor_run (mailbox_Start maxMailboxes retention) ls s → manager_ok (at_state s).
Proof.
  intros Hrun. eapply (actor_invariant manager_ok (fun _ => True)); [exact Hrun|..]; try done.
  - split; cbn; [rewrite map_size_empty; lia|unfold deliveries_cap, len; cbn; lia|constructor|apply map_Forall_empty].
  - intros e c mm r mm' _ Hok. cbn. unfold serves. pose proof (mailbox_command_ok e.1 e.2 c mm Hok) as H.
    destruct (mailbox_handleCommand range e.1 e.2 c mm) as [[]  ?]; try done. by intros [= _ <-].
  - intros mm mm' H Hok. destruct H as [now a sj sd tr b at' t mm|t1 t2 t3 mm|now clock mm].
    + apply (mail_step_ok range Hrange (MSend now a sj sd tr b at' t) mm Hok).
    + apply (mail_step_ok range Hrange (MDeliver t1 t2 t3) mm Hok).
    + apply (mail_step_ok range Hrange (MCleanup now clock) mm Hok).
Qed.

(** [GetMessageCount] never returns: its command has no reply. *)
Lemma message_count_hangs (maxMailboxes retention : Z) ls s id a :
  actor_run (mailbox_Start maxMailboxes retention) ls s → (id, mc_get_message_count a) ∈ called ls → id ∉ returned ls.
Proof. intros Hrun. eapply actor_unanswered; [exact Hrun|]. cbn. unfold serves. cbn. naive_solver. Qed.
End mailboxes.

(** ** Streams *)

Section streams.
Context (ParseDuration : bytes → option Z).
Context (range : gmap bytes Stream → list (bytes * Stream)).
Context (subs_range : gmap bytes StreamSubscription → list (bytes * StreamSubscription)).

(** The clock readings of a command. *)
Record streamClock : Type := mkStreamClock { sx_clock : bytes → Z; sx_t1 : Z; sx_t2 : Z; sx_t3 : Z }.

(** [WriteMessage], a turn of [publicationLoop], a tick of [cleanupLoop]. *)
Inductive stream_bg : StreamManager → StreamManager → Prop :=
| sb_write now stream subject sender body attributes sm :
    stream_bg sm (WriteMessage now stream subject sender body attributes sm).2
| sb_publish t1 t2 t3 sm : stream_bg sm (publicationLoop ParseDuration subs_range t1 t2 t3 sm).2
| sb_cleanup now clock sm : stream_bg sm (stream_cleanupExpiredMessages range now clock sm).2.

#[export] Instance stream_server : Server StreamManager streamCmd streamReply streamClock := {|
  srv_cap := 1000;
  srv_handle e cmd := serves (stream_handleCommand range (sx_clock e) (sx_t1 e) (sx_t2 e) (sx_t3 e) cmd);
  srv_bg := stream_bg |}.

Definition streamActor : Type := actor StreamManager streamCmd streamReply.
Definition stream_Start (maxStreams retention : Z) : streamActor := actor_start (NewStreamManager maxStreams retention).
Definition stream_commandLoop : streamClock → streamActor → option streamActor := actor_turn.

(** [RestoreCredit] never returns: its command has no reply. *)
Lemma stream_restore_hangs (maxStreams retention : Z) ls s id c name credit :
  actor_run (stream_Start maxStreams retention) ls s → (id, sc_restore_credit c name credit) ∈ called ls → id ∉ returned ls.
Proof. intros Hrun. eapply actor_unanswered; [exact Hrun|]. cbn. unfold serves. cbn. naive_solver. Qed.
End streams.

(** ** Services *)

Section services.
Context (range : gmap bytes mlmService → list (bytes * mlmService)).
Context (w_range : gmap bytes ServiceWorker → list (bytes * ServiceWorker)).

(** The clock readings of a command. *)
Record serviceClock : Type := mkServiceClock { vx_t1 : Z; vx_t2 : Z; vx_t3 : Z; vx_t4 : Z; vx_now : Z; vx_t : Z; vx_t' : Z }.

Definition is_service_command (e : serviceEvent) : bool := match e with VCommand _ _ _ _ _ _ _ _ => true | _ => false end.

(** [ProcessRequest], [ProcessReply], turns of [requestLoop] and [replyLoop],
    ticks of [cleanupLoop]. *)
Definition service_bg (vm vm' : ServiceManager) : Prop :=
  ∃ e, is_service_command e = false ∧ vm' = service_step range w_range e vm.

#[export] Instance service_server : Server ServiceManager serviceCmd serviceReply serviceClock := {|
  srv_cap := 1000;
  srv_handle e cmd := serves (service_handleCommand range w_range (vx_t1 e) (vx_t2 e) (vx_t3 e) (vx_t4 e) (vx_now e) (vx_t e) (vx_t' e) cmd);
  srv_bg := service_bg |}.

Definition serviceActor : Type := actor ServiceManager serviceCmd serviceReply.
Definition service_Start (maxServices serviceTimeout : Z) : serviceActor := actor_start (NewServiceManager maxServices serviceTimeout).
Definition service_commandLoop : serviceClock → serviceActor → option serviceActor := actor_turn.

Context (Hrange : range_order range) (Hw : range_order w_range).

(** In every interleaving, the services are consistent: the credit of each
    worker and its requests in hand add up to its window. *)
Theorem service_manager_runs (maxServices serviceTimeout : Z) ls s :
  actor_run (service_Start maxServices serviceTimeout) ls s → services_ok (at_state s).
Proof.
  intros Hrun. eapply (actor_invariant services_ok (fun _ => True)); [exact Hrun|..]; try done.
  - split; cbn; [rewrite map_size_empty; lia|unfold requests_cap, len; cbn; lia|unfold requests_cap, len; cbn; lia|apply map_Forall_empty].
  - intros e c vm r vm' _ Hok. cbn. unfold serves.
    pose proof (service_command_ok range Hrange w_range Hw vm (vx_t1 e) (vx_t2 e) (vx_t3 e) (vx_t4 e) (vx_now e) (vx_t e) (vx_t' e) c Hok) as H.
    destruct (service_handleCommand _ _ _ _ _ _ _ _ _ c vm) as [[] ?]; try done. by intros [= _ <-].
  - intros vm vm' (e & _ & ->) Hok. by apply service_step_ok.
Qed.

Lemma service_restore_hangs (maxServices serviceTimeout : Z) ls s id name c credit :
  actor_run (service_Start maxServices serviceTimeout) ls s → (id, vc_restore_credit name c credit) ∈ called ls → id ∉ returned ls.
Proof. intros Hrun. eapply actor_unanswered; [exact Hrun|]. cbn. unfold serves. cbn. naive_solver. Qed.
End services.

(** ** A run *)

(** Two calls; the first is served and returns, the second waits in the queue
    when the goroutine has seen the cancelled context. *)
Definition demo_credit : Server creditState creditCmd creditReply Z := credit_server map_to_list.

Definition demo_call (id : nat) (c : creditCmd) (s : creditActor) : creditActor := (@actor_call _ _ _ _ demo_credit true id c s).2.
Definition demo_s1 : creditActor := demo_call 0 (set_window_size 50) (credit_Start 100).
Definition demo_s2 : creditActor := demo_call 1 (get_client_credit (gs "c")) demo_s1.
Definition demo_s3 : creditActor := default demo_s2 (@actor_turn _ _ _ _ demo_credit 7 demo_s2).
Definition demo_s4 : creditActor := match actor_return 0 demo_s3 with Some (_, s) => s | None => demo_s3 end.
Definition demo_s5 : creditActor := default demo_s4 (actor_exit (actor_cancel demo_s4)).
Definition demo_labels : list (@label creditCmd creditReply Z) :=
  [LCall 0 (set_window_size 50); LCall 1 (get_client_credit (gs "c")); LServe 7 0 (set_window_size 50) (Some ReplyNil);
   LReturn 0 ReplyNil; LStop; LStop].

Lemma demo_run : @actor_run _ _ _ _ demo_credit (credit_Start 100) demo_labels demo_s5.
Proof.
  eapply run_cons; [apply (a_call true); [apply not_elem_of_empty|reflexivity]|].
  eapply run_cons; [apply (a_call true); [apply (bool_decide_unpack _); vm_compute; exact I|reflexivity]|].
  eapply run_cons; [eapply a_serve; reflexivity|].
  eapply run_cons; [apply a_return; reflexivity|].
  eapply run_cons; [apply a_cancel|].
  eapply run_cons; [apply a_exit; reflexivity|]. constructor.
Qed.

Lemma actor_linearizes_witness :
  called demo_labels = served demo_labels ++ [(1%nat, get_client_credit (gs "c"))] ∧ returned demo_labels = [0%nat] ∧
  ∀ ls s, @actor_run _ _ _ _ demo_credit demo_s5 ls s → 1%nat ∉ returned ls.
Proof.
  pose proof (actor_linearizes (srv := demo_credit) _ demo_labels demo_s5 demo_run) as (H1 & _ & _ & _ & _ & H6).
  split_and!; [exact H1|reflexivity|].
  apply (H6 1%nat (get_client_credit (gs "c"))); [left|reflexivity].
Defined.
