(* ===== verification/MlmBroker.v ===== *)
(** * MlmBroker: the Malamute broker over its subsystems (src/malamute/broker.go)

    The broker decodes what arrives on its ROUTER socket and forwards it to
    the credit controller, the streams, the mailboxes and the services; what
    it answers goes through a channel of responses. The state is the broker's
    own (clients, statistics, sequence counter, channels) and that of the four
    subsystems; every handler is one definition over it. The loops of the
    goroutines take one item at a time from a channel. [t] gives the clock
    readings of a handler in the order it makes them. The codecs of four
    messages (ping, pong, service request, credit confirmation) that the
    handlers call but the package does not define are parameters, and so is
    the text of an error. *)

From Stdlib Require Import Strings.Byte ZArith Lia.
From stdpp Require Import base strings numbers gmap list.
From S2P Require Import Prelude Reader MlmMessage MlmCredit MlmMailbox MlmStream MlmService.

#[local] Open Scope Z_scope.
#[local] Set Default Goal Selector "!".

Definition MessageTypeConnectionOpen : byte := x01.
Definition MessageTypeConnectionPing : byte := x02.
Definition MessageTypeConnectionPong : byte := x03.
Definition MessageTypeConnectionClose : byte := x04.
Definition MessageTypeStreamWrite : byte := x0a.
Definition MessageTypeStreamRead : byte := x0b.
Definition MessageTypeStreamCancel : byte := x0d.
Definition MessageTypeMailboxSend : byte := x14.
Definition MessageTypeMailboxReceive : byte := x15.
Definition MessageTypeServiceOffer : byte := x1e.
Definition MessageTypeServiceWithdraw : byte := x1f.
Definition MessageTypeServiceRequest : byte := x20.
Definition MessageTypeServiceReply : byte := x21.
Definition MessageTypeCreditRequest : byte := x28.
Definition MessageTypeCreditConfirm : byte := x29.

Definition ErrorCodeInvalidMessage : Z := 1.
Definition ErrorCodeInternalError : Z := 5.
Definition ErrorCodeNotImplemented : Z := 6.
Definition ErrorCodeQuotaExceeded : Z := 8.

Record mlmClient : Type := mkClient {
  cl_ID : bytes;
  cl_Type : Z;
  cl_Address : bytes;
  cl_Credit : Z;
  cl_Attributes : gmap bytes bytes;
  cl_ConnectedAt : Z;
  cl_LastActivity : Z }.

(** The counters of [Statistics] that the broker writes. *)
Record mlmStats : Type := mkMlmStats {
  ms_TotalConnections : Z;
  ms_ActiveConnections : Z;
  ms_MessagesReceived : Z;
  ms_MessagesSent : Z;
  ms_BytesReceived : Z;
  ms_BytesSent : Z;
  ms_StreamMessages : Z;
  ms_StreamBytes : Z;
  ms_MailboxMessages : Z;
  ms_MailboxBytes : Z;
  ms_ServicesRegistered : Z;
  ms_ServiceRequests : Z;
  ms_ServiceReplies : Z;
  ms_LastUpdate : Z }.

Record ServiceRequestMessage : Type := mkServiceRequest {
  rm_Service : bytes;
  rm_Method : bytes;
  rm_Tracker : bytes;
  rm_Timeout : Z;
  rm_Attributes : gmap bytes bytes;
  rm_Body : bytes }.

Record mlmBroker : Type := mkMlmBroker {
  bk_MaxConnections : Z;
  bk_ClientTimeout : Z;
  bk_credit : CreditController;
  bk_streams : StreamManager;
  bk_mailboxes : MailboxManager;
  bk_services : ServiceManager;
  bk_clients : gmap bytes mlmClient;
  bk_messages : list (bytes * mlmMessage);
  bk_responses : list (bytes * mlmMessage);
  bk_heartbeats : list bytes;
  bk_sequence : Z;
  bk_stats : mlmStats }.

(** The capacities of the channels. *)
Definition messages_cap : Z := 10000.
Definition responses_cap : Z := 10000.
Definition heartbeats_cap : Z := 1000.

Definition zero_stats : mlmStats := mkMlmStats 0 0 0 0 0 0 0 0 0 0 0 0 0 0.

Definition NewMlmBroker (CreditWindow MaxConnections MaxStreams MaxMailboxes MaxServices
    ClientTimeout ServiceTimeout StreamRetention MailboxRetention : Z) : mlmBroker :=
  mkMlmBroker MaxConnections ClientTimeout (NewCreditController CreditWindow) (NewStreamManager MaxStreams StreamRetention)
    (NewMailboxManager MaxMailboxes MailboxRetention) (NewServiceManager MaxServices ServiceTimeout) ∅ [] [] [] 0 zero_stats.

Definition set_bk_clients (m : gmap bytes mlmClient) (b : mlmBroker) : mlmBroker :=
  mkMlmBroker (bk_MaxConnections b) (bk_ClientTimeout b) (bk_credit b) (bk_streams b) (bk_mailboxes b) (bk_services b)
    m (bk_messages b) (bk_responses b) (bk_heartbeats b) (bk_sequence b) (bk_stats b).
Definition set_bk_responses (l : list (bytes * mlmMessage)) (b : mlmBroker) : mlmBroker :=
  mkMlmBroker (bk_MaxConnections b) (bk_ClientTimeout b) (bk_credit b) (bk_streams b) (bk_mailboxes b) (bk_services b)
    (bk_clients b) (bk_messages b) l (bk_heartbeats b) (bk_sequence b) (bk_stats b).
Definition set_bk_messages (l : list (bytes * mlmMessage)) (b : mlmBroker) : mlmBroker :=
  mkMlmBroker (bk_MaxConnections b) (bk_ClientTimeout b) (bk_credit b) (bk_streams b) (bk_mailboxes b) (bk_services b)
    (bk_clients b) l (bk_responses b) (bk_heartbeats b) (bk_sequence b) (bk_stats b).
Definition set_bk_heartbeats (l : list bytes) (b : mlmBroker) : mlmBroker :=
  mkMlmBroker (bk_MaxConnections b) (bk_ClientTimeout b) (bk_credit b) (bk_streams b) (bk_mailboxes b) (bk_services b)
    (bk_clients b) (bk_messages b) (bk_responses b) l (bk_sequence b) (bk_stats b).
Definition set_bk_stats (s : mlmStats) (b : mlmBroker) : mlmBroker :=
  mkMlmBroker (bk_MaxConnections b) (bk_ClientTimeout b) (bk_credit b) (bk_streams b) (bk_mailboxes b) (bk_services b)
    (bk_clients b) (bk_messages b) (bk_responses b) (bk_heartbeats b) (bk_sequence b) s.

(** Running a call on a subsystem. *)
Definition on_credit {A} (m : M CreditController A) : M mlmBroker A := fun b =>
  let '(r, k) := m (bk_credit b) in
  (r, mkMlmBroker (bk_MaxConnections b) (bk_ClientTimeout b) k (bk_streams b) (bk_mailboxes b) (bk_services b)
        (bk_clients b) (bk_messages b) (bk_responses b) (bk_heartbeats b) (bk_sequence b) (bk_stats b)).
Definition on_streams {A} (m : M StreamManager A) : M mlmBroker A := fun b =>
  let '(r, s) := m (bk_streams b) in
  (r, mkMlmBroker (bk_MaxConnections b) (bk_ClientTimeout b) (bk_credit b) s (bk_mailboxes b) (bk_services b)
        (bk_clients b) (bk_messages b) (bk_responses b) (bk_heartbeats b) (bk_sequence b) (bk_stats b)).
Definition on_mailboxes {A} (m : M MailboxManager A) : M mlmBroker A := fun b =>
  let '(r, s) := m (bk_mailboxes b) in
  (r, mkMlmBroker (bk_MaxConnections b) (bk_ClientTimeout b) (bk_credit b) (bk_streams b) s (bk_services b)
        (bk_clients b) (bk_messages b) (bk_responses b) (bk_heartbeats b) (bk_sequence b) (bk_stats b)).
Definition on_services {A} (m : M ServiceManager A) : M mlmBroker A := fun b =>
  let '(r, s) := m (bk_services b) in
  (r, mkMlmBroker (bk_MaxConnections b) (bk_ClientTimeout b) (bk_credit b) (bk_streams b) (bk_mailboxes b) s
        (bk_clients b) (bk_messages b) (bk_responses b) (bk_heartbeats b) (bk_sequence b) (bk_stats b)).

(** [queueResponse]: a full channel drops the response. *)
Definition queueResponse (clientID : bytes) (message : mlmMessage) : M mlmBroker unit := mupd (fun b =>
  if decide (len (bk_responses b) < responses_cap) then set_bk_responses (bk_responses b ++ [(clientID, message)]) b else b).

Definition nextSequence : M mlmBroker Z := fun b =>
  let n := wrapu 32 (bk_sequence b + 1) in
  (Ret n, mkMlmBroker (bk_MaxConnections b) (bk_ClientTimeout b) (bk_credit b) (bk_streams b) (bk_mailboxes b) (bk_services b)
            (bk_clients b) (bk_messages b) (bk_responses b) (bk_heartbeats b) n (bk_stats b)).

Definition updateClientActivity (now : Z) (clientID : bytes) : M mlmBroker unit := mupd (fun b =>
  match bk_clients b !! clientID with
  | Some c => set_bk_clients (<[clientID := mkClient (cl_ID c) (cl_Type c) (cl_Address c) (cl_Credit c) (cl_Attributes c)
                                              (cl_ConnectedAt c) now]> (bk_clients b)) b
  | None => b
  end).

(** How a call of [RequestCredit] goes: the controller answers in time, its
    channel is full, or the five seconds pass first. *)
Inductive creditWait : Type := CWAnswered (now now' : Z) | CWFull | CWTimeout.

Definition RequestCredit (w : creditWait) (clientID : bytes) (amount : Z) : M CreditController CreditResponse :=
  match w with
  | CWAnswered now now' =>
      resp ← processRequest now now' clientID amount;
      match re_Error resp with Some e => mfail e | None => mret resp end
  | CWFull => mfail (Errorf "credit request queue full")
  | CWTimeout => mfail (Errorf "credit request timeout")
  end.

Section broker.
Context (ParseDuration : bytes → option Z) (error_text : error → bytes).
Context (ConnectionPing_Unmarshal : bytes → option Z) (ConnectionPong_Marshal : Z → bytes).
Context (ServiceRequest_Unmarshal : bytes → option ServiceRequestMessage) (CreditConfirm_Marshal : Z → bytes).
Context (a_range : gmap bytes bytes → list (bytes * bytes)).
Context (k_range : gmap bytes ClientCredit → list (bytes * ClientCredit)).
Context (s_range : gmap bytes Stream → list (bytes * Stream)).
Context (subs_range : gmap bytes StreamSubscription → list (bytes * StreamSubscription)).
Context (m_range : gmap bytes Mailbox → list (bytes * Mailbox)).
Context (v_range : gmap bytes mlmService → list (bytes * mlmService)).
Context (w_range : gmap bytes ServiceWorker → list (bytes * ServiceWorker)).
Context (c_range : gmap bytes mlmClient → list (bytes * mlmClient)).

Definition sendError (clientID : bytes) (code : Z) (reason : bytes) (sequence : Z) : M mlmBroker unit :=
  queueResponse clientID (CreateErrorMessage a_range code reason clientID sequence).

(** Decoding a body into a fresh value. *)
Definition unmarshal {T} (f : bytes → M T unit) (zero : T) (body : bytes) : option T :=
  match f body zero with (Ret _, v) => Some v | _ => None end.

(** A call whose error is reported to the client; [ok] runs when there is none. *)
Definition reporting {A} (clientID : bytes) (sequence : Z) (call : M mlmBroker A) (ok : A → M mlmBroker unit) : M mlmBroker unit :=
  r ← try call;
  match r with
  | inl a => ok a
  | inr e => sendError clientID ErrorCodeInternalError (error_text e) sequence
  end.

Definition handleConnectionOpen (t : nat → Z) (clientID : bytes) (message : mlmMessage) : M mlmBroker unit :=
  match unmarshal ConnectionOpen_Unmarshal zero_co (ml_Body message) with
  | None => sendError clientID ErrorCodeInvalidMessage (gs "Invalid connection open message") (ml_Sequence message)
  | Some openMsg =>
      b ← mget;
      if decide (bk_MaxConnections b <= Z.of_nat (size (bk_clients b))) then
        sendError clientID ErrorCodeQuotaExceeded (gs "Maximum connections exceeded") (ml_Sequence message)
      else
        mupd (fun b =>
          let s := bk_stats b in
          set_bk_stats (mkMlmStats (u64 (ms_TotalConnections s + 1)) (u64 (ms_ActiveConnections s + 1)) (ms_MessagesReceived s)
              (ms_MessagesSent s) (ms_BytesReceived s) (ms_BytesSent s) (ms_StreamMessages s) (ms_StreamBytes s)
              (ms_MailboxMessages s) (ms_MailboxBytes s) (ms_ServicesRegistered s) (ms_ServiceRequests s) (ms_ServiceReplies s) (ms_LastUpdate s))
            (set_bk_clients (<[clientID := mkClient (co_ClientID openMsg) (co_ClientType openMsg) clientID 0
                                             (co_Attributes openMsg) (t 0%nat) (t 1%nat)]> (bk_clients b)) b))
  end.

Definition handleConnectionPing (clientID : bytes) (message : mlmMessage) : M mlmBroker unit :=
  match ConnectionPing_Unmarshal (ml_Body message) with
  | None => mret tt
  | Some timestamp =>
      seq ← nextSequence;
      queueResponse clientID (set_ml_Body (ConnectionPong_Marshal timestamp) (CreateMessage MessageTypeConnectionPong clientID seq));;
      mupd (fun b => if decide (len (bk_heartbeats b) < heartbeats_cap) then set_bk_heartbeats (bk_heartbeats b ++ [clientID]) b else b)
  end.

(** [removeClient]: the client and what the subsystems keep for it. *)
Definition removeClient (clock : bytes → Z) (clientID : bytes) : M mlmBroker unit :=
  b ← mget;
  match bk_clients b !! clientID with
  | None => mret tt
  | Some _ =>
      mupd (fun b =>
        let s := bk_stats b in
        set_bk_stats (mkMlmStats (ms_TotalConnections s) (u64 (ms_ActiveConnections s - 1)) (ms_MessagesReceived s)
            (ms_MessagesSent s) (ms_BytesReceived s) (ms_BytesSent s) (ms_StreamMessages s) (ms_StreamBytes s)
            (ms_MailboxMessages s) (ms_MailboxBytes s) (ms_ServicesRegistered s) (ms_ServiceRequests s) (ms_ServiceReplies s) (ms_LastUpdate s))
          (set_bk_clients (delete clientID (bk_clients b)) b));;
      on_credit (_ ← handleCommand k_range 0 (remove_client clientID); mret tt);;
      on_streams (_ ← stream_RemoveClient s_range clock clientID; mret tt);;
      on_mailboxes (_ ← mailbox_RemoveClient m_range clientID; mret tt);;
      on_services (_ ← service_RemoveClient v_range w_range clientID; mret tt)
  end.

Definition handleConnectionClose (clock : bytes → Z) (clientID : bytes) (message : mlmMessage) : M mlmBroker unit :=
  removeClient clock clientID.

Definition handleStreamWrite (now : Z) (clientID : bytes) (message : mlmMessage) : M mlmBroker unit :=
  b ← mget;
  if negb (CheckCredit clientID 1 (bk_credit b)) then
    sendError clientID ErrorCodeQuotaExceeded (gs "Insufficient credit") (ml_Sequence message)
  else match unmarshal StreamWrite_Unmarshal zero_sw (ml_Body message) with
  | None => sendError clientID ErrorCodeInvalidMessage (gs "Invalid stream write message") (ml_Sequence message)
  | Some w =>
      _ ← try (on_credit (UseCredit clientID 1));
      reporting clientID (ml_Sequence message)
        (on_streams (WriteMessage now (sw_Stream w) (sw_Subject w) clientID (sw_Body w) (sw_Attributes w)))
        (fun _ => mupd (fun b =>
           let s := bk_stats b in
           set_bk_stats (mkMlmStats (ms_TotalConnections s) (ms_ActiveConnections s) (ms_MessagesReceived s)
              (ms_MessagesSent s) (ms_BytesReceived s) (ms_BytesSent s) (u64 (ms_StreamMessages s + 1)) (u64 (ms_StreamBytes s + u64 (len (sw_Body w))))
              (ms_MailboxMessages s) (ms_MailboxBytes s) (ms_ServicesRegistered s) (ms_ServiceRequests s) (ms_ServiceReplies s) (ms_LastUpdate s)) b))
  end.

Definition handleStreamRead (t : nat → Z) (clientID : bytes) (message : mlmMessage) : M mlmBroker unit :=
  match unmarshal StreamRead_Unmarshal zero_sr (ml_Body message) with
  | None => sendError clientID ErrorCodeInvalidMessage (gs "Invalid stream read message") (ml_Sequence message)
  | Some r =>
      reporting clientID (ml_Sequence message)
        (on_streams (Subscribe s_range (t 0%nat) (t 1%nat) (t 2%nat) clientID (sr_Stream r) (sr_Pattern r) (sr_Attributes r)))
        (fun _ => mret tt)
  end.

(** Handlers whose body is a comment. *)
Definition handleStreamCancel (clientID : bytes) (message : mlmMessage) : M mlmBroker unit := mret tt.
Definition handleMailboxReceive (clientID : bytes) (message : mlmMessage) : M mlmBroker unit := mret tt.
Definition handleServiceWithdraw (clientID : bytes) (message : mlmMessage) : M mlmBroker unit := mret tt.

(** [time.Duration(x)*time.Millisecond] *)
Definition milliseconds (x : Z) : Z := wraps 64 (wraps 64 x * 1000000).

Definition handleMailboxSend (now : Z) (clientID : bytes) (message : mlmMessage) : M mlmBroker unit :=
  match unmarshal MailboxSend_Unmarshal zero_ms (ml_Body message) with
  | None => sendError clientID ErrorCodeInvalidMessage (gs "Invalid mailbox send message") (ml_Sequence message)
  | Some m =>
      reporting clientID (ml_Sequence message)
        (on_mailboxes (SendMessage now (ms_Address m) (ms_Subject m) clientID (ms_Tracker m) (ms_Body m) (ms_Attributes m)
                         (milliseconds (ms_Timeout m))))
        (fun _ => mupd (fun b =>
           let s := bk_stats b in
           set_bk_stats (mkMlmStats (ms_TotalConnections s) (ms_ActiveConnections s) (ms_MessagesReceived s)
              (ms_MessagesSent s) (ms_BytesReceived s) (ms_BytesSent s) (ms_StreamMessages s) (ms_StreamBytes s)
              (u64 (ms_MailboxMessages s + 1)) (u64 (ms_MailboxBytes s + u64 (len (ms_Body m)))) (ms_ServicesRegistered s) (ms_ServiceRequests s)
              (ms_ServiceReplies s) (ms_LastUpdate s)) b))
  end.

Definition handleServiceOffer (t : nat → Z) (clientID : bytes) (message : mlmMessage) : M mlmBroker unit :=
  match unmarshal ServiceOffer_Unmarshal zero_so (ml_Body message) with
  | None => sendError clientID ErrorCodeInvalidMessage (gs "Invalid service offer message") (ml_Sequence message)
  | Some o =>
      reporting clientID (ml_Sequence message)
        (on_services (RegisterWorker v_range w_range (t 0%nat) (t 1%nat) (t 2%nat) (t 3%nat) (t 4%nat) (t 5%nat) (t 6%nat)
                        (so_Service o) clientID (so_Pattern o) (so_Attributes o)))
        (fun _ => mupd (fun b =>
           let s := bk_stats b in
           set_bk_stats (mkMlmStats (ms_TotalConnections s) (ms_ActiveConnections s) (ms_MessagesReceived s)
              (ms_MessagesSent s) (ms_BytesReceived s) (ms_BytesSent s) (ms_StreamMessages s) (ms_StreamBytes s)
              (ms_MailboxMessages s) (ms_MailboxBytes s) (u64 (ms_ServicesRegistered s + 1)) (ms_ServiceRequests s) (ms_ServiceReplies s) (ms_LastUpdate s)) b))
  end.

Definition handleServiceRequest (now : Z) (clientID : bytes) (message : mlmMessage) : M mlmBroker unit :=
  match ServiceRequest_Unmarshal (ml_Body message) with
  | None => sendError clientID ErrorCodeInvalidMessage (gs "Invalid service request message") (ml_Sequence message)
  | Some r =>
      reporting clientID (ml_Sequence message)
        (on_services (ProcessRequest now (rm_Service r) (rm_Method r) clientID (rm_Tracker r) (rm_Body r) (rm_Attributes r)
                        (milliseconds (rm_Timeout r))))
        (fun _ => mupd (fun b =>
           let s := bk_stats b in
           set_bk_stats (mkMlmStats (ms_TotalConnections s) (ms_ActiveConnections s) (ms_MessagesReceived s)
              (ms_MessagesSent s) (ms_BytesReceived s) (ms_BytesSent s) (ms_StreamMessages s) (ms_StreamBytes s)
              (ms_MailboxMessages s) (ms_MailboxBytes s) (ms_ServicesRegistered s) (u64 (ms_ServiceRequests s + 1)) (ms_ServiceReplies s) (ms_LastUpdate s)) b))
  end.

(** Only a counter: the reply goes nowhere. *)
Definition handleServiceReply (clientID : bytes) (message : mlmMessage) : M mlmBroker unit := mupd (fun b =>
  let s := bk_stats b in
  set_bk_stats (mkMlmStats (ms_TotalConnections s) (ms_ActiveConnections s) (ms_MessagesReceived s)
     (ms_MessagesSent s) (ms_BytesReceived s) (ms_BytesSent s) (ms_StreamMessages s) (ms_StreamBytes s)
     (ms_MailboxMessages s) (ms_MailboxBytes s) (ms_ServicesRegistered s) (ms_ServiceRequests s) (u64 (ms_ServiceReplies s + 1)) (ms_LastUpdate s)) b).

Definition handleCreditRequest (w : creditWait) (clientID : bytes) (message : mlmMessage) : M mlmBroker unit :=
  match unmarshal CreditRequest_Unmarshal (mkCreditRequest 0) (ml_Body message) with
  | None => sendError clientID ErrorCodeInvalidMessage (gs "Invalid credit request message") (ml_Sequence message)
  | Some c =>
      reporting clientID (ml_Sequence message) (on_credit (RequestCredit w clientID (cr_Credit c)))
        (fun resp =>
           seq ← nextSequence;
           queueResponse clientID (set_ml_Body (CreditConfirm_Marshal (re_Granted resp)) (CreateMessage MessageTypeCreditConfirm clientID seq)))
  end.

(** What the environment decides while one message is processed: the clock
    readings of the handler and the fate of a credit request. *)
Record handling : Type := mkHandling { h_now : Z; h_t : nat → Z; h_clock : bytes → Z; h_wait : creditWait }.

Definition mlm_processClientMessage (h : handling) (clientID : bytes) (message : mlmMessage) : M mlmBroker unit :=
  let ty := ml_Type message in
  updateClientActivity (h_now h) clientID;;
  if decide (ty = MessageTypeConnectionOpen) then handleConnectionOpen (h_t h) clientID message
  else if decide (ty = MessageTypeConnectionPing) then handleConnectionPing clientID message
  else if decide (ty = MessageTypeConnectionClose) then handleConnectionClose (h_clock h) clientID message
  else if decide (ty = MessageTypeStreamWrite) then handleStreamWrite (h_t h 0%nat) clientID message
  else if decide (ty = MessageTypeStreamRead) then handleStreamRead (h_t h) clientID message
  else if decide (ty = MessageTypeStreamCancel) then handleStreamCancel clientID message
  else if decide (ty = MessageTypeMailboxSend) then handleMailboxSend (h_t h 0%nat) clientID message
  else if decide (ty = MessageTypeMailboxReceive) then handleMailboxReceive clientID message
  else if decide (ty = MessageTypeServiceOffer) then handleServiceOffer (h_t h) clientID message
  else if decide (ty = MessageTypeServiceWithdraw) then handleServiceWithdraw clientID message
  else if decide (ty = MessageTypeServiceRequest) then handleServiceRequest (h_t h 0%nat) clientID message
  else if decide (ty = MessageTypeServiceReply) then handleServiceReply clientID message
  else if decide (ty = MessageTypeCreditRequest) then handleCreditRequest (h_wait h) clientID message
  else sendError clientID ErrorCodeNotImplemented (gs "Message type not implemented") (ml_Sequence message).

(** One turn of [socketLoop] on the frames received. *)
Definition socketLoop (frames : list bytes) : M mlmBroker unit :=
  match frames with
  | clientID :: messageData :: _ =>
      match Message_Unmarshal messageData zero_ml with
      | (Ret _, message) =>
          b ← mget;
          if decide (len (bk_messages b) < messages_cap) then
            mupd (fun b =>
              let s := bk_stats b in
              set_bk_stats (mkMlmStats (ms_TotalConnections s) (ms_ActiveConnections s) (u64 (ms_MessagesReceived s + 1))
                 (ms_MessagesSent s) (u64 (ms_BytesReceived s + u64 (len messageData))) (ms_BytesSent s) (ms_StreamMessages s) (ms_StreamBytes s)
                 (ms_MailboxMessages s) (ms_MailboxBytes s) (ms_ServicesRegistered s) (ms_ServiceRequests s) (ms_ServiceReplies s) (ms_LastUpdate s))
                (set_bk_messages (bk_messages b ++ [(clientID, message)]) b))
          else sendError clientID ErrorCodeInternalError (gs "Message queue full") (ml_Sequence message)
      | _ => sendError clientID ErrorCodeInvalidMessage (gs "Invalid message format") 0
      end
  | _ => mret tt
  end.

(** One turn of [messageLoop], and of [heartbeatLoop] for an event. *)
Definition messageLoop (h : handling) : M mlmBroker unit := fun b =>
  match bk_messages b with
  | [] => (Ret tt, b)
  | (clientID, message) :: rest => mlm_processClientMessage h clientID message (set_bk_messages rest b)
  end.

Definition processHeartbeat (now : Z) : M mlmBroker unit := fun b =>
  match bk_heartbeats b with
  | [] => (Ret tt, b)
  | clientID :: rest => updateClientActivity now clientID (set_bk_heartbeats rest b)
  end.

(** [sendResponse]: what goes to the ROUTER socket; [sent] is its verdict. *)
Definition sendResponse (sent : bool) : M mlmBroker (option (bytes * bytes)) := fun b =>
  match bk_responses b with
  | [] => (Ret None, b)
  | (clientID, message) :: rest =>
      let b := set_bk_responses rest b in
      match Message_Marshal a_range message with
      | Ret data =>
          (Ret (Some (clientID, data)),
           if sent then
             let s := bk_stats b in
             set_bk_stats (mkMlmStats (ms_TotalConnections s) (ms_ActiveConnections s) (ms_MessagesReceived s)
                (u64 (ms_MessagesSent s + 1)) (ms_BytesReceived s) (u64 (ms_BytesSent s + u64 (len data))) (ms_StreamMessages s) (ms_StreamBytes s)
                (ms_MailboxMessages s) (ms_MailboxBytes s) (ms_ServicesRegistered s) (ms_ServiceRequests s) (ms_ServiceReplies s) (ms_LastUpdate s)) b
           else b)
      | _ => (Ret None, b)
      end
  end.

(** [checkClientTimeouts]: drops clients, and only them. *)
Definition checkClientTimeouts (now : Z) : M mlmBroker unit := mupd (fun b =>
  let cutoff := now - bk_ClientTimeout b in
  let dropped := filter (fun kv => cl_LastActivity kv.2 < cutoff) (c_range (bk_clients b)) in
  let s := bk_stats b in
  set_bk_stats (mkMlmStats (ms_TotalConnections s) (u64 (ms_ActiveConnections s - len dropped)) (ms_MessagesReceived s)
     (ms_MessagesSent s) (ms_BytesReceived s) (ms_BytesSent s) (ms_StreamMessages s) (ms_StreamBytes s)
     (ms_MailboxMessages s) (ms_MailboxBytes s) (ms_ServicesRegistered s) (ms_ServiceRequests s) (ms_ServiceReplies s) (ms_LastUpdate s))
    (set_bk_clients (sweep (fun _ c => if decide (cl_LastActivity c < cutoff) then None else Some c) (c_range (bk_clients b)) (bk_clients b)) b)).

(** [calculateStatistics] and the two commands. *)
Definition mlm_calculateStatistics (now : Z) (b : mlmBroker) : mlmStats :=
  let s := bk_stats b in
  mkMlmStats (ms_TotalConnections s) (Z.of_nat (size (bk_clients b))) (ms_MessagesReceived s)
     (ms_MessagesSent s) (ms_BytesReceived s) (ms_BytesSent s) (ms_StreamMessages s) (ms_StreamBytes s)
     (ms_MailboxMessages s) (ms_MailboxBytes s) (ms_ServicesRegistered s) (ms_ServiceRequests s) (ms_ServiceReplies s) now.

Definition mlm_GetStatistics (now : Z) : M mlmBroker mlmStats := b ← mget; mret (mlm_calculateStatistics now b).
Definition mlm_GetClients : M mlmBroker (gmap bytes mlmClient) :=
  b ← mget; mret (foldl (fun m kv => <[kv.1 := kv.2]> m) ∅ (c_range (bk_clients b))).
End broker.
