(* ===== verification/MlmBrokerFacts.v ===== *)
(** * MlmBrokerFacts: what the Malamute broker guarantees as a whole

    The invariants of the four subsystems hold together in every state of
    the broker; a client's stream writes are paid with credit; closing a
    connection removes every trace of the client, a timeout does not. *)

From Stdlib Require Import Strings.Byte ZArith Lia.
From stdpp Require Import base strings numbers gmap list.
From S2P Require Import Prelude Reader MlmMessage MlmCredit MlmMailbox MlmStream MlmService MlmBroker.

#[local] Open Scope Z_scope.
#[local] Set Default Goal Selector "!".

(** ** Histories *)

Inductive mlmEvent : Type :=
| BSocket (frames : list bytes)
| BMessage (h : handling)
| BHeartbeat (now : Z)
| BRespond (sent : bool)
| BTimeouts (now : Z)
| BPublish (t1 t2 t3 : Z)
| BStreamCleanup (now : Z) (clock : bytes → Z)
| BDeliver (t1 t2 t3 : Z)
| BMailCleanup (now : Z) (clock : bytes → Z)
| BServiceTurn (now now' : Z)
| BServiceCleanup (now : Z) (clock : bytes → Z)
| BCreditCleanup (now : Z).

Section facts.
Context (ParseDuration : bytes → option Z) (error_text : error → bytes).
Context (ConnectionPing_Unmarshal : bytes → option Z) (ConnectionPong_Marshal : Z → bytes).
Context (ServiceRequest_Unmarshal : bytes → option ServiceRequestMessage) (CreditConfirm_Marshal : Z → bytes).
Context (a_range : gmap bytes bytes → list (bytes * bytes)).
Context (k_range : gmap bytes ClientCredit → list (bytes * ClientCredit)).
Context (s_range : gmap bytes Stream → list (bytes * Stream)).
Context (subs_range : gmap bytes StreamSubscription → list (bytes * StreamSubscription)).
Context (m_range : gmap bytes Mailbox → list (bytes * Mailbox)).
Context (v_range : gmap bytes mlmService → list (bytes * mlmService)).
Context (w_range : gmap bytes ServiceWorker → list (bytes * ServiceWorker)).
Context (c_range : gmap bytes mlmClient → list (bytes * mlmClient)).

(** The goroutines of the broker and of its subsystems, one turn at a time. *)
Definition mlm_event (e : mlmEvent) : M mlmBroker unit :=
  match e with
  | BSocket frames => socketLoop a_range frames
  | BMessage h => messageLoop error_text ConnectionPing_Unmarshal ConnectionPong_Marshal ServiceRequest_Unmarshal
                    CreditConfirm_Marshal a_range k_range s_range m_range v_range w_range h
  | BHeartbeat now => processHeartbeat now
  | BRespond sent => _ ← sendResponse a_range sent; mret tt
  | BTimeouts now => checkClientTimeouts c_range now
  | BPublish t1 t2 t3 => _ ← on_streams (publicationLoop ParseDuration subs_range t1 t2 t3); mret tt
  | BStreamCleanup now clock => on_streams (stream_cleanupExpiredMessages s_range now clock)
  | BDeliver t1 t2 t3 => on_mailboxes (deliveryLoop t1 t2 t3)
  | BMailCleanup now clock => on_mailboxes (cleanupExpiredMessages m_range now clock)
  | BServiceTurn now now' => _ ← on_services (requestLoop w_range now now'); mret tt
  | BServiceCleanup now clock => on_services (cleanupExpiredRequests v_range now clock)
  | BCreditCleanup now => on_credit (cleanupInactiveClients k_range now)
  end.

Definition mlm_step (e : mlmEvent) (b : mlmBroker) : mlmBroker := (mlm_event e b).2.
Definition mlm_run (es : list mlmEvent) (b : mlmBroker) : mlmBroker := foldl (fun b e => mlm_step e b) b es.

(** ** The invariant *)

Record mlm_ok (w n : Z) (b : mlmBroker) : Prop := {
  mb_ok_credit : credits_ok w (bk_credit b);
  mb_ok_streams : streams_ok n (bk_streams b);
  mb_ok_mailboxes : manager_ok (bk_mailboxes b);
  mb_ok_services : services_ok (bk_services b);
  mb_ok_clients : Z.of_nat (size (bk_clients b)) <= Z.max 0 (bk_MaxConnections b);
  mb_ok_messages : len (bk_messages b) <= messages_cap;
  mb_ok_responses : len (bk_responses b) <= responses_cap;
  mb_ok_heartbeats : len (bk_heartbeats b) <= heartbeats_cap }.

Context (Hs : range_order s_range) (Hsub : range_order subs_range) (Hm : range_order m_range).
Context (Hv : range_order v_range) (Hw : range_order w_range) (Hc : range_order c_range).

Section keeping.
Context (w n : Z) (Hbound : w < 2 ^ 31) (Hn : 0 <= n).

Lemma keeps_on_credit {A} (m : M CreditController A) : keeps (credits_ok w) m → keeps (mlm_ok w n) (on_credit m).
Proof. intros Hk b [H1 H2 H3 H4 H5 H6 H7 H8]. unfold on_credit. specialize (Hk _ H1). destruct (m (bk_credit b)). by split. Qed.
Lemma keeps_on_streams {A} (m : M StreamManager A) : keeps (streams_ok n) m → keeps (mlm_ok w n) (on_streams m).
Proof. intros Hk b [H1 H2 H3 H4 H5 H6 H7 H8]. unfold on_streams. specialize (Hk _ H2). destruct (m (bk_streams b)). by split. Qed.
Lemma keeps_on_mailboxes {A} (m : M MailboxManager A) : keeps manager_ok m → keeps (mlm_ok w n) (on_mailboxes m).
Proof. intros Hk b [H1 H2 H3 H4 H5 H6 H7 H8]. unfold on_mailboxes. specialize (Hk _ H3). destruct (m (bk_mailboxes b)). by split. Qed.
Lemma keeps_on_services {A} (m : M ServiceManager A) : keeps services_ok m → keeps (mlm_ok w n) (on_services m).
Proof. intros Hk b [H1 H2 H3 H4 H5 H6 H7 H8]. unfold on_services. specialize (Hk _ H4). destruct (m (bk_services b)). by split. Qed.
#[local] Hint Resolve keeps_on_credit keeps_on_streams keeps_on_mailboxes keeps_on_services : keeps.

(** The subsystems' own invariants, for the calls the broker makes. *)
Lemma keeps_credit_op o m : (∀ k, (m k).2 = credit_step k_range o k) →
  (match o with COpSetWindow _ _ => MaxCreditWindow <= w | _ => True end) → op_amount_ok o →
  keeps (credits_ok w) (A := unit) m.
Proof. intros E H1 H2 k Hk. rewrite E. by apply credit_step_ok. Qed.

Lemma keeps_RequestCredit wt c a : keeps (credits_ok w) (RequestCredit wt c a).
Proof.
  destruct wt as [now now'| |]; cbn [RequestCredit]; [|by intros k..].
  apply keeps_bind; [|intros resp; destruct (re_Error resp); auto with keeps].
  intros k Hk. by apply request_ok.
Qed.

Lemma keeps_WriteMessage now s sj c bd at_ : keeps (streams_ok n) (WriteMessage now s sj c bd at_).
Proof.
  intros sm [H1 H2 H3 H4]. unfold WriteMessage. repeat case_decide; split; cbn; try done.
  rewrite len_app. change (len [_]) with 1. lia.
Qed.

Lemma keeps_Subscribe t1 t2 t3 c s p at_ : keeps (streams_ok n) (Subscribe s_range t1 t2 t3 c s p at_).
Proof. apply keeps_bind; [intros sm Hok; by apply stream_command_ok|]. intros [[]|]; auto with keeps. Qed.

Lemma keeps_stream_Remove clock c : keeps (streams_ok n) (stream_RemoveClient s_range clock c).
Proof. apply keeps_bind; [intros sm Hok; by apply stream_command_ok|]. intros [|]; auto with keeps. Qed.

Lemma keeps_SendMessage now a sj c tr bd at_ tm : keeps manager_ok (SendMessage now a sj c tr bd at_ tm).
Proof. intros mm Hok. exact (mail_step_ok m_range Hm (MSend now a sj c tr bd at_ tm) mm Hok). Qed.

Lemma keeps_mailbox_Remove c : keeps manager_ok (mailbox_RemoveClient m_range c).
Proof. intros mm Hok. exact (mail_step_ok m_range Hm (MRemove c) mm Hok). Qed.

Lemma keeps_service_command t1 t2 t3 t4 now t t' cmd : keeps services_ok (service_handleCommand v_range w_range t1 t2 t3 t4 now t t' cmd).
Proof. intros vm Hok. by apply service_command_ok. Qed.
#[local] Hint Resolve keeps_RequestCredit keeps_WriteMessage keeps_Subscribe keeps_stream_Remove keeps_SendMessage
  keeps_mailbox_Remove keeps_service_command : keeps.

Lemma keeps_RegisterWorker t1 t2 t3 t4 now t t' s c p at_ :
  keeps services_ok (RegisterWorker v_range w_range t1 t2 t3 t4 now t t' s c p at_).
Proof. unfold RegisterWorker. case_decide; [auto with keeps|]. apply keeps_bind; [auto with keeps|]. intros [[]|]; auto with keeps. Qed.

Lemma keeps_service_Remove c : keeps services_ok (service_RemoveClient v_range w_range c).
Proof. apply keeps_bind; [auto with keeps|]. intros [|]; auto with keeps. Qed.

Lemma keeps_ProcessRequest now s me c tr bd at_ tm : keeps services_ok (ProcessRequest now s me c tr bd at_ tm).
Proof. intros vm Hok. exact (service_step_ok v_range Hv w_range Hw (VRequest now s me c tr bd at_ tm) vm Hok). Qed.
#[local] Hint Resolve keeps_RegisterWorker keeps_service_Remove keeps_ProcessRequest : keeps.

Lemma keeps_queueResponse c m : keeps (mlm_ok w n) (queueResponse c m).
Proof.
  apply keeps_upd. intros b [H1 H2 H3 H4 H5 H6 H7 H8]. case_decide; split; try done. cbn. rewrite len_app. change (len [_]) with 1. lia.
Qed.
Lemma keeps_sendError c code r sq : keeps (mlm_ok w n) (sendError a_range c code r sq).
Proof. apply keeps_queueResponse. Qed.
Lemma keeps_nextSequence : keeps (mlm_ok w n) nextSequence.
Proof. intros b [H1 H2 H3 H4 H5 H6 H7 H8]. by split. Qed.
Lemma keeps_stats f : keeps (mlm_ok w n) (mupd (fun b => set_bk_stats (f b) b)).
Proof. apply keeps_upd. intros b [H1 H2 H3 H4 H5 H6 H7 H8]. by split. Qed.
Lemma keeps_activity now c : keeps (mlm_ok w n) (updateClientActivity now c).
Proof.
  apply keeps_upd. intros b [H1 H2 H3 H4 H5 H6 H7 H8]. destruct (bk_clients b !! c) eqn:E; [|by split]. split; try done.
  cbn. by rewrite map_size_insert_Some by by eexists.
Qed.
#[local] Hint Resolve keeps_queueResponse keeps_sendError keeps_nextSequence keeps_activity : keeps.

Lemma keeps_reporting {A} c sq (call : M mlmBroker A) ok :
  keeps (mlm_ok w n) call → (∀ a, keeps (mlm_ok w n) (ok a)) → keeps (mlm_ok w n) (reporting error_text a_range c sq call ok).
Proof. intros H1 H2. apply keeps_bind; [by apply keeps_try|]. intros [a|e]; [apply H2|apply keeps_sendError]. Qed.

Lemma keeps_open t c m : keeps (mlm_ok w n) (handleConnectionOpen a_range t c m).
Proof.
  unfold handleConnectionOpen. case_match; [|auto with keeps]. intros b Hok. unfold mbind, M_bind, mget. destruct (decide _) as [Hd|Hd]; [by apply keeps_sendError|].
  destruct Hok as [H1 H2 H3 H4 H5 H6 H7 H8]. split; cbn; try done.
  destruct (bk_clients b !! c) eqn:E; [by rewrite map_size_insert_Some by eauto|].
  rewrite map_size_insert_None by done. lia.
Qed.

Lemma keeps_ping c m : keeps (mlm_ok w n) (handleConnectionPing ConnectionPing_Unmarshal ConnectionPong_Marshal c m).
Proof.
  unfold handleConnectionPing. case_match; [|auto with keeps]. apply keeps_bind; [auto with keeps|]. intros seq.
  apply keeps_bind; [auto with keeps|]. intros _. apply keeps_upd.
  intros b [H1 H2 H3 H4 H5 H6 H7 H8]. case_decide; split; try done. cbn. rewrite len_app. change (len [_]) with 1. lia.
Qed.

Lemma keeps_remove clock c : keeps (mlm_ok w n) (removeClient k_range s_range m_range v_range w_range clock c).
Proof.
  unfold removeClient. apply keeps_bind; [auto with keeps|]. intros b0. case_match; [|auto with keeps].
  apply keeps_bind.
  { apply keeps_upd. intros b [H1 H2 H3 H4 H5 H6 H7 H8]. split; try done. cbn.
    rewrite map_size_delete. destruct (bk_clients b !! c); cbn; lia. }
  intros _. apply keeps_bind; [apply keeps_on_credit, keeps_bind; [|auto with keeps]|].
  { intros k Hk. exact (credit_step_ok k_range w Hbound (COpRemove 0 c) k I I Hk). }
  intros _. apply keeps_bind; [apply keeps_on_streams, keeps_bind; auto with keeps|].
  intros _. apply keeps_bind; [apply keeps_on_mailboxes, keeps_bind; auto with keeps|].
  intros _. apply keeps_on_services, keeps_bind; auto with keeps.
Qed.

Lemma keeps_write now c m : keeps (mlm_ok w n) (handleStreamWrite error_text a_range now c m).
Proof.
  unfold handleStreamWrite. apply keeps_bind; [auto with keeps|]. intros b0. case_match; [auto with keeps|].
  case_match; [|auto with keeps]. apply keeps_bind.
  { apply keeps_try, keeps_on_credit. intros k Hk. refine (credit_step_ok k_range w Hbound (COpUse c 1) k I _ Hk). cbn. lia. }
  intros _. apply keeps_reporting; [auto with keeps|]. intros _. apply keeps_stats.
Qed.

Lemma keeps_credit wt c m : keeps (mlm_ok w n) (handleCreditRequest error_text CreditConfirm_Marshal a_range wt c m).
Proof.
  unfold handleCreditRequest. case_match; [|auto with keeps].
  apply keeps_reporting; [auto with keeps|]. intros resp. apply keeps_bind; auto with keeps.
Qed.

Lemma keeps_message h c m :
  keeps (mlm_ok w n) (mlm_processClientMessage error_text ConnectionPing_Unmarshal ConnectionPong_Marshal ServiceRequest_Unmarshal
    CreditConfirm_Marshal a_range k_range s_range m_range v_range w_range h c m).
Proof.
  unfold mlm_processClientMessage. apply keeps_bind; [auto with keeps|]. intros _.
  repeat (case_decide; [shelve|]); auto with keeps.
  Unshelve. all: first
    [ apply keeps_open | apply keeps_ping | apply keeps_remove | apply keeps_write | apply keeps_credit
    | apply keeps_ret | apply keeps_stats | idtac ].
  - unfold handleStreamRead. case_match; [|auto with keeps]. apply keeps_reporting; auto with keeps.
  - unfold handleMailboxSend. case_match; [|auto with keeps]. apply keeps_reporting; [auto with keeps|]. intros _. apply keeps_stats.
  - unfold handleServiceOffer. case_match; [|auto with keeps]. apply keeps_reporting; [auto with keeps|]. intros _. apply keeps_stats.
  - unfold handleServiceRequest. case_match; [|auto with keeps]. apply keeps_reporting; [auto with keeps|]. intros _. apply keeps_stats.
Qed.
End keeping.

Lemma mlm_ok_mono w n n' b : n <= n' → mlm_ok w n b → mlm_ok w n' b.
Proof. intros Hn [H1 H2 H3 H4 H5 H6 H7 H8]. split; try done. by eapply streams_ok_mono. Qed.

(** The only event that adds messages to streams is a publication. *)
Lemma mlm_step_ok w n e b :
  w < 2 ^ 31 → 0 <= n → n + 1 < 2 ^ 64 → mlm_ok w n b → mlm_ok w (n + 1) (mlm_step e b).
Proof.
  intros Hbound Hn Hlim Hok. pose proof Hok as [H1 H2 H3 H4 H5 H6 H7 H8].
  assert (Hkeep : keeps (mlm_ok w n) (mlm_event e) → mlm_ok w (n + 1) (mlm_step e b)).
  { intros Hk. apply (mlm_ok_mono w n); [lia|]. by apply Hk. }
  destruct e as [frames|h|now|sent|now|t1 t2 t3|now clock|t1 t2 t3|now clock|now now'|now clock|now]; cbn [mlm_event] in Hkeep.
  - apply Hkeep. unfold socketLoop. destruct frames as [|c [|data rest]]; [auto with keeps..|].
    destruct (Message_Unmarshal data zero_ml) as [[]m]; [|apply keeps_sendError..].
    intros b' Hb'. unfold mbind, M_bind, mget. destruct (decide _) as [Hd|Hd]; [|by apply keeps_sendError].
    destruct Hb' as [? ? ? ? ? ? ? ?]. split; try done. cbn. rewrite len_app. change (len [_]) with 1. lia.
  - apply Hkeep. intros b' Hb'. unfold messageLoop. destruct (bk_messages b') as [|[c m] rest] eqn:E; [done|].
    apply keeps_message; [done|done|]. destruct Hb' as [? ? ? ? ? Hq ? ?]. split; try done. cbn. rewrite E, len_cons in Hq. lia.
  - apply Hkeep. intros b' Hb'. unfold processHeartbeat. destruct (bk_heartbeats b') as [|c rest] eqn:E; [done|].
    apply keeps_activity. destruct Hb' as [? ? ? ? ? ? ? Hq]. split; try done. cbn. rewrite E, len_cons in Hq. lia.
  - apply Hkeep. apply keeps_bind; [|auto with keeps]. intros b' Hb'. unfold sendResponse.
    destruct (bk_responses b') as [|[c m] rest] eqn:E; [done|].
    assert (Hb : mlm_ok w n (set_bk_responses rest b')).
    { destruct Hb' as [? ? ? ? ? ? Hq ?]. split; try done. cbn. rewrite E, len_cons in Hq. lia. }
    destruct (Message_Marshal a_range m); [|done..]. destruct sent; [|done]. destruct Hb as [? ? ? ? ? ? ? ?]. by split.
  - apply Hkeep. apply keeps_upd. intros b' [? ? ? ? Hsz ? ? ?]. split; try done. cbn.
    pose proof (sweep_size c_range (fun _ c => if decide (cl_LastActivity c < now - bk_ClientTimeout b') then None else Some c) (bk_clients b') Hc). lia.
  - unfold mlm_step. cbn [mlm_event]. unfold mbind, M_bind, on_streams.
    pose proof (stream_step_ok ParseDuration s_range Hs subs_range Hsub n (SPublish t1 t2 t3) (bk_streams b) H2 Hn Hlim) as Hp.
    cbn [stream_step] in Hp. destruct (publicationLoop ParseDuration subs_range t1 t2 t3 (bk_streams b)) as [[] sm'] eqn:E; by split.
  - apply Hkeep, keeps_on_streams. intros sm Hsm. apply streams_ok_sweep; [done|done|]. intros a s s' Hss. by apply cleanup_stream_ok.
  - apply Hkeep, keeps_on_mailboxes. intros mm Hmm. exact (mail_step_ok m_range Hm (MDeliver t1 t2 t3) mm Hmm).
  - apply Hkeep, keeps_on_mailboxes. intros mm Hmm. exact (mail_step_ok m_range Hm (MCleanup now clock) mm Hmm).
  - apply Hkeep, keeps_bind; [|auto with keeps]. apply keeps_on_services. intros vm Hvm.
    exact (service_step_ok v_range Hv w_range Hw (VRequestTurn now now') vm Hvm).
  - apply Hkeep, keeps_on_services. intros vm Hvm. exact (service_step_ok v_range Hv w_range Hw (VCleanup now clock) vm Hvm).
  - apply Hkeep, keeps_on_credit. intros k Hk. exact (credit_step_ok k_range w Hbound (COpCleanup now) k I I Hk).
Qed.

Lemma mlm_run_ok w es : ∀ n b, w < 2 ^ 31 → 0 <= n → n + Z.of_nat (length es) < 2 ^ 64 → mlm_ok w n b →
  mlm_ok w (n + Z.of_nat (length es)) (mlm_run es b).
Proof.
  induction es as [|e es IH]; intros n b Hw0 Hn Hlim Hok; cbn [mlm_run foldl length] in *; [by rewrite Z.add_0_r|].
  replace (n + Z.of_nat (S (length es))) with (n + 1 + Z.of_nat (length es)) by lia.
  apply IH; [done|lia|lia|]. apply mlm_step_ok; [done|done|lia|done].
Qed.

(** ** Stream writes and credit *)

Definition pubs (b : mlmBroker) : list StreamPub := sm_publications (bk_streams b).

Definition used_of (c : bytes) (b : mlmBroker) : Z :=
  match k_clientCredits (bk_credit b) !! c with Some r => cc_Used r | None => 0 end.

(** The publications of [c] that were queued between two states. *)
Definition new_pubs (c : bytes) (b b' : mlmBroker) : Z :=
  len (filter (fun p => pu_Sender p = c) (drop (length (pubs b)) (pubs b'))).

(** The credit record of [c], once there, is not removed. *)
Definition recorded (c : bytes) (b b' : mlmBroker) : Prop :=
  is_Some (k_clientCredits (bk_credit b) !! c) → is_Some (k_clientCredits (bk_credit b') !! c).

Fixpoint writes_accepted (c : bytes) (es : list mlmEvent) (b : mlmBroker) : Z :=
  match es with
  | [] => 0
  | e :: es => new_pubs c b (mlm_step e b) + writes_accepted c es (mlm_step e b)
  end.

Fixpoint stays_recorded (c : bytes) (es : list mlmEvent) (b : mlmBroker) : Prop :=
  match es with
  | [] => True
  | e :: es => recorded c b (mlm_step e b) ∧ stays_recorded c es (mlm_step e b)
  end.

Section quota.
Context (c : bytes) (p0 : list StreamPub) (k0 : CreditController).

(** Nothing was published and no credit moved. *)
Definition idle (b : mlmBroker) : Prop := pubs b = p0 ∧ bk_credit b = k0.

Lemma idle_mailboxes {A} (m : M MailboxManager A) : keeps idle (on_mailboxes m).
Proof. intros b H. unfold on_mailboxes. by destruct (m (bk_mailboxes b)). Qed.
Lemma idle_services {A} (m : M ServiceManager A) : keeps idle (on_services m).
Proof. intros b H. unfold on_services. by destruct (m (bk_services b)). Qed.
Lemma idle_streams {A} (m : M StreamManager A) :
  (∀ sm, sm_publications (m sm).2 = sm_publications sm) → keeps idle (on_streams m).
Proof. intros Hk b [H1 H2]. unfold on_streams. specialize (Hk (bk_streams b)). destruct (m (bk_streams b)). by split; [rewrite <- H1|]. Qed.
Lemma idle_queue c' m : keeps idle (queueResponse c' m).
Proof. apply keeps_upd. intros b H. by case_decide. Qed.
Lemma idle_error c' code r sq : keeps idle (sendError a_range c' code r sq).
Proof. apply idle_queue. Qed.
Lemma idle_sequence : keeps idle nextSequence.
Proof. by intros b. Qed.
Lemma idle_stats f : keeps idle (mupd (fun b => set_bk_stats (f b) b)).
Proof. by intros b. Qed.
Lemma idle_activity now c' : keeps idle (updateClientActivity now c').
Proof. intros b H. cbn. by destruct (bk_clients b !! c'). Qed.
#[local] Hint Resolve idle_mailboxes idle_services idle_queue idle_error idle_sequence idle_activity : keeps.

Lemma idle_reporting {A} c' sq (call : M mlmBroker A) ok :
  keeps idle call → (∀ a, keeps idle (ok a)) → keeps idle (reporting error_text a_range c' sq call ok).
Proof. intros H1 H2. apply keeps_bind; [by apply keeps_try|]. intros [a|e]; [apply H2|apply idle_error]. Qed.

Lemma command_pubs clock t1 t2 t3 cmd sm :
  sm_publications (stream_handleCommand s_range clock t1 t2 t3 cmd sm).2 = sm_publications sm.
Proof.
  destruct cmd as [c' name pat attrs|c' name|c'|name| |c' name cr]; try done; cbn [stream_handleCommand].
  - unfold try, handleSubscribe, mbind, M_bind. by destruct (get_or_create t1 t2 name sm).
  - unfold mbind, M_bind, handleUnsubscribe. cbn. destruct (sm_streams sm !! name) as [s|]; [|done]. by destruct (leave t1 c' s).
Qed.

Lemma Subscribe_pubs t1 t2 t3 c' s pt at_ sm : sm_publications (Subscribe s_range t1 t2 t3 c' s pt at_ sm).2 = sm_publications sm.
Proof.
  unfold Subscribe. unfold mbind, M_bind.
  pose proof (command_pubs (fun _ => 0) t1 t2 t3 (sc_subscribe c' s pt at_) sm) as H.
  destruct (stream_handleCommand s_range (fun _ => 0) t1 t2 t3 (sc_subscribe c' s pt at_) sm) as [[[[]|]| |] ?]; done.
Qed.

Lemma idle_read t c' m : keeps idle (handleStreamRead error_text a_range s_range t c' m).
Proof. unfold handleStreamRead. case_match; [|auto with keeps]. apply idle_reporting; [|auto with keeps]. apply idle_streams. intros sm. apply Subscribe_pubs. Qed.

Lemma idle_other h c' m :
  ml_Type m ≠ MessageTypeConnectionClose → ml_Type m ≠ MessageTypeStreamWrite → ml_Type m ≠ MessageTypeCreditRequest →
  keeps idle (mlm_processClientMessage error_text ConnectionPing_Unmarshal ConnectionPong_Marshal ServiceRequest_Unmarshal
    CreditConfirm_Marshal a_range k_range s_range m_range v_range w_range h c' m).
Proof.
  intros N1 N2 N3. unfold mlm_processClientMessage. apply keeps_bind; [auto with keeps|]. intros _.
  repeat (case_decide; [done || shelve|]); auto with keeps.
  Unshelve. all: first [ apply idle_read | apply keeps_ret | apply idle_stats | idtac ].
  - unfold handleConnectionOpen. case_match; [|auto with keeps]. apply keeps_bind; [auto with keeps|]. intros b0. case_decide; [auto with keeps|]. by intros b.
  - unfold handleConnectionPing. case_match; [|auto with keeps]. apply keeps_bind; [auto with keeps|]. intros seq.
    apply keeps_bind; [auto with keeps|]. intros _ b Hb. cbn. by case_decide.
  - unfold handleMailboxSend. case_match; [|auto with keeps]. apply idle_reporting; [auto with keeps|]. intros _. apply idle_stats.
  - unfold handleServiceOffer. case_match; [|auto with keeps]. apply idle_reporting; [auto with keeps|]. intros _. apply idle_stats.
  - unfold handleServiceRequest. case_match; [|auto with keeps]. apply idle_reporting; [auto with keeps|]. intros _. apply idle_stats.
Qed.
End quota.

Lemma new_pubs_same c b b' : pubs b' = pubs b → new_pubs c b b' = 0.
Proof. intros E. unfold new_pubs. by rewrite E, drop_all. Qed.

Lemma idle_quota c b b' : idle (pubs b) (bk_credit b) b' → new_pubs c b b' + used_of c b <= used_of c b'.
Proof. intros [H1 H2]. rewrite new_pubs_same by done. unfold used_of. rewrite H2. lia. Qed.

(** A step that publishes nothing and leaves the used credit of [c] alone. *)
Lemma used_quota c b b' : pubs b' = pubs b → used_of c b <= used_of c b' → new_pubs c b b' + used_of c b <= used_of c b'.
Proof. intros H1 H2. rewrite new_pubs_same by done. lia. Qed.

(** The same, when only the credit subsystem changed and [c] is still there. *)
Lemma delete_used c c' b b' :
  recorded c b b' → k_clientCredits (bk_credit b') = delete c' (k_clientCredits (bk_credit b)) → used_of c b <= used_of c b'.
Proof.
  intros Hr E. unfold used_of, recorded in *. rewrite E in *. destruct (decide (c' = c)) as [->|Hne].
  - rewrite lookup_delete_eq in *. destruct (k_clientCredits (bk_credit b) !! c); [|done]. by destruct Hr.
  - by rewrite lookup_delete_ne by done.
Qed.

(** A credit request does not change what is used. *)
Lemma request_used c now now' c' a k :
  match k_clientCredits (processRequest now now' c' a k).2 !! c with Some r => cc_Used r | None => 0 end
  = match k_clientCredits k !! c with Some r => cc_Used r | None => 0 end.
Proof.
  unfold processRequest. case_decide; cbn.
  all: destruct (decide (c' = c)) as [->|Hne]; [rewrite lookup_insert_eq|by rewrite lookup_insert_ne].
  all: by destruct (k_clientCredits k !! c).
Qed.

Lemma credit_quota c wt c' m b :
  let b' := (handleCreditRequest error_text CreditConfirm_Marshal a_range wt c' m b).2 in
  pubs b' = pubs b ∧ used_of c b' = used_of c b.
Proof.
  cbn zeta. unfold handleCreditRequest. destruct (unmarshal _ _ _) as [cm|].
  2: { pose proof (idle_error (pubs b) (bk_credit b) c' ErrorCodeInvalidMessage (gs "Invalid credit request message") (ml_Sequence m) b ltac:(done)) as [H1 H2].
       unfold used_of. by rewrite H1, H2. }
  set (k := (RequestCredit wt c' (cr_Credit cm) (bk_credit b)).2).
  assert (Hk : match k_clientCredits k !! c with Some r => cc_Used r | None => 0 end = used_of c b).
  { unfold k. destruct wt as [now now'| |]; [|done..]. unfold RequestCredit, mbind, M_bind.
    pose proof (request_used c now now' c' (cr_Credit cm) (bk_credit b)) as Hu.
    destruct (processRequest now now' c' (cr_Credit cm) (bk_credit b)) as [[resp| |] k']; [|done..].
    by destruct (re_Error resp). }
  assert (Hrest : idle (pubs b) k (reporting error_text a_range c' (ml_Sequence m) (on_credit (RequestCredit wt c' (cr_Credit cm)))
     (fun resp => seq ← nextSequence; queueResponse c' (set_ml_Body (CreditConfirm_Marshal (re_Granted resp)) (CreateMessage MessageTypeCreditConfirm c' seq))) b).2).
  { unfold reporting, mbind at 1, M_bind, try, on_credit. unfold k.
    destruct (RequestCredit wt c' (cr_Credit cm) (bk_credit b)) as [[resp|e|pn] k']; cbn [snd].
    - apply (keeps_bind (idle (pubs b) k')); [apply idle_sequence|intros; apply idle_queue|done].
    - by apply idle_error.
    - done. }
  destruct Hrest as [H1 H2]. unfold used_of at 1. by rewrite H2.
Qed.

(** An accepted write costs its sender one credit. *)
Lemma write_quota c now c' m w n b :
  w < 2 ^ 31 → mlm_ok w n b →
  let b' := (handleStreamWrite error_text a_range now c' m b).2 in new_pubs c b b' + used_of c b <= used_of c b'.
Proof.
  intros Hbound Hok. cbn zeta. unfold handleStreamWrite. rewrite (M_bind_ret _ _ b b b) by done.
  destruct (negb (CheckCredit c' 1 (bk_credit b))) eqn:Ec; [by apply idle_quota, idle_error|].
  destruct (unmarshal _ _ _) as [wm|]; [|by apply idle_quota, idle_error].
  apply negb_false_iff in Ec. unfold CheckCredit in Ec. destruct Hok as [[Hwin Hcr] _ _ _ _ _ _ _].
  destruct (k_clientCredits (bk_credit b) !! c') as [r|] eqn:Er; [|done].
  apply Z.leb_le in Ec. destruct (Hcr c' r Er) as [Ha Hu Hsum Htot].
  set (r' := set_used (i32 (cc_Available r - 1)) (i32 (cc_Used r + 1)) r).
  assert (Hused : cc_Used r' = cc_Used r + 1) by (cbn; apply i32_small; lia).
  set (b1 := (on_credit (UseCredit c' 1) b).2).
  assert (Huse : try (on_credit (UseCredit c' 1)) b = (Ret (inl tt), b1) ∧
    k_clientCredits (bk_credit b1) = <[c' := r']> (k_clientCredits (bk_credit b)) ∧ pubs b1 = pubs b).
  { unfold b1, try, on_credit, UseCredit. rewrite Er, decide_False by lia. done. }
  destruct Huse as (Huse & Hk1 & Hp1). rewrite (M_bind_ret _ _ b _ b1 Huse). clearbody b1.
  assert (Hmain : ∀ b' x, k_clientCredits (bk_credit b') = <[c' := r']> (k_clientCredits (bk_credit b)) →
     (pubs b' = pubs b ∨ (pu_Sender x = c' ∧ pubs b' = pubs b ++ [x])) → new_pubs c b b' + used_of c b <= used_of c b').
  { intros b' x Hk Hpubs. unfold used_of. rewrite Hk.
    assert (Hnew : new_pubs c b b' <= if decide (c' = c) then 1 else 0).
    { destruct Hpubs as [Hp|[Hx Hp]]; [rewrite new_pubs_same by done; case_decide; lia|].
      unfold new_pubs. rewrite Hp, drop_app_length, filter_cons, Hx. case_decide; rewrite filter_nil; unfold len; cbn; lia. }
    case_decide as Hcc.
    - subst c'. rewrite lookup_insert_eq, Er. lia.
    - rewrite lookup_insert_ne by done. lia. }
  set (x := mkPub (sw_Stream wm) (sw_Subject wm) c' (sw_Body wm) (sw_Attributes wm) now).
  assert (Herr : ∀ b2 code rs sq, k_clientCredits (bk_credit b2) = <[c' := r']> (k_clientCredits (bk_credit b)) → pubs b2 = pubs b →
     new_pubs c b (sendError a_range c' code rs sq b2).2 + used_of c b <= used_of c (sendError a_range c' code rs sq b2).2).
  { intros b2 code rs sq H1 H2. destruct (idle_error (pubs b2) (bk_credit b2) c' code rs sq b2 ltac:(done)) as [E1 E2].
    apply (Hmain _ x); [by rewrite E2|left; by rewrite E1]. }
  unfold reporting, mbind, M_bind, try, on_streams, WriteMessage.
  destruct (decide _); [by apply Herr|]. destruct (decide _); [by apply Herr|]. destruct (decide _); [|by apply Herr].
  apply (Hmain _ x); [done|]. right. split; [done|]. rewrite <- Hp1. done.
Qed.

(** ** A step of the broker *)

Lemma cleanup_used c now b :
  recorded c b (on_credit (cleanupInactiveClients k_range now) b).2 →
  used_of c b <= used_of c (on_credit (cleanupInactiveClients k_range now) b).2.
Proof.
  cbn. unfold recorded, used_of. cbn. intros Hr.
  pose proof (foldl_delete_sub (inactive (now - 60 * 60 * 1000000000)) (k_range (k_clientCredits (bk_credit b))) (k_clientCredits (bk_credit b))) as Hsubm.
  destruct (k_clientCredits (bk_credit b) !! c) as [r|] eqn:E.
  - destruct (Hr ltac:(done)) as [r' Hr']. unfold set_clients in Hr'. cbn in Hr'. rewrite Hr'.
    rewrite (lookup_weaken _ _ _ _ Hr' Hsubm) in E. by injection E as ->.
  - destruct (foldl _ _ _ !! c) as [r'|] eqn:E'; [|done]. by rewrite (lookup_weaken _ _ _ _ E' Hsubm) in E.
Qed.

Lemma close_quota c clock c' b :
  recorded c b (removeClient k_range s_range m_range v_range w_range clock c' b).2 →
  pubs (removeClient k_range s_range m_range v_range w_range clock c' b).2 = pubs b ∧
  used_of c b <= used_of c (removeClient k_range s_range m_range v_range w_range clock c' b).2.
Proof.
  unfold removeClient. rewrite (M_bind_ret _ _ b b b) by done. destruct (bk_clients b !! c'); [|done].
  match goal with |- context [mbind ?f ?m b] => set (rest := mbind f m b) end.
  assert (Hrest : pubs rest.2 = pubs b ∧ k_clientCredits (bk_credit rest.2) = delete c' (k_clientCredits (bk_credit b))).
  { unfold rest. done. }
  destruct Hrest as [H1 H2]. intros Hr. split; [done|]. by eapply delete_used.
Qed.

(** The three kinds of message that concern credit or publications. *)
Lemma process_dispatch h c' m b :
  let b2 := (updateClientActivity (h_now h) c' b).2 in
  let pcm := mlm_processClientMessage error_text ConnectionPing_Unmarshal ConnectionPong_Marshal ServiceRequest_Unmarshal
    CreditConfirm_Marshal a_range k_range s_range m_range v_range w_range h c' m b in
  (ml_Type m = MessageTypeConnectionClose → pcm = removeClient k_range s_range m_range v_range w_range (h_clock h) c' b2) ∧
  (ml_Type m = MessageTypeStreamWrite → pcm = handleStreamWrite error_text a_range (h_t h 0%nat) c' m b2) ∧
  (ml_Type m = MessageTypeCreditRequest → pcm = handleCreditRequest error_text CreditConfirm_Marshal a_range (h_wait h) c' m b2).
Proof.
  cbn zeta. unfold mlm_processClientMessage. rewrite (M_bind_ret _ _ b tt (updateClientActivity (h_now h) c' b).2) by done.
  split_and!; intros H; repeat rewrite decide_False by (rewrite H; done); by rewrite decide_True by done.
Qed.

Lemma message_quota c w n h c' m b :
  w < 2 ^ 31 → 0 <= n → mlm_ok w n b →
  let b' := (mlm_processClientMessage error_text ConnectionPing_Unmarshal ConnectionPong_Marshal ServiceRequest_Unmarshal
    CreditConfirm_Marshal a_range k_range s_range m_range v_range w_range h c' m b).2 in
  recorded c b b' → new_pubs c b b' + used_of c b <= used_of c b'.
Proof.
  intros Hbound Hn Hok. cbn zeta.
  destruct (decide (ml_Type m = MessageTypeConnectionClose ∨ ml_Type m = MessageTypeStreamWrite ∨ ml_Type m = MessageTypeCreditRequest)) as [Hty|Hty].
  2: { intros _. apply idle_quota. apply idle_other; [tauto|tauto|tauto|done]. }
  destruct (process_dispatch h c' m b) as (Hclose & Hwrite & Hcredit).
  pose proof (keeps_activity w n (h_now h) c' b Hok) as Hok2.
  destruct (idle_activity (pubs b) (bk_credit b) (h_now h) c' b ltac:(done)) as [E1 E2].
  set (b2 := (updateClientActivity (h_now h) c' b).2) in *.
  assert (HN : ∀ b', new_pubs c b b' = new_pubs c b2 b') by (intros b'; unfold new_pubs; by rewrite E1).
  assert (HU : used_of c b = used_of c b2) by (unfold used_of; by rewrite E2).
  assert (HR : ∀ b', recorded c b b' → recorded c b2 b') by (intros b'; unfold recorded; by rewrite E2).
  rewrite HN, HU. clearbody b2. destruct Hty as [H|[H|H]].
  - rewrite (Hclose H). intros Hr%HR. apply close_quota in Hr as [H1 H2]. by apply used_quota.
  - rewrite (Hwrite H). intros _. by eapply write_quota.
  - rewrite (Hcredit H). intros _. destruct (credit_quota c (h_wait h) c' m b2) as [H1 H2]. apply used_quota; [done|lia].
Qed.

Lemma step_quota c w n e b :
  w < 2 ^ 31 → 0 <= n → mlm_ok w n b → recorded c b (mlm_step e b) →
  new_pubs c b (mlm_step e b) + used_of c b <= used_of c (mlm_step e b).
Proof.
  intros Hbound Hn Hok Hr. unfold mlm_step in *.
  destruct e as [frames|h|now|sent|now|t1 t2 t3|now clock|t1 t2 t3|now clock|now now'|now clock|now]; cbn [mlm_event] in *.
  - apply idle_quota. unfold socketLoop. destruct frames as [|c' [|data rest]]; [done..|].
    destruct (Message_Unmarshal data zero_ml) as [[]m]; [|by apply idle_error..].
    rewrite (M_bind_ret _ _ b b b) by done. destruct (decide _); [done|by apply idle_error].
  - unfold messageLoop in *. destruct (bk_messages b) as [|[c' m] rest] eqn:E; [by apply idle_quota|].
    set (b1 := set_bk_messages rest b) in *.
    assert (Hok1 : mlm_ok w n b1) by (destruct Hok as [? ? ? ? ? Hq ? ?]; split; try done; cbn; rewrite E, len_cons in Hq; lia).
    change (new_pubs c b) with (new_pubs c b1). change (used_of c b) with (used_of c b1). change (recorded c b) with (recorded c b1) in Hr.
    by eapply message_quota.
  - apply idle_quota. unfold processHeartbeat. destruct (bk_heartbeats b) as [|c' rest]; [done|]. by apply idle_activity.
  - apply idle_quota. unfold mbind, M_bind, sendResponse. destruct (bk_responses b) as [|[c' m] rest]; [done|].
    destruct (Message_Marshal a_range m); [|done..]. by destruct sent.
  - by apply idle_quota.
  - clear Hr. unfold mbind, M_bind, on_streams. unfold publicationLoop. destruct (bk_streams b) as [mx rt ss ps] eqn:Eb. cbn [sm_publications].
    assert (Hp : ∀ b' x rest, ps = x :: rest → pubs b' = rest → bk_credit b' = bk_credit b → new_pubs c b b' + used_of c b <= used_of c b').
    { intros b' x rest -> Hp Hk. unfold new_pubs, used_of. unfold pubs in *. rewrite Eb, Hp, Hk. cbn [sm_publications length].
      rewrite drop_ge by lia. unfold len. cbn. lia. }
    destruct ps as [|x rest]; [apply idle_quota; unfold idle, pubs; by rewrite Eb|].
    unfold processPublication. cbn [sm_publications sm_retention sm_streams sm_maxStreams].
    destruct (get_or_create _ _ _ _) as [s|]; [destruct (deliverToSubscribers _ _ _) as [out s']|]; by eapply Hp.
  - by apply idle_quota.
  - by apply idle_quota, idle_mailboxes.
  - by apply idle_quota.
  - apply idle_quota. apply (keeps_bind (idle (pubs b) (bk_credit b))); [apply idle_services|auto with keeps|done].
  - by apply idle_quota.
  - apply used_quota; [done|]. by apply cleanup_used.
Qed.

Lemma run_quota c w es : ∀ n b,
  w < 2 ^ 31 → 0 <= n → n + Z.of_nat (length es) < 2 ^ 64 → mlm_ok w n b → stays_recorded c es b →
  writes_accepted c es b + used_of c b <= used_of c (mlm_run es b).
Proof.
  induction es as [|e es IH]; intros n b Hbound Hn Hlim Hok Hr; cbn [writes_accepted stays_recorded mlm_run foldl length] in *; [lia|].
  destruct Hr as [Hr Hrs]. pose proof (step_quota c w n e b Hbound Hn Hok Hr).
  specialize (IH (n + 1) (mlm_step e b) Hbound ltac:(lia) ltac:(lia) (mlm_step_ok w n e b Hbound Hn ltac:(lia) Hok) Hrs).
  unfold mlm_run in IH. lia.
Qed.

Lemma used_bound c w n b : 0 <= w → mlm_ok w n b → 0 <= used_of c b <= w.
Proof.
  intros Hw0 [[_ Hcr] _ _ _ _ _ _ _]. unfold used_of. destruct (k_clientCredits (bk_credit b) !! c) as [r|] eqn:E; [|lia].
  destruct (Hcr c r E) as [? ? ? ?]. lia.
Qed.
End facts.

(** ** The theorems *)

(** What the environment of a broker is: the library functions, the codecs
    the package lacks, and the orders in which maps are iterated. *)
Record mlmEnv : Type := mkEnv {
  en_ParseDuration : bytes → option Z;
  en_error_text : error → bytes;
  en_Ping_Unmarshal : bytes → option Z;
  en_Pong_Marshal : Z → bytes;
  en_ServiceRequest_Unmarshal : bytes → option ServiceRequestMessage;
  en_CreditConfirm_Marshal : Z → bytes;
  en_a_range : gmap bytes bytes → list (bytes * bytes);
  en_k_range : gmap bytes ClientCredit → list (bytes * ClientCredit);
  en_s_range : gmap bytes Stream → list (bytes * Stream);
  en_subs_range : gmap bytes StreamSubscription → list (bytes * StreamSubscription);
  en_m_range : gmap bytes Mailbox → list (bytes * Mailbox);
  en_v_range : gmap bytes mlmService → list (bytes * mlmService);
  en_w_range : gmap bytes ServiceWorker → list (bytes * ServiceWorker);
  en_c_range : gmap bytes mlmClient → list (bytes * mlmClient) }.

(** The iterations visit every entry once. *)
Record env_ok (E : mlmEnv) : Prop := {
  eo_s : range_order (en_s_range E);
  eo_subs : range_order (en_subs_range E);
  eo_m : range_order (en_m_range E);
  eo_v : range_order (en_v_range E);
  eo_w : range_order (en_w_range E);
  eo_c : range_order (en_c_range E) }.

Definition env_step (E : mlmEnv) : mlmEvent → mlmBroker → mlmBroker :=
  mlm_step (en_ParseDuration E) (en_error_text E) (en_Ping_Unmarshal E) (en_Pong_Marshal E) (en_ServiceRequest_Unmarshal E)
    (en_CreditConfirm_Marshal E) (en_a_range E) (en_k_range E) (en_s_range E) (en_subs_range E) (en_m_range E) (en_v_range E)
    (en_w_range E) (en_c_range E).
Definition env_run (E : mlmEnv) (es : list mlmEvent) (b : mlmBroker) : mlmBroker := foldl (fun b e => env_step E e b) b es.

(** The stream writes of [c] that are accepted along a history. *)
Definition accepted (E : mlmEnv) : bytes → list mlmEvent → mlmBroker → Z :=
  writes_accepted (en_ParseDuration E) (en_error_text E) (en_Ping_Unmarshal E) (en_Pong_Marshal E) (en_ServiceRequest_Unmarshal E)
    (en_CreditConfirm_Marshal E) (en_a_range E) (en_k_range E) (en_s_range E) (en_subs_range E) (en_m_range E) (en_v_range E)
    (en_w_range E) (en_c_range E).

(** The credit record of [c] is never removed along a history. *)
Definition remembered (E : mlmEnv) : bytes → list mlmEvent → mlmBroker → Prop :=
  stays_recorded (en_ParseDuration E) (en_error_text E) (en_Ping_Unmarshal E) (en_Pong_Marshal E) (en_ServiceRequest_Unmarshal E)
    (en_CreditConfirm_Marshal E) (en_a_range E) (en_k_range E) (en_s_range E) (en_subs_range E) (en_m_range E) (en_v_range E)
    (en_w_range E) (en_c_range E).

Definition closing (E : mlmEnv) (clock : bytes → Z) (c : bytes) (m : mlmMessage) : M mlmBroker unit :=
  handleConnectionClose (en_k_range E) (en_s_range E) (en_m_range E) (en_v_range E) (en_w_range E) clock c m.

(** A broker as [NewBroker] makes it. *)
Definition new_broker (window conns streams mailboxes services : Z) : mlmBroker :=
  NewMlmBroker window conns streams mailboxes services 0 0 0 0.

Lemma mlm_ok_new w cw conns ss ms vs ct st sr mr :
  w = k_windowSize (NewCreditController cw) → mlm_ok w 0 (NewMlmBroker cw conns ss ms vs ct st sr mr).
Proof.
  intros ->. split; cbn.
  - split; [cbn; unfold DefaultCreditWindow; case_decide; lia|apply map_Forall_empty].
  - split; [cbn; rewrite map_size_empty; lia|unfold publications_cap, len; cbn; lia|apply map_Forall_empty|apply map_Forall_empty].
  - split; [cbn; rewrite map_size_empty; lia|unfold deliveries_cap, len; cbn; lia|by constructor|apply map_Forall_empty].
  - split; [cbn; rewrite map_size_empty; lia|unfold requests_cap, len; cbn; lia|unfold requests_cap, len; cbn; lia|apply map_Forall_empty].
  - rewrite map_size_empty. lia.
  - unfold messages_cap, len. cbn. lia.
  - unfold responses_cap, len. cbn. lia.
  - unfold heartbeats_cap, len. cbn. lia.
Qed.

Lemma env_run_ok E w es n b :
  env_ok E → w < 2 ^ 31 → 0 <= n → n + Z.of_nat (length es) < 2 ^ 64 → mlm_ok w n b →
  mlm_ok w (n + Z.of_nat (length es)) (env_run E es b).
Proof.
  intros [H1 H2 H3 H4 H5 H6] Hw Hn Hl Hok.
  exact (mlm_run_ok (en_ParseDuration E) (en_error_text E) (en_Ping_Unmarshal E) (en_Pong_Marshal E) (en_ServiceRequest_Unmarshal E)
    (en_CreditConfirm_Marshal E) (en_a_range E) (en_k_range E) (en_s_range E) (en_subs_range E) (en_m_range E) (en_v_range E)
    (en_w_range E) (en_c_range E) H1 H2 H3 H4 H5 H6 w es n b Hw Hn Hl Hok).
Qed.

Lemma env_quota E c w es n b :
  env_ok E → w < 2 ^ 31 → 0 <= n → n + Z.of_nat (length es) < 2 ^ 64 → mlm_ok w n b → remembered E c es b →
  accepted E c es b + used_of c b <= used_of c (env_run E es b).
Proof.
  intros [H1 H2 H3 H4 H5 H6] Hw Hn Hl Hok Hrem.
  exact (run_quota (en_ParseDuration E) (en_error_text E) (en_Ping_Unmarshal E) (en_Pong_Marshal E) (en_ServiceRequest_Unmarshal E)
    (en_CreditConfirm_Marshal E) (en_a_range E) (en_k_range E) (en_s_range E) (en_subs_range E) (en_m_range E) (en_v_range E)
    (en_w_range E) (en_c_range E) H1 H2 H3 H4 H5 H6 c w es n b Hw Hn Hl Hok Hrem).
Qed.

(** The subsystems stay sound under the broker: from a new broker, after
    any interleaving of received frames, processed messages, heartbeats,
    responses, timeouts and turns of the subsystems' goroutines (fewer than
    2^64), the credit controller never over-issues, streams, mailboxes and
    services are well formed, there are no more clients than connections
    allowed, and the channels are within their capacities. *)
Theorem mlm_broker_invariant (E : mlmEnv) (window conns ss ms vs ct st sr mr : Z) (es : list mlmEvent) :
  env_ok E → window < 2 ^ 31 → Z.of_nat (length es) < 2 ^ 64 →
  mlm_ok (k_windowSize (NewCreditController window)) (Z.of_nat (length es))
    (env_run E es (NewMlmBroker window conns ss ms vs ct st sr mr)).
Proof.
  intros He Hw Hlim. apply (env_run_ok E _ es 0); [done| |lia|lia|by apply mlm_ok_new].
  cbn. unfold DefaultCreditWindow. case_decide; lia.
Qed.

(** C34. Stream writes are paid for: as long as the credit record of a client
    is not removed, the broker accepts at most as many stream messages from
    it as its credit window, whatever credit it asks for in between; as
    nothing in the broker confirms credit, this is the most a client can ever
    publish in one session. *)
Theorem mlm_publisher_quota (E : mlmEnv) (window conns ss ms vs ct st sr mr : Z) (before after : list mlmEvent) (c : bytes) :
  env_ok E → window < 2 ^ 31 → Z.of_nat (length before + length after) < 2 ^ 64 →
  let b := env_run E before (NewMlmBroker window conns ss ms vs ct st sr mr) in
  remembered E c after b →
  accepted E c after b <= k_windowSize (NewCreditController window).
Proof.
  intros He Hw Hlim b Hrem. set (w := k_windowSize (NewCreditController window)).
  assert (Hw' : 0 <= w < 2 ^ 31) by (unfold w; cbn; unfold DefaultCreditWindow; case_decide; lia).
  pose proof (env_run_ok E w before 0 _ He ltac:(lia) ltac:(lia) ltac:(lia) (mlm_ok_new w window conns ss ms vs ct st sr mr eq_refl)) as Hok.
  pose proof (env_quota E c w after (0 + Z.of_nat (length before)) b He ltac:(lia) ltac:(lia) ltac:(lia) Hok Hrem) as Hq.
  pose proof (env_run_ok E w after (0 + Z.of_nat (length before)) b He ltac:(lia) ltac:(lia) ltac:(lia) Hok) as Hok'.
  pose proof (used_bound c w _ b ltac:(lia) Hok). pose proof (used_bound c w _ _ ltac:(lia) Hok'). lia.
Qed.

(** What [removeClient] leaves of each map. *)
Lemma remove_effect k_range s_range m_range v_range w_range clock c b cl :
  bk_clients b !! c = Some cl →
  let b' := (removeClient k_range s_range m_range v_range w_range clock c b).2 in
  bk_clients b' = delete c (bk_clients b) ∧
  k_clientCredits (bk_credit b') = delete c (k_clientCredits (bk_credit b)) ∧
  sm_streams (bk_streams b') = sweep (fun name s => leave (clock name) c s) (s_range (sm_streams (bk_streams b))) (sm_streams (bk_streams b)) ∧
  mm_mailboxes (bk_mailboxes b') =
    sweep (fun _ mailbox => if decide (mb_Owner mailbox = c) then None else Some mailbox)
      (m_range (mm_mailboxes (bk_mailboxes b))) (mm_mailboxes (bk_mailboxes b)) ∧
  vm_services (bk_services b') = sweep (fun _ s => retire c s) (v_range (vm_services (bk_services b))) (vm_services (bk_services b)).
Proof. intros Hcl b'. unfold b', removeClient. rewrite (M_bind_ret _ _ b b b) by done. rewrite Hcl. done. Qed.

(** Closing a connection forgets the client: afterwards it is not a
    client, has no credit record, no subscription to any stream, owns no
    mailbox and works for no service. *)
Theorem mlm_close_forgets (E : mlmEnv) (b : mlmBroker) (clock : bytes → Z) (c : bytes) (m : mlmMessage) :
  env_ok E → is_Some (bk_clients b !! c) →
  let b' := (closing E clock c m b).2 in
  bk_clients b' !! c = None ∧
  k_clientCredits (bk_credit b') !! c = None ∧
  (∀ name s, sm_streams (bk_streams b') !! name = Some s → st_Subscribers s !! c = None) ∧
  (∀ a mailbox, mm_mailboxes (bk_mailboxes b') !! a = Some mailbox → mb_Owner mailbox ≠ c) ∧
  (∀ name s, vm_services (bk_services b') !! name = Some s → sv_Workers s !! c = None).
Proof.
  intros [H1 H2 H3 H4 H5 H6] [cl Hcl] b'. unfold b', closing, handleConnectionClose.
  edestruct (remove_effect (en_k_range E) (en_s_range E) (en_m_range E) (en_v_range E) (en_w_range E) clock c b cl Hcl)
    as (-> & -> & -> & -> & ->). split_and!.
  - apply lookup_delete_eq.
  - apply lookup_delete_eq.
  - intros name s. rewrite sweep_lookup by done. destruct (sm_streams (bk_streams b) !! name) as [s0|]; cbn; [|done].
    unfold leave. case_decide; [done|]. intros [= <-]. apply lookup_delete_eq.
  - intros a mailbox. rewrite sweep_lookup by done. destruct (mm_mailboxes (bk_mailboxes b) !! a) as [m0|]; cbn; [|done].
    case_decide; [done|]. by intros [= <-].
  - intros name s. rewrite sweep_lookup by done. destruct (vm_services (bk_services b) !! name) as [s0|]; cbn; [|done].
    unfold retire. case_decide; [done|]. intros [= <-]. apply lookup_delete_eq.
Qed.

(** A timeout leaks: a client that is dropped because it was silent keeps
    its credit, subscriptions, mailboxes and workers, and when it later
    closes its connection the broker, which no longer knows it, still removes
    none of them. *)
Theorem mlm_timeout_leaks (E : mlmEnv) (b : mlmBroker) (client : mlmClient) (now : Z) (clock : bytes → Z) (c : bytes) (m : mlmMessage) :
  env_ok E → bk_clients b !! c = Some client → cl_LastActivity client < now - bk_ClientTimeout b →
  let b1 := (checkClientTimeouts (en_c_range E) now b).2 in
  let b2 := (closing E clock c m b1).2 in
  bk_clients b1 !! c = None ∧
  bk_credit b2 = bk_credit b ∧ bk_streams b2 = bk_streams b ∧ bk_mailboxes b2 = bk_mailboxes b ∧ bk_services b2 = bk_services b.
Proof.
  intros [H1 H2 H3 H4 H5 H6] Hcl Hold b1 b2.
  assert (Hnone : bk_clients b1 !! c = None).
  { unfold b1. cbn. rewrite sweep_lookup, Hcl by done. cbn. by rewrite decide_True. }
  split; [done|]. unfold b2, closing, handleConnectionClose, removeClient. rewrite (M_bind_ret _ _ b1 b1 b1) by done. by rewrite Hnone.
Qed.

(** ** Instances *)

Definition demo_env : mlmEnv :=
  mkEnv (fun _ => None) (fun _ => []) (fun body => Some (be_get body)) (be_put 8) (fun _ => None) (be_put 4)
    map_to_list map_to_list map_to_list map_to_list map_to_list map_to_list map_to_list map_to_list.

Lemma demo_env_ok : env_ok demo_env.
Proof. split; apply map_to_list_range_order. Qed.

Definition demo_handling : handling := mkHandling 5 (fun _ => 5) (fun _ => 5) (CWAnswered 5 5).
Definition demo_frame (t : byte) (body : bytes) : mlmEvent :=
  BSocket [gs "id"; default [] (match Message_Marshal map_to_list (mkMlm t ProtocolVersion 1 (gs "pub") ∅ body) with Ret d => Some d | _ => None end)].
Definition demo_body : bytes :=
  default [] (match StreamWrite_Marshal map_to_list (mkStreamWrite (gs "s") (gs "temp") ∅ (gs "21")) with Ret d => Some d | _ => None end).
Definition demo_open_body : bytes :=
  default [] (match ConnectionOpen_Marshal map_to_list (mkConnectionOpen (gs "pub") 1 ∅) with Ret d => Some d | _ => None end).
(** A client connects and asks for credit ... *)
Definition demo_before : list mlmEvent :=
  [demo_frame MessageTypeConnectionOpen demo_open_body; BMessage demo_handling;
   demo_frame MessageTypeCreditRequest (be_put 4 10); BMessage demo_handling].
(** ... and then writes twice. *)
Definition demo_after : list mlmEvent :=
  [demo_frame MessageTypeStreamWrite demo_body; BMessage demo_handling; demo_frame MessageTypeStreamWrite demo_body; BMessage demo_handling].

Example demo_accepted : accepted demo_env (gs "id") demo_after (env_run demo_env demo_before (new_broker 100 5 5 5 5)) = 2.
Proof. vm_compute. reflexivity. Qed.

Lemma mlm_broker_invariant_witness :
  mlm_ok 100 4 (env_run demo_env demo_before (NewMlmBroker 100 5 5 5 5 0 0 0 0)).
Proof. apply (mlm_broker_invariant demo_env 100 5 5 5 5 0 0 0 0 demo_before); [apply demo_env_ok|lia|cbn; lia]. Defined.

Lemma mlm_publisher_quota_witness :
  accepted demo_env (gs "id") demo_after (env_run demo_env demo_before (NewMlmBroker 100 5 5 5 5 0 0 0 0)) <= 100.
Proof.
  apply (mlm_publisher_quota demo_env 100 5 5 5 5 0 0 0 0 demo_before demo_after (gs "id")); [apply demo_env_ok|lia|cbn; lia|].
  repeat split; intros _; eexists; vm_compute; reflexivity.
Defined.

Definition demo_msg4 : mlmMessage := mkMlm MessageTypeConnectionClose ProtocolVersion 1 (gs "pub") ∅ [].

Lemma mlm_close_forgets_witness :
  let b := env_run demo_env demo_before (new_broker 100 5 5 5 5) in
  let b' := (closing demo_env (fun _ => 9) (gs "id") demo_msg4 b).2 in
  bk_clients b' !! gs "id" = None ∧ k_clientCredits (bk_credit b') !! gs "id" = None ∧
  (∀ name s, sm_streams (bk_streams b') !! name = Some s → st_Subscribers s !! gs "id" = None) ∧
  (∀ a mailbox, mm_mailboxes (bk_mailboxes b') !! a = Some mailbox → mb_Owner mailbox ≠ gs "id") ∧
  (∀ name s, vm_services (bk_services b') !! name = Some s → sv_Workers s !! gs "id" = None).
Proof. intros b. apply (mlm_close_forgets demo_env b); [apply demo_env_ok|]. eexists. vm_compute. reflexivity. Defined.

Lemma mlm_timeout_leaks_witness :
  let b := env_run demo_env demo_before (new_broker 100 5 5 5 5) in
  let b1 := (checkClientTimeouts map_to_list 100 b).2 in
  let b2 := (closing demo_env (fun _ => 9) (gs "id") demo_msg4 b1).2 in
  bk_clients b1 !! gs "id" = None ∧
  bk_credit b2 = bk_credit b ∧ bk_streams b2 = bk_streams b ∧ bk_mailboxes b2 = bk_mailboxes b ∧ bk_services b2 = bk_services b.
Proof.
  intros b. apply (mlm_timeout_leaks demo_env b (mkClient (gs "pub") 1 (gs "id") 0 ∅ 5 5) 100); [apply demo_env_ok| |].
  - vm_compute. reflexivity.
  - vm_compute. reflexivity.
Defined.
