(* ===== verification/MlmServer.v ===== *)
(** * MlmServer: a running Malamute broker (src/malamute/broker.go)

    [Start], [Stop], the loops and the commands of a broker. The command loop is
    an instance of the server of Actor, whose other goroutines are the five
    loops of the broker and those of its subsystems; [Start] and [Stop] are over
    the state word, the context and the channels, and the locks of [Stop] in
    the calculus of Locks. *)

From Stdlib Require Import Strings.Byte ZArith Lia.
From stdpp Require Import base strings numbers gmap gmultiset relations list.
From S2P Require Import Prelude Locks Actor Reader MlmMessage MlmCredit MlmMailbox MlmStream MlmService MlmBroker MlmBrokerFacts.

#[local] Open Scope Z_scope.
#[local] Set Default Goal Selector "!".

(** ** Commands and loops *)

Inductive brokerCmd : Type := get_statistics | get_clients.
Inductive brokerReply : Type := ReplyStatistics (s : mlmStats) | ReplyClients (m : gmap bytes mlmClient).

Section loops.
Context (E : mlmEnv).

Definition broker_handleCommand (now : Z) (cmd : brokerCmd) : M mlmBroker (option brokerReply) :=
  match cmd with
  | get_statistics => s ← mlm_GetStatistics now; mret (Some (ReplyStatistics s))
  | get_clients => m ← mlm_GetClients (en_c_range E); mret (Some (ReplyClients m))
  end.

(** One turn of the loops: a response is sent; a heartbeat event or a tick; a
    tick that leaves the cleaning to the managers. *)
Definition responseLoop (sent : bool) : M mlmBroker unit := _ ← sendResponse (en_a_range E) sent; mret tt.
Definition heartbeatLoop (tick : bool) (now : Z) : M mlmBroker unit :=
  if tick then checkClientTimeouts (en_c_range E) now else processHeartbeat now.
Definition performCleanup : M mlmBroker unit := mret tt.
Definition mlm_cleanupLoop : M mlmBroker unit := performCleanup.

(** What the goroutines beside the command loop do; the last rule: those of the
    subsystems, which the broker calls from its own. *)
Inductive broker_bg : mlmBroker → mlmBroker → Prop :=
| bb_socket frames b : broker_bg b (socketLoop (en_a_range E) frames b).2
| bb_message h b :
    broker_bg b (messageLoop (en_error_text E) (en_Ping_Unmarshal E) (en_Pong_Marshal E) (en_ServiceRequest_Unmarshal E) (en_CreditConfirm_Marshal E)
      (en_a_range E) (en_k_range E) (en_s_range E) (en_m_range E) (en_v_range E) (en_w_range E) h b).2
| bb_response sent b : broker_bg b (responseLoop sent b).2
| bb_heartbeat tick now b : broker_bg b (heartbeatLoop tick now b).2
| bb_cleanup b : broker_bg b (mlm_cleanupLoop b).2
| bb_subsystem e b : broker_bg b (env_step E e b).

#[export] Instance broker_server : Server mlmBroker brokerCmd brokerReply Z := {|
  srv_cap := 1000;
  srv_handle now cmd := serves (broker_handleCommand now cmd);
  srv_bg := broker_bg |}.

Definition brokerActor : Type := actor mlmBroker brokerCmd brokerReply.
Definition broker_commandLoop : Z → brokerActor → option brokerActor := actor_turn.

(** [GetStatistics] and [GetClients]: what they make of the reply. *)
Definition broker_GetStatistics_result (r : brokerReply) : outcome mlmStats :=
  match r with ReplyStatistics s => Ret s | _ => Panic "interface conversion" end.
Definition broker_GetClients_result (r : brokerReply) : outcome (gmap bytes mlmClient) :=
  match r with ReplyClients m => Ret m | _ => Panic "interface conversion" end.
End loops.

(** ** Starting and stopping *)

(** [bf_closed]: the channels of the broker and of its subsystems are closed. *)
Record brokerLife : Type := mkLife { bf_state : Z; bf_cancelled : bool; bf_closed : bool; bf_socket : bool; bf_loops : bool }.

Definition new_brokerLife : brokerLife := mkLife 0 false false false false.

(** [listen] is the verdict of the socket. The managers' own [Start] only launch
    goroutines. *)
Definition mlm_Start (listen : option error) : M brokerLife unit := fun l =>
  if decide (bf_state l ≠ 0) then (Fail (Errorf "broker already started"), l)
  else
    match listen with
    | Some e => (Fail (Wrap "failed to bind ROUTER socket" e), mkLife 1 (bf_cancelled l) (bf_closed l) true (bf_loops l))
    | None => (Ret tt, mkLife 2 (bf_cancelled l) (bf_closed l) true true)
    end.

(** [Stop], when the goroutines return: the first channel it closes is one of the
    credit controller. *)
Definition mlm_Stop : M brokerLife unit := fun l =>
  if decide (bf_state l = 0) then (Ret tt, l)
  else if bf_closed l then (Panic "close of closed channel", mkLife 3 true true (bf_socket l) false)
  else (Ret tt, mkLife 0 true true (bf_socket l) false).

(** A turn of [messageLoop] with its [select]; [choice]: the case of the channel
    is taken when both are ready. A closed channel gives a nil message, which
    [processClientMessage] dereferences. [false]: the loop returns. *)
Definition messageLoop_select (choice : bool) (l : brokerLife) (turn : M mlmBroker unit) (b : mlmBroker) : outcome bool * mlmBroker :=
  if bf_closed l && choice then (Panic "nil pointer dereference", b)
  else if bf_cancelled l && negb choice then (Ret false, b)
  else let '(r, b') := turn b in (match r with Ret _ => Ret true | Fail e => Fail e | Panic p => Panic p end, b').

(** The locks: [Stop] waits for the goroutines while it holds the broker's
    mutex; handling a message or a command takes it. *)
Definition mlm_Stop_locks (state : Z) : list lock_op := if decide (state = 0) then lock_section else lock_and_wait.
Definition updateClientActivity_locks : list lock_op := lock_section.
Definition broker_handleCommand_locks : list lock_op := [RLock; RUnlock].

(** ** What a running broker does *)

Section running.
Context (E : mlmEnv).
Implicit Types (ls : list (@label brokerCmd brokerReply Z)).

Lemma broker_bg_event b b' : broker_bg E b b' → b' = b ∨ ∃ e, b' = env_step E e b.
Proof.
  intros H. destruct H as [frames b1|h b1|sent b1|[] now b1|b1|e b1]; [right..|by left|right].
  - by exists (BSocket frames).
  - by exists (BMessage h).
  - by exists (BRespond sent).
  - by exists (BTimeouts now).
  - by exists (BHeartbeat now).
  - by exists e.
Qed.

Lemma broker_command_reads now cmd b r b' : srv_handle (Server := broker_server E) now cmd b = Some (r, b') → b' = b.
Proof. destruct cmd; cbn; unfold serves; cbn; by intros [= _ <-]. Qed.

(** A run of the broker is a history of events, with a state in it for every
    command served. *)
Lemma sequential_events b0 ls b : sequential (srv := broker_server E) b0 ls b →
  ∃ es, (length es ≤ length ls)%nat ∧ b = env_run E es b0 ∧
  ∀ now id c r, LServe now id c r ∈ ls →
    ∃ es1 es2, es = es1 ++ es2 ∧ srv_handle (Server := broker_server E) now c (env_run E es1 b0) = Some (r, env_run E es1 b0).
Proof.
  induction 1 as [b0|b0 ls b now id c r b' _ IH Hs|b0 ls b b' _ IH Hb|b0 ls b l _ IH Hl]; rewrite ?length_app.
  - exists []. split_and!; [done|done|]. by intros ???? ?%not_elem_of_nil.
  - destruct IH as (es & Hlen & -> & Hall). pose proof (broker_command_reads _ _ _ _ _ Hs) as ->. exists es. split_and!; [lia|done|].
    intros now' id' c' r' [Hin|Hin%list_elem_of_singleton]%elem_of_app; [by eapply Hall|]. injection Hin as -> -> -> ->.
    exists es, []. split; [by rewrite app_nil_r|done].
  - destruct IH as (es & Hlen & -> & Hall). destruct (broker_bg_event _ _ Hb) as [->|[e ->]].
    + exists es. split_and!; [lia|done|]. intros now id c r [Hin|Hin%list_elem_of_singleton]%elem_of_app; [by eapply Hall|done].
    + exists (es ++ [e]). split_and!; [rewrite length_app; cbn in *; lia|unfold env_run; by rewrite foldl_app|].
      intros now id c r [Hin|Hin%list_elem_of_singleton]%elem_of_app; [|done]. destruct (Hall _ _ _ _ Hin) as (es1 & es2 & -> & Hh).
      exists es1, (es2 ++ [e]). by rewrite app_assoc.
  - destruct IH as (es & Hlen & -> & Hall). exists es. split_and!; [lia|done|].
    intros now id c r [Hin|Hin%list_elem_of_singleton]%elem_of_app; [by eapply Hall|]. by subst l.
Qed.
End running.

Lemma env_run_app E es1 es2 b : env_run E (es1 ++ es2) b = env_run E es2 (env_run E es1 b).
Proof. unfold env_run. by rewrite foldl_app. Qed.

(** C13. A running broker is consistent: in every interleaving of callers of its
    methods, its loops, the goroutines of its subsystems and [Stop] (fewer than
    2^64 steps), the invariants of the broker and its subsystems hold; what
    [GetClients] returns are the clients at a moment of the history, no more than
    the connections allowed, and [GetStatistics] counts them. *)
Theorem mlm_server_runs (E : mlmEnv) (window conns ss ms vs ct st sr mr : Z) ls s :
  let b0 := NewMlmBroker window conns ss ms vs ct st sr mr in
  env_ok E → window < 2 ^ 31 → Z.of_nat (length ls) < 2 ^ 64 → actor_run (srv := broker_server E) (actor_start b0) ls s →
  mlm_ok (k_windowSize (NewCreditController window)) (Z.of_nat (length ls)) (at_state s) ∧
  ∀ k id r, ls !! k = Some (LReturn id r) →
    ∃ es1 es2, env_run E es2 (env_run E es1 b0) = at_state s ∧
    let b := env_run E es1 b0 in
    Z.of_nat (size (bk_clients b)) <= Z.max 0 (bk_MaxConnections b) ∧
    match r with
    | ReplyClients m => m = bk_clients b
    | ReplyStatistics x => ms_ActiveConnections x = Z.of_nat (size (bk_clients b))
    end.
Proof.
  intros b0 He Hw Hlim Hrun. assert (Hok : run_ok (srv := broker_server E) b0 ls s) by by eapply run_ok_run.
  destruct Hok as [H1 H2 H3 H4 H5 H6 H7]. destruct (sequential_events E b0 ls _ H2) as (es & Hlen & Hst & Hall).
  assert (Hnew : mlm_ok (k_windowSize (NewCreditController window)) 0 b0) by by apply mlm_ok_new.
  assert (Hwin : k_windowSize (NewCreditController window) < 2 ^ 31) by (cbn; unfold DefaultCreditWindow; case_decide; lia).
  split.
  - rewrite Hst. eapply mlm_ok_mono; [|apply (env_run_ok E _ es 0); [done|done|lia|lia|exact Hnew]]. lia.
  - intros k id r Hk. destruct (H6 k id r Hk) as (i & j & now & c & _ & _ & Hj).
    apply lookup_take_Some in Hj as [Hj _]. apply list_elem_of_lookup_2 in Hj. destruct (Hall _ _ _ _ Hj) as (es1 & es2 & -> & Hh).
    exists es1, es2. split; [by rewrite Hst, env_run_app|]. cbv zeta. rewrite length_app in Hlen.
    pose proof (env_run_ok E _ es1 0 b0 He Hwin ltac:(lia) ltac:(lia) Hnew) as Hb. split; [by destruct Hb|].
    destruct c; cbn in Hh; unfold serves in Hh; cbn in Hh; injection Hh as <-; [done|]. by apply range_order_insert, eo_c.
Qed.

(** ** Starting and stopping *)

(** A broker can be started once. When the socket cannot be bound, the broker
    stays in the starting state and refuses every later [Start] until it is
    stopped; a broker that was stopped accepts [Start], but its context is
    cancelled and its channels are closed: every turn of the message loop
    returns or panics without looking at a message, and the next [Stop]
    panics. *)
Theorem mlm_start_once (e : error) (turn : M mlmBroker unit) (b : mlmBroker) (choice : bool) :
  (∃ l, mlm_Start (Some e) new_brokerLife = (Fail (Wrap "failed to bind ROUTER socket" e), l) ∧
     ∀ listen', mlm_Start listen' l = (Fail (Errorf "broker already started"), l)) ∧
  ∀ l, (mlm_Start None;; mlm_Stop) new_brokerLife = (Ret tt, l) →
    ∃ l', mlm_Start None l = (Ret tt, l') ∧ bf_state l' = 2 ∧
    messageLoop_select choice l' turn b = (if choice then Panic "nil pointer dereference" else Ret false, b) ∧
    ∃ l'', mlm_Stop l' = (Panic "close of closed channel", l'').
Proof.
  split; [by eexists|]. intros l Hl. cbn in Hl. injection Hl as <-.
  eexists. split_and!; [reflexivity|done|by destruct choice|]. by eexists.
Qed.

(** [Stop] may hang: a goroutine that has a message or a command in hand takes
    the mutex that [Stop] holds while it waits for it. *)
Theorem mlm_stop_may_hang (state : Z) : state ≠ 0 →
  (∃ c, rtc lock_step (mkLocks None ∅ [mlm_Stop_locks state; updateClientActivity_locks]) c ∧ (∀ c', ¬ lock_step c c') ∧ lk_threads c !! 0%nat ≠ Some []) ∧
  (∃ c, rtc lock_step (mkLocks None ∅ [mlm_Stop_locks state; broker_handleCommand_locks]) c ∧ (∀ c', ¬ lock_step c c') ∧ lk_threads c !! 0%nat ≠ Some []).
Proof.
  intros Hs. unfold mlm_Stop_locks. rewrite decide_False by done. split; [exact (proj1 lock_and_wait_may_hang)|].
  exists (mkLocks (Some 0%nat) ∅ [[WaitOthers; Unlock]; [RLock; RUnlock]]). split; [|split; [|done]].
  - apply rtc_once. exact (step_Lock 0 _ [lock_and_wait; broker_handleCommand_locks] eq_refl).
  - intros c' Hstep. inversion Hstep as [|j p ts rs Hj| |j p ts w rs Hj Hin|j p ts w rs Hj Hdone]; subst.
    + by destruct (decide (0%nat = 0%nat)).
    + by apply gmultiset_not_elem_of_empty in Hin.
    + destruct j as [|[|j]]; cbn in Hj; simplify_eq. specialize (Hdone 1%nat [RLock; RUnlock] ltac:(done) eq_refl). done.
Qed.

(** A client connects, and [GetClients] returns it. *)
Definition demo_open : list mlmEvent := [demo_frame MessageTypeConnectionOpen demo_open_body; BMessage demo_handling].
Definition demo_server : Server mlmBroker brokerCmd brokerReply Z := broker_server demo_env.
Definition open_state : mlmBroker := env_run demo_env demo_open (NewMlmBroker 100 5 5 5 5 0 0 0 0).
Definition open_labels : list (@label brokerCmd brokerReply Z) :=
  let r := ReplyClients (bk_clients open_state) in [LBg; LBg; LCall 0 get_clients; LServe 7 0 get_clients (Some r); LReturn 0 r].

Lemma open_run : ∃ s, actor_run (srv := demo_server) (actor_start (NewMlmBroker 100 5 5 5 5 0 0 0 0)) open_labels s.
Proof.
  eexists. unfold open_labels.
  eapply run_cons; [apply a_bg, (bb_subsystem demo_env (demo_frame MessageTypeConnectionOpen demo_open_body))|].
  eapply run_cons; [apply a_bg, (bb_subsystem demo_env (BMessage demo_handling))|].
  eapply run_cons; [apply (a_call true); [apply not_elem_of_empty|reflexivity]|].
  eapply run_cons; [eapply a_serve; [reflexivity|reflexivity| |reflexivity]|].
  - cbn. unfold serves. cbn. by do 3 f_equal.
  - eapply run_cons; [apply a_return; reflexivity|]. constructor.
Qed.

Lemma mlm_server_runs_witness : size (bk_clients open_state) = 1%nat ∧
  ∃ s, actor_run (srv := demo_server) (actor_start (NewMlmBroker 100 5 5 5 5 0 0 0 0)) open_labels s ∧ mlm_ok 100 5 (at_state s).
Proof.
  split; [by vm_compute|]. destruct open_run as [s Hrun]. exists s. split; [exact Hrun|].
  refine (proj1 (mlm_server_runs demo_env 100 5 5 5 5 0 0 0 0 open_labels s demo_env_ok _ _ Hrun)); reflexivity.
Defined.
