(* ===== verification/MlmClient.v ===== *)
(** * MlmClient: the client of the Malamute broker (src/malamute/client.go)

    The state of a client, the calls that queue a request for the broker, and
    one turn of each of its goroutines. Channels are the lists of what they
    hold; a [select] between a send that has room and a cancelled context is
    decided by an argument. [Connect] and [Disconnect] are modelled up to the
    point where they draw a sequence number, and as their operations on the
    mutex. The codecs the source calls and does not define are parameters. *)

From Stdlib Require Import Strings.Byte ZArith Lia.
From stdpp Require Import base strings numbers gmap list.
From S2P Require Import Prelude Reader MlmMessage MlmCredit MlmBroker Locks.

#[local] Open Scope Z_scope.
#[local] Set Default Goal Selector "!".

Definition MessageTypeStreamSend : byte := x0c.
Definition MessageTypeMailboxDeliver : byte := x16.
Definition MessageTypeServiceDeliver : byte := x22.

Definition ClientTypeGeneral : Z := 0.
Definition ClientTypePublisher : Z := 1.
Definition ClientTypeSubscriber : Z := 2.
Definition ClientTypeWorker : Z := 3.
Definition ClientTypeRequester : Z := 4.

Definition mlm_DefaultEndpoint : bytes := gs "tcp://localhost:9999".
Definition mlm_DefaultHeartbeatInterval : Z := 5000 * 1000000.
Definition mlm_DefaultClientTimeout : Z := 60000 * 1000000.
Definition mlm_DefaultRetryInterval : Z := 1000 * 1000000.

Record ClientConfig : Type := mkClientConfig {
  cc_ClientID : bytes;
  cc_BrokerEndpoint : bytes;
  cc_HeartbeatInterval : Z;
  cc_Timeout : Z;
  cc_CreditWindow : Z;
  cc_MaxRetries : Z;
  cc_RetryInterval : Z;
  cc_Verbose : bool }.

Record MessageResponse : Type := mkMsgResponse {
  mr_Message : mlmMessage;
  mr_Error : option error;
  mr_Timestamp : Z }.

Record MalamuteClient : Type := mkMlmClient {
  mc_config : ClientConfig;
  mc_clientID : bytes;
  mc_clientType : Z;
  mc_outgoing : list mlmMessage;
  mc_incoming : list mlmMessage;
  mc_state : Z;                                  (* 0 disconnected, 1 connecting, 2 connected, 3 disconnecting *)
  mc_cancelled : bool;                           (* [ctx] *)
  mc_sequenceNum : Z;
  mc_credit : Z;
  mc_creditChan : list Z;
  mc_pendingResponses : gmap Z nat;              (* sequence number to channel *)
  mc_channels : gmap nat (list MessageResponse); (* what the response channels hold *)
  mc_wire : list bytes                           (* what the DEALER socket was given *) }.

Definition set_mc_type (v : Z) (c : MalamuteClient) : MalamuteClient :=
  mkMlmClient (mc_config c) (mc_clientID c) v (mc_outgoing c) (mc_incoming c) (mc_state c) (mc_cancelled c)
    (mc_sequenceNum c) (mc_credit c) (mc_creditChan c) (mc_pendingResponses c) (mc_channels c) (mc_wire c).
Definition set_mc_outgoing (v : list mlmMessage) (c : MalamuteClient) : MalamuteClient :=
  mkMlmClient (mc_config c) (mc_clientID c) (mc_clientType c) v (mc_incoming c) (mc_state c) (mc_cancelled c)
    (mc_sequenceNum c) (mc_credit c) (mc_creditChan c) (mc_pendingResponses c) (mc_channels c) (mc_wire c).
Definition set_mc_incoming (v : list mlmMessage) (c : MalamuteClient) : MalamuteClient :=
  mkMlmClient (mc_config c) (mc_clientID c) (mc_clientType c) (mc_outgoing c) v (mc_state c) (mc_cancelled c)
    (mc_sequenceNum c) (mc_credit c) (mc_creditChan c) (mc_pendingResponses c) (mc_channels c) (mc_wire c).
Definition set_mc_state (v : Z) (c : MalamuteClient) : MalamuteClient :=
  mkMlmClient (mc_config c) (mc_clientID c) (mc_clientType c) (mc_outgoing c) (mc_incoming c) v (mc_cancelled c)
    (mc_sequenceNum c) (mc_credit c) (mc_creditChan c) (mc_pendingResponses c) (mc_channels c) (mc_wire c).
Definition set_mc_sequence (v : Z) (c : MalamuteClient) : MalamuteClient :=
  mkMlmClient (mc_config c) (mc_clientID c) (mc_clientType c) (mc_outgoing c) (mc_incoming c) (mc_state c)
    (mc_cancelled c) v (mc_credit c) (mc_creditChan c) (mc_pendingResponses c) (mc_channels c) (mc_wire c).
Definition set_mc_credit (v : Z) (ch : list Z) (c : MalamuteClient) : MalamuteClient :=
  mkMlmClient (mc_config c) (mc_clientID c) (mc_clientType c) (mc_outgoing c) (mc_incoming c) (mc_state c)
    (mc_cancelled c) (mc_sequenceNum c) v ch (mc_pendingResponses c) (mc_channels c) (mc_wire c).
Definition set_mc_responses (p : gmap Z nat) (ch : gmap nat (list MessageResponse)) (c : MalamuteClient) : MalamuteClient :=
  mkMlmClient (mc_config c) (mc_clientID c) (mc_clientType c) (mc_outgoing c) (mc_incoming c) (mc_state c)
    (mc_cancelled c) (mc_sequenceNum c) (mc_credit c) (mc_creditChan c) p ch (mc_wire c).
Definition set_mc_wire (v : list bytes) (c : MalamuteClient) : MalamuteClient :=
  mkMlmClient (mc_config c) (mc_clientID c) (mc_clientType c) (mc_outgoing c) (mc_incoming c) (mc_state c)
    (mc_cancelled c) (mc_sequenceNum c) (mc_credit c) (mc_creditChan c) (mc_pendingResponses c) (mc_channels c) v.

(** [generateClientID], from the eight random bytes it reads. *)
Definition generateClientID (random : bytes) : bytes := gs "client-" ++ fmt_x random.

Definition NewMalamuteClient (random : bytes) (config : option ClientConfig) : MalamuteClient :=
  let config := match config with
    | Some config => config
    | None => mkClientConfig (generateClientID random) mlm_DefaultEndpoint mlm_DefaultHeartbeatInterval
                mlm_DefaultClientTimeout DefaultCreditWindow 3 mlm_DefaultRetryInterval false
    end in
  let config :=
    if decide (cc_ClientID config = []) then
      mkClientConfig (generateClientID random) (cc_BrokerEndpoint config) (cc_HeartbeatInterval config)
        (cc_Timeout config) (cc_CreditWindow config) (cc_MaxRetries config) (cc_RetryInterval config) (cc_Verbose config)
    else config in
  mkMlmClient config (cc_ClientID config) ClientTypeGeneral [] [] 0 false 0 0 [] ∅ ∅ [].

Definition mc_queue_cap : Z := 1000.
Definition mc_credit_cap : Z := 100.

(** [nextSequence] on [uint32]. *)
Definition mc_nextSequence : M MalamuteClient Z := fun c =>
  let n := wrapu 32 (mc_sequenceNum c + 1) in (Ret n, set_mc_sequence n c).

(** The [select] of the requests: the queue, the context, or neither; [pick]
    chooses the queue when both are ready. *)
Definition mc_offer (pick : bool) (message : mlmMessage) : M MalamuteClient unit :=
  c ← mget;
  let room := bool_decide (len (mc_outgoing c) < mc_queue_cap) in
  if room && (negb (mc_cancelled c) || pick) then mupd (set_mc_outgoing (mc_outgoing c ++ [message]))
  else if mc_cancelled c then mfail (CtxErr false)
  else mfail (Errorf "outgoing queue full").

(** [body, _ := x.Marshal()]: nil when it fails. *)
Definition body_of (o : outcome bytes) : bytes := match o with Ret b => b | _ => [] end.

Section client.
Context (a_range : gmap bytes bytes → list (bytes * bytes)).

(** A request of type [ty]: number it, put the body in, queue it. *)
Definition mc_request (pick : bool) (ty : byte) (body : bytes) : M MalamuteClient unit :=
  seq ← mc_nextSequence;
  c ← mget;
  mc_offer pick (set_ml_Body body (CreateMessage ty (mc_clientID c) seq)).

(** ** The interfaces *)

Definition mc_Publisher : M MalamuteClient unit := mupd (set_mc_type ClientTypePublisher).
Definition mc_Subscriber : M MalamuteClient unit := mupd (set_mc_type ClientTypeSubscriber).
Definition mc_Worker : M MalamuteClient unit := mupd (set_mc_type ClientTypeWorker).
Definition mc_ServiceClient : M MalamuteClient unit := mupd (set_mc_type ClientTypeRequester).
Definition mc_GetCredit (c : MalamuteClient) : Z := mc_credit c.

Definition mc_RequestCredit (pick : bool) (amount : Z) : M MalamuteClient unit :=
  mc_request pick MessageTypeCreditRequest (body_of (CreditRequest_Marshal a_range (mkCreditRequest amount))).

Definition PublishWithAttributes (pick : bool) (stream subject body : bytes) (attributes : gmap bytes bytes)
    : M MalamuteClient unit :=
  mc_request pick MessageTypeStreamWrite (body_of (StreamWrite_Marshal a_range (mkStreamWrite stream subject attributes body))).

Definition mc_Publish (pick : bool) (stream subject body : bytes) : M MalamuteClient unit :=
  PublishWithAttributes pick stream subject body ∅.

(** A subscriber: what [Subscribe] assigns, and the channel it makes. *)
Record StreamSubscriber : Type := mkSubscriber { ssub_stream : bytes; ssub_pattern : bytes; ssub_messages : option (list bytes) }.

Definition mc_Subscribe (pick : bool) (stream pattern : bytes) : M (StreamSubscriber * MalamuteClient) unit :=
  upd_fst (fun _ => mkSubscriber stream pattern (Some []));;
  on_snd (mc_request pick MessageTypeStreamRead (body_of (StreamRead_Marshal a_range (mkStreamRead stream pattern ∅)))).

(** [int64(timeout / time.Millisecond)] *)
Definition to_milliseconds (timeout : Z) : Z := Z.quot timeout 1000000.

Definition SendWithTracker (pick : bool) (address subject body tracker : bytes) (timeout : Z) : M MalamuteClient unit :=
  mc_request pick MessageTypeMailboxSend
    (body_of (MailboxSend_Marshal a_range (mkMailboxSend address subject tracker (to_milliseconds timeout) ∅ body))).

Definition mc_Send (pick : bool) (address subject body : bytes) : M MalamuteClient unit :=
  SendWithTracker pick address subject body [] 0.

Definition mc_Worker_Start (pick : bool) (service pattern : bytes) : M MalamuteClient unit :=
  mc_request pick MessageTypeServiceOffer (body_of (ServiceOffer_Marshal a_range (mkServiceOffer service pattern ∅))).

Record ServiceReplyMessage : Type := mkServiceReply {
  rp_Tracker : bytes; rp_Status : Z; rp_Attributes : gmap bytes bytes; rp_Body : bytes }.

Context (ServiceReply_Marshal : ServiceReplyMessage → outcome bytes).
Context (ServiceRequest_Marshal : ServiceRequestMessage → outcome bytes).
Context (ConnectionPing_Marshal : Z → outcome bytes).
Context (CreditConfirm_Unmarshal : bytes → option Z).

Definition mc_Reply (pick : bool) (tracker : bytes) (status : Z) (body : bytes) : M MalamuteClient unit :=
  mc_request pick MessageTypeServiceReply (body_of (ServiceReply_Marshal (mkServiceReply tracker status ∅ body))).

Definition mc_Request (pick : bool) (service method tracker body : bytes) (timeout : Z) : M MalamuteClient unit :=
  mc_request pick MessageTypeServiceRequest
    (body_of (ServiceRequest_Marshal (mkServiceRequest service method tracker (to_milliseconds timeout) ∅ body))).

(** ** The goroutines, one turn each *)

(** [socketLoop] on the frames of a received message. *)
Definition mc_socketLoop (frames : list bytes) : M MalamuteClient unit := mupd (fun c =>
  match frames with
  | [] => c
  | frame :: _ =>
      match Message_Unmarshal frame zero_ml with
      | (Ret _, message) =>
          if decide (len (mc_incoming c) < mc_queue_cap) then set_mc_incoming (mc_incoming c ++ [message]) c else c
      | _ => c
      end
  end).

(** [sendMessage]: one frame, unless the message cannot be encoded. *)
Definition mc_sendMessage (message : mlmMessage) : M MalamuteClient unit := mupd (fun c =>
  match Message_Marshal a_range message with
  | Ret data => set_mc_wire (mc_wire c ++ [data]) c
  | _ => c
  end).

Definition mc_outgoingLoop : M MalamuteClient unit :=
  c ← mget;
  match mc_outgoing c with
  | [] => mret tt
  | message :: rest => mupd (set_mc_outgoing rest);; mc_sendMessage message
  end.

(** The [default] case of [processIncoming]: a response to a request. *)
Definition mc_respond (now : Z) (message : mlmMessage) (c : MalamuteClient) : MalamuteClient :=
  match mc_pendingResponses c !! ml_Sequence message with
  | None => c
  | Some ch =>
      let pending := delete (ml_Sequence message) (mc_pendingResponses c) in
      let held := default [] (mc_channels c !! ch) in
      set_mc_responses pending
        (if decide (len held < 1) then <[ch := held ++ [mkMsgResponse message None now]]> (mc_channels c) else mc_channels c) c
  end.

Definition mc_processIncoming (now : Z) (message : mlmMessage) : M MalamuteClient unit := mupd (fun c =>
  let ty := ml_Type message in
  if decide (ty = MessageTypeConnectionPong) then c
  else if decide (ty = MessageTypeCreditConfirm) then
    match CreditConfirm_Unmarshal (ml_Body message) with
    | None => c
    | Some credit =>
        set_mc_credit (wraps 32 (mc_credit c + credit))
          (if decide (len (mc_creditChan c) < mc_credit_cap) then mc_creditChan c ++ [credit] else mc_creditChan c) c
    end
  else if decide (ty = MessageTypeStreamSend) then c
  else if decide (ty = MessageTypeMailboxDeliver) then c
  else if decide (ty = MessageTypeServiceDeliver) then c
  else if decide (ty = MessageTypeError) then c
  else mc_respond now message c).

Definition mc_incomingLoop (now : Z) : M MalamuteClient unit :=
  c ← mget;
  match mc_incoming c with
  | [] => mret tt
  | message :: rest => mupd (set_mc_incoming rest);; mc_processIncoming now message
  end.

(** [sendHeartbeat]: a full queue drops the ping. *)
Definition mc_sendHeartbeat (now : Z) : M MalamuteClient unit :=
  c ← mget;
  if decide (mc_state c ≠ 2) then mret tt
  else
    seq ← mc_nextSequence;
    let message := set_ml_Body (body_of (ConnectionPing_Marshal now)) (CreateMessage MessageTypeConnectionPing (mc_clientID c) seq) in
    mupd (fun c => if decide (len (mc_outgoing c) < mc_queue_cap) then set_mc_outgoing (mc_outgoing c ++ [message]) c else c).
End client.

(** ** Connecting and disconnecting *)

(** [Connect] up to [c.nextSequence()], with the answer of [Dial]. *)
Definition Connect_prefix (dial : option error) : M MalamuteClient unit :=
  c ← mget;
  if decide (mc_state c ≠ 0) then mfail (Errorf "client already connected")
  else
    mupd (set_mc_state 1);;
    match dial with
    | Some e => mfail (Wrap "failed to connect to broker" e)
    | None => mret tt
    end.

(** [Disconnect] up to [c.nextSequence()]: whether it gets there. *)
Definition Disconnect_prefix : M MalamuteClient bool :=
  c ← mget;
  if decide (mc_state c = 0) then mret false else mupd (set_mc_state 3);; mret true.

(** What [nextSequence] does with the mutex, and what [Connect] and
    [Disconnect] do when they get to it: the deferred unlock comes last. *)
Definition mc_nextSequence_locks : list lock_op := [Lock; Unlock].
Definition mc_Connect_locks : list lock_op := [Lock] ++ mc_nextSequence_locks ++ [Lock; Unlock] ++ [Unlock].
Definition mc_Disconnect_locks : list lock_op := [Lock] ++ mc_nextSequence_locks ++ [WaitOthers] ++ [Unlock].
