(* ===== verification/MlmClientFacts.v ===== *)
(** * MlmClientFacts: the Malamute client and the broker it talks to

    What a client queues reaches the broker in order and is decoded to what
    was asked; what the broker answers never resolves a pending response and
    what it delivers is dropped; connecting and disconnecting wait for a mutex
    their own goroutine holds. *)

From Stdlib Require Import Strings.Byte ZArith Lia.
From stdpp Require Import base strings numbers gmap list relations gmultiset.
From S2P Require Import Prelude Locks Reader MlmMessage MlmCredit MlmMailbox MlmStream MlmService MlmBroker MlmClient.
From stdpp Require Import list.

#[local] Open Scope Z_scope.
#[local] Set Default Goal Selector "!".

(** ** Requests *)

(** The requests whose codec the source defines. *)
Inductive mc_req : Type :=
| RPublish (stream subject : bytes) (attributes : gmap bytes bytes) (body : bytes)
| RSubscribe (stream pattern : bytes)
| RSend (address subject body tracker : bytes) (timeout : Z)
| ROffer (service pattern : bytes)
| RCredit (amount : Z).

Section requests.
Context (a_range : gmap bytes bytes → list (bytes * bytes)) (Hr : range_order a_range).

(** The call of the client. [Subscribe] also fills in its subscriber. *)
Definition mc_call (pick : bool) (r : mc_req) : M MalamuteClient unit :=
  match r with
  | RPublish stream subject attributes body => PublishWithAttributes a_range pick stream subject body attributes
  | RSubscribe stream pattern => fun c =>
      let '(o, (_, c')) := mc_Subscribe a_range pick stream pattern (mkSubscriber [] [] None, c) in (o, c')
  | RSend address subject body tracker timeout => SendWithTracker a_range pick address subject body tracker timeout
  | ROffer service pattern => mc_Worker_Start a_range pick service pattern
  | RCredit amount => mc_RequestCredit a_range pick amount
  end.

Definition req_type (r : mc_req) : byte :=
  match r with
  | RPublish _ _ _ _ => MessageTypeStreamWrite
  | RSubscribe _ _ => MessageTypeStreamRead
  | RSend _ _ _ _ _ => MessageTypeMailboxSend
  | ROffer _ _ => MessageTypeServiceOffer
  | RCredit _ => MessageTypeCreditRequest
  end.

(** The body of the message, as the call encodes it. *)
Definition req_body (r : mc_req) : outcome bytes :=
  match r with
  | RPublish stream subject attributes body => StreamWrite_Marshal a_range (mkStreamWrite stream subject attributes body)
  | RSubscribe stream pattern => StreamRead_Marshal a_range (mkStreamRead stream pattern ∅)
  | RSend address subject body tracker timeout =>
      MailboxSend_Marshal a_range (mkMailboxSend address subject tracker (to_milliseconds timeout) ∅ body)
  | ROffer service pattern => ServiceOffer_Marshal a_range (mkServiceOffer service pattern ∅)
  | RCredit amount => CreditRequest_Marshal a_range (mkCreditRequest amount)
  end.

(** The broker decodes a body to what was asked. *)
Definition understood (r : mc_req) (body : bytes) : Prop :=
  match r with
  | RPublish stream subject attributes b =>
      unmarshal StreamWrite_Unmarshal zero_sw body = Some (mkStreamWrite stream subject attributes b)
  | RSubscribe stream pattern => unmarshal StreamRead_Unmarshal zero_sr body = Some (mkStreamRead stream pattern ∅)
  | RSend address subject b tracker timeout =>
      unmarshal MailboxSend_Unmarshal zero_ms body =
        Some (mkMailboxSend address subject tracker (to_milliseconds timeout) ∅ b)
  | ROffer service pattern => unmarshal ServiceOffer_Unmarshal zero_so body = Some (mkServiceOffer service pattern ∅)
  | RCredit amount => unmarshal CreditRequest_Unmarshal (mkCreditRequest 0) body = Some (mkCreditRequest amount)
  end.

(** Requests that fit: names of at most 255 bytes, an [int64] timeout, and a
    body that fits into its envelope. *)
Definition req_fits (r : mc_req) : Prop :=
  match r with
  | RPublish stream subject attributes body => StreamWrite_ok (mkStreamWrite stream subject attributes body)
  | RSubscribe stream pattern => StreamRead_ok (mkStreamRead stream pattern ∅)
  | RSend address subject body tracker timeout =>
      MailboxSend_ok (mkMailboxSend address subject tracker (to_milliseconds timeout) ∅ body)
  | ROffer service pattern => ServiceOffer_ok (mkServiceOffer service pattern ∅)
  | RCredit amount => CreditRequest_ok (mkCreditRequest amount)
  end ∧ len (body_of (req_body r)) <= MaxMessageSize.

Lemma wire_understood {T} `{Wire T} (v : T) (f : bytes → M T unit) (z : T) o :
  round_trips T → w_ok v → o = w_marshal a_range v → f = w_unmarshal → z = w_zero →
  ∃ b, o = Ret b ∧ unmarshal f z b = Some v.
Proof.
  intros Ht Hok -> -> ->. destruct (Ht a_range v Hr Hok) as (b & E & U). exists b. split; [done|].
  unfold unmarshal. by rewrite U.
Qed.

Lemma req_understood r : req_fits r → ∃ b, req_body r = Ret b ∧ understood r b.
Proof.
  intros [Hf _]. destruct r; cbn [req_body understood].
  - exact (wire_understood (H := StreamWrite_wire) _ _ _ _ StreamWrite_round_trips Hf eq_refl eq_refl eq_refl).
  - exact (wire_understood (H := StreamRead_wire) _ _ _ _ StreamRead_round_trips Hf eq_refl eq_refl eq_refl).
  - exact (wire_understood (H := MailboxSend_wire) _ _ _ _ MailboxSend_round_trips Hf eq_refl eq_refl eq_refl).
  - exact (wire_understood (H := ServiceOffer_wire) _ _ _ _ ServiceOffer_round_trips Hf eq_refl eq_refl eq_refl).
  - exact (wire_understood (H := CreditRequest_wire) _ _ _ _ CreditRequest_round_trips Hf eq_refl eq_refl eq_refl).
Qed.

(** The message a request becomes. *)
Definition req_message (id : bytes) (seq : Z) (r : mc_req) : mlmMessage :=
  set_ml_Body (body_of (req_body r)) (CreateMessage (req_type r) id seq).

(** Any call is [mc_request] with its type and body. *)
Lemma mc_call_request pick r c : mc_call pick r c = mc_request pick (req_type r) (body_of (req_body r)) c.
Proof.
  destruct r; try done. cbn [mc_call req_type req_body]. unfold mc_Subscribe, on_snd, upd_fst, mbind, M_bind, mupd.
  by destruct (mc_request _ _ _ _).
Qed.

(** [c] after queuing the message of [r]. *)
Definition queued (r : mc_req) (c : MalamuteClient) : MalamuteClient :=
  let n := wrapu 32 (mc_sequenceNum c + 1) in
  set_mc_outgoing (mc_outgoing c ++ [req_message (mc_clientID c) n r]) (set_mc_sequence n c).

Lemma mc_call_queues pick r c :
  mc_cancelled c = false → len (mc_outgoing c) < mc_queue_cap → mc_call pick r c = (Ret tt, queued r c).
Proof.
  intros Hc Hl. rewrite mc_call_request. unfold mc_request, mc_nextSequence, mc_offer, mbind, M_bind, mget, mupd. cbn.
  rewrite bool_decide_eq_true_2, Hc by done. done.
Qed.

(** A full queue refuses, and the number is used up. *)
Lemma mc_call_full pick r c :
  mc_cancelled c = false → mc_queue_cap <= len (mc_outgoing c) →
  mc_call pick r c = (Fail (Errorf "outgoing queue full"), set_mc_sequence (wrapu 32 (mc_sequenceNum c + 1)) c).
Proof.
  intros Hc Hl. rewrite mc_call_request. unfold mc_request, mc_nextSequence, mc_offer, mbind, M_bind, mget. cbn.
  rewrite bool_decide_eq_false_2, Hc by lia. done.
Qed.

(** A sequence of calls, each of which must succeed, and [n] turns of the
    sender. *)
Fixpoint mc_calls (rs : list (bool * mc_req)) : M MalamuteClient unit :=
  match rs with
  | [] => mret tt
  | (pick, r) :: rs => mc_call pick r;; mc_calls rs
  end.

Fixpoint mc_drain (n : nat) : M MalamuteClient unit :=
  match n with O => mret tt | S n => mc_outgoingLoop a_range;; mc_drain n end.

(** The messages of [rs] numbered from [seq + 1] on. *)
Fixpoint req_messages (id : bytes) (seq : Z) (rs : list mc_req) : list mlmMessage :=
  match rs with
  | [] => []
  | r :: rs => let n := wrapu 32 (seq + 1) in req_message id n r :: req_messages id n rs
  end.

Lemma mc_calls_queue rs : ∀ c,
  mc_cancelled c = false → len (mc_outgoing c) + len rs <= mc_queue_cap →
  ∃ c', mc_calls rs c = (Ret tt, c') ∧
    mc_outgoing c' = mc_outgoing c ++ req_messages (mc_clientID c) (mc_sequenceNum c) rs.*2 ∧
    mc_wire c' = mc_wire c ∧ mc_clientID c' = mc_clientID c.
Proof.
  induction rs as [|[pick r] rs IH]; intros c Hc Hl; cbn [mc_calls fmap list_fmap req_messages snd].
  - exists c. by rewrite app_nil_r.
  - rewrite len_cons in Hl. pose proof (len_nonneg rs).
    destruct (IH (queued r c)) as (c' & E & Ho & Hw & Hi); [done|cbn; rewrite len_app; change (len [_]) with 1; lia|].
    exists c'. split; [by mstep (apply mc_call_queues; [done|lia])|].
    split; [|done]. rewrite Ho. cbn. by rewrite <- app_assoc.
Qed.

Lemma req_message_ok id seq r :
  req_fits r → len id <= MaxClientID → 0 <= seq < 2 ^ 32 → Message_ok (req_message id seq r).
Proof. intros [_ Hb] Hi Hs. unfold Message_ok, req_message. cbn. split_and!; try done; lia. Qed.

Lemma mc_drain_sends ms : ∀ c,
  mc_outgoing c = ms → Forall Message_ok ms →
  ∃ c' ws, mc_drain (length ms) c = (Ret tt, c') ∧ mc_wire c' = mc_wire c ++ ws ∧ mc_outgoing c' = [] ∧
    Forall2 (fun w m => Message_Unmarshal w zero_ml = (Ret tt, m)) ws ms.
Proof.
  induction ms as [|m ms IH]; intros c Ho Hok; cbn [mc_drain length].
  - exists c, []. by rewrite app_nil_r.
  - apply Forall_cons in Hok as [Hm Hok].
    destruct (Message_round_trips a_range m Hr Hm) as (w & Em & Um).
    destruct (IH (set_mc_wire (mc_wire c ++ [w]) (set_mc_outgoing ms c)) eq_refl Hok) as (c' & ws & E & Hw & Ho' & F).
    exists c', (w :: ws). split_and!; [|by rewrite Hw; cbn; rewrite <- app_assoc|done|by constructor].
    mstep (unfold mc_outgoingLoop; mstep reflexivity; rewrite Ho; mstep reflexivity; unfold mc_sendMessage, mupd;
      cbn in Em; rewrite Em; reflexivity). exact E.
Qed.

Lemma req_messages_ok id rs : ∀ seq,
  len id <= MaxClientID → Forall req_fits rs → Forall Message_ok (req_messages id seq rs).
Proof.
  induction rs as [|r rs IH]; intros seq Hi Hf; cbn [req_messages]; constructor; apply Forall_cons in Hf as [Hr' Hf].
  - apply req_message_ok; try done. unfold wrapu. apply Z.mod_pos_bound. lia.
  - by apply IH.
Qed.
End requests.

Lemma req_messages_lookup a_range id rs : ∀ seq i r,
  rs !! i = Some r →
  req_messages a_range id seq rs !! i = Some (req_message a_range id (wrapu 32 (seq + Z.of_nat i + 1)) r).
Proof.
  induction rs as [|r0 rs IH]; intros seq i r Hi; [done|]. destruct i as [|i]; cbn [req_messages].
  - injection Hi as ->. cbn. do 3 f_equal. lia.
  - cbn in Hi |- *. rewrite (IH _ i r Hi). do 2 f_equal. unfold wrapu. rewrite Zplus_assoc_reverse, Zplus_mod_idemp_l.
    f_equal. lia.
Qed.

Lemma socketLoop_queues a_range rid w m (b : mlmBroker) :
  Message_Unmarshal w zero_ml = (Ret tt, m) → len (bk_messages b) < messages_cap →
  bk_messages (socketLoop a_range [rid; w] b).2 = bk_messages b ++ [(rid, m)].
Proof.
  intros U Hb. cbn [socketLoop]. rewrite U. unfold mbind, M_bind, mget. by rewrite decide_True by done.
Qed.

(** From the client to the broker: any sequence of at most 1000 requests
    (publications, subscriptions, mailbox messages, service offers, credit
    requests) whose fields fit is accepted by a client with an empty queue;
    after as many turns of its sender, each has become one frame, in order;
    and a broker with room that reads the frame behind the identity of its
    sender queues a message of the right type, with the client's name and the
    next sequence number, whose body decodes to what was asked. *)
Theorem mlm_client_requests (a_range b_range : gmap bytes bytes → list (bytes * bytes)) (c : MalamuteClient)
    (rs : list (bool * mc_req)) :
  range_order a_range → mc_cancelled c = false → mc_outgoing c = [] → len (mc_clientID c) <= MaxClientID →
  len rs <= mc_queue_cap → Forall (req_fits a_range) rs.*2 →
  ∃ c' ws, (mc_calls a_range rs;; mc_drain a_range (length rs)) c = (Ret tt, c') ∧
    mc_wire c' = mc_wire c ++ ws ∧ length ws = length rs ∧ mc_outgoing c' = [] ∧
    ∀ i w r, ws !! i = Some w → rs.*2 !! i = Some r →
      ∃ m, ml_Type m = req_type r ∧ ml_ClientID m = mc_clientID c ∧
        ml_Sequence m = wrapu 32 (mc_sequenceNum c + Z.of_nat i + 1) ∧ understood r (ml_Body m) ∧
        ∀ rid b, len (bk_messages b) < messages_cap →
          bk_messages (socketLoop b_range [rid; w] b).2 = bk_messages b ++ [(rid, m)].
Proof.
  intros Hr Hc Ho Hid Hl Hf.
  destruct (mc_calls_queue a_range rs c Hc) as (c1 & E1 & Ho1 & Hw1 & Hi1); [rewrite Ho; change (len (@nil mlmMessage)) with 0; lia|].
  rewrite Ho in Ho1. cbn [app] in Ho1.
  destruct (mc_drain_sends a_range Hr _ c1 Ho1) as (c2 & ws & E2 & Hw2 & Ho2 & F); [by apply req_messages_ok|].
  assert (Hlm : length (req_messages a_range (mc_clientID c) (mc_sequenceNum c) rs.*2) = length rs).
  { clear. generalize (mc_sequenceNum c). induction rs as [|r rs IH]; intros z; [done|]. cbn. by rewrite IH. }
  rewrite Hlm in E2. exists c2, ws. split_and!; [by mstep (exact E1)|by rewrite Hw2, Hw1| |done|].
  - by rewrite (Forall2_length _ _ _ F).
  - intros i w r Hw Hi. pose proof (req_messages_lookup a_range (mc_clientID c) rs.*2 (mc_sequenceNum c) i r Hi) as Hm.
    destruct (Forall2_lookup_l _ _ _ _ _ F Hw) as (m & Hm' & U). rewrite Hm in Hm'. injection Hm' as <-.
    eexists. split_and!; [..|intros rid b Hb; by apply socketLoop_queues]; [done|done|done|].
    destruct (req_understood a_range Hr r) as (bd & Eb & Hu); [by eapply Forall_lookup_1|].
    unfold req_message. cbn [ml_Body set_ml_Body]. by rewrite Eb.
Qed.

Lemma mlm_client_requests_witness :
  ∃ c' ws,
    (mc_calls map_to_list [(true, RPublish (gs "weather") (gs "paris") ∅ (gs "sunny")); (true, RCredit 50)];;
     mc_drain map_to_list 2) (NewMalamuteClient (gs "random..") None) = (Ret tt, c') ∧
    mc_wire c' = ws ∧ length ws = 2%nat.
Proof.
  destruct (mlm_client_requests map_to_list map_to_list (NewMalamuteClient (gs "random..") None)
    [(true, RPublish (gs "weather") (gs "paris") ∅ (gs "sunny")); (true, RCredit 50)]) as (c' & ws & E & Hw & Hl & _).
  - by intros m.
  - reflexivity.
  - reflexivity.
  - vm_compute. congruence.
  - vm_compute. congruence.
  - repeat constructor; cbn; try done; vm_compute; congruence.
  - exists c', ws. exact (conj E (conj Hw Hl)).
Defined.

(** ** Answers *)

(** The types of everything the broker sends back. *)
Definition answer_type (ty : byte) : Prop :=
  ty = MessageTypeError ∨ ty = MessageTypeConnectionPong ∨ ty = MessageTypeCreditConfirm.

Definition answers_ok (b : mlmBroker) : Prop := Forall (fun cm => answer_type (ml_Type cm.2)) (bk_responses b).

Section answers.
Context (error_text : error → bytes).
Context (ConnectionPing_Unmarshal : bytes → option Z) (ConnectionPong_Marshal : Z → bytes).
Context (ServiceRequest_Unmarshal : bytes → option ServiceRequestMessage) (CreditConfirm_Marshal : Z → bytes).
Context (a_range : gmap bytes bytes → list (bytes * bytes)).
Context (k_range : gmap bytes ClientCredit → list (bytes * ClientCredit)).
Context (s_range : gmap bytes Stream → list (bytes * Stream)).
Context (m_range : gmap bytes Mailbox → list (bytes * Mailbox)).
Context (v_range : gmap bytes mlmService → list (bytes * mlmService)).
Context (w_range : gmap bytes ServiceWorker → list (bytes * ServiceWorker)).

Lemma answers_queue c m : answer_type (ml_Type m) → keeps answers_ok (queueResponse c m).
Proof.
  intros Hm. apply keeps_upd. intros b Hb. case_decide; [|done]. unfold answers_ok. cbn. apply Forall_app. split; [done|].
  by constructor.
Qed.

Lemma answers_error c code r sq : keeps answers_ok (sendError a_range c code r sq).
Proof. apply answers_queue. by left. Qed.

Lemma answers_credit {A} (m : M CreditController A) : keeps answers_ok (on_credit m).
Proof. intros b Hb. unfold on_credit. by destruct (m (bk_credit b)). Qed.
Lemma answers_streams {A} (m : M StreamManager A) : keeps answers_ok (on_streams m).
Proof. intros b Hb. unfold on_streams. by destruct (m (bk_streams b)). Qed.
Lemma answers_mailboxes {A} (m : M MailboxManager A) : keeps answers_ok (on_mailboxes m).
Proof. intros b Hb. unfold on_mailboxes. by destruct (m (bk_mailboxes b)). Qed.
Lemma answers_services {A} (m : M ServiceManager A) : keeps answers_ok (on_services m).
Proof. intros b Hb. unfold on_services. by destruct (m (bk_services b)). Qed.
Lemma answers_sequence : keeps answers_ok nextSequence.
Proof. by intros b Hb. Qed.
Lemma answers_stats f : keeps answers_ok (mupd (fun b => set_bk_stats (f b) b)).
Proof. by apply keeps_upd. Qed.
Lemma answers_activity now c : keeps answers_ok (updateClientActivity now c).
Proof. apply keeps_upd. intros b Hb. by destruct (bk_clients b !! c). Qed.
#[local] Hint Resolve answers_error answers_credit answers_streams answers_mailboxes answers_services
  answers_sequence answers_stats answers_activity : keeps.

Lemma answers_reporting {A} c sq (call : M mlmBroker A) ok :
  keeps answers_ok call → (∀ a, keeps answers_ok (ok a)) → keeps answers_ok (reporting error_text a_range c sq call ok).
Proof. intros H1 H2. apply keeps_bind; [by apply keeps_try|]. intros [a|e]; [apply H2|apply answers_error]. Qed.

Lemma answers_message h c m :
  keeps answers_ok (mlm_processClientMessage error_text ConnectionPing_Unmarshal ConnectionPong_Marshal
    ServiceRequest_Unmarshal CreditConfirm_Marshal a_range k_range s_range m_range v_range w_range h c m).
Proof.
  unfold mlm_processClientMessage. apply keeps_bind; [apply answers_activity|]. intros _.
  repeat (case_decide; [shelve|]); auto with keeps.
  Unshelve. all: unfold handleConnectionOpen, handleConnectionPing, handleConnectionClose, removeClient, handleStreamWrite,
    handleStreamRead, handleStreamCancel, handleMailboxSend, handleMailboxReceive, handleServiceOffer, handleServiceWithdraw,
    handleServiceRequest, handleServiceReply, handleCreditRequest;
    repeat first [ progress intros | solve [auto with keeps] | apply answers_reporting | apply keeps_bind | apply keeps_try
      | apply answers_queue; (by right; left) || (by right; right) | apply answers_stats | (apply keeps_upd; intros b' Hb'; done)
      | (apply keeps_upd; intros b' Hb'; case_decide; done) | case_match | case_decide ].
Qed.
End answers.

(** ** What the client makes of them *)

(** Decoding gives a message of the type in its first byte. *)
Definition typed (t : byte) (s : mlmMessage * bytes) : Prop := ml_Type s.1 = t.

Lemma typed_on_snd t {A} (m : M bytes A) : keeps (typed t) (on_snd (S := mlmMessage) m).
Proof. intros [v r] H. unfold on_snd. by destruct (m r). Qed.

Lemma typed_upd t (f : mlmMessage → mlmMessage) : (∀ v, ml_Type (f v) = ml_Type v) → keeps (typed t) (upd_fst (T := bytes) f).
Proof. intros Hf. apply keeps_upd. intros [v r] H. unfold typed in *. cbn in *. by rewrite Hf. Qed.

Lemma typed_map_loop t what n : keeps (typed t) (read_map_loop ml_Attributes set_ml_Attributes what n).
Proof.
  induction n as [|n IH]; cbn [read_map_loop]; [apply keeps_ret|].
  repeat (apply keeps_bind; [try apply keeps_wrapE; first [apply typed_on_snd|by apply typed_upd]|intros ?]). exact IH.
Qed.

Lemma Message_Unmarshal_type t rest m :
  Message_Unmarshal (t :: rest) zero_ml = (Ret tt, m) → ml_Type m = t.
Proof.
  unfold Message_Unmarshal. case_decide; [done|]. unfold decode. rewrite (M_bind_ret (on_snd rd_byte) _ (zero_ml, t :: rest) t (zero_ml, rest)) by done.
  cbv beta. rewrite (M_bind_ret (upd_fst (set_ml_Type t)) _ (zero_ml, rest) tt (set_ml_Type t zero_ml, rest)) by done. cbv beta.
  match goal with |- context [let '(_, _) := ?p ?s in _] => set (q := p); assert (keeps (typed t) q) as K end.
  - unfold q, read_int, read_field, read_map, read_blob.
    repeat (apply keeps_bind; [repeat apply keeps_bind|intros ?]);
      repeat first [ progress intros | apply keeps_wrapE | apply typed_on_snd | by apply typed_upd | apply typed_map_loop
        | apply keeps_bind | apply keeps_ret | case_decide ].
  - specialize (K (set_ml_Type t zero_ml, rest) eq_refl).
    destruct (q (set_ml_Type t zero_ml, rest)) as [r [m' r']]. intros [= -> ->]. exact K.
Qed.

(** The types [processIncoming] does not look up among the pending responses. *)
Definition passive_type (ty : byte) : Prop :=
  answer_type ty ∨ ty = MessageTypeStreamSend ∨ ty = MessageTypeMailboxDeliver ∨ ty = MessageTypeServiceDeliver.

Lemma processIncoming_passive CreditConfirm_Unmarshal now m c :
  passive_type (ml_Type m) →
  let c' := (mc_processIncoming CreditConfirm_Unmarshal now m c).2 in
  mc_pendingResponses c' = mc_pendingResponses c ∧ mc_channels c' = mc_channels c ∧
  (ml_Type m ≠ MessageTypeCreditConfirm → c' = c).
Proof.
  intros H. unfold mc_processIncoming, mupd. cbn [snd].
  assert (ml_Type m = MessageTypeError ∨ ml_Type m = MessageTypeConnectionPong ∨ ml_Type m = MessageTypeCreditConfirm ∨
    ml_Type m = MessageTypeStreamSend ∨ ml_Type m = MessageTypeMailboxDeliver ∨ ml_Type m = MessageTypeServiceDeliver) as H'
    by (unfold passive_type, answer_type in H; tauto).
  destruct H' as [E|[E|[E|[E|[E|E]]]]]; rewrite E; try by cbn.
  cbn. destruct (CreditConfirm_Unmarshal (ml_Body m)); done.
Qed.

Lemma processIncoming_incoming CreditConfirm_Unmarshal now m c :
  mc_incoming (mc_processIncoming CreditConfirm_Unmarshal now m c).2 = mc_incoming c.
Proof. unfold mc_processIncoming, mc_respond, mupd. cbn [snd]. repeat case_match; done. Qed.

(** The broker never answers a request in a way the client notices. What
    the broker sends in any history is an error, a pong or a credit
    confirmation; a frame of these, and a delivery of a stream, a mailbox or a
    service, is read and processed by the client without looking at its
    pending responses, and except for a credit confirmation without any
    effect: the response that [Connect] waits for never comes, and a
    subscriber, a mailbox or a worker receives nothing. *)
Theorem mlm_client_unanswered (error_text : error → bytes)
    (ConnectionPing_Unmarshal : bytes → option Z) (ConnectionPong_Marshal : Z → bytes)
    (ServiceRequest_Unmarshal : bytes → option ServiceRequestMessage) (CreditConfirm_Marshal : Z → bytes)
    (a_range : gmap bytes bytes → list (bytes * bytes)) (k_range : gmap bytes ClientCredit → list (bytes * ClientCredit))
    (s_range : gmap bytes Stream → list (bytes * Stream)) (m_range : gmap bytes Mailbox → list (bytes * Mailbox))
    (v_range : gmap bytes mlmService → list (bytes * mlmService)) (w_range : gmap bytes ServiceWorker → list (bytes * ServiceWorker))
    (CreditConfirm_Unmarshal : bytes → option Z) :
  (∀ (msgs : list (handling * bytes * mlmMessage)) b, bk_responses b = [] →
     Forall (fun cm => answer_type (ml_Type cm.2)) (bk_responses (foldl (fun b '(h, id, m) =>
       (mlm_processClientMessage error_text ConnectionPing_Unmarshal ConnectionPong_Marshal ServiceRequest_Unmarshal
          CreditConfirm_Marshal a_range k_range s_range m_range v_range w_range h id m b).2) b msgs))) ∧
  (∀ b id data b' cl now, Forall (fun cm => answer_type (ml_Type cm.2)) (bk_responses b) →
     sendResponse a_range true b = (Ret (Some (id, data)), b') → mc_incoming cl = [] →
     let cl' := (mc_socketLoop [data];; mc_incomingLoop CreditConfirm_Unmarshal now) cl in
     mc_pendingResponses cl'.2 = mc_pendingResponses cl ∧ mc_channels cl'.2 = mc_channels cl ∧ mc_incoming cl'.2 = []) ∧
  (∀ now m cl, ml_Type m = MessageTypeStreamSend ∨ ml_Type m = MessageTypeMailboxDeliver ∨ ml_Type m = MessageTypeServiceDeliver →
     mc_processIncoming CreditConfirm_Unmarshal now m cl = (Ret tt, cl)).
Proof.
  split_and!.
  - intros msgs b Hb. assert (answers_ok b) as Hok by (unfold answers_ok; by rewrite Hb). clear Hb. revert b Hok.
    induction msgs as [|[[h id] m] msgs IH]; intros b Hok; cbn [foldl]; [done|]. apply IH, answers_message, Hok.
  - intros b id data b' cl now Hok E Hin. unfold sendResponse in E.
    destruct (bk_responses b) as [|[id' m] rest] eqn:Er; [done|].
    apply Forall_cons in Hok as [Hm _]. cbn [snd] in Hm.
    destruct (Message_Marshal a_range m) as [data'| |] eqn:Em; [|done|done]. injection E as <- <- <-.
    assert (∃ r, data' = ml_Type m :: r) as [r ->].
    { unfold Message_Marshal in Em. repeat (destruct (write_string _ _ _) || destruct (write_map _ _ _) || destruct (write_blob _ _ _ _));
        cbn in Em; try done. injection Em as <-. by eexists. }
    unfold mc_socketLoop, mupd, mc_incomingLoop, mget, mbind, M_bind. cbn [fst snd].
    destruct (Message_Unmarshal (ml_Type m :: r) zero_ml) as [[[]| |] m'] eqn:U; try (by rewrite Hin).
    apply Message_Unmarshal_type in U. rewrite Hin. rewrite decide_True by done. cbn [app mc_incoming set_mc_incoming].
    destruct (processIncoming_passive CreditConfirm_Unmarshal now m' (set_mc_incoming [] (set_mc_incoming [m'] cl))) as (H1 & H2 & _);
      [left; by rewrite U|]. split_and!; [exact H1|exact H2|].
    apply processIncoming_incoming.
  - intros now m cl H. unfold mc_processIncoming, mupd. destruct H as [E|[E|E]]; by rewrite E.
Qed.

(** ** Connecting *)

(** A client cannot connect, and cannot disconnect once it has tried.
    [Connect] of a fresh client whose dialing succeeds reaches the call that
    draws a sequence number while it holds the client's mutex, which that call
    asks for: whatever other goroutines do, it never returns. If dialing
    fails, the client stays in the connecting state: later calls of [Connect]
    are refused, and [Disconnect] reaches the same call under the same mutex
    and never returns either. *)
Theorem mlm_connect_hangs (random : bytes) (config : option ClientConfig) (e : error) (others : list (list lock_op)) (w : locks) :
  let c := NewMalamuteClient random config in
  (∃ c', Connect_prefix None c = (Ret tt, c') ∧ mc_state c' = 1) ∧
  (rtc lock_step (mkLocks None ∅ (mc_Connect_locks :: others)) w → lk_threads w !! 0%nat ≠ Some []) ∧
  (∃ c', Connect_prefix (Some e) c = (Fail (Wrap "failed to connect to broker" e), c') ∧
     (∀ d, Connect_prefix d c' = (Fail (Errorf "client already connected"), c')) ∧
     (∃ c'', Disconnect_prefix c' = (Ret true, c''))) ∧
  (rtc lock_step (mkLocks None ∅ (mc_Disconnect_locks :: others)) w → lk_threads w !! 0%nat ≠ Some []) ∧
  Disconnect_prefix c = (Ret false, c).
Proof.
  intros c. split_and!.
  - by eexists.
  - apply (self_locked_stuck 0 Lock ([Unlock] ++ [Lock; Unlock] ++ [Unlock])); [by left|]. by left.
  - eexists. split; [reflexivity|]. split; [done|]. by eexists.
  - apply (self_locked_stuck 0 Lock ([Unlock] ++ [WaitOthers] ++ [Unlock])); [by left|]. by left.
  - reflexivity.
Qed.

Lemma mlm_connect_hangs_witness :
  lk_threads (mkLocks (Some 0%nat) ∅ [[Lock; Unlock; Lock; Unlock; Unlock]]) !! 0%nat ≠ Some [].
Proof.
  refine (proj1 (proj2 (mlm_connect_hangs [] None EOF [] _)) _).
  apply rtc_once. exact (step_Lock 0 _ [mc_Connect_locks] eq_refl).
Defined.
