(* ===== verification/MlmSecurity.v ===== *)
(** * MlmSecurity: the security layer of Malamute (src/malamute/security.go)

    Mechanisms, the manager that applies one to a socket, the secured broker
    and client, certificates, authorisation, and the two readings of a security
    configuration. The names of the socket options and [GetCurrentTimestamp]
    are not declared in the repository: they are parameters. *)

From Stdlib Require Import Strings.Byte ZArith Lia.
From stdpp Require Import base strings numbers gmap list.
From S2P Require Import Prelude Z85 Zmtp Conn Curve Sockets CoreSocket Reader.

#[local] Open Scope Z_scope.
#[local] Set Default Goal Selector "!".

(** ** Mechanisms *)

Inductive mlm_mechanism : Type :=
| MlmPlain (Username Password : bytes)
| MlmCurve (ServerKey PublicKey SecretKey : bytes)
| MlmNull.

#[export] Instance mlm_mechanism_eq_dec : EqDecision mlm_mechanism.
Proof. solve_decision. Defined.

Record mlm_options : Type := mkMlmOptions {
  mo_PlainUsername : string;
  mo_PlainPassword : string;
  mo_CurveServerKey : string;
  mo_CurvePublicKey : string;
  mo_CurveSecretKey : string }.

Section apply.
Context (opts : mlm_options).

(** [socket.SetOption] of a socket that may be the nil interface. *)
Definition sock_SetOption (name : string) (v : bytes) : M (option socket) unit := fun s =>
  match s with
  | None => (Panic "invalid memory address or nil pointer dereference", None)
  | Some k =>
      let '(o, (_, (k', _))) := socket_SetOption (SS := unit) (X := unit) name (OString v) (∅, (k, tt)) in (o, Some k')
  end.

Definition PlainSecurity_Apply (u p : bytes) : M (option socket) unit :=
  wrapE "failed to set PLAIN username" (sock_SetOption (mo_PlainUsername opts) u);;
  wrapE "failed to set PLAIN password" (sock_SetOption (mo_PlainPassword opts) p).

Definition CurveSecurity_Apply (srv pk sk : bytes) : M (option socket) unit :=
  wrapE "failed to set CURVE server key" (sock_SetOption (mo_CurveServerKey opts) srv);;
  wrapE "failed to set CURVE public key" (sock_SetOption (mo_CurvePublicKey opts) pk);;
  wrapE "failed to set CURVE secret key" (sock_SetOption (mo_CurveSecretKey opts) sk).

Definition NullSecurity_Apply : M (option socket) unit := mret tt.

Definition mlm_Apply (m : mlm_mechanism) : M (option socket) unit :=
  match m with
  | MlmPlain u p => PlainSecurity_Apply u p
  | MlmCurve srv pk sk => CurveSecurity_Apply srv pk sk
  | MlmNull => NullSecurity_Apply
  end.

Definition mlm_GetMechanism (m : mlm_mechanism) : bytes :=
  match m with MlmPlain _ _ => PlainSecurity | MlmCurve _ _ _ => CurveSecurity | MlmNull => NullSecurity end.

Definition PlainSecurity_GetCredentials (u p : bytes) : Attributes := {[gs "username" := u; gs "password" := p]}.
Definition CurveSecurity_GetCredentials (srv pk sk : bytes) : Attributes :=
  {[gs "server_key" := srv; gs "public_key" := pk; gs "secret_key" := sk]}.

Definition mlm_GetCredentials (m : mlm_mechanism) : Attributes :=
  match m with
  | MlmPlain u p => PlainSecurity_GetCredentials u p
  | MlmCurve srv pk sk => CurveSecurity_GetCredentials srv pk sk
  | MlmNull => ∅
  end.

(** The manager: the mechanism, nil before one is set. *)
Definition mlm_ApplyToSocket (mechanism : option mlm_mechanism) : M (option socket) unit :=
  match mechanism with
  | None => mfail (Errorf "no security mechanism configured")
  | Some m => mlm_Apply m
  end.

(** [SecureBroker.Start] and [SecureClient.Connect]: the mechanism is applied
    to the socket, then the broker is started or the client connected, which is
    [start] on what the broker or client is; that is where the socket is
    made. *)
Definition secure_start {A B} (fmt : string) (mechanism : option mlm_mechanism) (start : M A B) : M (option socket * A) B := fun '(s, a) =>
  match wrapE fmt (mlm_ApplyToSocket mechanism) s with
  | (Ret _, s) => let '(o, a) := start a in (o, (s, a))
  | (Fail e, s) => (Fail e, (s, a))
  | (Panic p, s) => (Panic p, (s, a))
  end.

Definition SecureBroker_Start {A} (mechanism : option mlm_mechanism) (start : M A unit) : M (option socket * A) unit :=
  secure_start "failed to apply security to broker socket" mechanism start.
Definition SecureClient_Connect {A} (mechanism : option mlm_mechanism) (connect : M A unit) : M (option socket * A) unit :=
  secure_start "failed to apply security to client socket" mechanism connect.
End apply.

(** ** Certificates *)

Record CurveCertificate : Type := mkCertificate {
  ct_PublicKey : bytes;
  ct_SecretKey : bytes;
  ct_Metadata : Attributes;
  ct_CreatedAt : Z;
  ct_ExpiresAt : Z }.

Abbreviation CertificateManager := (gmap bytes CurveCertificate).

Definition AddCertificate (id : bytes) (cert : CurveCertificate) (cm : CertificateManager) : CertificateManager := <[id := cert]> cm.
Definition GetCertificate (id : bytes) (cm : CertificateManager) : option CurveCertificate := cm !! id.
Definition RemoveCertificate (id : bytes) (cm : CertificateManager) : CertificateManager := delete id cm.
Definition ValidateCertificate (now : Z) (id : bytes) (cm : CertificateManager) : bool :=
  match cm !! id with
  | None => false
  | Some cert => negb (bool_decide (0 < ct_ExpiresAt cert ∧ ct_ExpiresAt cert < now))
  end.

(** ** Authorisation *)

(** [authorizedClients] maps to [true] only. *)
Record AuthenticationHandler : Type := mkAuth { ah_authorized : gset bytes; ah_certManager : CertificateManager }.

Definition NewAuthenticationHandler : AuthenticationHandler := mkAuth ∅ ∅.
Definition AuthorizeClient (id : bytes) (h : AuthenticationHandler) : AuthenticationHandler := mkAuth ({[id]} ∪ ah_authorized h) (ah_certManager h).
Definition RevokeClient (id : bytes) (h : AuthenticationHandler) : AuthenticationHandler := mkAuth (ah_authorized h ∖ {[id]}) (ah_certManager h).
Definition IsAuthorized (id : bytes) (h : AuthenticationHandler) : bool := bool_decide (id ∈ ah_authorized h).

Inductive auth_op : Type :=
| AuAuthorize (id : bytes) | AuRevoke (id : bytes) | AuAdd (id : bytes) (cert : CurveCertificate) | AuRemove (id : bytes).

Definition auth_apply (h : AuthenticationHandler) (o : auth_op) : AuthenticationHandler :=
  match o with
  | AuAuthorize id => AuthorizeClient id h
  | AuRevoke id => RevokeClient id h
  | AuAdd id cert => mkAuth (ah_authorized h) (AddCertificate id cert (ah_certManager h))
  | AuRemove id => mkAuth (ah_authorized h) (RemoveCertificate id (ah_certManager h))
  end.

(** ** Configuration *)

Record MlmSecurityConfig : Type := mkMlmConfig {
  mc_Mechanism : bytes;
  mc_PlainUsername : bytes;
  mc_PlainPassword : bytes;
  mc_CurveServerKey : bytes;
  mc_CurvePublicKey : bytes;
  mc_CurveSecretKey : bytes }.

Definition CreateSecurityFromConfig (config : option MlmSecurityConfig) : outcome mlm_mechanism :=
  match config with
  | None => Ret MlmNull
  | Some c =>
      if decide (mc_Mechanism c = gs "null" ∨ mc_Mechanism c = []) then Ret MlmNull
      else if decide (mc_Mechanism c = gs "plain") then
        if decide (mc_PlainUsername c = []) then Fail (Errorf "PLAIN username required")
        else Ret (MlmPlain (mc_PlainUsername c) (mc_PlainPassword c))
      else if decide (mc_Mechanism c = gs "curve") then
        if decide (mc_CurveServerKey c = [] ∨ mc_CurvePublicKey c = [] ∨ mc_CurveSecretKey c = []) then Fail (Errorf "CURVE keys required")
        else Ret (MlmCurve (mc_CurveServerKey c) (mc_CurvePublicKey c) (mc_CurveSecretKey c))
      else Fail (Errorf "unsupported security mechanism")
  end.

Definition ValidateSecurityConfig (config : option MlmSecurityConfig) : outcome unit :=
  match config with
  | None => Ret tt
  | Some c =>
      if decide (mc_Mechanism c = gs "null" ∨ mc_Mechanism c = []) then Ret tt
      else if decide (mc_Mechanism c = gs "plain") then
        if decide (mc_PlainUsername c = []) then Fail (Errorf "PLAIN username is required") else Ret tt
      else if decide (mc_Mechanism c = gs "curve") then
        if decide (mc_CurveServerKey c = []) then Fail (Errorf "CURVE server key is required")
        else if decide (mc_CurvePublicKey c = []) then Fail (Errorf "CURVE public key is required")
        else if decide (mc_CurveSecretKey c = []) then Fail (Errorf "CURVE secret key is required")
        else if decide (len (mc_CurveServerKey c) ≠ 40) then Fail (Errorf "CURVE server key must be 40 characters")
        else if decide (len (mc_CurvePublicKey c) ≠ 40) then Fail (Errorf "CURVE public key must be 40 characters")
        else if decide (len (mc_CurveSecretKey c) ≠ 40) then Fail (Errorf "CURVE secret key must be 40 characters")
        else Ret tt
      else Fail (Errorf "unsupported security mechanism")
  end.

Definition CreateSecureEndpoint (baseEndpoint : bytes) (security : mlm_mechanism) : bytes := baseEndpoint.

(** ** What a validated configuration is worth *)

Definition keys_of (m : mlm_mechanism) : list bytes := match m with MlmCurve srv pk sk => [srv; pk; sk] | _ => [] end.

Lemma Validate_Create config :
  ValidateSecurityConfig config = Ret tt ↔ ∃ m, CreateSecurityFromConfig config = Ret m ∧ Forall (fun k => len k = 40) (keys_of m).
Proof.
  unfold ValidateSecurityConfig, CreateSecurityFromConfig. destruct config as [c|]; [|split; [intros _; exists MlmNull; split; [reflexivity|constructor]|done]].
  destruct (decide (mc_Mechanism c = gs "null" ∨ mc_Mechanism c = [])); [split; [intros _; exists MlmNull; split; [reflexivity|constructor]|done]|].
  destruct (decide (mc_Mechanism c = gs "plain")).
  { destruct (decide (mc_PlainUsername c = [])); [split; [done|by intros (m & E & _)]|]. split; [intros _; eexists; split; [reflexivity|constructor]|done]. }
  destruct (decide (mc_Mechanism c = gs "curve")); [|split; [done|by intros (m & E & _)]].
  split.
  - repeat (case_decide; [done|]). intros _. rewrite decide_False by tauto. eexists. split; [reflexivity|].
    cbn. repeat constructor; lia.
  - intros (m & E & HF). case_decide as Hk; [done|]. injection E as <-. cbn in HF. repeat (apply Forall_cons in HF as [? HF]).
    repeat (rewrite decide_False by tauto). done.
Qed.

(** The validator and the constructor of a security configuration agree
    except on the length of keys: a validated configuration gives a mechanism
    whose keys have 40 characters; the constructor accepts a configuration that
    the validator refuses exactly when the mechanism is CURVE and a key has another
    length; and a validated key need not be a key, since 40 characters that are
    no Z85 text pass both and are refused by the CURVE mechanism. *)
Theorem mlm_config_agree config :
  (ValidateSecurityConfig config = Ret tt ↔ ∃ m, CreateSecurityFromConfig config = Ret m ∧ Forall (fun k => len k = 40) (keys_of m)) ∧
  (∀ m, CreateSecurityFromConfig config = Ret m → ValidateSecurityConfig config ≠ Ret tt → Exists (fun k => len k ≠ 40) (keys_of m)) ∧
  (let key := replicate 40 x20 in
   let c := Some (mkMlmConfig (gs "curve") [] [] key key key) in
   ValidateSecurityConfig c = Ret tt ∧ CreateSecurityFromConfig c = Ret (MlmCurve key key key) ∧ ValidateZ85Key key ≠ Ret tt).
Proof.
  split; [apply Validate_Create|]. split.
  - intros m E Hv. apply not_Forall_Exists; [intros k; apply _|]. intros HF. apply Hv, Validate_Create. by exists m.
  - split_and!; by vm_compute.
Qed.

(** ** Securing a broker or a client *)

(** Security that is configured keeps a broker or client from starting:
    the mechanism is applied to the socket before there is one, so with PLAIN or
    CURVE starting panics, whatever the broker or client would do, and leaves
    it as it was; with NULL it starts as if there were no security layer;
    without a mechanism it fails. *)
Theorem mlm_security_panics {A} opts fmt m (start : M A unit) (a : A) :
  (m ≠ MlmNull → secure_start opts fmt (Some m) start (None, a) = (Panic "invalid memory address or nil pointer dereference", (None, a))) ∧
  secure_start opts fmt (Some MlmNull) start (None, a) = ((start a).1, (None, (start a).2)) ∧
  secure_start opts fmt None start (None, a) = (Fail (Wrap fmt (Errorf "no security mechanism configured")), (None, a)).
Proof.
  split_and!.
  - by destruct m.
  - unfold secure_start. cbn. by destruct (start a).
  - done.
Qed.

(** On a socket that is there the mechanism only stores properties. *)
Lemma mlm_Apply_props opts m k :
  ∃ props, mlm_Apply opts m (Some k) =
    (Ret tt, Some (set_options props (sk_heartbeatIVL k) (sk_heartbeatTTL k) (sk_heartbeatTimeout k) (sk_heartbeatStarted k) k)).
Proof. destruct m; [by eexists|by eexists|]. exists (sk_props k). by destruct k. Qed.

(** ** Authorisation *)

(** The last decision on a client. *)
Definition authorized_after (id : bytes) (ops : list auth_op) (b : bool) : bool :=
  foldl (fun b o => match o with
    | AuAuthorize id' => bool_decide (id' = id) || b
    | AuRevoke id' => negb (bool_decide (id' = id)) && b
    | _ => b end) b ops.

Definition certificate_after (id : bytes) (ops : list auth_op) (c : option CurveCertificate) : option CurveCertificate :=
  foldl (fun c o => match o with
    | AuAdd id' cert => if bool_decide (id' = id) then Some cert else c
    | AuRemove id' => if bool_decide (id' = id) then None else c
    | _ => c end) c ops.

(** A client is authorised when the last decision about it was to
    authorise it, and a certificate is valid when it is the last one added
    under its name, was not removed since, and does not expire or expires no
    earlier than now; the two registers do not affect each other. *)
Theorem mlm_authorization h ops id now :
  let h' := foldl auth_apply h ops in
  IsAuthorized id h' = authorized_after id ops (IsAuthorized id h) ∧
  GetCertificate id (ah_certManager h') = certificate_after id ops (GetCertificate id (ah_certManager h)) ∧
  (ValidateCertificate now id (ah_certManager h') = true ↔
   ∃ cert, certificate_after id ops (GetCertificate id (ah_certManager h)) = Some cert ∧ (ct_ExpiresAt cert <= 0 ∨ now <= ct_ExpiresAt cert)).
Proof.
  assert (Hrun : ∀ h, IsAuthorized id (foldl auth_apply h ops) = authorized_after id ops (IsAuthorized id h) ∧
    GetCertificate id (ah_certManager (foldl auth_apply h ops)) = certificate_after id ops (GetCertificate id (ah_certManager h))).
  { clear h. induction ops as [|o ops IH]; intros h; [done|]. cbn [foldl authorized_after certificate_after].
    destruct (IH (auth_apply h o)) as [-> ->]. unfold authorized_after, certificate_after, IsAuthorized, GetCertificate. cbn [foldl].
    split; f_equal; destruct o as [i|i|i c|i]; cbn; unfold AddCertificate, RemoveCertificate; repeat case_bool_decide; simplify_map_eq; first [done|exfalso; set_solver]. }
  destruct (Hrun h) as [H1 H2]. split_and!; [done..|]. cbv zeta. rewrite <- H2. unfold ValidateCertificate, GetCertificate.
  destruct (ah_certManager (foldl auth_apply h ops) !! id) as [cert|]; [|naive_solver].
  rewrite negb_true_iff, bool_decide_eq_false. split; [intros H; exists cert; split; [done|lia]|]. intros (c & [= <-] & H). lia.
Qed.
