(* ===== verification/DafkaMessage.v ===== *)
(** * DafkaMessage: messages of the Dafka streaming platform

    src/dafka/message.go and the types of src/dafka/protocol.go: the envelope
    and the nine bodies, each with its [Marshal] and [Unmarshal], over the
    readers and writers of [Reader]; the functions that create messages. Each
    codec is an instance of the class [Wire]. *)

From Stdlib Require Import Strings.Byte ZArith Lia.
From stdpp Require Import base strings numbers gmap list.
From S2P Require Import Prelude Reader MlmMessage.

#[local] Open Scope Z_scope.
#[local] Set Default Goal Selector "!".

Definition DafkaVersion : byte := x01.
Definition ProtocolSignature1 : byte := xaa.
Definition ProtocolSignature2 : byte := xa0.
Definition MaxTopicLength : Z := 255.
Definition MaxRecordSize : Z := 1024 * 1024.
Definition MessageTypeStoreHello : byte := x01.
Definition MessageTypeConsumerHello : byte := x02.
Definition MessageTypeRecord : byte := x03.
Definition MessageTypeAck : byte := x04.
Definition MessageTypeHead : byte := x05.
Definition MessageTypeFetch : byte := x06.

Abbreviation Headers := (gmap bytes bytes).

(** A record of a topic; the timestamp is in nanoseconds since 1970. *)
Record dafkaRecord : Type := mkRecord {
  rec_Topic : bytes;
  rec_Partition : bytes;
  rec_Offset : Z;
  rec_Key : bytes;
  rec_Value : bytes;
  rec_Headers : Headers;
  rec_Timestamp : Z }.

(** The states a node goes through. *)
Inductive NodeState : Type := NodeStateStopped | NodeStateStarting | NodeStateRunning | NodeStateStopping.

#[export] Instance NodeState_eq_dec : EqDecision NodeState.
Proof. solve_decision. Defined.

(** The counters of [Statistics], unsigned 64-bit integers. *)
Inductive stat : Type :=
| RecordsProduced | BytesProduced | ProduceErrors
| RecordsConsumed | BytesConsumed | ConsumeErrors
| RecordsStored | BytesStored | StoreErrors
| MessagesIn | MessagesOut | BytesIn | BytesOut
| Connections | Reconnects.

#[export] Instance stat_eq_dec : EqDecision stat.
Proof. solve_decision. Defined.

Definition Statistics : Type := stat → Z.
Definition zero_stats : Statistics := fun _ => 0.
Definition bump (f : stat) (n : Z) (st : Statistics) : Statistics := fun g =>
  if decide (g = f) then wrapu 64 (st g + n) else st g.

(** ** The envelope *)

Record dafkaMessage : Type := mkDafka {
  dm_Signature : byte * byte;
  dm_Version : byte;
  dm_Type : byte;
  dm_Topic : bytes;
  dm_Body : bytes }.

Definition set_dm_Version (v : byte) (m : dafkaMessage) : dafkaMessage :=
  mkDafka (dm_Signature m) v (dm_Type m) (dm_Topic m) (dm_Body m).
Definition set_dm_Type (v : byte) (m : dafkaMessage) : dafkaMessage :=
  mkDafka (dm_Signature m) (dm_Version m) v (dm_Topic m) (dm_Body m).
Definition set_dm_Topic (v : bytes) (m : dafkaMessage) : dafkaMessage :=
  mkDafka (dm_Signature m) (dm_Version m) (dm_Type m) v (dm_Body m).
Definition set_dm_Body (v : bytes) (m : dafkaMessage) : dafkaMessage :=
  mkDafka (dm_Signature m) (dm_Version m) (dm_Type m) (dm_Topic m) v.
Definition zero_dm : dafkaMessage := mkDafka (x00, x00) x00 x00 [] [].

Definition dafka_Marshal (m : dafkaMessage) : outcome bytes :=
  w ← write_string MaxTopicLength "topic too long" (dm_Topic m);
  Ret ([ProtocolSignature1; ProtocolSignature2; dm_Version m; dm_Type m] ++ w ++ dm_Body m).

(** The errors of the first reads are dropped: five bytes are there. The
    signature is compared, not stored. [Read] of the body into a buffer of
    the length that is left gives EOF when nothing is; that error is dropped
    too. *)
Definition dafka_Unmarshal (data : bytes) : M dafkaMessage unit :=
  if decide (len data < 5) then mfail (Errorf "message too short")
  else decode (
    sig1 ← on_snd rd_byte;
    sig2 ← on_snd rd_byte;
    if decide (sig1 ≠ ProtocolSignature1 ∨ sig2 ≠ ProtocolSignature2) then
      mfail (Errorf "invalid protocol signature")
    else
      version ← on_snd rd_byte;
      upd_fst (set_dm_Version version);;
      msgType ← on_snd rd_byte;
      upd_fst (set_dm_Type msgType);;
      topicLen ← wrapE "failed to read topic length" (on_snd rd_byte);
      (if decide (0 < byte_Z topicLen) then
         topicBytes ← wrapE "failed to read topic" (on_snd (rd_read (Z.to_nat (byte_Z topicLen))));
         upd_fst (set_dm_Topic topicBytes)
       else mret tt);;
      '(_, rest) ← mget;
      upd_fst (set_dm_Body rest)) data.

Definition dafka_ok (m : dafkaMessage) : Prop :=
  dm_Signature m = (x00, x00) ∧ len (dm_Topic m) <= MaxTopicLength.

(** ** Hello messages *)

Record StoreHelloMessage : Type := mkStoreHello { sh_Address : bytes; sh_Headers : Headers }.

Definition set_sh_Address (v : bytes) (m : StoreHelloMessage) : StoreHelloMessage := mkStoreHello v (sh_Headers m).
Definition set_sh_Headers (v : Headers) (m : StoreHelloMessage) : StoreHelloMessage := mkStoreHello (sh_Address m) v.

Definition StoreHello_Marshal (range : Headers → list (bytes * bytes)) (s : StoreHelloMessage) : outcome bytes :=
  w1 ← write_string 255 "address too long" (sh_Address s);
  w2 ← write_map "header" range (sh_Headers s);
  Ret (w1 ++ w2).

Definition StoreHello_Unmarshal (data : bytes) : M StoreHelloMessage unit :=
  decode (read_field "failed to read address" set_sh_Address;;
    read_map sh_Headers set_sh_Headers "header") data.

Definition StoreHello_ok (m : StoreHelloMessage) : Prop :=
  len (sh_Address m) <= 255 ∧ attrs_ok (sh_Headers m).

Record ConsumerHelloMessage : Type := mkConsumerHello { ch_Address : bytes; ch_Headers : Headers }.

Definition set_ch_Address (v : bytes) (m : ConsumerHelloMessage) : ConsumerHelloMessage := mkConsumerHello v (ch_Headers m).
Definition set_ch_Headers (v : Headers) (m : ConsumerHelloMessage) : ConsumerHelloMessage := mkConsumerHello (ch_Address m) v.

Definition ConsumerHello_Marshal (range : Headers → list (bytes * bytes)) (c : ConsumerHelloMessage) : outcome bytes :=
  w1 ← write_string 255 "address too long" (ch_Address c);
  w2 ← write_map "header" range (ch_Headers c);
  Ret (w1 ++ w2).

Definition ConsumerHello_Unmarshal (data : bytes) : M ConsumerHelloMessage unit :=
  decode (read_field "failed to read address" set_ch_Address;;
    read_map ch_Headers set_ch_Headers "header") data.

Definition ConsumerHello_ok (m : ConsumerHelloMessage) : Prop :=
  len (ch_Address m) <= 255 ∧ attrs_ok (ch_Headers m).

(** ** Records *)

Record RecordMessage : Type := mkRecordMessage {
  rm_Partition : bytes;
  rm_Offset : Z;
  rm_Key : bytes;
  rm_Value : bytes;
  rm_Headers : Headers }.

Definition set_rm_Partition (v : bytes) (m : RecordMessage) : RecordMessage :=
  mkRecordMessage v (rm_Offset m) (rm_Key m) (rm_Value m) (rm_Headers m).
Definition set_rm_Offset (v : Z) (m : RecordMessage) : RecordMessage :=
  mkRecordMessage (rm_Partition m) v (rm_Key m) (rm_Value m) (rm_Headers m).
Definition set_rm_Key (v : bytes) (m : RecordMessage) : RecordMessage :=
  mkRecordMessage (rm_Partition m) (rm_Offset m) v (rm_Value m) (rm_Headers m).
Definition set_rm_Value (v : bytes) (m : RecordMessage) : RecordMessage :=
  mkRecordMessage (rm_Partition m) (rm_Offset m) (rm_Key m) v (rm_Headers m).
Definition set_rm_Headers (v : Headers) (m : RecordMessage) : RecordMessage :=
  mkRecordMessage (rm_Partition m) (rm_Offset m) (rm_Key m) (rm_Value m) v.
Definition zero_rm : RecordMessage := mkRecordMessage [] 0 [] [] ∅.

Definition Record_Marshal (range : Headers → list (bytes * bytes)) (r : RecordMessage) : outcome bytes :=
  w1 ← write_string 255 "partition too long" (rm_Partition r);
  let w2 := be_put 8 (rm_Offset r) in
  w3 ← write_blob 2 "key too long" 65535 (rm_Key r);
  w4 ← write_blob 4 "value too long" MaxRecordSize (rm_Value r);
  w5 ← write_map "header" range (rm_Headers r);
  Ret (w1 ++ w2 ++ w3 ++ w4 ++ w5).

Definition Record_Unmarshal (data : bytes) : M RecordMessage unit :=
  decode (read_field "failed to read partition" set_rm_Partition;;
    read_int "failed to read offset" 8 set_rm_Offset;;
    read_blob "key" 2 set_rm_Key;;
    read_blob "value" 4 set_rm_Value;;
    read_map rm_Headers set_rm_Headers "header") data.

Definition Record_ok (m : RecordMessage) : Prop :=
  len (rm_Partition m) <= 255 ∧ 0 <= rm_Offset m < 2 ^ 64 ∧ len (rm_Key m) <= 65535 ∧
  len (rm_Value m) <= MaxRecordSize ∧ attrs_ok (rm_Headers m).

(** The same format under another name; decoding goes through a fresh
    [RecordMessage], so nothing is assigned when it fails. *)
Record DirectRecordMessage : Type := mkDirectRecord {
  dr_Partition : bytes;
  dr_Offset : Z;
  dr_Key : bytes;
  dr_Value : bytes;
  dr_Headers : Headers }.

Definition zero_dr : DirectRecordMessage := mkDirectRecord [] 0 [] [] ∅.

Definition DirectRecord_Marshal (range : Headers → list (bytes * bytes)) (d : DirectRecordMessage) : outcome bytes :=
  Record_Marshal range (mkRecordMessage (dr_Partition d) (dr_Offset d) (dr_Key d) (dr_Value d) (dr_Headers d)).

Definition DirectRecord_Unmarshal (data : bytes) : M DirectRecordMessage unit := fun d =>
  match Record_Unmarshal data zero_rm with
  | (Ret _, r) => (Ret tt, mkDirectRecord (rm_Partition r) (rm_Offset r) (rm_Key r) (rm_Value r) (rm_Headers r))
  | (Fail e, _) => (Fail e, d)
  | (Panic p, _) => (Panic p, d)
  end.

Definition DirectRecord_ok (d : DirectRecordMessage) : Prop :=
  Record_ok (mkRecordMessage (dr_Partition d) (dr_Offset d) (dr_Key d) (dr_Value d) (dr_Headers d)).

(** ** Offsets: ACK, HEAD, FETCH *)

Record AckMessage : Type := mkAck { ak_Partition : bytes; ak_Offset : Z }.

Definition set_ak_Partition (v : bytes) (m : AckMessage) : AckMessage := mkAck v (ak_Offset m).
Definition set_ak_Offset (v : Z) (m : AckMessage) : AckMessage := mkAck (ak_Partition m) v.

Definition Ack_Marshal (a : AckMessage) : outcome bytes :=
  w1 ← write_string 255 "partition too long" (ak_Partition a);
  Ret (w1 ++ be_put 8 (ak_Offset a)).

Definition Ack_Unmarshal (data : bytes) : M AckMessage unit :=
  decode (read_field "failed to read partition" set_ak_Partition;;
    read_int "failed to read offset" 8 set_ak_Offset) data.

Definition Ack_ok (m : AckMessage) : Prop := len (ak_Partition m) <= 255 ∧ 0 <= ak_Offset m < 2 ^ 64.

Record HeadMessage : Type := mkHead { hd_Partition : bytes; hd_Offset : Z }.

Definition set_hd_Partition (v : bytes) (m : HeadMessage) : HeadMessage := mkHead v (hd_Offset m).
Definition set_hd_Offset (v : Z) (m : HeadMessage) : HeadMessage := mkHead (hd_Partition m) v.
Definition zero_hd : HeadMessage := mkHead [] 0.

Definition Head_Marshal (h : HeadMessage) : outcome bytes :=
  w1 ← write_string 255 "partition too long" (hd_Partition h);
  Ret (w1 ++ be_put 8 (hd_Offset h)).

Definition Head_Unmarshal (data : bytes) : M HeadMessage unit :=
  decode (read_field "failed to read partition" set_hd_Partition;;
    read_int "failed to read offset" 8 set_hd_Offset) data.

Definition Head_ok (m : HeadMessage) : Prop := len (hd_Partition m) <= 255 ∧ 0 <= hd_Offset m < 2 ^ 64.

Record DirectHeadMessage : Type := mkDirectHead { dh_Partition : bytes; dh_Offset : Z }.

Definition DirectHead_Marshal (d : DirectHeadMessage) : outcome bytes :=
  Head_Marshal (mkHead (dh_Partition d) (dh_Offset d)).

Definition DirectHead_Unmarshal (data : bytes) : M DirectHeadMessage unit := fun d =>
  match Head_Unmarshal data zero_hd with
  | (Ret _, h) => (Ret tt, mkDirectHead (hd_Partition h) (hd_Offset h))
  | (Fail e, _) => (Fail e, d)
  | (Panic p, _) => (Panic p, d)
  end.

Definition DirectHead_ok (m : DirectHeadMessage) : Prop := len (dh_Partition m) <= 255 ∧ 0 <= dh_Offset m < 2 ^ 64.

Record FetchMessage : Type := mkFetch { ft_Partition : bytes; ft_Offset : Z; ft_Count : Z }.

Definition set_ft_Partition (v : bytes) (m : FetchMessage) : FetchMessage := mkFetch v (ft_Offset m) (ft_Count m).
Definition set_ft_Offset (v : Z) (m : FetchMessage) : FetchMessage := mkFetch (ft_Partition m) v (ft_Count m).
Definition set_ft_Count (v : Z) (m : FetchMessage) : FetchMessage := mkFetch (ft_Partition m) (ft_Offset m) v.

Definition Fetch_Marshal (f : FetchMessage) : outcome bytes :=
  w1 ← write_string 255 "partition too long" (ft_Partition f);
  Ret (w1 ++ be_put 8 (ft_Offset f) ++ be_put 4 (ft_Count f)).

Definition Fetch_Unmarshal (data : bytes) : M FetchMessage unit :=
  decode (read_field "failed to read partition" set_ft_Partition;;
    read_int "failed to read offset" 8 set_ft_Offset;;
    read_int "failed to read count" 4 set_ft_Count) data.

Definition Fetch_ok (m : FetchMessage) : Prop :=
  len (ft_Partition m) <= 255 ∧ 0 <= ft_Offset m < 2 ^ 64 ∧ 0 <= ft_Count m < 2 ^ 32.

(** GET-HEADS has an empty body. *)
Record GetHeadsMessage : Type := mkGetHeads {}.

Definition GetHeads_Marshal (g : GetHeadsMessage) : outcome bytes := Ret [].
Definition GetHeads_Unmarshal (data : bytes) : M GetHeadsMessage unit := mret tt.

(** ** Creating messages *)

Definition CreateRecordMessage (range : Headers → list (bytes * bytes)) (topic : bytes) (record : dafkaRecord) : outcome dafkaMessage :=
  body ← Record_Marshal range
    (mkRecordMessage (rec_Partition record) (rec_Offset record) (rec_Key record) (rec_Value record) (rec_Headers record));
  Ret (mkDafka (ProtocolSignature1, ProtocolSignature2) DafkaVersion MessageTypeRecord topic body).

Definition CreateAckMessage (topic partition : bytes) (offset : Z) : outcome dafkaMessage :=
  body ← Ack_Marshal (mkAck partition offset);
  Ret (mkDafka (ProtocolSignature1, ProtocolSignature2) DafkaVersion MessageTypeAck topic body).

Definition CreateHeadMessage (topic partition : bytes) (offset : Z) : outcome dafkaMessage :=
  body ← Head_Marshal (mkHead partition offset);
  Ret (mkDafka (ProtocolSignature1, ProtocolSignature2) DafkaVersion MessageTypeHead topic body).

Definition CreateFetchMessage (topic partition : bytes) (offset count : Z) : outcome dafkaMessage :=
  body ← Fetch_Marshal (mkFetch partition offset count);
  Ret (mkDafka (ProtocolSignature1, ProtocolSignature2) DafkaVersion MessageTypeFetch topic body).

(** ** Round trips *)

#[export] Instance dafka_wire : Wire dafkaMessage :=
  {| w_zero := zero_dm; w_marshal _ := dafka_Marshal; w_unmarshal := dafka_Unmarshal; w_ok := dafka_ok |}.
#[export] Instance StoreHello_wire : Wire StoreHelloMessage :=
  {| w_zero := mkStoreHello [] ∅; w_marshal := StoreHello_Marshal; w_unmarshal := StoreHello_Unmarshal; w_ok := StoreHello_ok |}.
#[export] Instance ConsumerHello_wire : Wire ConsumerHelloMessage :=
  {| w_zero := mkConsumerHello [] ∅; w_marshal := ConsumerHello_Marshal; w_unmarshal := ConsumerHello_Unmarshal; w_ok := ConsumerHello_ok |}.
#[export] Instance Record_wire : Wire RecordMessage :=
  {| w_zero := zero_rm; w_marshal := Record_Marshal; w_unmarshal := Record_Unmarshal; w_ok := Record_ok |}.
#[export] Instance DirectRecord_wire : Wire DirectRecordMessage :=
  {| w_zero := zero_dr; w_marshal := DirectRecord_Marshal; w_unmarshal := DirectRecord_Unmarshal; w_ok := DirectRecord_ok |}.
#[export] Instance Ack_wire : Wire AckMessage :=
  {| w_zero := mkAck [] 0; w_marshal _ := Ack_Marshal; w_unmarshal := Ack_Unmarshal; w_ok := Ack_ok |}.
#[export] Instance Head_wire : Wire HeadMessage :=
  {| w_zero := zero_hd; w_marshal _ := Head_Marshal; w_unmarshal := Head_Unmarshal; w_ok := Head_ok |}.
#[export] Instance DirectHead_wire : Wire DirectHeadMessage :=
  {| w_zero := mkDirectHead [] 0; w_marshal _ := DirectHead_Marshal; w_unmarshal := DirectHead_Unmarshal; w_ok := DirectHead_ok |}.
#[export] Instance Fetch_wire : Wire FetchMessage :=
  {| w_zero := mkFetch [] 0 0; w_marshal _ := Fetch_Marshal; w_unmarshal := Fetch_Unmarshal; w_ok := Fetch_ok |}.
#[export] Instance GetHeads_wire : Wire GetHeadsMessage :=
  {| w_zero := mkGetHeads; w_marshal _ := GetHeads_Marshal; w_unmarshal := GetHeads_Unmarshal; w_ok _ := True |}.

(** Encode the header map, then the other fields. *)
Ltac marshal_headers Hr :=
  match goal with Ha : attrs_ok _ |- _ =>
    let wa := fresh "wa" in let Hwa := fresh "Hwa" in
    destruct (write_map_ok "header" _ _ Hr Ha) as [wa Hwa];
    rewrite ?write_string_ok, ?write_blob_ok, ?Hwa by (assumption || lia); cbn [mbind outcome_bind] end.

(** The body of a decoder on the bytes its encoder wrote: the topic, then
    whatever is left. *)
Lemma dafka_Unmarshal_put sig v t topic body :
  len topic <= 255 →
  dafka_Unmarshal ([ProtocolSignature1; ProtocolSignature2; v; t] ++ put_string topic ++ body)
    (mkDafka sig x00 x00 [] []) = (Ret tt, mkDafka sig v t topic body).
Proof.
  intros Ht. unfold dafka_Unmarshal. rewrite decide_False.
  2:{ unfold put_string. cbn [app]. rewrite !len_cons, len_app.
      pose proof (len_nonneg topic). pose proof (len_nonneg body). lia. }
  apply decode_ret with (r := body). unfold put_string. cbn [app].
  mstep reflexivity. mstep reflexivity. rewrite decide_False by (intros [?|?]; done).
  do 4 mstep reflexivity. mstep (apply wrapE_ret, on_snd_ret; reflexivity).
  rewrite byte_Z_Z_byte. rewrite Z.mod_small by (pose proof (len_nonneg topic); lia).
  case_decide as H.
  - mstep (mstep (apply wrapE_ret, on_snd_ret; rewrite len_to_nat; apply rd_read_app; [done|by destruct topic]); reflexivity).
    done.
  - assert (topic = []) as -> by (apply len_nil_iff; pose proof (len_nonneg topic); lia). done.
Qed.

Lemma dafka_round_trips : round_trips dafkaMessage.
Proof.
  intros range [sig v t topic body] Hr [Hs Ht]. cbn in Hs, Ht |- *. subst sig. unfold dafka_Marshal. cbn [dm_Topic].
  rewrite write_string_ok by done. cbn [mbind outcome_bind dm_Version dm_Type dm_Body].
  eexists. split; [done|]. by apply dafka_Unmarshal_put.
Qed.

Lemma StoreHello_round_trips : round_trips StoreHelloMessage.
Proof.
  intros range m Hr [Hd Ha]. cbn. unfold StoreHello_Marshal, StoreHello_Unmarshal. marshal_headers Hr.
  eexists. split; [done|]. apply decode_fields. rewrite <- !app_assoc. read_step. read_last. by destruct m.
Qed.

Lemma ConsumerHello_round_trips : round_trips ConsumerHelloMessage.
Proof.
  intros range m Hr [Hd Ha]. cbn. unfold ConsumerHello_Marshal, ConsumerHello_Unmarshal. marshal_headers Hr.
  eexists. split; [done|]. apply decode_fields. rewrite <- !app_assoc. read_step. read_last. by destruct m.
Qed.

(** [blob_step]: the same as [read_step] for bytes with a length. *)
Ltac blob_step :=
  mstep (apply read_blob_put; [cbn in *; lia|reflexivity|let E := fresh in intros E; rewrite E; reflexivity]).

Lemma Record_round_trips : round_trips RecordMessage.
Proof.
  intros range m Hr (Hp & Ho & Hk & Hv & Ha). cbn. unfold Record_Marshal, Record_Unmarshal. unfold MaxRecordSize in *.
  marshal_headers Hr. eexists. split; [done|]. apply decode_fields. rewrite <- !app_assoc.
  read_step. read_step. blob_step. blob_step. read_last. by destruct m.
Qed.

Lemma DirectRecord_round_trips : round_trips DirectRecordMessage.
Proof.
  intros range m Hr Hm. destruct (Record_round_trips range _ Hr Hm) as (data & Hd & Hu).
  exists data. split; [done|]. cbn in Hu |- *. unfold DirectRecord_Unmarshal. rewrite Hu. by destruct m.
Qed.

Lemma Ack_round_trips : round_trips AckMessage.
Proof.
  intros range m Hr [Hp Ho]. cbn. unfold Ack_Marshal, Ack_Unmarshal. rewrite write_string_ok by done. cbn [mbind outcome_bind].
  eexists. split; [done|]. apply decode_fields. rewrite <- !app_assoc. read_step.
  rewrite read_int_put by (cbn; lia). by destruct m.
Qed.

Lemma Head_round_trips : round_trips HeadMessage.
Proof.
  intros range m Hr [Hp Ho]. cbn. unfold Head_Marshal, Head_Unmarshal. rewrite write_string_ok by done. cbn [mbind outcome_bind].
  eexists. split; [done|]. apply decode_fields. rewrite <- !app_assoc. read_step.
  rewrite read_int_put by (cbn; lia). by destruct m.
Qed.

Lemma DirectHead_round_trips : round_trips DirectHeadMessage.
Proof.
  intros range m Hr Hm. destruct (Head_round_trips range (mkHead (dh_Partition m) (dh_Offset m)) Hr Hm) as (data & Hd & Hu).
  exists data. split; [done|]. cbn in Hu |- *. unfold DirectHead_Unmarshal. rewrite Hu. by destruct m.
Qed.

Lemma Fetch_round_trips : round_trips FetchMessage.
Proof.
  intros range m Hr (Hp & Ho & Hc). cbn. unfold Fetch_Marshal, Fetch_Unmarshal. rewrite write_string_ok by done.
  cbn [mbind outcome_bind].
  eexists. split; [done|]. apply decode_fields. rewrite <- !app_assoc. do 2 read_step.
  rewrite read_int_put by (cbn; lia). by destruct m.
Qed.

(** Every message of the protocol survives the wire: the envelope and the
    bodies STORE-HELLO, CONSUMER-HELLO, RECORD, DIRECT-RECORD, ACK, HEAD,
    DIRECT-HEAD, FETCH and GET-HEADS are encoded whenever their fields fit,
    under any order of iteration of the headers, and decoding the bytes into a
    zero value restores them. *)
Theorem dafka_codecs :
  round_trips dafkaMessage ∧ round_trips StoreHelloMessage ∧ round_trips ConsumerHelloMessage ∧
  round_trips RecordMessage ∧ round_trips DirectRecordMessage ∧ round_trips AckMessage ∧ round_trips HeadMessage ∧
  round_trips DirectHeadMessage ∧ round_trips FetchMessage ∧ round_trips GetHeadsMessage.
Proof.
  repeat split; intros range m.
  - apply dafka_round_trips.
  - apply StoreHello_round_trips.
  - apply ConsumerHello_round_trips.
  - apply Record_round_trips.
  - apply DirectRecord_round_trips.
  - apply Ack_round_trips.
  - apply Head_round_trips.
  - apply DirectHead_round_trips.
  - apply Fetch_round_trips.
  - destruct m. intros _ _. by exists [].
Qed.

(** ** A record on the wire *)

(** What the encoders require of a record. *)
Definition record_fits (r : dafkaRecord) : Prop :=
  len (rec_Topic r) <= MaxTopicLength ∧ len (rec_Partition r) <= 255 ∧ 0 <= rec_Offset r < 2 ^ 64 ∧
  len (rec_Key r) <= 65535 ∧ len (rec_Value r) <= MaxRecordSize ∧ attrs_ok (rec_Headers r).

Definition record_body (r : dafkaRecord) : RecordMessage :=
  mkRecordMessage (rec_Partition r) (rec_Offset r) (rec_Key r) (rec_Value r) (rec_Headers r).

(** A record that fits is published as one frame, which a receiver decodes to
    the topic and, from the body, the record. *)
Lemma record_wire range r :
  range_order range → record_fits r →
  ∃ msg data body, CreateRecordMessage range (rec_Topic r) r = Ret msg ∧ dafka_Marshal msg = Ret data ∧
    dafka_Unmarshal data zero_dm = (Ret tt, mkDafka (x00, x00) DafkaVersion MessageTypeRecord (rec_Topic r) body) ∧
    Record_Unmarshal body zero_rm = (Ret tt, record_body r).
Proof.
  intros Hr (Ht & Hok). destruct (Record_round_trips range (record_body r) Hr Hok) as (body & Hm & Hu).
  cbn in Hm, Hu. unfold CreateRecordMessage. fold (record_body r). rewrite Hm. cbn [mbind outcome_bind].
  eexists. unfold dafka_Marshal. eexists. exists body. split; [done|]. cbn [dm_Topic dm_Version dm_Type dm_Body].
  rewrite write_string_ok by done. cbn [mbind outcome_bind]. split; [done|].
  by split; [apply dafka_Unmarshal_put|].
Qed.

(** Every frame starts with the signature. *)
Lemma dafka_Marshal_signature m data :
  dafka_Marshal m = Ret data → ∃ rest, data = ProtocolSignature1 :: ProtocolSignature2 :: rest.
Proof.
  unfold dafka_Marshal. intros H. obind H as w Hw. injection H as <-. by eexists.
Qed.
