(* ===== verification/DafkaStore.v ===== *)
(** * DafkaStore: the durable record store (src/dafka/store.go)

    A partition is an append-only log file with an index in memory from record
    offsets to file positions. Files are byte sequences on a disk that several
    partitions may share; a handle is a path and a position. Writes fail when
    the disk has no room left, after writing what still fits. Opening a file
    fails when the environment says so. The store has one queue per loop; a
    loop is modelled by the step that takes one request off its queue. *)

From Stdlib Require Import Strings.Byte ZArith Lia.
From stdpp Require Import base strings numbers gmap list.
From S2P Require Import Prelude Reader MlmMessage DafkaMessage.

#[local] Open Scope Z_scope.
#[local] Set Default Goal Selector "!".

(** ** Files *)

(** An open file: its bytes, the position of the handle and the room that is
    left on its disk. *)
Record osFile : Type := mkFile { fl_content : bytes; fl_pos : Z; fl_room : Z }.

Definition set_fl_pos (p : Z) (f : osFile) : osFile := mkFile (fl_content f) p (fl_room f).

(** [Seek(0, io.SeekEnd)], [Seek(pos, io.SeekStart)], [Seek(n, io.SeekCurrent)];
    positions past the end are allowed, negative ones are not. *)
Definition fl_seek_to (p : Z) : M osFile Z :=
  if decide (p < 0) then mfail (Sentinel "EINVAL") else mupd (set_fl_pos p);; mret p.
Definition fl_seek_end : M osFile Z := f ← mget; fl_seek_to (len (fl_content f)).
Definition fl_seek_by (n : Z) : M osFile Z := f ← mget; fl_seek_to (fl_pos f + n).

(** What is left to read. *)
Definition fl_rest (f : osFile) : bytes := drop (Z.to_nat (fl_pos f)) (fl_content f).

(** Reading is reading from the rest; the position moves by what was taken. *)
Definition fl_take {A} (m : M bytes A) : M osFile A := fun f =>
  let '(r, rest) := m (fl_rest f) in
  (r, set_fl_pos (fl_pos f + (len (fl_rest f) - len rest)) f).

(** [file.Read(buf)] with a zeroed buffer of [n] bytes: unlike a
    [bytes.Reader], reading nothing at the end of a file is no error. *)
Definition fl_read (n : nat) : M osFile bytes :=
  if decide (n = 0%nat) then mret [] else fl_take (rd_read n).

(** [binary.Read] of [n] bytes. *)
Definition fl_full (n : nat) : M osFile bytes := fl_take (rd_full n).
Definition fl_uint (n : nat) : M osFile Z := x ← fl_full n; mret (be_get x).

(** [file.Write(b)] in append mode. *)
Definition fl_write (b : bytes) : M osFile unit := fun f =>
  let n := Z.min (len b) (fl_room f) in
  let content := fl_content f ++ take (Z.to_nat n) b in
  let f' := mkFile content (len content) (fl_room f - Z.max 0 n) in
  if decide (len b <= fl_room f) then (Ret tt, f') else (Fail (Sentinel "ENOSPC"), f').

(** ** Log entries *)

Record LogEntry : Type := mkEntry {
  le_Offset : Z;
  le_Timestamp : Z;
  le_KeySize : Z;
  le_ValueSize : Z;
  le_HeaderCount : Z }.

(** [binary.Write] and [binary.Read] of the struct: 25 bytes. *)
Definition entry_bytes (e : LogEntry) : bytes :=
  be_put 8 (le_Offset e) ++ be_put 8 (le_Timestamp e) ++ be_put 4 (le_KeySize e) ++
  be_put 4 (le_ValueSize e) ++ be_put 1 (le_HeaderCount e).

Definition entry_of (x : bytes) : LogEntry :=
  mkEntry (be_get (take 8 x)) (wraps 64 (be_get (take 8 (drop 8 x)))) (be_get (take 4 (drop 16 x)))
    (be_get (take 4 (drop 20 x))) (be_get (take 1 (drop 24 x))).

Definition read_entry : M osFile LogEntry := x ← fl_full 25; mret (entry_of x).

(** ** Partitions *)

Record PartitionStore : Type := mkPartition {
  ps_Topic : bytes;
  ps_Partition : bytes;
  ps_HeadOffset : Z;
  ps_File : bytes;
  ps_pos : Z;
  ps_Index : gmap Z Z;
  ps_LastSync : Z;
  ps_RecordCount : Z }.

Definition set_ps_pos (p : Z) (s : PartitionStore) : PartitionStore :=
  mkPartition (ps_Topic s) (ps_Partition s) (ps_HeadOffset s) (ps_File s) p (ps_Index s) (ps_LastSync s) (ps_RecordCount s).
Definition set_ps_LastSync (t : Z) (s : PartitionStore) : PartitionStore :=
  mkPartition (ps_Topic s) (ps_Partition s) (ps_HeadOffset s) (ps_File s) (ps_pos s) (ps_Index s) t (ps_RecordCount s).

(** [Index[offset] = pos], the head offset and the count after one more entry. *)
Definition add_entry (offset pos : Z) (s : PartitionStore) : PartitionStore :=
  mkPartition (ps_Topic s) (ps_Partition s)
    (if decide (ps_HeadOffset s < offset) then offset else ps_HeadOffset s)
    (ps_File s) (ps_pos s) (<[offset := pos]> (ps_Index s)) (ps_LastSync s) (wrapu 64 (ps_RecordCount s + 1)).

(** Partition operations run on the partition and its open file. *)
Abbreviation PM := (M (PartitionStore * osFile)).

Fixpoint write_headers (entries : list (bytes * bytes)) : PM unit :=
  match entries with
  | [] => mret tt
  | (key, value) :: rest =>
      wrapE "failed to write header key length" (on_snd (fl_write (be_put 2 (wrapu 16 (len key)))));;
      wrapE "failed to write header key" (on_snd (fl_write key));;
      wrapE "failed to write header value length" (on_snd (fl_write (be_put 2 (wrapu 16 (len value)))));;
      wrapE "failed to write header value" (on_snd (fl_write value));;
      write_headers rest
  end.

Section store.
Context (range : Headers → list (bytes * bytes)).

Definition writeRecord (now : Z) (record : dafkaRecord) : PM unit :=
  pos ← wrapE "failed to seek to end" (on_snd fl_seek_end);
  let entry := mkEntry (rec_Offset record) now (wrapu 32 (len (rec_Key record)))
    (wrapu 32 (len (rec_Value record))) (wrapu 8 (Z.of_nat (size (rec_Headers record)))) in
  wrapE "failed to write log entry" (on_snd (fl_write (entry_bytes entry)));;
  (if decide (0 < len (rec_Key record)) then
     wrapE "failed to write key" (on_snd (fl_write (rec_Key record)))
   else mret tt);;
  (if decide (0 < len (rec_Value record)) then
     wrapE "failed to write value" (on_snd (fl_write (rec_Value record)))
   else mret tt);;
  write_headers (range (rec_Headers record));;
  upd_fst (add_entry (rec_Offset record) pos).

(** ** Reading *)

Fixpoint read_headers (n : nat) (headers : Headers) : M osFile Headers :=
  match n with
  | O => mret headers
  | S n' =>
      keyLen ← wrapE "failed to read header key length" (fl_uint 2);
      keyBytes ← wrapE "failed to read header key" (fl_read (Z.to_nat keyLen));
      valueLen ← wrapE "failed to read header value length" (fl_uint 2);
      valueBytes ← wrapE "failed to read header value" (fl_read (Z.to_nat valueLen));
      read_headers n' (<[keyBytes := valueBytes]> headers)
  end.

Definition readRecord (topic partition : bytes) : M osFile dafkaRecord :=
  entry ← wrapE "failed to read log entry" read_entry;
  key ← (if decide (0 < le_KeySize entry) then
           wrapE "failed to read key" (fl_read (Z.to_nat (le_KeySize entry)))
         else mret []);
  value ← (if decide (0 < le_ValueSize entry) then
             wrapE "failed to read value" (fl_read (Z.to_nat (le_ValueSize entry)))
           else mret []);
  headers ← read_headers (Z.to_nat (le_HeaderCount entry)) ∅;
  mret (mkRecord topic partition (le_Offset entry) key value headers (le_Timestamp entry)).

(** [readRecords]: [n] iterations are left, the next one is for [offset]. The
    records read so far are returned with an error. *)
Fixpoint readRecords_loop (n : nat) (offset : Z) : PM (list dafkaRecord * option error) :=
  match n with
  | O => mret ([], None)
  | S n' =>
      '(partition, _) ← mget;
      match ps_Index partition !! offset with
      | None => mret ([], None)
      | Some pos =>
          sk ← try (wrapE "failed to seek to position" (on_snd (fl_seek_to pos)));
          match sk with
          | inr e => mret ([], Some e)
          | inl _ =>
              rd ← try (wrapE "failed to read record" (on_snd (readRecord (ps_Topic partition) (ps_Partition partition))));
              match rd with
              | inr e => mret ([], Some e)
              | inl record =>
                  '(records, err) ← readRecords_loop n' (wrapu 64 (offset + 1));
                  mret (record :: records, err)
              end
          end
      end
  end.

Definition readRecords (startOffset count : Z) : PM (list dafkaRecord * option error) :=
  readRecords_loop (Z.to_nat count) startOffset.

(** ** Loading *)

(** The lengths are read where the code reads them: right after the entry
    header. The sums wrap at 16 bits. *)
Fixpoint skip_headers (n : nat) (skipSize : Z) : M osFile Z :=
  match n with
  | O => mret skipSize
  | S n' =>
      keyLen ← wrapE "failed to read header key length" (fl_uint 2);
      valueLen ← wrapE "failed to read header value length" (fl_uint 2);
      skip_headers n' (skipSize + wrapu 16 (keyLen + valueLen + 4))
  end.

(** Every iteration but the last takes the 25 bytes of an entry header, so
    fuel that exceeds the length of the file is enough. *)
Fixpoint load_loop (fuel : nat) : PM unit :=
  match fuel with
  | O => mpanic "out of fuel"
  | S fuel' =>
      pos ← wrapE "failed to get position" (on_snd (fl_seek_by 0));
      re ← try (on_snd read_entry);
      match re with
      | inr EOF => mret tt
      | inr e => mfail (Wrap "failed to read log entry" e)
      | inl entry =>
          upd_fst (add_entry (le_Offset entry) pos);;
          skipSize ← on_snd (skip_headers (Z.to_nat (le_HeaderCount entry))
            (wrapu 32 (le_KeySize entry + le_ValueSize entry)));
          wrapE "failed to skip record data" (on_snd (fl_seek_by skipSize));;
          load_loop fuel'
      end
  end.

Definition loadPartitionIndex : PM unit :=
  wrapE "failed to seek to start" (on_snd (fl_seek_to 0));;
  '(_, f) ← mget;
  load_loop (S (length (fl_content f))).

(** ** Paths *)

(** [strings.Split(path, "/")] *)
Fixpoint path_split (p : bytes) : list bytes :=
  match p with
  | [] => [[]]
  | b :: p' =>
      if decide (b = "/"%byte) then [] :: path_split p'
      else match path_split p' with c :: cs => (b :: c) :: cs | [] => [[b]] end
  end.

(** [filepath.Clean] on Unix: drop empty and [.] elements, resolve [..]. The
    elements kept so far are in reverse. *)
Definition clean_step (rooted : bool) (acc : list bytes) (c : bytes) : list bytes :=
  if decide (c = [] ∨ c = gs ".") then acc
  else if decide (c = gs "..") then
    match acc with
    | top :: acc' => if decide (top = gs "..") then c :: acc else acc'
    | [] => if rooted then [] else [c]
    end
  else c :: acc.

Fixpoint path_join (cs : list bytes) : bytes :=
  match cs with
  | [] => []
  | [c] => c
  | c :: cs' => c ++ gs "/" ++ path_join cs'
  end.

Definition path_rooted (p : bytes) : bool := bool_decide (head p = Some "/"%byte).

Definition path_clean (p : bytes) : bytes :=
  let cs := rev (foldl (clean_step (path_rooted p)) [] (path_split p)) in
  if path_rooted p then gs "/" ++ path_join cs
  else if decide (cs = []) then gs "." else path_join cs.

(** [filepath.Join] of two elements. *)
Definition filepath_Join (dir name : bytes) : bytes :=
  match dir, name with
  | [], [] => []
  | [], _ => path_clean name
  | _, [] => path_clean dir
  | _, _ => path_clean (dir ++ gs "/" ++ name)
  end.

(** [filepath.Ext] *)
Fixpoint ext_rev (r acc : bytes) : bytes :=
  match r with
  | [] => []
  | b :: r' =>
      if decide (b = "/"%byte) then []
      else if decide (b = "."%byte) then b :: acc
      else ext_rev r' (b :: acc)
  end.

Definition filepath_Ext (p : bytes) : bytes := ext_rev (rev p) [].

(** ** The store *)

Record StoreFetchRequest : Type := mkStoreFetch { sf_Topic : bytes; sf_Partition : bytes; sf_Offset : Z; sf_Count : Z }.
Record HeadRequest : Type := mkHeadRequest { hr_Topic : bytes; hr_Partition : bytes }.
Record HeadInfo : Type := mkHeadInfo { hi_Topic : bytes; hi_Partition : bytes; hi_Offset : Z }.
Record SyncRequest : Type := mkSyncRequest { sy_Topic : bytes; sy_Partition : bytes }.

Record Store : Type := mkStore {
  st_dataDir : bytes;
  st_disk : gmap bytes bytes;
  st_room : Z;
  st_partitions : gmap bytes PartitionStore;
  st_records : list dafkaRecord;
  st_fetchRequests : list StoreFetchRequest;
  st_headRequests : list HeadRequest;
  st_syncRequests : list SyncRequest;
  st_state : NodeState;
  st_statistics : Statistics }.

Definition set_st_disk (d : gmap bytes bytes) (room : Z) (s : Store) : Store :=
  mkStore (st_dataDir s) d room (st_partitions s) (st_records s) (st_fetchRequests s) (st_headRequests s)
    (st_syncRequests s) (st_state s) (st_statistics s).
Definition set_st_partitions (p : gmap bytes PartitionStore) (s : Store) : Store :=
  mkStore (st_dataDir s) (st_disk s) (st_room s) p (st_records s) (st_fetchRequests s) (st_headRequests s)
    (st_syncRequests s) (st_state s) (st_statistics s).
Definition set_st_records (l : list dafkaRecord) (s : Store) : Store :=
  mkStore (st_dataDir s) (st_disk s) (st_room s) (st_partitions s) l (st_fetchRequests s) (st_headRequests s)
    (st_syncRequests s) (st_state s) (st_statistics s).
Definition set_st_fetchRequests (l : list StoreFetchRequest) (s : Store) : Store :=
  mkStore (st_dataDir s) (st_disk s) (st_room s) (st_partitions s) (st_records s) l (st_headRequests s)
    (st_syncRequests s) (st_state s) (st_statistics s).
Definition set_st_headRequests (l : list HeadRequest) (s : Store) : Store :=
  mkStore (st_dataDir s) (st_disk s) (st_room s) (st_partitions s) (st_records s) (st_fetchRequests s) l
    (st_syncRequests s) (st_state s) (st_statistics s).
Definition set_st_syncRequests (l : list SyncRequest) (s : Store) : Store :=
  mkStore (st_dataDir s) (st_disk s) (st_room s) (st_partitions s) (st_records s) (st_fetchRequests s)
    (st_headRequests s) l (st_state s) (st_statistics s).
Definition set_st_state (x : NodeState) (s : Store) : Store :=
  mkStore (st_dataDir s) (st_disk s) (st_room s) (st_partitions s) (st_records s) (st_fetchRequests s)
    (st_headRequests s) (st_syncRequests s) x (st_statistics s).
Definition st_bump (f : stat) (n : Z) (s : Store) : Store :=
  mkStore (st_dataDir s) (st_disk s) (st_room s) (st_partitions s) (st_records s) (st_fetchRequests s)
    (st_headRequests s) (st_syncRequests s) (st_state s) (bump f n (st_statistics s)).

(** [NewStore] on a disk, with its data directory filled in. *)
Definition NewStore (dataDir : bytes) (disk : gmap bytes bytes) (room : Z) : Store :=
  mkStore (if decide (dataDir = []) then gs "./dafka-store" else dataDir) disk room ∅ [] [] [] [] NodeStateStopped zero_stats.

(** [fmt.Sprintf("%s:%s", topic, partition)] and the path of the log file. *)
Definition partitionKey (topic partition : bytes) : bytes := topic ++ gs ":" ++ partition.
Definition logName (topic partition : bytes) : bytes := topic ++ gs "-" ++ partition ++ gs ".log".
Definition logPath (s : Store) (topic partition : bytes) : bytes :=
  filepath_Join (st_dataDir s) (logName topic partition).

(** Run a partition operation on the file the partition has open: what it
    returns and the partition after it; the disk changes with the file. *)
Definition run_part {A} (p : PartitionStore) (c : PM A) : M Store (outcome A * PartitionStore) := fun s =>
  let f := mkFile (default [] (st_disk s !! ps_File p)) (ps_pos p) (st_room s) in
  let '(r, (p', f')) := c (p, f) in
  (Ret (r, set_ps_pos (fl_pos f') p'), set_st_disk (<[ps_File p := fl_content f']> (st_disk s)) (fl_room f') s).

(** The same for a partition of the store. *)
Definition on_partition {A} (key : bytes) (p : PartitionStore) (c : PM A) : M Store A :=
  '(r, p') ← run_part p c;
  mupd (fun s => set_st_partitions (<[key := p']> (st_partitions s)) s);;
  lift r.

Section environment.
(** [os.OpenFile] of a path: the error it gives, if any. *)
Context (openErr : bytes → option error).

Definition createPartition (now : Z) (topic partition : bytes) : M Store PartitionStore :=
  s ← mget;
  let path := logPath s topic partition in
  match openErr path with
  | Some e => mfail (Wrap "failed to create partition file" e)
  | None =>
      mupd (fun s => set_st_disk (<[path := default [] (st_disk s !! path)]> (st_disk s)) (st_room s) s);;
      '(r, p) ← run_part (mkPartition topic partition 0 path 0 ∅ now 0) loadPartitionIndex;
      match r with
      | Ret _ => mret p
      | Fail e => mfail (Wrap "failed to load partition index" e)
      | Panic m => mpanic m
      end
  end.

Definition storeRecord (now : Z) (record : dafkaRecord) : M Store unit :=
  let key := partitionKey (rec_Topic record) (rec_Partition record) in
  s ← mget;
  partition ←
    match st_partitions s !! key with
    | Some partition => mret partition
    | None =>
        partition ← createPartition now (rec_Topic record) (rec_Partition record);
        mupd (fun s => set_st_partitions (<[key := partition]> (st_partitions s)) s);;
        mret partition
    end;
  w ← try (on_partition key partition (writeRecord now record));
  match w with
  | inr e => mupd (st_bump StoreErrors 1);; mfail e
  | inl _ =>
      mupd (st_bump RecordsStored 1);;
      mupd (st_bump BytesStored (len (rec_Key record) + len (rec_Value record)))
  end.

Definition processFetchRequest (request : StoreFetchRequest) : M Store (list dafkaRecord * option error) :=
  let key := partitionKey (sf_Topic request) (sf_Partition request) in
  s ← mget;
  match st_partitions s !! key with
  | None => mret ([], Some (Errorf "partition not found"))
  | Some partition => on_partition key partition (readRecords (sf_Offset request) (sf_Count request))
  end.

(** The filter of HEAD and sync requests: an empty field matches everything. *)
Definition request_matches (topic partition : bytes) (p : PartitionStore) : bool :=
  bool_decide (topic = [] ∨ ps_Topic p = topic) && bool_decide (partition = [] ∨ ps_Partition p = partition).

Definition processHeadRequest (prange : gmap bytes PartitionStore → list (bytes * PartitionStore))
    (request : HeadRequest) (s : Store) : list HeadInfo :=
  (fun kp => mkHeadInfo (ps_Topic kp.2) (ps_Partition kp.2) (ps_HeadOffset kp.2)) <$>
    filter (fun kp => request_matches (hr_Topic request) (hr_Partition request) kp.2 = true) (prange (st_partitions s)).

(** [File.Sync] has no effect on what the file holds. *)
Definition syncPartitions (prange : gmap bytes PartitionStore → list (bytes * PartitionStore))
    (now : Z) (topic partition : bytes) : M Store unit :=
  mupd (fun s => set_st_partitions
    (sweep (fun _ p => Some (if request_matches topic partition p then set_ps_LastSync now p else p))
       (prange (st_partitions s)) (st_partitions s)) s).

Definition syncAllPartitions (prange : gmap bytes PartitionStore → list (bytes * PartitionStore)) (now : Z) : M Store unit :=
  syncPartitions prange now [] [].

(** [loadPartitions]: the directory listing is names with a directory flag.
    The extension test is written [!filepath.Ext(name) == ".log"] in the
    source; it is read here as the comparison it stands for. The name is
    never split, so there is one part. *)
Fixpoint loadPartitions_loop (now : Z) (files : list (bytes * bool)) : M Store unit :=
  match files with
  | [] => mret tt
  | (name, isDir) :: rest =>
      if isDir || negb (bool_decide (filepath_Ext name = gs ".log")) then loadPartitions_loop now rest
      else
        let parts := [take (length name - 4) name] in
        match parts with
        | topic :: partition :: _ =>
            p ← wrapE "failed to load partition" (createPartition now topic partition);
            mupd (fun s => set_st_partitions (<[partitionKey topic partition := p]> (st_partitions s)) s);;
            loadPartitions_loop now rest
        | _ => loadPartitions_loop now rest
        end
  end.

Definition loadPartitions (now : Z) (readDir : outcome (list (bytes * bool))) : M Store unit :=
  files ← wrapE "failed to read data directory" (lift readDir);
  loadPartitions_loop now files.

(** [Start]: the outcomes of binding the DEALER socket and of dialing the
    tower, when an address is configured, are parameters. *)
Definition Store_Start (now : Z) (readDir : outcome (list (bytes * bool))) (listen : outcome unit) (dial : option (outcome unit)) : M Store unit :=
  s ← mget;
  if decide (st_state s ≠ NodeStateStopped) then mfail (Errorf "store already started")
  else
    mupd (set_st_state NodeStateStarting);;
    wrapE "failed to load partitions" (loadPartitions now readDir);;
    wrapE "failed to bind DEALER socket" (lift listen);;
    (match dial with Some d => wrapE "failed to connect to tower" (lift d) | None => mret tt end);;
    mupd (set_st_state NodeStateRunning).

(** ** Requests and loops *)

Definition Store_Store (record : dafkaRecord) : M Store unit :=
  s ← mget;
  if decide (10000 <= len (st_records s)) then mfail (Errorf "store queue full")
  else mupd (set_st_records (st_records s ++ [record])).

Definition Store_Fetch (topic partition : bytes) (offset count : Z) : M Store unit :=
  s ← mget;
  if decide (1000 <= len (st_fetchRequests s)) then mfail (Errorf "fetch queue full")
  else mupd (set_st_fetchRequests (st_fetchRequests s ++ [mkStoreFetch topic partition offset count])).

Definition Store_GetHeads (topic partition : bytes) : M Store unit :=
  s ← mget;
  if decide (1000 <= len (st_headRequests s)) then mfail (Errorf "head queue full")
  else mupd (set_st_headRequests (st_headRequests s ++ [mkHeadRequest topic partition])).

Definition Store_Sync : M Store unit :=
  s ← mget;
  if decide (100 <= len (st_syncRequests s)) then mfail (Errorf "sync queue full")
  else mupd (set_st_syncRequests (st_syncRequests s ++ [mkSyncRequest [] []])).

(** One turn of each loop: [None] when its queue is empty; otherwise what is
    sent to the requester. *)
Definition recordLoop (now : Z) : M Store (option (unit + error)) :=
  s ← mget;
  match st_records s with
  | [] => mret None
  | record :: rest => mupd (set_st_records rest);; r ← try (storeRecord now record); mret (Some r)
  end.

Definition fetchLoop : M Store (option (list dafkaRecord * option error)) :=
  s ← mget;
  match st_fetchRequests s with
  | [] => mret None
  | request :: rest => mupd (set_st_fetchRequests rest);; r ← processFetchRequest request; mret (Some r)
  end.

Definition headLoop (prange : gmap bytes PartitionStore → list (bytes * PartitionStore)) : M Store (option (list HeadInfo)) :=
  s ← mget;
  match st_headRequests s with
  | [] => mret None
  | request :: rest => mupd (set_st_headRequests rest);; s ← mget; mret (Some (processHeadRequest prange request s))
  end.

Definition syncLoop (prange : gmap bytes PartitionStore → list (bytes * PartitionStore)) (now : Z) : M Store (option unit) :=
  s ← mget;
  match st_syncRequests s with
  | [] => mret None
  | request :: rest =>
      mupd (set_st_syncRequests rest);; syncPartitions prange now (sy_Topic request) (sy_Partition request);; mret (Some tt)
  end.

(** A frame from the SUB socket; the record gets the time of its arrival. *)
Definition Store_processSubscriptionMessage (now : Z) (data : bytes) : M Store unit :=
  match dafka_Unmarshal data zero_dm with
  | (Ret _, msg) =>
      if decide (dm_Type msg ≠ MessageTypeRecord) then mret tt
      else
        match Record_Unmarshal (dm_Body msg) zero_rm with
        | (Ret _, r) =>
            let record := mkRecord (dm_Topic msg) (rm_Partition r) (rm_Offset r) (rm_Key r) (rm_Value r) (rm_Headers r) now in
            s ← mget;
            (if decide (len (st_records s) < 10000) then mupd (set_st_records (st_records s ++ [record]))
             else mupd (st_bump StoreErrors 1));;
            mupd (st_bump MessagesIn 1);;
            mupd (st_bump BytesIn (len data))
        | (Fail _, _) => mupd (st_bump StoreErrors 1)
        | (Panic p, _) => mpanic p
        end
  | (Fail _, _) => mupd (st_bump StoreErrors 1)
  | (Panic p, _) => mpanic p
  end.
End environment.
End store.
