(* ===== verification/DafkaStoreFacts.v ===== *)
(** * DafkaStoreFacts: the store returns what it acknowledged

    Two small calculi connect file operations with byte sequences: [writes]
    (a computation appends bytes, or fails having appended as many of them as
    there was room for) and [reads] (a computation consumes bytes and returns a
    value). On top of them: the log of a partition, the reload of a log, and
    the store as a map from topics and partitions to the acknowledged
    records. *)

From Stdlib Require Import Strings.Byte ZArith Lia.
From stdpp Require Import base strings numbers gmap list.
From S2P Require Import Prelude Reader MlmMessage DafkaMessage DafkaStore.

#[local] Open Scope Z_scope.
#[local] Set Default Goal Selector "!".

(** ** Appending *)

Definition appended (f : osFile) (w : bytes) (pos : Z) : osFile :=
  mkFile (fl_content f ++ w) pos (fl_room f - len w).

(** [writes g m w]: [m] appends [w] and then changes the partition by [g], if
    there is room; otherwise it fails, having appended what fitted, with the
    partition as it was. *)
Definition writes (g : PartitionStore → PartitionStore) (m : PM unit) (w : bytes) : Prop := ∀ p f,
  0 <= fl_room f → 0 <= fl_pos f →
  ∃ pos, 0 <= pos ∧
  if decide (len w <= fl_room f) then m (p, f) = (Ret tt, (g p, appended f w pos))
  else ∃ e, m (p, f) = (Fail e, (p, mkFile (fl_content f ++ take (Z.to_nat (fl_room f)) w) pos 0)).

Lemma writes_upd g : writes g (upd_fst g) [].
Proof.
  intros p [c pos room] Hf Hp. exists pos. cbn in *. split; [done|]. rewrite decide_True by done.
  unfold appended, upd_fst, mupd. cbn. by rewrite app_nil_r, Z.sub_0_r.
Qed.

Lemma writes_nil : writes id (mret tt) [].
Proof. exact (writes_upd id). Qed.

Lemma writes_write fmt b : writes id (wrapE fmt (on_snd (fl_write b))) b.
Proof.
  intros p [c pos room] Hf Hp. cbn in *. unfold wrapE, on_snd, fl_write. cbn.
  pose proof (len_nonneg b) as Hb. eexists. split; [|case_decide as H].
  - apply (len_nonneg (c ++ take (Z.to_nat (Z.min (len b) room)) b)).
  - rewrite Z.min_l, Z.max_r, len_to_nat, firstn_all by lia. done.
  - rewrite Z.min_r, Z.max_r, Z.sub_diag by lia. by eexists.
Qed.

Lemma writes_bind g m m' w w' : writes id m w → writes g m' w' → writes g (m;; m') (w ++ w').
Proof.
  intros Hm Hm' p f Hf Hp. unfold id in Hm. pose proof (len_nonneg w). pose proof (len_nonneg w').
  destruct (Hm p f Hf Hp) as (pos & Hpos & H1). case_decide as Hw.
  - specialize (Hm' p (appended f w pos)). cbn in Hm'. destruct Hm' as (pos' & Hpos' & H2); [lia|done|].
    exists pos'. split; [done|]. rewrite len_app. case_decide as Hw'.
    + rewrite decide_True by lia. unfold mbind, M_bind. rewrite H1, H2. unfold appended. cbn.
      rewrite app_assoc, len_app. do 3 f_equal. lia.
    + rewrite decide_False by lia. destruct H2 as [e H2]. exists e. unfold mbind, M_bind. rewrite H1, H2.
      cbn. do 3 f_equal. rewrite <- app_assoc. f_equal. rewrite take_app_ge.
      2:{ unfold len in *. lia. }
      do 2 f_equal. unfold len in *. lia.
  - exists pos. split; [done|]. rewrite len_app, decide_False by lia. destruct H1 as [e H1]. exists e.
    unfold mbind, M_bind. rewrite H1. do 4 f_equal. symmetry. apply take_app_le. unfold len in *. lia.
Qed.

Lemma writes_if fmt b : writes id (if decide (0 < len b) then wrapE fmt (on_snd (fl_write b)) else mret tt) b.
Proof.
  case_decide; [apply writes_write|]. assert (b = []) as -> by (apply len_nil_iff; pose proof (len_nonneg b); lia).
  apply writes_nil.
Qed.

(** ** Consuming *)

(** [reads m x a]: when the file continues with [x], [m] consumes it and
    returns [a]. *)
Definition reads {A} (m : M osFile A) (x : bytes) (a : A) : Prop := ∀ f r,
  0 <= fl_pos f → fl_rest f = x ++ r → m f = (Ret a, set_fl_pos (fl_pos f + len x) f).

Lemma fl_rest_after f x r : 0 <= fl_pos f → fl_rest f = x ++ r → fl_rest (set_fl_pos (fl_pos f + len x) f) = r.
Proof.
  intros Hp Hx. unfold fl_rest in *. cbn. rewrite Z2Nat.inj_add, len_to_nat by (done || apply len_nonneg).
  by rewrite <- drop_drop, Hx, drop_app_length.
Qed.

Lemma set_fl_pos_pos a b f : set_fl_pos a (set_fl_pos b f) = set_fl_pos a f.
Proof. done. Qed.

Lemma reads_ret {A} (a : A) : reads (mret a) [] a.
Proof. intros [c p room] r Hp Hr. unfold mret, M_ret, set_fl_pos. cbn. by rewrite Z.add_0_r. Qed.

Lemma reads_bind {A B} (m : M osFile A) (k : A → M osFile B) x y a b :
  reads m x a → reads (k a) y b → reads (m ≫= k) (x ++ y) b.
Proof.
  intros Hm Hk f r Hp Hr. rewrite <- app_assoc in Hr. rewrite (M_bind_ret _ _ _ _ _ (Hm f _ Hp Hr)).
  pose proof (fl_rest_after f x _ Hp Hr) as Hr'. pose proof (len_nonneg x).
  rewrite (Hk _ r) by (cbn; lia || done). unfold set_fl_pos. cbn. rewrite len_app. do 2 f_equal. lia.
Qed.

Lemma reads_wrapE {A} fmt (m : M osFile A) x a : reads m x a → reads (wrapE fmt m) x a.
Proof. intros Hm f r Hp Hr. by apply wrapE_ret, (Hm f r). Qed.

Lemma reads_full n x : length x = n → reads (fl_full n) x x.
Proof.
  intros Hx f r Hp Hr. unfold fl_full, fl_take. rewrite Hr, rd_full_app by done.
  do 2 f_equal. rewrite len_app. lia.
Qed.

Lemma reads_read n x : length x = n → reads (fl_read n) x x.
Proof.
  intros Hx. unfold fl_read. case_decide as H0; [destruct x; [apply reads_ret|cbn in Hx; lia]|].
  intros f r Hp Hr. unfold fl_take. rewrite Hr, rd_read_app by (done || destruct x; cbn in *; congruence || lia).
  do 2 f_equal. rewrite len_app. lia.
Qed.

Lemma reads_uint n z : 0 <= z < 256 ^ Z.of_nat n → reads (fl_uint n) (be_put n z) z.
Proof.
  intros Hz. unfold fl_uint. rewrite <- (app_nil_r (be_put n z)).
  eapply reads_bind; [apply reads_full, length_be_put|]. rewrite be_get_put_small by done. apply reads_ret.
Qed.

(** ** Log entries *)

Definition entry_for (r : dafkaRecord) : LogEntry :=
  mkEntry (rec_Offset r) (rec_Timestamp r) (len (rec_Key r)) (len (rec_Value r)) (Z.of_nat (size (rec_Headers r))).

Fixpoint headers_bytes (entries : list (bytes * bytes)) : bytes :=
  match entries with
  | [] => []
  | (k, v) :: rest => be_put 2 (len k) ++ k ++ be_put 2 (len v) ++ v ++ headers_bytes rest
  end.

(** The bytes of a record in a log; its timestamp is the time it was stored. *)
Definition record_bytes (range : Headers → list (bytes * bytes)) (r : dafkaRecord) : bytes :=
  entry_bytes (entry_for r) ++ rec_Key r ++ rec_Value r ++ headers_bytes (range (rec_Headers r)).

(** The records the format can hold. *)
Definition storable (r : dafkaRecord) : Prop :=
  0 <= rec_Offset r < 2 ^ 64 ∧ - 2 ^ 63 <= rec_Timestamp r < 2 ^ 63 ∧ len (rec_Key r) < 2 ^ 32 ∧
  len (rec_Value r) < 2 ^ 32 ∧ Z.of_nat (size (rec_Headers r)) < 2 ^ 8 ∧
  ∀ k v, rec_Headers r !! k = Some v → len k < 2 ^ 16 ∧ len v < 2 ^ 16.

Definition stamped (now : Z) (r : dafkaRecord) : dafkaRecord :=
  mkRecord (rec_Topic r) (rec_Partition r) (rec_Offset r) (rec_Key r) (rec_Value r) (rec_Headers r) now.

Lemma length_entry_bytes e : length (entry_bytes e) = 25%nat.
Proof. unfold entry_bytes. by rewrite !length_app, !length_be_put. Qed.

Lemma be_put_mod z : be_put 8 z = be_put 8 (z mod 2 ^ 64).
Proof.
  rewrite <- (be_put_get (be_put 8 z)), length_be_put, be_get_put. done.
Qed.

Lemma entry_of_bytes r : storable r → entry_of (entry_bytes (entry_for r)) = entry_for r.
Proof.
  intros (Ho & Ht & Hk & Hv & Hh & _). unfold entry_of, entry_bytes, entry_for. cbn [le_Offset le_Timestamp le_KeySize le_ValueSize le_HeaderCount].
  pose proof (len_nonneg (rec_Key r)). pose proof (len_nonneg (rec_Value r)).
  assert (Hget : ∀ n z r', 0 <= z < 256 ^ Z.of_nat n → be_get (take n (be_put n z ++ r')) = z).
  { intros n z r' Hz. rewrite <- (length_be_put n z) at 1. by rewrite take_app_length, be_get_put_small. }
  assert (Hdrop : ∀ n m z r', drop (n + m) (be_put n z ++ r') = drop m r').
  { intros n m z r'. rewrite <- (length_be_put n z) at 1. by rewrite <- drop_drop, drop_app_length. }
  f_equal.
  - by apply Hget.
  - rewrite (Hdrop 8%nat 0%nat), drop_0, be_put_mod, Hget by (apply Z.mod_pos_bound; lia). by apply wraps_wrapu.
  - rewrite (Hdrop 8%nat 8%nat), (Hdrop 8%nat 0%nat), drop_0. by apply Hget.
  - rewrite (Hdrop 8%nat 12%nat), (Hdrop 8%nat 4%nat), (Hdrop 4%nat 0%nat), drop_0. by apply Hget.
  - rewrite (Hdrop 8%nat 16%nat), (Hdrop 8%nat 8%nat), (Hdrop 4%nat 4%nat), (Hdrop 4%nat 0%nat), drop_0.
    rewrite <- (app_nil_r (be_put 1 _)). apply Hget. lia.
Qed.

Lemma reads_entry r : storable r → reads read_entry (entry_bytes (entry_for r)) (entry_for r).
Proof.
  intros Hr. unfold read_entry. rewrite <- (app_nil_r (entry_bytes _)).
  eapply reads_bind; [apply reads_full, length_entry_bytes|]. rewrite entry_of_bytes by done. apply reads_ret.
Qed.

Lemma reads_headers entries : ∀ m,
  Forall (fun kv => len kv.1 < 2 ^ 16 ∧ len kv.2 < 2 ^ 16) entries →
  reads (read_headers (length entries) m) (headers_bytes entries)
    (foldl (fun a kv => <[kv.1 := kv.2]> a) m entries).
Proof.
  induction entries as [|[k v] entries IH]; intros m Hall; cbn [length read_headers headers_bytes foldl].
  - apply reads_ret.
  - apply Forall_cons in Hall as [[Hk Hv] Hall]. cbn in Hk, Hv.
    pose proof (len_nonneg k). pose proof (len_nonneg v).
    eapply reads_bind; [apply reads_wrapE, reads_uint; cbn; lia|]. rewrite len_to_nat.
    eapply reads_bind; [by apply reads_wrapE, reads_read|].
    eapply reads_bind; [apply reads_wrapE, reads_uint; cbn; lia|]. rewrite len_to_nat.
    eapply reads_bind; [by apply reads_wrapE, reads_read|]. by apply (IH (<[k := v]> m)).
Qed.

Lemma reads_sized fmt (b : bytes) :
  reads (if decide (0 < len b) then wrapE fmt (fl_read (Z.to_nat (len b))) else mret []) b b.
Proof.
  case_decide.
  - rewrite len_to_nat. by apply reads_wrapE, reads_read.
  - assert (b = []) as -> by (apply len_nil_iff; pose proof (len_nonneg b); lia). apply reads_ret.
Qed.

Section log.
Context (range : Headers → list (bytes * bytes)) (Hrange : range_order range).

Lemma storable_headers r :
  storable r → Forall (fun kv => len kv.1 < 2 ^ 16 ∧ len kv.2 < 2 ^ 16) (range (rec_Headers r)).
Proof.
  intros (_ & _ & _ & _ & _ & Hh). apply Forall_forall. intros [k v] Hin. apply (Hh k v).
  by apply (range_order_elem range).
Qed.

(** A record is read back from its bytes. *)
Lemma reads_record r topic partition :
  storable r → rec_Topic r = topic → rec_Partition r = partition →
  reads (readRecord topic partition) (record_bytes range r) r.
Proof.
  intros Hr <- <-. unfold readRecord, record_bytes.
  eapply reads_bind; [by apply reads_wrapE, reads_entry|]. cbn [le_KeySize le_ValueSize le_HeaderCount entry_for].
  eapply reads_bind; [apply reads_sized|]. eapply reads_bind; [apply reads_sized|].
  rewrite <- (app_nil_r (headers_bytes _)). rewrite Nat2Z.id, <- (range_order_length range _ Hrange).
  eapply reads_bind; [by apply reads_headers, storable_headers|].
  rewrite range_order_insert by done. destruct r. apply reads_ret.
Qed.

Lemma writes_headers entries :
  Forall (fun kv => len kv.1 < 2 ^ 16 ∧ len kv.2 < 2 ^ 16) entries →
  writes id (write_headers entries) (headers_bytes entries).
Proof.
  induction entries as [|[k v] entries IH]; intros Hall; cbn [write_headers headers_bytes]; [apply writes_nil|].
  apply Forall_cons in Hall as [[Hk Hv] Hall]. cbn in Hk, Hv.
  unfold wrapu. rewrite !Z.mod_small by (split; [apply len_nonneg|done]).
  repeat (apply writes_bind; [apply writes_write|]). auto.
Qed.

(** Writing a record appends its bytes and indexes them, or fails and leaves
    the partition as it was, with a piece of the record at the end of the
    file. *)
Lemma writeRecord_spec now r p f :
  storable (stamped now r) → 0 <= fl_room f →
  let w := record_bytes range (stamped now r) in
  ∃ pos, 0 <= pos ∧
  if decide (len w <= fl_room f)
  then writeRecord range now r (p, f) =
         (Ret tt, (add_entry (rec_Offset r) (len (fl_content f)) p, appended f w pos))
  else ∃ e, writeRecord range now r (p, f) =
         (Fail e, (p, mkFile (fl_content f ++ take (Z.to_nat (fl_room f)) w) pos 0)).
Proof.
  intros Hst Hroom w. pose proof Hst as (_ & _ & Hk & Hv & Hh & _). cbn in Hk, Hv, Hh.
  pose proof (len_nonneg (rec_Key r)). pose proof (len_nonneg (rec_Value r)). pose proof (len_nonneg (fl_content f)).
  unfold writeRecord. rewrite (M_bind_ret _ _ _ (len (fl_content f)) (p, set_fl_pos (len (fl_content f)) f)).
  2:{ apply wrapE_ret, on_snd_ret. unfold fl_seek_end, fl_seek_to. mstep reflexivity. by rewrite decide_False by lia. }
  cbv zeta beta. unfold wrapu. rewrite !Z.mod_small by lia.
  assert (Hw : writes (add_entry (rec_Offset r) (len (fl_content f)))
    (write_headers (range (rec_Headers r));; upd_fst (add_entry (rec_Offset r) (len (fl_content f))))
    (headers_bytes (range (rec_Headers r)))).
  { rewrite <- (app_nil_r (headers_bytes _)). apply writes_bind; [|apply writes_upd].
    apply writes_headers, (storable_headers _ Hst). }
  pose proof (writes_bind _ _ _ _ _ (writes_write "failed to write log entry" (entry_bytes (entry_for (stamped now r))))
    (writes_bind _ _ _ _ _ (writes_if "failed to write key" (rec_Key r))
      (writes_bind _ _ _ _ _ (writes_if "failed to write value" (rec_Value r)) Hw))) as Hall.
  exact (Hall p (set_fl_pos (len (fl_content f)) f) Hroom ltac:(cbn; lia)).
Qed.

(** ** The log of a partition *)

(** The file holds the bytes of [r] at [pos]. *)
Definition stored_at (content : bytes) (pos : Z) (r : dafkaRecord) : Prop :=
  0 <= pos ∧ ∃ rest, drop (Z.to_nat pos) content = record_bytes range r ++ rest.

(** The head offset of a log: its largest offset, or zero. *)
Definition is_head (h : Z) (log : gmap Z dafkaRecord) : Prop :=
  (∀ o, o ∈ dom log → o <= h) ∧ (h = 0 ∨ h ∈ dom log).

(** The index of [p] points at the records of [log], which are its own. *)
Definition indexes (p : PartitionStore) (content : bytes) (log : gmap Z dafkaRecord) : Prop :=
  dom (ps_Index p) = dom log ∧ is_head (ps_HeadOffset p) log ∧
  ∀ o pos r, ps_Index p !! o = Some pos → log !! o = Some r →
    stored_at content pos r ∧ storable r ∧ rec_Topic r = ps_Topic p ∧ rec_Partition r = ps_Partition p.

(** The records with consecutive offsets from [o] on, [n] at most. *)
Fixpoint log_run (log : gmap Z dafkaRecord) (n : nat) (o : Z) : list dafkaRecord :=
  match n with
  | O => []
  | S n' => match log !! o with Some r => r :: log_run log n' (wrapu 64 (o + 1)) | None => [] end
  end.

Lemma stored_at_app content x pos r : stored_at content pos r → stored_at (content ++ x) pos r.
Proof.
  intros (Hp & rest & Hd). split; [done|]. exists (rest ++ x). rewrite drop_app, Hd.
  replace (Z.to_nat pos - length content)%nat with 0%nat; [by rewrite app_assoc|].
  apply (f_equal length) in Hd. rewrite length_drop, length_app in Hd. unfold record_bytes in Hd.
  rewrite length_app, length_entry_bytes in Hd. lia.
Qed.

Lemma indexes_app p content x log : indexes p content log → indexes p (content ++ x) log.
Proof.
  intros (Hd & Hh & Hi). split; [done|]. split; [done|]. intros o pos r Ho Hr. destruct (Hi o pos r Ho Hr) as (? & ?).
  split; [by apply stored_at_app|done].
Qed.

Lemma indexes_add p content log r :
  indexes p content log → storable r → rec_Topic r = ps_Topic p → rec_Partition r = ps_Partition p →
  indexes (add_entry (rec_Offset r) (len content) p) (content ++ record_bytes range r) (<[rec_Offset r := r]> log).
Proof.
  intros (Hd & [Hmax Hin] & Hi) Hr Ht Hp. split; [cbn; by rewrite !dom_insert_L, Hd|].
  split.
  { cbn. split.
    - intros o. rewrite dom_insert_L, elem_of_union, elem_of_singleton. intros [->|Ho]; [case_decide; lia|].
      specialize (Hmax o Ho). case_decide; lia.
    - rewrite dom_insert_L, elem_of_union, elem_of_singleton. case_decide; [by right; left|].
      destruct Hin; [by left|by right; right]. }
  intros o pos r'. cbn. destruct (decide (o = rec_Offset r)) as [->|Hne].
  - rewrite !lookup_insert_eq. intros [= <-] [= <-]. split; [|done]. split; [apply len_nonneg|].
    exists []. by rewrite len_to_nat, drop_app_length, app_nil_r.
  - rewrite !lookup_insert_ne by done. intros Ho Hl. destruct (Hi o pos r' Ho Hl) as (? & ?).
    split; [by apply stored_at_app|done].
Qed.

Lemma readRecords_run n : ∀ o p f log,
  indexes p (fl_content f) log → 0 <= fl_pos f →
  ∃ pos, 0 <= pos ∧ readRecords_loop n o (p, f) = (Ret (log_run log n o, None), (p, set_fl_pos pos f)).
Proof.
  induction n as [|n IH]; intros o p f log Hi Hpos; cbn [readRecords_loop log_run].
  - exists (fl_pos f). by destruct f.
  - destruct Hi as (Hd & Hh & Hi). rewrite (M_bind_ret _ _ _ _ _ (eq_refl : mget (p, f) = _)). cbv beta iota.
    destruct (log !! o) as [r|] eqn:Hl.
    + assert (is_Some (ps_Index p !! o)) as [q Hq] by (apply elem_of_dom; rewrite Hd; by eapply elem_of_dom_2).
      destruct (Hi o q r Hq Hl) as ((Hq0 & rest & Hrest) & Hst & Ht & Hp). rewrite Hq.
      destruct (IH (wrapu 64 (o + 1)) p (set_fl_pos (q + len (record_bytes range r)) f) log) as (pos & Hpos' & E).
      { done. } { cbn [fl_pos set_fl_pos]. pose proof (len_nonneg (record_bytes range r)). lia. }
      exists pos. split; [done|].
      rewrite (M_bind_ret _ _ _ (inl q) (p, set_fl_pos q f)).
      2:{ unfold try, wrapE, on_snd, fl_seek_to. by rewrite decide_False by lia. }
      cbv beta iota. rewrite (M_bind_ret _ _ _ (inl r) (p, set_fl_pos (q + len (record_bytes range r)) f)).
      2:{ unfold try, wrapE, on_snd.
          by rewrite (reads_record r _ _ Hst Ht Hp (set_fl_pos q f) rest) by done. }
      cbv beta iota. by rewrite (M_bind_ret _ _ _ _ _ E).
    + assert (ps_Index p !! o = None) as ->
        by (apply not_elem_of_dom; rewrite Hd; by apply not_elem_of_dom).
      exists (fl_pos f). by destruct f.
Qed.

(** ** Reloading a log *)

Definition log_bytes (rs : list dafkaRecord) : bytes := concat (record_bytes range <$> rs).

(** The partition after indexing the records [rs] written from [pos] on. *)
Fixpoint replay (rs : list dafkaRecord) (pos : Z) (p : PartitionStore) : PartitionStore :=
  match rs with
  | [] => p
  | r :: rs' => replay rs' (pos + len (record_bytes range r)) (add_entry (rec_Offset r) pos p)
  end.

(** Writing records one after the other, each at its time. *)
Fixpoint writeAll (l : list (Z * dafkaRecord)) : PM unit :=
  match l with
  | [] => mret tt
  | (now, r) :: l' => writeRecord range now r;; writeAll l'
  end.

(** A record without headers whose sizes add up within 32 bits. *)
Definition plain (r : dafkaRecord) : Prop :=
  storable r ∧ rec_Headers r = ∅ ∧ len (rec_Key r) + len (rec_Value r) < 2 ^ 32.

Lemma plain_bytes r : plain r → record_bytes range r = entry_bytes (entry_for r) ++ rec_Key r ++ rec_Value r.
Proof.
  intros (_ & Hh & _). unfold record_bytes. rewrite Hh.
  assert (range ∅ = []) as -> by (apply Permutation_nil; symmetry; rewrite (Hrange ∅); by rewrite map_to_list_empty).
  cbn [headers_bytes]. by rewrite app_nil_r.
Qed.

Lemma length_record_bytes r : (25 <= length (record_bytes range r))%nat.
Proof. unfold record_bytes. rewrite length_app, length_entry_bytes. lia. Qed.

Lemma length_log_bytes rs : (length rs <= length (log_bytes rs))%nat.
Proof.
  induction rs as [|r rs IH]; [done|]. unfold log_bytes in *. cbn [length fmap list_fmap concat].
  rewrite length_app. pose proof (length_record_bytes r). lia.
Qed.

Lemma fl_seek_by_ok n (f : osFile) : 0 <= fl_pos f + n → fl_seek_by n f = (Ret (fl_pos f + n), set_fl_pos (fl_pos f + n) f).
Proof. intros Hn. unfold fl_seek_by, fl_seek_to. mstep reflexivity. by rewrite decide_False by lia. Qed.

Lemma load_loop_replay rs : ∀ fuel p f,
  Forall plain rs → 0 <= fl_pos f → fl_rest f = log_bytes rs → (length rs < fuel)%nat →
  load_loop fuel (p, f) = (Ret tt, (replay rs (fl_pos f) p, set_fl_pos (fl_pos f + len (log_bytes rs)) f)).
Proof.
  induction rs as [|r rs IH]; intros [|fuel] p f Hall Hpos Hrest Hfuel; [cbn in Hfuel; lia| |cbn in Hfuel; lia|];
    cbn [load_loop]; mstep (apply wrapE_ret, on_snd_ret, fl_seek_by_ok; lia);
    rewrite Z.add_0_r; assert (set_fl_pos (fl_pos f) f = f) as -> by (by destruct f).
  - cbn in Hrest. mstep (unfold try, on_snd, read_entry, fl_full, fl_take, mbind, M_bind; rewrite Hrest; reflexivity).
    unfold log_bytes. cbn. by destruct f as [c q room].
  - apply Forall_cons in Hall as [Hr Hall]. pose proof Hr as (Hst & Hh & Hkv).
    unfold log_bytes in Hrest. cbn [fmap list_fmap concat] in Hrest. fold (log_bytes rs) in Hrest.
    pose proof Hrest as Hrest'. rewrite plain_bytes, <- app_assoc in Hrest by done.
    set (e := entry_bytes (entry_for r)) in *. set (w := record_bytes range r) in *.
    assert (len w = len e + (len (rec_Key r) + len (rec_Value r))) as Hlen
      by (subst w; rewrite plain_bytes, !len_app by done; reflexivity).
    pose proof (len_nonneg e). pose proof (len_nonneg (rec_Key r)). pose proof (len_nonneg (rec_Value r)).
    mstep (unfold try; rewrite (on_snd_ret read_entry p f (entry_for r) (set_fl_pos (fl_pos f + len e) f));
      [reflexivity|by apply (reads_entry r Hst f _ Hpos Hrest)]).
    mstep reflexivity. cbn [entry_for le_HeaderCount le_KeySize le_ValueSize le_Offset].
    rewrite Hh, map_size_empty. cbn [Z.of_nat Z.to_nat skip_headers]. mstep reflexivity.
    unfold wrapu. rewrite Z.mod_small by lia.
    mstep (apply wrapE_ret, on_snd_ret, fl_seek_by_ok; cbn [fl_pos set_fl_pos]; lia).
    rewrite set_fl_pos_pos. cbn [fl_pos set_fl_pos].
    replace (fl_pos f + len e + (len (rec_Key r) + len (rec_Value r))) with (fl_pos f + len w) by lia.
    rewrite IH; [|done|cbn [fl_pos set_fl_pos]; lia|by apply fl_rest_after|cbn in Hfuel; lia].
    rewrite set_fl_pos_pos. unfold log_bytes at 2. cbn [replay fl_pos set_fl_pos fmap list_fmap concat].
    rewrite len_app. by rewrite <- Z.add_assoc.
Qed.

Lemma writeAll_replay l : ∀ p f,
  Forall storable (uncurry stamped <$> l) → len (log_bytes (uncurry stamped <$> l)) <= fl_room f →
  ∃ pos, writeAll l (p, f) =
    (Ret tt, (replay (uncurry stamped <$> l) (len (fl_content f)) p, appended f (log_bytes (uncurry stamped <$> l)) pos)).
Proof.
  induction l as [|[now r] l IH]; intros p f Hall Hroom; cbn [writeAll].
  - exists (fl_pos f). destruct f. unfold appended. cbn. by rewrite app_nil_r, Z.sub_0_r.
  - apply Forall_cons in Hall as [Hr Hall]. unfold log_bytes in Hroom |- *. cbn [fmap list_fmap concat uncurry] in Hroom |- *.
    fold (log_bytes (uncurry stamped <$> l)) in *. rewrite len_app in Hroom.
    set (w := record_bytes range (stamped now r)) in *. pose proof (len_nonneg w). pose proof (len_nonneg (log_bytes (uncurry stamped <$> l))).
    destruct (writeRecord_spec now r p f Hr) as (q & Hq & Hw); [lia|]. fold w in Hw. rewrite decide_True in Hw by lia.
    destruct (IH (add_entry (rec_Offset r) (len (fl_content f)) p) (appended f w q) Hall) as [pos E]; [cbn [appended fl_room]; lia|].
    exists pos. rewrite (M_bind_ret _ _ _ _ _ Hw), E. cbn [replay appended fl_content fl_room].
    rewrite len_app. unfold appended. cbn [fl_content fl_room]. rewrite <- app_assoc, len_app, Z.sub_add_distr. done.
Qed.

(** A log written is a log reloaded: records without headers that were
    written to an empty file, one after the other, are all found again when
    the index is rebuilt from the file, and the partition comes out as it was:
    the same index, head offset and record count. *)
Theorem store_reload (p : PartitionStore) (l : list (Z * dafkaRecord)) (room : Z) :
  Forall plain (uncurry stamped <$> l) → len (log_bytes (uncurry stamped <$> l)) <= room →
  ∃ p' f', writeAll l (p, mkFile [] 0 room) = (Ret tt, (p', f')) ∧
    ∀ pos room', ∃ f'', loadPartitionIndex (p, mkFile (fl_content f') pos room') = (Ret tt, (p', f'')).
Proof.
  intros Hall Hroom. destruct (writeAll_replay l p (mkFile [] 0 room)) as [q E].
  - eapply Forall_impl; [exact Hall|]. by intros r [? _].
  - exact Hroom.
  - eexists _, _. split; [exact E|]. intros pos room'. eexists. unfold loadPartitionIndex.
    mstep (apply wrapE_ret, on_snd_ret; unfold fl_seek_to; rewrite decide_False by lia; reflexivity).
    mstep reflexivity. cbn [appended fl_content set_fl_pos app fl_room].
    apply load_loop_replay; [done|done|done|apply Nat.lt_succ_r, length_log_bytes].
Qed.
End log.

(** ** Loading ends on every file *)

Lemma fl_take_mono {A} (m : M bytes A) f :
  (∀ r, len (m r).2 <= len r) → fl_content (fl_take m f).2 = fl_content f ∧ fl_pos f <= fl_pos (fl_take m f).2.
Proof.
  intros Hm. unfold fl_take. specialize (Hm (fl_rest f)). destruct (m (fl_rest f)) as [a rest]. cbn in *. split; [done|lia].
Qed.

Lemma rd_full_len n r : len (rd_full n r).2 <= len r.
Proof.
  unfold rd_full. repeat case_match; cbn; unfold len; rewrite ?length_drop; cbn; lia.
Qed.

Lemma fl_uint_mono n f : fl_content (fl_uint n f).2 = fl_content f ∧ fl_pos f <= fl_pos (fl_uint n f).2.
Proof.
  pose proof (fl_take_mono (rd_full n) f (rd_full_len n)) as H. unfold fl_uint, mbind, M_bind, fl_full.
  destruct (fl_take (rd_full n) f) as [[| |] f']; exact H.
Qed.

Lemma fl_uint_value n f z f' : fl_uint n f = (Ret z, f') → 0 <= z.
Proof.
  unfold fl_uint, mbind, M_bind. destruct (fl_full n f) as [[x| |] f2]; [|done..]. intros [= <- _].
  apply be_get_range.
Qed.

Lemma fl_uint_no_panic n f s : (fl_uint n f).1 ≠ Panic s.
Proof.
  unfold fl_uint, mbind, M_bind, fl_full, fl_take, rd_full. repeat (case_match; simplify_eq/=; try done).
Qed.

(** Skipping headers goes forward, adds to the size and never panics. *)
Lemma skip_headers_ok n : ∀ size f,
  0 <= size →
  match skip_headers n size f with
  | (Ret z, f') => 0 <= z ∧ fl_content f' = fl_content f ∧ fl_pos f <= fl_pos f'
  | (Fail _, _) => True
  | (Panic _, _) => False
  end.
Proof.
  induction n as [|n IH]; intros size f Hs; [done|]. cbn [skip_headers]. unfold mbind, M_bind, wrapE.
  pose proof (fl_uint_mono 2 f) as [Hc1 Hp1]. pose proof (fl_uint_no_panic 2 f) as Hn1.
  destruct (fl_uint 2 f) as [[k| |s1] f1] eqn:E1; [|done|by destruct (Hn1 s1)].
  pose proof (fl_uint_mono 2 f1) as [Hc2 Hp2]. pose proof (fl_uint_no_panic 2 f1) as Hn2.
  destruct (fl_uint 2 f1) as [[v| |s2] f2] eqn:E2; [|done|by destruct (Hn2 s2)].
  specialize (IH (size + wrapu 16 (k + v + 4)) f2). cbn in *.
  destruct (skip_headers n (size + wrapu 16 (k + v + 4)) f2) as [[z| |] f3]; [|done|].
  - destruct IH as (? & ? & ?); [pose proof (Z.mod_pos_bound (k + v + 4) (2 ^ 16)); unfold wrapu; lia|].
    split; [done|]. split; [congruence|lia].
  - apply IH. pose proof (Z.mod_pos_bound (k + v + 4) (2 ^ 16)). unfold wrapu. lia.
Qed.

Lemma read_entry_ok f :
  0 <= fl_pos f →
  match read_entry f with
  | (Ret e, f') => 0 <= le_KeySize e ∧ 0 <= le_ValueSize e ∧ fl_content f' = fl_content f ∧ fl_pos f' = fl_pos f + 25 ∧ fl_rest f ≠ []
  | (Fail _, _) => True
  | (Panic _, _) => False
  end.
Proof.
  intros Hp. unfold read_entry, mbind, M_bind, fl_full, fl_take, rd_full. cbn [decide].
  rewrite decide_False by lia. destruct (fl_rest f) as [|b r] eqn:E; [done|]. case_decide as Hl; [|done].
  cbn [fst snd mret M_ret entry_of le_KeySize le_ValueSize fl_content set_fl_pos fl_pos].
  split; [apply be_get_range|]. split; [apply be_get_range|]. split; [done|]. split; [|done].
  unfold len. rewrite length_drop. lia.
Qed.

Lemma load_loop_total fuel : ∀ p f,
  0 <= fl_pos f → (length (fl_rest f) < fuel)%nat → ∀ s, (load_loop fuel (p, f)).1 ≠ Panic s.
Proof.
  induction fuel as [|fuel IH]; intros p f Hp Hf s; [lia|]. cbn [load_loop].
  rewrite (M_bind_ret _ _ _ (fl_pos f + 0) (p, f)).
  2:{ apply wrapE_ret, on_snd_ret. rewrite fl_seek_by_ok by lia. rewrite Z.add_0_r. by destruct f. }
  cbv beta. pose proof (read_entry_ok f Hp) as He. unfold mbind at 1, M_bind at 1, try, on_snd.
  destruct (read_entry f) as [[e|err|s1] f1]; [|by destruct err|done].
  destruct He as (Hk & Hv & Hc & Hp1 & Hne). unfold mbind at 1, M_bind at 1, upd_fst, mupd.
  unfold mbind at 1, M_bind at 1, on_snd.
  pose proof (skip_headers_ok (Z.to_nat (le_HeaderCount e)) (wrapu 32 (le_KeySize e + le_ValueSize e)) f1) as Hsk.
  destruct (skip_headers _ _ f1) as [[z| |] f2]; [|done|].
  - destruct Hsk as (Hz & Hc2 & Hp2); [pose proof (Z.mod_pos_bound (le_KeySize e + le_ValueSize e) (2 ^ 32)); unfold wrapu; lia|].
    unfold mbind at 1, M_bind at 1, wrapE, on_snd. rewrite fl_seek_by_ok by lia. apply IH; [cbn; lia|].
    unfold fl_rest in *. cbn. rewrite Hc2, Hc, length_drop in *.
    assert (drop (Z.to_nat (fl_pos f)) (fl_content f) ≠ []) as Hlt by done.
    assert (Z.to_nat (fl_pos f) < length (fl_content f))%nat.
    { apply Nat.lt_nge. intros Hge. apply Hlt. by apply drop_ge. }
    lia.
  - exfalso. apply Hsk. pose proof (Z.mod_pos_bound (le_KeySize e + le_ValueSize e) (2 ^ 32)). unfold wrapu. lia.
Qed.

(** Rebuilding the index ends on every file, whatever its bytes: the
    number of iterations the loop is given is enough, and it neither runs past
    the end nor panics. *)
Theorem store_load_total (p : PartitionStore) (f : osFile) (s : string) : (loadPartitionIndex (p, f)).1 ≠ Panic s.
Proof.
  unfold loadPartitionIndex. rewrite (M_bind_ret _ _ _ 0 (p, set_fl_pos 0 f)) by done. cbv beta.
  rewrite (M_bind_ret _ _ _ _ _ (eq_refl : mget (p, set_fl_pos 0 f) = _)). cbv beta iota.
  apply load_loop_total; [done|]. unfold fl_rest. rewrite length_drop. cbn [fl_content set_fl_pos]. lia.
Qed.

(** At or past the end of the file the loop stops. *)
Lemma load_loop_end fuel p f :
  0 <= fl_pos f → fl_rest f = [] → load_loop (S fuel) (p, f) = (Ret tt, (p, f)).
Proof.
  intros Hp Hr. cbn [load_loop]. mstep (apply wrapE_ret, on_snd_ret, fl_seek_by_ok; lia).
  rewrite Z.add_0_r. assert (set_fl_pos (fl_pos f) f = f) as -> by (by destruct f).
  mstep (unfold try, on_snd, read_entry, fl_full, fl_take, mbind, M_bind; rewrite Hr; reflexivity).
  destruct f as [c q room]. unfold set_fl_pos. cbn. by rewrite Z.add_0_r.
Qed.

(** Headers break the reload: the lengths of the headers are read right
    after the entry, where the file has the key, so the first bytes of the key
    are taken for lengths. Here the key has four bytes or more and there is one
    header: whatever follows in the file, if it is not longer than those bytes
    make it, is skipped silently, and the reloaded partition has only the
    first record. *)
Theorem store_reload_headers (range : Headers → list (bytes * bytes)) (r : dafkaRecord) (a b c d : byte)
    (key' rest : bytes) (p : PartitionStore) (room : Z) :
  storable r → size (rec_Headers r) = 1%nat → rec_Key r = a :: b :: c :: d :: key' →
  len (rec_Key r) + len (rec_Value r) < 2 ^ 32 →
  len (headers_bytes (range (rec_Headers r)) ++ rest) <= 4 + wrapu 16 (be_get [a; b] + be_get [c; d] + 4) →
  ∃ f', loadPartitionIndex (p, mkFile (record_bytes range r ++ rest) 0 room) =
    (Ret tt, (add_entry (rec_Offset r) 0 p, f')).
Proof.
  intros Hst Hh Hk Hkv Hlen. set (x := wrapu 16 _) in Hlen.
  assert (0 <= x) as Hx by (apply Z.mod_pos_bound; lia).
  set (tl := headers_bytes (range (rec_Headers r)) ++ rest) in *.
  assert (record_bytes range r ++ rest = entry_bytes (entry_for r) ++ rec_Key r ++ rec_Value r ++ tl) as ->
    by (unfold record_bytes, tl; by rewrite <- !app_assoc).
  set (content := entry_bytes (entry_for r) ++ rec_Key r ++ rec_Value r ++ tl).
  set (f := mkFile content 0 room). eexists. unfold loadPartitionIndex.
  mstep (apply wrapE_ret, on_snd_ret; unfold fl_seek_to; rewrite decide_False by lia; reflexivity).
  mstep reflexivity. change (set_fl_pos 0 f) with f. cbn [fl_content f].
  pose proof (len_nonneg (rec_Key r)). pose proof (len_nonneg (rec_Value r)).
  assert (len (entry_bytes (entry_for r)) = 25) as He by (unfold len; by rewrite length_entry_bytes).
  assert (exists n, length content = S n) as [n Hn].
  { subst content. rewrite length_app, length_entry_bytes. by eexists. }
  rewrite Hn. cbn [load_loop]. mstep (apply wrapE_ret, on_snd_ret, fl_seek_by_ok; cbn; lia).
  change (set_fl_pos (fl_pos f + 0) f) with f.
  assert (fl_rest f = entry_bytes (entry_for r) ++ rec_Key r ++ rec_Value r ++ tl) as Hrest by done.
  mstep (unfold try; rewrite (on_snd_ret read_entry p f (entry_for r) (set_fl_pos 25 f));
    [reflexivity|rewrite (reads_entry r Hst f _ ltac:(done) Hrest), He; reflexivity]).
  mstep reflexivity. cbn [entry_for le_HeaderCount le_KeySize le_ValueSize le_Offset]. rewrite Hh.
  assert (reads (skip_headers 1 (wrapu 32 (len (rec_Key r) + len (rec_Value r)))) ([a; b] ++ [c; d] ++ [])
    (len (rec_Key r) + len (rec_Value r) + x)) as Hskip.
  { unfold wrapu at 1. rewrite Z.mod_small by lia. cbn [skip_headers].
    assert (∀ u v, reads (fl_uint 2) [u; v] (be_get [u; v])) as Hu.
    { intros u v. rewrite <- (be_put_get [u; v]) at 1. apply reads_uint, (be_get_range [u; v]). }
    eapply reads_bind; [apply reads_wrapE, Hu|]. eapply reads_bind; [apply reads_wrapE, Hu|]. apply reads_ret. }
  pose proof (fl_rest_after f _ _ ltac:(done) Hrest) as Hrest2. rewrite He, Hk in Hrest2.
  mstep (apply on_snd_ret; by apply (Hskip (set_fl_pos 25 f) (key' ++ rec_Value r ++ tl))).
  mstep (apply wrapE_ret, on_snd_ret, fl_seek_by_ok; cbn [fl_pos set_fl_pos];
    change (len ([a; b] ++ [c; d] ++ [])) with 4; lia).
  destruct n as [|n]; [exfalso; subst content; rewrite length_app, length_entry_bytes in Hn; lia|].
  apply load_loop_end.
  - cbn [fl_pos set_fl_pos]. change (len ([a; b] ++ [c; d] ++ [])) with 4. lia.
  - unfold fl_rest. cbn [fl_pos set_fl_pos fl_content f]. change (len ([a; b] ++ [c; d] ++ [])) with 4.
    apply drop_ge. unfold content. apply Nat2Z.inj_le. fold (len (entry_bytes (entry_for r) ++ rec_Key r ++ rec_Value r ++ tl)).
    rewrite !len_app, He. lia.
Qed.

(** ** Witnesses *)

Definition ex_plain (o : Z) : dafkaRecord := mkRecord (gs "t") (gs "p") o (gs "key") (gs "value") ∅ 0.
Definition ex_fresh : PartitionStore := mkPartition (gs "t") (gs "p") 0 (gs "t-p.log") 0 ∅ 0 0.

Lemma ex_plain_plain o now : 0 <= o < 2 ^ 64 → - 2 ^ 63 <= now < 2 ^ 63 → plain (stamped now (ex_plain o)).
Proof.
  intros Ho Hn. split; [|done]. split; [done|]. split; [done|]. do 3 (split; [done|]).
  intros k v H. cbn in H. by rewrite lookup_empty in H.
Qed.

Lemma store_reload_witness :
  ∃ p' f', writeAll map_to_list [(7, ex_plain 3); (8, ex_plain 4)] (ex_fresh, mkFile [] 0 100) = (Ret tt, (p', f')) ∧
    ps_HeadOffset p' = 4 ∧
    ∀ pos room', ∃ f'', loadPartitionIndex (ex_fresh, mkFile (fl_content f') pos room') = (Ret tt, (p', f'')).
Proof.
  destruct (store_reload map_to_list map_to_list_range_order ex_fresh [(7, ex_plain 3); (8, ex_plain 4)] 100)
    as (p' & f' & E & H).
  - repeat constructor; try (by apply lookup_empty_Some in H); done.
  - by vm_compute.
  - exists p', f'. split; [done|]. split; [|done]. vm_compute in E. by injection E as <- _.
Defined.

Lemma store_reload_headers_witness :
  let r := mkRecord (gs "t") (gs "p") 0 (gs "user") (gs "v") {[gs "a" := gs "b"]} 0 in
  ∃ f', loadPartitionIndex (ex_fresh, mkFile (record_bytes map_to_list r ++ record_bytes map_to_list (ex_plain 1)) 0 100) =
    (Ret tt, (add_entry 0 0 ex_fresh, f')).
Proof.
  intros r. apply (store_reload_headers map_to_list r "u"%byte "s"%byte "e"%byte "r"%byte []).
  - split; [done|]. do 4 (split; [done|]). intros k v H. cbn in H. apply lookup_singleton_Some in H as [<- <-]. done.
  - done.
  - done.
  - by vm_compute.
  - by vm_compute.
Defined.
