(* ===== verification/DafkaStoreSpec.v ===== *)
(** * DafkaStoreSpec: the store as a map of logs

    The abstract store is the sequence of records it has acknowledged: for
    each topic and partition a map from offsets to records, the last one
    written winning. Every history of the store's operations, with any
    interleaving of its loops and writes failing for lack of room, implements
    it: a fetch returns the run of consecutive acknowledged records. *)

From Stdlib Require Import Strings.Byte ZArith Lia.
From stdpp Require Import base strings numbers gmap list.
From S2P Require Import Prelude Reader MlmMessage DafkaMessage DafkaStore DafkaStoreFacts.

#[local] Open Scope Z_scope.
#[local] Set Default Goal Selector "!".

(** ** Names *)

(** Topics without colon, hyphen and slash, partitions without slash: keys
    and file names then tell partitions apart. *)
Definition names_ok (topic partition : bytes) : Prop :=
  (":"%byte ∉ topic) ∧ ("-"%byte ∉ topic) ∧ ("/"%byte ∉ topic) ∧ ("/"%byte ∉ partition).

Lemma app_sep_inj (s : byte) (a b x y : bytes) :
  (s ∉ a) → (s ∉ b) → a ++ s :: x = b ++ s :: y → a = b ∧ x = y.
Proof.
  revert b. induction a as [|c a IH]; intros [|e b] Ha Hb H; cbn in H.
  - by injection H.
  - injection H as -> _. destruct Hb. by left.
  - injection H as -> _. destruct Ha. by left.
  - injection H as -> H. apply not_elem_of_cons in Ha as [_ Ha]. apply not_elem_of_cons in Hb as [_ Hb].
    destruct (IH b Ha Hb H) as [-> ->]. done.
Qed.

Lemma partitionKey_inj t p t' p' :
  names_ok t p → names_ok t' p' → partitionKey t p = partitionKey t' p' → t = t' ∧ p = p'.
Proof. intros (H & _) (H' & _). by apply app_sep_inj. Qed.

Lemma logName_inj t p t' p' :
  names_ok t p → names_ok t' p' → logName t p = logName t' p' → t = t' ∧ p = p'.
Proof.
  intros (_ & H & _) (_ & H' & _) E. apply app_sep_inj in E as [-> E]; [|done..].
  split; [done|]. by apply (inj (.++ _)) in E.
Qed.

Lemma path_split_nonempty p : path_split p ≠ [].
Proof. destruct p; cbn; [done|]. repeat case_match; done. Qed.

Lemma path_split_last dir name :
  ("/"%byte ∉ name) → path_split (dir ++ gs "/" ++ name) = path_split dir ++ [name].
Proof.
  intros Hn. assert (path_split name = [name]) as Hs.
  { induction name as [|b name IH]; [done|]. apply not_elem_of_cons in Hn as [Hb Hn]. cbn.
    rewrite decide_False by congruence. by rewrite IH. }
  change (gs "/" ++ name) with ("/"%byte :: name). induction dir as [|b dir IH]; cbn [app path_split].
  - by rewrite decide_True, Hs by done.
  - rewrite IH. case_decide; [done|]. pose proof (path_split_nonempty dir). by destruct (path_split dir).
Qed.

Lemma path_join_last l : ∃ pre, ∀ n, path_join (l ++ [n]) = pre ++ n.
Proof.
  induction l as [|c l [pre IH]]; [by exists []|]. exists (c ++ gs "/" ++ pre). intros n.
  specialize (IH n). cbn [app path_join]. destruct (l ++ [n]) eqn:E; [by destruct l|].
  rewrite IH. by rewrite <- !app_assoc.
Qed.

(** An element that is a proper name ends up last in the cleaned path. *)
Lemma filepath_Join_last dir :
  dir ≠ [] → ∃ pre, ∀ name, ("/"%byte ∉ name) → name ≠ [] → name ≠ gs "." → name ≠ gs ".." → filepath_Join dir name = pre ++ name.
Proof.
  intros Hd.
  set (acc := rev (foldl (clean_step (path_rooted dir)) [] (path_split dir))).
  destruct (path_join_last acc) as [pre Hpre].
  exists (if path_rooted dir then gs "/" ++ pre else pre). intros name Hs H0 H1 H2.
  assert (filepath_Join dir name = path_clean (dir ++ gs "/" ++ name)) as ->.
  { unfold filepath_Join. destruct dir; [done|]. by destruct name. }
  unfold path_clean. assert (path_rooted (dir ++ gs "/" ++ name) = path_rooted dir) as -> by (by destruct dir).
  rewrite path_split_last, foldl_app by done. cbn [foldl].
  assert (∀ rooted l, rev (clean_step rooted l name) = rev l ++ [name]) as Hc.
  { intros rooted l. unfold clean_step. rewrite decide_False by (intros [?|?]; done). by rewrite decide_False. }
  rewrite Hc. fold acc. rewrite Hpre. destruct (path_rooted dir); [by rewrite <- app_assoc|].
  rewrite decide_False; [done|]. by destruct acc.
Qed.

Lemma logName_proper t p :
  names_ok t p → ("/"%byte ∉ logName t p) ∧ logName t p ≠ [] ∧ logName t p ≠ gs "." ∧ logName t p ≠ gs "..".
Proof.
  intros (_ & _ & Ht & Hp).
  assert (5 <= length (logName t p))%nat as Hl.
  { unfold logName. rewrite !length_app. cbn. lia. }
  split; [|split; [|split]]; [|intros E; rewrite E in Hl; cbn in Hl; lia..].
  unfold logName. rewrite !not_elem_of_app. repeat split; [done| |done|]; cbn; rewrite !not_elem_of_cons; (repeat split; try done); apply not_elem_of_nil.
Qed.

Lemma logPath_inj s s' t p t' p' :
  st_dataDir s = st_dataDir s' → st_dataDir s ≠ [] → names_ok t p → names_ok t' p' →
  logPath s t p = logPath s' t' p' → t = t' ∧ p = p'.
Proof.
  intros Hd Hne H H' E. unfold logPath in E. rewrite <- Hd in E.
  destruct (filepath_Join_last (st_dataDir s) Hne) as [pre Hpre].
  destruct (logName_proper t p H) as (? & ? & ? & ?). destruct (logName_proper t' p' H') as (? & ? & ? & ?).
  rewrite !Hpre in E by done. apply (inj (pre ++.)) in E. by apply logName_inj.
Qed.

(** ** The abstract store *)

(** The log of a partition in a sequence of acknowledged records. *)
Definition log_of (acked : list dafkaRecord) (topic partition : bytes) : gmap Z dafkaRecord :=
  foldl (fun m r => if decide (rec_Topic r = topic ∧ rec_Partition r = partition) then <[rec_Offset r := r]> m else m) ∅ acked.

Lemma log_of_snoc acked r t p :
  log_of (acked ++ [r]) t p =
    if decide (rec_Topic r = t ∧ rec_Partition r = p) then <[rec_Offset r := r]> (log_of acked t p) else log_of acked t p.
Proof. unfold log_of. by rewrite foldl_app. Qed.

(** A record that may be offered to the store, and a time of day. *)
Definition offered (r : dafkaRecord) : Prop :=
  names_ok (rec_Topic r) (rec_Partition r) ∧ storable (stamped 0 r).

Definition time_ok (now : Z) : Prop := - 2 ^ 63 <= now < 2 ^ 63.

Lemma offered_stamped now r : offered r → time_ok now → storable (stamped now r).
Proof. intros [_ (Ho & _ & Hk & Hv & Hh)] Hn. exact (conj Ho (conj Hn (conj Hk (conj Hv Hh)))). Qed.

(** ** Histories *)

(** A turn of a loop, a request, a frame from the SUB socket, a tick of the
    periodic sync, or a change of the room on the disk. *)
Inductive store_op : Type :=
| SData (now : Z) (data : bytes)
| SStore (r : dafkaRecord)
| SRecordLoop (now : Z)
| SFetch (topic partition : bytes) (offset count : Z)
| SFetchLoop
| SHeads (topic partition : bytes)
| SHeadLoop
| SSync
| SSyncLoop (now : Z)
| STick (now : Z)
| SRoom (room : Z).

Section histories.
Context (range : Headers → list (bytes * bytes)) (Hrange : range_order range).
Context (prange : gmap bytes PartitionStore → list (bytes * PartitionStore)) (Hprange : range_order prange).
Context (openErr : bytes → option error).

(** The store after an operation and the record it acknowledged, if any. *)
Definition store_step (op : store_op) (s : Store) : list dafkaRecord * Store :=
  match op with
  | SData now data => ([], (Store_processSubscriptionMessage now data s).2)
  | SStore r => ([], (Store_Store r s).2)
  | SRecordLoop now =>
      match recordLoop range openErr now s with
      | (Ret (Some (inl _)), s') => (stamped now <$> take 1 (st_records s), s')
      | (_, s') => ([], s')
      end
  | SFetch t p o n => ([], (Store_Fetch t p o n s).2)
  | SFetchLoop => ([], (fetchLoop s).2)
  | SHeads t p => ([], (Store_GetHeads t p s).2)
  | SHeadLoop => ([], (headLoop prange s).2)
  | SSync => ([], (Store_Sync s).2)
  | SSyncLoop now => ([], (syncLoop prange now s).2)
  | STick now => ([], (syncAllPartitions prange now s).2)
  | SRoom room => ([], set_st_disk (st_disk s) room s)
  end.

Fixpoint store_run (ops : list store_op) (s : Store) : list dafkaRecord * Store :=
  match ops with
  | [] => ([], s)
  | op :: ops' =>
      let '(acked, s1) := store_step op s in
      let '(acked', s2) := store_run ops' s1 in (acked ++ acked', s2)
  end.

(** What the environment may do: records that may be offered, times that fit,
    disks with no negative room. *)
Definition store_op_ok (op : store_op) : Prop :=
  match op with
  | SData now data => time_ok now ∧ ∀ msg r,
      dafka_Unmarshal data zero_dm = (Ret tt, msg) → Record_Unmarshal (dm_Body msg) zero_rm = (Ret tt, r) →
      offered (mkRecord (dm_Topic msg) (rm_Partition r) (rm_Offset r) (rm_Key r) (rm_Value r) (rm_Headers r) now)
  | SStore r => offered r
  | SRecordLoop now | SSyncLoop now | STick now => time_ok now
  | SRoom room => 0 <= room
  | _ => True
  end.

(** ** The invariant *)

(** A partition of the store holds its log. *)
Definition partition_ok (s : Store) (acked : list dafkaRecord) (key : bytes) (p : PartitionStore) : Prop :=
  key = partitionKey (ps_Topic p) (ps_Partition p) ∧ names_ok (ps_Topic p) (ps_Partition p) ∧
  ps_File p = logPath s (ps_Topic p) (ps_Partition p) ∧ 0 <= ps_pos p ∧
  indexes range p (default [] (st_disk s !! ps_File p)) (log_of acked (ps_Topic p) (ps_Partition p)).

(** The others have no records and no bytes on the disk. *)
Definition absent_ok (s : Store) (acked : list dafkaRecord) : Prop := ∀ t p,
  names_ok t p → st_partitions s !! partitionKey t p = None →
  log_of acked t p = ∅ ∧ default [] (st_disk s !! logPath s t p) = [].

Definition store_ok (acked : list dafkaRecord) (s : Store) : Prop :=
  st_dataDir s ≠ [] ∧ 0 <= st_room s ∧ Forall offered (st_records s) ∧
  map_Forall (partition_ok s acked) (st_partitions s) ∧ absent_ok s acked.

(** What changes when an operation on one partition appends [x] to its file:
    the partition becomes [p'], whose log is the one of [acked']. *)
Lemma store_ok_append acked acked' s p p' x room key :
  store_ok acked s → st_partitions s !! key = Some p → 0 <= room →
  ps_Topic p' = ps_Topic p → ps_Partition p' = ps_Partition p → ps_File p' = ps_File p → 0 <= ps_pos p' →
  let content := default [] (st_disk s !! ps_File p) in
  indexes range p' (content ++ x) (log_of acked' (ps_Topic p) (ps_Partition p)) →
  (∀ t q, ¬ (t = ps_Topic p ∧ q = ps_Partition p) → log_of acked' t q = log_of acked t q) →
  store_ok acked' (set_st_partitions (<[key := p']> (st_partitions s))
    (set_st_disk (<[ps_File p := content ++ x]> (st_disk s)) room s)).
Proof.
  intros (Hd & Hroom & Hrec & Hparts & Habs) Hp Hr Ht Hpt Hf Hpos content Hidx Hother.
  destruct (Hparts key p Hp) as (Hkey & Hn & Hfile & _ & _).
  split; [done|]. split; [done|]. split; [done|]. split.
  - intros k q. cbn. destruct (decide (k = key)) as [->|Hne].
    + rewrite lookup_insert_eq. intros [= <-]. unfold partition_ok. rewrite Ht, Hpt, Hf. cbn.
      by rewrite lookup_insert_eq.
    + rewrite lookup_insert_ne by done. intros Hq. destruct (Hparts k q Hq) as (Hk & Hnq & Hfq & Hposq & Hiq).
      split; [done|]. split; [done|]. split; [done|]. split; [done|].
      assert (¬ (ps_Topic q = ps_Topic p ∧ ps_Partition q = ps_Partition p)) as Hneq
        by (intros [E1 E2]; apply Hne; congruence).
      cbn. rewrite Hother, lookup_insert_ne; [done| |done].
      rewrite Hfile, Hfq. intros E. apply logPath_inj in E as [E1 E2]; [|done..]. by apply Hneq.
  - intros t q Hnq. cbn. destruct (decide (partitionKey t q = key)) as [->|Hne]; [by rewrite lookup_insert_eq|].
    rewrite lookup_insert_ne by done. intros Hq. destruct (Habs t q Hnq Hq) as [Hl Hc].
    assert (¬ (t = ps_Topic p ∧ q = ps_Partition p)) as Hneq by (intros [-> ->]; by apply Hne).
    rewrite Hother by done. split; [done|]. change (logPath _ t q) with (logPath s t q).
    rewrite lookup_insert_ne; [done|]. rewrite Hfile. intros E. apply logPath_inj in E as [E1 E2]; [|done..]. by apply Hneq.
Qed.

(** Creating a partition: its file is empty. *)
Lemma loadPartitionIndex_empty p room : loadPartitionIndex (p, mkFile [] 0 room) = (Ret tt, (p, mkFile [] 0 room)).
Proof. by destruct p. Qed.

Lemma createPartition_fresh now t q s :
  default [] (st_disk s !! logPath s t q) = [] → openErr (logPath s t q) = None →
  createPartition openErr now t q s =
    (Ret (mkPartition t q 0 (logPath s t q) 0 ∅ now 0), set_st_disk (<[logPath s t q := []]> (st_disk s)) (st_room s) s).
Proof.
  intros Hc Ho. unfold createPartition. mstep reflexivity. cbv zeta. rewrite Ho. mstep reflexivity. rewrite Hc.
  rewrite (M_bind_ret _ _ _ (Ret tt, mkPartition t q 0 (logPath s t q) 0 ∅ now 0)
    (set_st_disk (<[logPath s t q := []]> (st_disk s)) (st_room s) s)); [done|].
  unfold run_part. cbn [ps_File ps_pos st_disk set_st_disk]. rewrite lookup_insert_eq. cbn [from_option st_room]. unfold id.
  rewrite loadPartitionIndex_empty. unfold set_st_disk.
  cbn [fl_content fl_pos fl_room st_disk st_room st_dataDir st_partitions st_records st_fetchRequests st_headRequests
    st_syncRequests st_state st_statistics]. by rewrite insert_insert_eq.
Qed.

Lemma createPartition_denied now t q s e :
  openErr (logPath s t q) = Some e →
  createPartition openErr now t q s = (Fail (Wrap "failed to create partition file" e), s).
Proof. intros Ho. unfold createPartition. mstep reflexivity. cbv zeta. by rewrite Ho. Qed.

Lemma store_ok_create acked now t q s :
  store_ok acked s → names_ok t q → st_partitions s !! partitionKey t q = None →
  let p := mkPartition t q 0 (logPath s t q) 0 ∅ now 0 in
  store_ok acked (set_st_partitions (<[partitionKey t q := p]> (st_partitions s))
    (set_st_disk (<[logPath s t q := []]> (st_disk s)) (st_room s) s)).
Proof.
  intros (Hd & Hroom & Hrec & Hparts & Habs) Hn Hp p. destruct (Habs t q Hn Hp) as [Hl Hc].
  assert (∀ P, default [] ((<[logPath s t q := []]> (st_disk s) : gmap bytes bytes) !! P) = default [] (st_disk s !! P)) as Hdisk.
  { intros P. destruct (decide (P = logPath s t q)) as [->|]; [by rewrite lookup_insert_eq, Hc|by rewrite lookup_insert_ne]. }
  split; [done|]. split; [done|]. split; [done|]. split.
  - apply map_Forall_insert_2.
    + split; [done|]. split; [done|]. split; [done|]. split; [done|]. unfold p. cbn. rewrite Hdisk, Hl.
      split; [done|]. split; [split; [intros o Ho; by apply elem_of_empty in Ho|by left]|]. intros o pos r H. by apply (lookup_empty_Some o pos) in H.
    + eapply map_Forall_impl; [exact Hparts|]. intros k x (H1 & H2 & H3 & H4 & H5).
      split; [done|]. split; [done|]. split; [done|]. split; [done|]. cbn. by rewrite Hdisk.
  - intros t' q' Hn'. cbn. rewrite Hdisk. destruct (decide (partitionKey t' q' = partitionKey t q)) as [E|Hne];
      [by rewrite E, lookup_insert_eq|]. rewrite lookup_insert_ne by done. apply Habs. done.
Qed.

Lemma on_partition_write acked now r s p :
  let key := partitionKey (rec_Topic r) (rec_Partition r) in
  store_ok acked s → st_partitions s !! key = Some p → offered r → time_ok now →
  match on_partition key p (writeRecord range now r) s with
  | (Ret _, s') => store_ok (acked ++ [stamped now r]) s'
  | (Fail _, s') => store_ok acked s'
  | (Panic _, _) => False
  end.
Proof.
  intros key Hok Hp Hr Hnow. pose proof Hok as (_ & Hroom & _ & Hparts & _).
  destruct (Hparts key p Hp) as (Hkey & Hn & Hfile & Hpos & Hidx).
  apply partitionKey_inj in Hkey as [Ht Hq]; [|apply Hr|done].
  pose proof (offered_stamped now r Hr Hnow) as Hst.
  unfold on_partition, mbind, M_bind, run_part. set (content := default [] (st_disk s !! ps_File p)) in *.
  destruct (writeRecord_spec range Hrange now r p (mkFile content (ps_pos p) (st_room s)) Hst Hroom) as (pos & Hpos' & Hw).
  cbn [fl_room fl_content] in Hw. case_decide as Hfit.
  - rewrite Hw. cbn [appended fl_content fl_room fl_pos mupd lift].
    apply (store_ok_append acked _ s p); [done|done|lia|done..| |].
    + rewrite log_of_snoc, decide_True by (by rewrite <- Ht, <- Hq).
      exact (indexes_add range p content _ (stamped now r) Hidx Hst Ht Hq).
    + intros t q Hne. rewrite log_of_snoc, decide_False; [done|]. cbn. intros [<- <-]. by apply Hne.
  - destruct Hw as [e Hw]. rewrite Hw. cbn [fl_content fl_room fl_pos mupd lift].
    apply (store_ok_append acked _ s p); [done..| |done]. by apply indexes_app.
Qed.

Lemma storeRecord_ok acked now r s :
  store_ok acked s → offered r → time_ok now →
  match storeRecord range openErr now r s with
  | (Ret _, s') => store_ok (acked ++ [stamped now r]) s'
  | (Fail _, s') => store_ok acked s'
  | (Panic _, _) => False
  end.
Proof.
  intros Hok Hr Hnow. unfold storeRecord. set (key := partitionKey (rec_Topic r) (rec_Partition r)).
  unfold mbind at 1, M_bind at 1, mget. cbv beta iota zeta.
  assert (Hrest : ∀ s1 p, store_ok acked s1 → st_partitions s1 !! key = Some p →
    match ((w ← try (on_partition key p (writeRecord range now r));
      match w with
      | inr e => mupd (st_bump StoreErrors 1);; mfail e
      | inl _ => mupd (st_bump RecordsStored 1);; mupd (st_bump BytesStored (len (rec_Key r) + len (rec_Value r)))
      end) : M Store unit) s1 with
    | (Ret _, s') => store_ok (acked ++ [stamped now r]) s'
    | (Fail _, s') => store_ok acked s'
    | (Panic _, _) => False
    end).
  { intros s1 p Hok1 Hp1. pose proof (on_partition_write acked now r s1 p Hok1 Hp1 Hr Hnow) as H.
    unfold mbind at 1, M_bind at 1, try. fold key in H. by destruct (on_partition key p _ s1) as [[[]| |] s2]. }
  destruct (st_partitions s !! key) as [p|] eqn:Hp.
  - rewrite (M_bind_ret _ _ s p s) by done. by apply Hrest.
  - pose proof Hr as [Hn _]. pose proof Hok as (_ & _ & _ & _ & Habs). destruct (Habs _ _ Hn Hp) as [_ Hc].
    destruct (openErr (logPath s (rec_Topic r) (rec_Partition r))) as [e|] eqn:Ho.
    + rewrite (M_bind_fail _ _ _ (Wrap "failed to create partition file" e) s); [done|].
      by apply M_bind_fail, createPartition_denied.
    + pose proof (store_ok_create acked now _ _ s Hok Hn Hp) as Hok1. cbv zeta in Hok1. fold key in Hok1.
      erewrite (M_bind_ret (createPartition openErr now (rec_Topic r) (rec_Partition r) ≫= _)).
      2:{ rewrite (M_bind_ret _ _ _ _ _ (createPartition_fresh now _ _ s Hc Ho)). reflexivity. }
      apply Hrest; [exact Hok1|]. cbn. apply lookup_insert_eq.
Qed.

Lemma processFetchRequest_ok acked s req :
  store_ok acked s →
  match st_partitions s !! partitionKey (sf_Topic req) (sf_Partition req) with
  | None => processFetchRequest req s = (Ret ([], Some (Errorf "partition not found")), s)
  | Some p => ∃ s', processFetchRequest req s =
      (Ret (log_run (log_of acked (ps_Topic p) (ps_Partition p)) (Z.to_nat (sf_Count req)) (sf_Offset req), None), s') ∧
      store_ok acked s'
  end.
Proof.
  intros Hok. unfold processFetchRequest. set (key := partitionKey _ _).
  rewrite (M_bind_ret _ _ _ _ _ (eq_refl : mget s = _)). cbv beta.
  destruct (st_partitions s !! key) as [p|] eqn:Hp; [|done].
  pose proof Hok as (_ & Hroom & _ & Hparts & _). destruct (Hparts key p Hp) as (Hkey & Hn & Hfile & Hpos & Hidx).
  unfold on_partition, mbind, M_bind, run_part, readRecords. set (content := default [] (st_disk s !! ps_File p)) in *.
  destruct (readRecords_run range Hrange (Z.to_nat (sf_Count req)) (sf_Offset req) p (mkFile content (ps_pos p) (st_room s)) _ Hidx Hpos)
    as (pos & Hpos' & E).
  rewrite E. eexists. split; [reflexivity|].
  pose proof (store_ok_append acked acked s p (set_ps_pos pos p) [] (st_room s) key Hok Hp Hroom eq_refl eq_refl eq_refl Hpos') as H.
  cbv zeta in H. fold content in H. rewrite app_nil_r in H. apply H; [|done]. exact Hidx.
Qed.

(** Syncing does not touch what a partition holds. *)
Lemma store_ok_sync acked now t q s : store_ok acked s → store_ok acked (syncPartitions prange now t q s).2.
Proof.
  intros (Hd & Hroom & Hrec & Hparts & Habs). split; [done|]. split; [done|]. split; [done|]. split.
  - cbn. eapply sweep_Forall; [done|exact Hparts|]. intros k p p' Hp [= <-]. by case_match.
  - intros t' q' Hn. cbn. rewrite sweep_lookup by done. intros Hp. apply Habs; [done|].
    by destruct (st_partitions s !! partitionKey t' q').
Qed.

Lemma store_ok_records acked s l : store_ok acked s → Forall offered l → store_ok acked (set_st_records l s).
Proof. intros (Hd & Hroom & _ & Hparts & Habs) Hl. done. Qed.

Lemma store_ok_data acked now data s :
  store_ok acked s → store_op_ok (SData now data) → store_ok acked (Store_processSubscriptionMessage now data s).2.
Proof.
  intros Hok [Hnow Hdata]. unfold Store_processSubscriptionMessage.
  destruct (dafka_Unmarshal data zero_dm) as [[[]| |] msg] eqn:E1; [|done..]. case_decide; [done|].
  destruct (Record_Unmarshal (dm_Body msg) zero_rm) as [[[]| |] r] eqn:E2; [|done..].
  rewrite (M_bind_ret _ _ _ _ _ (eq_refl : mget s = _)). cbv beta zeta.
  pose proof Hok as (_ & _ & Hrec & _). specialize (Hdata msg r eq_refl E2).
  case_decide; [|done]. apply (store_ok_records acked s); [done|]. apply Forall_app. by split; [|apply Forall_singleton].
Qed.

Lemma store_step_ok acked op s :
  store_ok acked s → store_op_ok op → store_ok (acked ++ (store_step op s).1) (store_step op s).2.
Proof.
  intros Hok Hop. pose proof Hok as (Hd & Hroom & Hrec & Hparts & Habs).
  destruct op as [now data|r|now|t q o n| |t q| | |now|now|room]; cbn [store_step fst snd]; rewrite ?app_nil_r.
  - by apply store_ok_data.
  - unfold Store_Store, mbind, M_bind, mget. case_decide; [done|]. apply store_ok_records; [done|].
    apply Forall_app. by split; [|apply Forall_singleton].
  - unfold recordLoop, mbind, M_bind, mget. destruct (st_records s) as [|r rest] eqn:Er; [cbn; by rewrite app_nil_r|].
    apply Forall_cons in Hrec as [Hr Hrest]. cbn [mupd]. unfold try.
    pose proof (storeRecord_ok acked now r _ (store_ok_records acked s rest Hok Hrest) Hr Hop) as H.
    destruct (storeRecord range openErr now r (set_st_records rest s)) as [[[]|e|] s']; cbn; rewrite ?app_nil_r; done.
  - unfold Store_Fetch, mbind, M_bind, mget. by case_decide.
  - unfold fetchLoop, mbind, M_bind, mget. destruct (st_fetchRequests s) as [|req rest]; [done|]. cbn [mupd].
    assert (store_ok acked (set_st_fetchRequests rest s)) as Hok1 by done.
    pose proof (processFetchRequest_ok acked _ req Hok1) as H. destruct (st_partitions _ !! _) as [p|].
    + by destruct H as (s' & -> & H).
    + by rewrite H.
  - unfold Store_GetHeads, mbind, M_bind, mget. by case_decide.
  - unfold headLoop, mbind, M_bind, mget. by destruct (st_headRequests s).
  - unfold Store_Sync, mbind, M_bind, mget. by case_decide.
  - unfold syncLoop, mbind, M_bind, mget. destruct (st_syncRequests s) as [|req rest]; [done|]. 
    by apply (store_ok_sync acked now _ _ (set_st_syncRequests rest s)).
  - by apply store_ok_sync.
  - done.
Qed.

Lemma store_run_ok ops : ∀ acked s,
  store_ok acked s → Forall store_op_ok ops → store_ok (acked ++ (store_run ops s).1) (store_run ops s).2.
Proof.
  induction ops as [|op ops IH]; intros acked s Hok Hops; cbn [store_run]; [cbn; by rewrite app_nil_r|].
  apply Forall_cons in Hops as [Hop Hops]. pose proof (store_step_ok acked op s Hok Hop) as H.
  destruct (store_step op s) as [a1 s1]. specialize (IH _ s1 H Hops). cbn in IH.
  destruct (store_run ops s1) as [a2 s2]. cbn in *. by rewrite app_assoc.
Qed.

Lemma NewStore_ok dir room : 0 <= room → store_ok [] (NewStore dir ∅ room).
Proof.
  intros Hroom. split; [cbn; by case_decide|]. split; [done|]. split; [done|]. split; [apply map_Forall_empty|].
  intros t q _ _. cbn. by rewrite lookup_empty.
Qed.

End histories.

(** A history: one record is acknowledged, the next does not fit on the disk. *)
Definition ex_record (o : Z) : dafkaRecord := mkRecord (gs "t") (gs "p") o (gs "k") (gs "value") {[gs "a" := gs "b"]} 0.
Definition ex_ops : list store_op :=
  [SStore (ex_record 4); SStore (ex_record 5); SRecordLoop 7; SFetch (gs "t") (gs "p") 4 10; SFetchLoop; SRoom 3; SRecordLoop 8].

Lemma ex_record_offered o : 0 <= o < 2 ^ 64 → offered (ex_record o).
Proof.
  intros Ho. split.
  - repeat split; cbn; rewrite ?not_elem_of_cons; repeat split; by try apply not_elem_of_nil.
  - split; [done|]. do 4 (split; [done|]). intros k v H. cbn in H. apply lookup_singleton_Some in H as [<- <-]. done.
Qed.


(** ** What the file names and keys let through *)

(** Starting on a disk with logs loads none of them: a file name is never
    split into topic and partition. *)
Lemma store_start_forgets openErr now files s : loadPartitions openErr now (Ret files) s = (Ret tt, s).
Proof.
  unfold loadPartitions. mstep reflexivity. induction files as [|[name isDir] files IH]; [done|]. cbn. by case_match.
Qed.

(** Topics with a colon collide: a record of topic [a], partition [b:c] is
    returned as one of topic [a:b], partition [c]. *)
Example store_key_collision :
  let r := mkRecord (gs "a") (gs "b:c") 0 [] (gs "v") ∅ 0 in
  let s := (storeRecord map_to_list (fun _ => None) 0 r (NewStore [] ∅ 100)).2 in
  let s' := (storeRecord map_to_list (fun _ => None) 0 (mkRecord (gs "a:b") (gs "c") 1 [] (gs "w") ∅ 0) s).2 in
  (processFetchRequest (mkStoreFetch (gs "a") (gs "b:c") 1 1) s').1 =
    Ret ([mkRecord (gs "a") (gs "b:c") 1 [] (gs "w") ∅ 0], None).
Proof. vm_compute. reflexivity. Qed.

(** Topics with a hyphen share a file: a new partition starts with the
    records of the other one. *)
Example store_file_collision :
  let r := mkRecord (gs "a-b") (gs "c") 5 [] (gs "v") ∅ 0 in
  let s := (storeRecord map_to_list (fun _ => None) 0 r (NewStore [] ∅ 100)).2 in
  let s' := (storeRecord map_to_list (fun _ => None) 0 (mkRecord (gs "a") (gs "b-c") 6 [] (gs "w") ∅ 0) s).2 in
  (processFetchRequest (mkStoreFetch (gs "a") (gs "b-c") 5 9) s').1 =
    Ret ([mkRecord (gs "a") (gs "b-c") 5 [] (gs "v") ∅ 0; mkRecord (gs "a") (gs "b-c") 6 [] (gs "w") ∅ 0], None).
Proof. vm_compute. reflexivity. Qed.

(** A topic from the network names a file outside the data directory. *)
Example store_path_escape :
  logPath (NewStore (gs "/var/lib/dafka") ∅ 0) (gs "x/../../../../etc/cron") (gs "p") = gs "/etc/cron-p.log".
Proof. vm_compute. reflexivity. Qed.
