(* ===== verification/DafkaProducer.v ===== *)
(** * DafkaProducer: offsets and batches of a producer (src/dafka/producer.go)

    A producer numbers the records of each topic, collects them in a pending
    batch per topic and moves full or old batches to a queue, from which one
    loop publishes them. Its loops run concurrently; each locked section is one
    step, and the record loop has a program counter, since it releases the
    lock between appending a record and looking at the batch again. *)

From Stdlib Require Import Strings.Byte ZArith Lia.
From stdpp Require Import base strings numbers gmap list.
From S2P Require Import Prelude Reader MlmMessage DafkaMessage DafkaStore.

#[local] Open Scope Z_scope.
#[local] Set Default Goal Selector "!".

Record RecordBatch : Type := mkBatch {
  rb_Topic : bytes;
  rb_Partition : bytes;
  rb_Records : list dafkaRecord;
  rb_BaseOffset : Z;
  rb_BatchSize : Z;
  rb_Timestamp : Z }.

Record TopicState : Type := mkTopicState {
  ts_Name : bytes;
  ts_NextOffset : Z;
  ts_PendingBatch : option RecordBatch;
  ts_LastFlush : Z;
  ts_Headers : Headers }.

Record ProduceRequest : Type := mkProduce {
  pq_Topic : bytes;
  pq_Key : bytes;
  pq_Value : bytes;
  pq_Headers : Headers;
  pq_Timestamp : Z }.

Record ProduceResponse : Type := mkProduceResponse {
  pp_Topic : bytes;
  pp_Partition : bytes;
  pp_Offset : Z;
  pp_Timestamp : Z }.

(** Where the record loop is: waiting for a request, about to look at the
    size of the batch it appended [record] to, about to flush it, or about to
    count the record. *)
Inductive record_pc : Type :=
| RIdle
| RCheck (record : dafkaRecord)
| RFlush (record : dafkaRecord)
| RCount (record : dafkaRecord).

(** [pr_sent] is what the PUB socket has accepted, [pr_responses] what the
    requesters have received. *)
Record Producer : Type := mkProducer {
  pr_uuid : bytes;
  pr_BatchSize : Z;
  pr_LingerMs : Z;
  pr_topics : gmap bytes TopicState;
  pr_records : list ProduceRequest;
  pr_batches : list RecordBatch;
  pr_pc : record_pc;
  pr_statistics : Statistics;
  pr_responses : list ProduceResponse;
  pr_sent : list bytes }.

Definition set_pr_topics (v : gmap bytes TopicState) (p : Producer) : Producer :=
  mkProducer (pr_uuid p) (pr_BatchSize p) (pr_LingerMs p) v (pr_records p) (pr_batches p) (pr_pc p) (pr_statistics p) (pr_responses p) (pr_sent p).
Definition set_pr_records (v : list ProduceRequest) (p : Producer) : Producer :=
  mkProducer (pr_uuid p) (pr_BatchSize p) (pr_LingerMs p) (pr_topics p) v (pr_batches p) (pr_pc p) (pr_statistics p) (pr_responses p) (pr_sent p).
Definition set_pr_batches (v : list RecordBatch) (p : Producer) : Producer :=
  mkProducer (pr_uuid p) (pr_BatchSize p) (pr_LingerMs p) (pr_topics p) (pr_records p) v (pr_pc p) (pr_statistics p) (pr_responses p) (pr_sent p).
Definition set_pr_pc (v : record_pc) (p : Producer) : Producer :=
  mkProducer (pr_uuid p) (pr_BatchSize p) (pr_LingerMs p) (pr_topics p) (pr_records p) (pr_batches p) v (pr_statistics p) (pr_responses p) (pr_sent p).
Definition pr_bump (f : stat) (n : Z) (p : Producer) : Producer :=
  mkProducer (pr_uuid p) (pr_BatchSize p) (pr_LingerMs p) (pr_topics p) (pr_records p) (pr_batches p) (pr_pc p) (bump f n (pr_statistics p)) (pr_responses p) (pr_sent p).
Definition add_pr_response (v : ProduceResponse) (p : Producer) : Producer :=
  mkProducer (pr_uuid p) (pr_BatchSize p) (pr_LingerMs p) (pr_topics p) (pr_records p) (pr_batches p) (pr_pc p) (pr_statistics p) (pr_responses p ++ [v]) (pr_sent p).
Definition add_pr_sent (v : bytes) (p : Producer) : Producer :=
  mkProducer (pr_uuid p) (pr_BatchSize p) (pr_LingerMs p) (pr_topics p) (pr_records p) (pr_batches p) (pr_pc p) (pr_statistics p) (pr_responses p) (pr_sent p ++ [v]).

Definition set_ts_PendingBatch (b : option RecordBatch) (s : TopicState) : TopicState :=
  mkTopicState (ts_Name s) (ts_NextOffset s) b (ts_LastFlush s) (ts_Headers s).

(** [NewProducer]: the defaults of the configuration. *)
Definition NewProducer (uuid : bytes) (batchSize lingerMs : Z) : Producer :=
  mkProducer uuid (if decide (batchSize <= 0) then 100 else batchSize) (if decide (lingerMs <= 0) then 100 else lingerMs)
    ∅ [] [] RIdle zero_stats [] [].

(** [Produce] and [ProduceAsync] queue the request. *)
Definition Produce (request : ProduceRequest) : M Producer unit :=
  p ← mget;
  if decide (10000 <= len (pr_records p)) then mfail (Errorf "producer queue full")
  else mupd (set_pr_records (pr_records p ++ [request])).

(** ** Flushing *)

(** [flushTopicBatchLocked] *)
Definition flushTopicBatchLocked (now : Z) (topic : bytes) (topicState : TopicState) : M Producer unit :=
  match ts_PendingBatch topicState with
  | None => mret tt
  | Some batch =>
      if decide (rb_Records batch = []) then mret tt
      else
        p ← mget;
        if decide (len (pr_batches p) < 1000) then
          mupd (set_pr_batches (pr_batches p ++ [batch]));;
          mupd (fun p => set_pr_topics (<[topic :=
            mkTopicState (ts_Name topicState) (ts_NextOffset topicState) None now (ts_Headers topicState)]> (pr_topics p)) p)
        else mupd (pr_bump ProduceErrors 1)
  end.

Definition flushTopicBatch (now : Z) (topic : bytes) : M Producer unit :=
  p ← mget;
  match pr_topics p !! topic with
  | None => mret tt
  | Some topicState =>
      match ts_PendingBatch topicState with
      | None => mret tt
      | Some _ => flushTopicBatchLocked now topic topicState
      end
  end.

(** The loops over the topics visit each once; flushing one changes no other. *)
Fixpoint flush_loop (cond : RecordBatch → bool) (now : Z) (topics : list (bytes * TopicState)) : M Producer unit :=
  match topics with
  | [] => mret tt
  | (topic, topicState) :: rest =>
      (match ts_PendingBatch topicState with
       | Some batch => if cond batch then flushTopicBatchLocked now topic topicState else mret tt
       | None => mret tt
       end);;
      flush_loop cond now rest
  end.

Section producer.
Context (trange : gmap bytes TopicState → list (bytes * TopicState)).
Context (range : Headers → list (bytes * bytes)).

(** [flushPendingBatches]: batches older than the linger time (durations in
    nanoseconds). *)
Definition flushPendingBatches (now : Z) : M Producer unit :=
  p ← mget;
  flush_loop (fun batch => bool_decide (pr_LingerMs p * 1000000 < now - rb_Timestamp batch)) now (trange (pr_topics p)).

Definition flushAllBatches (now : Z) : M Producer unit :=
  p ← mget;
  flush_loop (fun _ => true) now (trange (pr_topics p)).

(** ** The record loop *)

(** The first locked section of [processProduceRequest], and the response. *)
Definition acceptRecord (now : Z) (request : ProduceRequest) : M Producer unit :=
  p ← mget;
  let topicState := match pr_topics p !! pq_Topic request with
    | Some topicState => topicState
    | None => mkTopicState (pq_Topic request) 0 None 0 ∅
    end in
  let record := mkRecord (pq_Topic request) (pr_uuid p) (ts_NextOffset topicState) (pq_Key request) (pq_Value request)
    (pq_Headers request) (pq_Timestamp request) in
  let batch := match ts_PendingBatch topicState with
    | Some batch => batch
    | None => mkBatch (pq_Topic request) (pr_uuid p) [] (rec_Offset record) 0 now
    end in
  let batch' := mkBatch (rb_Topic batch) (rb_Partition batch) (rb_Records batch ++ [record]) (rb_BaseOffset batch)
    (rb_BatchSize batch + 1) (rb_Timestamp batch) in
  let topicState' := mkTopicState (ts_Name topicState) (wrapu 64 (ts_NextOffset topicState + 1)) (Some batch')
    (ts_LastFlush topicState) (ts_Headers topicState) in
  mupd (set_pr_topics (<[pq_Topic request := topicState']> (pr_topics p)));;
  mupd (add_pr_response (mkProduceResponse (pq_Topic request) (pr_uuid p) (rec_Offset record) now));;
  mupd (set_pr_pc (RCheck record)).

(** The second: [topicState.PendingBatch] may have become nil since. *)
Definition checkBatch (record : dafkaRecord) : M Producer unit :=
  p ← mget;
  match pr_topics p !! rec_Topic record ≫= ts_PendingBatch with
  | None => mpanic "nil pointer dereference"
  | Some batch =>
      if decide (pr_BatchSize p <= rb_BatchSize batch) then mupd (set_pr_pc (RFlush record))
      else mupd (set_pr_pc (RCount record))
  end.

(** One step of [recordLoop]. *)
Definition Producer_recordLoop (now : Z) : M Producer unit :=
  p ← mget;
  match pr_pc p with
  | RIdle =>
      match pr_records p with
      | [] => mret tt
      | request :: rest => mupd (set_pr_records rest);; acceptRecord now request
      end
  | RCheck record => checkBatch record
  | RFlush record => flushTopicBatch now (rec_Topic record);; mupd (set_pr_pc (RCount record))
  | RCount record =>
      mupd (pr_bump RecordsProduced 1);;
      mupd (pr_bump BytesProduced (len (rec_Key record) + len (rec_Value record)));;
      mupd (set_pr_pc RIdle)
  end.

(** ** Publishing *)

Context (sendErr : bytes → option error).

Definition publishRecord (record : dafkaRecord) : M Producer unit :=
  match CreateRecordMessage range (rec_Topic record) record with
  | Ret msg =>
      match dafka_Marshal msg with
      | Ret data =>
          match sendErr data with
          | None =>
              mupd (add_pr_sent data);; mupd (pr_bump MessagesOut 1);; mupd (pr_bump BytesOut (len data))
          | Some _ => mupd (pr_bump ProduceErrors 1)
          end
      | _ => mupd (pr_bump ProduceErrors 1)
      end
  | _ => mupd (pr_bump ProduceErrors 1)
  end.

Fixpoint publishBatch_loop (records : list dafkaRecord) : M Producer unit :=
  match records with
  | [] => mret tt
  | record :: rest => publishRecord record;; publishBatch_loop rest
  end.

Definition publishBatch (batch : RecordBatch) : M Producer unit := publishBatch_loop (rb_Records batch).

Definition batchLoop : M Producer unit :=
  p ← mget;
  match pr_batches p with
  | [] => mret tt
  | batch :: rest => mupd (set_pr_batches rest);; publishBatch batch
  end.

(** ** Histories *)

Inductive producer_op : Type :=
| PProduce (request : ProduceRequest)
| PRecordLoop (now : Z)
| PTick (now : Z)
| PFlush (now : Z)
| PBatchLoop.

Definition producer_step (op : producer_op) : M Producer unit :=
  match op with
  | PProduce request => _ ← try (Produce request); mret tt
  | PRecordLoop now => Producer_recordLoop now
  | PTick now => flushPendingBatches now
  | PFlush now => flushAllBatches now
  | PBatchLoop => batchLoop
  end.

Fixpoint producer_run (ops : list producer_op) : M Producer unit :=
  match ops with
  | [] => mret tt
  | op :: ops' => producer_step op;; producer_run ops'
  end.
End producer.
