(* ===== verification/DafkaProducerFacts.v ===== *)
(** * DafkaProducerFacts: a producer loses, reorders and renumbers nothing

    The stream of a topic is what the publishing loop has taken, followed by
    the queued batches and the pending batch. It is always the sequence of the
    requests accepted so far, numbered from zero. *)

From Stdlib Require Import Strings.Byte ZArith Lia.
From stdpp Require Import base strings numbers gmap list.
From S2P Require Import Prelude Reader MlmMessage DafkaMessage DafkaStore DafkaStoreFacts DafkaProducer.

#[local] Open Scope Z_scope.
#[local] Set Default Goal Selector "!".

(** ** Streams *)

Definition records_of (t : bytes) (bs : list RecordBatch) : list dafkaRecord :=
  concat (rb_Records <$> filter (fun b => rb_Topic b = t) bs).

Definition pending (p : Producer) (t : bytes) : list dafkaRecord :=
  match pr_topics p !! t ≫= ts_PendingBatch with Some b => rb_Records b | None => [] end.

(** The stream of topic [t], after the publishing loop took the batches
    [taken]. *)
Definition stream (taken : list RecordBatch) (p : Producer) (t : bytes) : list dafkaRecord :=
  records_of t (taken ++ pr_batches p) ++ pending p t.

Definition next_offset (p : Producer) (t : bytes) : Z := from_option ts_NextOffset 0 (pr_topics p !! t).

(** The request a record was made from. *)
Definition request_of (r : dafkaRecord) : ProduceRequest :=
  mkProduce (rec_Topic r) (rec_Key r) (rec_Value r) (rec_Headers r) (rec_Timestamp r).

Definition requests_for (t : bytes) (l : list ProduceRequest) : list ProduceRequest := filter (fun q => pq_Topic q = t) l.
Definition offsets_told (t : bytes) (l : list ProduceResponse) : list Z := pp_Offset <$> filter (fun a => pp_Topic a = t) l.

(** The offsets of a stream of [n] records: they count up from zero and wrap
    at 64 bits. *)
Definition counting (n : nat) : list Z := (fun i => wrapu 64 (Z.of_nat i)) <$> seq 0 n.

(** A batch: it has records, all of its topic, as many as it says. *)
Definition batch_ok (b : RecordBatch) : Prop := rb_Records b ≠ [] ∧ rb_BatchSize b = len (rb_Records b).

Definition topic_ok (queued : list ProduceRequest) (taken : list RecordBatch) (p : Producer) (t : bytes) : Prop :=
  (request_of <$> stream taken p t) ++ requests_for t (pr_records p) = requests_for t queued ∧
  (rec_Offset <$> stream taken p t) = counting (length (stream taken p t)) ∧
  next_offset p t = wrapu 64 (len (stream taken p t)) ∧
  offsets_told t (pr_responses p) = (rec_Offset <$> stream taken p t) ∧
  Forall (fun r => rec_Partition r = pr_uuid p) (stream taken p t) ∧
  (∀ b, pr_topics p !! t ≫= ts_PendingBatch = Some b → rb_Topic b = t ∧ batch_ok b).

Definition producer_ok (queued : list ProduceRequest) (taken : list RecordBatch) (p : Producer) : Prop :=
  (∀ t, topic_ok queued taken p t) ∧ Forall batch_ok (pr_batches p).

Lemma records_of_app t l k : records_of t (l ++ k) = records_of t l ++ records_of t k.
Proof. unfold records_of. by rewrite filter_app, fmap_app, concat_app. Qed.

Lemma records_of_one t b : records_of t [b] = if decide (rb_Topic b = t) then rb_Records b else [].
Proof. unfold records_of. rewrite filter_cons, filter_nil. case_decide; cbn; by rewrite ?app_nil_r. Qed.

Lemma counting_S n : counting (S n) = counting n ++ [wrapu 64 (Z.of_nat n)].
Proof. unfold counting. by rewrite seq_S, fmap_app. Qed.

(** ** Moving a batch to the queue *)

Lemma flush_ok queued taken now t s p :
  producer_ok queued taken p → pr_topics p !! t = Some s →
  ∃ p', flushTopicBatchLocked now t s p = (Ret tt, p') ∧ producer_ok queued taken p' ∧
    (∀ t', t' ≠ t → pr_topics p' !! t' = pr_topics p !! t').
Proof.
  intros [Hok Hb] Hs. unfold flushTopicBatchLocked. destruct (ts_PendingBatch s) as [b|] eqn:Eb; [|by exists p].
  case_decide; [by exists p|]. rewrite (M_bind_ret _ _ _ _ _ (eq_refl : mget p = _)). cbv beta.
  case_decide as Hroom; [|by exists (pr_bump ProduceErrors 1 p)].
  eexists. split; [reflexivity|]. cbn. split; [|intros t' Hne; by rewrite lookup_insert_ne].
  pose proof (Hok t) as (_ & _ & _ & _ & _ & Hbt). destruct (Hbt b) as [Htb Hbb]; [by rewrite Hs|].
  assert (Hstream : ∀ t', stream taken (set_pr_topics (<[t := mkTopicState (ts_Name s) (ts_NextOffset s) None now (ts_Headers s)]>
    (pr_topics p)) (set_pr_batches (pr_batches p ++ [b]) p)) t' = stream taken p t').
  { intros t'. unfold stream, pending. cbn. rewrite !records_of_app, records_of_one. destruct (decide (t' = t)) as [->|Hne].
    - rewrite lookup_insert_eq, decide_True by done. cbn. rewrite Hs. cbn. rewrite Eb, app_nil_r. by rewrite app_assoc.
    - rewrite lookup_insert_ne, decide_False by congruence. by rewrite app_nil_r. }
  split; [|cbn; apply Forall_app; by split; [|apply Forall_singleton]].
  intros t'. specialize (Hok t') as (H1 & H2 & H3 & H4 & H5 & H6). unfold topic_ok. rewrite Hstream.
  do 2 (split; [done|]). split; [|split; [done|split; [done|]]].
  - rewrite <- H3. unfold next_offset. cbn. destruct (decide (t' = t)) as [->|]; [by rewrite lookup_insert_eq, Hs|by rewrite lookup_insert_ne].
  - intros b'. cbn. destruct (decide (t' = t)) as [->|]; [by rewrite lookup_insert_eq|by rewrite lookup_insert_ne; [apply H6|]].
Qed.

Lemma flush_loop_ok queued taken cond now topics : ∀ p,
  producer_ok queued taken p → NoDup topics.*1 → (∀ t s, (t, s) ∈ topics → pr_topics p !! t = Some s) →
  ∃ p', flush_loop cond now topics p = (Ret tt, p') ∧ producer_ok queued taken p'.
Proof.
  induction topics as [|[t s] topics IH]; intros p Hok Hnd Hin; cbn [flush_loop]; [by exists p|].
  cbn in Hnd. apply NoDup_cons in Hnd as [Hnt Hnd].
  assert (∃ p1, (match ts_PendingBatch s with
       | Some batch => if cond batch then flushTopicBatchLocked now t s else mret tt
       | None => mret tt
       end) p = (Ret tt, p1) ∧ producer_ok queued taken p1 ∧ (∀ t', t' ≠ t → pr_topics p1 !! t' = pr_topics p !! t'))
    as (p1 & E & Hok1 & Hoth).
  { destruct (ts_PendingBatch s); [|by exists p]. destruct (cond r); [|by exists p].
    apply flush_ok; [done|]. apply Hin. by left. }
  destruct (IH p1 Hok1 Hnd) as (p2 & E2 & Hok2).
  { intros t' s' Ht'. rewrite Hoth; [by apply Hin; right|]. intros ->. apply Hnt. apply list_elem_of_fmap. by exists (t, s'). }
  exists p2. by rewrite (M_bind_ret _ _ _ _ _ E).
Qed.

(** ** Accepting a record *)

Lemma accept_ok queued taken now q rest p :
  producer_ok queued taken p → pr_records p = q :: rest →
  ∃ p' r s, acceptRecord now q (set_pr_records rest p) = (Ret tt, p') ∧ producer_ok queued taken p' ∧
    rec_Topic r = pq_Topic q ∧ pr_pc p' = RCheck r ∧ pr_topics p' = <[pq_Topic q := s]> (pr_topics p) ∧
    pr_batches p' = pr_batches p.
Proof.
  intros [Hok Hb] Hq.
  set (ts := match pr_topics p !! pq_Topic q with Some s => s | None => mkTopicState (pq_Topic q) 0 None 0 ∅ end).
  set (record := mkRecord (pq_Topic q) (pr_uuid p) (ts_NextOffset ts) (pq_Key q) (pq_Value q) (pq_Headers q) (pq_Timestamp q)).
  set (b := match ts_PendingBatch ts with Some b => b | None => mkBatch (pq_Topic q) (pr_uuid p) [] (rec_Offset record) 0 now end).
  set (b' := mkBatch (rb_Topic b) (rb_Partition b) (rb_Records b ++ [record]) (rb_BaseOffset b) (rb_BatchSize b + 1) (rb_Timestamp b)).
  set (ts' := mkTopicState (ts_Name ts) (wrapu 64 (ts_NextOffset ts + 1)) (Some b') (ts_LastFlush ts) (ts_Headers ts)).
  set (p' := set_pr_pc (RCheck record) (add_pr_response (mkProduceResponse (pq_Topic q) (pr_uuid p) (rec_Offset record) now)
    (set_pr_topics (<[pq_Topic q := ts']> (pr_topics p)) (set_pr_records rest p)))).
  exists p', record, ts'. split; [reflexivity|]. split; [|done]. split; [|done]. intros t. specialize (Hok t) as (H1 & H2 & H3 & H4 & H5 & H6).
  assert (next_offset p (pq_Topic q) = ts_NextOffset ts) as Hno
    by (unfold next_offset, ts; by destruct (pr_topics p !! pq_Topic q)).
  destruct (decide (t = pq_Topic q)) as [->|Hne].
  - assert (stream taken p' (pq_Topic q) = stream taken p (pq_Topic q) ++ [record]) as Hs.
    { unfold stream, pending. cbn. rewrite lookup_insert_eq. cbn. rewrite app_assoc. do 2 f_equal.
      unfold b, ts. destruct (pr_topics p !! pq_Topic q) as [s|]; cbn; [|done]. by destruct (ts_PendingBatch s). }
    unfold topic_ok. rewrite Hs, !fmap_app, !length_app, len_app.
    split; [|split; [|split; [|split; [|split]]]].
    + rewrite <- H1, Hq. unfold requests_for. cbn [pr_records p' set_pr_pc add_pr_response set_pr_topics set_pr_records].
      rewrite filter_cons, decide_True by done. rewrite <- app_assoc. by destruct q.
    + cbn [length]. rewrite Nat.add_1_r, counting_S, H2. f_equal. cbn. rewrite <- Hno. by rewrite H3.
    + unfold next_offset. cbn. rewrite lookup_insert_eq. cbn. rewrite <- Hno, H3. unfold wrapu.
      by rewrite Z.add_mod_idemp_l by lia.
    + unfold offsets_told. cbn [pr_responses p' set_pr_pc add_pr_response set_pr_topics set_pr_records].
      rewrite filter_app, fmap_app. fold (offsets_told (pq_Topic q) (pr_responses p)). rewrite H4. f_equal.
      by rewrite filter_cons, decide_True.
    + apply Forall_app. split; [done|by apply Forall_singleton].
    + intros b0. cbn. rewrite lookup_insert_eq. cbn. intros [= <-]. unfold b' at 1. cbn.
      unfold b, ts in *. destruct (pr_topics p !! pq_Topic q) as [s|] eqn:Es; cbn in *.
      * destruct (ts_PendingBatch s) as [b0|] eqn:Eb; cbn in *; [|done]. destruct (H6 b0 eq_refl) as [Ht [_ Hn]].
        split; [done|]. split; cbn; [by destruct (rb_Records b0)|rewrite Hn, len_app; done].
      * done.
  - assert (pr_topics p' !! t = pr_topics p !! t) as Hl by (cbn; by rewrite lookup_insert_ne).
    assert (stream taken p' t = stream taken p t) as Hs by (unfold stream, pending; by rewrite Hl).
    unfold topic_ok, next_offset. rewrite Hs, Hl. split; [|split; [done|split; [done|split; [|done]]]].
    + rewrite <- H1, Hq. unfold requests_for at 2. by rewrite filter_cons, decide_False by congruence.
    + unfold offsets_told. cbn [pr_responses p' set_pr_pc add_pr_response set_pr_topics set_pr_records].
      rewrite filter_app, fmap_app, filter_cons, decide_False by (cbn; congruence). rewrite filter_nil. cbn.
      by rewrite app_nil_r.
Qed.

(** ** Publishing *)

Section publishing.
Context (trange : gmap bytes TopicState → list (bytes * TopicState)) (Htrange : range_order trange).
Context (range : Headers → list (bytes * bytes)) (Hrange : range_order range).
Context (sendErr : bytes → option error).

(** The frame a record travels in, if it can be encoded and the socket takes
    it. *)
Definition frame (r : dafkaRecord) : option bytes :=
  match CreateRecordMessage range (rec_Topic r) r with
  | Ret msg => match dafka_Marshal msg with
      | Ret data => match sendErr data with None => Some data | Some _ => None end
      | _ => None
      end
  | _ => None
  end.

Definition published (st : Statistics) (sent : list bytes) (p : Producer) : Producer :=
  mkProducer (pr_uuid p) (pr_BatchSize p) (pr_LingerMs p) (pr_topics p) (pr_records p) (pr_batches p) (pr_pc p) st
    (pr_responses p) sent.

Lemma publishBatch_loop_sent rs : ∀ p,
  ∃ st, publishBatch_loop range sendErr rs p = (Ret tt, published st (pr_sent p ++ omap frame rs) p).
Proof.
  induction rs as [|r rs IH]; intros p; cbn [publishBatch_loop omap list_omap].
  - exists (pr_statistics p). destruct p. unfold published. cbn. by rewrite app_nil_r.
  - assert (∃ st, publishRecord range sendErr r p = (Ret tt, published st (pr_sent p ++ option_list (frame r)) p)) as [st E].
    { unfold publishRecord, frame. destruct (CreateRecordMessage range (rec_Topic r) r) as [msg| |];
        [destruct (dafka_Marshal msg) as [data| |]; [destruct (sendErr data)|..]|..];
        eexists; cbn; rewrite ?app_nil_r; reflexivity. }
    destruct (IH (published st (pr_sent p ++ option_list (frame r)) p)) as [st' E'].
    exists st'. rewrite (M_bind_ret _ _ _ _ _ E), E'. unfold published. cbn. do 2 f_equal.
    destruct (frame r); cbn; [by rewrite <- app_assoc|by rewrite app_nil_r].
Qed.

(** ** Histories *)

Definition queued_by (op : producer_op) (p : Producer) : list ProduceRequest :=
  match op with
  | PProduce request => if decide (10000 <= len (pr_records p)) then [] else [request]
  | _ => []
  end.

Definition taken_by (op : producer_op) (p : Producer) : list RecordBatch :=
  match op with PBatchLoop => take 1 (pr_batches p) | _ => [] end.

(** A history with the requests that were queued and the batches that were
    taken for publishing; it ends early if a step panics. *)
Fixpoint producer_trace (ops : list producer_op) (queued : list ProduceRequest) (taken : list RecordBatch) (p : Producer) :
    list ProduceRequest * list RecordBatch * (outcome unit * Producer) :=
  match ops with
  | [] => (queued, taken, (Ret tt, p))
  | op :: ops' =>
      let queued' := queued ++ queued_by op p in
      let taken' := taken ++ taken_by op p in
      match producer_step trange range sendErr op p with
      | (Ret _, p') => producer_trace ops' queued' taken' p'
      | r => (queued', taken', r)
      end
  end.

Definition sent_ok (taken : list RecordBatch) (p : Producer) : Prop :=
  pr_sent p = omap frame (concat (rb_Records <$> taken)).

Lemma producer_step_sent op p :
  op ≠ PBatchLoop → pr_sent (producer_step trange range sendErr op p).2 = pr_sent p.
Proof.
  intros Hop.
  assert (Hlock : ∀ now t s, keeps (fun p' => pr_sent p' = pr_sent p) (flushTopicBatchLocked now t s)).
  { intros now t s. unfold flushTopicBatchLocked. keeps_tac; apply keeps_upd; by intros ? <-. }
  assert (Hloop : ∀ cond now l, keeps (fun p' => pr_sent p' = pr_sent p) (flush_loop cond now l)).
  { intros cond now l. induction l as [|[t s] l IH]; cbn [flush_loop]; keeps_tac. }
  cut (keeps (fun p' => pr_sent p' = pr_sent p) (producer_step trange range sendErr op)); [intros H; by apply H|].
  destruct op as [request|now|now|now|]; cbn [producer_step]; [..|done].
  - unfold Produce. keeps_tac; apply keeps_upd; by intros ? <-.
  - unfold Producer_recordLoop, acceptRecord, checkBatch, flushTopicBatch. cbv zeta.
    keeps_tac; apply Hlock || apply keeps_upd; by intros ? <-.
  - unfold flushPendingBatches. keeps_tac.
  - unfold flushAllBatches. keeps_tac.
Qed.

Lemma trange_snapshot p :
  NoDup (trange (pr_topics p)).*1 ∧ ∀ t s, (t, s) ∈ trange (pr_topics p) → pr_topics p !! t = Some s.
Proof.
  split; [by apply range_order_NoDup|]. intros t s. by rewrite (range_order_elem trange).
Qed.

Lemma producer_step_ok queued taken op p :
  producer_ok queued taken p →
  producer_ok (queued ++ queued_by op p) (taken ++ taken_by op p) (producer_step trange range sendErr op p).2.
Proof.
  intros Hok. pose proof Hok as [Ht Hb]. destruct (trange_snapshot p) as [Hnd Hin].
  destruct op as [request|now|now|now|]; cbn [producer_step queued_by taken_by]; rewrite ?app_nil_r.
  - unfold Produce, try, mbind, M_bind, mget. case_decide; [by rewrite app_nil_r|]. split; [|done]. intros t.
    destruct (Ht t) as (H1 & H2). split; [|done]. cbn. unfold requests_for in *. rewrite !filter_app, <- H1.
    by rewrite <- app_assoc.
  - unfold Producer_recordLoop. rewrite (M_bind_ret _ _ _ _ _ (eq_refl : mget p = _)). cbv beta.
    destruct (pr_pc p) as [|r|r|r].
    + destruct (pr_records p) as [|q rest] eqn:Eq; [done|].
      rewrite (M_bind_ret _ _ _ _ _ (eq_refl : mupd (set_pr_records rest) p = _)).
      destruct (accept_ok queued taken now q rest p Hok Eq) as (p' & ? & ? & E & Hok' & _). by rewrite E.
    + unfold checkBatch. rewrite (M_bind_ret _ _ _ _ _ (eq_refl : mget p = _)). cbv beta.
      destruct (pr_topics p !! rec_Topic r ≫= ts_PendingBatch); [|done]. by case_decide.
    + assert (∃ p', flushTopicBatch now (rec_Topic r) p = (Ret tt, p') ∧ producer_ok queued taken p') as (p' & E & Hok').
      { unfold flushTopicBatch. rewrite (M_bind_ret _ _ _ _ _ (eq_refl : mget p = _)). cbv beta.
        destruct (pr_topics p !! rec_Topic r) as [s|] eqn:Es; [|by exists p].
        destruct (ts_PendingBatch s); [|by exists p].
        destruct (flush_ok queued taken now _ s p Hok Es) as (p' & E & H & _). by exists p'. }
      by rewrite (M_bind_ret _ _ _ _ _ E).
    + done.
  - unfold flushPendingBatches. rewrite (M_bind_ret _ _ _ _ _ (eq_refl : mget p = _)). cbv beta.
    set (cond := fun batch => _). destruct (flush_loop_ok queued taken cond now _ p Hok Hnd Hin) as (p' & E & H). by rewrite E.
  - unfold flushAllBatches. rewrite (M_bind_ret _ _ _ _ _ (eq_refl : mget p = _)). cbv beta.
    set (cond := fun batch => _). destruct (flush_loop_ok queued taken cond now _ p Hok Hnd Hin) as (p' & E & H). by rewrite E.
  - unfold batchLoop. rewrite (M_bind_ret _ _ _ _ _ (eq_refl : mget p = _)). cbv beta.
    destruct (pr_batches p) as [|b rest] eqn:Eb; [by rewrite app_nil_r|]. cbn [take].
    rewrite (M_bind_ret _ _ _ _ _ (eq_refl : mupd (set_pr_batches rest) p = _)). unfold publishBatch.
    destruct (publishBatch_loop_sent (rb_Records b) (set_pr_batches rest p)) as [st ->].
    split; [|by apply Forall_cons in Hb as [_ Hb]]. intros t. specialize (Ht t). unfold topic_ok, stream in *.
    rewrite Eb in Ht. cbn [published pr_batches set_pr_batches]. rewrite <- app_assoc. exact Ht.
Qed.

Lemma producer_step_sent_ok taken op p :
  sent_ok taken p → sent_ok (taken ++ taken_by op p) (producer_step trange range sendErr op p).2.
Proof.
  unfold sent_ok. intros Hs. destruct op as [request|now|now|now|];
    [cbn [taken_by]; rewrite app_nil_r, producer_step_sent by done; exact Hs..|]. cbn [producer_step taken_by].
  unfold batchLoop. rewrite (M_bind_ret _ _ _ _ _ (eq_refl : mget p = _)). cbv beta.
  destruct (pr_batches p) as [|b rest] eqn:Eb; [by rewrite app_nil_r|]. cbn [take].
  rewrite (M_bind_ret _ _ _ _ _ (eq_refl : mupd (set_pr_batches rest) p = _)). unfold publishBatch.
  destruct (publishBatch_loop_sent (rb_Records b) (set_pr_batches rest p)) as [st ->].
  cbn [pr_sent published snd set_pr_batches]. rewrite fmap_app, concat_app, omap_app, Hs. cbn. by rewrite app_nil_r.
Qed.

Lemma producer_trace_ok ops : ∀ queued taken p,
  producer_ok queued taken p → sent_ok taken p →
  let '(queued', taken', (_, p')) := producer_trace ops queued taken p in producer_ok queued' taken' p' ∧ sent_ok taken' p'.
Proof.
  induction ops as [|op ops IH]; intros queued taken p Hok Hs; cbn [producer_trace]; [done|].
  pose proof (producer_step_ok queued taken op p Hok) as Hok'. pose proof (producer_step_sent_ok taken op p Hs) as Hs'.
  destruct (producer_step trange range sendErr op p) as [[[]| |] p']; [|done..]. by apply IH.
Qed.

Lemma NewProducer_ok uuid bs lm : producer_ok [] [] (NewProducer uuid bs lm).
Proof.
  split; [|done]. intros t. split; [done|]. split; [done|]. split; [done|]. split; [done|]. split; [done|].
  intros b. cbn. by rewrite lookup_empty.
Qed.

(** C15. A producer loses, duplicates, reorders and misnumbers nothing: in every
    history of requests, turns of its loops, flushes and ticks, and for every
    topic, what was taken for publishing, what is queued and what is pending
    are together the requests accepted so far in their order, numbered from
    zero upwards, and the offset each requester was told is the one its record
    has. What the socket accepted is the frames of the records taken, in
    order. *)
Theorem producer_stream (uuid : bytes) (bs lm : Z) (ops : list producer_op) :
  let '(queued, taken, (_, p)) := producer_trace ops [] [] (NewProducer uuid bs lm) in
  (∀ t, let l := stream taken p t in
    (request_of <$> l) ++ requests_for t (pr_records p) = requests_for t queued ∧
    (rec_Offset <$> l) = counting (length l) ∧
    offsets_told t (pr_responses p) = (rec_Offset <$> l) ∧
    Forall (fun r => rec_Partition r = pr_uuid p) l) ∧
  pr_sent p = omap frame (concat (rb_Records <$> taken)).
Proof.
  pose proof (producer_trace_ok ops [] [] (NewProducer uuid bs lm) (NewProducer_ok uuid bs lm) eq_refl) as H.
  destruct (producer_trace ops [] [] (NewProducer uuid bs lm)) as [[queued taken] [r p]].
  destruct H as [[H _] Hs]. split; [|done]. intros t. by destruct (H t) as (H1 & H2 & _ & H4 & H5 & _).
Qed.

(** Flushing everything leaves no pending batch behind when the queue has
    room for all of them. *)
Lemma flush_loop_clears now topics : ∀ p,
  NoDup topics.*1 → (∀ t s, (t, s) ∈ topics → pr_topics p !! t = Some s) →
  (∀ t s b, (t, s) ∈ topics → ts_PendingBatch s = Some b → rb_Records b ≠ []) →
  len (pr_batches p) + len topics <= 1000 →
  ∃ p', flush_loop (fun _ => true) now topics p = (Ret tt, p') ∧ pr_pc p' = pr_pc p ∧
    (∀ t, t ∈ topics.*1 → pr_topics p' !! t ≫= ts_PendingBatch = None) ∧
    (∀ t, t ∉ topics.*1 → pr_topics p' !! t = pr_topics p !! t).
Proof.
  induction topics as [|[t s] topics IH]; intros p Hnd Hin Hne Hroom; cbn [flush_loop].
  { exists p. split; [done|]. split; [done|]. split; [|done]. intros t Ht. by apply not_elem_of_nil in Ht. }
  cbn in Hnd. apply NoDup_cons in Hnd as [Hnt Hnd]. rewrite len_cons in Hroom. pose proof (len_nonneg topics).
  assert (∃ p1, (match ts_PendingBatch s with
       | Some batch => if (fun _ => true) batch then flushTopicBatchLocked now t s else mret tt
       | None => mret tt
       end) p = (Ret tt, p1) ∧ pr_pc p1 = pr_pc p ∧ pr_topics p1 !! t ≫= ts_PendingBatch = None ∧
       len (pr_batches p1) <= len (pr_batches p) + 1 ∧ (∀ t', t' ≠ t → pr_topics p1 !! t' = pr_topics p !! t'))
    as (p1 & E & Hpc & Ht & Hlen & Hoth).
  { pose proof (Hin t s ltac:(by left)) as Hs. destruct (ts_PendingBatch s) as [b|] eqn:Eb.
    - unfold flushTopicBatchLocked. rewrite Eb, decide_False by (by apply (Hne t s b); [left|]).
      rewrite (M_bind_ret _ _ _ _ _ (eq_refl : mget p = _)). cbv beta. rewrite decide_True by lia.
      eexists. split; [reflexivity|]. cbn. split; [done|]. rewrite lookup_insert_eq. split; [done|].
      rewrite len_app. split; [done|]. intros t' Ht'. by rewrite lookup_insert_ne.
    - exists p. split; [done|]. split; [done|]. rewrite Hs. cbn. split; [done|]. split; [lia|done]. }
  destruct (IH p1 Hnd) as (p2 & E2 & Hpc2 & Hin2 & Hout2).
  { intros t' s' Ht'. rewrite Hoth; [by apply Hin; right|]. intros ->. apply Hnt, list_elem_of_fmap. by exists (t, s'). }
  { intros t' s' b Ht'. by apply (Hne t'); right. }
  { lia. }
  exists p2. rewrite (M_bind_ret _ _ _ _ _ E). split; [done|]. split; [congruence|]. cbn. split.
  - intros t' [->|Ht']%elem_of_cons; [by rewrite Hout2|by apply Hin2].
  - intros t' [Hne' Ht']%not_elem_of_cons. by rewrite Hout2, Hoth.
Qed.

(** The flush race: the record loop releases the lock between appending a
    record and looking at the batch again. If the batch is flushed in between,
    by a Flush command, the producer dereferences a nil pointer and the process
    dies. This happens in any reachable state in which the producer is idle
    with a request waiting and the queue of batches has room. *)
Theorem producer_flush_race (p : Producer) (queued : list ProduceRequest) (taken : list RecordBatch) (q : ProduceRequest)
    (rest : list ProduceRequest) (t1 t2 t3 : Z) :
  producer_ok queued taken p → pr_pc p = RIdle → pr_records p = q :: rest →
  len (pr_batches p) + Z.of_nat (size (pr_topics p)) < 1000 →
  (producer_run trange range sendErr [PRecordLoop t1; PFlush t2; PRecordLoop t3] p).1 = Panic "nil pointer dereference".
Proof.
  intros Hok Hpc Hq Hroom. cbn [producer_run producer_step].
  destruct (accept_ok queued taken t1 q rest p Hok Hq) as (p1 & r & s & E1 & Hok1 & Hr & Hpc1 & Htop & Hbat).
  unfold mbind at 1, M_bind at 1. unfold Producer_recordLoop at 1. rewrite (M_bind_ret _ _ _ _ _ (eq_refl : mget p = _)).
  cbv beta. rewrite Hpc, Hq. rewrite (M_bind_ret _ _ _ _ _ (eq_refl : mupd (set_pr_records rest) p = _)). rewrite E1.
  destruct (trange_snapshot p1) as [Hnd Hin].
  destruct (flush_loop_clears t2 (trange (pr_topics p1)) p1 Hnd Hin) as (p2 & E2 & Hpc2 & Hin2 & _).
  { intros t s' b Hs' Hb. destruct Hok1 as [Hok1 _]. destruct (Hok1 t) as (_ & _ & _ & _ & _ & H).
    apply (H b). by rewrite (Hin t s' Hs'). }
  { rewrite Hbat. unfold len at 2. rewrite (range_order_length trange) by done. rewrite Htop.
    rewrite map_size_insert. unfold id. case_match; lia. }
  unfold mbind at 1, M_bind at 1, flushAllBatches. rewrite (M_bind_ret _ _ _ _ _ (eq_refl : mget p1 = _)). cbv beta. rewrite E2.
  unfold mbind at 1, M_bind at 1, Producer_recordLoop. rewrite (M_bind_ret _ _ _ _ _ (eq_refl : mget p2 = _)). cbv beta.
  rewrite Hpc2, Hpc1. unfold checkBatch. rewrite (M_bind_ret _ _ _ _ _ (eq_refl : mget p2 = _)). cbv beta. rewrite Hr, Hin2; [done|].
  apply list_elem_of_fmap. exists (pq_Topic q, s). split; [done|]. rewrite (range_order_elem trange) by done.
  rewrite Htop. apply lookup_insert_eq.
Qed.
End publishing.

(** ** From the producer to the store *)

(** The frames reach the SUB socket of a store one after the other. *)
Fixpoint feed (now : Z) (frames : list bytes) : M Store unit :=
  match frames with
  | [] => mret tt
  | data :: rest => Store_processSubscriptionMessage now data;; feed now rest
  end.

Lemma frame_fits range r : range_order range → record_fits r →
  ∃ data, frame range (fun _ => None) r = Some data ∧
    ∀ now s, len (st_records s) < 10000 →
    ∃ s', Store_processSubscriptionMessage now data s = (Ret tt, s') ∧ st_records s' = st_records s ++ [stamped now r].
Proof.
  intros Hr Hfit. destruct (record_wire range r Hr Hfit) as (msg & data & body & Hc & Hm & Hu & Hb).
  exists data. unfold frame. rewrite Hc, Hm. split; [done|]. intros now s Hlen.
  unfold Store_processSubscriptionMessage. rewrite Hu. cbn [dm_Type dm_Body dm_Topic]. rewrite decide_False by (intros H; by apply H).
  rewrite Hb. rewrite (M_bind_ret _ _ _ _ _ (eq_refl : mget s = _)). cbv beta zeta. rewrite decide_True by done.
  by eexists.
Qed.

Lemma feed_frames range now rs : range_order range → Forall record_fits rs → ∀ s,
  len (st_records s) + len rs <= 10000 →
  ∃ s', feed now (omap (frame range (fun _ => None)) rs) s = (Ret tt, s') ∧ st_records s' = st_records s ++ (stamped now <$> rs).
Proof.
  intros Hr. induction rs as [|r rs IH]; intros Hall s Hlen; cbn [omap list_omap].
  - exists s. cbn. by rewrite app_nil_r.
  - apply Forall_cons in Hall as [Hfit Hall]. rewrite len_cons in Hlen. pose proof (len_nonneg rs).
    destruct (frame_fits range r Hr Hfit) as (data & -> & Hs). destruct (Hs now s) as (s1 & E1 & H1); [lia|].
    destruct (IH Hall s1) as (s2 & E2 & H2); [rewrite H1, len_app; change (len [stamped now r]) with 1; lia|].
    exists s2. cbn [feed]. rewrite (M_bind_ret _ _ _ _ _ E1). split; [done|]. rewrite H2, H1. by rewrite <- app_assoc.
Qed.

(** C23. From the producer to the store: in every history of a producer whose
    socket accepts, the frames it has sent, fed to a store with room in its
    queue, leave there the records the producer took for publishing, complete
    and in order, with the producer's numbering; only the timestamps are the
    store's own. *)
Theorem producer_to_store (trange : gmap bytes TopicState → list (bytes * TopicState))
    (range : Headers → list (bytes * bytes)) (uuid : bytes) (bs lm now : Z) (ops : list producer_op) (s : Store) :
  range_order trange → range_order range →
  let '(_, taken, (_, p)) := producer_trace trange range (fun _ => None) ops [] [] (NewProducer uuid bs lm) in
  let rs := concat (rb_Records <$> taken) in
  Forall record_fits rs → len (st_records s) + len rs <= 10000 →
  ∃ s', feed now (pr_sent p) s = (Ret tt, s') ∧ st_records s' = st_records s ++ (stamped now <$> rs).
Proof.
  intros Ht Hr. pose proof (producer_trace_ok trange Ht range (fun _ => None) ops [] [] _ (NewProducer_ok uuid bs lm) eq_refl) as H.
  destruct (producer_trace _ _ _ ops [] [] (NewProducer uuid bs lm)) as [[queued taken] [o p]].
  destruct H as [_ Hs]. intros rs Hfit Hlen. rewrite Hs. by apply feed_frames.
Qed.

(** ** Witnesses *)

Definition ex_request : ProduceRequest := mkProduce (gs "t") (gs "k") (gs "v") {[gs "a" := gs "b"]} 5.
Definition ex_idle : Producer := (producer_step map_to_list map_to_list (fun _ => None) (PProduce ex_request) (NewProducer (gs "id") 10 0)).2.

Lemma producer_flush_race_witness :
  (producer_run map_to_list map_to_list (fun _ => None) [PRecordLoop 1; PFlush 2; PRecordLoop 3] ex_idle).1 =
    Panic "nil pointer dereference".
Proof.
  apply (producer_flush_race map_to_list map_to_list_range_order map_to_list (fun _ => None) ex_idle [ex_request] [] ex_request []).
  - exact (producer_step_ok map_to_list map_to_list_range_order map_to_list (fun _ => None) [] [] (PProduce ex_request) _
      (NewProducer_ok (gs "id") 10 0)).
  - done.
  - done.
  - done.
Defined.

Lemma producer_stream_witness :
  let '(queued, taken, (_, p)) := producer_trace map_to_list map_to_list (fun _ => None)
    [PProduce ex_request; PRecordLoop 1] [] [] (NewProducer (gs "id") 10 0) in
  (request_of <$> stream taken p (gs "t")) ++ requests_for (gs "t") (pr_records p) = requests_for (gs "t") queued.
Proof.
  pose proof (producer_stream map_to_list map_to_list_range_order map_to_list (fun _ => None) (gs "id") 10 0
    [PProduce ex_request; PRecordLoop 1]) as H.
  destruct (producer_trace _ _ _ [PProduce ex_request; PRecordLoop 1] [] [] (NewProducer (gs "id") 10 0)) as [[queued taken] [o p]].
  by destruct H as [H _]; destruct (H (gs "t")).
Defined.

Lemma producer_to_store_witness :
  let '(_, taken, (_, p)) := producer_trace map_to_list map_to_list (fun _ => None)
    [PProduce ex_request; PRecordLoop 1; PRecordLoop 2; PFlush 3; PBatchLoop] [] [] (NewProducer (gs "id") 10 0) in
  rb_Records <$> taken = [[mkRecord (gs "t") (gs "id") 0 (gs "k") (gs "v") {[gs "a" := gs "b"]} 5]] ∧
  ∃ s', feed 9 (pr_sent p) (NewStore [] ∅ 0) = (Ret tt, s') ∧
    st_records s' = [mkRecord (gs "t") (gs "id") 0 (gs "k") (gs "v") {[gs "a" := gs "b"]} 9].
Proof.
  pose proof (producer_to_store map_to_list map_to_list (gs "id") 10 0 9
    [PProduce ex_request; PRecordLoop 1; PRecordLoop 2; PFlush 3; PBatchLoop] (NewStore [] ∅ 0)
    map_to_list_range_order map_to_list_range_order) as H.
  assert (E : rb_Records <$> (producer_trace map_to_list map_to_list (fun _ => None)
    [PProduce ex_request; PRecordLoop 1; PRecordLoop 2; PFlush 3; PBatchLoop] [] [] (NewProducer (gs "id") 10 0)).1.2 =
      [[mkRecord (gs "t") (gs "id") 0 (gs "k") (gs "v") {[gs "a" := gs "b"]} 5]]) by (vm_compute; reflexivity).
  destruct (producer_trace _ _ _ _ [] [] (NewProducer (gs "id") 10 0)) as [[queued taken] [o p]].
  cbn [fst snd] in E. split; [done|]. rewrite E in H. apply H; [|done].
  apply Forall_cons. split; [|done]. do 5 (split; [done|]). split; [done|]. intros k v Hk.
  cbn [rec_Headers] in Hk. apply lookup_singleton_Some in Hk as [<- <-]. done.
Defined.
