(* ===== verification/DafkaConsumer.v ===== *)
(** * DafkaConsumer: offsets of a consumer (src/dafka/consumer.go)

    A consumer filters frames by its subscriptions, queues the records for its
    client, asks for the records it thinks it has missed, and keeps per
    partition the last offset handed to the client and the committed one. *)

From Stdlib Require Import Strings.Byte ZArith Lia.
From stdpp Require Import base strings numbers gmap list.
From S2P Require Import Prelude Reader MlmMessage DafkaMessage DafkaStore.

#[local] Open Scope Z_scope.
#[local] Set Default Goal Selector "!".

Record PartitionState : Type := mkPartitionState {
  pt_Topic : bytes;
  pt_Partition : bytes;
  pt_LastOffset : Z;
  pt_CommittedOffset : Z;
  pt_HighWatermark : Z;
  pt_LastFetch : Z;
  pt_Lagging : bool }.

Record FetchRequest : Type := mkFetchRequest { fq_Topic : bytes; fq_Partition : bytes; fq_Offset : Z; fq_Count : Z }.

(** Topic -> partition -> offset. *)
Abbreviation Offsets := (gmap bytes (gmap bytes Z)).

(** [cs_filters] is what the SUB socket is subscribed to, [cs_fetched] what
    the DEALER socket has sent. *)
Record Consumer : Type := mkConsumer {
  cs_FetchSize : Z;
  cs_AutoCommit : bool;
  cs_subscriptions : gset bytes;
  cs_filters : gset bytes;
  cs_partitions : gmap bytes PartitionState;
  cs_records : list dafkaRecord;
  cs_fetchRequests : list FetchRequest;
  cs_acks : list AckMessage;
  cs_commits : list Offsets;
  cs_statistics : Statistics;
  cs_fetched : list bytes }.

Definition set_cs_subscriptions (v f : gset bytes) (c : Consumer) : Consumer :=
  mkConsumer (cs_FetchSize c) (cs_AutoCommit c) v f (cs_partitions c) (cs_records c) (cs_fetchRequests c) (cs_acks c) (cs_commits c) (cs_statistics c) (cs_fetched c).
Definition set_cs_partitions (v : gmap bytes PartitionState) (c : Consumer) : Consumer :=
  mkConsumer (cs_FetchSize c) (cs_AutoCommit c) (cs_subscriptions c) (cs_filters c) v (cs_records c) (cs_fetchRequests c) (cs_acks c) (cs_commits c) (cs_statistics c) (cs_fetched c).
Definition set_cs_records (v : list dafkaRecord) (c : Consumer) : Consumer :=
  mkConsumer (cs_FetchSize c) (cs_AutoCommit c) (cs_subscriptions c) (cs_filters c) (cs_partitions c) v (cs_fetchRequests c) (cs_acks c) (cs_commits c) (cs_statistics c) (cs_fetched c).
Definition set_cs_fetchRequests (v : list FetchRequest) (c : Consumer) : Consumer :=
  mkConsumer (cs_FetchSize c) (cs_AutoCommit c) (cs_subscriptions c) (cs_filters c) (cs_partitions c) (cs_records c) v (cs_acks c) (cs_commits c) (cs_statistics c) (cs_fetched c).
Definition set_cs_acks (v : list AckMessage) (c : Consumer) : Consumer :=
  mkConsumer (cs_FetchSize c) (cs_AutoCommit c) (cs_subscriptions c) (cs_filters c) (cs_partitions c) (cs_records c) (cs_fetchRequests c) v (cs_commits c) (cs_statistics c) (cs_fetched c).
Definition set_cs_commits (v : list Offsets) (c : Consumer) : Consumer :=
  mkConsumer (cs_FetchSize c) (cs_AutoCommit c) (cs_subscriptions c) (cs_filters c) (cs_partitions c) (cs_records c) (cs_fetchRequests c) (cs_acks c) v (cs_statistics c) (cs_fetched c).
Definition cs_bump (f : stat) (n : Z) (c : Consumer) : Consumer :=
  mkConsumer (cs_FetchSize c) (cs_AutoCommit c) (cs_subscriptions c) (cs_filters c) (cs_partitions c) (cs_records c) (cs_fetchRequests c) (cs_acks c) (cs_commits c) (bump f n (cs_statistics c)) (cs_fetched c).
Definition add_cs_fetched (v : bytes) (c : Consumer) : Consumer :=
  mkConsumer (cs_FetchSize c) (cs_AutoCommit c) (cs_subscriptions c) (cs_filters c) (cs_partitions c) (cs_records c) (cs_fetchRequests c) (cs_acks c) (cs_commits c) (cs_statistics c) (cs_fetched c ++ [v]).

Definition set_pt_LastOffset (o now : Z) (s : PartitionState) : PartitionState :=
  mkPartitionState (pt_Topic s) (pt_Partition s) o (pt_CommittedOffset s) (pt_HighWatermark s) now (pt_Lagging s).
Definition set_pt_Committed (o : Z) (s : PartitionState) : PartitionState :=
  mkPartitionState (pt_Topic s) (pt_Partition s) (pt_LastOffset s) o (pt_HighWatermark s) (pt_LastFetch s) (pt_Lagging s).
Definition set_pt_Watermark (h : Z) (s : PartitionState) : PartitionState :=
  mkPartitionState (pt_Topic s) (pt_Partition s) (pt_LastOffset s) (pt_CommittedOffset s) h (pt_LastFetch s) (bool_decide (pt_LastOffset s < h)).

Definition NewConsumer (fetchSize : Z) (autoCommit : bool) : Consumer :=
  mkConsumer (if decide (fetchSize <= 0) then 1000 else fetchSize) autoCommit ∅ ∅ ∅ [] [] [] [] zero_stats [].

(** ** Subscriptions *)

Fixpoint subscribeToTopics (topics : list bytes) : M Consumer unit :=
  match topics with
  | [] => mret tt
  | topic :: rest =>
      mupd (fun c => set_cs_subscriptions ({[topic]} ∪ cs_subscriptions c) ({[topic]} ∪ cs_filters c) c);;
      subscribeToTopics rest
  end.

Section consumer.
Context (prange : gmap bytes PartitionState → list (bytes * PartitionState)).

Fixpoint unsubscribeFromTopics (topics : list bytes) : M Consumer unit :=
  match topics with
  | [] => mret tt
  | topic :: rest =>
      mupd (fun c => set_cs_subscriptions (cs_subscriptions c ∖ {[topic]}) (cs_filters c ∖ {[topic]}) c);;
      mupd (fun c => set_cs_partitions
        (sweep (fun _ s => if decide (pt_Topic s = topic) then None else Some s) (prange (cs_partitions c)) (cs_partitions c)) c);;
      unsubscribeFromTopics rest
  end.

(** ** Records *)

(** [updatePartitionState] *)
Definition updatePartitionState (now : Z) (record : dafkaRecord) : M Consumer unit :=
  let key := partitionKey (rec_Topic record) (rec_Partition record) in
  mupd (fun c => set_cs_partitions
    (<[key := match cs_partitions c !! key with
       | None => mkPartitionState (rec_Topic record) (rec_Partition record) (rec_Offset record) 0 (rec_Offset record) now false
       | Some s => set_pt_LastOffset (rec_Offset record) now s
       end]> (cs_partitions c)) c).

(** [requestMissingRecords]: the count is truncated to 32 bits before it is
    compared with the fetch size. *)
Definition requestMissingRecords (topic partition : bytes) (startOffset endOffset : Z) : M Consumer unit :=
  if decide (endOffset <= startOffset) then mret tt
  else
    c ← mget;
    let count := wrapu 32 (endOffset - startOffset) in
    let count' := if decide (wrapu 32 (cs_FetchSize c) < count) then wrapu 32 (cs_FetchSize c) else count in
    if decide (len (cs_fetchRequests c) < 1000) then
      mupd (set_cs_fetchRequests (cs_fetchRequests c ++ [mkFetchRequest topic partition startOffset count']))
    else mret tt.

Definition expectedOffset (c : Consumer) (topic partition : bytes) : Z :=
  match cs_partitions c !! partitionKey topic partition with
  | Some s => wrapu 64 (pt_LastOffset s + 1)
  | None => 0
  end.

Definition processRecordMessage (now : Z) (msg : dafkaMessage) : M Consumer unit :=
  match Record_Unmarshal (dm_Body msg) zero_rm with
  | (Ret _, r) =>
      let record := mkRecord (dm_Topic msg) (rm_Partition r) (rm_Offset r) (rm_Key r) (rm_Value r) (rm_Headers r) now in
      c ← mget;
      let expected := expectedOffset c (dm_Topic msg) (rm_Partition r) in
      (if decide (rec_Offset record ≠ expected) then
         requestMissingRecords (dm_Topic msg) (rm_Partition r) expected (rec_Offset record)
       else mret tt);;
      c ← mget;
      if decide (len (cs_records c) < 10000) then
        mupd (set_cs_records (cs_records c ++ [record]));;
        mupd (cs_bump RecordsConsumed 1);;
        mupd (cs_bump BytesConsumed (len (rec_Key record) + len (rec_Value record)))
      else mupd (cs_bump ConsumeErrors 1)
  | (Fail _, _) => mupd (cs_bump ConsumeErrors 1)
  | (Panic p, _) => mpanic p
  end.

Definition processHeadMessage (msg : dafkaMessage) : M Consumer unit :=
  match Head_Unmarshal (dm_Body msg) zero_hd with
  | (Ret _, h) =>
      let key := partitionKey (dm_Topic msg) (hd_Partition h) in
      mupd (fun c => set_cs_partitions (alter (set_pt_Watermark (hd_Offset h)) key (cs_partitions c)) c)
  | (Fail _, _) => mupd (cs_bump ConsumeErrors 1)
  | (Panic p, _) => mpanic p
  end.

Definition Consumer_processSubscriptionMessage (now : Z) (data : bytes) : M Consumer unit :=
  match dafka_Unmarshal data zero_dm with
  | (Ret _, msg) =>
      c ← mget;
      if decide (dm_Topic msg ∈ cs_subscriptions c) then
        (if decide (dm_Type msg = MessageTypeRecord) then processRecordMessage now msg
         else if decide (dm_Type msg = MessageTypeHead) then processHeadMessage msg
         else mret tt);;
        mupd (cs_bump MessagesIn 1);;
        mupd (cs_bump BytesIn (len data))
      else mret tt
  | (Fail _, _) => mupd (cs_bump ConsumeErrors 1)
  | (Panic p, _) => mpanic p
  end.

(** [Poll] when its timeout is not reached first: [None] when there is no
    record to wait for. *)
Definition Poll (now : Z) : M Consumer (option dafkaRecord) :=
  c ← mget;
  match cs_records c with
  | [] => mret None
  | record :: rest => mupd (set_cs_records rest);; updatePartitionState now record;; mret (Some record)
  end.

(** One turn of [Consume]: the handler's verdict on the record. *)
Definition Consume (now : Z) (handler : dafkaRecord → option error) : M Consumer (option dafkaRecord) :=
  c ← mget;
  match cs_records c with
  | [] => mret None
  | record :: rest =>
      mupd (set_cs_records rest);;
      updatePartitionState now record;;
      match handler record with
      | Some e => mupd (cs_bump ConsumeErrors 1);; mfail (Wrap "handler error" e)
      | None =>
          c ← mget;
          (if negb (cs_AutoCommit c) && bool_decide (len (cs_acks c) < 10000) then
             mupd (set_cs_acks (cs_acks c ++ [mkAck (rec_Partition record) (rec_Offset record)]))
           else mret tt);;
          mret (Some record)
      end
  end.

(** ** Commits *)

(** The offsets of all partitions, grouped by topic. *)
Fixpoint collectOffsets (entries : list (bytes * PartitionState)) (offsets : Offsets) : Offsets :=
  match entries with
  | [] => offsets
  | (_, s) :: rest =>
      let topicOffsets := default ∅ (offsets !! pt_Topic s) in
      collectOffsets rest (<[pt_Topic s := <[pt_Partition s := pt_LastOffset s]> topicOffsets]> offsets)
  end.

Definition Commit : M Consumer unit :=
  c ← mget;
  if decide (len (cs_commits c) < 100) then
    mupd (set_cs_commits (cs_commits c ++ [collectOffsets (prange (cs_partitions c)) ∅]))
  else mfail (Errorf "commit queue full").

Definition commitOffsets : M Consumer unit :=
  c ← mget;
  let offsets := collectOffsets (prange (cs_partitions c)) ∅ in
  if decide (offsets = ∅) then mret tt
  else if decide (len (cs_commits c) < 100) then mupd (set_cs_commits (cs_commits c ++ [offsets]))
  else mret tt.

Context (orange : Offsets → list (bytes * gmap bytes Z)) (zrange : gmap bytes Z → list (bytes * Z)).

Definition commit_topic (topic : bytes) (entries : list (bytes * Z)) (m : gmap bytes PartitionState) : gmap bytes PartitionState :=
  foldl (fun m kv => alter (set_pt_Committed kv.2) (partitionKey topic kv.1) m) m entries.

(** [processCommitRequest] and one turn of [commitLoop]. *)
Definition processCommitRequest (offsets : Offsets) : M Consumer unit :=
  mupd (fun c => set_cs_partitions
    (foldl (fun m kv => commit_topic kv.1 (zrange kv.2) m) (cs_partitions c) (orange offsets)) c).

Definition commitLoop : M Consumer unit :=
  c ← mget;
  match cs_commits c with
  | [] => mret tt
  | request :: rest => mupd (set_cs_commits rest);; processCommitRequest request
  end.

(** ** Fetches *)

(** What the requester is answered: no records, whatever the store has. *)
Definition Consumer_processFetchRequest (sendErr : bytes → option error) (request : FetchRequest) : M Consumer (list dafkaRecord) :=
  msg ← lift (CreateFetchMessage (fq_Topic request) (fq_Partition request) (fq_Offset request) (fq_Count request));
  data ← lift (dafka_Marshal msg);
  match sendErr data with
  | Some e => mfail e
  | None => mupd (add_cs_fetched data);; mret []
  end.

Definition Consumer_fetchLoop (sendErr : bytes → option error) : M Consumer unit :=
  c ← mget;
  match cs_fetchRequests c with
  | [] => mret tt
  | request :: rest => mupd (set_cs_fetchRequests rest);; _ ← try (Consumer_processFetchRequest sendErr request); mret tt
  end.
End consumer.
