(* ===== verification/DafkaConsumerFacts.v ===== *)
(** * DafkaConsumerFacts: commits, gaps and filters of a consumer *)

From Stdlib Require Import Strings.Byte ZArith Lia.
From stdpp Require Import base strings numbers gmap list.
From S2P Require Import Prelude Zmtp Conn ConnFacts Reader MlmMessage DafkaMessage DafkaStore DafkaStoreFacts DafkaStoreSpec DafkaConsumer.

#[local] Open Scope Z_scope.
#[local] Set Default Goal Selector "!".

(** ** Partitions *)

(** The keys of the partition map are those of the states. *)
Definition keyed (m : gmap bytes PartitionState) : Prop :=
  map_Forall (fun k s => k = partitionKey (pt_Topic s) (pt_Partition s) ∧ names_ok (pt_Topic s) (pt_Partition s)) m.

Lemma keyed_update now r c :
  keyed (cs_partitions c) → names_ok (rec_Topic r) (rec_Partition r) →
  keyed (cs_partitions (updatePartitionState now r c).2).
Proof.
  intros Hk Hn. unfold updatePartitionState. cbn. apply map_Forall_insert_2; [|done].
  destruct (cs_partitions c !! _) as [s|] eqn:Es; [|done]. destruct (Hk _ s Es) as [E Hs]. cbn. split; [done|done].
Qed.

(** ** Commits *)

Definition get_offset (offsets : Offsets) (t q : bytes) : option Z := offsets !! t ≫= (.!! q).

Lemma collect_get entries : ∀ offsets t q,
  NoDup entries.*1 → names_ok t q →
  (∀ k s, (k, s) ∈ entries → k = partitionKey (pt_Topic s) (pt_Partition s) ∧ names_ok (pt_Topic s) (pt_Partition s)) →
  get_offset (collectOffsets entries offsets) t q =
    match list_to_map (M := gmap bytes PartitionState) entries !! partitionKey t q with
    | Some s => Some (pt_LastOffset s)
    | None => get_offset offsets t q
    end.
Proof.
  induction entries as [|[k s] entries IH]; intros offsets t q Hnd Hn Hin; [done|]. cbn [collectOffsets list_to_map foldr fst snd].
  cbn in Hnd. apply NoDup_cons in Hnd as [Hk Hnd]. destruct (Hin k s) as [Ek Hs]; [by left|].
  rewrite IH by (try done; intros k' s' H; apply Hin; by right).
  fold (list_to_map (M := gmap bytes PartitionState) entries). cbn.
  destruct (decide (k = partitionKey t q)) as [E|Hne].
  - rewrite E, lookup_insert_eq. rewrite not_elem_of_list_to_map_1 by (by rewrite <- E).
    rewrite E in Ek. apply partitionKey_inj in Ek as [-> ->]; [|done..].
    unfold get_offset. rewrite lookup_insert_eq. cbn. by rewrite lookup_insert_eq.
  - rewrite lookup_insert_ne by done. destruct (list_to_map entries !! partitionKey t q); [done|].
    unfold get_offset. destruct (decide (pt_Topic s = t)) as [<-|Ht]; [|by rewrite lookup_insert_ne].
    rewrite lookup_insert_eq. cbn. rewrite lookup_insert_ne by congruence. by destruct (offsets !! pt_Topic s).
Qed.

Lemma collect_names entries : ∀ offsets,
  (∀ k s, (k, s) ∈ entries → names_ok (pt_Topic s) (pt_Partition s)) →
  (∀ t q o, get_offset offsets t q = Some o → names_ok t q) →
  ∀ t q o, get_offset (collectOffsets entries offsets) t q = Some o → names_ok t q.
Proof.
  induction entries as [|[k s] entries IH]; intros acc He Hacc; [done|]. cbn [collectOffsets].
  apply IH; [intros k' s' H; apply (He k'); by right|]. intros t q o. unfold get_offset.
  destruct (decide (pt_Topic s = t)) as [<-|Ht]; [|rewrite lookup_insert_ne by done; apply Hacc].
  rewrite lookup_insert_eq. cbn. destruct (decide (pt_Partition s = q)) as [<-|Hq'].
  - intros _. apply (He k). by left.
  - rewrite lookup_insert_ne by done. destruct (acc !! pt_Topic s) as [e|] eqn:Ee; cbn; [|by rewrite lookup_empty].
    intros Ho. apply (Hacc _ _ o). unfold get_offset. by rewrite Ee.
Qed.

(** A sequence of commits that agree on a key. *)
Lemma commits_agree (l : list (bytes * Z)) k v : ∀ m : gmap bytes PartitionState,
  k ∈ l.*1 → (∀ o, (k, o) ∈ l → o = v) →
  foldl (fun m e => alter (set_pt_Committed e.2) e.1 m) m l !! k = set_pt_Committed v <$> m !! k.
Proof.
  induction l as [|[k' o] l IH] using rev_ind; intros m Hk Hv; [by apply not_elem_of_nil in Hk|].
  rewrite foldl_app. cbn [foldl fst snd]. destruct (decide (k' = k)) as [->|Hne].
  - rewrite lookup_alter_eq. rewrite (Hv o) by (apply elem_of_app; right; by left).
    destruct (decide (k ∈ l.*1)) as [Hin|Hout].
    + rewrite IH; [by destruct (m !! k)|done|]. intros o' Ho. apply Hv, elem_of_app. by left.
    + f_equal. clear -Hout. revert m. induction l as [|[k' o'] l IH]; intros m; [done|]. cbn in *.
      apply not_elem_of_cons in Hout as [Hne Hout]. rewrite IH by done. by rewrite lookup_alter_ne.
  - rewrite lookup_alter_ne by done. apply IH.
    + rewrite fmap_app, elem_of_app in Hk. destruct Hk as [Hk|Hk]; [done|]. cbn in Hk.
      by apply list_elem_of_singleton in Hk as ->.
    + intros o' Ho. apply Hv, elem_of_app. by left.
Qed.

Lemma foldl_alter_None (l : list (bytes * Z)) k : ∀ m : gmap bytes PartitionState,
  m !! k = None → foldl (fun m e => alter (set_pt_Committed e.2) e.1 m) m l !! k = None.
Proof.
  induction l as [|[k' o] l IH]; intros m Hm; [done|]. cbn. apply IH.
  destruct (decide (k' = k)) as [->|]; [by rewrite lookup_alter_eq, Hm|by rewrite lookup_alter_ne].
Qed.

Section commits.
Context (prange : gmap bytes PartitionState → list (bytes * PartitionState)) (Hprange : range_order prange).
Context (orange : Offsets → list (bytes * gmap bytes Z)) (Horange : range_order orange).
Context (zrange : gmap bytes Z → list (bytes * Z)) (Hzrange : range_order zrange).

(** The commits a request makes, in order. *)
Definition commit_list (offsets : Offsets) : list (bytes * Z) :=
  orange offsets ≫= fun kv => (fun e => (partitionKey kv.1 e.1, e.2)) <$> zrange kv.2.

Lemma processCommit_list offsets c :
  processCommitRequest orange zrange offsets c =
    (Ret tt, set_cs_partitions (foldl (fun m e => alter (set_pt_Committed e.2) e.1 m) (cs_partitions c) (commit_list offsets)) c).
Proof.
  unfold processCommitRequest, commit_list, mupd. do 2 f_equal. generalize (cs_partitions c).
  induction (orange offsets) as [|[t e] l IH]; intros m; [done|]. cbn [foldl mbind list_bind]. rewrite IH, foldl_app. f_equal.
  unfold commit_topic. cbn [fst snd]. revert m. induction (zrange e) as [|x r IHr]; intros m; [done|]. cbn. by rewrite IHr.
Qed.

Lemma commit_list_elem offsets k o :
  (k, o) ∈ commit_list offsets ↔ ∃ t q, k = partitionKey t q ∧ get_offset offsets t q = Some o.
Proof.
  unfold commit_list, get_offset. rewrite list_elem_of_bind. split.
  - intros ([t e] & Hin & He). apply list_elem_of_fmap in Hin as ([q o'] & [= -> ->] & Hin).
    apply (range_order_elem zrange) in Hin; [|done]. apply (range_order_elem orange) in He; [|done].
    exists t, q. split; [done|]. cbn in *. by rewrite He.
  - intros (t & q & -> & Hg). destruct (offsets !! t) as [e|] eqn:Ee; [|done]. cbn in Hg.
    exists (t, e). split; [|by apply (range_order_elem orange)]. apply list_elem_of_fmap. exists (q, o). split; [done|].
    by apply (range_order_elem zrange).
Qed.

(** A commit commits what was consumed: when the commit loop handles the
    request [Commit] has queued, every partition has its last consumed offset
    as its committed one and is otherwise unchanged, whatever the orders in
    which the maps are iterated. *)
Theorem consumer_commit (c : Consumer) :
  keyed (cs_partitions c) → cs_commits c = [] →
  (Commit prange;; commitLoop orange zrange) c =
    (Ret tt, set_cs_partitions ((fun s => set_pt_Committed (pt_LastOffset s) s) <$> cs_partitions c) c).
Proof.
  intros Hk Hq. set (offs := collectOffsets (prange (cs_partitions c)) ∅).
  assert (Hget : ∀ t q, names_ok t q → get_offset offs t q = pt_LastOffset <$> cs_partitions c !! partitionKey t q).
  { intros t q Hn. unfold offs. rewrite collect_get; [|by apply range_order_NoDup|done|].
    - rewrite (list_to_map_proper (prange (cs_partitions c)) (map_to_list (cs_partitions c))), list_to_map_to_list;
        [|by apply range_order_NoDup|apply Hprange]. by destruct (cs_partitions c !! partitionKey t q).
    - intros k s Hin. apply (range_order_elem prange) in Hin; [|done]. by apply (Hk k). }
  assert (Hnames : ∀ t q o, get_offset offs t q = Some o → names_ok t q).
  { apply collect_names; [|intros t q o; unfold get_offset; by rewrite lookup_empty].
    intros k s Hin. apply (range_order_elem prange) in Hin; [|done]. by apply (Hk k). }
  unfold mbind at 1, M_bind at 1, Commit. rewrite (M_bind_ret _ _ _ _ _ (eq_refl : mget c = _)). cbv beta.
  rewrite Hq, decide_True by done. fold offs. cbn [app mupd]. unfold commitLoop.
  rewrite (M_bind_ret _ _ _ _ _ (eq_refl : mget (set_cs_commits [offs] c) = _)). cbn [cs_commits set_cs_commits].
  rewrite (M_bind_ret _ _ _ _ _ (eq_refl : mupd (set_cs_commits []) (set_cs_commits [offs] c) = _)).
  rewrite processCommit_list. cbn [cs_partitions set_cs_commits].
  assert (set_cs_commits [] (set_cs_commits [offs] c) = c) as -> by (destruct c; cbn in Hq; by subst).
  do 3 f_equal. apply map_eq. intros k. rewrite lookup_fmap. destruct (cs_partitions c !! k) as [s|] eqn:Es.
  - destruct (Hk k s Es) as [-> Hn]. rewrite (commits_agree _ _ (pt_LastOffset s)); [by rewrite Es| |].
    + apply list_elem_of_fmap. exists (partitionKey (pt_Topic s) (pt_Partition s), pt_LastOffset s). split; [done|].
      apply commit_list_elem. eexists _, _. split; [done|]. by rewrite Hget, Es.
    + intros o Ho. apply commit_list_elem in Ho as (t & q & E & Hg). pose proof (Hnames t q o Hg) as Hn'.
      rewrite Hget in Hg by done. rewrite <- E, Es in Hg. by injection Hg.
  - cbn. apply foldl_alter_None, Es.
Qed.
End commits.

(** ** Gaps *)

(** What a subscribed consumer does with a record frame while its queues have
    room: it queues the record, and a fetch for the gap before it if there is
    one. *)
Definition fetch_for (c : Consumer) (r : dafkaRecord) : list FetchRequest :=
  let e := expectedOffset c (rec_Topic r) (rec_Partition r) in
  if decide (e < rec_Offset r) then
    [mkFetchRequest (rec_Topic r) (rec_Partition r) e (Z.min (wrapu 32 (rec_Offset r - e)) (wrapu 32 (cs_FetchSize c)))]
  else [].

(** What a record does: a consumer that receives the frame of a record of
    a topic it is subscribed to queues exactly that record for its client, and
    queues a fetch request for the records between the last one the client has
    taken and this one, for at most the configured number; the length of the
    gap is truncated to 32 bits. The partition states do not change until the
    client polls, so a record that follows another one before the client has
    taken it asks for that one again. *)
Theorem consumer_record (range : Headers → list (bytes * bytes)) (r : dafkaRecord) (now : Z) (c : Consumer) :
  range_order range → record_fits r → rec_Topic r ∈ cs_subscriptions c →
  len (cs_records c) < 10000 → len (cs_fetchRequests c) < 1000 →
  ∃ msg data c', CreateRecordMessage range (rec_Topic r) r = Ret msg ∧ dafka_Marshal msg = Ret data ∧
    Consumer_processSubscriptionMessage now data c = (Ret tt, c') ∧
    cs_records c' = cs_records c ++ [stamped now r] ∧
    cs_fetchRequests c' = cs_fetchRequests c ++ fetch_for c r ∧
    cs_partitions c' = cs_partitions c.
Proof.
  intros Hr Hfit Hsub Hrec Hfq. destruct (record_wire range r Hr Hfit) as (msg & data & body & Hc & Hm & Hu & Hb).
  exists msg, data. unfold Consumer_processSubscriptionMessage. rewrite Hu.
  rewrite (M_bind_ret _ _ _ _ _ (eq_refl : mget c = _)). cbn [dm_Topic dm_Type]. cbv beta. rewrite !decide_True by done.
  assert (∃ c1, (if decide (rec_Offset r ≠ expectedOffset c (rec_Topic r) (rec_Partition r)) then
      requestMissingRecords (rec_Topic r) (rec_Partition r) (expectedOffset c (rec_Topic r) (rec_Partition r)) (rec_Offset r)
      else mret tt) c = (Ret tt, c1) ∧ cs_records c1 = cs_records c ∧ cs_partitions c1 = cs_partitions c ∧
      cs_fetchRequests c1 = cs_fetchRequests c ++ fetch_for c r) as (c1 & E & Hr1 & Hp1 & Hf1).
  { unfold requestMissingRecords, fetch_for. set (e := expectedOffset c _ _). cbv zeta.
    destruct (decide (rec_Offset r ≠ e)) as [Hne|Heq].
    - case_decide as Hle.
      + exists c. rewrite decide_False by lia. by rewrite app_nil_r.
      + rewrite (M_bind_ret _ _ _ _ _ (eq_refl : mget c = _)). cbv beta.
        destruct (decide (len (cs_fetchRequests c) < 1000)); [|lia]. destruct (decide (e < rec_Offset r)); [|lia].
        eexists. split; [reflexivity|]. cbn. split; [done|]. split; [done|]. do 3 f_equal. case_decide; lia.
    - exists c. rewrite decide_False by lia. by rewrite app_nil_r. }
  unfold processRecordMessage. cbn [dm_Body dm_Topic]. rewrite Hb. cbn [record_body rm_Partition rm_Offset rm_Key rm_Value rm_Headers].
  eexists. split; [done|]. split; [done|].
  assert (Hproc : ∀ k : unit → M Consumer unit, ((c ← mget; (if decide (rec_Offset r ≠ expectedOffset c (rec_Topic r) (rec_Partition r)) then
      requestMissingRecords (rec_Topic r) (rec_Partition r) (expectedOffset c (rec_Topic r) (rec_Partition r)) (rec_Offset r)
      else mret tt) ≫= k) : M Consumer unit) c = k tt c1).
  { intros k. rewrite (M_bind_ret _ _ _ _ _ (eq_refl : mget c = _)). by rewrite (M_bind_ret _ _ _ _ _ E). }
  unfold mbind at 1, M_bind at 1. rewrite Hproc. rewrite (M_bind_ret _ _ _ _ _ (eq_refl : mget c1 = _)). cbv beta.
  rewrite decide_True by (by rewrite Hr1). split; [reflexivity|]. cbn. rewrite Hr1, Hf1, Hp1. done.
Qed.

(** ** Filters *)

Lemma subscribe_filters topics : ∀ c,
  subscribeToTopics topics c = (Ret tt, (subscribeToTopics topics c).2) ∧
  cs_filters (subscribeToTopics topics c).2 = list_to_set topics ∪ cs_filters c.
Proof.
  induction topics as [|t topics IH]; intros c; cbn [subscribeToTopics list_to_set foldr]; [by rewrite (left_id_L ∅ (∪))|].
  set (c1 := set_cs_subscriptions ({[t]} ∪ cs_subscriptions c) ({[t]} ∪ cs_filters c) c).
  rewrite (M_bind_ret _ _ _ tt c1) by done. destruct (IH c1) as [E H]. rewrite H. split; [done|]. cbn.
  rewrite (assoc_L (∪)), (comm_L (∪) (list_to_set topics)). done.
Qed.

(** A consumer hears nothing: it subscribes its SUB socket to the names of
    its topics, but every frame starts with the signature, not with the topic.
    A publisher's connection that holds the consumer's subscriptions takes no
    message of the protocol for it, unless a topic is empty or starts with the
    signature's first byte. *)
Theorem consumer_deaf {SS : Type} (fetchSize : Z) (autoCommit : bool) (topics : list bytes) (w : Conn SS)
    (m : dafkaMessage) (data : bytes) :
  Forall (fun t => t ≠ [] ∧ head t ≠ Some ProtocolSignature1) topics →
  c_topics w = cs_filters (subscribeToTopics topics (NewConsumer fetchSize autoCommit)).2 →
  dafka_Marshal m = Ret data →
  Conn_subscribed w data = false.
Proof.
  intros Hall Hw Hm. destruct (dafka_Marshal_signature m data Hm) as [rest ->].
  apply not_true_is_false. rewrite Conn_subscribed_spec. intros (p & Hp & [k Hk]). rewrite Hw in Hp.
  rewrite (proj2 (subscribe_filters topics _)) in Hp. cbn in Hp.
  apply elem_of_union in Hp as [Hp|Hp]; [|by apply elem_of_empty in Hp]. apply elem_of_list_to_set in Hp.
  rewrite Forall_forall in Hall. destruct (Hall p Hp) as [Hne Hh]. destruct p as [|b p]; [done|]. cbn in Hk, Hh. congruence.
Qed.

(** ** Witnesses *)

Definition ex_state : PartitionState := mkPartitionState (gs "t") (gs "p") 7 3 7 0 false.
Definition ex_consumer : Consumer :=
  set_cs_partitions {[partitionKey (gs "t") (gs "p") := ex_state]} (subscribeToTopics [gs "t"] (NewConsumer 0 false)).2.

Lemma ex_names : names_ok (gs "t") (gs "p").
Proof. repeat split; cbn; rewrite ?not_elem_of_cons; repeat split; by try apply not_elem_of_nil. Qed.

Lemma consumer_commit_witness :
  cs_partitions ((Commit map_to_list;; commitLoop map_to_list map_to_list) ex_consumer).2 !! partitionKey (gs "t") (gs "p") =
    Some (set_pt_Committed 7 ex_state).
Proof.
  rewrite (consumer_commit map_to_list map_to_list_range_order map_to_list map_to_list_range_order map_to_list
    map_to_list_range_order ex_consumer).
  - by vm_compute.
  - apply map_Forall_singleton. split; [done|exact ex_names].
  - done.
Defined.

(** Two records in a row, not polled: the second asks for the first again. *)
Definition ex_rec (o : Z) : dafkaRecord := mkRecord (gs "t") (gs "p") o (gs "k") (gs "v") ∅ 0.

Lemma ex_rec_fits o : 0 <= o < 2 ^ 64 → record_fits (ex_rec o).
Proof. intros Ho. split; [done|]. split; [done|]. split; [done|]. split; [done|]. split; [done|]. apply attrs_ok_empty. Qed.

Lemma consumer_record_witness :
  ∃ msg data c', CreateRecordMessage map_to_list (gs "t") (ex_rec 9) = Ret msg ∧ dafka_Marshal msg = Ret data ∧
    Consumer_processSubscriptionMessage 5 data (set_cs_records [ex_rec 8] ex_consumer) = (Ret tt, c') ∧
    cs_records c' = [ex_rec 8; stamped 5 (ex_rec 9)] ∧
    cs_fetchRequests c' = [mkFetchRequest (gs "t") (gs "p") 8 1].
Proof.
  destruct (consumer_record map_to_list (ex_rec 9) 5 (set_cs_records [ex_rec 8] ex_consumer)) as (msg & data & c' & H1 & H2 & H3 & H4 & H5 & _).
  - apply map_to_list_range_order.
  - by apply ex_rec_fits.
  - vm_compute. reflexivity.
  - done.
  - done.
  - exists msg, data, c'. split; [done|]. split; [done|]. split; [done|]. split; [done|]. rewrite H5. by vm_compute.
Defined.

Lemma consumer_deaf_witness :
  ∃ data, dafka_Marshal (mkDafka (x00, x00) DafkaVersion MessageTypeRecord (gs "news") []) = Ret data ∧
    Conn_subscribed (set_topics {[gs "news"]} (test_conn Pub [])) data = false.
Proof.
  eexists. split; [reflexivity|].
  apply (consumer_deaf 0 false [gs "news"] _ (mkDafka (x00, x00) DafkaVersion MessageTypeRecord (gs "news") [])); [|done|done].
  by apply Forall_singleton.
Defined.
