(* ===== verification/DafkaTower.v ===== *)
(** * DafkaTower: discovery (src/dafka/tower.go)

    The registry of nodes and topics, and the beacons by which towers announce
    themselves. *)

From Stdlib Require Import Strings.Byte ZArith Lia.
From stdpp Require Import base strings numbers gmap list.
From S2P Require Import Prelude Reader MlmMessage DafkaMessage.

#[local] Open Scope Z_scope.
#[local] Set Default Goal Selector "!".

(** ** The registry *)

Record NodeInfo : Type := mkNode {
  ni_UUID : bytes;
  ni_Type : Z;
  ni_Address : bytes;
  ni_Topics : list bytes;
  ni_Headers : Headers;
  ni_LastSeen : Z;
  ni_Connected : bool }.

Record PartitionInfo : Type := mkPartitionInfo {
  pi_Topic : bytes;
  pi_Partition : bytes;
  pi_Producer : bytes;
  pi_HeadOffset : Z;
  pi_LastSeen : Z;
  pi_Stores : list bytes }.

Record TopicInfo : Type := mkTopicInfo {
  ti_Name : bytes;
  ti_Partitions : gmap bytes PartitionInfo;
  ti_CreatedAt : Z;
  ti_UpdatedAt : Z }.

(** [tw_out] is what the PUB socket was given to send. *)
Record Tower : Type := mkTower {
  tw_uuid : bytes;
  tw_address : bytes;
  tw_nodes : gmap bytes NodeInfo;
  tw_topics : gmap bytes TopicInfo;
  tw_statistics : Statistics;
  tw_out : list bytes }.

Definition set_tw_nodes (v : gmap bytes NodeInfo) (t : Tower) : Tower :=
  mkTower (tw_uuid t) (tw_address t) v (tw_topics t) (tw_statistics t) (tw_out t).
Definition set_tw_topics (v : gmap bytes TopicInfo) (t : Tower) : Tower :=
  mkTower (tw_uuid t) (tw_address t) (tw_nodes t) v (tw_statistics t) (tw_out t).
Definition tw_bump (f : stat) (n : Z) (t : Tower) : Tower :=
  mkTower (tw_uuid t) (tw_address t) (tw_nodes t) (tw_topics t) (bump f n (tw_statistics t)) (tw_out t).
Definition add_tw_out (v : bytes) (t : Tower) : Tower :=
  mkTower (tw_uuid t) (tw_address t) (tw_nodes t) (tw_topics t) (tw_statistics t) (tw_out t ++ [v]).

Definition NewTower (uuid address : bytes) : Tower :=
  mkTower uuid (if decide (address = []) then gs "tcp://*:5670" else address) ∅ ∅ zero_stats [].

Definition broadcastNodeRegistration (node : NodeInfo) : M Tower unit :=
  mupd (add_tw_out (gs "NODE_REGISTER:" ++ ni_UUID node ++ gs ":" ++ ni_Address node));; mupd (tw_bump MessagesOut 1).

Definition broadcastNodeUnregistration (nodeUUID : bytes) : M Tower unit :=
  mupd (add_tw_out (gs "NODE_UNREGISTER:" ++ nodeUUID));; mupd (tw_bump MessagesOut 1).

(** The commands that change the registry. *)
Definition register_node (node : NodeInfo) : M Tower unit :=
  mupd (fun t => set_tw_nodes (<[ni_UUID node := node]> (tw_nodes t)) t);; broadcastNodeRegistration node.

Definition unregister_node (nodeUUID : bytes) : M Tower unit :=
  mupd (fun t => set_tw_nodes (delete nodeUUID (tw_nodes t)) t);; broadcastNodeUnregistration nodeUUID.

(** [processNodeUpdate]: topics a node names are created, never removed. *)
Fixpoint touch_topics (now : Z) (names : list bytes) : M Tower unit :=
  match names with
  | [] => mret tt
  | name :: rest =>
      mupd (fun t =>
        let topic := match tw_topics t !! name with Some topic => topic | None => mkTopicInfo name ∅ now 0 end in
        set_tw_topics (<[name := mkTopicInfo (ti_Name topic) (ti_Partitions topic) (ti_CreatedAt topic) now]> (tw_topics t)) t);;
      touch_topics now rest
  end.

Definition processNodeUpdate (now : Z) (nodeInfo : NodeInfo) : M Tower unit :=
  t ← mget;
  mupd (fun t => set_tw_nodes (<[ni_UUID nodeInfo := nodeInfo]> (tw_nodes t)) t);;
  (match tw_nodes t !! ni_UUID nodeInfo with
   | None => mupd (tw_bump Connections 1)
   | Some existing =>
       if negb (ni_Connected existing) && ni_Connected nodeInfo then mupd (tw_bump Reconnects 1) else mret tt
   end);;
  touch_topics now (ni_Topics nodeInfo).

Definition processTopicUpdate (topicInfo : TopicInfo) : M Tower unit :=
  mupd (fun t => set_tw_topics (<[ti_Name topicInfo := topicInfo]> (tw_topics t)) t).

Definition processSubscription (data : bytes) : M Tower unit :=
  match data with
  | [] => mret tt
  | b :: _ => if decide (b = x01) then mupd (tw_bump MessagesIn 1) else mret tt
  end.

(** ** Beacons *)

Record TowerBeacon : Type := mkBeacon { tb_UUID : bytes; tb_Address : bytes; tb_Topics : list bytes }.

(** [createBeacon]: the topics in the order the map yields them. *)
Definition createBeacon (trange : gmap bytes TopicInfo → list (bytes * TopicInfo)) (t : Tower) : TowerBeacon :=
  mkBeacon (tw_uuid t) (tw_address t) (trange (tw_topics t)).*1.

(** The UUID, cut or filled up to 16 bytes. *)
Definition uuid16 (uuid : bytes) : bytes := take 16 uuid ++ replicate (16 - length uuid) x00.

Definition topic_bytes (topic : bytes) : bytes := put_string (take 255 topic).

Definition marshalBeacon (b : TowerBeacon) : bytes :=
  gs "DAFKA" ++ uuid16 (tb_UUID b) ++ put_string (tb_Address b) ++
  [Z_byte (len (tb_Topics b))] ++ concat (topic_bytes <$> tb_Topics b).

(** Slicing [data[i:j]] panics out of range. *)
Definition tower_slice (data : bytes) (i j : nat) : outcome bytes :=
  if decide (i <= j ∧ j <= length data)%nat then Ret (take (j - i) (drop i data)) else Panic "slice bounds out of range".

Fixpoint parse_topics (n : nat) (data : bytes) (offset : nat) : outcome (list bytes) :=
  match n with
  | O => Ret []
  | S n' =>
      if decide (offset < length data)%nat then
        b ← idx data offset;
        let topicLen := Z.to_nat (byte_Z b) in
        if decide (length data < S offset + topicLen)%nat then Ret []
        else
          topic ← tower_slice data (S offset) (S offset + topicLen);
          topics ← parse_topics n' data (S offset + topicLen);
          Ret (topic :: topics)
      else Ret []
  end.

Definition parseBeacon (own data : bytes) : outcome (option TowerBeacon) :=
  if decide (length data < 22)%nat then Ret None
  else
    sig ← tower_slice data 0 5;
    if decide (sig ≠ gs "DAFKA") then Ret None
    else
      uuid ← tower_slice data 5 21;
      if decide (uuid = own) then Ret None
      else if decide (length data <= 21)%nat then Ret None
      else
        b ← idx data 21;
        let addrLen := Z.to_nat (byte_Z b) in
        if decide (length data < 22 + addrLen)%nat then Ret None
        else
          address ← tower_slice data 22 (22 + addrLen);
          if decide (length data <= 22 + addrLen)%nat then Ret None
          else
            c ← idx data (22 + addrLen);
            topics ← parse_topics (Z.to_nat (byte_Z c)) data (23 + addrLen);
            Ret (Some (mkBeacon uuid address topics)).

(** [beaconListener]: a datagram is cut to the size of the buffer. *)
Definition receiveBeacon (own datagram : bytes) : outcome (option TowerBeacon) := parseBeacon own (take 1024 datagram).

(** ** Parsing *)

Lemma tower_slice_ok data i j : (i <= j)%nat → (j <= length data)%nat → tower_slice data i j = Ret (take (j - i) (drop i data)).
Proof. intros Hi Hj. unfold tower_slice. by rewrite decide_True. Qed.

Lemma idx_ok {A} (l : list A) i : (i < length l)%nat → ∃ x, idx l i = Ret x ∧ l !! i = Some x.
Proof. intros Hi. destruct (lookup_lt_is_Some_2 l i Hi) as [x Hx]. exists x. unfold idx. by rewrite Hx. Qed.

Lemma parse_topics_total n : ∀ data offset, ∃ ts, parse_topics n data offset = Ret ts ∧ (length ts <= n)%nat.
Proof.
  induction n as [|n IH]; intros data offset; cbn [parse_topics]; [by exists []|].
  case_decide as Ho; [|exists []; split; [done|cbn; lia]]. destruct (idx_ok data offset Ho) as (b & -> & _). cbn [mbind outcome_bind].
  case_decide as Hl; [exists []; split; [done|cbn; lia]|]. rewrite tower_slice_ok by lia. cbn [mbind outcome_bind].
  destruct (IH data (S offset + Z.to_nat (byte_Z b))%nat) as (ts & -> & Hts). cbn. eexists. split; [done|]. cbn. lia.
Qed.

(** What follows [pre] in the data: the bytes of topics, possibly cut. *)
Lemma parse_topics_prefix topics : ∀ n pre rest,
  (∀ t, t ∈ topics → len t <= 255) → (length topics <= n)%nat → rest `prefix_of` concat (put_string <$> topics) →
  ∃ k, parse_topics n (pre ++ rest) (length pre) = Ret (take k topics) ∧
    (rest = concat (put_string <$> topics) → take k topics = topics).
Proof.
  induction topics as [|t topics IH]; intros [|n] pre rest Hlen Hn Hpre; cbn [parse_topics length] in *; [by exists 0%nat| |lia|].
  - apply prefix_nil_inv in Hpre as ->. rewrite app_nil_r, decide_False by lia. by exists 0%nat.
  - cbn [fmap list_fmap concat] in Hpre. unfold put_string at 1 in Hpre. cbn [app] in Hpre.
    destruct rest as [|b rest].
    + rewrite app_nil_r, decide_False by lia. exists 0%nat. split; [done|]. done.
    + pose proof Hpre as Hpre'. apply prefix_cons_inv_1 in Hpre as ->. apply prefix_cons_inv_2 in Hpre'.
      rewrite decide_True by (rewrite length_app; cbn; lia).
      assert (idx (pre ++ Z_byte (len t) :: rest) (length pre) = Ret (Z_byte (len t))) as ->
        by (unfold idx; by rewrite list_lookup_middle).
      cbn [mbind outcome_bind]. pose proof (Hlen t ltac:(by left)). pose proof (len_nonneg t).
      rewrite byte_Z_Z_byte, Z.mod_small, len_to_nat by lia. rewrite length_app. cbn [length].
      case_decide as Hcut.
      * exists 0%nat. split; [done|]. intros E. exfalso. apply (f_equal length) in E. cbn in E. rewrite length_app in E. lia.
      * destruct Hpre' as [more Hmore].
        assert (∃ rest', rest = t ++ rest') as [rest' ->].
        { exists (drop (length t) rest). apply (f_equal (take (length t))) in Hmore. rewrite take_app_length in Hmore.
          rewrite take_app_le in Hmore by lia. rewrite Hmore at 1. symmetry. apply take_drop. }
        assert (drop (S (length pre)) (pre ++ Z_byte (len t) :: t ++ rest') = t ++ rest') as Hd.
        { rewrite cons_middle, app_assoc. replace (S (length pre)) with (length (pre ++ [Z_byte (len t)]))
            by (rewrite length_app; cbn; lia). apply drop_app_length. }
        rewrite tower_slice_ok by (rewrite ?length_app in *; cbn; rewrite ?length_app; lia). cbn [mbind outcome_bind].
        rewrite Hd. replace (S (length pre) + length t - S (length pre))%nat with (length t) by lia.
        rewrite take_app_length.
        assert (pre ++ Z_byte (len t) :: t ++ rest' = (pre ++ put_string t) ++ rest') as E
          by (rewrite <- app_assoc; done).
        assert (S (length pre) + length t = length (pre ++ put_string t))%nat as El by (rewrite length_app; cbn; lia).
        destruct (IH n (pre ++ put_string t) rest') as (k & Hk & Hfull); [intros t' Ht'; apply Hlen; by right|lia| |].
        { rewrite <- app_assoc in Hmore. apply (inj (t ++.)) in Hmore. by exists more. }
        exists (S k). rewrite E, El, Hk. cbn [mbind outcome_bind take]. split.
        -- done.
        -- intros Eq. f_equal. apply Hfull. unfold put_string in Eq at 1. cbn in Eq. injection Eq as Eq.
           by apply (inj (t ++.)) in Eq.
Qed.

Lemma length_uuid16 u : length (uuid16 u) = 16%nat.
Proof. unfold uuid16. rewrite length_app, length_take, length_replicate. lia. Qed.

(** Slicing out the middle of three pieces. *)
Lemma tower_slice_mid a m c i j :
  length a = i → (length a + length m)%nat = j → tower_slice (a ++ m ++ c) i j = Ret m.
Proof.
  intros <- <-. rewrite tower_slice_ok by (rewrite ?length_app; lia). f_equal. rewrite drop_app_length.
  replace (length a + length m - length a)%nat with (length m) by lia. apply take_app_length.
Qed.

(** The fixed part of a beacon is parsed whatever follows it. *)
Lemma parseBeacon_fixed own u addr c rest :
  len addr <= 255 → uuid16 u ≠ own →
  let fixed := gs "DAFKA" ++ uuid16 u ++ put_string addr ++ [c] in
  parseBeacon own (fixed ++ rest) =
    (topics ← parse_topics (Z.to_nat (byte_Z c)) (fixed ++ rest) (length fixed); Ret (Some (mkBeacon (uuid16 u) addr topics))).
Proof.
  intros Ha Hown fixed. pose proof (length_uuid16 u) as Hu.
  assert (length fixed = 23 + length addr)%nat as Hl by (unfold fixed, put_string; rewrite !length_app; cbn [length app]; rewrite ?length_app, Hu; cbn; lia).
  set (data := fixed ++ rest). assert (23 + length addr <= length data)%nat as Hd by (unfold data; rewrite length_app; lia).
  assert (data = gs "DAFKA" ++ uuid16 u ++ ([Z_byte (len addr)] ++ addr ++ c :: rest)) as Hdata
    by (unfold data, fixed, put_string; by rewrite <- !app_assoc).
  unfold parseBeacon. rewrite decide_False by lia.
  assert (tower_slice data 0 5 = Ret (gs "DAFKA")) as -> by (rewrite Hdata; by apply (tower_slice_mid [])). cbn [mbind outcome_bind]. rewrite decide_False by (intros H; by apply H).
  assert (tower_slice data 5 21 = Ret (uuid16 u)) as -> by (rewrite Hdata; apply tower_slice_mid; [done|by rewrite Hu]). cbn [mbind outcome_bind].
  rewrite decide_False by done. rewrite decide_False by lia.
  assert (idx data 21 = Ret (Z_byte (len addr))) as ->.
  { rewrite Hdata, app_assoc. replace 21%nat with (length (gs "DAFKA" ++ uuid16 u) + 0)%nat by (rewrite length_app, Hu; done).
    by apply idx_app_r. }
  cbn [mbind outcome_bind]. pose proof (len_nonneg addr). rewrite byte_Z_Z_byte, Z.mod_small, len_to_nat by lia.
  rewrite decide_False by lia.
  assert (data = (gs "DAFKA" ++ uuid16 u ++ [Z_byte (len addr)]) ++ addr ++ (c :: rest)) as Hdata2 by (rewrite Hdata; by rewrite <- !app_assoc).
  assert (length (gs "DAFKA" ++ uuid16 u ++ [Z_byte (len addr)]) = 22%nat) as H22 by (rewrite !length_app, Hu; done).
  assert (tower_slice data 22 (22 + length addr) = Ret addr) as ->
    by (rewrite Hdata2; apply tower_slice_mid; [done|by rewrite H22]). cbn [mbind outcome_bind].
  rewrite decide_False by lia.
  assert (idx data (22 + length addr) = Ret c) as ->.
  { rewrite Hdata2, app_assoc.
    replace (22 + length addr)%nat with (length ((gs "DAFKA" ++ uuid16 u ++ [Z_byte (len addr)]) ++ addr) + 0)%nat
      by (rewrite length_app, H22; lia). by apply idx_app_r. }
  cbn [mbind outcome_bind]. by rewrite Hl.
Qed.

Lemma tower_beacon_cut (own : bytes) (b : TowerBeacon) (n : nat) :
  len (tb_Address b) <= 255 → len (tb_Topics b) <= 255 → uuid16 (tb_UUID b) ≠ own →
  (23 + length (tb_Address b) <= n)%nat →
  ∃ k, parseBeacon own (take n (marshalBeacon b)) =
      Ret (Some (mkBeacon (uuid16 (tb_UUID b)) (tb_Address b) (take k (take 255 <$> tb_Topics b)))) ∧
    ((length (marshalBeacon b) <= n)%nat → take k (take 255 <$> tb_Topics b) = take 255 <$> tb_Topics b).
Proof.
  intros Ha Ht Hown Hn. pose proof (length_uuid16 (tb_UUID b)) as Hu.
  set (fixed := gs "DAFKA" ++ uuid16 (tb_UUID b) ++ put_string (tb_Address b) ++ [Z_byte (len (tb_Topics b))]).
  assert (length fixed = 23 + length (tb_Address b))%nat as Hl
    by (unfold fixed, put_string; rewrite !length_app; cbn [length app]; rewrite ?length_app, Hu; cbn; lia).
  set (ts := take 255 <$> tb_Topics b).
  assert (marshalBeacon b = fixed ++ concat (put_string <$> ts)) as Hm.
  { unfold marshalBeacon, fixed, ts. rewrite <- !app_assoc. do 5 f_equal. by rewrite <- list_fmap_compose. }
  rewrite Hm, take_app_ge by lia. set (rest := take (n - length fixed) (concat (put_string <$> ts))).
  unfold fixed at 1. rewrite parseBeacon_fixed by done. fold fixed.
  pose proof (len_nonneg (tb_Topics b)). rewrite byte_Z_Z_byte, Z.mod_small, len_to_nat by lia.
  destruct (parse_topics_prefix ts (length (tb_Topics b)) fixed rest) as (k & Hk & Hfull).
  - intros t Hin. apply list_elem_of_fmap in Hin as (t' & -> & _). unfold len. rewrite length_take. lia.
  - unfold ts. by rewrite length_fmap.
  - apply prefix_take.
  - exists k. rewrite Hk. split; [done|]. intros Hlen. apply Hfull. unfold rest. apply firstn_all2.
    rewrite length_app in Hlen. lia.
Qed.

(** Beacons arrive: a datagram with a beacon of another tower, even one
    cut anywhere after the address and the topic count, is parsed to the UUID
    cut or filled to 16 bytes, the address and the topics that arrived
    complete, which are the first ones announced, each cut to 255 bytes; if
    nothing was cut, all of them. *)
Theorem tower_beacon (own : bytes) (b : TowerBeacon) (n : nat) :
  len (tb_Address b) <= 255 → len (tb_Topics b) <= 255 → uuid16 (tb_UUID b) ≠ own →
  (23 + length (tb_Address b) <= n)%nat →
  ∃ k, parseBeacon own (take n (marshalBeacon b)) =
      Ret (Some (mkBeacon (uuid16 (tb_UUID b)) (tb_Address b) (take k (take 255 <$> tb_Topics b)))) ∧
    ((length (marshalBeacon b) <= n)%nat → take k (take 255 <$> tb_Topics b) = take 255 <$> tb_Topics b).
Proof. apply tower_beacon_cut. Qed.

(** Parsing a beacon ends without a panic on every datagram. *)
Theorem tower_parse_total (own data : bytes) : ∃ r, parseBeacon own data = Ret r.
Proof.
  unfold parseBeacon. destruct (decide (length data < 22)%nat) as [|H22]; [by eexists|].
  rewrite (tower_slice_ok data 0 5) by lia. cbn [mbind outcome_bind]. set (sig := take _ (drop 0 data)).
  destruct (decide (sig ≠ gs "DAFKA")); [by eexists|].
  rewrite (tower_slice_ok data 5 21) by lia. cbn [mbind outcome_bind]. set (uuid := take (21 - 5) _).
  destruct (decide (uuid = own)); [by eexists|].
  rewrite decide_False by lia. destruct (idx_ok data 21) as (b & -> & _); [lia|]. cbn [mbind outcome_bind].
  destruct (decide (length data < 22 + Z.to_nat (byte_Z b))%nat); [by eexists|].
  rewrite tower_slice_ok by lia. cbn [mbind outcome_bind].
  destruct (decide (length data <= 22 + Z.to_nat (byte_Z b))%nat); [by eexists|].
  destruct (idx_ok data (22 + Z.to_nat (byte_Z b))) as (c & -> & _); [lia|]. cbn [mbind outcome_bind].
  destruct (parse_topics_total (Z.to_nat (byte_Z c)) data (23 + Z.to_nat (byte_Z b))) as (ts & -> & _). by eexists.
Qed.

(** A tower hears itself: the UUIDs towers generate are longer than the 16
    bytes a beacon carries, so the test for the tower's own beacon never
    succeeds and the tower processes its own announcements. *)
Theorem tower_hears_itself (trange : gmap bytes TopicInfo → list (bytes * TopicInfo)) (t : Tower) :
  (16 < length (tw_uuid t))%nat → len (tw_address t) <= 255 → len (tb_Topics (createBeacon trange t)) <= 255 →
  ∃ k, receiveBeacon (tw_uuid t) (marshalBeacon (createBeacon trange t)) =
    Ret (Some (mkBeacon (take 16 (tw_uuid t)) (tw_address t) (take k (take 255 <$> tb_Topics (createBeacon trange t))))).
Proof.
  intros Hu Ha Ht. pose proof (length_uuid16 (tw_uuid t)) as Hl.
  destruct (tower_beacon_cut (tw_uuid t) (createBeacon trange t) 1024) as (k & Hk & _); [done|done| | |].
  - cbn [tb_UUID createBeacon]. intros E. rewrite E in Hl. lia.
  - cbn. unfold len in Ha. lia.
  - exists k. unfold receiveBeacon. rewrite Hk. cbn. unfold uuid16.
    by replace (16 - length (tw_uuid t))%nat with 0%nat by lia; rewrite app_nil_r.
Qed.

Definition ex_tower : Tower := set_tw_topics {[gs "t" := mkTopicInfo (gs "t") ∅ 0 0]} (NewTower (gs "tower-1700000000000000000") []).

Lemma tower_beacon_witness :
  ∃ k, parseBeacon (gs "me") (take 40 (marshalBeacon (mkBeacon (gs "you") (gs "tcp://b") [gs "news"; gs "weather"]))) =
    Ret (Some (mkBeacon (uuid16 (gs "you")) (gs "tcp://b") (take k [gs "news"; gs "weather"]))).
Proof.
  destruct (tower_beacon (gs "me") (mkBeacon (gs "you") (gs "tcp://b") [gs "news"; gs "weather"]) 40) as (k & H & _);
    [done|done|done|cbn; lia|]. by exists k.
Defined.

Lemma tower_hears_itself_witness :
  ∃ k, receiveBeacon (gs "tower-1700000000000000000") (marshalBeacon (createBeacon map_to_list ex_tower)) =
    Ret (Some (mkBeacon (gs "tower-1700000000") (gs "tcp://*:5670") (take k [gs "t"]))).
Proof.
  destruct (tower_hears_itself map_to_list ex_tower) as [k H]; [cbn; lia|done|done|]. exists k. exact H.
Defined.
