(* ===== verification/DafkaStop.v ===== *)
(** * DafkaStop: stopping a node

    The [Stop] methods of src/dafka seen as sequences of operations on the
    node's [sync.RWMutex] and its wait group, interleaved with any other
    goroutines of the node. *)

From stdpp Require Import base gmap gmultiset relations list.
From S2P Require Import Prelude DafkaMessage Locks.

#[local] Set Default Goal Selector "!".

(** ** The programs *)

(** [flushAllBatches], [syncAllPartitions], [commitOffsets]. *)
Definition flushAllBatches_locks : list lock_op := [Lock; Unlock].
Definition syncAllPartitions_locks : list lock_op := [RLock; RUnlock].
Definition commitOffsets_locks : list lock_op := [RLock; RUnlock].

(** The body of [Stop] between taking and releasing the lock. *)
Definition Stop_locks (state : NodeState) (body : list lock_op) : list lock_op :=
  if decide (state = NodeStateStopped) then [Lock; Unlock] else [Lock] ++ body ++ [WaitOthers; Unlock].

Definition Producer_Stop (state : NodeState) : list lock_op := Stop_locks state flushAllBatches_locks.
Definition Store_Stop (state : NodeState) : list lock_op := Stop_locks state syncAllPartitions_locks.
Definition Consumer_Stop (autoCommit : bool) (state : NodeState) : list lock_op :=
  Stop_locks state (if autoCommit then commitOffsets_locks else []).
Definition Tower_Stop (state : NodeState) : list lock_op := Stop_locks state [].

(** [handleCommand] of the tower, for a command that changes the registry, and
    the part of [processProduceRequest] that appends a record. *)
Definition register_locks : list lock_op := [Lock; Unlock].

(** ** Deadlocks *)

(** Stopping hangs: once a producer, a store, or a consumer that commits
    automatically has been started, [Stop] never returns. It takes the node's
    lock and calls a method that takes the same lock again; no schedule of the
    node's goroutines, whatever they do, gets it past that point. *)
Theorem stop_hangs (state : NodeState) (i : nat) (c c' : locks) :
  state ≠ NodeStateStopped →
  lk_threads c !! i = Some (Producer_Stop state) ∨ lk_threads c !! i = Some (Store_Stop state) ∨
    lk_threads c !! i = Some (Consumer_Stop true state) →
  rtc lock_step c c' → lk_threads c' !! i ≠ Some [].
Proof.
  intros Hs Hi. unfold Producer_Stop, Store_Stop, Consumer_Stop, Stop_locks in Hi. rewrite !decide_False in Hi by done.
  destruct Hi as [Hi|[Hi|Hi]]; [apply (self_locked_stuck i Lock [Unlock; WaitOthers; Unlock])|
    apply (self_locked_stuck i RLock [RUnlock; WaitOthers; Unlock])..]; by auto; left.
Qed.

(** Stopping a tower, or a consumer that does not commit automatically,
    may hang: it waits for its goroutines while it holds the lock, so one that
    is about to take the lock and [Stop] wait for each other, and no goroutine
    can move. If the others are done when it starts, it returns. *)
Theorem stop_may_hang (state : NodeState) (stop : list lock_op) :
  state ≠ NodeStateStopped → stop = Tower_Stop state ∨ stop = Consumer_Stop false state →
  (∃ c, rtc lock_step (mkLocks None ∅ [stop; register_locks]) c ∧ (∀ c', ¬ lock_step c c') ∧ lk_threads c !! 0 ≠ Some []) ∧
  rtc lock_step (mkLocks None ∅ [stop; []]) (mkLocks None ∅ [[]; []]).
Proof.
  intros Hs Hstop. assert (stop = lock_and_wait) as ->.
  { unfold Tower_Stop, Consumer_Stop, Stop_locks in Hstop. rewrite !decide_False in Hstop by done. by destruct Hstop. }
  exact lock_and_wait_may_hang.
Qed.

(** ** Witnesses *)

Lemma stop_hangs_witness :
  let c := mkLocks None ∅ [Producer_Stop NodeStateRunning; register_locks] in
  let c' := mkLocks (Some 0) ∅ [[Lock; Unlock; WaitOthers; Unlock]; register_locks] in
  lock_step c c' ∧ lk_threads c' !! 0 ≠ Some [].
Proof.
  intros c c'. assert (lock_step c c') as H by exact (step_Lock 0 _ [Producer_Stop NodeStateRunning; register_locks] eq_refl).
  split; [done|]. apply (stop_hangs NodeStateRunning 0 c c'); [done|by left|by apply rtc_once].
Defined.

Lemma stop_may_hang_witness :
  ∃ c, rtc lock_step (mkLocks None ∅ [Tower_Stop NodeStateRunning; register_locks]) c ∧ (∀ c', ¬ lock_step c c') ∧ lk_threads c !! 0 ≠ Some [].
Proof. apply (stop_may_hang NodeStateRunning); [done|by left]. Defined.
