(* ===== verification/DafkaNodes.v ===== *)
(** * DafkaNodes: the command loops and the start of Dafka nodes

    The [handleCommand] and [commandLoop] of src/dafka/tower.go, producer.go,
    consumer.go and store.go as [Server]s of Actor, with the methods that queue
    commands, and [Start] of the tower, the producer and the consumer. [Stop] is
    in DafkaStop. *)

From Stdlib Require Import Strings.Byte ZArith Lia.
From stdpp Require Import base strings numbers gmap list.
From S2P Require Import Prelude Reader Actor DafkaMessage DafkaStore DafkaProducer DafkaConsumer DafkaTower.

#[local] Open Scope Z_scope.
#[local] Set Default Goal Selector "!".

(** ** The tower *)

Inductive towerCmd : Type :=
| tc_register_node (node : NodeInfo)
| tc_unregister_node (nodeUUID : bytes)
| tc_get_nodes
| tc_get_topics.

Inductive towerReply : Type :=
| TRNil
| TRNodes (m : gmap bytes NodeInfo)
| TRTopics (m : gmap bytes TopicInfo).

Section tower.
Context (nrange : gmap bytes NodeInfo → list (bytes * NodeInfo)).
Context (trange : gmap bytes TopicInfo → list (bytes * TopicInfo)).

Definition tower_handleCommand (cmd : towerCmd) : M Tower (option towerReply) :=
  match cmd with
  | tc_register_node node => register_node node;; mret (Some TRNil)
  | tc_unregister_node nodeUUID => unregister_node nodeUUID;; mret (Some TRNil)
  | tc_get_nodes => t ← mget; mret (Some (TRNodes (foldl (fun m kv => <[kv.1 := kv.2]> m) ∅ (nrange (tw_nodes t)))))
  | tc_get_topics => t ← mget; mret (Some (TRTopics (foldl (fun m kv => <[kv.1 := kv.2]> m) ∅ (trange (tw_topics t)))))
  end.

(** The other goroutines: [subscriptionLoop] counts, a beacon of [beaconLoop]
    changes nothing, and nothing is ever sent to [nodeUpdateLoop] and
    [topicUpdateLoop]. *)
Inductive tower_bg : Tower → Tower → Prop :=
| tb_subscription data t : tower_bg t (processSubscription data t).2
| tb_beacon t : tower_bg t t.

#[export] Instance tower_server : Server Tower towerCmd towerReply unit := {|
  srv_cap := 100;
  srv_handle _ cmd := serves (tower_handleCommand cmd);
  srv_bg := tower_bg |}.

Definition towerActor : Type := actor Tower towerCmd towerReply.
Definition tower_commandLoop : unit → towerActor → option towerActor := actor_turn.

(** What the callers make of a reply. *)
Definition GetNodes_result (r : towerReply) : outcome (gmap bytes NodeInfo) :=
  match r with TRNodes m => Ret m | _ => Panic "interface conversion" end.
Definition GetTopics_result (r : towerReply) : outcome (gmap bytes TopicInfo) :=
  match r with TRTopics m => Ret m | _ => Panic "interface conversion" end.

(** *** The registry as a map *)

Definition registry_cmd (cmd : towerCmd) (m : gmap bytes NodeInfo) : gmap bytes NodeInfo :=
  match cmd with
  | tc_register_node node => <[ni_UUID node := node]> m
  | tc_unregister_node nodeUUID => delete nodeUUID m
  | _ => m
  end.

(** The nodes registered and not unregistered by a sequence of calls. *)
Definition registry (calls : list (nat * towerCmd)) : gmap bytes NodeInfo := foldl (fun m p => registry_cmd p.2 m) ∅ calls.

Definition tower_replies (cmd : towerCmd) (v : gmap bytes NodeInfo * gmap bytes TopicInfo) (r : option towerReply) : Prop :=
  match cmd with
  | tc_get_nodes => r = Some (TRNodes v.1)
  | tc_get_topics => r = Some (TRTopics v.2)
  | _ => r = Some TRNil
  end.

Definition tower_view (t : Tower) : gmap bytes NodeInfo * gmap bytes TopicInfo := (tw_nodes t, tw_topics t).
Definition tower_spec (cmd : towerCmd) (v : gmap bytes NodeInfo * gmap bytes TopicInfo) : gmap bytes NodeInfo * gmap bytes TopicInfo :=
  (registry_cmd cmd v.1, v.2).

Lemma tower_replay calls m ts : replay tower_spec (m, ts) calls = (foldl (fun m p => registry_cmd p.2 m) m calls, ts).
Proof. revert m. induction calls as [|p calls IH]; intros m; cbn; [done|]. apply IH. Qed.

Context (Hn : range_order nrange) (Ht : range_order trange).

Lemma tower_handle_spec (e : unit) c t r t' :
  srv_handle e c t = Some (r, t') → tower_view t' = tower_spec c (tower_view t) ∧ tower_replies c (tower_view t) r.
Proof.
  destruct c as [node|u| |]; cbn; intros [= <- <-]; cbn; (split; [done|]); try done; by rewrite range_order_insert.
Qed.

Lemma tower_bg_view t t' : tower_bg t t' → tower_view t' = tower_view t.
Proof. intros H. destruct H as [data t|t]; [|done]. destruct data as [|b data]; cbn; [done|]. by case_decide. Qed.

End tower.

(** A call that registers a node, one that reads the registry, one that
    unregisters it; the three are served, and the second returns. *)
Definition demo_node : NodeInfo := mkNode (gs "n1") 0 (gs "tcp://h:1") [] ∅ 0 true.
Definition demo_tower : Server Tower towerCmd towerReply unit := tower_server map_to_list map_to_list.
Definition demo_tower_call (id : nat) (c : towerCmd) (s : towerActor) : towerActor := (@actor_call _ _ _ _ demo_tower true id c s).2.
Definition demo_tower_turn (s : towerActor) : towerActor := default s (@actor_turn _ _ _ _ demo_tower tt s).
Definition demo_t0 : towerActor := actor_start (NewTower (gs "t") []).
Definition demo_t1 : towerActor := demo_tower_call 0 (tc_register_node demo_node) demo_t0.
Definition demo_t2 : towerActor := demo_tower_call 1 tc_get_nodes demo_t1.
Definition demo_t3 : towerActor := demo_tower_call 2 (tc_unregister_node (gs "n1")) demo_t2.
Definition demo_t4 : towerActor := demo_tower_turn (demo_tower_turn (demo_tower_turn demo_t3)).
Definition demo_nodes : towerReply := TRNodes (foldl (fun m kv => <[kv.1 := kv.2]> m) ∅ (map_to_list (registry [(0%nat, tc_register_node demo_node)]))).
Definition demo_t5 : towerActor := match actor_return 1 demo_t4 with Some (_, s) => s | None => demo_t4 end.
Definition demo_tower_labels : list (@label towerCmd towerReply unit) :=
  [LCall 0 (tc_register_node demo_node); LCall 1 tc_get_nodes; LCall 2 (tc_unregister_node (gs "n1"));
   LServe tt 0 (tc_register_node demo_node) (Some TRNil); LServe tt 1 tc_get_nodes (Some demo_nodes);
   LServe tt 2 (tc_unregister_node (gs "n1")) (Some TRNil); LReturn 1 demo_nodes].

Lemma demo_tower_run : @actor_run _ _ _ _ demo_tower demo_t0 demo_tower_labels demo_t5.
Proof.
  eapply run_cons; [apply (a_call true); [apply not_elem_of_empty|reflexivity]|].
  eapply run_cons; [apply (a_call true); [apply (bool_decide_unpack _); vm_compute; exact I|reflexivity]|].
  eapply run_cons; [apply (a_call true); [apply (bool_decide_unpack _); vm_compute; exact I|reflexivity]|].
  do 3 (eapply run_cons; [eapply a_serve; reflexivity|]).
  eapply run_cons; [apply a_return; reflexivity|]. constructor.
Qed.


(** ** The producer *)

Inductive producerCmd : Type := pc_flush | pc_get_topics.
Inductive producerReply : Type := PRNil | PRTopics (topics : list bytes).

Section producers.
Context (trange : gmap bytes TopicState → list (bytes * TopicState)).
Context (range : Headers → list (bytes * bytes)) (sendErr : bytes → option error).

Definition producer_handleCommand (now : Z) (cmd : producerCmd) : M Producer (option producerReply) :=
  match cmd with
  | pc_flush => flushAllBatches trange now;; mret (Some PRNil)
  | pc_get_topics => p ← mget; mret (Some (PRTopics (trange (pr_topics p)).*1))
  end.

Definition is_flush (op : producer_op) : bool := match op with PFlush _ => true | _ => false end.

(** [Produce] and [ProduceAsync], [recordLoop], [batchLoop], [flushLoop];
    [responseLoop] and [ackLoop] drop what they receive. *)
Definition producer_bg (p p' : Producer) : Prop :=
  ∃ op, is_flush op = false ∧ p' = (producer_step trange range sendErr op p).2.

#[export] Instance producer_server : Server Producer producerCmd producerReply Z := {|
  srv_cap := 100;
  srv_handle now cmd := serves (producer_handleCommand now cmd);
  srv_bg := producer_bg |}.

Definition producerActor : Type := actor Producer producerCmd producerReply.
Definition producer_commandLoop : Z → producerActor → option producerActor := actor_turn.
End producers.

(** ** The consumer *)

Inductive consumerCmd : Type :=
| kc_subscribe (topics : list bytes)
| kc_unsubscribe (topics : list bytes)
| kc_get_subscriptions.
Inductive consumerReply : Type := KRError (e : option error) | KRTopics (topics : list bytes).

Section consumers.
Context (prange : gmap bytes PartitionState → list (bytes * PartitionState)).
Context (srange : gset bytes → list bytes).

Definition consumer_handleCommand (cmd : consumerCmd) : M Consumer (option consumerReply) :=
  match cmd with
  | kc_subscribe topics =>
      r ← try (subscribeToTopics topics); mret (Some (KRError (match r with inl _ => None | inr e => Some e end)))
  | kc_unsubscribe topics =>
      r ← try (unsubscribeFromTopics prange topics); mret (Some (KRError (match r with inl _ => None | inr e => Some e end)))
  | kc_get_subscriptions => c ← mget; mret (Some (KRTopics (srange (cs_subscriptions c))))
  end.

(** What [Subscribe] and [Unsubscribe] return. *)
Definition Subscribe_result (r : consumerReply) : option error := match r with KRError e => e | _ => None end.

Context (orange : Offsets → list (bytes * gmap bytes Z)) (zrange : gmap bytes Z → list (bytes * Z)).
Context (sendErr : bytes → option error).

(** The methods that do not queue a command, and one turn of the other loops;
    [ackLoop] only takes an acknowledgment from its channel. *)
Inductive consumer_op : Type :=
| KMessage (now : Z) (data : bytes)
| KPoll (now : Z)
| KConsume (now : Z) (handler : dafkaRecord → option error)
| KCommit
| KAutoCommit
| KCommitLoop
| KFetchLoop
| KAckLoop.

Definition consumer_turn (op : consumer_op) : M Consumer unit :=
  match op with
  | KMessage now data => Consumer_processSubscriptionMessage now data
  | KPoll now => _ ← Poll now; mret tt
  | KConsume now handler => _ ← Consume now handler; mret tt
  | KCommit => Commit prange
  | KAutoCommit => commitOffsets prange
  | KCommitLoop => commitLoop orange zrange
  | KFetchLoop => Consumer_fetchLoop sendErr
  | KAckLoop => mupd (fun c => set_cs_acks (tail (cs_acks c)) c)
  end.

Definition consumer_bg (c c' : Consumer) : Prop := ∃ op, c' = (consumer_turn op c).2.

#[export] Instance consumer_server : Server Consumer consumerCmd consumerReply unit := {|
  srv_cap := 100;
  srv_handle _ cmd := serves (consumer_handleCommand cmd);
  srv_bg := consumer_bg |}.

Definition consumerActor : Type := actor Consumer consumerCmd consumerReply.
Definition consumer_commandLoop : unit → consumerActor → option consumerActor := actor_turn.

(** *** The other goroutines leave the subscriptions alone *)

Definition keeps_subs {A} (m : M Consumer A) : Prop :=
  ∀ c, cs_subscriptions (m c).2 = cs_subscriptions c ∧ cs_filters (m c).2 = cs_filters c.

Lemma keeps_subs_bind {A B} (m : M Consumer A) (f : A → M Consumer B) : keeps_subs m → (∀ a, keeps_subs (f a)) → keeps_subs (m ≫= f).
Proof.
  intros Hm Hf c. unfold mbind, M_bind. specialize (Hm c). destruct (m c) as [[a|e|p] c1]; try done.
  cbn in Hm. destruct (Hf a c1) as [-> ->]. done.
Qed.
Lemma keeps_subs_try {A} (m : M Consumer A) : keeps_subs m → keeps_subs (try m).
Proof. intros Hm c. unfold try. specialize (Hm c). by destruct (m c) as [[a|e|p] c1]. Qed.
Lemma keeps_subs_mupd f : (∀ c, cs_subscriptions (f c) = cs_subscriptions c ∧ cs_filters (f c) = cs_filters c) → keeps_subs (mupd f).
Proof. intros H c. apply H. Qed.
Lemma keeps_subs_id {A} (m : M Consumer A) : (∀ c, (m c).2 = c) → keeps_subs m.
Proof. intros H c. by rewrite H. Qed.

Ltac keeps_subscriptions := repeat first
  [ apply keeps_subs_bind; [|intros ?] | apply keeps_subs_try | apply keeps_subs_mupd; by intros ? | apply keeps_subs_id; by intros ? | case_match ].

Lemma consumer_turn_keeps op : keeps_subs (consumer_turn op).
Proof.
  destruct op; cbn [consumer_turn];
    unfold Consumer_processSubscriptionMessage, processRecordMessage, processHeadMessage, requestMissingRecords, Poll, Consume,
      updatePartitionState, Commit, commitOffsets, commitLoop, processCommitRequest, Consumer_fetchLoop, Consumer_processFetchRequest; keeps_subscriptions.
Qed.

(** The topics that subscriptions and unsubscriptions leave. *)
Definition subscribed_cmd (cmd : consumerCmd) (s : gset bytes) : gset bytes :=
  match cmd with
  | kc_subscribe topics => list_to_set topics ∪ s
  | kc_unsubscribe topics => s ∖ list_to_set topics
  | kc_get_subscriptions => s
  end.

Lemma subscribe_spec topics c :
  ∃ c', subscribeToTopics topics c = (Ret tt, c') ∧
    cs_subscriptions c' = list_to_set topics ∪ cs_subscriptions c ∧ cs_filters c' = list_to_set topics ∪ cs_filters c.
Proof.
  revert c. induction topics as [|t topics IH]; intros c; cbn.
  - exists c. split_and!; [done|set_solver..].
  - unfold mbind, M_bind, mupd. destruct (IH (set_cs_subscriptions ({[t]} ∪ cs_subscriptions c) ({[t]} ∪ cs_filters c) c)) as (c' & -> & H1 & H2).
    exists c'. rewrite H1, H2. cbn. split_and!; [done|set_solver..].
Qed.

Lemma unsubscribe_spec topics c :
  ∃ c', unsubscribeFromTopics prange topics c = (Ret tt, c') ∧
    cs_subscriptions c' = cs_subscriptions c ∖ list_to_set topics ∧ cs_filters c' = cs_filters c ∖ list_to_set topics.
Proof.
  revert c. induction topics as [|t topics IH]; intros c; cbn.
  - exists c. split_and!; [done|set_solver..].
  - unfold mbind, M_bind, mupd. edestruct IH as (c' & -> & H1 & H2). exists c'. rewrite H1, H2. cbn. split_and!; [done|set_solver..].
Qed.

(** The consumer's socket filters on the topics subscribed to, and
    [Subscribe] and [Unsubscribe] always succeed: in every interleaving, when
    the two were equal at first, the filters of the SUB socket are the
    subscriptions that the commands served so far leave. *)
Theorem consumer_subscriptions (c0 : Consumer) ls s :
  cs_filters c0 = cs_subscriptions c0 → actor_run (actor_start c0) ls s →
  cs_subscriptions (at_state s) = foldl (fun v p => subscribed_cmd p.2 v) (cs_subscriptions c0) (served ls) ∧
  cs_filters (at_state s) = cs_subscriptions (at_state s) ∧
  ∀ k id e, ls !! k = Some (LReturn id (KRError e)) → e = None.
Proof.
  intros H0 Hrun.
  assert (Hh : ∀ (u : unit) cmd c r c', srv_handle u cmd c = Some (r, c') →
    (cs_subscriptions c' = subscribed_cmd cmd (cs_subscriptions c) ∧ cs_filters c' = subscribed_cmd cmd (cs_filters c)) ∧ ∀ e, r = Some (KRError e) → e = None).
  { intros u cmd c r c'. cbn. unfold serves. destruct cmd as [ts|ts|]; cbn; unfold mbind, M_bind, try.
    - destruct (subscribe_spec ts c) as (c1 & -> & H1 & H2). cbn. intros [= <- <-]. split; [done|]. by intros e [= <-].
    - destruct (unsubscribe_spec ts c) as (c1 & -> & H1 & H2). cbn. intros [= <- <-]. split; [done|]. by intros e [= <-].
    - by intros [= <- <-]. }
  assert (Hok : run_ok c0 ls s) by by eapply run_ok_run.
  destruct (sequential_replay (fun c => (cs_subscriptions c, cs_filters c)) (fun cmd v => (subscribed_cmd cmd v.1, subscribed_cmd cmd v.2))
    (fun _ _ r => ∀ e, r = Some (KRError e) → e = None)) with (st := c0) (ls := ls) (st' := at_state s) as [H1 _].
  { intros u cmd c r c' [[-> ->] H]%Hh. done. } { intros c c' [op ->]. by destruct (consumer_turn_keeps op c) as [-> ->]. } { by destruct Hok. }
  assert (Hrep : ∀ l v, replay (fun cmd v => (subscribed_cmd cmd v.1, subscribed_cmd cmd v.2)) (v, v) l
    = (foldl (fun v p => subscribed_cmd p.2 v) v l, foldl (fun v p => subscribed_cmd p.2 v) v l)).
  { intros l. induction l as [|p l IH]; intros v; cbn; [done|]. apply IH. }
  rewrite H0, Hrep in H1. injection H1 as -> ->. split_and!; [done..|].
  intros k id e Hk. destruct (actor_invariant (fun _ => True) (fun _ => True) c0 ls s Hrun) as [_ H]; try done.
  destruct (H k id _ Hk) as (u & cmd & c1 & c2 & _ & _ & [_ He]%Hh). by apply He.
Qed.
End consumers.

(** ** The store *)

Inductive storeCmd : Type := stc_get_partitions.

Section stores.
Context (prange : gmap bytes PartitionStore → list (bytes * PartitionStore)).
Context (range : Headers → list (bytes * bytes)) (openErr : bytes → option error).

Definition store_handleCommand (cmd : storeCmd) : M Store (option (list bytes)) :=
  match cmd with stc_get_partitions => s ← mget; mret (Some (prange (st_partitions s)).*1) end.

(** One turn of the other loops. *)
Inductive store_bg : Store → Store → Prop :=
| sb_record now s : store_bg s (recordLoop range openErr now s).2
| sb_fetch s : store_bg s (fetchLoop s).2
| sb_head s : store_bg s (headLoop prange s).2
| sb_sync now s : store_bg s (syncLoop prange now s).2
| sb_tick now s : store_bg s (syncAllPartitions prange now s).2
| sb_message now data s : store_bg s (Store_processSubscriptionMessage now data s).2.

#[export] Instance store_server : Server Store storeCmd (list bytes) unit := {|
  srv_cap := 100;
  srv_handle _ cmd := serves (store_handleCommand cmd);
  srv_bg := store_bg |}.

Definition storeActor : Type := actor Store storeCmd (list bytes).
Definition store_commandLoop : unit → storeActor → option storeActor := actor_turn.
End stores.

(** ** Starting *)

(** [Start] binds and dials one socket after the other; [Starting] is what a
    failed one leaves. *)
Fixpoint start_steps (steps : list (string * outcome unit)) : M NodeState unit :=
  match steps with
  | [] => mret tt
  | (what, o) :: rest => wrapE what (lift o);; start_steps rest
  end.

Definition start_node (already : string) (steps : list (string * outcome unit)) : M NodeState unit :=
  s ← mget;
  if decide (s ≠ NodeStateStopped) then mfail (Errorf already)
  else mupd (fun _ => NodeStateStarting);; start_steps steps;; mupd (fun _ => NodeStateRunning).

(** [incrementPort] does not. *)
Definition incrementPort (address : bytes) (increment : Z) : bytes := address.

(** [listen bound a] is the outcome of binding [a] when [bound] are bound. *)
Definition Tower_Start (listen : list bytes → bytes → outcome unit) (setupBeacon : outcome unit) (address : bytes) : M NodeState unit :=
  start_node "tower already started"
    [("failed to bind PUB socket"%string, listen [] address);
     ("failed to bind XPUB socket"%string, listen [address] (incrementPort address 1));
     ("failed to setup beacon"%string, setupBeacon)].

Definition dial_tower (dial : bytes → outcome unit) (towerAddr : bytes) : list (string * outcome unit) :=
  if decide (towerAddr = []) then [] else [("failed to connect to tower"%string, dial towerAddr)].

Definition Producer_Start (listen dial : bytes → outcome unit) (address towerAddr : bytes) : M NodeState unit :=
  start_node "producer already started" (("failed to bind PUB socket"%string, listen address) :: dial_tower dial towerAddr).

Definition Consumer_Start (listen dial : bytes → outcome unit) (address towerAddr : bytes) : M NodeState unit :=
  start_node "consumer already started" (("failed to bind DEALER socket"%string, listen address) :: dial_tower dial towerAddr).

Lemma start_steps_fails steps what e s :
  (∀ w o, (w, o) ∈ steps → ∀ p, o ≠ Panic p) → (what, Fail e) ∈ steps → ∃ e', start_steps steps s = (Fail e', s).
Proof.
  intros Hp. induction steps as [|[w o] steps IH]; intros Hin; [by apply not_elem_of_nil in Hin|].
  cbn. unfold mbind, M_bind, wrapE, lift. destruct o as [[]|e1|p]; [|by eexists|by destruct (Hp w (Panic p) ltac:(by left) p)].
  apply elem_of_cons in Hin as [[=]|Hin]. apply IH; [|done]. intros w' o' Hin' p. apply (Hp w'). by right.
Qed.

(** A node that failed to start is lost: when one of its steps fails, [Start]
    returns an error and every later [Start] does too, although nothing runs. *)
Lemma start_failed already steps what e :
  (∀ w o, (w, o) ∈ steps → ∀ p, o ≠ Panic p) → (what, Fail e) ∈ steps →
  ∃ e', start_node already steps NodeStateStopped = (Fail e', NodeStateStarting) ∧
    ∀ steps', start_node already steps' NodeStateStarting = (Fail (Errorf already), NodeStateStarting).
Proof.
  intros Hp Hin. destruct (start_steps_fails steps what e NodeStateStarting Hp Hin) as [e' E].
  exists e'. unfold start_node, mbind, M_bind, mget, mupd. cbn. by rewrite E.
Qed.

(** A tower never starts where an address can be bound once only. *)
Theorem tower_never_starts listen beacon address e :
  listen [address] address = Fail e → (∀ bound a p, listen bound a ≠ Panic p) → (∀ p, beacon ≠ Panic p) →
  (∃ e', Tower_Start listen beacon address NodeStateStopped = (Fail e', NodeStateStarting)) ∧
    ∀ listen' beacon', Tower_Start listen' beacon' address NodeStateStarting = (Fail (Errorf "tower already started"), NodeStateStarting).
Proof.
  intros Hl Hnl Hnb. edestruct (start_failed "tower already started"
    [("failed to bind PUB socket"%string, listen [] address); ("failed to bind XPUB socket"%string, listen [address] address);
     ("failed to setup beacon"%string, beacon)] "failed to bind XPUB socket"%string e) as (e' & H1 & H2).
  - intros w o Hin p. rewrite !elem_of_cons in Hin. destruct Hin as [[= _ ->]|[[= _ ->]|[[= _ ->]|Hin]]]; [done..|by apply not_elem_of_nil in Hin].
  - rewrite Hl. right. left.
  - split; [by exists e'|]. intros listen' beacon'. apply H2.
Qed.
