(* ===== verification/ZyreMessage.v ===== *)
(** * ZyreMessage: messages and beacons of Zyre (src/zyre/message.go, beacon.go)

    The envelope, the bodies HELLO, WHISPER, SHOUT, JOIN and LEAVE, multipart
    contents, and the UDP beacon. The codecs are instances of the class
    [Wire]. *)

From Stdlib Require Import Strings.Byte ZArith Lia.
From stdpp Require Import base strings numbers gmap list.
From S2P Require Import Prelude Reader MlmMessage.

#[local] Open Scope Z_scope.
#[local] Set Default Goal Selector "!".

Definition ZreSignature1 : byte := xaa.
Definition ZreSignature2 : byte := xa1.
Definition BeaconPrefix : bytes := gs "ZRE".
Definition BeaconVersion : byte := x01.
Definition BeaconSize : nat := 22.

(** ** The envelope *)

Record zreMessage : Type := mkZre {
  zm_Version : byte;
  zm_Type : byte;
  zm_Sequence : Z;
  zm_SenderUUID : bytes;
  zm_Body : bytes }.

Definition set_zm_Version (v : byte) (m : zreMessage) : zreMessage :=
  mkZre v (zm_Type m) (zm_Sequence m) (zm_SenderUUID m) (zm_Body m).
Definition set_zm_Type (v : byte) (m : zreMessage) : zreMessage :=
  mkZre (zm_Version m) v (zm_Sequence m) (zm_SenderUUID m) (zm_Body m).
Definition set_zm_Sequence (v : Z) (m : zreMessage) : zreMessage :=
  mkZre (zm_Version m) (zm_Type m) v (zm_SenderUUID m) (zm_Body m).
Definition set_zm_SenderUUID (v : bytes) (m : zreMessage) : zreMessage :=
  mkZre (zm_Version m) (zm_Type m) (zm_Sequence m) v (zm_Body m).
Definition set_zm_Body (v : bytes) (m : zreMessage) : zreMessage :=
  mkZre (zm_Version m) (zm_Type m) (zm_Sequence m) (zm_SenderUUID m) v.
Definition zero_zm : zreMessage := mkZre x00 x00 0 (replicate 16 x00) [].

(** The signature is written, and compared when reading; the field of that
    name is not used. *)
Definition zre_Marshal (m : zreMessage) : outcome bytes :=
  Ret ([ZreSignature1; ZreSignature2; zm_Version m; zm_Type m] ++ be_put 2 (zm_Sequence m) ++ zm_SenderUUID m ++ zm_Body m).

(** [buf.Read(m.SenderUUID[:])]: the bytes that are there, up to 16, replace
    the first ones of the array. *)
Definition read_uuid : M (zreMessage * bytes) unit := fun '(m, r) =>
  (Ret tt, (set_zm_SenderUUID (take 16 r ++ drop (length (take 16 r)) (zm_SenderUUID m)) m, drop 16 r)).

(** The errors of the reads after the length check are dropped. [binary.Read]
    leaves its target alone on an error; here two bytes are always there. *)
Definition zre_Unmarshal (data : bytes) : M zreMessage unit :=
  if decide (len data < 21) then mfail (Errorf "message too short")
  else decode (
    sig1 ← on_snd rd_byte;
    sig2 ← on_snd rd_byte;
    if decide (sig1 ≠ ZreSignature1 ∨ sig2 ≠ ZreSignature2) then mfail (Errorf "invalid protocol signature")
    else
      version ← on_snd rd_byte; upd_fst (set_zm_Version version);;
      msgType ← on_snd rd_byte; upd_fst (set_zm_Type msgType);;
      read_int "" 2 set_zm_Sequence;;
      read_uuid;;
      '(_, rest) ← mget;
      upd_fst (set_zm_Body rest)) data.

Definition zre_ok (m : zreMessage) : Prop := 0 <= zm_Sequence m < 2 ^ 16 ∧ length (zm_SenderUUID m) = 16%nat.

(** ** HELLO *)

Record HelloMessage : Type := mkHello {
  hl_Version : byte;
  hl_Sequence : Z;
  hl_Endpoint : bytes;
  hl_Groups : list bytes;
  hl_Status : byte;
  hl_Name : bytes;
  hl_Headers : Attributes }.

Definition set_hl_Version (v : byte) (m : HelloMessage) : HelloMessage :=
  mkHello v (hl_Sequence m) (hl_Endpoint m) (hl_Groups m) (hl_Status m) (hl_Name m) (hl_Headers m).
Definition set_hl_Sequence (v : Z) (m : HelloMessage) : HelloMessage :=
  mkHello (hl_Version m) v (hl_Endpoint m) (hl_Groups m) (hl_Status m) (hl_Name m) (hl_Headers m).
Definition set_hl_Endpoint (v : bytes) (m : HelloMessage) : HelloMessage :=
  mkHello (hl_Version m) (hl_Sequence m) v (hl_Groups m) (hl_Status m) (hl_Name m) (hl_Headers m).
Definition set_hl_Groups (v : list bytes) (m : HelloMessage) : HelloMessage :=
  mkHello (hl_Version m) (hl_Sequence m) (hl_Endpoint m) v (hl_Status m) (hl_Name m) (hl_Headers m).
Definition set_hl_Status (v : byte) (m : HelloMessage) : HelloMessage :=
  mkHello (hl_Version m) (hl_Sequence m) (hl_Endpoint m) (hl_Groups m) v (hl_Name m) (hl_Headers m).
Definition set_hl_Name (v : bytes) (m : HelloMessage) : HelloMessage :=
  mkHello (hl_Version m) (hl_Sequence m) (hl_Endpoint m) (hl_Groups m) (hl_Status m) v (hl_Headers m).
Definition set_hl_Headers (v : Attributes) (m : HelloMessage) : HelloMessage :=
  mkHello (hl_Version m) (hl_Sequence m) (hl_Endpoint m) (hl_Groups m) (hl_Status m) (hl_Name m) v.
Definition zero_hl : HelloMessage := mkHello x00 0 [] [] x00 [] ∅.

Fixpoint write_groups (groups : list bytes) : outcome bytes :=
  match groups with
  | [] => Ret []
  | group :: rest =>
      w1 ← write_string 255 "group name too long" group;
      w2 ← write_groups rest;
      Ret (w1 ++ w2)
  end.

Definition Hello_Marshal (range : Attributes → list (bytes * bytes)) (h : HelloMessage) : outcome bytes :=
  w1 ← write_string 255 "endpoint too long" (hl_Endpoint h);
  if decide (255 < len (hl_Groups h)) then Fail (Errorf "too many groups")
  else
    w2 ← write_groups (hl_Groups h);
    w3 ← write_string 255 "name too long" (hl_Name h);
    w4 ← write_map "header" range (hl_Headers h);
    Ret ([hl_Version h] ++ be_put 2 (hl_Sequence h) ++ w1 ++ [Z_byte (len (hl_Groups h))] ++ w2 ++ [hl_Status h] ++ w3 ++ w4).

(** [h.Groups[i] = group] for the [n] groups that are left, from [i] on. *)
Fixpoint read_groups (n i : nat) : M (HelloMessage * bytes) unit :=
  match n with
  | O => mret tt
  | S n' =>
      group ← wrapE "failed to read group" (on_snd readString);
      upd_fst (fun h => set_hl_Groups (<[i := group]> (hl_Groups h)) h);;
      read_groups n' (S i)
  end.

Definition Hello_Unmarshal (data : bytes) : M HelloMessage unit :=
  decode (
    version ← wrapE "failed to read version" (on_snd rd_byte); upd_fst (set_hl_Version version);;
    read_int "failed to read sequence" 2 set_hl_Sequence;;
    read_field "failed to read endpoint" set_hl_Endpoint;;
    groupCount ← wrapE "failed to read group count" (on_snd rd_byte);
    upd_fst (set_hl_Groups (replicate (Z.to_nat (byte_Z groupCount)) []));;
    read_groups (Z.to_nat (byte_Z groupCount)) 0;;
    status ← wrapE "failed to read status" (on_snd rd_byte); upd_fst (set_hl_Status status);;
    read_field "failed to read name" set_hl_Name;;
    read_map hl_Headers set_hl_Headers "header") data.

Definition Hello_ok (h : HelloMessage) : Prop :=
  0 <= hl_Sequence h < 2 ^ 16 ∧ len (hl_Endpoint h) <= 255 ∧ len (hl_Groups h) <= 255 ∧
  Forall (fun g => len g <= 255) (hl_Groups h) ∧ len (hl_Name h) <= 255 ∧ attrs_ok (hl_Headers h).

(** ** Multipart contents *)

Fixpoint write_frames (frames : list bytes) : outcome bytes :=
  match frames with
  | [] => Ret []
  | frame :: rest =>
      w1 ← write_blob 2 "frame too large" 65535 frame;
      w2 ← write_frames rest;
      Ret (w1 ++ w2)
  end.

Definition marshalMultipart (frames : list bytes) : outcome bytes :=
  if decide (255 < len frames) then Fail (Errorf "too many frames")
  else w ← write_frames frames; Ret (Z_byte (len frames) :: w).

Fixpoint read_frames (n : nat) : M bytes (list bytes) :=
  match n with
  | O => mret []
  | S n' =>
      frameLength ← wrapE "failed to read frame length" (rd_uint 2);
      frame ← wrapE "failed to read frame data" (rd_read (Z.to_nat frameLength));
      frames ← read_frames n';
      mret (frame :: frames)
  end.

Definition unmarshalMultipart (data : bytes) : outcome (list bytes) :=
  ((frameCount ← wrapE "failed to read frame count" rd_byte; read_frames (Z.to_nat (byte_Z frameCount))) data).1.

(** What the format can carry: a last frame that is empty is not one of them. *)
Definition content_ok (frames : list bytes) : Prop :=
  len frames <= 255 ∧ Forall (fun f => len f <= 65535) frames ∧ last frames ≠ Some [].

Record WhisperMessage : Type := mkWhisper { wh_Content : list bytes }.

Definition Whisper_Marshal (w : WhisperMessage) : outcome bytes := marshalMultipart (wh_Content w).

Definition Whisper_Unmarshal (data : bytes) : M WhisperMessage unit :=
  content ← lift (unmarshalMultipart data);
  mupd (fun _ => mkWhisper content).

Record ShoutMessage : Type := mkShout { so_Group : bytes; so_Content : list bytes }.

Definition set_so_Group (v : bytes) (m : ShoutMessage) : ShoutMessage := mkShout v (so_Content m).
Definition set_so_Content (v : list bytes) (m : ShoutMessage) : ShoutMessage := mkShout (so_Group m) v.

Definition Shout_Marshal (s : ShoutMessage) : outcome bytes :=
  w1 ← write_string 255 "group name too long" (so_Group s);
  w2 ← marshalMultipart (so_Content s);
  Ret (w1 ++ w2).

Definition Shout_Unmarshal (data : bytes) : M ShoutMessage unit :=
  decode (
    read_field "failed to read group" set_so_Group;;
    '(_, remaining) ← mget;
    content ← lift (unmarshalMultipart remaining);
    upd_fst (set_so_Content content)) data.

(** ** JOIN and LEAVE *)

Record JoinMessage : Type := mkJoin { jn_Group : bytes; jn_Status : byte }.

Definition set_jn_Group (v : bytes) (m : JoinMessage) : JoinMessage := mkJoin v (jn_Status m).
Definition set_jn_Status (v : byte) (m : JoinMessage) : JoinMessage := mkJoin (jn_Group m) v.

Definition Join_Marshal (j : JoinMessage) : outcome bytes :=
  w ← write_string 255 "group name too long" (jn_Group j);
  Ret (w ++ [jn_Status j]).

Definition Join_Unmarshal (data : bytes) : M JoinMessage unit :=
  decode (read_field "failed to read group" set_jn_Group;;
    status ← wrapE "failed to read status" (on_snd rd_byte); upd_fst (set_jn_Status status)) data.

Record LeaveMessage : Type := mkLeave { lv_Group : bytes; lv_Status : byte }.

Definition set_lv_Group (v : bytes) (m : LeaveMessage) : LeaveMessage := mkLeave v (lv_Status m).
Definition set_lv_Status (v : byte) (m : LeaveMessage) : LeaveMessage := mkLeave (lv_Group m) v.

Definition Leave_Marshal (l : LeaveMessage) : outcome bytes :=
  w ← write_string 255 "group name too long" (lv_Group l);
  Ret (w ++ [lv_Status l]).

Definition Leave_Unmarshal (data : bytes) : M LeaveMessage unit :=
  decode (read_field "failed to read group" set_lv_Group;;
    status ← wrapE "failed to read status" (on_snd rd_byte); upd_fst (set_lv_Status status)) data.

(** ** Beacons *)

Record Discovery : Type := mkDiscovery { ds_UUID : bytes; ds_Port : Z; ds_Addr : bytes }.

(** [sendBeacon] and [parseBeacon]; the node's own beacons are dropped. *)
Definition zre_beacon (uuid : bytes) (port : Z) : bytes := BeaconPrefix ++ [BeaconVersion] ++ uuid ++ be_put 2 port.

Definition zre_parseBeacon (own data sourceIP : bytes) : option Discovery :=
  if decide (length data ≠ BeaconSize) then None
  else if decide (take 3 data ≠ BeaconPrefix ∨ data !! 3%nat ≠ Some BeaconVersion) then None
  else
    let uuid := take 16 (drop 4 data) in
    let port := be_get (take 2 (drop 20 data)) in
    if decide (uuid = own) then None else Some (mkDiscovery uuid port sourceIP).

(** One tick of [broadcastLoop]: what is broadcast. *)
Definition zre_broadcast (uuid : bytes) (port : Z) : option bytes := if decide (0 < port) then Some (zre_beacon uuid port) else None.

(** ** Round trips *)

#[export] Instance zre_wire : Wire zreMessage :=
  {| w_zero := zero_zm; w_marshal _ := zre_Marshal; w_unmarshal := zre_Unmarshal; w_ok := zre_ok |}.
#[export] Instance Hello_wire : Wire HelloMessage :=
  {| w_zero := zero_hl; w_marshal := Hello_Marshal; w_unmarshal := Hello_Unmarshal; w_ok := Hello_ok |}.
#[export] Instance Whisper_wire : Wire WhisperMessage :=
  {| w_zero := mkWhisper []; w_marshal _ := Whisper_Marshal; w_unmarshal := Whisper_Unmarshal; w_ok w := content_ok (wh_Content w) |}.
#[export] Instance Shout_wire : Wire ShoutMessage :=
  {| w_zero := mkShout [] []; w_marshal _ := Shout_Marshal; w_unmarshal := Shout_Unmarshal;
     w_ok s := len (so_Group s) <= 255 ∧ content_ok (so_Content s) |}.
#[export] Instance Join_wire : Wire JoinMessage :=
  {| w_zero := mkJoin [] x00; w_marshal _ := Join_Marshal; w_unmarshal := Join_Unmarshal; w_ok j := len (jn_Group j) <= 255 |}.
#[export] Instance Leave_wire : Wire LeaveMessage :=
  {| w_zero := mkLeave [] x00; w_marshal _ := Leave_Marshal; w_unmarshal := Leave_Unmarshal; w_ok l := len (lv_Group l) <= 255 |}.

Lemma zre_round_trips : round_trips zreMessage.
Proof.
  intros range m Hr [Hs Hu]. eexists. split; [reflexivity|]. cbn [w_unmarshal w_zero zre_wire]. unfold zre_Unmarshal.
  rewrite decide_False.
  2:{ unfold len. rewrite !length_app, length_be_put, Hu. cbn [length]. lia. }
  apply (decode_ret _ _ _ _ (zm_Body m)). cbn [app]. mstep reflexivity. mstep reflexivity. rewrite decide_False by (intros [?|?]; done).
  do 4 mstep reflexivity. read_step.
  mstep (unfold read_uuid; rewrite <- Hu, take_app_length, drop_app_length; reflexivity).
  mstep reflexivity. unfold upd_fst, mupd. destruct m as [v t s u b]. cbn in *.
  rewrite Hu. cbn. by rewrite app_nil_r.
Qed.

(** *** HELLO *)

Lemma write_groups_ok groups :
  Forall (fun g => len g <= 255) groups → write_groups groups = Ret (concat (put_string <$> groups)).
Proof.
  induction groups as [|g groups IH]; intros Hall; [done|]. apply Forall_cons in Hall as [Hg Hall]. cbn [write_groups fmap list_fmap concat].
  rewrite write_string_ok, IH by done. done.
Qed.

(** Writing position [i] and then the ones after it. *)
Lemma splice_insert {A} (l m : list A) i x :
  (i < length l)%nat →
  take (S i) (<[i := x]> l) ++ m ++ drop (S i + length m) (<[i := x]> l) =
    take i l ++ (x :: m) ++ drop (i + length (x :: m)) l.
Proof.
  revert i. induction l as [|y l IH]; intros [|i] Hi; cbn in Hi; try lia; [done|].
  cbn. f_equal. apply IH. lia.
Qed.

Lemma read_groups_put groups : ∀ i h r,
  Forall (fun g => len g <= 255) groups → (i + length groups <= length (hl_Groups h))%nat →
  read_groups (length groups) i (h, concat (put_string <$> groups) ++ r) =
    (Ret tt, (set_hl_Groups (take i (hl_Groups h) ++ groups ++ drop (i + length groups) (hl_Groups h)) h, r)).
Proof.
  induction groups as [|g groups IH]; intros i h r Hall Hlen; cbn [length read_groups fmap list_fmap concat app].
  - destruct h. cbn. by rewrite Nat.add_0_r, take_drop.
  - apply Forall_cons in Hall as [Hg Hall]. cbn [length] in Hlen. rewrite <- app_assoc.
    mstep (by apply wrapE_ret, on_snd_ret, readString_put). mstep reflexivity.
    rewrite IH by (cbn [hl_Groups set_hl_Groups]; rewrite ?length_insert; done || lia).
    destruct h as [v s e gs0 st nm hd]. cbn [hl_Groups set_hl_Groups] in *. unfold set_hl_Groups. cbn [hl_Version hl_Sequence hl_Endpoint hl_Groups hl_Status hl_Name hl_Headers].
    by rewrite splice_insert by lia.
Qed.

Lemma Hello_round_trips : round_trips HelloMessage.
Proof.
  intros range h Hr (Hs & He & Hg & Hgs & Hn & Ha). cbn [w_marshal w_unmarshal w_zero Hello_wire].
  unfold Hello_Marshal, Hello_Unmarshal. destruct (write_map_ok "header" _ _ Hr Ha) as [wa Hwa].
  rewrite !write_string_ok, write_groups_ok, Hwa by done. cbn [mbind outcome_bind]. rewrite decide_False by lia. cbn [mbind outcome_bind].
  eexists. split; [done|]. apply decode_fields. rewrite <- !app_assoc. cbn [app].
  mstep (apply wrapE_ret, on_snd_ret; reflexivity). mstep reflexivity. read_step. read_step.
  mstep (apply wrapE_ret, on_snd_ret; reflexivity). mstep reflexivity.
  rewrite byte_Z_Z_byte, Z.mod_small, len_to_nat by (pose proof (len_nonneg (hl_Groups h)); lia).
  mstep (apply read_groups_put; [done|cbn; rewrite length_replicate; lia]).
  mstep (apply wrapE_ret, on_snd_ret; reflexivity). mstep reflexivity. read_step. read_last.
  destruct h as [v s e gs0 st nm hd]. cbn. rewrite drop_ge by (rewrite length_replicate; lia). by rewrite app_nil_r.
Qed.

(** *** Contents *)

Lemma write_frames_ok frames :
  Forall (fun f => len f <= 65535) frames →
  write_frames frames = Ret (concat ((fun f => be_put 2 (len f) ++ f) <$> frames)).
Proof.
  induction frames as [|f frames IH]; intros Hall; [done|]. apply Forall_cons in Hall as [Hf Hall].
  cbn [write_frames fmap list_fmap concat]. rewrite write_blob_ok, IH by done. done.
Qed.

Lemma rd_uint_frame (f : bytes) r : len f <= 65535 → rd_uint 2 (be_put 2 (len f) ++ r) = (Ret (len f), r).
Proof. intros Hf. apply rd_uint_put. pose proof (len_nonneg f). cbn. lia. Qed.

Lemma read_frames_put frames :
  Forall (fun f => len f <= 65535) frames → last frames ≠ Some [] →
  read_frames (length frames) (concat ((fun f => be_put 2 (len f) ++ f) <$> frames)) = (Ret frames, []).
Proof.
  induction frames as [|f frames IH]; intros Hall Hlast; [done|]. apply Forall_cons in Hall as [Hf Hall].
  cbn [length read_frames fmap list_fmap concat]. rewrite <- app_assoc.
  mstep (by apply wrapE_ret, rd_uint_frame).
  set (rest := concat ((fun f => be_put 2 (len f) ++ f) <$> frames)).
  mstep (apply wrapE_ret; rewrite len_to_nat; apply rd_read_app; [done|]; intros E; apply app_eq_nil in E as [-> E];
    destruct frames as [|g frames]; [by apply Hlast|subst rest; cbn in E; done]).
  mstep (apply IH; [done|]; intros E; apply Hlast; destruct frames; [done|exact E]). done.
Qed.

(** A last frame that is empty cannot be read: the reader is exhausted. *)
Lemma read_frames_empty frames :
  Forall (fun f => len f <= 65535) frames →
  ∃ e, read_frames (S (length frames)) (concat ((fun f => be_put 2 (len f) ++ f) <$> (frames ++ [[]]))) = (Fail e, []).
Proof.
  induction frames as [|f frames IH]; intros Hall.
  - by eexists.
  - apply Forall_cons in Hall as [Hf Hall]. destruct (IH Hall) as [e E]. exists e.
    cbn [length app fmap list_fmap concat]. cbn [read_frames]. rewrite <- app_assoc.
    mstep (by apply wrapE_ret, rd_uint_frame).
    mstep (apply wrapE_ret; rewrite len_to_nat; apply rd_read_app; [done|]; intros E'; apply app_eq_nil in E' as [_ E'];
      destruct frames; cbn in E'; done).
    by apply M_bind_fail.
Qed.

Lemma multipart_round_trips frames :
  content_ok frames → ∃ data, marshalMultipart frames = Ret data ∧ unmarshalMultipart data = Ret frames.
Proof.
  intros (Hn & Hall & Hlast). unfold marshalMultipart, unmarshalMultipart. rewrite decide_False by lia.
  rewrite write_frames_ok by done. cbn [mbind outcome_bind]. eexists. split; [done|].
  rewrite (M_bind_ret _ _ _ (Z_byte (len frames)) (concat ((fun f => be_put 2 (len f) ++ f) <$> frames))) by done. cbv beta.
  rewrite byte_Z_Z_byte, Z.mod_small, len_to_nat by (pose proof (len_nonneg frames); lia).
  by rewrite read_frames_put.
Qed.

(** Every Zyre message survives the wire: the envelope and the bodies
    HELLO, WHISPER, SHOUT, JOIN and LEAVE are encoded whenever their fields
    fit, and decoding the bytes into a zero value restores them; the contents
    of WHISPER and SHOUT are any frames the last of which is not empty. *)
Theorem zre_codecs :
  round_trips zreMessage ∧ round_trips HelloMessage ∧ round_trips WhisperMessage ∧ round_trips ShoutMessage ∧
  round_trips JoinMessage ∧ round_trips LeaveMessage.
Proof.
  repeat split; intros range m Hr.
  - by apply zre_round_trips.
  - by apply Hello_round_trips.
  - intros Hc. destruct (multipart_round_trips _ Hc) as (data & Hm & Hu). exists data. split; [done|].
    cbn. unfold Whisper_Unmarshal. rewrite (M_bind_ret _ _ _ (wh_Content m) (mkWhisper [])) by (by apply lift_ret). by destruct m.
  - intros [Hg Hc]. destruct (multipart_round_trips _ Hc) as (data & Hm & Hu). cbn. unfold Shout_Marshal, Shout_Unmarshal.
    rewrite write_string_ok, Hm by done. cbn [mbind outcome_bind]. eexists. split; [done|]. eapply decode_ret.
    read_step. mstep reflexivity. mstep (by apply lift_ret). by destruct m.
  - intros Hg. cbn. unfold Join_Marshal, Join_Unmarshal. rewrite write_string_ok by done. eexists. split; [reflexivity|].
    eapply decode_ret. read_step. mstep reflexivity. by destruct m.
  - intros Hg. cbn. unfold Leave_Marshal, Leave_Unmarshal. rewrite write_string_ok by done. eexists. split; [reflexivity|].
    eapply decode_ret. read_step. mstep reflexivity. by destruct m.
Qed.

(** What [zre_codecs] leaves out: contents whose last frame is empty are
    encoded without an error, and no reader accepts the bytes. *)
Theorem empty_last_frame frames :
  len frames < 255 → Forall (fun f => len f <= 65535) frames →
  ∃ data e, marshalMultipart (frames ++ [[]]) = Ret data ∧ unmarshalMultipart data = Fail e.
Proof.
  intros Hn Hall. destruct (read_frames_empty frames Hall) as [e E].
  assert (Hlen : len (frames ++ [[]]) = len frames + 1) by (unfold len; rewrite length_app; cbn [length]; lia).
  exists (Z_byte (len (frames ++ [[]])) :: concat ((fun f => be_put 2 (len f) ++ f) <$> (frames ++ [[]]))), e. split.
  - unfold marshalMultipart. rewrite decide_False by lia. rewrite write_frames_ok; [done|].
    apply Forall_app. split; [done|]. by repeat constructor.
  - unfold unmarshalMultipart. rewrite (M_bind_ret _ _ _ (Z_byte (len (frames ++ [[]]))) (concat ((fun f => be_put 2 (len f) ++ f) <$> (frames ++ [[]])))) by done.
    cbv beta. pose proof (len_nonneg frames). rewrite byte_Z_Z_byte, Z.mod_small by lia. rewrite Hlen.
    replace (Z.to_nat (len frames + 1)) with (S (length frames)) by (unfold len; lia). by rewrite E.
Qed.

Lemma empty_last_frame_witness : ∃ data e, marshalMultipart [[x01]; []] = Ret data ∧ unmarshalMultipart data = Fail e.
Proof. apply (empty_last_frame [[x01]]); [reflexivity|by repeat constructor]. Defined.

(** ** Beacons *)

Lemma length_zre_beacon uuid port : length uuid = 16%nat → length (zre_beacon uuid port) = BeaconSize.
Proof. intros Hu. unfold zre_beacon. rewrite !length_app, length_be_put, Hu. reflexivity. Qed.

(** A beacon says who and where: what a node broadcasts is read by every
    other node as that UUID and that port, by the node itself as nothing; and
    since a port of 0 is not broadcast at all, no beacon a node sends is ever
    read as the announcement that it is leaving. *)
Theorem zre_beacon_read uuid port own ip :
  length uuid = 16%nat → 0 <= port < 65536 →
  zre_parseBeacon own (zre_beacon uuid port) ip = (if decide (uuid = own) then None else Some (mkDiscovery uuid port ip)) ∧
  ∀ data d, zre_broadcast uuid port = Some data → zre_parseBeacon own data ip = Some d → ds_Port d ≠ 0.
Proof.
  intros Hu Hp.
  assert (Hparse : zre_parseBeacon own (zre_beacon uuid port) ip = if decide (uuid = own) then None else Some (mkDiscovery uuid port ip)).
  { unfold zre_parseBeacon. rewrite decide_False by (intros H; by apply H, length_zre_beacon).
    rewrite decide_False by (intros [H|H]; by apply H).
    change (drop 4 (zre_beacon uuid port)) with (uuid ++ be_put 2 port).
    replace (drop 20 (zre_beacon uuid port)) with (be_put 2 port).
    2:{ change (drop 20 (zre_beacon uuid port)) with (drop 16 (uuid ++ be_put 2 port)). by rewrite <- Hu, drop_app_length. }
    replace (take 16 (uuid ++ be_put 2 port)) with uuid by (by rewrite <- Hu, take_app_length).
    rewrite (take_ge (be_put 2 port)), be_get_put_small; [done|cbn; lia|by rewrite length_be_put]. }
  split; [done|]. intros data d. unfold zre_broadcast. destruct (decide (0 < port)); [|done]. intros [= <-]. rewrite Hparse.
  destruct (decide (uuid = own)); [done|]. intros [= <-]. cbn. lia.
Qed.

Lemma zre_beacon_read_witness :
  let uuid := replicate 16 x07 in
  zre_parseBeacon (replicate 16 x01) (zre_beacon uuid 5555) (gs "10.0.0.7") = Some (mkDiscovery uuid 5555 (gs "10.0.0.7")).
Proof.
  intros uuid. destruct (zre_beacon_read uuid 5555 (replicate 16 x01) (gs "10.0.0.7")) as [H _]; [reflexivity|lia|].
  rewrite H. by rewrite decide_False.
Defined.
