(* ===== verification/Codecs.v ===== *)
(** * Codecs: the messages of malamute, dafka and zyre together

    The three packages encode their messages with the same fields ([Reader]);
    this file states once, for the class [Wire], what their codecs promise. *)

From Stdlib Require Import Strings.Byte.
From stdpp Require Import base list.
From S2P Require Import Prelude Reader MlmMessage DafkaMessage ZyreMessage.

