(* ===== verification/ZyreEvents.v ===== *)
(** * ZyreEvents: the event channel of Zyre (src/zyre/event.go)

    [EventChannel] hands every published event to every listener. The slice
    of listeners is changed while the loop ranges over it, so the model keeps
    the array behind the slice: [range] reads the array, the removal of a
    listener moves the array's elements down and shortens the slice. *)

From Stdlib Require Import Strings.Byte ZArith Lia.
From stdpp Require Import base strings numbers gmap list.
From S2P Require Import Prelude Reader ZyreMessage.

#[local] Set Default Goal Selector "!".

(** ** Events *)

Inductive EventType : Type :=
| EventTypeEnter | EventTypeExit | EventTypeJoin | EventTypeLeave | EventTypeWhisper | EventTypeShout.

Record Event : Type := mkEvent {
  ev_Type : EventType;
  ev_PeerUUID : bytes;
  ev_PeerName : bytes;
  ev_PeerAddr : bytes;
  ev_Headers : Attributes;
  ev_Group : bytes;
  ev_Message : list bytes }.

Definition NewEnterEvent (peerUUID peerName peerAddr : bytes) (headers : Attributes) : Event :=
  mkEvent EventTypeEnter peerUUID peerName peerAddr headers [] [].
Definition NewExitEvent (peerUUID peerName peerAddr : bytes) : Event :=
  mkEvent EventTypeExit peerUUID peerName peerAddr ∅ [] [].
Definition NewJoinEvent (peerUUID peerName group : bytes) : Event :=
  mkEvent EventTypeJoin peerUUID peerName [] ∅ group [].
Definition NewLeaveEvent (peerUUID peerName group : bytes) : Event :=
  mkEvent EventTypeLeave peerUUID peerName [] ∅ group [].
Definition NewWhisperEvent (peerUUID peerName : bytes) (message : list bytes) : Event :=
  mkEvent EventTypeWhisper peerUUID peerName [] ∅ [] message.
Definition NewShoutEvent (peerUUID peerName group : bytes) (message : list bytes) : Event :=
  mkEvent EventTypeShout peerUUID peerName [] ∅ group message.

(** ** Listeners *)

(** A buffered Go channel of [*Event]; [None] is the nil pointer. A send
    succeeds when the buffer has room (a receiver that waits on an unbuffered
    channel is not modelled). *)
Record Chan : Type := mkChan { ch_cap : nat; ch_buf : list (option Event) }.

Definition push (ev : option Event) (c : Chan) : Chan := mkChan (ch_cap c) (ch_buf c ++ [ev]).

(** [arr] is the array that [range] walks over, [len] the current length of
    [ec.listeners], a prefix of it. *)
Record Dist : Type := mkDist { d_arr : list nat; d_len : nat; d_chans : gmap nat Chan }.

(** [ec.listeners = append(ec.listeners[:i], ec.listeners[i+1:]...)] *)
Definition remove_listener (i : nat) (d : Dist) : outcome Dist :=
  if decide (i < d_len d)%nat then
    Ret (mkDist (take i (d_arr d) ++ drop (S i) (take (d_len d) (d_arr d)) ++ drop (d_len d - 1) (d_arr d)) (d_len d - 1) (d_chans d))
  else Panic "slice bounds out of range".

(** One iteration: a non-blocking send; a nil channel is never ready. *)
Definition deliver (ev : option Event) (i : nat) (d : Dist) : outcome Dist :=
  listener ← idx (d_arr d) i;
  match d_chans d !! listener with
  | Some c =>
      if decide (length (ch_buf c) < ch_cap c)%nat then Ret (mkDist (d_arr d) (d_len d) (<[listener := push ev c]> (d_chans d)))
      else remove_listener i d
  | None => remove_listener i d
  end.

Fixpoint distribute_loop (ev : option Event) (ixs : list nat) (d : Dist) : outcome Dist :=
  match ixs with
  | [] => Ret d
  | i :: ixs => d' ← deliver ev i d; distribute_loop ev ixs d'
  end.

(** ** The event channel *)

Record EventChannel : Type := mkEC {
  ec_cap : nat;
  ec_events : list Event;
  ec_listeners : list nat;
  ec_chans : gmap nat Chan;
  ec_closed : bool;
  ec_closing : bool;
  ec_running : bool }.

Definition set_ec_events (v : list Event) (s : EventChannel) : EventChannel :=
  mkEC (ec_cap s) v (ec_listeners s) (ec_chans s) (ec_closed s) (ec_closing s) (ec_running s).
Definition set_ec_listeners (ls : list nat) (cs : gmap nat Chan) (s : EventChannel) : EventChannel :=
  mkEC (ec_cap s) (ec_events s) ls cs (ec_closed s) (ec_closing s) (ec_running s).
Definition set_ec_flags (closed closing running : bool) (s : EventChannel) : EventChannel :=
  mkEC (ec_cap s) (ec_events s) (ec_listeners s) (ec_chans s) closed closing running.

Definition NewEventChannel (bufferSize : nat) : EventChannel := mkEC bufferSize [] [] ∅ false false false.

Definition ec_Subscribe (bufferSize : nat) (s : EventChannel) : nat * EventChannel :=
  let listener := fresh (dom (ec_chans s)) in
  (listener, set_ec_listeners (ec_listeners s ++ [listener]) (<[listener := mkChan bufferSize []]> (ec_chans s)) s).

Definition ec_Publish (event : Event) (s : EventChannel) : EventChannel :=
  if ec_closing s then s
  else if decide (length (ec_events s) < ec_cap s)%nat then set_ec_events (ec_events s ++ [event]) s
  else s.

(** [<-ec.events]: the next event; nil at once when the channel is closed and
    drained; otherwise the loop waits. [Close] closes [ec.events] together
    with setting [closing]. *)
Definition recv_event (s : EventChannel) : option (option Event * EventChannel) :=
  match ec_events s with
  | event :: rest => Some (Some event, set_ec_events rest s)
  | [] => if ec_closing s then Some (None, s) else None
  end.

(** One turn of the loop that [Start] runs, its first case. *)
Definition loop_turn (s : EventChannel) : outcome EventChannel :=
  match recv_event s with
  | None => Ret s
  | Some (ev, s) =>
      d ← distribute_loop ev (seq 0 (length (ec_listeners s))) (mkDist (ec_listeners s) (length (ec_listeners s)) (ec_chans s));
      Ret (set_ec_listeners (take (d_len d) (d_arr d)) (d_chans d) s)
  end.

Fixpoint loop_turns (n : nat) (s : EventChannel) : outcome EventChannel :=
  match n with
  | O => Ret s
  | S n => s' ← loop_turn s; loop_turns n s'
  end.

(** Its second case: [ec.closed] is closed, the deferred function runs and
    closes the listeners and [ec.closed]; closing that a second time
    panics. *)
Definition loop_return (s : EventChannel) : option (outcome EventChannel) :=
  if ec_closed s then Some (Panic "close of closed channel") else None.

Definition ec_Start (s : EventChannel) : EventChannel := set_ec_flags (ec_closed s) (ec_closing s) true s.

Definition ec_Close (s : EventChannel) : EventChannel :=
  if negb (ec_closing s) then set_ec_flags (ec_closed s) true (ec_running s) s else s.

(** [Wait] returns when [ec.closed] is closed. *)
Definition ec_Wait (s : EventChannel) : bool := ec_closed s.

(** What can happen to an event channel, one operation at a time. *)
Inductive ec_step : EventChannel → EventChannel → Prop :=
| EcSubscribe n s : ec_step s (ec_Subscribe n s).2
| EcPublish e s : ec_step s (ec_Publish e s)
| EcClose s : ec_step s (ec_Close s)
| EcStart s : ec_step s (ec_Start s)
| EcTurn s s' : ec_running s = true → loop_turn s = Ret s' → ec_step s s'
| EcReturn s s' : ec_running s = true → loop_return s = Some (Ret s') → ec_step s s'
| EcRead l c ev rest s : ec_chans s !! l = Some c → ch_buf c = ev :: rest →
    ec_step s (set_ec_listeners (ec_listeners s) (<[l := mkChan (ch_cap c) rest]> (ec_chans s)) s).

(** ** Sending to channels that have room *)

(** [c] can take [n] more events. *)
Definition room (n : nat) (l : nat) (cs : gmap nat Chan) : Prop :=
  ∃ c, cs !! l = Some c ∧ (length (ch_buf c) + n <= ch_cap c)%nat.

(** The next send to [l] does not go through. *)
Definition full (l : nat) (cs : gmap nat Chan) : Prop :=
  ∀ c, cs !! l = Some c → (ch_cap c <= length (ch_buf c))%nat.

Definition send_all (ev : option Event) (ls : list nat) (cs : gmap nat Chan) : gmap nat Chan :=
  foldl (fun cs l => alter (push ev) l cs) cs ls.

Lemma deliver_room ev i d l n :
  d_arr d !! i = Some l → room (S n) l (d_chans d) →
  deliver ev i d = Ret (mkDist (d_arr d) (d_len d) (alter (push ev) l (d_chans d))).
Proof.
  intros Hi (c & Hc & Hroom). unfold deliver, idx. rewrite Hi. cbn. rewrite Hc, decide_True by lia.
  do 2 f_equal. apply map_eq. intros k. destruct (decide (k = l)) as [->|].
  - by rewrite lookup_insert_eq, lookup_alter_eq, Hc.
  - by rewrite lookup_insert_ne, lookup_alter_ne.
Qed.

Lemma deliver_full ev i d l : d_arr d !! i = Some l → full l (d_chans d) → deliver ev i d = remove_listener i d.
Proof.
  intros Hi Hfull. unfold deliver, idx. rewrite Hi. cbn. destruct (d_chans d !! l) as [c|] eqn:Hc; [|done].
  rewrite decide_False; [done|]. specialize (Hfull c Hc). lia.
Qed.

(** How often [l] is served. *)
Definition occ (l : nat) (ls : list nat) : nat := length (filter (eq l) ls).

Lemma occ_cons l k ls : occ l (k :: ls) = if decide (l = k) then S (occ l ls) else occ l ls.
Proof. unfold occ. rewrite filter_cons. by case_decide. Qed.

Lemma occ_notin l ls : l ∉ ls → occ l ls = 0%nat.
Proof.
  induction ls as [|k ls IH]; [done|]. intros [Hne Hnot]%not_elem_of_cons. rewrite occ_cons, decide_False by done. by apply IH.
Qed.

Lemma occ_NoDup l ls : NoDup ls → l ∈ ls → occ l ls = 1%nat.
Proof.
  induction 1 as [|k ls Hk Hnd IH]; [by intros ?%elem_of_nil|]. rewrite occ_cons. case_decide as E.
  - subst k. intros _. by rewrite occ_notin.
  - intros [?|?]%elem_of_cons; [done|]. by apply IH.
Qed.

Lemma occ_app l ls ks : occ l (ls ++ ks) = (occ l ls + occ l ks)%nat.
Proof. unfold occ. by rewrite filter_app, length_app. Qed.

Lemma send_all_lookup ev ls l : ∀ cs,
  send_all ev ls cs !! l = (fun c => mkChan (ch_cap c) (ch_buf c ++ replicate (occ l ls) ev)) <$> cs !! l.
Proof.
  induction ls as [|k ls IH]; intros cs; cbn [send_all foldl].
  - cbn. destruct (cs !! l) as [[]|]; cbn; [by rewrite app_nil_r|done].
  - unfold send_all in IH. rewrite IH, occ_cons. case_decide as E.
    + subst k. rewrite lookup_alter_eq. destruct (cs !! l) as [[]|]; cbn; [by rewrite <- app_assoc|done].
    + by rewrite lookup_alter_ne.
Qed.

Lemma room_push n l k cs ev :
  room (if decide (k = l) then S n else n) k cs → room n k (alter (push ev) l cs).
Proof.
  intros (c & Hc & Hn). case_decide as E.
  - subst k. exists (push ev c). rewrite lookup_alter_eq, Hc. split; [done|]. cbn. rewrite length_app. cbn. lia.
  - exists c. by rewrite lookup_alter_ne.
Qed.

Lemma full_push l k cs ev : full l cs → room 1 k cs → full l (alter (push ev) k cs).
Proof.
  intros Hfull (c & Hc & Hroom) c'. destruct (decide (l = k)) as [->|]; [specialize (Hfull c Hc); lia|].
  rewrite lookup_alter_ne by done. apply Hfull.
Qed.

(** The iterations over [ixs], when every channel they read has room for the
    times it is read. *)
Lemma distribute_room ev ixs ls : ∀ d,
  Forall2 (fun i l => d_arr d !! i = Some l) ixs ls → (∀ l, l ∈ ls → room (occ l ls) l (d_chans d)) →
  distribute_loop ev ixs d = Ret (mkDist (d_arr d) (d_len d) (send_all ev ls (d_chans d))).
Proof.
  revert ls. induction ixs as [|i ixs IH]; intros ls d Hls Hroom; inversion Hls as [|? l ? ls' Hi Hrest]; subst; cbn [distribute_loop].
  - by destruct d.
  - rewrite (deliver_room ev i d l (occ l ls')) by (done || (specialize (Hroom l ltac:(by left)); by rewrite occ_cons, decide_True in Hroom)).
    cbn [mbind outcome_bind]. rewrite (IH ls'); [done|done|]. intros k Hk. cbn [d_chans]. apply room_push.
    specialize (Hroom k ltac:(by right)). by rewrite occ_cons in Hroom.
Qed.

Lemma seq_lookups (arr : list nat) p q ls :
  take q (drop p arr) = ls → length ls = q → Forall2 (fun i l => arr !! i = Some l) (seq p q) ls.
Proof.
  intros <- Hlen. apply Forall2_same_length_lookup_2; [by rewrite length_seq|].
  intros i x y Hx Hy. apply lookup_seq in Hx as [-> Hi]. rewrite lookup_take_lt in Hy by lia. by rewrite lookup_drop in Hy.
Qed.

(** ** Turns of the loop *)

(** The next [n] values that [<-ec.events] yields. *)
Definition next_events (n : nat) (s : EventChannel) : list (option Event) :=
  take n ((Some <$> ec_events s) ++ if ec_closing s then replicate n None else []).

Lemma turn_room ev s s1 :
  recv_event s = Some (ev, s1) → NoDup (ec_listeners s1) → (∀ l, l ∈ ec_listeners s1 → room 1 l (ec_chans s1)) →
  loop_turn s = Ret (set_ec_listeners (ec_listeners s1) (send_all ev (ec_listeners s1) (ec_chans s1)) s1).
Proof.
  intros Hrecv Hnd Hroom. unfold loop_turn. rewrite Hrecv.
  rewrite (distribute_room ev _ (ec_listeners s1)).
  - cbn. by rewrite take_ge by done.
  - apply seq_lookups; [|done]. cbn. by rewrite drop_0, take_ge.
  - intros l Hl. rewrite occ_NoDup by done. by apply Hroom.
Qed.

Definition all_get (ls : list nat) (evs : list (option Event)) (cs cs' : gmap nat Chan) : Prop :=
  ∀ l, cs' !! l = (fun c => if decide (l ∈ ls) then mkChan (ch_cap c) (ch_buf c ++ evs) else c) <$> cs !! l.

Lemma all_get_nil ls cs : all_get ls [] cs cs.
Proof. intros l. destruct (cs !! l) as [[]|]; [|done]. cbn. case_decide; [by rewrite app_nil_r|done]. Qed.

Lemma all_get_send ls ev cs : NoDup ls → all_get ls [ev] cs (send_all ev ls cs).
Proof.
  intros Hnd l. rewrite send_all_lookup. destruct (cs !! l) as [[cap buf]|]; [|done]. cbn. case_decide.
  - by rewrite occ_NoDup.
  - by rewrite occ_notin, app_nil_r.
Qed.

Lemma all_get_trans ls evs1 evs2 cs1 cs2 cs3 :
  all_get ls evs1 cs1 cs2 → all_get ls evs2 cs2 cs3 → all_get ls (evs1 ++ evs2) cs1 cs3.
Proof.
  intros H1 H2 l. rewrite H2, H1. destruct (cs1 !! l) as [[]|]; [|done]. cbn. destruct (decide (l ∈ ls)); [cbn; by rewrite app_assoc|done].
Qed.

Lemma all_get_room ls evs cs cs' l n :
  all_get ls evs cs cs' → room (length evs + n) l cs → room n l cs'.
Proof.
  intros Hget (c & Hc & Hn). rewrite (Nat.add_comm (length evs)) in Hn. eexists. rewrite Hget, Hc. split; [done|]. case_decide; cbn; [rewrite length_app|]; lia.
Qed.

Lemma turns_room n : ∀ s,
  length (next_events n s) = n → NoDup (ec_listeners s) → (∀ l, l ∈ ec_listeners s → room n l (ec_chans s)) →
  ∃ s', loop_turns n s = Ret s' ∧ ec_listeners s' = ec_listeners s ∧ ec_closing s' = ec_closing s ∧
    ec_events s' = drop n (ec_events s) ∧ all_get (ec_listeners s) (next_events n s) (ec_chans s) (ec_chans s').
Proof.
  induction n as [|n IH]; intros s Hn Hnd Hroom.
  - exists s. cbn. do 4 (split; [done|]). apply all_get_nil.
  - assert (∃ ev s1, recv_event s = Some (ev, s1) ∧ next_events (S n) s = ev :: next_events n s1 ∧
      ec_listeners s1 = ec_listeners s ∧ ec_chans s1 = ec_chans s ∧ ec_closing s1 = ec_closing s ∧
      drop n (ec_events s1) = drop (S n) (ec_events s)) as (ev & s1 & Hrecv & Hnext & Hls & Hcs & Hcl & Hev).
    { unfold recv_event, next_events in *. destruct (ec_events s) as [|e rest] eqn:Ee.
      - destruct (ec_closing s) eqn:Ec; [|cbn in Hn; lia]. exists None, s. rewrite Ee, Ec. cbn. rewrite drop_nil. done.
      - exists (Some e), (set_ec_events rest s). cbn. split; [done|]. split; [|done]. f_equal.
        rewrite !take_app. f_equal. destruct (ec_closing s); [|done].
        change (None :: replicate n None) with (replicate (S n) (@None Event)). rewrite !take_replicate, !length_fmap. f_equal. lia. }
    rewrite Hnext in Hn. rewrite <- Hls, <- Hcs in *. cbn [loop_turns].
    erewrite turn_room by (done || (intros l Hl; destruct (Hroom l Hl) as (c & Hc & ?); exists c; split; [done|lia])).
    cbn [mbind outcome_bind].
    pose proof (all_get_send (ec_listeners s1) ev (ec_chans s1) Hnd) as Hget1.
    set (s2 := set_ec_listeners _ _ s1). destruct (IH s2) as (s' & Hs' & Hls' & Hcl' & Hev' & Hget2).
    + cbn in Hn. unfold next_events in *. cbn. lia.
    + done.
    + intros l Hl. eapply all_get_room; [exact Hget1|]. by apply Hroom.
    + exists s'. rewrite Hs'. split; [done|]. split; [done|]. split; [by rewrite Hcl'|]. split; [by rewrite Hev'|].
      rewrite Hnext. apply (all_get_trans _ [ev] _ _ _ _ Hget1 Hget2).
Qed.

(** ** A listener that is full *)

Lemma take_seq_split k n : (k < n)%nat → seq 0 n = seq 0 k ++ k :: seq (S k) (n - S k).
Proof. intros Hk. replace n with (k + S (n - S k))%nat at 1 by lia. by rewrite seq_app. Qed.

Lemma distribute_app ev ixs1 ixs2 : ∀ d,
  distribute_loop ev (ixs1 ++ ixs2) d = (d' ← distribute_loop ev ixs1 d; distribute_loop ev ixs2 d').
Proof.
  induction ixs1 as [|i ixs1 IH]; intros d; [done|]. cbn. destruct (deliver ev i d); cbn; [apply IH|done..].
Qed.

Lemma occ_le_1 l ls : NoDup ls → (occ l ls <= 1)%nat.
Proof. intros Hnd. destruct (decide (l ∈ ls)); [by rewrite occ_NoDup|rewrite occ_notin by done; lia]. Qed.

Lemma room_le n m l cs : room n l cs → (m <= n)%nat → room m l cs.
Proof. intros (c & Hc & Hn) Hm. exists c. split; [done|lia]. Qed.

Lemma room_send_all n l ev ls cs : room (occ l ls + n) l cs → room n l (send_all ev ls cs).
Proof.
  intros (c & Hc & Hn). eexists. rewrite send_all_lookup, Hc. split; [done|]. cbn. rewrite length_app, length_replicate. lia.
Qed.

Lemma full_send_all l ev ls cs : l ∉ ls → full l cs → full l (send_all ev ls cs).
Proof.
  intros Hl Hfull c. rewrite send_all_lookup, occ_notin by done. destruct (cs !! l) as [c'|] eqn:Hc'; [|done].
  intros [= <-]. cbn. rewrite app_nil_r. by apply Hfull.
Qed.

Lemma drop_last (ls : list nat) x : last ls = Some x → drop (length ls - 1) ls = [x].
Proof.
  intros Hx. rewrite last_lookup in Hx. replace (Nat.pred (length ls)) with (length ls - 1)%nat in Hx by lia.
  pose proof (lookup_lt_Some _ _ _ Hx). rewrite (drop_S _ _ _ Hx), drop_ge; [done|lia].
Qed.

(** What the loop still reads after removing the element at [k]. *)
Lemma drop_shifted (ls : list nat) k x :
  (S k < length ls)%nat → drop (S k) (take k ls ++ drop (S k) ls ++ [x]) = drop (S (S k)) ls ++ [x].
Proof.
  intros Hk. replace (S k) with (length (take k ls) + 1)%nat at 1 by (rewrite length_take; lia).
  rewrite drop_app_add, drop_app_le, drop_drop by (rewrite length_drop; lia). by rewrite Nat.add_1_r.
Qed.

(** Removing a listener while ranging over the slice shifts the others under
    the loop: if exactly one listener is full, and it is not the last, then
    it is removed, the listener after it is passed over, and the last one is
    served once more than the slice lists it. *)
Theorem full_listener_shifts ev ls k l x cs :
  NoDup ls → ls !! k = Some l → last ls = Some x → (S k < length ls)%nat → full l cs →
  (∀ l', l' ∈ ls → l' ≠ l → room 2 l' cs) →
  distribute_loop ev (seq 0 (length ls)) (mkDist ls (length ls) cs) =
    Ret (mkDist (take k ls ++ drop (S k) ls ++ [x]) (length ls - 1) (send_all ev (take k ls ++ drop (S (S k)) ls ++ [x]) cs)).
Proof.
  intros Hnd Hl Hx Hk Hfull Hroom.
  assert (Hin : ∀ i l', ls !! i = Some l' → i ≠ k → room 2 l' cs ∧ l' ≠ l).
  { intros i l' Hi Hne. assert (l' ≠ l) by (intros ->; by apply Hne, (NoDup_lookup ls i k l)).
    split; [|done]. apply Hroom; [by apply (list_elem_of_lookup_2 _ i)|done]. }
  assert (Htake : ∀ l', l' ∈ take k ls → room 2 l' cs ∧ l' ≠ l).
  { intros l' (i & Hi & ?)%elem_of_take. apply (Hin i); [done|lia]. }
  assert (Hdrop : ∀ l', l' ∈ drop (S k) ls → room 2 l' cs ∧ l' ≠ l).
  { intros l' [i Hi]%list_elem_of_lookup_1. rewrite lookup_drop in Hi. apply (Hin _ _ Hi). lia. }
  assert (Hocc : ∀ l', (occ l' (take k ls) + occ l' (drop (S (S k)) ls) <= 1)%nat).
  { intros l'. pose proof (occ_le_1 l' ls Hnd) as H.
    assert (E : occ l' ls = (occ l' (take k ls) + (occ l' (take 2 (drop k ls)) + occ l' (drop 2 (drop k ls))))%nat)
      by (by rewrite <- !occ_app, !take_drop).
    rewrite drop_drop in E. replace (k + 2)%nat with (S (S k)) in E by lia. lia. }
  assert (Hx' : x ∈ drop (S k) ls).
  { rewrite <- (take_drop (length ls - 1 - S k) (drop (S k) ls)), drop_drop.
    replace (S k + (length ls - 1 - S k))%nat with (length ls - 1)%nat by lia. rewrite (drop_last _ _ Hx).
    apply elem_of_app. right. by left. }
  rewrite (take_seq_split k) by lia. rewrite distribute_app, (distribute_room ev _ (take k ls)); cbn [d_arr d_len d_chans].
  2:{ apply seq_lookups; [by rewrite drop_0|]. rewrite length_take. lia. }
  2:{ intros l' Hl'. apply (room_le 2); [by apply Htake|specialize (Hocc l'); lia]. }
  cbn [mbind outcome_bind distribute_loop].
  rewrite (deliver_full ev k _ l) by (done || (apply full_send_all; [by intros [_ ?]%Htake|done])).
  unfold remove_listener. rewrite decide_True by (cbn; lia). cbn [mbind outcome_bind d_arr d_len d_chans].
  rewrite (take_ge ls (length ls)) by lia. rewrite (drop_last _ _ Hx).
  rewrite (distribute_room ev _ (drop (S (S k)) ls ++ [x])); cbn [d_arr d_len d_chans].
  - unfold send_all. by rewrite <- foldl_app.
  - apply seq_lookups; [|rewrite length_app, length_drop; cbn; lia].
    rewrite drop_shifted by done. apply take_ge. rewrite length_app, length_drop. cbn. lia.
  - intros l' Hl'. apply room_send_all. apply (room_le 2).
    + apply elem_of_app in Hl' as [Hl'| ->%list_elem_of_singleton]; apply Hdrop; [|done].
      rewrite <- (take_drop 1 (drop (S k) ls)), drop_drop, Nat.add_1_r. apply elem_of_app. by right.
    + rewrite occ_app. specialize (Hocc l'). pose proof (occ_le_1 l' [x] (NoDup_singleton _)). lia.
Qed.

(** ** Two listeners that are full *)

(** The loop over [ls] on its way to a panic, about to read index [i]: the
    last listener [x] is full and still at the end of the array, and either a
    listener has been removed, or a full one is still to come before [x]. *)
Definition doomed (ls : list nat) (x : nat) (i : nat) (d : Dist) : Prop :=
  length (d_arr d) = length ls ∧ (d_len d <= length ls)%nat ∧ d_arr d !! (length ls - 1)%nat = Some x ∧ full x (d_chans d) ∧
  ((d_len d < length ls)%nat ∨
   d_arr d = ls ∧ ∃ j l, (i <= j < length ls - 1)%nat ∧ ls !! j = Some l ∧ full l (d_chans d)).

Lemma full_or_room l cs : full l cs ∨ room 1 l cs.
Proof.
  destruct (cs !! l) as [c|] eqn:Hc; [|left; intros ?; congruence].
  destruct (decide (length (ch_buf c) < ch_cap c)%nat); [right; exists c; split; [done|lia]|left].
  intros c' Hc'. rewrite Hc in Hc'. injection Hc' as <-. lia.
Qed.

Lemma deliver_doomed ev ls x i d :
  doomed ls x i d → (i < length ls)%nat →
  deliver ev i d = Panic "slice bounds out of range" ∨ ∃ d', deliver ev i d = Ret d' ∧ doomed ls x (S i) d'.
Proof.
  intros (Hlen & Hle & Hx & Hfx & Hor) Hi. destruct (lookup_lt_is_Some_2 (d_arr d) i) as [l Hl]; [lia|].
  destruct (full_or_room l (d_chans d)) as [Hf|Hr].
  - rewrite (deliver_full ev i d l) by done. unfold remove_listener. case_decide as Hlt; [right|by left].
    eexists. split; [done|]. repeat split; cbn; [rewrite !length_app, length_take, !length_drop, length_take; lia|lia| |done|left; lia].
    rewrite app_assoc, lookup_app_r by (rewrite !length_app, length_take, length_drop, length_take; lia).
    rewrite lookup_drop, length_app, length_take, length_drop, length_take. rewrite <- Hx. f_equal. lia.
  - right. rewrite (deliver_room ev i d l 0) by done. eexists. split; [done|].
    repeat split; cbn; [done|done|done|by apply full_push|].
    destruct Hor as [?|(Harr & j & lj & Hj & Hlj & Hfj)]; [by left|right]. split; [done|]. exists j, lj.
    split; [|split; [done|by apply full_push]]. enough (j ≠ i) by lia. intros ->. rewrite Harr, Hlj in Hl. injection Hl as ->.
    destruct Hr as (c & Hc & ?). specialize (Hfj c Hc). lia.
Qed.

Lemma distribute_doomed ev ls x k : ∀ i d,
  (i + S k = length ls)%nat → doomed ls x i d →
  distribute_loop ev (seq i (S k)) d = Panic "slice bounds out of range".
Proof.
  induction k as [|k IH]; intros i d Hik Hd.
  - destruct Hd as (_ & _ & Hx & Hfx & Hor). cbn. rewrite (deliver_full ev i d x); [|by replace i with (length ls - 1)%nat by lia|done].
    unfold remove_listener. rewrite decide_False; [done|]. destruct Hor as [?|(_ & j & _ & Hj & _)]; lia.
  - change (seq i (S (S k))) with (i :: seq (S i) (S k)). cbn [distribute_loop].
    destruct (deliver_doomed ev ls x i d) as [->|(d' & -> & Hd')]; [done|lia|done|].
    cbn [mbind outcome_bind]. apply IH; [lia|done].
Qed.

Lemma two_full_panics ev ls j l x cs :
  ls !! j = Some l → (j < length ls - 1)%nat → last ls = Some x → full l cs → full x cs →
  distribute_loop ev (seq 0 (length ls)) (mkDist ls (length ls) cs) = Panic "slice bounds out of range".
Proof.
  intros Hl Hj Hx Hfl Hfx. replace (length ls) with (S (length ls - 1)) at 1 by lia. apply (distribute_doomed ev ls x); [lia|].
  split; [done|]. split; [done|]. split; [|split; [done|right]].
  - cbn. rewrite <- Hx, last_lookup. f_equal. lia.
  - split; [done|]. exists j, l. repeat split; [lia|lia|done|done].
Qed.

(** Two slow listeners crash the process: when the last listener and an
    earlier one are full, the next event makes the loop panic. It is enough
    to close the channel: the loop then reads nil from the closed queue
    forever and sends it to every listener, so two or more listeners of equal
    room that nobody reads from any more are served exactly as many nils as
    fit, and the next turn panics. *)
Theorem full_listeners_crash s n :
  ec_closing s = true → ec_events s = [] → NoDup (ec_listeners s) → (2 <= length (ec_listeners s))%nat →
  (∀ l, l ∈ ec_listeners s → ∃ c, ec_chans s !! l = Some c ∧ (length (ch_buf c) + n = ch_cap c)%nat) →
  (∃ s', loop_turns n s = Ret s' ∧ all_get (ec_listeners s) (replicate n None) (ec_chans s) (ec_chans s') ∧
     loop_turn s' = Panic "slice bounds out of range") ∧
  ∀ ev ls j l x cs, ls !! j = Some l → (j < length ls - 1)%nat → last ls = Some x → full l cs → full x cs →
    distribute_loop ev (seq 0 (length ls)) (mkDist ls (length ls) cs) = Panic "slice bounds out of range".
Proof.
  intros Hcl Hev Hnd H2 Hroom. split; [|exact two_full_panics].
  assert (Hnext : next_events n s = replicate n None) by (unfold next_events; rewrite Hev, Hcl; cbn; apply take_ge; by rewrite length_replicate).
  destruct (turns_room n s) as (s' & Hs' & Hls & Hcl' & Hev' & Hget).
  { by rewrite Hnext, length_replicate. }
  { done. }
  { intros l (c & Hc & ?)%Hroom. exists c. split; [done|lia]. }
  rewrite Hnext in Hget. exists s'. split; [done|]. split; [done|].
  assert (Hfull : ∀ l, l ∈ ec_listeners s → full l (ec_chans s')).
  { intros l Hl c. destruct (Hroom l Hl) as (c0 & Hc0 & ?). rewrite Hget, Hc0. cbn. rewrite decide_True by done.
    intros [= <-]. cbn. rewrite length_app, length_replicate. lia. }
  assert (Hrecv : recv_event s' = Some (None, s')).
  { unfold recv_event. rewrite Hev', Hev, Hcl', Hcl. by rewrite drop_nil. }
  unfold loop_turn. rewrite Hrecv, Hls.
  destruct (lookup_lt_is_Some_2 (ec_listeners s) 0) as [l Hl]; [lia|].
  destruct (lookup_lt_is_Some_2 (ec_listeners s) (length (ec_listeners s) - 1)) as [x Hx]; [lia|].
  rewrite (two_full_panics None (ec_listeners s) 0 l x); [done|done|lia| |..].
  - rewrite last_lookup, <- Hx. f_equal. lia.
  - by apply Hfull, (list_elem_of_lookup_2 _ 0).
  - by eapply Hfull, list_elem_of_lookup_2.
Qed.

(** ** Closing *)

(** [Wait] waits forever: whatever is done to an event channel, [Close]
    included, the channel [closed] that [Wait] receives from is never closed;
    only the loop closes it, when it leaves, and it leaves only once it is
    closed. The loop itself can always take another turn after [Close]. *)
Theorem wait_never_returns n s :
  rtc ec_step (NewEventChannel n) s →
  ec_Wait s = false ∧ loop_return s = None ∧ (ec_closing s = true → recv_event s ≠ None).
Proof.
  intros Hreach. assert (Hwait : ec_closed s = false).
  { remember (NewEventChannel n) as s0 eqn:E0. assert (H0 : ec_closed s0 = false) by (by subst). clear E0.
    induction Hreach as [s|s1 s2 s3 Hstep _ IH]; [done|]. apply IH. clear IH.
    destruct Hstep as [m s|e s|s|s|s s' _ Hturn|s s' _ Hret|l c ev rest s _ _]; cbn in *; try done.
    - unfold ec_Publish. destruct (ec_closing s); [done|]. by case_decide.
    - unfold ec_Close. by destruct (ec_closing s).
    - unfold loop_turn in Hturn. destruct (recv_event s) as [[ev s1]|] eqn:Hr; [|by injection Hturn as <-].
      apply outcome_bind_Ret in Hturn as (d & _ & [= <-]). cbn. unfold recv_event in Hr.
      destruct (ec_events s); [destruct (ec_closing s); [|done]|]; by injection Hr as <- <-.
    - unfold loop_return in Hret. by rewrite H0 in Hret. }
  unfold ec_Wait, loop_return, recv_event. rewrite Hwait. do 2 (split; [done|]). intros ->. by destruct (ec_events s).
Qed.

(** ** Reachable states *)

(** The slice of listeners has no repetitions, and its channels exist. *)
Definition listeners_ok (ls : list nat) (cs : gmap nat Chan) : Prop := NoDup ls ∧ ∀ l, l ∈ ls → is_Some (cs !! l).

Lemma remove_listener_ok i d d' :
  (d_len d <= length (d_arr d))%nat → remove_listener i d = Ret d' →
  (d_len d' <= length (d_arr d'))%nat ∧ take (d_len d') (d_arr d') = delete i (take (d_len d) (d_arr d)) ∧ d_chans d' = d_chans d.
Proof.
  intros Hlen. unfold remove_listener. case_decide as Hi; [|done]. intros [= <-]. cbn.
  assert (Hl : length (take i (d_arr d) ++ drop (S i) (take (d_len d) (d_arr d))) = (d_len d - 1)%nat).
  { rewrite length_app, length_take, length_drop, length_take. lia. }
  rewrite app_assoc. split; [rewrite length_app, Hl; lia|]. split; [|done].
  rewrite <- Hl, take_app_length, delete_take_drop. f_equal. rewrite take_take. f_equal. lia.
Qed.

Lemma listeners_ok_delete i ls cs : listeners_ok ls cs → listeners_ok (delete i ls) cs.
Proof.
  intros [Hnd Hin]. pose proof (sublist_delete ls i) as Hsub. split; [by eapply sublist_NoDup|].
  intros l Hl. apply Hin. by eapply sublist_subseteq.
Qed.

Lemma distribute_ok ev ixs : ∀ d d',
  (d_len d <= length (d_arr d))%nat → listeners_ok (take (d_len d) (d_arr d)) (d_chans d) → distribute_loop ev ixs d = Ret d' →
  listeners_ok (take (d_len d') (d_arr d')) (d_chans d') ∧ dom (d_chans d') = dom (d_chans d).
Proof.
  induction ixs as [|i ixs IH]; intros d d' Hlen Hok; [by intros [= <-]|].
  intros (d1 & Hd1 & Hrest)%outcome_bind_Ret. unfold deliver, idx in Hd1.
  destruct (d_arr d !! i) as [l|] eqn:Hl; [|done]. cbn in Hd1.
  assert (Hremove : remove_listener i d = Ret d1 → listeners_ok (take (d_len d') (d_arr d')) (d_chans d') ∧ dom (d_chans d') = dom (d_chans d)).
  { intros (Hlen1 & Htake & Hcs)%remove_listener_ok; [|done]. rewrite <- Hcs. apply (IH d1); [done| |done].
    rewrite Htake, Hcs. by apply listeners_ok_delete. }
  destruct (d_chans d !! l) as [c|] eqn:Hc; [|by apply Hremove]. case_decide; [|by apply Hremove].
  injection Hd1 as <-. destruct (IH (mkDist (d_arr d) (d_len d) (<[l := push ev c]> (d_chans d))) d') as [Hok' Hdom]; [exact Hlen| |exact Hrest|].
  - cbn. split; [apply Hok|]. intros k Hk. apply lookup_insert_is_Some'. right. by apply Hok.
  - split; [done|]. rewrite Hdom. cbn. by rewrite dom_insert_lookup_L.
Qed.

Lemma reachable_ok n s : rtc ec_step (NewEventChannel n) s → listeners_ok (ec_listeners s) (ec_chans s).
Proof.
  remember (NewEventChannel n) as s0 eqn:E0. intros Hreach.
  assert (H0 : listeners_ok (ec_listeners s0) (ec_chans s0)) by (subst; split; [constructor|by intros ? ?%elem_of_nil]). clear E0.
  induction Hreach as [s|s1 s2 s3 Hstep _ IH]; [done|]. apply IH. clear IH. destruct H0 as [Hnd Hin].
  destruct Hstep as [m s|e s|s|s|s s' _ Hturn|s s' _ Hret|l c ev rest s Hc _].
  - cbn. pose proof (is_fresh (dom (ec_chans s))) as Hf. split.
    + apply NoDup_app. split; [done|]. split; [|apply NoDup_singleton].
      intros l Hl ->%list_elem_of_singleton. apply Hf, elem_of_dom. by apply Hin.
    + intros l [Hl| ->%list_elem_of_singleton]%elem_of_app; apply lookup_insert_is_Some'; [right; by apply Hin|by left].
  - unfold ec_Publish. destruct (ec_closing s); [done|]. by case_decide.
  - unfold ec_Close. by destruct (ec_closing s).
  - done.
  - unfold loop_turn in Hturn. destruct (recv_event s) as [[ev s1]|] eqn:Hr; [|by injection Hturn as <-].
    assert (ec_listeners s1 = ec_listeners s ∧ ec_chans s1 = ec_chans s) as [Els Ecs].
    { unfold recv_event in Hr. destruct (ec_events s); [destruct (ec_closing s); [|done]|]; by injection Hr as <- <-. }
    apply outcome_bind_Ret in Hturn as (d & Hd & [= <-]). cbn. apply distribute_ok in Hd; [apply Hd|done|].
    cbn. rewrite take_ge, Els, Ecs by done. done.
  - unfold loop_return in Hret. by destruct (ec_closed s).
  - cbn. split; [done|]. intros k Hk. apply lookup_insert_is_Some'. right. by apply Hin.
Qed.

(** ** Every listener, every event *)

(** While nobody falls behind, every listener gets every event: in every
    state an event channel can be in, if each listener's channel has room for
    the events that are queued, that many turns of the loop empty the queue,
    keep all the listeners, and append the queued events, in the order in
    which they were published, to each listener's channel and to no other. *)
Theorem events_distributed n s :
  rtc ec_step (NewEventChannel n) s → (∀ l, l ∈ ec_listeners s → room (length (ec_events s)) l (ec_chans s)) →
  ∃ s', loop_turns (length (ec_events s)) s = Ret s' ∧ ec_events s' = [] ∧ ec_listeners s' = ec_listeners s ∧
    all_get (ec_listeners s) (Some <$> ec_events s) (ec_chans s) (ec_chans s').
Proof.
  intros [Hnd _]%reachable_ok Hroom.
  assert (Hnext : next_events (length (ec_events s)) s = Some <$> ec_events s).
  { unfold next_events. by rewrite take_app_le, take_ge by (by rewrite length_fmap). }
  destruct (turns_room (length (ec_events s)) s) as (s' & Hs' & Hls & _ & Hev & Hget); [by rewrite Hnext, length_fmap|done|done|].
  rewrite Hnext in Hget. rewrite drop_all in Hev. by exists s'.
Qed.

(** ** Witnesses *)

Definition two_listeners : EventChannel :=
  ec_Publish (NewLeaveEvent [] [] []) (ec_Publish (NewJoinEvent [] [] []) (ec_Subscribe 3 (ec_Subscribe 2 (NewEventChannel 9)).2).2).

Lemma two_listeners_reachable : rtc ec_step (NewEventChannel 9) two_listeners.
Proof.
  eapply rtc_l; [apply EcSubscribe|]. eapply rtc_l; [apply EcSubscribe|]. eapply rtc_l; [apply EcPublish|].
  eapply rtc_l; [apply EcPublish|]. apply rtc_refl.
Defined.

Lemma events_distributed_witness :
  ∃ s', loop_turns 2 two_listeners = Ret s' ∧ ec_events s' = [].
Proof.
  destruct (events_distributed 9 two_listeners) as (s' & H & Hev & _).
  - exact two_listeners_reachable.
  - intros l Hl. change (l ∈ [0; 1]%nat) in Hl. apply elem_of_cons in Hl as [->|Hl].
    + exists (mkChan 2 []). split; [vm_compute; reflexivity|vm_compute; lia].
    + apply list_elem_of_singleton in Hl as ->. exists (mkChan 3 []). split; [vm_compute; reflexivity|vm_compute; lia].
  - by exists s'.
Defined.

Lemma full_listener_shifts_witness :
  let cs := list_to_map [(0, mkChan 1 [None]); (1, mkChan 2 []); (2, mkChan 2 [])]%nat : gmap nat Chan in
  distribute_loop None (seq 0 3) (mkDist [0; 1; 2]%nat 3 cs) = Ret (mkDist [1; 2; 2]%nat 2 (send_all None [2; 2]%nat cs)).
Proof.
  intros cs. apply (full_listener_shifts None [0; 1; 2]%nat 0 0 2 cs); [|done|done|cbn; lia|..].
  - by apply (bool_decide_unpack _), I.
  - intros c [= <-]. done.
  - intros l Hl Hne. apply elem_of_cons in Hl as [->|Hl]; [done|].
    apply elem_of_cons in Hl as [->|Hl]; [by exists (mkChan 2 [])|]. apply list_elem_of_singleton in Hl as ->. by exists (mkChan 2 []).
Defined.

Lemma full_listeners_crash_witness :
  ∃ s', loop_turns 1 (ec_Close (ec_Subscribe 1 (ec_Subscribe 1 (NewEventChannel 9)).2).2) = Ret s' ∧
    loop_turn s' = Panic "slice bounds out of range".
Proof.
  set (s := ec_Close _). destruct (full_listeners_crash s 1) as [(s' & H & _ & Hp) _].
  - done.
  - done.
  - change (NoDup [0; 1]%nat). by apply (bool_decide_unpack _), I.
  - change (2 <= length [0; 1]%nat)%nat. cbn. lia.
  - intros l Hl. change (l ∈ [0; 1]%nat) in Hl. exists (mkChan 1 []). split; [|done].
    apply elem_of_cons in Hl as [->|Hl]; [vm_compute; reflexivity|]. apply list_elem_of_singleton in Hl as ->. vm_compute. reflexivity.
  - by exists s'.
Defined.

Lemma wait_never_returns_witness : ec_Wait (ec_Close two_listeners) = false.
Proof.
  apply (wait_never_returns 9). eapply rtc_r; [exact two_listeners_reachable|apply EcClose].
Defined.
