(* ===== verification/ZyrePeers.v ===== *)
(** * ZyrePeers: peers and groups of Zyre (src/zyre/peer.go, group.go, discovery.go)

    Peers are shared by pointer between the peer manager, the groups and the
    loops, so they live in a heap, and the managers' maps hold addresses. The
    commands of a manager are handled one at a time by its loop; a command of
    a group is answered before its sender goes on, so it is a call. *)

From Stdlib Require Import Strings.Byte ZArith Lia.
From stdpp Require Import base strings pretty numbers gmap list.
From S2P Require Import Prelude Reader Mdp ZyreMessage ZyreEvents.

#[local] Open Scope Z_scope.
#[local] Set Default Goal Selector "!".

(** ** Peers *)

(** [zp_closed]: the context is cancelled and the channel [outgoing] is
    closed. *)
Record ZPeer : Type := mkZPeer {
  zp_UUID : bytes;
  zp_Name : bytes;
  zp_Endpoint : bytes;
  zp_Headers : Attributes;
  zp_Groups : gset bytes;
  zp_LastSeen : Z;
  zp_Connected : bool;
  zp_Sequence : Z;
  zp_outgoing : list zreMessage;
  zp_closed : bool }.

Definition set_zp_Groups (v : gset bytes) (p : ZPeer) : ZPeer :=
  mkZPeer (zp_UUID p) (zp_Name p) (zp_Endpoint p) (zp_Headers p) v (zp_LastSeen p) (zp_Connected p) (zp_Sequence p) (zp_outgoing p) (zp_closed p).
Definition set_zp_LastSeen (v : Z) (p : ZPeer) : ZPeer :=
  mkZPeer (zp_UUID p) (zp_Name p) (zp_Endpoint p) (zp_Headers p) (zp_Groups p) v (zp_Connected p) (zp_Sequence p) (zp_outgoing p) (zp_closed p).
Definition set_zp_Sequence (v : Z) (p : ZPeer) : ZPeer :=
  mkZPeer (zp_UUID p) (zp_Name p) (zp_Endpoint p) (zp_Headers p) (zp_Groups p) (zp_LastSeen p) (zp_Connected p) v (zp_outgoing p) (zp_closed p).
Definition set_zp_outgoing (v : list zreMessage) (p : ZPeer) : ZPeer :=
  mkZPeer (zp_UUID p) (zp_Name p) (zp_Endpoint p) (zp_Headers p) (zp_Groups p) (zp_LastSeen p) (zp_Connected p) (zp_Sequence p) v (zp_closed p).
Definition set_zp_status (connected closed : bool) (p : ZPeer) : ZPeer :=
  mkZPeer (zp_UUID p) (zp_Name p) (zp_Endpoint p) (zp_Headers p) (zp_Groups p) (zp_LastSeen p) connected (zp_Sequence p) (zp_outgoing p) closed.

Definition NewPeer (now : Z) (uuid endpoint : bytes) : ZPeer := mkZPeer uuid [] endpoint ∅ ∅ now false 0 [] false.

(** Dialling the endpoint is the DEALER socket's; [dial] says whether it
    succeeds. *)
Definition Peer_Start (dial : bytes → bool) (p : ZPeer) : outcome ZPeer :=
  if zp_Connected p then Fail (Errorf "peer already started")
  else if dial (zp_Endpoint p) then Ret (set_zp_status true (zp_closed p) p)
  else Fail (Errorf "failed to connect to peer").

Definition Peer_Stop (p : ZPeer) : ZPeer := if zp_Connected p then set_zp_status false true p else p.

(** The [select] of [Send]: room in [outgoing], a cancelled context, or
    neither. A closed channel is ready, and sending on it panics; when both
    cases are ready, [choice] is the one that is taken. *)
Definition Peer_Send (choice : bool) (msg : zreMessage) : M ZPeer unit := fun p =>
  if zp_closed p then
    if choice then (Panic "send on closed channel", p) else (Fail (Errorf "context canceled"), p)
  else if decide (length (zp_outgoing p) < 100)%nat then (Ret tt, set_zp_outgoing (zp_outgoing p ++ [msg]) p)
  else (Fail (Errorf "peer message queue full"), p).

Definition Peer_UpdateLastSeen (now : Z) (p : ZPeer) : ZPeer := set_zp_LastSeen now p.
Definition Peer_IsExpired (now timeout : Z) (p : ZPeer) : bool := bool_decide (timeout < now - zp_LastSeen p).
Definition Peer_JoinGroup (group : bytes) (p : ZPeer) : ZPeer := set_zp_Groups ({[group]} ∪ zp_Groups p) p.
Definition Peer_LeaveGroup (group : bytes) (p : ZPeer) : ZPeer := set_zp_Groups (zp_Groups p ∖ {[group]}) p.
Definition Peer_InGroup (group : bytes) (p : ZPeer) : bool := bool_decide (group ∈ zp_Groups p).
Definition Peer_nextSequence (p : ZPeer) : Z * ZPeer :=
  let n := wrapu 16 (zp_Sequence p + 1) in (n, set_zp_Sequence n p).

(** ** Groups *)

Record ZGroup : Type := mkZGroup {
  gp_name : bytes;
  gp_members : gmap bytes nat;
  gp_messages : list zreMessage }.

Definition set_gp_members (v : gmap bytes nat) (g : ZGroup) : ZGroup := mkZGroup (gp_name g) v (gp_messages g).
Definition set_gp_messages (v : list zreMessage) (g : ZGroup) : ZGroup := mkZGroup (gp_name g) (gp_members g) v.

Definition NewGroup (name : bytes) : ZGroup := mkZGroup name ∅ [].
Definition Group_MemberCount (g : ZGroup) : nat := size (gp_members g).
Definition Group_HasMember (peerUUID : bytes) (g : ZGroup) : bool := bool_decide (is_Some (gp_members g !! peerUUID)).

Definition Group_SendMessage (msg : zreMessage) : M ZGroup unit := fun g =>
  if decide (length (gp_messages g) < 1000)%nat then (Ret tt, set_gp_messages (gp_messages g ++ [msg]) g)
  else (Fail (Errorf "group message queue full"), g).

(** ** What the managers share *)

Record ZWorld : Type := mkZWorld {
  zw_heap : gmap nat ZPeer;
  zw_peers : gmap bytes nat;
  zw_groups : gmap bytes ZGroup;
  zw_events : EventChannel;
  zw_expiration : Z }.

Definition set_zw_heap (v : gmap nat ZPeer) (w : ZWorld) : ZWorld := mkZWorld v (zw_peers w) (zw_groups w) (zw_events w) (zw_expiration w).
Definition set_zw_peers (v : gmap bytes nat) (w : ZWorld) : ZWorld := mkZWorld (zw_heap w) v (zw_groups w) (zw_events w) (zw_expiration w).
Definition set_zw_groups (v : gmap bytes ZGroup) (w : ZWorld) : ZWorld := mkZWorld (zw_heap w) (zw_peers w) v (zw_events w) (zw_expiration w).
Definition publish_event (event : Event) (w : ZWorld) : ZWorld :=
  mkZWorld (zw_heap w) (zw_peers w) (zw_groups w) (ec_Publish event (zw_events w)) (zw_expiration w).

(** A method call on the peer at [a]. *)
Definition upd_peer (f : ZPeer → ZPeer) (a : nat) (w : ZWorld) : ZWorld := set_zw_heap (alter f a (zw_heap w)) w.

(** ** The peer manager *)

Definition endpoint_of (d : Discovery) : bytes := gs "tcp://" ++ ds_Addr d ++ gs ":" ++ gs (pretty (ds_Port d)).

(** [peer.Stop()], [delete(pm.peers, uuid)] and the EXIT event. *)
Definition drop_peer (uuidStr : bytes) (a : nat) (w : ZWorld) : ZWorld :=
  match zw_heap w !! a with
  | Some peer =>
      let w := upd_peer Peer_Stop a w in
      let w := set_zw_peers (delete uuidStr (zw_peers w)) w in
      publish_event (NewExitEvent uuidStr (zp_Name peer) (zp_Endpoint peer)) w
  | None => w
  end.

Definition handleDiscovery (dial : bytes → bool) (now : Z) (d : Discovery) (w : ZWorld) : ZWorld :=
  let uuidStr := fmt_x (ds_UUID d) in
  if decide (ds_Port d = 0) then
    match zw_peers w !! uuidStr with
    | Some a => drop_peer uuidStr a w
    | None => w
    end
  else
    match zw_peers w !! uuidStr with
    | Some a => upd_peer (Peer_UpdateLastSeen now) a w
    | None =>
        match Peer_Start dial (NewPeer now (ds_UUID d) (endpoint_of d)) with
        | Ret peer =>
            let a := fresh (dom (zw_heap w)) in
            let w := set_zw_heap (<[a := peer]> (zw_heap w)) w in
            let w := set_zw_peers (<[uuidStr := a]> (zw_peers w)) w in
            publish_event (NewEnterEvent uuidStr (zp_Name peer) (zp_Endpoint peer) (zp_Headers peer)) w
        | _ => w
        end
    end.

(** One peer of [checkExpiredPeers]; [range] lists the map as it was, and the
    loop deletes only the entry it is at. *)
Definition check_expired (now : Z) (w : ZWorld) (e : bytes * nat) : ZWorld :=
  match zw_heap w !! e.2 with
  | Some peer => if Peer_IsExpired now (zw_expiration w) peer then drop_peer e.1 e.2 w else w
  | None => w
  end.

Definition checkExpiredPeers (range : gmap bytes nat → list (bytes * nat)) (now : Z) (w : ZWorld) : ZWorld :=
  foldl (check_expired now) w (range (zw_peers w)).

(** ** The group manager *)

(** [add_member] and [remove_member] of a group's loop; the group is the one
    the manager's map holds under [name]. *)
Definition add_member (name : bytes) (g : ZGroup) (a : nat) (w : ZWorld) : ZWorld :=
  match zw_heap w !! a with
  | Some peer =>
      let g := set_gp_members (<[fmt_x (zp_UUID peer) := a]> (gp_members g)) g in
      upd_peer (Peer_JoinGroup (gp_name g)) a (set_zw_groups (<[name := g]> (zw_groups w)) w)
  | None => w
  end.

Definition remove_member (name : bytes) (g : ZGroup) (peerUUID : bytes) (w : ZWorld) : ZWorld :=
  match gp_members g !! peerUUID with
  | Some a =>
      let g := set_gp_members (delete peerUUID (gp_members g)) g in
      upd_peer (Peer_LeaveGroup (gp_name g)) a (set_zw_groups (<[name := g]> (zw_groups w)) w)
  | None => w
  end.

(** [group, exists := gm.groups[name]; if !exists { ... }] *)
Definition get_or_new (name : bytes) (w : ZWorld) : ZGroup * ZWorld :=
  match zw_groups w !! name with
  | Some g => (g, w)
  | None => (NewGroup name, set_zw_groups (<[name := NewGroup name]> (zw_groups w)) w)
  end.

Inductive group_cmd : Type :=
| GetGroup (name : bytes)
| CreateGroup (name : bytes)
| DeleteGroup (name : bytes)
| ListGroups
| JoinGroup (groupName : bytes) (peer : nat)
| LeaveGroup (groupName peerUUID : bytes)
| SendToGroup (groupName : bytes) (message : zreMessage).

Inductive group_reply : Type :=
| RGroup (name : bytes)
| RGroups (groups : gmap bytes (gmap bytes nat))
| ROk
| RErr (e : error).

Definition group_not_found : group_reply := RErr (Errorf "group not found").

Definition handle_join (groupName : bytes) (a : nat) (w : ZWorld) : group_reply * ZWorld :=
  match zw_heap w !! a with
  | Some peer =>
      let '(group, w) := get_or_new groupName w in
      let w := add_member groupName group a w in
      (ROk, publish_event (NewJoinEvent (fmt_x (zp_UUID peer)) (zp_Name peer) groupName) w)
  | None => (ROk, w)
  end.

Definition handle_leave (groupName peerUUID : bytes) (w : ZWorld) : group_reply * ZWorld :=
  match zw_groups w !! groupName with
  | Some group =>
      let w := remove_member groupName group peerUUID w in
      let w := publish_event (NewLeaveEvent peerUUID [] groupName) w in
      (ROk, if decide (Group_MemberCount <$> zw_groups w !! groupName = Some 0%nat)
            then set_zw_groups (delete groupName (zw_groups w)) w else w)
  | None => (group_not_found, w)
  end.

Definition handle_send (groupName : bytes) (message : zreMessage) (w : ZWorld) : group_reply * ZWorld :=
  match zw_groups w !! groupName with
  | Some group =>
      let '(o, group) := Group_SendMessage message group in
      (match o with Ret _ => ROk | Fail e => RErr e | Panic p => RErr (Errorf p) end,
       set_zw_groups (<[groupName := group]> (zw_groups w)) w)
  | None => (group_not_found, w)
  end.

Definition group_handleCommand (cmd : group_cmd) (w : ZWorld) : group_reply * ZWorld :=
  match cmd with
  | GetGroup name => let '(g, w) := get_or_new name w in (RGroup (gp_name g), w)
  | CreateGroup name => let '(g, w) := get_or_new name w in (RGroup (gp_name g), w)
  | DeleteGroup name =>
      match zw_groups w !! name with
      | Some _ => (ROk, set_zw_groups (delete name (zw_groups w)) w)
      | None => (group_not_found, w)
      end
  | ListGroups => (RGroups (gp_members <$> zw_groups w), w)
  | JoinGroup groupName peer => handle_join groupName peer w
  | LeaveGroup groupName peerUUID => handle_leave groupName peerUUID w
  | SendToGroup groupName message => handle_send groupName message w
  end.

(** [CleanupExpiredPeers]: the ranges over the groups and over the expired
    peers. *)
Definition cleanup_group (expired : list bytes) (w : ZWorld) (name : bytes) : ZWorld :=
  foldl (fun w peerUUID =>
    match zw_groups w !! name with Some g => remove_member name g peerUUID w | None => w end) w expired.

Definition CleanupExpiredPeers (groups expired : list bytes) (w : ZWorld) : ZWorld := foldl (cleanup_group expired) w groups.

(** ** The loop of a group's messages *)

Fixpoint broadcast_loop (choice : nat → bool) (msg : zreMessage) (members : list nat) (heap : gmap nat ZPeer) : outcome (gmap nat ZPeer) :=
  match members with
  | [] => Ret heap
  | a :: members =>
      match heap !! a with
      | Some p =>
          match Peer_Send (choice a) msg p with
          | (Panic e, _) => Panic e
          | (_, p) => broadcast_loop choice msg members (<[a := p]> heap)
          end
      | None => broadcast_loop choice msg members heap
      end
  end.

(** [broadcastMessage]: the errors of [Send] are dropped. *)
Definition broadcastMessage (range : gmap bytes nat → list (bytes * nat)) (choice : nat → bool) (msg : zreMessage) (g : ZGroup)
    (heap : gmap nat ZPeer) : outcome (gmap nat ZPeer) :=
  broadcast_loop choice msg (range (gp_members g)).*2 heap.

(** One turn of [messageLoop] of the group [name]. *)
Definition group_turn (range : gmap bytes nat → list (bytes * nat)) (choice : nat → bool) (name : bytes) (w : ZWorld) : outcome ZWorld :=
  match zw_groups w !! name with
  | Some g =>
      match gp_messages g with
      | msg :: rest =>
          heap ← broadcastMessage range choice msg g (zw_heap w);
          Ret (set_zw_heap heap (set_zw_groups (<[name := set_gp_messages rest g]> (zw_groups w)) w))
      | [] => Ret w
      end
  | None => Ret w
  end.

(** ** The discovery engine *)

(** [checkExpiredPeers] of the engine: the peers the manager still has and
    that have expired leave every group. *)
Definition expired_peers (range : gmap bytes nat → list (bytes * nat)) (now timeout : Z) (w : ZWorld) : list bytes :=
  (filter (fun e => is_true (from_option (Peer_IsExpired now timeout) false (zw_heap w !! e.2))) (range (zw_peers w))).*1.

Definition engine_checkExpiredPeers (range : gmap bytes nat → list (bytes * nat)) (range_groups : gmap bytes ZGroup → list (bytes * ZGroup))
    (now timeout : Z) (w : ZWorld) : ZWorld :=
  let expiredPeers := expired_peers range now timeout w in
  if decide (0 < len expiredPeers) then CleanupExpiredPeers (range_groups (zw_groups w)).*1 expiredPeers w else w.

Definition engine_processHeartbeat (now : Z) (uuid : bytes) (w : ZWorld) : ZWorld :=
  match zw_peers w !! fmt_x uuid with
  | Some a => upd_peer (Peer_UpdateLastSeen now) a w
  | None => w
  end.

(** ** Steps *)

Definition zw_empty (bufferSize : nat) (expiration : Z) : ZWorld := mkZWorld ∅ ∅ ∅ (NewEventChannel bufferSize) expiration.

Inductive z_step : ZWorld → ZWorld → Prop :=
| ZDiscovery dial now d w : z_step w (handleDiscovery dial now d w)
| ZExpire range now w : range_order range → z_step w (checkExpiredPeers range now w)
| ZCommand cmd w : z_step w (group_handleCommand cmd w).2
| ZTurn range choice name w w' : range_order range → group_turn range choice name w = Ret w' → z_step w w'
| ZEngineExpire range range_groups now timeout w :
    range_order range → range_order range_groups → z_step w (engine_checkExpiredPeers range range_groups now timeout w)
| ZHeartbeat now uuid w : z_step w (engine_processHeartbeat now uuid w)
| ZSequence a w : z_step w (upd_peer (fun p => (Peer_nextSequence p).2) a w)
| ZOutgoing a w : z_step w (upd_peer (fun p => set_zp_outgoing (drop 1 (zp_outgoing p)) p) a w)
| ZEvents ec w : ec_step (zw_events w) ec → z_step w (mkZWorld (zw_heap w) (zw_peers w) (zw_groups w) ec (zw_expiration w)).
