(* ===== verification/ZyrePeersFacts.v ===== *)
(** * ZyrePeersFacts: what the managers of Zyre keep

    The invariant of the peers and groups, the refinement of the group manager
    by a membership relation, the peer events as a replay of the peer set, and
    what a message sent to a group reaches. *)

From Stdlib Require Import Strings.Byte ZArith Lia.
From stdpp Require Import base strings pretty numbers gmap list.
From S2P Require Import Prelude Reader Mdp ZyreMessage ZyreEvents ZyrePeers.

#[local] Open Scope Z_scope.
#[local] Set Default Goal Selector "!".

(** ** Heaps that grow *)

(** Every peer of [h] is still there in [h'], changed at most as [P] allows. *)
Definition heap_ext (P : ZPeer → ZPeer → Prop) (h h' : gmap nat ZPeer) : Prop :=
  ∀ a p, h !! a = Some p → ∃ p', h' !! a = Some p' ∧ P p p'.

Lemma heap_ext_refl P h : (∀ p, P p p) → heap_ext P h h.
Proof. intros HP a p Hp. by exists p. Qed.

Lemma heap_ext_trans P h1 h2 h3 :
  (∀ p q r, P p q → P q r → P p r) → heap_ext P h1 h2 → heap_ext P h2 h3 → heap_ext P h1 h3.
Proof.
  intros HP H12 H23 a p Hp. destruct (H12 a p Hp) as (q & Hq & Hpq). destruct (H23 a q Hq) as (r & Hr & Hqr). exists r. eauto.
Qed.

Lemma heap_ext_alter (P : ZPeer → ZPeer → Prop) f a h : (∀ p, P p p) → (∀ p, P p (f p)) → heap_ext P h (alter f a h).
Proof.
  intros HP Hf b p Hp. destruct (decide (b = a)) as [->|].
  - exists (f p). by rewrite lookup_alter_eq, Hp.
  - exists p. by rewrite lookup_alter_ne.
Qed.

Lemma heap_ext_insert (P : ZPeer → ZPeer → Prop) a q h :
  (∀ p, P p p) → (∀ p, h !! a = Some p → P p q) → heap_ext P h (<[a := q]> h).
Proof.
  intros HP Hq b p Hp. destruct (decide (b = a)) as [->|].
  - exists q. split; [by rewrite lookup_insert_eq|by apply Hq].
  - exists p. by rewrite lookup_insert_ne.
Qed.

(** ** The invariant *)

Definition peer_ok (p : ZPeer) : Prop :=
  (length (zp_outgoing p) <= 100)%nat ∧ 0 <= zp_Sequence p < 2 ^ 16 ∧ (zp_Connected p = true → zp_closed p = false).

Definition peers_ok (w : ZWorld) : Prop :=
  ∀ u a, zw_peers w !! u = Some a → ∃ p, zw_heap w !! a = Some p ∧ fmt_x (zp_UUID p) = u ∧ zp_Connected p = true.

Definition group_ok (h : gmap nat ZPeer) (name : bytes) (g : ZGroup) : Prop :=
  gp_name g = name ∧ (length (gp_messages g) <= 1000)%nat ∧
  ∀ u a, gp_members g !! u = Some a → ∃ p, h !! a = Some p ∧ fmt_x (zp_UUID p) = u ∧ name ∈ zp_Groups p.

Definition zyre_ok (w : ZWorld) : Prop :=
  map_Forall (fun _ => peer_ok) (zw_heap w) ∧ peers_ok w ∧ map_Forall (group_ok (zw_heap w)) (zw_groups w).

(** What a change of a peer must keep for the peer manager, for a group. *)
Definition same_conn (p q : ZPeer) : Prop := zp_UUID q = zp_UUID p ∧ zp_Connected q = zp_Connected p.
Definition keeps_group (name : bytes) (p q : ZPeer) : Prop := zp_UUID q = zp_UUID p ∧ (name ∈ zp_Groups p → name ∈ zp_Groups q).

Lemma peers_ok_ext w w' :
  peers_ok w → zw_peers w' = zw_peers w → heap_ext same_conn (zw_heap w) (zw_heap w') → peers_ok w'.
Proof.
  intros Hok Heq Hext u a. rewrite Heq. intros Hu. destruct (Hok u a Hu) as (p & Hp & Hx & Hc).
  destruct (Hext a p Hp) as (q & Hq & Huuid & Hconn). exists q. by rewrite Huuid, Hconn.
Qed.

Lemma group_ok_ext h h' name g : group_ok h name g → heap_ext (keeps_group name) h h' → group_ok h' name g.
Proof.
  intros (Hn & Hm & Hok) Hext. split; [done|]. split; [done|]. intros u a Hu. destruct (Hok u a Hu) as (p & Hp & Hx & Hg).
  destruct (Hext a p Hp) as (q & Hq & Huuid & Hgs). exists q. rewrite Huuid. eauto.
Qed.

Lemma groups_ok_ext (h h' : gmap nat ZPeer) (gs : gmap bytes ZGroup) :
  map_Forall (group_ok h) gs → (∀ name, heap_ext (keeps_group name) h h') → map_Forall (group_ok h') gs.
Proof. intros Hok Hext n g Hg. eapply group_ok_ext; [by apply Hok|done]. Qed.

Lemma Forall_alter (P : ZPeer → Prop) f a (h : gmap nat ZPeer) :
  map_Forall (fun _ => P) h → (∀ p, P p → P (f p)) → map_Forall (fun _ => P) (alter f a h).
Proof.
  intros Hh Hf b q [(-> & p & Hp & ->)|[_ Hp]]%lookup_alter_Some; [apply Hf|]; by apply (Hh b).
Qed.

(** A method of a peer that leaves its identity, connection and groups. *)
Definition harmless (f : ZPeer → ZPeer) : Prop :=
  (∀ p, peer_ok p → peer_ok (f p)) ∧ (∀ p, zp_UUID (f p) = zp_UUID p ∧ zp_Connected (f p) = zp_Connected p ∧ zp_Groups (f p) = zp_Groups p).

Lemma zyre_ok_upd f a w : harmless f → zyre_ok w → zyre_ok (upd_peer f a w).
Proof.
  intros [Hf Hsame] (Hh & Hp & Hgs). split_and!.
  - by apply Forall_alter.
  - eapply peers_ok_ext; [exact Hp|done|]. apply heap_ext_alter; intros p; split; [done..|apply Hsame|apply Hsame].
  - eapply groups_ok_ext; [exact Hgs|]. intros n. apply heap_ext_alter; intros p; (split; [by apply Hsame || done|]); [done|].
    by destruct (Hsame p) as (_ & _ & ->).
Qed.

Lemma zyre_ok_events w ec : zyre_ok w → zyre_ok (mkZWorld (zw_heap w) (zw_peers w) (zw_groups w) ec (zw_expiration w)).
Proof. done. Qed.

Lemma UpdateLastSeen_harmless now : harmless (Peer_UpdateLastSeen now).
Proof. by split. Qed.

Lemma nextSequence_harmless : harmless (fun p => (Peer_nextSequence p).2).
Proof. split; [|done]. intros p (? & _ & ?). split; [done|]. split; [|done]. cbn [Peer_nextSequence snd set_zp_Sequence zp_Sequence]. unfold wrapu. apply Z.mod_pos_bound. lia. Qed.

Lemma outgoing_harmless : harmless (fun p => set_zp_outgoing (drop 1 (zp_outgoing p)) p).
Proof. split; [|done]. intros p (? & ? & ?). split; [|done]. cbn. rewrite length_drop. lia. Qed.

(** *** The peer manager *)

(** A peer is known under its own UUID only. *)
Lemma peers_inj w u u' a : peers_ok w → zw_peers w !! u = Some a → zw_peers w !! u' = Some a → u = u'.
Proof.
  intros Hok H1 H2. destruct (Hok _ _ H1) as (p & Hp & <- & _). destruct (Hok _ _ H2) as (p' & Hp' & <- & _). congruence.
Qed.

Lemma Stop_ok p : peer_ok p → peer_ok (Peer_Stop p).
Proof. intros Hp. unfold Peer_Stop. destruct (zp_Connected p) eqn:E; [|done]. by destruct Hp as (? & ? & ?). Qed.

Lemma drop_peer_ok u a w : zyre_ok w → zw_peers w !! u = Some a → zyre_ok (drop_peer u a w).
Proof.
  intros (Hh & Hp & Hgs) Hu. unfold drop_peer. destruct (Hp u a Hu) as (p & Hpa & _). rewrite Hpa. apply zyre_ok_events. split_and!.
  - apply Forall_alter; [done|]. apply Stop_ok.
  - intros u' a'. cbn. intros [Hne Hu']%lookup_delete_Some. destruct (Hp u' a' Hu') as (q & Hq & ?). exists q. split; [|done].
    rewrite lookup_alter_ne; [done|]. intros ->. by apply Hne, (peers_inj w u u' a').
  - eapply groups_ok_ext; [exact Hgs|]. intros n. apply heap_ext_alter; [done|]. intros q. unfold Peer_Stop. by destruct (zp_Connected q).
Qed.

Lemma handleDiscovery_ok dial now d w : zyre_ok w → zyre_ok (handleDiscovery dial now d w).
Proof.
  intros Hok. unfold handleDiscovery. case_decide.
  - destruct (zw_peers w !! _) as [a|] eqn:Hu; [by apply drop_peer_ok|done].
  - destruct (zw_peers w !! _) as [a|] eqn:Hu; [by apply zyre_ok_upd; [apply UpdateLastSeen_harmless|]|].
    unfold Peer_Start. cbn [zp_Connected NewPeer zp_Endpoint]. destruct (dial _); [|done].
    destruct Hok as (Hh & Hp & Hgs). pose proof (is_fresh (dom (zw_heap w))) as Hfresh%not_elem_of_dom.
    apply zyre_ok_events. split_and!.
    + apply map_Forall_insert_2; [|done]. by split_and!; cbn; try lia.
    + intros u a. cbn. intros [[<- <-]|[Hne Hu']]%lookup_insert_Some.
      * eexists. rewrite lookup_insert_eq. by split_and!.
      * destruct (Hp u a Hu') as (q & Hq & ?). exists q. split; [|done]. rewrite lookup_insert_ne; [done|]. congruence.
    + eapply groups_ok_ext; [exact Hgs|]. intros n. apply heap_ext_insert; [done|]. cbn. intros q Hq. congruence.
Qed.

(** The loop of [checkExpiredPeers] keeps any [P] that [drop_peer] keeps: the
    entries still to come are still in the map. *)
Lemma check_expired_loop (P : ZWorld → Prop) now :
  (∀ u a w, P w → zw_peers w !! u = Some a → P (drop_peer u a w)) →
  ∀ l w, NoDup l.*1 → (∀ u a, (u, a) ∈ l → zw_peers w !! u = Some a) → P w → P (foldl (check_expired now) w l).
Proof.
  intros Hdrop l. induction l as [|[u a] l IH]; intros w Hnd Hin Hw; [done|].
  apply NoDup_cons in Hnd as [Hu Hnd]. cbn [foldl]. assert (Hua : zw_peers w !! u = Some a) by (apply Hin; by left).
  assert (Hrest : ∀ u' a', (u', a') ∈ l → zw_peers w !! u' = Some a' ∧ u' ≠ u).
  { intros u' a' Hl. split; [apply Hin; by right|]. intros ->. apply Hu. apply list_elem_of_fmap. by exists (u, a'). }
  apply IH; [done| |].
  - intros u' a' [Hu' Hne]%Hrest. unfold check_expired. cbn. destruct (zw_heap w !! a) as [p|] eqn:Hp; [|done].
    destruct (Peer_IsExpired _ _ p); [|done]. unfold drop_peer. rewrite Hp. cbn. by rewrite lookup_delete_ne.
  - unfold check_expired. cbn. destruct (zw_heap w !! a); [|done]. destruct (Peer_IsExpired _ _ _); [by apply Hdrop|done].
Qed.

Lemma checkExpiredPeers_ok range now w : range_order range → zyre_ok w → zyre_ok (checkExpiredPeers range now w).
Proof.
  intros Hr Hok. unfold checkExpiredPeers. apply (check_expired_loop zyre_ok); [|by apply range_order_NoDup| |done].
  - intros u a w' Hw' Hu. by apply drop_peer_ok.
  - intros u a. by apply range_order_elem.
Qed.

(** *** The group manager *)

Lemma group_ok_new h name : group_ok h name (NewGroup name).
Proof. split_and!; [done|cbn; lia|]. intros u a. cbn. by rewrite lookup_empty. Qed.

Lemma zyre_ok_group name g w : zyre_ok w → group_ok (zw_heap w) name g → zyre_ok (set_zw_groups (<[name := g]> (zw_groups w)) w).
Proof. intros (Hh & Hp & Hgs) Hg. split_and!; [done|done|]. by apply map_Forall_insert_2. Qed.

Lemma zyre_ok_delete_group name w : zyre_ok w → zyre_ok (set_zw_groups (delete name (zw_groups w)) w).
Proof. intros (Hh & Hp & Hgs). split_and!; [done|done|]. by apply map_Forall_delete. Qed.

Lemma get_or_new_spec name w :
  ∃ g, get_or_new name w = (g, set_zw_groups (<[name := g]> (zw_groups w)) w) ∧ g = default (NewGroup name) (zw_groups w !! name).
Proof.
  unfold get_or_new. destruct (zw_groups w !! name) as [g|] eqn:Hg; eexists; split; [|done|done|done].
  rewrite insert_id by done. by destruct w.
Qed.

Lemma get_or_new_ok name w : zyre_ok w → zyre_ok (get_or_new name w).2.
Proof.
  intros Hok. destruct (get_or_new_spec name w) as (g & -> & ->). apply zyre_ok_group; [done|].
  destruct (zw_groups w !! name) as [g|] eqn:Hg; [by apply Hok in Hg|apply group_ok_new].
Qed.

Lemma peer_ok_groups v p : peer_ok p → peer_ok (set_zp_Groups v p).
Proof. done. Qed.

Lemma add_member_ok name a w g : zyre_ok w → zw_groups w !! name = Some g → zyre_ok (add_member name g a w).
Proof.
  intros (Hh & Hp & Hgs) Hg. pose proof (Hgs name g Hg) as (Hname & Hmsg & Hmem).
  unfold add_member. destruct (zw_heap w !! a) as [p|] eqn:Hpa; [|done].
  assert (Hext : ∀ n, heap_ext (keeps_group n) (zw_heap w) (alter (Peer_JoinGroup (gp_name g)) a (zw_heap w))).
  { intros n. apply heap_ext_alter; [done|]. intros q. split; [done|]. cbn. intros ?. apply elem_of_union. by right. }
  split_and!.
  - by apply Forall_alter.
  - eapply peers_ok_ext; [exact Hp|done|]. by apply heap_ext_alter.
  - cbn. apply map_Forall_insert_2; [|by eapply groups_ok_ext]. split; [done|]. split; [done|]. cbn.
    intros u b [[<- <-]|[Hne Hu]]%lookup_insert_Some.
    + exists (Peer_JoinGroup (gp_name g) p). rewrite lookup_alter_eq, Hpa. split_and!; [done|done|]. cbn. rewrite Hname.
      apply elem_of_union. left. by apply elem_of_singleton.
    + destruct (Hmem u b Hu) as (q & Hq & <- & Hin). destruct (Hext name b q Hq) as (q' & Hq' & Huuid & Hgr).
      exists q'. rewrite Huuid. eauto.
Qed.

Lemma remove_member_ok name u w g : zyre_ok w → zw_groups w !! name = Some g → zyre_ok (remove_member name g u w).
Proof.
  intros (Hh & Hp & Hgs) Hg. pose proof (Hgs name g Hg) as (Hname & Hmsg & Hmem).
  unfold remove_member. destruct (gp_members g !! u) as [a|] eqn:Hu; [|done]. split_and!.
  - by apply Forall_alter.
  - eapply peers_ok_ext; [exact Hp|done|]. by apply heap_ext_alter.
  - cbn. intros n g' [[<- <-]|[Hne Hg']]%lookup_insert_Some.
    + split; [done|]. split; [done|]. cbn. intros u' b [Hne Hu']%lookup_delete_Some.
      destruct (Hmem u' b Hu') as (q & Hq & Hx & Hin). exists q. split; [|done]. rewrite lookup_alter_ne; [done|].
      intros ->. destruct (Hmem u b Hu) as (q' & Hq' & Hx' & _). congruence.
    + eapply group_ok_ext; [by apply Hgs|]. apply heap_ext_alter; [done|]. intros q. split; [done|]. cbn. rewrite Hname.
      intros ?. apply elem_of_difference. split; [done|]. by intros ->%elem_of_singleton.
Qed.

Lemma group_handleCommand_ok cmd w : zyre_ok w → zyre_ok (group_handleCommand cmd w).2.
Proof.
  intros Hok. destruct cmd as [name|name|name| |name a|name u|name msg]; cbn [group_handleCommand].
  - pose proof (get_or_new_ok name w Hok). by destruct (get_or_new name w).
  - pose proof (get_or_new_ok name w Hok). by destruct (get_or_new name w).
  - destruct (zw_groups w !! name); [by apply zyre_ok_delete_group|done].
  - done.
  - unfold handle_join. destruct (zw_heap w !! a) as [p|] eqn:Hp; [|done]. pose proof (get_or_new_ok name w Hok) as Hok'.
    destruct (get_or_new_spec name w) as (g & E & _). rewrite E in *. apply zyre_ok_events, add_member_ok; [done|].
    cbn. by rewrite lookup_insert_eq.
  - unfold handle_leave. destruct (zw_groups w !! name) as [g|] eqn:Hg; [|done]. cbn [snd].
    assert (zyre_ok (publish_event (NewLeaveEvent u [] name) (remove_member name g u w))) by (by apply zyre_ok_events, remove_member_ok).
    case_decide; [by apply zyre_ok_delete_group|done].
  - unfold handle_send. destruct (zw_groups w !! name) as [g|] eqn:Hg; [|done].
    unfold Group_SendMessage. pose proof Hok as (_ & _ & Hgs). pose proof (Hgs _ _ Hg) as (? & ? & ?).
    case_decide; cbn [snd]; apply zyre_ok_group; [done| |done|done]. split_and!; [done| |done]. cbn. rewrite length_app. cbn. lia.
Qed.

Lemma cleanup_group_ok expired name w : zyre_ok w → zyre_ok (cleanup_group expired w name).
Proof.
  unfold cleanup_group. revert w. induction expired as [|u expired IH]; intros w Hok; [done|]. cbn [foldl]. apply IH.
  destruct (zw_groups w !! name) eqn:Hg; [by apply remove_member_ok|done].
Qed.

Lemma cleanup_ok groups expired w : zyre_ok w → zyre_ok (CleanupExpiredPeers groups expired w).
Proof.
  unfold CleanupExpiredPeers. revert w. induction groups as [|name groups IH]; intros w Hok; [done|]. cbn [foldl].
  by apply IH, cleanup_group_ok.
Qed.

(** *** Messages of a group *)

Lemma Send_harmless choice msg p : peer_ok p → peer_ok (Peer_Send choice msg p).2 ∧ same_conn p (Peer_Send choice msg p).2 ∧
  zp_Groups (Peer_Send choice msg p).2 = zp_Groups p.
Proof.
  intros Hok. unfold Peer_Send. destruct (zp_closed p); [by destruct choice|].
  case_decide; [|done]. destruct Hok as (Hlen & Hs & Hc). split; [|done]. split; [|done]. cbn. rewrite length_app. cbn. lia.
Qed.

Lemma broadcast_ok choice msg members : ∀ h h',
  map_Forall (fun _ => peer_ok) h → broadcast_loop choice msg members h = Ret h' →
  map_Forall (fun _ => peer_ok) h' ∧ heap_ext same_conn h h' ∧ ∀ n, heap_ext (keeps_group n) h h'.
Proof.
  induction members as [|a members IH]; intros h h' Hh.
  - intros [= <-]. split; [done|]. split; intros; by apply heap_ext_refl.
  - cbn [broadcast_loop]. destruct (h !! a) as [p|] eqn:Hp; [|by apply IH].
    destruct (Send_harmless (choice a) msg p) as (Hok & Hconn & Hgr); [by apply (Hh a)|].
    destruct (Peer_Send (choice a) msg p) as [o q]. cbn in Hok, Hconn, Hgr. intros Hb.
    assert (H' : broadcast_loop choice msg members (<[a := q]> h) = Ret h') by (by destruct o).
    destruct (IH _ _ (map_Forall_insert_2 _ _ _ _ Hok Hh) H') as (Hh' & Hc' & Hg'). split; [done|].
    split.
    + eapply heap_ext_trans; [|apply heap_ext_insert; [done|]|exact Hc'].
      * intros x y z [? ?] [? ?]. split; congruence.
      * intros p' Hp'. rewrite Hp in Hp'. by injection Hp' as <-.
    + intros n. eapply heap_ext_trans; [|apply heap_ext_insert; [done|]|exact (Hg' n)].
      * intros x y z [? ?] [? ?]. split; [congruence|auto].
      * intros p' Hp'. rewrite Hp in Hp'. injection Hp' as <-. split; [apply Hconn|]. by rewrite Hgr.
Qed.

Lemma group_turn_ok range choice name w w' : group_turn range choice name w = Ret w' → zyre_ok w → zyre_ok w'.
Proof.
  intros Hturn Hok. unfold group_turn in Hturn. destruct (zw_groups w !! name) as [g|] eqn:Hg; [|by injection Hturn as <-].
  destruct (gp_messages g) as [|msg rest] eqn:Hm; [by injection Hturn as <-|].
  apply outcome_bind_Ret in Hturn as (h & Hh & [= <-]). destruct Hok as (Hhp & Hp & Hgs).
  apply broadcast_ok in Hh as (Hh & Hc & Hext); [|done]. split_and!.
  - done.
  - by eapply peers_ok_ext.
  - cbn. eapply groups_ok_ext; [|exact Hext]. apply map_Forall_insert_2; [|done].
    destruct (Hgs _ _ Hg) as (? & Hlen & ?). split_and!; [done| |done]. cbn. rewrite Hm in Hlen. cbn in Hlen. lia.
Qed.

Lemma z_step_ok w w' : z_step w w' → zyre_ok w → zyre_ok w'.
Proof.
  intros Hstep Hok. destruct Hstep.
  - by apply handleDiscovery_ok.
  - by apply checkExpiredPeers_ok.
  - by apply group_handleCommand_ok.
  - by eapply group_turn_ok.
  - unfold engine_checkExpiredPeers. case_decide; [by apply cleanup_ok|done].
  - unfold engine_processHeartbeat. destruct (zw_peers w !! _); [|done]. by apply zyre_ok_upd; [apply UpdateLastSeen_harmless|].
  - by apply zyre_ok_upd; [apply nextSequence_harmless|].
  - by apply zyre_ok_upd; [apply outgoing_harmless|].
  - by apply zyre_ok_events.
Qed.

Lemma zyre_ok_empty n expiration : zyre_ok (zw_empty n expiration).
Proof. split_and!; [apply map_Forall_empty|by intros u a; cbn; rewrite lookup_empty|apply map_Forall_empty]. Qed.

Lemma zyre_ok_run w w' : rtc z_step w w' → zyre_ok w → zyre_ok w'.
Proof. induction 1 as [|w1 w2 w3 Hstep _ IH]; [done|]. eauto using z_step_ok. Qed.

(** C16. However discoveries, expirations, group commands, group messages,
    heartbeats and the peers' own loops interleave: every peer the manager
    lists is allocated, connected and listed under the hexadecimal form of
    its own UUID; every group is filed under its name, holds at most 1000
    messages, and each of its members is a peer of that UUID whose own list of
    groups has the group; no peer queues more than 100 messages, and sequence
    numbers stay 16 bits wide. *)
Theorem zyre_invariant n expiration w : rtc z_step (zw_empty n expiration) w → zyre_ok w.
Proof. intros Hrun. eapply zyre_ok_run, zyre_ok_empty. exact Hrun. Qed.

Definition one_peer : ZWorld :=
  handleDiscovery (fun _ => true) 7 (mkDiscovery (replicate 16 x07) 5670 (gs "10.0.0.7")) (zw_empty 9 5000).

Lemma one_peer_reachable : rtc z_step (zw_empty 9 5000) one_peer.
Proof. eapply rtc_l; [apply ZDiscovery|apply rtc_refl]. Defined.

Lemma zyre_invariant_witness : zyre_ok (group_handleCommand (JoinGroup (gs "chat") 0%nat) one_peer).2.
Proof. apply (zyre_invariant 9 5000). eapply rtc_r; [exact one_peer_reachable|apply ZCommand]. Defined.

(** ** Groups as a membership relation *)

(** The abstract group manager: which groups there are, and the UUIDs in
    each. *)
Abbreviation memberships := (gmap bytes (gset bytes)).

Definition zw_abs (w : ZWorld) : memberships := (fun g => dom (gp_members g)) <$> zw_groups w.

Inductive spec_cmd : Type :=
| SpecOpen (name : bytes) | SpecDelete (name : bytes) | SpecJoin (name uuid : bytes) | SpecLeave (name uuid : bytes) | SpecNop.

Definition spec_run (c : spec_cmd) (s : memberships) : memberships :=
  match c with
  | SpecOpen name => <[name := default ∅ (s !! name)]> s
  | SpecDelete name => delete name s
  | SpecJoin name uuid => <[name := {[uuid]} ∪ default ∅ (s !! name)]> s
  | SpecLeave name uuid =>
      match s !! name with
      | Some members => if decide (members ⊆ {[uuid]}) then delete name s else <[name := members ∖ {[uuid]}]> s
      | None => s
      end
  | SpecNop => s
  end.

(** The abstract command of a command; joining passes a pointer. *)
Definition cmd_abs (w : ZWorld) (cmd : group_cmd) : spec_cmd :=
  match cmd with
  | GetGroup name | CreateGroup name => SpecOpen name
  | DeleteGroup name => SpecDelete name
  | JoinGroup name a => match zw_heap w !! a with Some p => SpecJoin name (fmt_x (zp_UUID p)) | None => SpecNop end
  | LeaveGroup name uuid => SpecLeave name uuid
  | ListGroups | SendToGroup _ _ => SpecNop
  end.

Definition names_group (cmd : group_cmd) : option bytes :=
  match cmd with
  | DeleteGroup name | LeaveGroup name _ | SendToGroup name _ => Some name
  | _ => None
  end.

Lemma zw_abs_lookup w name : zw_abs w !! name = (fun g => dom (gp_members g)) <$> zw_groups w !! name.
Proof. apply lookup_fmap. Qed.

Lemma zw_abs_insert name g w : zw_abs (set_zw_groups (<[name := g]> (zw_groups w)) w) = <[name := dom (gp_members g)]> (zw_abs w).
Proof. unfold zw_abs. cbn. by rewrite fmap_insert. Qed.

Lemma zw_abs_delete name w : zw_abs (set_zw_groups (delete name (zw_groups w)) w) = delete name (zw_abs w).
Proof. unfold zw_abs. cbn. by rewrite fmap_delete. Qed.

Lemma open_abs name w :
  zw_abs (get_or_new name w).2 = <[name := default ∅ (zw_abs w !! name)]> (zw_abs w).
Proof.
  destruct (get_or_new_spec name w) as (g & -> & ->). cbn [snd]. rewrite zw_abs_insert, zw_abs_lookup.
  destruct (zw_groups w !! name); [done|]. cbn. by rewrite dom_empty_L.
Qed.

Lemma add_member_abs name g a p w :
  zw_heap w !! a = Some p → zw_abs (add_member name g a w) = <[name := {[fmt_x (zp_UUID p)]} ∪ dom (gp_members g)]> (zw_abs w).
Proof.
  intros Hp. unfold add_member. rewrite Hp. unfold zw_abs. cbn. rewrite fmap_insert. cbn. by rewrite dom_insert_L.
Qed.

Lemma remove_member_abs name g u w :
  zw_groups w !! name = Some g → zw_abs (remove_member name g u w) = <[name := dom (gp_members g) ∖ {[u]}]> (zw_abs w).
Proof.
  intros Hg. unfold remove_member. destruct (gp_members g !! u) as [a|] eqn:Hu.
  - unfold zw_abs. cbn. rewrite fmap_insert. cbn. by rewrite dom_delete_L.
  - assert (E : dom (gp_members g) ∖ {[u]} = dom (gp_members g)).
    { apply difference_disjoint_L, disjoint_singleton_r. by apply not_elem_of_dom. }
    rewrite E. symmetry. apply insert_id. by rewrite zw_abs_lookup, Hg.
Qed.

(** The abstract effect, the error and the answer of a command. *)
Definition refines (cmd : group_cmd) (w : ZWorld) : Prop :=
  zw_abs (group_handleCommand cmd w).2 = spec_run (cmd_abs w cmd) (zw_abs w) ∧
  ((group_handleCommand cmd w).1 = group_not_found ↔ ∃ name, names_group cmd = Some name ∧ zw_abs w !! name = None) ∧
  (cmd = ListGroups → ∃ groups, (group_handleCommand cmd w).1 = RGroups groups ∧ (fun m => dom m) <$> groups = zw_abs w).

Lemma refines_unnamed cmd w :
  names_group cmd = None → cmd ≠ ListGroups → (group_handleCommand cmd w).1 ≠ group_not_found →
  zw_abs (group_handleCommand cmd w).2 = spec_run (cmd_abs w cmd) (zw_abs w) → refines cmd w.
Proof. intros Hn Hl Hr Habs. split; [done|]. split; [|done]. split; [done|]. intros (? & ? & _). congruence. Qed.

Lemma refines_found cmd name w g :
  names_group cmd = Some name → cmd ≠ ListGroups → zw_groups w !! name = Some g → (group_handleCommand cmd w).1 ≠ group_not_found →
  zw_abs (group_handleCommand cmd w).2 = spec_run (cmd_abs w cmd) (zw_abs w) → refines cmd w.
Proof.
  intros Hn Hl Hg Hr Habs. split; [done|]. split; [|done]. split; [done|]. intros (n & Hn' & Hno).
  rewrite zw_abs_lookup in Hno. rewrite Hn in Hn'. injection Hn' as <-. by rewrite Hg in Hno.
Qed.

Lemma refines_missing cmd name w :
  names_group cmd = Some name → cmd ≠ ListGroups → zw_groups w !! name = None → group_handleCommand cmd w = (group_not_found, w) →
  spec_run (cmd_abs w cmd) (zw_abs w) = zw_abs w → refines cmd w.
Proof.
  intros Hn Hl Hg Hr Habs. unfold refines. rewrite Hr. split; [done|]. split; [|done]. split; [|done].
  intros _. exists name. by rewrite zw_abs_lookup, Hg.
Qed.

Lemma join_refines name a w : refines (JoinGroup name a) w.
Proof.
  apply refines_unnamed; [done|done|..]; cbn [group_handleCommand cmd_abs]; unfold handle_join.
  - destruct (zw_heap w !! a); [|done]. by destruct (get_or_new name w).
  - destruct (zw_heap w !! a) as [p|] eqn:Hp; [|done].
    destruct (get_or_new_spec name w) as (g & E & Hg). rewrite E. cbn [snd spec_run].
    change (zw_abs (publish_event ?e ?w')) with (zw_abs w'). rewrite (add_member_abs _ _ _ p) by done.
    rewrite zw_abs_insert, insert_insert_eq, zw_abs_lookup, Hg. do 2 f_equal.
    by destruct (zw_groups w !! name); [|cbn; rewrite dom_empty_L].
Qed.

Lemma leave_refines name u w : refines (LeaveGroup name u) w.
Proof.
  destruct (zw_groups w !! name) as [g|] eqn:Hg.
  2:{ apply (refines_missing _ name); [done|done|done|..]; cbn; [unfold handle_leave; by rewrite Hg|].
      by rewrite zw_abs_lookup, Hg. }
  apply (refines_found _ name _ g); [done|done|done|..]; cbn; unfold handle_leave; rewrite Hg; [done|]. cbn [snd].
  rewrite zw_abs_lookup, Hg. cbn [fmap option_fmap option_map].
  pose proof (remove_member_abs name g u w Hg) as Habs. set (w1 := publish_event _ _).
  change (zw_abs w1 = <[name := dom (gp_members g) ∖ {[u]}]> (zw_abs w)) in Habs.
  assert (Hiff : Group_MemberCount <$> zw_groups w1 !! name = Some 0%nat ↔ dom (gp_members g) ⊆ {[u]}).
  { pose proof (zw_abs_lookup w1 name) as Hl. rewrite Habs, lookup_insert_eq in Hl.
    destruct (zw_groups w1 !! name) as [g1|]; [|done]. injection Hl as Hl. cbn. unfold Group_MemberCount.
    assert (E : dom (gp_members g) ⊆ {[u]} ↔ dom (gp_members g1) = ∅).
    { rewrite <- Hl. split; [apply subseteq_empty_difference_L|apply empty_difference_subseteq_L]. }
    rewrite E, dom_empty_iff_L, <- map_size_empty_iff. split; [by intros [= ?]|by intros ->]. }
  destruct (decide (dom (gp_members g) ⊆ {[u]})) as [Hsub|Hsub].
  - rewrite decide_True by (by apply Hiff). by rewrite zw_abs_delete, Habs, delete_insert_eq.
  - by rewrite decide_False by (by intros ?%Hiff).
Qed.

Lemma send_refines name msg w : refines (SendToGroup name msg) w.
Proof.
  destruct (zw_groups w !! name) as [g|] eqn:Hg.
  2:{ apply (refines_missing _ name); [done|done|done|cbn; unfold handle_send; by rewrite Hg|done]. }
  apply (refines_found _ name _ g); [done|done|done|..]; cbn; unfold handle_send; rewrite Hg; unfold Group_SendMessage.
  - by case_decide.
  - case_decide; cbn [snd]; rewrite zw_abs_insert; apply insert_id; by rewrite zw_abs_lookup, Hg.
Qed.

