(* ===== verification/ZyreRuns.v ===== *)
(** * ZyreRuns: what discoveries, expirations and messages do over time

    The peers as a replay of the ENTER and EXIT events, the race between the
    two expiration checks (src/zyre/peer.go, discovery.go), and what a message
    to a group reaches. *)

From Stdlib Require Import Strings.Byte ZArith Lia.
From stdpp Require Import base strings pretty numbers gmap list.
From S2P Require Import Prelude Reader Mdp ZyreMessage ZyreEvents ZyrePeers ZyrePeersFacts.

#[local] Open Scope Z_scope.
#[local] Set Default Goal Selector "!".

(** ** Events and peers *)

(** The steps of the peer manager and of the engine that change peers. *)
Inductive pm_step : ZWorld → ZWorld → Prop :=
| PmDiscovery dial now d w : pm_step w (handleDiscovery dial now d w)
| PmExpire range now w : range_order range → pm_step w (checkExpiredPeers range now w)
| PmHeartbeat now uuid w : pm_step w (engine_processHeartbeat now uuid w).

(** What a listener can tell from one event: an ENTER of a peer that is
    there, or an EXIT of one that is not, makes no sense. *)
Definition replay (known : gset bytes) (e : Event) : option (gset bytes) :=
  match ev_Type e with
  | EventTypeEnter => if decide (ev_PeerUUID e ∈ known) then None else Some ({[ev_PeerUUID e]} ∪ known)
  | EventTypeExit => if decide (ev_PeerUUID e ∈ known) then Some (known ∖ {[ev_PeerUUID e]}) else None
  | _ => Some known
  end.

Definition replay_all (known : gset bytes) (evs : list Event) : option (gset bytes) :=
  foldl (fun o e => o ≫= fun known => replay known e) (Some known) evs.

(** From [w] to [w'], the events [evs] were published, and queued unless the
    queue filled up. *)
Definition logged (evs : list Event) (w w' : ZWorld) : Prop :=
  ec_cap (zw_events w') = ec_cap (zw_events w) ∧ ec_closing (zw_events w') = ec_closing (zw_events w) ∧
  (length (ec_events (zw_events w)) <= length (ec_events (zw_events w')))%nat ∧
  (ec_closing (zw_events w) = false →
    ec_events (zw_events w') = ec_events (zw_events w) ++ evs ∨ (ec_cap (zw_events w) <= length (ec_events (zw_events w')))%nat).

Definition mirrored (w w' : ZWorld) : Prop :=
  ∃ evs, logged evs w w' ∧ replay_all (dom (zw_peers w)) evs = Some (dom (zw_peers w')).

Lemma logged_same w w' : zw_events w' = zw_events w → logged [] w w'.
Proof. intros E. unfold logged. rewrite E, app_nil_r. auto. Qed.

Lemma logged_trans evs1 evs2 w1 w2 w3 : logged evs1 w1 w2 → logged evs2 w2 w3 → logged (evs1 ++ evs2) w1 w3.
Proof.
  intros (Hc1 & Hcl1 & Hl1 & He1) (Hc2 & Hcl2 & Hl2 & He2). split_and!; [congruence|congruence|lia|]. intros Hcl.
  rewrite Hc1 in He2. destruct (He1 Hcl) as [E1|?]; [|right; lia]. destruct He2 as [E2|?]; [congruence| |by right].
  left. by rewrite E2, E1, app_assoc.
Qed.

Lemma logged_publish e w w' : zw_events w' = ec_Publish e (zw_events w) → logged [e] w w'.
Proof.
  intros E. unfold logged. rewrite E. unfold ec_Publish. destruct (ec_closing (zw_events w)) eqn:Hcl; [by rewrite Hcl|].
  case_decide; cbn; rewrite ?Hcl.
  - split_and!; [done|done|rewrite length_app; lia|]. by left.
  - split_and!; [done|done|done|]. right. lia.
Qed.

Lemma foldl_bind_None evs : foldl (fun o e => o ≫= fun known => replay known e) None evs = None.
Proof. by induction evs. Qed.

Lemma replay_all_app known evs1 evs2 :
  replay_all known (evs1 ++ evs2) = replay_all known evs1 ≫= fun known => replay_all known evs2.
Proof.
  unfold replay_all. rewrite foldl_app. destruct (foldl _ (Some known) evs1); [done|]. apply foldl_bind_None.
Qed.

Lemma mirrored_refl w w' : zw_events w' = zw_events w → zw_peers w' = zw_peers w → mirrored w w'.
Proof. intros E1 E2. exists []. split; [by apply logged_same|]. by rewrite E2. Qed.

Lemma mirrored_trans w1 w2 w3 : mirrored w1 w2 → mirrored w2 w3 → mirrored w1 w3.
Proof.
  intros (evs1 & H1 & R1) (evs2 & H2 & R2). exists (evs1 ++ evs2). split; [by eapply logged_trans|].
  by rewrite replay_all_app, R1.
Qed.

Lemma drop_peer_mirrored u a w : zyre_ok w → zw_peers w !! u = Some a → mirrored w (drop_peer u a w).
Proof.
  intros (_ & Hp & _) Hu. destruct (Hp u a Hu) as (p & Hpa & _). unfold drop_peer. rewrite Hpa.
  eexists [_]. split; [by apply logged_publish|]. cbn. unfold replay. cbn.
  rewrite decide_True by (apply elem_of_dom; by exists a). by rewrite dom_delete_L.
Qed.

Lemma pm_step_mirrored w w' : zyre_ok w → pm_step w w' → mirrored w w'.
Proof.
  intros Hok Hs. revert Hok. destruct Hs as [dial now d w0|range now w0 Hr|now uuid w0]; intros Hok.
  - unfold handleDiscovery. case_decide.
    + destruct (zw_peers w0 !! _) as [a|] eqn:Hu; [by apply drop_peer_mirrored|by apply mirrored_refl].
    + destruct (zw_peers w0 !! _) as [a|] eqn:Hu; [by apply mirrored_refl|].
      unfold Peer_Start. cbn [zp_Connected NewPeer zp_Endpoint]. destruct (dial _); [|by apply mirrored_refl].
      eexists [_]. split; [by apply logged_publish|]. cbn. unfold replay. cbn.
      rewrite decide_False by (by apply not_elem_of_dom). by rewrite dom_insert_L.
  - unfold checkExpiredPeers. eapply (check_expired_loop (fun w => zyre_ok w ∧ mirrored w0 w)).
    + intros u a w [Hw Hm] Hu. split; [by apply drop_peer_ok|]. eapply mirrored_trans; [exact Hm|by apply drop_peer_mirrored].
    + by apply range_order_NoDup.
    + intros u a. by apply range_order_elem.
    + split; [done|by apply mirrored_refl].
  - unfold engine_processHeartbeat. by destruct (zw_peers w0 !! _); apply mirrored_refl.
Qed.

Lemma pm_step_ok w w' : pm_step w w' → zyre_ok w → zyre_ok w'.
Proof. intros [] Hok; eapply z_step_ok; try exact Hok; constructor; done. Qed.

(** The events tell the peers: from any state the node can be in, over any
    run of discoveries, expirations and heartbeats that does not fill the
    event queue, the events queued are such that ENTER and EXIT of a peer
    alternate, and replaying them on the peers known before gives exactly the
    peers known after. *)
Theorem events_mirror_peers n expiration w w' :
  rtc z_step (zw_empty n expiration) w → rtc pm_step w w' →
  ec_closing (zw_events w) = false → (length (ec_events (zw_events w')) < ec_cap (zw_events w'))%nat →
  ∃ evs, ec_events (zw_events w') = ec_events (zw_events w) ++ evs ∧
    replay_all (dom (zw_peers w)) evs = Some (dom (zw_peers w')).
Proof.
  intros Hreach Hrun Hcl Hlt.
  assert (Hm : mirrored w w').
  { apply zyre_ok_run in Hreach; [|apply zyre_ok_empty]. clear Hcl Hlt.
    induction Hrun as [w|w1 w2 w3 Hstep _ IH]; [by apply mirrored_refl|].
    eapply mirrored_trans; [by apply pm_step_mirrored|]. apply IH. by eapply pm_step_ok. }
  destruct Hm as (evs & (Hcap & _ & _ & Hev) & Hreplay). exists evs. split; [|done].
  destruct (Hev Hcl) as [E|Hfull]; [done|]. lia.
Qed.

Lemma events_mirror_peers_witness :
  ∃ evs, ec_events (zw_events one_peer) = [] ++ evs ∧ replay_all ∅ evs = Some (dom (zw_peers one_peer)).
Proof.
  apply (events_mirror_peers 9 5000 (zw_empty 9 5000) one_peer); [apply rtc_refl| |done|].
  - eapply rtc_l; [apply PmDiscovery|apply rtc_refl].
  - vm_compute. lia.
Defined.

(** ** Expired members *)

(** What becomes of an expired peer [p], known as [u] at address [a]. *)
Definition dropped (u : bytes) (a : nat) (p : ZPeer) (w : ZWorld) : Prop :=
  zw_peers w !! u = None ∧ zw_heap w !! a = Some (Peer_Stop p).

Lemma drop_peer_groups u a w : zw_groups (drop_peer u a w) = zw_groups w.
Proof. unfold drop_peer. by destruct (zw_heap w !! a). Qed.

Lemma drop_peer_expiration u a w : zw_expiration (drop_peer u a w) = zw_expiration w.
Proof. unfold drop_peer. by destruct (zw_heap w !! a). Qed.

Lemma drop_peer_other a u' a' w :
  zyre_ok w → zw_peers w !! u' = Some a' → a' ≠ a → zw_heap (drop_peer u' a' w) !! a = zw_heap w !! a.
Proof. intros (_ & Hp & _) Hu' Hne. unfold drop_peer. destruct (Hp _ _ Hu') as (q & -> & _). cbn. by rewrite lookup_alter_ne. Qed.

Lemma dropped_stays u a p l : ∀ now w,
  zyre_ok w → NoDup l.*1 → (∀ u' a', (u', a') ∈ l → zw_peers w !! u' = Some a' ∧ a' ≠ a) → dropped u a p w →
  dropped u a p (foldl (check_expired now) w l).
Proof.
  induction l as [|[u' a'] l IH]; intros now w Hok Hnd Hin Hd; [done|]. apply NoDup_cons in Hnd as [Hu' Hnd]. cbn [foldl].
  destruct (Hin u' a') as [Hua Hne]; [by left|].
  assert (Hl : ∀ v b, (v, b) ∈ l → (zw_peers w !! v = Some b ∧ b ≠ a) ∧ v ≠ u').
  { intros v b Hv. split; [apply Hin; by right|]. intros ->. apply Hu', list_elem_of_fmap. by exists (u', b). }
  unfold check_expired at 2. cbn. destruct (zw_heap w !! a') as [q|] eqn:Hq; [|apply IH; [done|done|intros v b Hv; by apply (Hl v b)|done]].
  destruct (Peer_IsExpired _ _ q); [|apply IH; [done|done|intros v b Hv; by apply (Hl v b)|done]]. apply IH; [by apply drop_peer_ok|done| |].
  - intros v b [[Hv Hb] Hne']%Hl. split; [|done]. unfold drop_peer. rewrite Hq. cbn. by rewrite lookup_delete_ne.
  - destruct Hd as [Hu Ha]. split.
    + unfold drop_peer. rewrite Hq. cbn. apply lookup_delete_None. by right.
    + by rewrite drop_peer_other.
Qed.

Lemma expired_dropped u a p l : ∀ now w,
  zyre_ok w → NoDup l.*1 → (∀ u' a', (u', a') ∈ l → zw_peers w !! u' = Some a') → (u, a) ∈ l →
  zw_heap w !! a = Some p → Peer_IsExpired now (zw_expiration w) p = true →
  dropped u a p (foldl (check_expired now) w l).
Proof.
  induction l as [|[u' a'] l IH]; intros now w Hok Hnd Hin Hua Ha Hexp; [by apply elem_of_nil in Hua|].
  apply NoDup_cons in Hnd as [Hu' Hnd]. cbn [foldl]. pose proof (Hin u' a' ltac:(by left)) as Hu'a'.
  assert (Hl : ∀ v b, (v, b) ∈ l → zw_peers w !! v = Some b ∧ v ≠ u' ∧ b ≠ a').
  { intros v b Hv. assert (Hvb : zw_peers w !! v = Some b) by (apply Hin; by right).
    assert (v ≠ u') by (intros ->; apply Hu', list_elem_of_fmap; by exists (u', b)).
    split_and!; [done|done|]. intros ->. destruct Hok as (_ & Hp & _). by eapply H, peers_inj. }
  destruct (decide (a' = a)) as [->|Hne].
  - assert (u' = u) as -> by (destruct Hok as (_ & Hp & _); eapply (peers_inj w); [done|done|by apply Hin]).
    unfold check_expired at 2. cbn. rewrite Ha, Hexp. apply dropped_stays; [by apply drop_peer_ok|done|..].
    + intros v b (Hv & Hne & Hb)%Hl. split; [|done]. unfold drop_peer. rewrite Ha. cbn. by rewrite lookup_delete_ne.
    + unfold drop_peer. rewrite Ha. split; cbn; [by rewrite lookup_delete_eq|by rewrite lookup_alter_eq, Ha].
  - assert (Hua' : (u, a) ∈ l) by (apply elem_of_cons in Hua as [[= -> ->]|]; done).
    unfold check_expired at 2. cbn. destruct (zw_heap w !! a') as [q|] eqn:Hq; [|apply IH; [done|done|intros v b Hv; by apply (Hl v b)|done..]].
    destruct (Peer_IsExpired _ _ q); [|apply IH; [done|done|intros v b Hv; by apply (Hl v b)|done..]].
    apply IH; [by apply drop_peer_ok|done| |done|by rewrite drop_peer_other|by rewrite drop_peer_expiration].
    intros v b (Hv & ? & ?)%Hl. unfold drop_peer. rewrite Hq. cbn. by rewrite lookup_delete_ne.
Qed.

Lemma check_expired_groups range now w :
  range_order range → zw_groups (checkExpiredPeers range now w) = zw_groups w.
Proof.
  intros Hr. unfold checkExpiredPeers. apply (check_expired_loop (fun w' => zw_groups w' = zw_groups w)).
  - intros u a w' E _. by rewrite drop_peer_groups.
  - by apply range_order_NoDup.
  - intros u a. by apply range_order_elem.
  - done.
Qed.

(** *** Broadcasting to a peer that has stopped *)

Lemma broadcast_closed choice msg a members : ∀ h p,
  a ∈ members → h !! a = Some p → zp_closed p = true → choice a = true →
  broadcast_loop choice msg members h = Panic "send on closed channel".
Proof.
  induction members as [|b members IH]; intros h p Ha Hp Hc Hch; [by apply elem_of_nil in Ha|]. cbn [broadcast_loop].
  destruct (decide (b = a)) as [->|Hne].
  - rewrite Hp. unfold Peer_Send. by rewrite Hc, Hch.
  - assert (Ha' : a ∈ members) by (apply elem_of_cons in Ha as [->|]; done).
    destruct (h !! b) as [q|]; [|by eapply IH]. unfold Peer_Send. destruct (zp_closed q); [destruct (choice b); [done|]|case_decide].
    all: eapply IH; [done|by rewrite lookup_insert_ne|done|done].
Qed.

(** *** Leaving every group *)

Definition member (g u : bytes) (w : ZWorld) : Prop := ∃ grp, zw_groups w !! g = Some grp ∧ is_Some (gp_members grp !! u).

Lemma remove_member_member name grp u g v w :
  zw_groups w !! name = Some grp → member g v (remove_member name grp u w) ↔ member g v w ∧ ¬ (g = name ∧ v = u).
Proof.
  intros Hn. unfold remove_member, member. destruct (gp_members grp !! u) as [a|] eqn:Hu; cbn.
  - destruct (decide (g = name)) as [->|Hg].
    + rewrite lookup_insert_eq, Hn. split.
      * intros (g' & [= <-] & [b Hb]). cbn in Hb. apply lookup_delete_Some in Hb as [Hne Hb]. split; [by exists grp; eauto|]. by intros [_ ->].
      * intros [(g' & [= <-] & [b Hb]) Hne]. eexists. split; [done|]. cbn. exists b. apply lookup_delete_Some. split; [|done].
        intros ->. by apply Hne.
    + rewrite lookup_insert_ne by done. split; [intros H; split; [done|by intros [? _]]|by intros [? _]].
  - split; [|by intros [? _]]. intros (g' & Hg' & Hv). split; [by exists g'|]. intros [-> ->].
    rewrite Hn in Hg'. injection Hg' as <-. rewrite Hu in Hv. by destruct Hv.
Qed.

Lemma cleanup_group_member expired name g v : ∀ w,
  member g v (cleanup_group expired w name) ↔ member g v w ∧ ¬ (g = name ∧ v ∈ expired).
Proof.
  unfold cleanup_group. induction expired as [|u expired IH]; intros w; cbn [foldl].
  - split; [intros H; split; [done|by intros [_ ?%elem_of_nil]]|by intros [? _]].
  - rewrite IH, elem_of_cons. destruct (zw_groups w !! name) as [grp|] eqn:Hg.
    + rewrite remove_member_member by done. tauto.
    + split; [|tauto]. intros [Hm _]. split; [done|]. intros [-> _]. destruct Hm as (grp & Hg' & _). congruence.
Qed.

Lemma cleanup_member groups expired g v : ∀ w,
  member g v (CleanupExpiredPeers groups expired w) ↔ member g v w ∧ ¬ (g ∈ groups ∧ v ∈ expired).
Proof.
  unfold CleanupExpiredPeers. induction groups as [|name groups IH]; intros w; cbn [foldl].
  - split; [intros H; split; [done|by intros [?%elem_of_nil _]]|by intros [? _]].
  - rewrite IH, cleanup_group_member, elem_of_cons. tauto.
Qed.

Lemma elem_of_expired range now timeout w u :
  range_order range →
  u ∈ expired_peers range now timeout w ↔
    ∃ a p, zw_peers w !! u = Some a ∧ zw_heap w !! a = Some p ∧ Peer_IsExpired now timeout p = true.
Proof.
  intros Hr. unfold expired_peers. rewrite list_elem_of_fmap. split.
  - intros ([u' a] & -> & [He Hin]%list_elem_of_filter). apply range_order_elem in Hin; [|done]. cbn in *.
    destruct (zw_heap w !! a) as [p|] eqn:Hp; [|done]. exists a, p. split_and!; [done|done|exact He].
  - intros (a & p & Hu & Hp & He). exists (u, a). split; [done|]. apply list_elem_of_filter. split; [change (is_true (from_option (Peer_IsExpired now timeout) false (zw_heap w !! a))); rewrite Hp; exact He|].
    by apply range_order_elem.
Qed.

Lemma engine_member range range_groups now timeout w g u :
  range_order range → range_order range_groups →
  member g u (engine_checkExpiredPeers range range_groups now timeout w) ↔
    member g u w ∧ u ∉ expired_peers range now timeout w.
Proof.
  intros Hr Hg. unfold engine_checkExpiredPeers. case_decide as Hlen.
  - rewrite cleanup_member. split; intros [Hm Hno]; (split; [done|]); [|tauto]. intros Hu. apply Hno. split; [|done].
    destruct Hm as (grp & Hgrp & _). apply list_elem_of_fmap. exists (g, grp). split; [done|]. by apply range_order_elem.
  - assert (expired_peers range now timeout w = []) as ->.
    { apply length_zero_iff_nil. unfold len in Hlen. lia. }
    split; [intros H; split; [done|apply not_elem_of_nil]|by intros [? _]].
Qed.

(** Two loops expire peers, and it matters which is first. If the engine's
    check sees an expired peer, the peer leaves every group and the other
    memberships stay. But when the peer manager's own check comes first, the
    peer is stopped and forgotten and stays in its groups: the engine's check
    looks only at peers the manager still has, so no later check removes it,
    and the next message to such a group may panic the process, by sending to
    the closed channel of the stopped peer. *)
Theorem expiry_race range range_groups now w g grp u a p :
  range_order range → range_order range_groups → zyre_ok w →
  zw_groups w !! g = Some grp → gp_members grp !! u = Some a → zw_peers w !! u = Some a → zw_heap w !! a = Some p →
  Peer_IsExpired now (zw_expiration w) p = true →
  (∀ g' v, member g' v (engine_checkExpiredPeers range range_groups now (zw_expiration w) w) ↔
     member g' v w ∧ v ∉ expired_peers range now (zw_expiration w) w) ∧
  u ∈ expired_peers range now (zw_expiration w) w ∧
  let w1 := checkExpiredPeers range now w in
  zw_peers w1 !! u = None ∧ zw_groups w1 = zw_groups w ∧
  (∀ now' timeout, member g u (engine_checkExpiredPeers range range_groups now' timeout w1)) ∧
  (∀ choice msg, choice a = true → broadcastMessage range choice msg grp (zw_heap w1) = Panic "send on closed channel").
Proof.
  intros Hr Hrg Hok Hg Hm Hu Hp Hexp. split; [by intros; apply engine_member|]. split; [apply elem_of_expired; [done|by exists a, p]|].
  intros w1. assert (Hd : dropped u a p w1).
  { apply expired_dropped; [done|by apply range_order_NoDup| |by apply range_order_elem|done|done]. intros u' a'. by apply range_order_elem. }
  destruct Hd as [Hnone Hstop]. split; [done|]. split; [by apply check_expired_groups|]. split.
  - intros now' timeout. apply engine_member; [done|done|]. split.
    + exists grp. split; [unfold w1; by rewrite check_expired_groups|by exists a].
    + intros (b & q & Hb & _)%elem_of_expired; [|done]. congruence.
  - intros choice msg Hch. eapply (broadcast_closed _ _ a); [|exact Hstop| |done].
    + apply list_elem_of_fmap. exists (u, a). split; [done|]. by apply range_order_elem.
    + destruct Hok as (_ & Hps & _). destruct (Hps u a Hu) as (q & Hq & _ & Hc). rewrite Hp in Hq. injection Hq as <-.
      unfold Peer_Stop. by rewrite Hc.
Qed.

Lemma expiry_race_witness :
  let u := fmt_x (replicate 16 x07) in
  ∃ w, zw_peers w !! u = None ∧
    ∀ now timeout, member (gs "chat") u (engine_checkExpiredPeers map_to_list map_to_list now timeout w).
Proof.
  intros u. set (w := (group_handleCommand (JoinGroup (gs "chat") 0%nat) one_peer).2).
  assert (Hok : zyre_ok w).
  { apply group_handleCommand_ok, handleDiscovery_ok, zyre_ok_empty. }
  destruct (expiry_race map_to_list map_to_list 9000 w (gs "chat") (mkZGroup (gs "chat") {[u := 0%nat]} []) u 0%nat
    (Peer_JoinGroup (gs "chat") (set_zp_status true false (NewPeer 7 (replicate 16 x07) (gs "tcp://10.0.0.7:5670")))))
    as (_ & _ & Hp & _ & Hm & _).
  - apply map_to_list_range_order.
  - apply map_to_list_range_order.
  - exact Hok.
  - vm_compute. reflexivity.
  - vm_compute. reflexivity.
  - vm_compute. reflexivity.
  - vm_compute. reflexivity.
  - reflexivity.
  - eexists. split; [exact Hp|exact Hm].
Defined.

(** ** What a message to a group reaches *)

Lemma members_NoDup range h name g :
  range_order range → group_ok h name g → NoDup (range (gp_members g)).*2.
Proof.
  intros Hr (_ & _ & Hmem). apply NoDup_fmap_2_strong; [|by eapply NoDup_fmap_1, range_order_NoDup].
  intros [u a] [v b] Hu Hv. cbn. intros <-. apply range_order_elem in Hu, Hv; [|done..].
  destruct (Hmem _ _ Hu) as (p & Hp & <- & _). destruct (Hmem _ _ Hv) as (q & Hq & <- & _). congruence.
Qed.

(** A peer that takes messages. *)
Definition ready (p : ZPeer) : Prop := zp_closed p = false ∧ (length (zp_outgoing p) < 100)%nat.

Lemma broadcast_ready choice msg members : ∀ h,
  NoDup members → (∀ a, a ∈ members → ∃ p, h !! a = Some p ∧ ready p) →
  ∃ h', broadcast_loop choice msg members h = Ret h' ∧
    ∀ a, h' !! a = (fun p => if decide (a ∈ members) then set_zp_outgoing (zp_outgoing p ++ [msg]) p else p) <$> h !! a.
Proof.
  induction members as [|b members IH]; intros h Hnd Hready; cbn [broadcast_loop].
  - exists h. split; [done|]. intros a. destruct (h !! a); [|done]. cbn. rewrite decide_False; [done|]. apply not_elem_of_nil.
  - apply NoDup_cons in Hnd as [Hb Hnd]. destruct (Hready b ltac:(by left)) as (p & Hp & Hc & Hlen). rewrite Hp.
    unfold Peer_Send. rewrite Hc, decide_True by done. set (q := set_zp_outgoing _ p).
    destruct (IH (<[b := q]> h)) as (h' & Hh' & Hl); [done| |].
    { intros a Ha. rewrite lookup_insert_ne by (by intros ->). apply Hready. by right. }
    exists h'. split; [done|]. intros a. rewrite Hl. destruct (decide (a = b)) as [->|Hne].
    + rewrite lookup_insert_eq, Hp. cbn. rewrite decide_False by done. rewrite decide_True by (by left). done.
    + rewrite lookup_insert_ne by done. destruct (h !! a); [|done]. cbn. f_equal.
      destruct (decide (a ∈ members)); [by rewrite decide_True by (by right)|]. rewrite decide_False; [done|].
      by intros [?|?]%elem_of_cons.
Qed.

(** A message to a group reaches every member once: in every state the
    node can be in, if nothing is queued for the group and its members take
    messages, sending to the group succeeds, and the group's next turn appends
    the message to the outgoing queue of each member, once, whatever the order
    in which the map is ranged over; no other peer is touched, and the queue
    of the group is empty again. *)
Theorem shout_reaches_members range choice n expiration w name g msg :
  range_order range → rtc z_step (zw_empty n expiration) w →
  zw_groups w !! name = Some g → gp_messages g = [] →
  (∀ u a, gp_members g !! u = Some a → ∃ p, zw_heap w !! a = Some p ∧ ready p) →
  ∃ w1 w2, group_handleCommand (SendToGroup name msg) w = (ROk, w1) ∧ group_turn range choice name w1 = Ret w2 ∧
    zw_groups w2 = zw_groups w ∧
    ∀ a p, zw_heap w !! a = Some p →
      ((∃ u, gp_members g !! u = Some a) → zw_heap w2 !! a = Some (set_zp_outgoing (zp_outgoing p ++ [msg]) p)) ∧
      ((¬ ∃ u, gp_members g !! u = Some a) → zw_heap w2 !! a = Some p).
Proof.
  intros Hr Hreach Hg Hq Hready. apply zyre_ok_run in Hreach as (_ & _ & Hgs); [|apply zyre_ok_empty].
  pose proof (members_NoDup range _ _ _ Hr (Hgs name g Hg)) as Hnd.
  assert (Hin : ∀ a, a ∈ (range (gp_members g)).*2 ↔ ∃ u, gp_members g !! u = Some a).
  { intros a. rewrite list_elem_of_fmap. split.
    - intros ([u b] & -> & Hu%range_order_elem); [|done]. by exists u.
    - intros [u Hu]. exists (u, a). split; [done|]. by apply range_order_elem. }
  destruct (broadcast_ready choice msg (range (gp_members g)).*2 (zw_heap w) Hnd) as (h & Hh & Hl).
  { intros a [u Hu]%Hin. by apply (Hready u). }
  cbn [group_handleCommand]. unfold handle_send. rewrite Hg. unfold Group_SendMessage. rewrite Hq, decide_True by (cbn; lia).
  eexists _, _. split; [reflexivity|]. unfold group_turn. cbn [zw_groups zw_heap set_zw_groups]. rewrite lookup_insert_eq. cbn [gp_messages set_gp_messages app].
  unfold broadcastMessage. cbn [gp_members set_gp_messages zw_heap]. rewrite Hh. split; [reflexivity|]. cbn. split.
  - rewrite insert_insert_eq. apply insert_id. rewrite Hg. destruct g. cbn in *. by rewrite Hq.
  - intros a p Hp. rewrite Hl, Hp. cbn. split; intros Hex; [rewrite decide_True by (by apply Hin)|rewrite decide_False by (by rewrite Hin)]; done.
Qed.

Lemma shout_reaches_members_witness :
  ∃ w1 w2, group_handleCommand (SendToGroup (gs "chat") zero_zm) (group_handleCommand (JoinGroup (gs "chat") 0%nat) one_peer).2 = (ROk, w1) ∧
    group_turn map_to_list (fun _ => false) (gs "chat") w1 = Ret w2 ∧ zp_outgoing <$> zw_heap w2 !! 0%nat = Some [zero_zm].
Proof.
  set (w := (group_handleCommand (JoinGroup (gs "chat") 0%nat) one_peer).2). set (u := fmt_x (replicate 16 x07)).
  set (p := Peer_JoinGroup (gs "chat") (set_zp_status true false (NewPeer 7 (replicate 16 x07) (gs "tcp://10.0.0.7:5670")))).
  assert (Hp : zw_heap w !! 0%nat = Some p) by (vm_compute; reflexivity).
  destruct (shout_reaches_members map_to_list (fun _ => false) 9 5000 w (gs "chat") (mkZGroup (gs "chat") {[u := 0%nat]} []) zero_zm)
    as (w1 & w2 & H1 & H2 & _ & Hl).
  - apply map_to_list_range_order.
  - eapply rtc_r; [exact one_peer_reachable|apply ZCommand].
  - vm_compute. reflexivity.
  - reflexivity.
  - intros v a. cbn [gp_members]. intros [<- <-]%lookup_singleton_Some. exists p. split; [done|]. split; [done|]. cbn. lia.
  - exists w1, w2. split; [done|]. split; [done|]. destruct (Hl 0%nat p Hp) as [Hl' _]. rewrite Hl'; [done|]. exists u. cbn [gp_members]. apply lookup_singleton_eq.
Defined.
