(* ===== verification/ZyreLifecycle.v ===== *)
(** * ZyreLifecycle: starting a node, stopping nodes and peers

    [Node.Start] of src/zyre/node.go with the beacon of beacon.go, as a program
    counter and the beacon's command channel; the [Stop] methods that wait for
    goroutines while they hold the lock those goroutines take; and [Start] and
    [Stop] of a beacon and of the discovery engine (discovery.go) over their
    flags, contexts and channels. *)

From Stdlib Require Import ZArith Lia.
From stdpp Require Import base strings gmap gmultiset relations numbers list.
From S2P Require Import Prelude Locks.

#[local] Open Scope Z_scope.
#[local] Set Default Goal Selector "!".

(** ** The beacon's commands *)

(** [bn_replies]: answers that wait in the reply channel of the command
    sent. *)
Record BeaconState : Type := mkBeacon {
  bn_running : bool;
  bn_cancelled : bool;
  bn_port : Z;
  bn_commands : list Z;
  bn_replies : nat }.

(** One turn of [commandLoop], when [Start] has started it. *)
Definition beacon_turn (b : BeaconState) : option BeaconState :=
  if bn_running b then
    match bn_commands b with
    | port :: rest => Some (mkBeacon true (bn_cancelled b) port rest (S (bn_replies b)))
    | [] => None
    end
  else None.

(** The two halves of [SetPort]: queueing the command, waiting for the
    answer. *)
Definition SetPort_send (port : Z) (b : BeaconState) : option BeaconState :=
  if decide (length (bn_commands b) < 10)%nat then
    Some (mkBeacon (bn_running b) (bn_cancelled b) (bn_port b) (bn_commands b ++ [port]) (bn_replies b))
  else None.

Definition SetPort_recv (b : BeaconState) : option BeaconState :=
  match bn_replies b with
  | S n => Some (mkBeacon (bn_running b) (bn_cancelled b) (bn_port b) (bn_commands b) n)
  | O => None
  end.

Definition Beacon_Start (b : BeaconState) : outcome BeaconState :=
  if bn_running b then Fail (Errorf "beacon already running")
  else Ret (mkBeacon true (bn_cancelled b) (bn_port b) (bn_commands b) (bn_replies b)).

(** ** Starting a node *)

(** Where [Node.Start] is, from the point where the socket is bound. It holds
    the node's lock all the way, so [Stop] does not run beside it. *)
Inductive start_pc : Type := AtSetPort | AtReply | AtEvents | AtBeacon | AtLoops | Started | StartFailed.

Inductive start_step (port : Z) : start_pc * BeaconState → start_pc * BeaconState → Prop :=
| StSend b b' : SetPort_send port b = Some b' → start_step port (AtSetPort, b) (AtReply, b')
| StCancelled b : bn_cancelled b = true → start_step port (AtSetPort, b) (AtEvents, b)
| StRecv b b' : SetPort_recv b = Some b' → start_step port (AtReply, b) (AtEvents, b')
| StEvents b : start_step port (AtEvents, b) (AtBeacon, b)
| StBeacon b b' : Beacon_Start b = Ret b' → start_step port (AtBeacon, b) (AtLoops, b')
| StBeaconErr b e : Beacon_Start b = Fail e → start_step port (AtBeacon, b) (StartFailed, b)
| StLoops b : start_step port (AtLoops, b) (Started, b)
| StTurn pc b b' : beacon_turn b = Some b' → start_step port (pc, b) (pc, b').

(** The beacon as [NewBeacon] leaves it. *)
Definition new_beacon (port : Z) : BeaconState := mkBeacon false false port [] 0.

Definition start_waits (s : start_pc * BeaconState) : Prop :=
  (s.1 = AtSetPort ∨ s.1 = AtReply) ∧ bn_running s.2 = false ∧ bn_cancelled s.2 = false ∧ bn_replies s.2 = 0%nat.

Lemma start_waits_run port s s' : rtc (start_step port) s s' → start_waits s → start_waits s'.
Proof.
  induction 1 as [|s1 s2 s3 Hstep _ IH]; [done|]. intros (Hpc & Hr & Hc & Hn). apply IH. clear IH.
  destruct Hstep; cbn in *; try (destruct Hpc; done); try congruence.
  - unfold SetPort_send in *. case_decide; simplify_eq. unfold start_waits. cbn. auto.
  - unfold SetPort_recv in *. rewrite Hn in *. done.
  - unfold beacon_turn in *. rewrite Hr in *. done.
Qed.

(** C40. A node does not start: [Node.Start] sets the port of its beacon before
    it starts the beacon, and waits for the answer of a loop that is not
    running. No schedule takes it past that wait: it neither returns nor
    fails, and there is a run after which nothing can move. A beacon that is
    running takes the port and answers. *)
Theorem node_start_hangs port p0 pc b :
  rtc (start_step port) (AtSetPort, new_beacon p0) (pc, b) →
  (pc = AtSetPort ∨ pc = AtReply) ∧
  (pc = AtReply → ∀ s, ¬ start_step port (pc, b) s) ∧
  (∀ b0, bn_running b0 = true → bn_commands b0 = [] → bn_replies b0 = 0%nat →
     ∃ b1, rtc (start_step port) (AtSetPort, b0) (AtEvents, b1) ∧ bn_port b1 = port).
Proof.
  intros Hrun.
  assert (Hinv : start_waits (pc, b)) by (eapply start_waits_run; [exact Hrun|]; unfold start_waits; cbn; auto).
  destruct Hinv as (Hpc & Hr & Hc & Hn). cbn [fst snd] in *. split; [done|]. split.
  - intros -> s Hstep. inversion Hstep; subst.
    + unfold SetPort_recv in *. rewrite Hn in *. done.
    + unfold beacon_turn in *. rewrite Hr in *. done.
  - intros b0 Hr0 Hc0 Hn0. destruct b0 as [r c p cs n]. cbn in *. subst. eexists (mkBeacon true c port [] 0). split; [|done].
    eapply rtc_l; [by apply StSend|]. eapply rtc_l; [by apply StTurn|]. eapply rtc_l; [by apply StRecv|]. apply rtc_refl.
Qed.

Lemma node_start_hangs_witness :
  SetPort_send 5670 (new_beacon 0) = Some (mkBeacon false false 0 [5670] 0) ∧
  ∀ s, ¬ start_step 5670 (AtReply, mkBeacon false false 0 [5670] 0) s.
Proof.
  split; [reflexivity|]. apply (node_start_hangs 5670 0 AtReply (mkBeacon false false 0 [5670] 0)); [|done].
  apply rtc_once. by apply StSend.
Defined.

(** ** Stopping *)

(** [Peer.Stop] waits for [commandLoop], whose ping takes the next sequence
    number under the peer's lock; [Node.Stop] waits for its [commandLoop],
    whose commands take the node's lock. *)
Definition Peer_Stop_locks (connected : bool) : list lock_op := if connected then lock_and_wait else lock_section.
Definition nextSequence_locks : list lock_op := lock_section.
Definition Node_Stop_locks (stopped : bool) : list lock_op := if stopped then lock_section else lock_and_wait.
Definition node_command_locks : list lock_op := lock_section.

(** Stopping a connected peer while a ping is being sent, or a running node
    while a command is being handled, may hang; when the loops are done, it
    returns. *)
Theorem zyre_stop_may_hang :
  (∃ c, rtc lock_step (mkLocks None ∅ [Peer_Stop_locks true; nextSequence_locks]) c ∧ (∀ c', ¬ lock_step c c') ∧
     lk_threads c !! 0%nat ≠ Some []) ∧
  (∃ c, rtc lock_step (mkLocks None ∅ [Node_Stop_locks false; node_command_locks]) c ∧ (∀ c', ¬ lock_step c c') ∧
     lk_threads c !! 0%nat ≠ Some []) ∧
  rtc lock_step (mkLocks None ∅ [Peer_Stop_locks true; []]) (mkLocks None ∅ [[]; []]).
Proof. pose proof lock_and_wait_may_hang as [H1 H2]. by split_and!. Qed.

(** ** Stopping a beacon and an engine *)

(** [bl_closed]: the channels of the beacon are closed. *)
Record BeaconLife : Type := mkBeaconLife { bl_running : bool; bl_cancelled : bool; bl_closed : bool; bl_socket : bool }.

(** [setupUDP]; [listen] is the verdict of [net.ListenUDP]. *)
Definition setupUDP (listen : option error) : M BeaconLife unit :=
  match listen with
  | Some e => mfail (Wrap "failed to create UDP socket" e)
  | None => mupd (fun b => mkBeaconLife (bl_running b) (bl_cancelled b) (bl_closed b) true)
  end.

Definition beacon_Start (listen : option error) : M BeaconLife unit :=
  b ← mget;
  if bl_running b then mfail (Errorf "beacon already running")
  else
    wrapE "failed to setup UDP" (setupUDP listen);;
    mupd (fun b => mkBeaconLife true (bl_cancelled b) (bl_closed b) (bl_socket b)).

(** When its goroutines have returned, which look at the context at least every
    tenth of a second. *)
Definition beacon_Stop : M BeaconLife unit :=
  b ← mget;
  if negb (bl_running b) then mret tt
  else
    mupd (fun b => mkBeaconLife false true (bl_closed b) false);;
    if bl_closed b then mpanic "close of closed channel"
    else mupd (fun b => mkBeaconLife (bl_running b) (bl_cancelled b) true (bl_socket b)).

(** [el_managers]: the peer and the group manager run; [el_closed]: the channels
    of the engine, its managers and its events are closed. *)
Record EngineLife : Type := mkEngineLife { el_running : bool; el_cancelled : bool; el_closed : bool; el_managers : bool; el_beacon : BeaconLife }.

Definition new_engineLife : EngineLife := mkEngineLife false false false false (mkBeaconLife false false false false).

Definition on_beacon {A} (m : M BeaconLife A) : M EngineLife A := fun e =>
  let '(r, b) := m (el_beacon e) in (r, mkEngineLife (el_running e) (el_cancelled e) (el_closed e) (el_managers e) b).

Definition engine_Start (listen : option error) : M EngineLife unit :=
  e ← mget;
  if el_running e then mfail (Errorf "discovery engine already running")
  else
    wrapE "failed to start beacon" (on_beacon (beacon_Start listen));;
    mupd (fun e => mkEngineLife true (el_cancelled e) (el_closed e) true (el_beacon e)).

(** [Stop]; its loops do not take the mutex it holds. The first channels to be
    closed after the beacon's are those of the peer manager. *)
Definition engine_Stop : M EngineLife unit :=
  e ← mget;
  if negb (el_running e) then mret tt
  else
    mupd (fun e => mkEngineLife true true (el_closed e) (el_managers e) (el_beacon e));;
    on_beacon beacon_Stop;;
    if el_closed e then mpanic "close of closed channel"
    else mupd (fun e => mkEngineLife false true true false (el_beacon e)).

(** An engine that was started stops completely, once or twice; started again it
    claims to run, with a cancelled context, and stopping it panics. When the
    socket of the beacon cannot be bound, nothing runs and [Start] can be tried
    again. *)
Theorem engine_lifecycle (e : error) :
  (∃ l, (engine_Start None;; engine_Stop;; engine_Stop) new_engineLife = (Ret tt, l) ∧
     el_running l = false ∧ el_managers l = false ∧ el_closed l = true ∧ bl_running (el_beacon l) = false ∧ bl_socket (el_beacon l) = false ∧
     ∃ l', engine_Start None l = (Ret tt, l') ∧ el_running l' = true ∧ el_cancelled l' = true ∧
     ∃ l'', engine_Stop l' = (Panic "close of closed channel", l'')) ∧
  engine_Start (Some e) new_engineLife = (Fail (Wrap "failed to start beacon" (Wrap "failed to setup UDP" (Wrap "failed to create UDP socket" e))), new_engineLife).
Proof.
  split; [|done]. eexists. split_and!; [reflexivity|done..|].
  eexists. split_and!; [reflexivity|done..|]. by eexists.
Qed.
