(* ===== verification/ZyreSecurity.v ===== *)
(** * ZyreSecurity: the security manager of Zyre (src/zyre/security.go)

    The configuration, the mechanisms built from it, the lists of admitted and
    refused keys, and the sockets the manager hands out. [curve.NewSecurityClient]
    and the names of the security options are not declared anywhere in the
    repository, so they are parameters. *)

From Stdlib Require Import Strings.Byte ZArith Lia.
From stdpp Require Import base strings numbers gmap gmultiset list.
From S2P Require Import Prelude Zmtp Conn Sockets CoreSocket Reader.

#[local] Set Default Goal Selector "!".

(** ** Configuration *)

Inductive SecurityType : Type := SecurityTypeNull | SecurityTypePlain | SecurityTypeCurve.

#[export] Instance SecurityType_eq_dec : EqDecision SecurityType.
Proof. solve_decision. Defined.

Record SecurityConfig : Type := mkSecConfig {
  sc_Type : SecurityType;
  sc_Username : bytes;
  sc_Password : bytes;
  sc_PublicKey : bytes;
  sc_SecretKey : bytes;
  sc_ServerKey : bytes;
  sc_CertDir : bytes;
  sc_Whitelist : list bytes;
  sc_Blacklist : list bytes;
  sc_Headers : Attributes }.

Definition zero_sc : SecurityConfig := mkSecConfig SecurityTypeNull [] [] [] [] [] [] [] [] ∅.

Definition set_sc_plain (u p : bytes) (c : SecurityConfig) : SecurityConfig :=
  mkSecConfig (sc_Type c) u p (sc_PublicKey c) (sc_SecretKey c) (sc_ServerKey c) (sc_CertDir c) (sc_Whitelist c) (sc_Blacklist c) (sc_Headers c).
Definition set_sc_curve (pk sk srv : bytes) (c : SecurityConfig) : SecurityConfig :=
  mkSecConfig (sc_Type c) (sc_Username c) (sc_Password c) pk sk srv (sc_CertDir c) (sc_Whitelist c) (sc_Blacklist c) (sc_Headers c).
Definition set_sc_lists (white black : list bytes) (c : SecurityConfig) : SecurityConfig :=
  mkSecConfig (sc_Type c) (sc_Username c) (sc_Password c) (sc_PublicKey c) (sc_SecretKey c) (sc_ServerKey c) (sc_CertDir c) white black (sc_Headers c).

(** The names of the options that [SecureSocket] sets. *)
Record security_options : Type := mkSecOptions {
  OptionSecurityMechanism : string;
  OptionPlainUsername : string;
  OptionPlainPassword : string;
  OptionCurvePublickey : string;
  OptionCurveSecretkey : string;
  OptionCurveServerkey : string }.

Section manager.
Context {Sec : Type} (NewSecurityClient : bytes → bytes → bytes → outcome Sec) (opts : security_options).

(** A value of [zmq4.Security]. *)
Inductive mechanism : Type :=
| NullMechanism
| PlainMechanism (user pass : bytes)
| CurveMechanism (sec : Sec).

(** The mechanisms, by name. The configuration is the caller's object; the
    model has the manager's view of it. *)
Record SecurityManager : Type := mkSecManager {
  sm_config : SecurityConfig;
  sm_mechanisms : gmap string mechanism;
  sm_cancelled : bool }.

Definition set_sm_config (c : SecurityConfig) (sm : SecurityManager) : SecurityManager := mkSecManager c (sm_mechanisms sm) (sm_cancelled sm).
Definition set_sm_mechanism (name : string) (m : mechanism) (sm : SecurityManager) : SecurityManager :=
  mkSecManager (sm_config sm) (<[name := m]> (sm_mechanisms sm)) (sm_cancelled sm).

Definition initializeMechanisms : M SecurityManager unit :=
  mupd (set_sm_mechanism "NULL" NullMechanism);;
  sm ← mget;
  let c := sm_config sm in
  (if decide (sc_Username c ≠ [] ∧ sc_Password c ≠ [])
   then mupd (set_sm_mechanism "PLAIN" (PlainMechanism (sc_Username c) (sc_Password c))) else mret tt);;
  if decide (sc_PublicKey c ≠ [] ∧ sc_SecretKey c ≠ []) then
    curveSec ← wrapE "failed to create CURVE client security" (lift (NewSecurityClient (sc_PublicKey c) (sc_SecretKey c) (sc_ServerKey c)));
    mupd (set_sm_mechanism "CURVE" (CurveMechanism curveSec))
  else mret tt.

Definition NewSecurityManager (config : option SecurityConfig) : outcome SecurityManager :=
  let sm := mkSecManager (default zero_sc config) ∅ false in
  match wrapE "failed to initialize security mechanisms" initializeMechanisms sm with
  | (Ret _, sm) => Ret sm
  | (Fail e, _) => Fail e
  | (Panic p, _) => Panic p
  end.

(** [None]: the nil interface. *)
Definition GetSecurityMechanism (sm : SecurityManager) : option mechanism :=
  match sc_Type (sm_config sm) with
  | SecurityTypePlain => sm_mechanisms sm !! "PLAIN"
  | SecurityTypeCurve => sm_mechanisms sm !! "CURVE"
  | SecurityTypeNull => sm_mechanisms sm !! "NULL"
  end.

(** ** Sockets *)

(** [ss_sec]: the mechanism of the socket itself, which only the option
    [WithSecurity] changes. *)
Record SecureSocket : Type := mkSecureSocket {
  ss_socket : socket;
  ss_sec : mechanism;
  ss_security : option mechanism }.

(** A dropped error of [SetOption]. PUB and SUB sockets do the same first,
    and more only for HWM, SUBSCRIBE and UNSUBSCRIBE. *)
Definition set_option (k : socket) (o : string * bytes) : socket :=
  (socket_SetOption (SS := unit) (X := unit) o.1 (OString o.2) (∅, (k, tt))).2.2.1.

Definition security_settings (c : SecurityConfig) : list (string * bytes) :=
  match sc_Type c with
  | SecurityTypePlain =>
      [(OptionSecurityMechanism opts, PlainSecurity); (OptionPlainUsername opts, sc_Username c); (OptionPlainPassword opts, sc_Password c)]
  | SecurityTypeCurve =>
      [(OptionSecurityMechanism opts, CurveSecurity); (OptionCurvePublickey opts, sc_PublicKey c); (OptionCurveSecretkey opts, sc_SecretKey c)] ++
      (if decide (sc_ServerKey c ≠ []) then [(OptionCurveServerkey opts, sc_ServerKey c)] else [])
  | SecurityTypeNull => [(OptionSecurityMechanism opts, NullSecurity)]
  end.

Definition NewSecureSocket (socketType : SocketType) (sm : SecurityManager) : outcome SecureSocket :=
  if decide (socketType = Router ∨ socketType = Dealer ∨ socketType = Pub ∨ socketType = Sub) then
    let k := newSocket socketType (if decide (socketType = Sub) then Some ∅ else None) in
    Ret (mkSecureSocket (foldl set_option k (security_settings (sm_config sm))) NullMechanism (GetSecurityMechanism sm))
  else Fail (Errorf "unsupported socket type").

(** ** Admission *)

Definition validateCurvePeer (peerKey : bytes) (sm : SecurityManager) : outcome unit :=
  let c := sm_config sm in
  if existsb (beq peerKey) (sc_Blacklist c) then Fail (Errorf "peer key is blacklisted")
  else if decide (0 < len (sc_Whitelist c))%Z then
    if existsb (beq peerKey) (sc_Whitelist c) then Ret tt else Fail (Errorf "peer key not in whitelist")
  else Ret tt.

Definition validatePlainPeer (headers : Attributes) (sm : SecurityManager) : outcome unit :=
  match headers !! gs "username", headers !! gs "password" with
  | Some username, Some password =>
      if beq username (sc_Username (sm_config sm)) && beq password (sc_Password (sm_config sm)) then Ret tt
      else Fail (Errorf "invalid PLAIN authentication credentials")
  | _, _ => Fail (Errorf "missing PLAIN authentication credentials")
  end.

Definition ValidatePeer (peerKey : bytes) (peerHeaders : Attributes) (sm : SecurityManager) : outcome unit :=
  match sc_Type (sm_config sm) with
  | SecurityTypeCurve => validateCurvePeer peerKey sm
  | SecurityTypePlain => validatePlainPeer peerHeaders sm
  | SecurityTypeNull => Ret tt
  end.

(** ** Changes *)

(** The keys are kept even when no mechanism can be built from them. *)
Definition SetCurveKeys (publicKey secretKey serverKey : bytes) : M SecurityManager unit :=
  mupd (fun sm => set_sm_config (set_sc_curve publicKey secretKey serverKey (sm_config sm)) sm);;
  curveSec ← wrapE "failed to update CURVE security" (lift (NewSecurityClient publicKey secretKey serverKey));
  mupd (set_sm_mechanism "CURVE" (CurveMechanism curveSec)).

Definition SetPlainCredentials (username password : bytes) (sm : SecurityManager) : SecurityManager :=
  set_sm_mechanism "PLAIN" (PlainMechanism username password) (set_sm_config (set_sc_plain username password (sm_config sm)) sm).

(** The loops of [RemoveFromWhitelist] and [RemoveFromBlacklist]: the first
    occurrence goes. *)
Fixpoint remove_key (publicKey : bytes) (keys : list bytes) : list bytes :=
  match keys with
  | [] => []
  | key :: rest => if beq key publicKey then rest else key :: remove_key publicKey rest
  end.

Definition AddToWhitelist (publicKey : bytes) (sm : SecurityManager) : SecurityManager :=
  let c := sm_config sm in set_sm_config (set_sc_lists (sc_Whitelist c ++ [publicKey]) (sc_Blacklist c) c) sm.
Definition RemoveFromWhitelist (publicKey : bytes) (sm : SecurityManager) : SecurityManager :=
  let c := sm_config sm in set_sm_config (set_sc_lists (remove_key publicKey (sc_Whitelist c)) (sc_Blacklist c) c) sm.
Definition AddToBlacklist (publicKey : bytes) (sm : SecurityManager) : SecurityManager :=
  let c := sm_config sm in set_sm_config (set_sc_lists (sc_Whitelist c) (sc_Blacklist c ++ [publicKey]) c) sm.
Definition RemoveFromBlacklist (publicKey : bytes) (sm : SecurityManager) : SecurityManager :=
  let c := sm_config sm in set_sm_config (set_sc_lists (sc_Whitelist c) (remove_key publicKey (sc_Blacklist c)) c) sm.

Definition sm_GetConfig (sm : SecurityManager) : SecurityConfig := sm_config sm.
Definition sm_Close (sm : SecurityManager) : SecurityManager := mkSecManager (sm_config sm) (sm_mechanisms sm) true.

(** A call of one of the methods above. *)
Inductive sm_op : Type :=
| OpWhite (key : bytes) | OpUnwhite (key : bytes) | OpBlack (key : bytes) | OpUnblack (key : bytes)
| OpCurve (publicKey secretKey serverKey : bytes) | OpPlain (username password : bytes).

Definition sm_apply (sm : SecurityManager) (o : sm_op) : SecurityManager :=
  match o with
  | OpWhite key => AddToWhitelist key sm
  | OpUnwhite key => RemoveFromWhitelist key sm
  | OpBlack key => AddToBlacklist key sm
  | OpUnblack key => RemoveFromBlacklist key sm
  | OpCurve pk sk srv => (SetCurveKeys pk sk srv sm).2
  | OpPlain u p => SetPlainCredentials u p sm
  end.
End manager.

Arguments mechanism : clear implicits.
Arguments SecurityManager : clear implicits.
Arguments SecureSocket : clear implicits.

(** ** The policy a manager implements *)

(** Keys as multisets: the lists may repeat a key, and each removal takes one
    occurrence. *)
Record policy : Type := mkPolicy { po_white : gmultiset bytes; po_black : gmultiset bytes; po_user : bytes; po_pass : bytes }.

Definition policy_apply (p : policy) (o : sm_op) : policy :=
  match o with
  | OpWhite k => mkPolicy (po_white p ⊎ {[+ k +]}) (po_black p) (po_user p) (po_pass p)
  | OpUnwhite k => mkPolicy (po_white p ∖ {[+ k +]}) (po_black p) (po_user p) (po_pass p)
  | OpBlack k => mkPolicy (po_white p) (po_black p ⊎ {[+ k +]}) (po_user p) (po_pass p)
  | OpUnblack k => mkPolicy (po_white p) (po_black p ∖ {[+ k +]}) (po_user p) (po_pass p)
  | OpCurve _ _ _ => p
  | OpPlain u pw => mkPolicy (po_white p) (po_black p) u pw
  end.

Definition admits (t : SecurityType) (key : bytes) (headers : Attributes) (p : policy) : Prop :=
  match t with
  | SecurityTypeNull => True
  | SecurityTypePlain => headers !! gs "username" = Some (po_user p) ∧ headers !! gs "password" = Some (po_pass p)
  | SecurityTypeCurve => key ∉ po_black p ∧ (po_white p = ∅ ∨ key ∈ po_white p)
  end.

Definition policy_of (c : SecurityConfig) : policy :=
  mkPolicy (list_to_set_disj (sc_Whitelist c)) (list_to_set_disj (sc_Blacklist c)) (sc_Username c) (sc_Password c).

Section facts.
Context {Sec : Type} (NewSecurityClient : bytes → bytes → bytes → outcome Sec) (opts : security_options).
Implicit Types (sm : SecurityManager Sec) (key : bytes).

Lemma to_multiset_cons key keys : list_to_set_disj (key :: keys) = ({[+ key +]} ⊎ list_to_set_disj keys : gmultiset bytes).
Proof. done. Qed.

Lemma remove_key_spec key keys : list_to_set_disj (remove_key key keys) = (list_to_set_disj keys ∖ {[+ key +]} : gmultiset bytes).
Proof.
  induction keys as [|k keys IH]; cbn [remove_key].
  - multiset_solver.
  - unfold beq. case_bool_decide; subst; rewrite !to_multiset_cons; [|rewrite IH]; multiset_solver.
Qed.

Lemma existsb_beq key keys : existsb (beq key) keys = bool_decide (key ∈ (list_to_set_disj keys : gmultiset bytes)).
Proof.
  apply eq_true_iff_eq. rewrite existsb_exists, bool_decide_eq_true, elem_of_list_to_set_disj. unfold beq. split.
  - intros (k & Hk & E). apply bool_decide_eq_true in E as ->. by apply list_elem_of_In.
  - intros Hk. exists key. split; [by apply list_elem_of_In|]. by apply bool_decide_eq_true.
Qed.

Lemma to_multiset_empty (keys : list bytes) : list_to_set_disj keys = (∅ : gmultiset bytes) ↔ keys = [].
Proof. split; [|by intros ->]. destruct keys as [|k keys]; [done|]. rewrite to_multiset_cons. multiset_solver. Qed.

Lemma ValidatePeer_admits key headers sm :
  ValidatePeer key headers sm = Ret tt ↔ admits (sc_Type (sm_config sm)) key headers (policy_of (sm_config sm)).
Proof.
  unfold ValidatePeer, admits. destruct (sc_Type (sm_config sm)); [done| |].
  - unfold validatePlainPeer, beq. cbn [policy_of po_user po_pass].
    destruct (headers !! gs "username") as [u|], (headers !! gs "password") as [p|]; [|naive_solver..].
    repeat case_bool_decide; cbn [andb]; naive_solver.
  - unfold validateCurvePeer. rewrite !existsb_beq. cbn [policy_of po_white po_black]. rewrite to_multiset_empty.
    destruct (sc_Whitelist (sm_config sm)) as [|k l] eqn:Hl; repeat case_bool_decide; repeat case_decide; try naive_solver.
    unfold len in *. cbn [length] in *. lia.
Qed.

Lemma SetCurveKeys_state pk sk srv sm :
  (SetCurveKeys NewSecurityClient pk sk srv sm).2 =
  match NewSecurityClient pk sk srv with
  | Ret c => set_sm_mechanism "CURVE" (CurveMechanism c) (set_sm_config (set_sc_curve pk sk srv (sm_config sm)) sm)
  | _ => set_sm_config (set_sc_curve pk sk srv (sm_config sm)) sm
  end.
Proof. unfold SetCurveKeys, wrapE, lift, mupd. cbn. by destruct (NewSecurityClient pk sk srv). Qed.

Lemma policy_of_apply sm o : policy_of (sm_config (sm_apply NewSecurityClient sm o)) = policy_apply (policy_of (sm_config sm)) o.
Proof.
  destruct o; cbn [sm_apply policy_apply]; rewrite ?SetCurveKeys_state; unfold policy_of; cbn; rewrite ?remove_key_spec, ?list_to_set_disj_app; try reflexivity;
    try (f_equal; multiset_solver).
  by destruct (NewSecurityClient _ _ _).
Qed.

Lemma sm_apply_type sm o : sc_Type (sm_config (sm_apply NewSecurityClient sm o)) = sc_Type (sm_config sm).
Proof. destruct o; [done..| |done]. cbn [sm_apply]. rewrite SetCurveKeys_state. by destruct (NewSecurityClient _ _ _). Qed.

Lemma sm_run_policy ops : ∀ sm,
  sc_Type (sm_config (foldl (sm_apply NewSecurityClient) sm ops)) = sc_Type (sm_config sm) ∧
  policy_of (sm_config (foldl (sm_apply NewSecurityClient) sm ops)) = foldl policy_apply (policy_of (sm_config sm)) ops.
Proof.
  induction ops as [|o ops IH]; intros sm; [done|]. cbn [foldl]. destruct (IH (sm_apply NewSecurityClient sm o)) as [-> ->].
  by rewrite sm_apply_type, policy_of_apply.
Qed.

(** Admission of peers implements a policy on multisets of keys: after any
    calls, a CURVE peer is accepted exactly when its key is not refused and the
    admitted keys are empty or contain it, a PLAIN peer exactly with the
    credentials set last. So the first admitted key locks everybody else out, and
    taking the last one off the list lets in every key that is not refused. *)
Theorem zyre_admission sm ops key headers k :
  (ValidatePeer key headers (foldl (sm_apply NewSecurityClient) sm ops) = Ret tt ↔
   admits (sc_Type (sm_config sm)) key headers (foldl policy_apply (policy_of (sm_config sm)) ops)) ∧
  (sc_Type (sm_config sm) = SecurityTypeCurve → po_black (foldl policy_apply (policy_of (sm_config sm)) ops) = ∅ →
   po_white (foldl policy_apply (policy_of (sm_config sm)) ops) = ∅ →
   (ValidatePeer key headers (foldl (sm_apply NewSecurityClient) sm (ops ++ [OpWhite k])) = Ret tt ↔ key = k) ∧
   ValidatePeer key headers (foldl (sm_apply NewSecurityClient) sm (ops ++ [OpWhite k; OpUnwhite k])) = Ret tt).
Proof.
  split.
  - rewrite ValidatePeer_admits. destruct (sm_run_policy ops sm) as [-> ->]. done.
  - intros Ht Hb Hw. split.
    + rewrite ValidatePeer_admits. destruct (sm_run_policy (ops ++ [OpWhite k]) sm) as [-> ->].
      rewrite Ht, foldl_app. cbn. rewrite Hb, Hw. multiset_solver.
    + rewrite ValidatePeer_admits. destruct (sm_run_policy (ops ++ [OpWhite k; OpUnwhite k]) sm) as [-> ->].
      rewrite Ht, foldl_app. cbn. rewrite Hb, Hw. split; [|left]; multiset_solver.
Qed.

(** ** The mechanisms *)

(** What every manager satisfies: NULL is there, PLAIN has the credentials of
    the configuration and is missing only without them, CURVE was built by
    [NewSecurityClient]. *)
Definition sm_ok (sm : SecurityManager Sec) : Prop :=
  sm_mechanisms sm !! "NULL" = Some NullMechanism ∧
  (∀ m, sm_mechanisms sm !! "PLAIN" = Some m → m = PlainMechanism (sc_Username (sm_config sm)) (sc_Password (sm_config sm))) ∧
  (sm_mechanisms sm !! "PLAIN" = None → sc_Username (sm_config sm) = [] ∨ sc_Password (sm_config sm) = []) ∧
  (∀ m, sm_mechanisms sm !! "CURVE" = Some m → ∃ c pk sk srv, m = CurveMechanism c ∧ NewSecurityClient pk sk srv = Ret c).

Lemma sm_ok_apply sm o : sm_ok sm → sm_ok (sm_apply NewSecurityClient sm o).
Proof.
  intros (Hn & Hp & Hp' & Hc). destruct o as [k|k|k|k|pk sk srv|u p]; cbn [sm_apply]; [by repeat split..| |].
  - rewrite SetCurveKeys_state. destruct (NewSecurityClient pk sk srv) as [c| |] eqn:E; [|by repeat split..].
    unfold sm_ok. cbn [set_sm_mechanism set_sm_config sm_mechanisms sm_config set_sc_curve sc_Username sc_Password].
    rewrite lookup_insert_eq, !lookup_insert_ne by done. split_and!; [done..|]. intros m [= <-]. by eauto 6.
  - unfold sm_ok, SetPlainCredentials. cbn [set_sm_mechanism set_sm_config sm_mechanisms sm_config set_sc_plain sc_Username sc_Password].
    rewrite lookup_insert_eq, !lookup_insert_ne by done. split_and!; [done|congruence|done|done].
Qed.

Lemma sm_ok_run ops : ∀ sm, sm_ok sm → sm_ok (foldl (sm_apply NewSecurityClient) sm ops).
Proof. induction ops as [|o ops IH]; intros sm Hok; [done|]. cbn. by apply IH, sm_ok_apply. Qed.

(** The state after the constructor, when it succeeds. *)
Lemma NewSecurityManager_ret config sm :
  NewSecurityManager NewSecurityClient config = Ret sm → sm_ok sm ∧ sm_config sm = default zero_sc config.
Proof.
  unfold NewSecurityManager, initializeMechanisms, wrapE, lift, mupd, mget, mbind, M_bind, mret, M_ret. cbn [set_sm_mechanism sm_config].
  set (c := default zero_sc config). destruct (decide (sc_Username c ≠ [] ∧ sc_Password c ≠ [])) as [[Hu Hp]|Hup];
    (destruct (decide (sc_PublicKey c ≠ [] ∧ sc_SecretKey c ≠ [])) as [Hk|Hk];
       [destruct (NewSecurityClient (sc_PublicKey c) (sc_SecretKey c) (sc_ServerKey c)) as [s| |] eqn:E; cbn; [|done..]|cbn]);
    intros [= <-]; (split; [|done]);
    unfold sm_ok; cbn [set_sm_mechanism sm_mechanisms sm_config]; simplify_map_eq; split_and!; try done; try naive_solver.
  all: intros _; destruct (decide (sc_Username c = [])) as [|Hu]; [by left|]; destruct (decide (sc_Password c = [])) as [|Hp]; [by right|];
    exfalso; by apply Hup.
Qed.

Lemma set_options_props l : ∀ k, ∃ props, foldl set_option k l =
  set_options props (sk_heartbeatIVL k) (sk_heartbeatTTL k) (sk_heartbeatTimeout k) (sk_heartbeatStarted k) k.
Proof.
  induction l as [|[n v] l IH]; intros k; [exists (sk_props k); by destruct k|]. cbn [foldl].
  destruct (IH (set_option k (n, v))) as [props ->]. by exists props.
Qed.

(** What the mechanisms of a manager are, after any calls: NULL is always
    there; PLAIN has the credentials of the configuration, and is missing only
    when one of them is empty; CURVE was built from some keys. A socket of the
    manager gets the configured mechanism's names as properties and nothing
    else: the mechanism it speaks is NULL, whatever is configured. *)
Theorem zyre_mechanisms config sm ops typ ss :
  NewSecurityManager NewSecurityClient config = Ret sm →
  let sm' := foldl (sm_apply NewSecurityClient) sm ops in
  sm_ok sm' ∧
  (GetSecurityMechanism sm' = None → sc_Type (sm_config sm') ≠ SecurityTypeNull) ∧
  (NewSecureSocket opts typ sm' = Ret ss →
   ss_security ss = GetSecurityMechanism sm' ∧ ss_sec ss = NullMechanism ∧
   sk_typ (ss_socket ss) = typ ∧ sk_heartbeatStarted (ss_socket ss) = false ∧ sk_conns (ss_socket ss) = []).
Proof.
  intros Hnew sm'. destruct (NewSecurityManager_ret _ _ Hnew) as [Hok _].
  assert (Hok' : sm_ok sm') by (by apply sm_ok_run). split_and!; [done| |].
  - unfold GetSecurityMechanism. destruct Hok' as [Hn _]. by destruct (sc_Type (sm_config sm')); [rewrite Hn|..].
  - unfold NewSecureSocket. case_decide; [|done]. intros [= <-]. cbn [ss_security ss_sec ss_socket].
    destruct (set_options_props (security_settings opts (sm_config sm')) (newSocket typ (if decide (typ = Sub) then Some ∅ else None)))
      as [props ->]. by repeat split.
Qed.
End facts.

(** ** Witnesses *)

Definition some_options : security_options := mkSecOptions "MECHANISM" "PLAIN_USERNAME" "PLAIN_PASSWORD" "CURVE_PUBLICKEY" "CURVE_SECRETKEY" "CURVE_SERVERKEY".
Definition some_client (publicKey secretKey serverKey : bytes) : outcome bytes := Ret publicKey.
Definition curve_config : SecurityConfig := mkSecConfig SecurityTypeCurve [] [] (gs "pk") (gs "sk") (gs "srv") [] [] [] ∅.
Definition curve_manager : SecurityManager bytes :=
  mkSecManager curve_config {["NULL" := NullMechanism; "CURVE" := CurveMechanism (gs "pk")]} false.

Lemma zyre_admission_witness :
  ValidatePeer (gs "intruder") ∅ (foldl (sm_apply some_client) curve_manager [OpWhite (gs "friend"); OpUnwhite (gs "friend")]) = Ret tt ∧
  ValidatePeer (gs "intruder") ∅ (foldl (sm_apply some_client) curve_manager [OpWhite (gs "friend")]) ≠ Ret tt.
Proof.
  destruct (zyre_admission some_client curve_manager [] (gs "intruder") ∅ (gs "friend")) as [_ H].
  destruct H as [H1 H2]; [done..|]. split; [exact H2|]. by rewrite H1.
Defined.

Lemma zyre_mechanisms_witness :
  NewSecurityManager some_client (Some curve_config) = Ret curve_manager ∧
  ∃ ss, NewSecureSocket some_options Router curve_manager = Ret ss ∧
    ss_security ss = Some (CurveMechanism (gs "pk")) ∧ ss_sec ss = NullMechanism.
Proof.
  split; [vm_compute; reflexivity|]. destruct (NewSecureSocket some_options Router curve_manager) as [ss| |] eqn:E; [|by vm_compute in E..].
  exists ss. split; [done|].
  destruct (zyre_mechanisms some_client some_options (Some curve_config) curve_manager [] Router ss ltac:(vm_compute; reflexivity))
    as (_ & _ & H).
  destruct (H E) as (H1 & H2 & _). split; [exact H1|exact H2].
Defined.
