(* ===== verification/ZyreNode.v ===== *)
(** * ZyreNode: a Zyre node (src/zyre/node.go)

    The state of a node, the commands its methods queue and its command loop
    handles, the messages it receives from its ROUTER socket, and the path of a
    beacon from the wire to the peer manager. The node and its peer manager
    share the event channel, so the node's state contains the [ZWorld] of
    ZyrePeers. [Start] is in ZyreLifecycle. *)

From Stdlib Require Import Strings.Byte ZArith Lia.
From stdpp Require Import base strings numbers gmap relations list.
From S2P Require Import Prelude Actor Zmtp Conn Sockets Reader ZyreMessage ZyreEvents ZyrePeers ZyreSecurity.

#[local] Open Scope Z_scope.
#[local] Set Default Goal Selector "!".

(** ** Constants *)

Definition ZreVersion : byte := x02.
Definition MessageTypeHello : byte := x01.
Definition MessageTypeWhisper : byte := x02.
Definition MessageTypeShout : byte := x03.
Definition MessageTypeJoin : byte := x04.
Definition MessageTypeLeave : byte := x05.
Definition MessageTypePing : byte := x06.
Definition MessageTypePingOK : byte := x07.

Definition DefaultBeaconInterval : Z := 1000 * 1000000.
Definition DefaultPeerExpiration : Z := 5000 * 1000000.

(** ** Peers: what is sent *)

(** [sendMessage]: the message handed to the DEALER socket. *)
Definition Peer_sendMessage (msg : zreMessage) : outcome Msg :=
  data ← zre_Marshal msg; Ret (NewMsgFrom [data]).

(** [sendPing]. A PING has an empty body: the source calls a [Marshal] that
    [PingMessage] does not have. *)
Definition Peer_sendPing (choice : bool) : M ZPeer unit :=
  p ← mget;
  let '(seq, p') := Peer_nextSequence p in
  mupd (fun _ => p');;
  Peer_Send choice (mkZre ZreVersion MessageTypePing seq (replicate 16 x00) []).

(** One turn of [outgoingLoop]: what is handed to the socket; its error is
    dropped. *)
Definition Peer_outgoing_turn (p : ZPeer) : option (outcome Msg * ZPeer) :=
  match zp_outgoing p with
  | msg :: rest => Some (Peer_sendMessage msg, set_zp_outgoing rest p)
  | [] => None
  end.

(** ** The node *)

(** The data of a command by its action. *)
Inductive nodeCmd : Type :=
| set_name (name : bytes)
| set_header (header : Attributes)
| join (group : bytes)
| leave (group : bytes)
| whisper (peer : bytes) (message : list bytes)
| shout (group : bytes) (message : list bytes).

Record NodeConfig : Type := mkNodeConfig {
  cf_Name : bytes;
  cf_Headers : option Attributes;
  cf_Port : Z;
  cf_Interval : Z;
  cf_Security : option SecurityConfig }.

Definition zero_cf : NodeConfig := mkNodeConfig [] None 0 0 None.

(** [nd_commands]: the commands queued, each with the call that waits for its
    reply; [nd_replies]: the replies that wait in the channels of calls (nil is
    [None]); [nd_loop]: [commandLoop] has not returned; [nd_cancelled] and
    [nd_closed]: how far [Stop] is. [nd_beacon] and [nd_discoveries]: the
    channels of the beacon and of the peer manager. *)
Record Node (Sec : Type) : Type := mkNode {
  nd_uuid : bytes;
  nd_name : bytes;
  nd_headers : Attributes;
  nd_groups : gset bytes;
  nd_port : Z;
  nd_sequence : Z;
  nd_security : SecurityManager Sec;
  nd_commands : list (nat * nodeCmd);
  nd_replies : gmap nat (option error);
  nd_loop : bool;
  nd_cancelled : bool;
  nd_closed : bool;
  nd_interval : Z;
  nd_beacon : list Discovery;
  nd_discoveries : list Discovery;
  nd_world : ZWorld }.

Arguments mkNode {Sec}.
Arguments nd_uuid {Sec}.
Arguments nd_name {Sec}.
Arguments nd_headers {Sec}.
Arguments nd_groups {Sec}.
Arguments nd_port {Sec}.
Arguments nd_sequence {Sec}.
Arguments nd_security {Sec}.
Arguments nd_commands {Sec}.
Arguments nd_replies {Sec}.
Arguments nd_loop {Sec}.
Arguments nd_cancelled {Sec}.
Arguments nd_closed {Sec}.
Arguments nd_interval {Sec}.
Arguments nd_beacon {Sec}.
Arguments nd_discoveries {Sec}.
Arguments nd_world {Sec}.

Section node.
Context {Sec : Type} (NewSecurityClient : bytes → bytes → bytes → outcome Sec)
  (range : Attributes → list (bytes * bytes)).
Abbreviation Node := (Node Sec).

Definition set_nd_name (v : bytes) (n : Node) : Node :=
  mkNode (nd_uuid n) v (nd_headers n) (nd_groups n) (nd_port n) (nd_sequence n) (nd_security n) (nd_commands n) (nd_replies n)
    (nd_loop n) (nd_cancelled n) (nd_closed n) (nd_interval n) (nd_beacon n) (nd_discoveries n) (nd_world n).
Definition set_nd_headers (v : Attributes) (n : Node) : Node :=
  mkNode (nd_uuid n) (nd_name n) v (nd_groups n) (nd_port n) (nd_sequence n) (nd_security n) (nd_commands n) (nd_replies n)
    (nd_loop n) (nd_cancelled n) (nd_closed n) (nd_interval n) (nd_beacon n) (nd_discoveries n) (nd_world n).
Definition set_nd_groups (v : gset bytes) (n : Node) : Node :=
  mkNode (nd_uuid n) (nd_name n) (nd_headers n) v (nd_port n) (nd_sequence n) (nd_security n) (nd_commands n) (nd_replies n)
    (nd_loop n) (nd_cancelled n) (nd_closed n) (nd_interval n) (nd_beacon n) (nd_discoveries n) (nd_world n).
Definition set_nd_sequence (v : Z) (n : Node) : Node :=
  mkNode (nd_uuid n) (nd_name n) (nd_headers n) (nd_groups n) (nd_port n) v (nd_security n) (nd_commands n) (nd_replies n)
    (nd_loop n) (nd_cancelled n) (nd_closed n) (nd_interval n) (nd_beacon n) (nd_discoveries n) (nd_world n).
Definition set_nd_security (v : SecurityManager Sec) (n : Node) : Node :=
  mkNode (nd_uuid n) (nd_name n) (nd_headers n) (nd_groups n) (nd_port n) (nd_sequence n) v (nd_commands n) (nd_replies n)
    (nd_loop n) (nd_cancelled n) (nd_closed n) (nd_interval n) (nd_beacon n) (nd_discoveries n) (nd_world n).
Definition set_nd_calls (cs : list (nat * nodeCmd)) (rs : gmap nat (option error)) (n : Node) : Node :=
  mkNode (nd_uuid n) (nd_name n) (nd_headers n) (nd_groups n) (nd_port n) (nd_sequence n) (nd_security n) cs rs
    (nd_loop n) (nd_cancelled n) (nd_closed n) (nd_interval n) (nd_beacon n) (nd_discoveries n) (nd_world n).
Definition set_nd_status (loop cancelled closed : bool) (n : Node) : Node :=
  mkNode (nd_uuid n) (nd_name n) (nd_headers n) (nd_groups n) (nd_port n) (nd_sequence n) (nd_security n) (nd_commands n) (nd_replies n)
    loop cancelled closed (nd_interval n) (nd_beacon n) (nd_discoveries n) (nd_world n).
Definition set_nd_found (beacon discoveries : list Discovery) (n : Node) : Node :=
  mkNode (nd_uuid n) (nd_name n) (nd_headers n) (nd_groups n) (nd_port n) (nd_sequence n) (nd_security n) (nd_commands n) (nd_replies n)
    (nd_loop n) (nd_cancelled n) (nd_closed n) (nd_interval n) beacon discoveries (nd_world n).
Definition set_nd_world (v : ZWorld) (n : Node) : Node :=
  mkNode (nd_uuid n) (nd_name n) (nd_headers n) (nd_groups n) (nd_port n) (nd_sequence n) (nd_security n) (nd_commands n) (nd_replies n)
    (nd_loop n) (nd_cancelled n) (nd_closed n) (nd_interval n) (nd_beacon n) (nd_discoveries n) v.

(** [NewNode]; [rand] is what [rand.Read] gives for the UUID. *)
Definition NewNode (rand : outcome bytes) (config : option NodeConfig) : outcome Node :=
  match rand with
  | Fail e => Fail (Wrap "failed to generate UUID" e)
  | Panic p => Panic p
  | Ret uuid =>
      let config := default zero_cf config in
      let name := if decide (cf_Name config = []) then gs "node-" ++ fmt_x (take 4 uuid) else cf_Name config in
      let interval := if decide (cf_Interval config = 0) then DefaultBeaconInterval else cf_Interval config in
      match NewSecurityManager NewSecurityClient (cf_Security config) with
      | Fail e => Fail (Wrap "failed to create security manager" e)
      | Panic p => Panic p
      | Ret securityMgr =>
          Ret (mkNode uuid name (default ∅ (cf_Headers config)) ∅ (cf_Port config) 0 securityMgr [] ∅ false false false interval [] []
                 (zw_empty 1000 DefaultPeerExpiration))
      end
  end.

Definition Node_UUID (n : Node) : bytes := fmt_x (nd_uuid n).

(** [Events]: a listener with a buffer of 100 events. *)
Definition Node_Events (n : Node) : nat * Node :=
  let w := nd_world n in
  let '(listener, ec) := ec_Subscribe 100 (zw_events w) in
  (listener, set_nd_world (mkZWorld (zw_heap w) (zw_peers w) (zw_groups w) ec (zw_expiration w)) n).

(** The old manager is closed, the new one is used by the next [Start]. *)
Definition Node_SetSecurity (config : option SecurityConfig) : M Node unit :=
  newSecurityMgr ← wrapE "failed to create new security manager" (lift (NewSecurityManager NewSecurityClient config));
  mupd (set_nd_security newSecurityMgr).

(** ** Commands *)

(** The functions that are to tell the peers; they are empty in the source. *)
Definition broadcastJoin (group : bytes) (w : ZWorld) : ZWorld := w.
Definition broadcastLeave (group : bytes) (w : ZWorld) : ZWorld := w.
Definition sendWhisper (peerUUID : bytes) (message : list bytes) (w : ZWorld) : option error * ZWorld := (None, w).
Definition sendShout (group : bytes) (message : list bytes) (w : ZWorld) : option error * ZWorld := (None, w).

Definition put_header (headers : Attributes) (kv : bytes * bytes) : Attributes := <[kv.1 := kv.2]> headers.

(** What is sent on the command's reply channel, and the node after it. *)
Definition node_handleCommand (cmd : nodeCmd) (n : Node) : option error * Node :=
  match cmd with
  | set_name name => (None, set_nd_name name n)
  | set_header header => (None, set_nd_headers (foldl put_header (nd_headers n) (range header)) n)
  | join group =>
      let n := set_nd_groups ({[group]} ∪ nd_groups n) n in
      (None, set_nd_world (broadcastJoin group (nd_world n)) n)
  | leave group =>
      let n := set_nd_groups (nd_groups n ∖ {[group]}) n in
      (None, set_nd_world (broadcastLeave group (nd_world n)) n)
  | whisper peer message =>
      let '(err, w) := sendWhisper peer message (nd_world n) in (err, set_nd_world w n)
  | shout group message =>
      let '(err, w) := sendShout group message (nd_world n) in (err, set_nd_world w n)
  end.

(** One turn of [commandLoop]: the next command; its reply goes into the
    buffer of the reply channel. *)
Definition command_turn (n : Node) : option Node :=
  match nd_commands n with
  | (id, cmd) :: rest =>
      let '(err, n) := node_handleCommand cmd (set_nd_calls rest (nd_replies n) n) in
      Some (set_nd_calls (nd_commands n) (<[id := err]> (nd_replies n)) n)
  | [] => None
  end.

(** [choice] is the case taken when both are ready; after [Stop] the channel is
    closed, and a send on it is ready and panics. *)
Definition node_call (choice : bool) (id : nat) (cmd : nodeCmd) (n : Node) : call * Node :=
  let room := bool_decide (length (nd_commands n) < 100)%nat in
  if nd_closed n then (if choice then CallPanics else CallCancelled, n)
  else if nd_cancelled n && negb (room && choice) then (CallCancelled, n)
  else if room then (CallQueued, set_nd_calls (nd_commands n ++ [(id, cmd)]) (nd_replies n) n)
  else (CallBlocks, n).

Definition Node_SetName (choice : bool) (id : nat) (name : bytes) : Node → call * Node := node_call choice id (set_name name).
Definition Node_SetHeader (choice : bool) (id : nat) (key value : bytes) : Node → call * Node :=
  node_call choice id (set_header {[key := value]}).
Definition Node_Join (choice : bool) (id : nat) (group : bytes) : Node → call * Node := node_call choice id (join group).
Definition Node_Leave (choice : bool) (id : nat) (group : bytes) : Node → call * Node := node_call choice id (leave group).
Definition Node_Whisper (choice : bool) (id : nat) (peerUUID : bytes) (message : list bytes) : Node → call * Node :=
  node_call choice id (whisper peerUUID message).
Definition Node_Shout (choice : bool) (id : nat) (group : bytes) (message : list bytes) : Node → call * Node :=
  node_call choice id (shout group message).

(** [<-reply]: what a queued call returns, when its reply is there. *)
Definition node_return (id : nat) (n : Node) : option (option error * Node) :=
  match nd_replies n !! id with
  | Some r => Some (r, set_nd_calls (nd_commands n) (delete id (nd_replies n)) n)
  | None => None
  end.

(** ** Messages received *)

Definition node_publish (event : Event) (n : Node) : Node := set_nd_world (publish_event event (nd_world n)) n.

Definition node_nextSequence (n : Node) : Z * Node :=
  let s := wrapu 16 (nd_sequence n + 1) in (s, set_nd_sequence s n).

(** The decoders run on a zero value; on an error nothing happens. What HELLO
    says is decoded and not used. *)
Definition handleHello (msg : zreMessage) (n : Node) : Node :=
  let '(_, hello) := Hello_Unmarshal (zm_Body msg) zero_hl in n.

Definition handleWhisper (msg : zreMessage) (n : Node) : Node :=
  match Whisper_Unmarshal (zm_Body msg) (mkWhisper []) with
  | (Ret _, w) => node_publish (NewWhisperEvent (fmt_x (zm_SenderUUID msg)) [] (wh_Content w)) n
  | _ => n
  end.

Definition handleShout (msg : zreMessage) (n : Node) : Node :=
  match Shout_Unmarshal (zm_Body msg) (mkShout [] []) with
  | (Ret _, s) => node_publish (NewShoutEvent (fmt_x (zm_SenderUUID msg)) [] (so_Group s) (so_Content s)) n
  | _ => n
  end.

Definition handleJoin (msg : zreMessage) (n : Node) : Node :=
  match Join_Unmarshal (zm_Body msg) (mkJoin [] x00) with
  | (Ret _, j) => node_publish (NewJoinEvent (fmt_x (zm_SenderUUID msg)) [] (jn_Group j)) n
  | _ => n
  end.

Definition handleLeave (msg : zreMessage) (n : Node) : Node :=
  match Leave_Unmarshal (zm_Body msg) (mkLeave [] x00) with
  | (Ret _, l) => node_publish (NewLeaveEvent (fmt_x (zm_SenderUUID msg)) [] (lv_Group l)) n
  | _ => n
  end.

(** The answer is built and dropped. *)
Definition handlePing (msg : zreMessage) (n : Node) : Node := (node_nextSequence n).2.
Definition handlePingOK (msg : zreMessage) (n : Node) : Node := n.

Definition handleIncomingMessage (msg : zreMessage) (n : Node) : Node :=
  let t := zm_Type msg in
  if decide (t = MessageTypeHello) then handleHello msg n
  else if decide (t = MessageTypeWhisper) then handleWhisper msg n
  else if decide (t = MessageTypeShout) then handleShout msg n
  else if decide (t = MessageTypeJoin) then handleJoin msg n
  else if decide (t = MessageTypeLeave) then handleLeave msg n
  else if decide (t = MessageTypePing) then handlePing msg n
  else if decide (t = MessageTypePingOK) then handlePingOK msg n
  else n.

(** A message of [incomingLoop]. *)
Definition incoming_turn (msg : Msg) (n : Node) : Node :=
  match zre_Unmarshal (Msg_Bytes msg) zero_zm with
  | (Ret _, zreMsg) => handleIncomingMessage zreMsg n
  | _ => n
  end.

(** ** Discoveries *)

(** A datagram of the beacon's [listenLoop]; the buffer has [BeaconSize] bytes,
    the rest of a longer datagram is cut off. *)
Definition beacon_receive (datagram sourceIP : bytes) (n : Node) : Node :=
  match zre_parseBeacon (nd_uuid n) (take BeaconSize datagram) sourceIP with
  | Some d => if decide (length (nd_beacon n) < 100)%nat then set_nd_found (nd_beacon n ++ [d]) (nd_discoveries n) n else n
  | None => n
  end.

(** One turn of [discoveryLoop]; [None] when it waits, for a discovery or for
    room in the peer manager's channel. *)
Definition discovery_turn (n : Node) : option Node :=
  match nd_beacon n with
  | d :: rest => if decide (length (nd_discoveries n) < 100)%nat then Some (set_nd_found rest (nd_discoveries n ++ [d]) n) else None
  | [] => None
  end.

(** One turn of the peer manager's [discoveryLoop]. *)
Definition peers_turn (dial : bytes → bool) (now : Z) (n : Node) : option Node :=
  match nd_discoveries n with
  | d :: rest => Some (set_nd_world (handleDiscovery dial now d (nd_world n)) (set_nd_found (nd_beacon n) rest n))
  | [] => None
  end.

(** ** Steps *)

(** A call has a reply channel of its own: its number is fresh. [commandLoop]
    returns at some time after the context is cancelled, and handles commands
    until then; [Stop] closes the channel after that. *)
Inductive node_step : Node → Node → Prop :=
| NLoop n : nd_loop n = false → nd_cancelled n = false → node_step n (set_nd_status true false (nd_closed n) n)
| NCall choice id cmd n n' :
    id ∉ (nd_commands n).*1 → nd_replies n !! id = None → node_call choice id cmd n = (CallQueued, n') → node_step n n'
| NCommand n n' : nd_loop n = true → command_turn n = Some n' → node_step n n'
| NReturn id r n n' : node_return id n = Some (r, n') → node_step n n'
| NIncoming msg n : node_step n (incoming_turn msg n)
| NDatagram datagram ip n : node_step n (beacon_receive datagram ip n)
| NDiscovery n n' : discovery_turn n = Some n' → node_step n n'
| NPeers dial now n n' : peers_turn dial now n = Some n' → node_step n n'
| NWorld w n : z_step (nd_world n) w → node_step n (set_nd_world w n)
| NSecurity config r n n' : Node_SetSecurity config n = (r, n') → node_step n n'
| NCancel n : node_step n (set_nd_status (nd_loop n) true (nd_closed n) n)
| NLoopExit n : nd_cancelled n = true → node_step n (set_nd_status false true (nd_closed n) n)
| NClose n : nd_cancelled n = true → nd_loop n = false → node_step n (set_nd_status false true true n).
End node.
