(* ===== verification/ZyreNodeFacts.v ===== *)
(** * ZyreNodeFacts: what a Zyre node does with commands, messages and beacons *)

From Stdlib Require Import Strings.Byte ZArith Lia.
From stdpp Require Import base strings pretty numbers gmap relations list.
From S2P Require Import Prelude Zmtp Conn ConnFacts Sockets SocketFacts Reader ZyreMessage ZyreEvents ZyrePeers ZyreSecurity ZyreNode.

#[local] Open Scope Z_scope.
#[local] Set Default Goal Selector "!".

(** ** Commands *)

(** The node's name, headers and groups after commands, as functions of the
    commands alone. *)
Definition name_after (cmds : list nodeCmd) (name : bytes) : bytes :=
  foldl (fun name c => match c with set_name v => v | _ => name end) name cmds.

Definition header_after (key : bytes) (cmds : list nodeCmd) (v : option bytes) : option bytes :=
  foldl (fun v c => match c with set_header h => h !! key ∪ v | _ => v end) v cmds.

Definition member_after (g : bytes) (cmds : list nodeCmd) (b : bool) : bool :=
  foldl (fun b c => match c with join g' => bool_decide (g' = g) || b | leave g' => negb (bool_decide (g' = g)) && b | _ => b end) b cmds.

Section commands.
Context {Sec : Type} (range : Attributes → list (bytes * bytes)) (Hrange : range_order range).
Implicit Types n : Node Sec.

Lemma put_headers_range (h header : Attributes) key : foldl put_header h (range header) !! key = header !! key ∪ h !! key.
Proof.
  change put_header with (fun (m : Attributes) kv => <[kv.1 := kv.2]> m).
  rewrite foldl_insert_union, lookup_union by (by apply range_order_NoDup). f_equal.
  rewrite (list_to_map_proper _ (map_to_list header)); [by rewrite list_to_map_to_list|by apply range_order_NoDup|apply Hrange].
Qed.

(** A queue of commands handled in one go. *)
Fixpoint command_turns (k : nat) (n : Node Sec) : option (Node Sec) :=
  match k with
  | O => Some n
  | S k => n ← command_turn range n; command_turns k n
  end.

(** One command: every field it may change, and the frame. *)
Lemma handled_command id cmd rest n :
  nd_commands n = (id, cmd) :: rest →
  ∃ n', command_turn range n = Some n' ∧ nd_commands n' = rest ∧ nd_replies n' = <[id := None]> (nd_replies n) ∧
    nd_name n' = name_after [cmd] (nd_name n) ∧
    (∀ key, nd_headers n' !! key = header_after key [cmd] (nd_headers n !! key)) ∧
    (∀ g, bool_decide (g ∈ nd_groups n') = member_after g [cmd] (bool_decide (g ∈ nd_groups n))) ∧
    nd_world n' = nd_world n ∧ nd_sequence n' = nd_sequence n.
Proof.
  intros Hq. unfold command_turn. rewrite Hq.
  destruct cmd as [v|h|g|g|p m|g m]; cbn; (eexists; split; [reflexivity|]); cbn; split_and!; try done.
  - intros key. apply put_headers_range.
  - intros g'. repeat case_bool_decide; set_solver.
  - intros g'. repeat case_bool_decide; set_solver.
Qed.

(** Commands are handled in the order they were queued, each once: when the
    loop has taken the queue, every waiting call has the answer nil, the name
    is the last one set, every header has the value it was last given, and the
    node is in exactly the groups it joined last or was in and has not left. Joining, leaving,
    whispering and shouting queue nothing for any peer and publish no event. *)
Theorem node_commands n :
  ∃ n', command_turns (length (nd_commands n)) n = Some n' ∧ nd_commands n' = [] ∧
    (∀ id, nd_replies n' !! id = if decide (id ∈ (nd_commands n).*1) then Some None else nd_replies n !! id) ∧
    nd_name n' = name_after (nd_commands n).*2 (nd_name n) ∧
    (∀ key, nd_headers n' !! key = header_after key (nd_commands n).*2 (nd_headers n !! key)) ∧
    (∀ g, bool_decide (g ∈ nd_groups n') = member_after g (nd_commands n).*2 (bool_decide (g ∈ nd_groups n))) ∧
    nd_world n' = nd_world n.
Proof.
  remember (nd_commands n) as q eqn:Hq. revert n Hq. induction q as [|[id cmd] q IH]; intros n Hq; cbn [length command_turns].
  - exists n. by split_and!.
  - destruct (handled_command id cmd q n (eq_sym Hq)) as (n1 & E & Hq1 & Hr1 & Hname1 & Hh1 & Hg1 & Hw1 & _).
    destruct (IH n1 (eq_sym Hq1)) as (n2 & E2 & Hq2 & Hr2 & Hname2 & Hh2 & Hg2 & Hw2).
    exists n2. rewrite E. cbn. split_and!; try done.
    + intros i. cbn. rewrite Hr2, Hr1. destruct (decide (i = id)) as [->|Hne].
      * rewrite lookup_insert_eq, (decide_True (P := id ∈ id :: q.*1)) by apply list_elem_of_here. by case_decide.
      * rewrite lookup_insert_ne by done. repeat case_decide; set_solver.
    + by rewrite Hname2, Hname1.
    + intros key. by rewrite Hh2, Hh1.
    + intros g. by rewrite Hg2, Hg1.
    + by rewrite Hw2.
Qed.
End commands.

(** ** Messages *)

Section messages.
Context {Sec : Type} (NewSecurityClient : bytes → bytes → bytes → outcome Sec) (range : Attributes → list (bytes * bytes)).
Implicit Types n : Node Sec.

(** What one message can do to a node. *)
Lemma incoming_shape msg n :
  incoming_turn msg n = n ∨ (∃ ev, incoming_turn msg n = node_publish ev n) ∨ incoming_turn msg n = (node_nextSequence n).2.
Proof.
  unfold incoming_turn. destruct (zre_Unmarshal _ _) as [[ | | ] m]; [|by left..].
  unfold handleIncomingMessage. repeat case_decide; auto.
  - left. unfold handleHello. by destruct (Hello_Unmarshal _ _).
  - unfold handleWhisper. destruct (Whisper_Unmarshal _ _) as [[ | | ] ?]; eauto.
  - unfold handleShout. destruct (Shout_Unmarshal _ _) as [[ | | ] ?]; eauto.
  - unfold handleJoin. destruct (Join_Unmarshal _ _) as [[ | | ] ?]; eauto.
  - unfold handleLeave. destruct (Leave_Unmarshal _ _) as [[ | | ] ?]; eauto.
Qed.

(** A call whose command is queued and whose reply will not come. *)
Definition lost (id : nat) (n : Node Sec) : Prop :=
  nd_loop n = false ∧ nd_cancelled n = true ∧ id ∈ (nd_commands n).*1 ∧ nd_replies n !! id = None.

Lemma lost_step id n n' : node_step NewSecurityClient range n n' → lost id n → lost id n'.
Proof.
  intros Hstep Hl. pose proof Hl as (Hloop & Hc & Hin & Hr). destruct Hstep as [| ? ? ? ? ? Hi Hri E | | ? ? ? ? E| | | ? ? E| ? ? ? ? E | | ? ? ? ? E | | |]; try done; try congruence.
  - unfold node_call in E. rewrite Hc in E. repeat case_match; simplify_eq. unfold lost. cbn. rewrite fmap_app, elem_of_app. auto.
  - unfold node_return in E. case_match; simplify_eq. unfold lost. cbn. split_and!; try done. rewrite lookup_delete_None. auto.
  - destruct (incoming_shape msg n) as [->|[[ev ->]| ->]]; done.
  - unfold beacon_receive. repeat case_match; done.
  - unfold discovery_turn in E. repeat case_match; simplify_eq; done.
  - unfold peers_turn in E. repeat case_match; simplify_eq; done.
  - unfold Node_SetSecurity, wrapE, lift, mupd, mbind, M_bind in E. destruct (NewSecurityManager _ _); simplify_eq; done.
Qed.

(** A call that meets [Stop] waits forever: once the command loop has
    returned, a command that is still queued is never answered, whatever else
    the node does, although the context is cancelled. *)
Theorem node_calls_lost id n n' :
  nd_loop n = false → nd_cancelled n = true → id ∈ (nd_commands n).*1 → nd_replies n !! id = None →
  rtc (node_step NewSecurityClient range) n n' → node_return id n' = None ∧ id ∈ (nd_commands n').*1.
Proof.
  intros Hloop Hc Hin Hr Hrun. assert (Hl : lost id n) by done. clear Hloop Hc Hin Hr.
  induction Hrun as [n|n n1 n2 Hstep _ IH]; [|by eapply IH, lost_step].
  destruct Hl as (_ & _ & Hin & Hr). unfold node_return. by rewrite Hr.
Qed.

(** ** Payloads *)

(** What a peer may have to say, as it is said on the wire and as the node
    reports it. *)
Inductive payload : Type :=
| PWhisper (frames : list bytes)
| PShout (group : bytes) (frames : list bytes)
| PJoin (group : bytes) (status : byte)
| PLeave (group : bytes) (status : byte).

Definition payload_ok (p : payload) : Prop :=
  match p with
  | PWhisper frames => content_ok frames
  | PShout group frames => len group <= 255 ∧ content_ok frames
  | PJoin group _ | PLeave group _ => len group <= 255
  end.

Definition payload_body (p : payload) : byte * outcome bytes :=
  match p with
  | PWhisper frames => (MessageTypeWhisper, Whisper_Marshal (mkWhisper frames))
  | PShout group frames => (MessageTypeShout, Shout_Marshal (mkShout group frames))
  | PJoin group status => (MessageTypeJoin, Join_Marshal (mkJoin group status))
  | PLeave group status => (MessageTypeLeave, Leave_Marshal (mkLeave group status))
  end.

Definition payload_message (seq : Z) (uuid : bytes) (p : payload) : outcome Msg :=
  let '(t, o) := payload_body p in
  body ← o; Peer_sendMessage (mkZre ZreVersion t seq uuid body).

Definition payload_event (uuid : bytes) (p : payload) : Event :=
  match p with
  | PWhisper frames => NewWhisperEvent (fmt_x uuid) [] frames
  | PShout group frames => NewShoutEvent (fmt_x uuid) [] group frames
  | PJoin group _ => NewJoinEvent (fmt_x uuid) [] group
  | PLeave group _ => NewLeaveEvent (fmt_x uuid) [] group
  end.

(** An envelope that is read back. *)
Lemma incoming_message v t seq uuid body n :
  0 <= seq < 2 ^ 16 → length uuid = 16%nat →
  ∃ msg, Peer_sendMessage (mkZre v t seq uuid body) = Ret msg ∧ Frames msg ≠ [] ∧
    incoming_turn msg n = handleIncomingMessage (mkZre v t seq uuid body) n.
Proof.
  intros Hs Hu. destruct (zre_round_trips (fun m => map_to_list m) (mkZre v t seq uuid body)) as (data & Hm & Hd); [apply map_to_list_range_order|done|].
  cbn in Hm, Hd. unfold Peer_sendMessage. rewrite Hm. cbn. eexists. split_and!; [reflexivity|done|].
  unfold incoming_turn, Msg_Bytes. cbn [Frames NewMsgFrom foldl app]. by rewrite Hd.
Qed.

Lemma payload_received seq uuid p n :
  payload_ok p → 0 <= seq < 2 ^ 16 → length uuid = 16%nat →
  ∃ msg, payload_message seq uuid p = Ret msg ∧ incoming_turn msg n = node_publish (payload_event uuid p) n.
Proof.
  intros Hp Hs Hu. pose proof zre_codecs as (_ & _ & Hw & Hsh & Hj & Hl).
  destruct p as [frames|g frames|g st|g st]; unfold payload_message; cbn [payload_body payload_ok] in *;
    [destruct (Hw (fun m => map_to_list m) (mkWhisper frames)) as (body & Hm & Hd)
    |destruct (Hsh (fun m => map_to_list m) (mkShout g frames)) as (body & Hm & Hd)
    |destruct (Hj (fun m => map_to_list m) (mkJoin g st)) as (body & Hm & Hd)
    |destruct (Hl (fun m => map_to_list m) (mkLeave g st)) as (body & Hm & Hd)]; try apply map_to_list_range_order; try done;
    cbn in Hm, Hd; rewrite Hm; cbn [mbind outcome_bind];
    (edestruct incoming_message as (msg & E & _ & Hi); [exact Hs|exact Hu|]); exists msg; (split; [exact E|]); rewrite Hi;
    unfold handleIncomingMessage; cbn [zm_Type]; repeat (rewrite decide_False by done); rewrite decide_True by done;
    unfold handleWhisper, handleShout, handleJoin, handleLeave; cbn [zm_Body zm_SenderUUID]; by rewrite Hd.
Qed.

(** Bytes that do not begin with the signature are no message. *)
Lemma unsigned_dropped msg b rest n : Msg_Bytes msg = b :: rest → b ≠ ZreSignature1 → incoming_turn msg n = n.
Proof.
  intros E Hb. unfold incoming_turn. rewrite E. unfold zre_Unmarshal. case_decide; [done|].
  unfold decode, on_snd, rd_byte, mbind, M_bind. destruct rest as [|b2 rest]; [done|]. by rewrite decide_True by (by left).
Qed.

(** What a node makes of a message: a WHISPER, SHOUT, JOIN or LEAVE that a
    peer encodes becomes exactly one event with its contents, from the UUID
    that stands in the message, which nothing compares with the sender; a PING
    moves the sequence number on, modulo 2^16, and is not answered; HELLO,
    PING-OK and unknown types do nothing; and bytes that are not a message do
    nothing. *)
Theorem node_receives seq uuid p n :
  payload_ok p → 0 <= seq < 2 ^ 16 → length uuid = 16%nat →
  (∃ msg, payload_message seq uuid p = Ret msg ∧ incoming_turn msg n = node_publish (payload_event uuid p) n) ∧
  (∀ t body, t = MessageTypeHello ∨ t = MessageTypePingOK ∨ 7 < byte_Z t →
     ∃ msg, Peer_sendMessage (mkZre ZreVersion t seq uuid body) = Ret msg ∧ incoming_turn msg n = n) ∧
  (∀ body, ∃ msg, Peer_sendMessage (mkZre ZreVersion MessageTypePing seq uuid body) = Ret msg ∧
     incoming_turn msg n = set_nd_sequence ((nd_sequence n + 1) mod 2 ^ 16) n) ∧
  (∀ msg, (zre_Unmarshal (Msg_Bytes msg) zero_zm).1 ≠ Ret tt → incoming_turn msg n = n).
Proof.
  intros Hp Hs Hu. split; [by apply payload_received|]. split_and!.
  - intros t body Ht. destruct (incoming_message ZreVersion t seq uuid body n Hs Hu) as (msg & E & _ & Hi). exists msg. split; [done|].
    rewrite Hi. unfold handleIncomingMessage. cbn [zm_Type]. unfold handleHello. destruct (Hello_Unmarshal _ _).
    repeat case_decide; subst; try done; exfalso; destruct Ht as [|[|Ht]]; done.
  - intros body. destruct (incoming_message ZreVersion MessageTypePing seq uuid body n Hs Hu) as (msg & E & _ & Hi). exists msg.
    split; [done|]. by rewrite Hi.
  - intros msg Hf. unfold incoming_turn. by destruct (zre_Unmarshal _ _) as [[[]| |] m].
Qed.
End messages.

(** ** Through the ROUTER socket *)

Lemma Msg_Bytes_cons id frames t mp e : Msg_Bytes (mkMsg (id :: frames) t mp e) = id ++ concat frames.
Proof.
  unfold Msg_Bytes. cbn [Frames foldl]. rewrite app_nil_l. revert id. induction frames as [|f frames IH]; intros id; cbn [foldl concat].
  - by rewrite app_nil_r.
  - by rewrite IH, app_assoc.
Qed.

Lemma hex_not_signed uuid b rest : fmt_x uuid = b :: rest → b ≠ ZreSignature1.
Proof.
  destruct uuid as [|c uuid]; [done|]. cbn. intros [= <- _] E. pose proof (byte_Z_range c).
  assert (Hd : hex_value (hex_digit (byte_Z c / 16)) = Some (byte_Z c / 16)).
  { apply hex_value_digit. split; [by apply Z.div_pos; lia|apply Z.div_lt_upper_bound; lia]. }
  rewrite E in Hd. by vm_compute in Hd.
Qed.

(** A node hears nobody: its ROUTER socket puts the identity of the sender
    in front of every message, and the node reads the frames of a message
    joined together, so what a peer writes, whatever it is, reaches the node as
    bytes that begin with the identity and is dropped, unless the identity
    itself begins with the byte 0xAA. No identity that is a number in
    hexadecimal does. *)
Theorem node_hears_nobody {SS Sec} (sec : secops SS) `{!Transparent sec} (maxAlloc : Z) (p : cptr) (st : gmap cptr (Conn SS)) ro c frames r
    (n : Node Sec) b id :
  st !! p = Some c → live c → frames ≠ [] → fits maxAlloc frames → nc_in (c_rw c) = msg_wire false frames ++ r →
  peer_id c = b :: id → b ≠ ZreSignature1 → ro_rsem ro = true → ro_c ro = [] →
  (∃ ro1 msg ro2, routerQReader_listen sec maxAlloc p (st, ro) = (Ret true, (<[p := reading r c]> st, ro1)) ∧
     routerQReader_read (<[p := reading r c]> st, ro1) = (Ret (Some msg), (<[p := reading r c]> st, ro2)) ∧
     Frames msg = (b :: id) :: frames ∧ incoming_turn msg n = n) ∧
  (∀ uuid, fmt_x uuid = b :: id → b ≠ ZreSignature1).
Proof.
  intros Hp Hl Hne Hf Hin Hid Hb Hsem Hq. split; [|intros uuid; apply hex_not_signed].
  eexists _, (mkMsg ((b :: id) :: frames) UsrMsg false None), _. split_and!.
  - unfold routerQReader_listen. mstep (eapply on_conn_eq; [done|reflexivity]). rewrite insert_id by done.
    mstep (eapply (on_conn_read sec maxAlloc); done). cbn [msgerr NewMsgFrom]. mstep reflexivity. rewrite Hid, Hq. cbn [app Frames Typ multipart NewMsgFrom].
    reflexivity.
  - unfold routerQReader_read. mstep reflexivity. cbn [ro_rsem ro_c]. rewrite Hsem. mstep reflexivity. reflexivity.
  - done.
  - eapply unsigned_dropped; [by rewrite Msg_Bytes_cons|done].
Qed.

(** ** Discoveries *)

Definition found_endpoint (ip : bytes) (port : Z) : bytes := gs "tcp://" ++ ip ++ gs ":" ++ gs (pretty port).

Lemma beacon_queued {Sec} uuid port ip extra (n : Node Sec) :
  length uuid = 16%nat → 0 <= port < 65536 → nd_beacon n = [] →
  beacon_receive (zre_beacon uuid port ++ extra) ip n =
  if decide (uuid = nd_uuid n) then n else set_nd_found [mkDiscovery uuid port ip] (nd_discoveries n) n.
Proof.
  intros Hu Hp Hb. unfold beacon_receive. rewrite <- (length_zre_beacon uuid port Hu), take_app_length.
  destruct (zre_beacon_read uuid port (nd_uuid n) ip Hu Hp) as [-> _]. case_decide; [done|]. rewrite Hb, decide_True by (cbn; lia). done.
Qed.

(** From a beacon to a peer: the datagram another node broadcasts passes
    the beacon, the node's discovery loop and the peer manager; a node that was
    not known is then known under the hexadecimal form of its UUID, connected, at the
    address the datagram came from and the port it names, and an ENTER event is
    published, unless the connection fails, in which case nothing changes; a
    node that was known is marked as seen. A node's own beacons are dropped. *)
Theorem node_discovers {Sec} dial now uuid port ip extra (n : Node Sec) :
  length uuid = 16%nat → 0 < port < 65536 → nd_beacon n = [] → nd_discoveries n = [] → uuid ≠ nd_uuid n →
  let w := nd_world n in
  (length (nd_uuid n) = 16%nat → beacon_receive (zre_beacon (nd_uuid n) port ++ extra) ip n = n) ∧
  ∃ n2 n3, discovery_turn (beacon_receive (zre_beacon uuid port ++ extra) ip n) = Some n2 ∧ peers_turn dial now n2 = Some n3 ∧
    nd_beacon n3 = [] ∧ nd_discoveries n3 = [] ∧
    (∀ a, zw_peers w !! fmt_x uuid = Some a → nd_world n3 = upd_peer (Peer_UpdateLastSeen now) a w) ∧
    (zw_peers w !! fmt_x uuid = None →
     if dial (found_endpoint ip port) then
       ∃ a peer, zw_heap w !! a = None ∧ zw_peers (nd_world n3) = <[fmt_x uuid := a]> (zw_peers w) ∧ zw_heap (nd_world n3) = <[a := peer]> (zw_heap w) ∧
         zp_UUID peer = uuid ∧ zp_Endpoint peer = found_endpoint ip port ∧ zp_Connected peer = true ∧ zp_LastSeen peer = now ∧
         zw_events (nd_world n3) = ec_Publish (NewEnterEvent (fmt_x uuid) [] (found_endpoint ip port) ∅) (zw_events w)
     else nd_world n3 = w).
Proof.
  intros Hu Hp Hb Hd Hne w. split.
  { intros Ho. rewrite beacon_queued by (done || lia). by rewrite decide_True. }
  rewrite beacon_queued, decide_False by (done || lia).
  unfold discovery_turn. cbn [nd_beacon set_nd_found nd_discoveries]. rewrite Hd, decide_True by (cbn; lia).
  eexists. eexists. split; [reflexivity|]. unfold peers_turn. cbn [nd_discoveries set_nd_found app]. split; [reflexivity|].
  split; [done|]. split; [done|]. cbn [nd_world set_nd_found set_nd_world]. unfold handleDiscovery. cbn [ds_UUID ds_Port].
  rewrite decide_False by lia. split.
  - intros a Ha. fold w. by rewrite Ha.
  - intros Hn. fold w. rewrite Hn. unfold Peer_Start. cbn [zp_Connected NewPeer zp_Endpoint].
    change (endpoint_of (mkDiscovery uuid port ip)) with (found_endpoint ip port).
    destruct (dial (found_endpoint ip port)); [|done]. eexists (fresh (dom (zw_heap w))), _. split_and!; try reflexivity.
    apply not_elem_of_dom, is_fresh.
Qed.

(** ** Witnesses *)

Definition some_node : Node bytes :=
  mkNode (replicate 16 x07) (gs "node-07070707") ∅ ∅ 5670 0 (mkSecManager zero_sc {["NULL" := NullMechanism]} false) [] ∅ false false false
    DefaultBeaconInterval [] [] (zw_empty 1000 DefaultPeerExpiration).

Example some_node_new : NewNode some_client (Ret (replicate 16 x07)) (Some (mkNodeConfig [] None 5670 0 None)) = Ret some_node.
Proof. vm_compute. reflexivity. Qed.

Lemma node_commands_witness :
  ∃ n', command_turns map_to_list 3 (set_nd_calls [(1, join (gs "a")); (2, join (gs "b")); (3, leave (gs "a"))]%nat ∅ some_node) = Some n' ∧
    bool_decide (gs "a" ∈ nd_groups n') = false ∧ bool_decide (gs "b" ∈ nd_groups n') = true ∧ nd_replies n' !! 2%nat = Some None.
Proof.
  destruct (node_commands map_to_list map_to_list_range_order
    (set_nd_calls [(1, join (gs "a")); (2, join (gs "b")); (3, leave (gs "a"))]%nat ∅ some_node)) as (n' & E & _ & Hr & _ & _ & Hg & _).
  exists n'. split; [exact E|]. split_and!; [by rewrite Hg; vm_compute..|by rewrite Hr].
Defined.

Lemma node_calls_lost_witness :
  let n := set_nd_status false true false (set_nd_calls [(1%nat, join (gs "a"))] ∅ some_node) in
  node_return 1 (set_nd_status false true true n) = None.
Proof.
  intros n. apply (node_calls_lost some_client map_to_list 1 n); [done|done|set_solver|done|]. apply rtc_once. by apply NClose.
Defined.

Lemma node_receives_witness :
  ∃ msg, payload_message 9 (replicate 16 x05) (PShout (gs "chat") [gs "hi"]) = Ret msg ∧
    incoming_turn msg some_node = node_publish (NewShoutEvent (fmt_x (replicate 16 x05)) [] (gs "chat") [gs "hi"]) some_node.
Proof.
  apply (node_receives 9 (replicate 16 x05) (PShout (gs "chat") [gs "hi"]) some_node); [|lia|done].
  vm_compute. repeat split; repeat constructor; discriminate.
Defined.

Lemma node_hears_nobody_witness :
  let c := set_peer false {[sysSockID := gs "0705"]} (test_conn Router [x00; x01; xaa]) in
  ∃ ro1 msg ro2, routerQReader_listen nullSecurity 1000 1%nat ({[1%nat := c]}, mkRouter [1%nat] [] [] true true) =
      (Ret true, (<[1%nat := reading [] c]> {[1%nat := c]}, ro1)) ∧
    routerQReader_read (<[1%nat := reading [] c]> {[1%nat := c]}, ro1) = (Ret (Some msg), (<[1%nat := reading [] c]> {[1%nat := c]}, ro2)) ∧
    Frames msg = [gs "0705"; [xaa]] ∧ incoming_turn msg some_node = some_node.
Proof.
  intros c. destruct (node_hears_nobody nullSecurity 1000 1%nat {[1%nat := c]} (mkRouter [1%nat] [] [] true true) c [[xaa]] [] some_node x30 (gs "705"))
    as [H _]; try done.
  repeat constructor; vm_compute; discriminate.
Defined.

Lemma node_discovers_witness :
  let n := some_node in
  ∃ n2 n3, discovery_turn (beacon_receive (zre_beacon (replicate 16 x05) 5555 ++ []) (gs "10.0.0.5") n) = Some n2 ∧
    peers_turn (fun _ => true) 77 n2 = Some n3 ∧ ∃ a, zw_peers (nd_world n3) !! fmt_x (replicate 16 x05) = Some a.
Proof.
  intros n. destruct (node_discovers (fun _ => true) 77 (replicate 16 x05) 5555 (gs "10.0.0.5") [] n) as (_ & n2 & n3 & H1 & H2 & _ & _ & _ & H);
    [done|lia|done|done|done|].
  exists n2, n3. split_and!; [exact H1|exact H2|]. destruct (H eq_refl) as (a & peer & _ & E & _). exists a. rewrite E. by rewrite lookup_insert_eq.
Defined.
