(* ===== verification/ZyreEngine.v ===== *)
(** * ZyreEngine: the discovery engine of Zyre (src/zyre/discovery.go)

    The engine moves discoveries from the beacon and from its callers to the
    peer manager, counts each of them as a heartbeat, pings the peers and
    collects statistics. Its peers and groups are the [ZWorld] of ZyrePeers,
    where its check for expired peers is defined too. *)

From Stdlib Require Import Strings.Byte ZArith Lia.
From stdpp Require Import base strings pretty numbers gmap relations list.
From S2P Require Import Prelude Zmtp Reader ZyreMessage ZyreEvents ZyrePeers ZyrePeersFacts ZyreRuns ZyreLifecycle ZyreNode.

#[local] Open Scope Z_scope.
#[local] Set Default Goal Selector "!".

(** ** State *)

Record DiscoveryConfig : Type := mkDiscoveryConfig {
  dc_HeartbeatInterval : Z;
  dc_PeerTimeout : Z;
  dc_ConnectionTimeout : Z;
  dc_BeaconInterval : Z }.

Definition zre_DefaultHeartbeatInterval : Z := 1000 * 1000000.
Definition DefaultConnectionTimeout : Z := 1000 * 1000000.

Record HeartbeatMsg : Type := mkHeartbeat { hb_PeerUUID : bytes; hb_Timestamp : Z; hb_Source : bytes }.

(** [de_beaconFound]: the beacon's channel of discoveries; [de_discoveries]:
    the engine's own, for manual ones; [de_peerDiscoveries]: the peer
    manager's. *)
Record DiscoveryEngine : Type := mkEngine {
  de_nodeUUID : bytes;
  de_nodeName : bytes;
  de_nodePort : Z;
  de_beacon : BeaconState;
  de_beaconFound : list Discovery;
  de_discoveries : list Discovery;
  de_peerDiscoveries : list Discovery;
  de_heartbeats : list HeartbeatMsg;
  de_heartbeatInterval : Z;
  de_peerTimeout : Z;
  de_connectionTimeout : Z;
  de_running : bool;
  de_world : ZWorld }.

Definition set_de_port (port : Z) (b : BeaconState) (e : DiscoveryEngine) : DiscoveryEngine :=
  mkEngine (de_nodeUUID e) (de_nodeName e) port b (de_beaconFound e) (de_discoveries e) (de_peerDiscoveries e) (de_heartbeats e)
    (de_heartbeatInterval e) (de_peerTimeout e) (de_connectionTimeout e) (de_running e) (de_world e).
Definition set_de_queues (found manual peers : list Discovery) (e : DiscoveryEngine) : DiscoveryEngine :=
  mkEngine (de_nodeUUID e) (de_nodeName e) (de_nodePort e) (de_beacon e) found manual peers (de_heartbeats e)
    (de_heartbeatInterval e) (de_peerTimeout e) (de_connectionTimeout e) (de_running e) (de_world e).
Definition set_de_heartbeats (v : list HeartbeatMsg) (e : DiscoveryEngine) : DiscoveryEngine :=
  mkEngine (de_nodeUUID e) (de_nodeName e) (de_nodePort e) (de_beacon e) (de_beaconFound e) (de_discoveries e) (de_peerDiscoveries e) v
    (de_heartbeatInterval e) (de_peerTimeout e) (de_connectionTimeout e) (de_running e) (de_world e).
Definition set_de_world (v : ZWorld) (e : DiscoveryEngine) : DiscoveryEngine :=
  mkEngine (de_nodeUUID e) (de_nodeName e) (de_nodePort e) (de_beacon e) (de_beaconFound e) (de_discoveries e) (de_peerDiscoveries e) (de_heartbeats e)
    (de_heartbeatInterval e) (de_peerTimeout e) (de_connectionTimeout e) (de_running e) v.
Definition set_de_running (b : BeaconState) (v : bool) (e : DiscoveryEngine) : DiscoveryEngine :=
  mkEngine (de_nodeUUID e) (de_nodeName e) (de_nodePort e) b (de_beaconFound e) (de_discoveries e) (de_peerDiscoveries e) (de_heartbeats e)
    (de_heartbeatInterval e) (de_peerTimeout e) (de_connectionTimeout e) v (de_world e).

(** The defaults replace a missing configuration, not missing fields. *)
Definition NewDiscoveryEngine (nodeUUID nodeName : bytes) (nodePort : Z) (config : option DiscoveryConfig) : DiscoveryEngine :=
  let config := default (mkDiscoveryConfig zre_DefaultHeartbeatInterval DefaultPeerExpiration DefaultConnectionTimeout DefaultBeaconInterval) config in
  mkEngine nodeUUID nodeName nodePort (new_beacon nodePort) [] [] [] [] (dc_HeartbeatInterval config) (dc_PeerTimeout config)
    (dc_ConnectionTimeout config) false (zw_empty 1000 DefaultPeerExpiration).

(** [time.NewTicker] panics on an interval that is not positive. *)
Definition NewTicker (d : Z) : outcome unit := if decide (d <= 0) then Panic "non-positive interval for NewTicker" else Ret tt.

(** [Start] with the first statements of the loops it starts. *)
Definition Engine_Start (e : DiscoveryEngine) : outcome DiscoveryEngine :=
  if de_running e then Fail (Errorf "discovery engine already running")
  else
    match Beacon_Start (de_beacon e) with
    | Fail err => Fail (Wrap "failed to start beacon" err)
    | Panic p => Panic p
    | Ret b =>
        _ ← NewTicker (de_heartbeatInterval e);
        _ ← NewTicker (Z.quot (de_peerTimeout e) 2);
        Ret (set_de_running b true e)
    end.

(** ** Discoveries and heartbeats *)

Definition SendHeartbeat (now : Z) (peerUUID source : bytes) (e : DiscoveryEngine) : DiscoveryEngine :=
  if decide (length (de_heartbeats e) < 1000)%nat then set_de_heartbeats (de_heartbeats e ++ [mkHeartbeat peerUUID now source]) e else e.

(** One turn of [discoveryLoop] that takes a discovery of the beacon, or a
    manual one; [None] when it waits. *)
Definition engine_discovery_turn (manual : bool) (now : Z) (e : DiscoveryEngine) : option DiscoveryEngine :=
  if decide (length (de_peerDiscoveries e) < 100)%nat then
    match (if manual then de_discoveries e else de_beaconFound e) with
    | d :: rest =>
        Some (SendHeartbeat now (ds_UUID d) (gs (if manual then "manual" else "beacon"))
          (set_de_queues (if manual then de_beaconFound e else rest) (if manual then rest else de_discoveries e) (de_peerDiscoveries e ++ [d]) e))
    | [] => None
    end
  else None.

(** One heartbeat of [heartbeatLoop]. *)
Definition heartbeat_turn (now : Z) (e : DiscoveryEngine) : option DiscoveryEngine :=
  match de_heartbeats e with
  | h :: rest => Some (set_de_heartbeats rest (set_de_world (engine_processHeartbeat now (hb_PeerUUID h) (de_world e)) e))
  | [] => None
  end.

(** The peer manager's loop. *)
Definition engine_peers_turn (dial : bytes → bool) (now : Z) (e : DiscoveryEngine) : option DiscoveryEngine :=
  match de_peerDiscoveries e with
  | d :: rest => Some (set_de_world (handleDiscovery dial now d (de_world e)) (set_de_queues (de_beaconFound e) (de_discoveries e) rest e))
  | [] => None
  end.

(** [sendPeriodicHeartbeats]: [accepts a] says whether the command queue of the
    peer at [a] has room; its loop then sends the PING. *)
Fixpoint ping_loop (accepts choice : nat → bool) (peers : list nat) (heap : gmap nat ZPeer) : outcome (gmap nat ZPeer) :=
  match peers with
  | [] => Ret heap
  | a :: peers =>
      match heap !! a with
      | Some peer =>
          if zp_Connected peer && accepts a then
            match Peer_sendPing (choice a) peer with
            | (Panic e, _) => Panic e
            | (_, peer) => ping_loop accepts choice peers (<[a := peer]> heap)
            end
          else ping_loop accepts choice peers heap
      | None => ping_loop accepts choice peers heap
      end
  end.

Definition sendPeriodicHeartbeats (range : gmap bytes nat → list (bytes * nat)) (accepts choice : nat → bool) (w : ZWorld) : outcome ZWorld :=
  heap ← ping_loop accepts choice (range (zw_peers w)).*2 (zw_heap w); Ret (set_zw_heap heap w).

(** ** Commands *)

Inductive discoveryCmd : Type :=
| discover_peer (d : Discovery)
| set_beacon_port (port : Z).

(** The reply and the engine after the command; [None] when the beacon's loop
    is not there to answer. *)
Definition engine_handleCommand (cmd : discoveryCmd) (e : DiscoveryEngine) : option (option error * DiscoveryEngine) :=
  match cmd with
  | discover_peer d =>
      if decide (length (de_discoveries e) < 500)%nat
      then Some (None, set_de_queues (de_beaconFound e) (de_discoveries e ++ [d]) (de_peerDiscoveries e) e)
      else Some (Some (Errorf "discovery queue full"), e)
  | set_beacon_port port =>
      b ← SetPort_send port (de_beacon e); b ← beacon_turn b; b ← SetPort_recv b;
      Some (None, set_de_port port b e)
  end.

(** The text of a nil [net.IP]. *)
Definition nil_IP : bytes := gs "<nil>".

(** [DiscoverPeer] with the command handled; [addr] is not used. *)
Definition DiscoverPeer (uuid addr : bytes) (port : Z) : DiscoveryEngine → option (option error * DiscoveryEngine) :=
  engine_handleCommand (discover_peer (mkDiscovery uuid port nil_IP)).

Definition SetBeaconPort (port : Z) : DiscoveryEngine → option (option error * DiscoveryEngine) := engine_handleCommand (set_beacon_port port).

(** ** Statistics *)

Record PeerStatistics : Type := mkStatistics {
  st_TotalPeers : Z;
  st_ConnectedPeers : Z;
  st_Groups : gmap bytes Z;
  st_LastHeartbeat : gmap bytes Z }.

Definition count_peer (heap : gmap nat ZPeer) (s : PeerStatistics) (e : bytes * nat) : PeerStatistics :=
  match heap !! e.2 with
  | Some peer =>
      mkStatistics (st_TotalPeers s) (if zp_Connected peer then st_ConnectedPeers s + 1 else st_ConnectedPeers s) (st_Groups s)
        (<[e.1 := zp_LastSeen peer]> (st_LastHeartbeat s))
  | None => s
  end.

Definition count_group (s : PeerStatistics) (e : bytes * ZGroup) : PeerStatistics :=
  mkStatistics (st_TotalPeers s) (st_ConnectedPeers s) (<[e.1 := Z.of_nat (Group_MemberCount e.2)]> (st_Groups s)) (st_LastHeartbeat s).

Definition GetStatistics (range : gmap bytes nat → list (bytes * nat)) (range_groups : gmap bytes ZGroup → list (bytes * ZGroup)) (w : ZWorld) : PeerStatistics :=
  let stats := mkStatistics (Z.of_nat (size (zw_peers w))) 0 ∅ ∅ in
  let stats := foldl (count_peer (zw_heap w)) stats (range (zw_peers w)) in
  foldl count_group stats (range_groups (zw_groups w)).

(** ** Pings *)

(** What a PING leaves: the next sequence number, and the message unless 100
    are waiting. *)
Definition pinged (p : ZPeer) : ZPeer :=
  let seq := (zp_Sequence p + 1) mod 2 ^ 16 in
  let p' := set_zp_Sequence seq p in
  if decide (length (zp_outgoing p) < 100)%nat
  then set_zp_outgoing (zp_outgoing p ++ [mkZre ZreVersion MessageTypePing seq (replicate 16 x00) []]) p' else p'.

Lemma sendPing_open choice p : zp_closed p = false → ∃ r, Peer_sendPing choice p = (r, pinged p) ∧ ∀ e, r ≠ Panic e.
Proof.
  intros Hc. unfold Peer_sendPing, mbind, M_bind, mget, mupd, Peer_nextSequence. cbn. unfold Peer_Send, pinged. cbn. rewrite Hc.
  destruct (decide (length (zp_outgoing p) < 100)%nat); eexists; by split.
Qed.

Lemma ping_all accepts choice peers : ∀ h,
  NoDup peers → (∀ a p, a ∈ peers → h !! a = Some p → zp_Connected p = true ∧ zp_closed p = false) →
  ∃ h', ping_loop accepts choice peers h = Ret h' ∧
    ∀ a, h' !! a = (fun p => if decide (a ∈ peers ∧ accepts a = true) then pinged p else p) <$> h !! a.
Proof.
  induction peers as [|b peers IH]; intros h Hnd Hopen; cbn [ping_loop].
  - exists h. split; [done|]. intros a. destruct (h !! a); [|done]. cbn. rewrite decide_False; [done|set_solver].
  - apply NoDup_cons in Hnd as [Hb Hnd].
    assert (Hskip : (accepts b = false ∨ h !! b = None) → ∃ h', ping_loop accepts choice peers h = Ret h' ∧
      ∀ a, h' !! a = (fun p => if decide (a ∈ b :: peers ∧ accepts a = true) then pinged p else p) <$> h !! a).
    { intros Hno. destruct (IH h Hnd) as (h' & E & Hl); [intros a p Ha; apply Hopen; by right|]. exists h'. split; [done|].
      intros a. rewrite Hl. destruct (decide (a = b)) as [->|Hne]; [destruct Hno as [Hno|Hno]; [|by rewrite Hno]|].
      - destruct (h !! b); [|done]. cbn. rewrite !decide_False by (intros [_ ?]; congruence). done.
      - destruct (h !! a); [|done]. cbn. f_equal. repeat case_decide; set_solver. }
    destruct (h !! b) as [p|] eqn:Hp; [|by apply Hskip; right]. destruct (Hopen b p ltac:(by left) Hp) as [Hconn Hcl].
    rewrite Hconn. destruct (accepts b) eqn:Ha; cbn [andb]; [|by apply Hskip; left].
    destruct (sendPing_open (choice b) p Hcl) as (r & -> & Hr).
    destruct (IH (<[b := pinged p]> h) Hnd) as (h' & E & Hl).
    { intros a q Hin. rewrite lookup_insert_ne by (by intros ->). apply Hopen. by right. }
    exists h'. split; [destruct r; [done|done|by destruct (Hr msg)]|]. intros a. rewrite Hl. destruct (decide (a = b)) as [->|Hne].
    + rewrite lookup_insert_eq, Hp. cbn. rewrite decide_False by naive_solver. by rewrite decide_True by (split; [by left|done]).
    + rewrite lookup_insert_ne by done. destruct (h !! a); [|done]. cbn. f_equal. repeat case_decide; set_solver.
Qed.

Lemma known_NoDup range w : range_order range → zyre_ok w → NoDup (range (zw_peers w)).*2.
Proof.
  intros Hr (_ & Hps & _). apply NoDup_fmap_2_strong; [|by eapply NoDup_fmap_1, range_order_NoDup].
  intros [u a] [v b] Hu Hv. cbn. intros <-. apply range_order_elem in Hu, Hv; [|done..].
  by rewrite (peers_inj w u v a).
Qed.

(** A round of heartbeats never panics and pings every known peer once: in
    every state the managers can be in, and for every order in which the map is
    ranged over, each known peer whose command queue has room gets one PING at
    the end of its outgoing queue (none when 100 messages wait), with its next
    sequence number, modulo 2^16, and with a sender UUID of zeros; nothing else
    changes. *)
Theorem engine_pings range accepts choice n expiration w :
  range_order range → rtc z_step (zw_empty n expiration) w →
  ∃ h, sendPeriodicHeartbeats range accepts choice w = Ret (set_zw_heap h w) ∧
    (∀ u a p, zw_peers w !! u = Some a → zw_heap w !! a = Some p → h !! a = Some (if accepts a then pinged p else p)) ∧
    (∀ a, (∀ u, zw_peers w !! u ≠ Some a) → h !! a = zw_heap w !! a).
Proof.
  intros Hr Hreach. apply zyre_ok_run in Hreach as Hok; [|apply zyre_ok_empty]. pose proof Hok as (Hh & Hps & _).
  pose proof (fun a => range_order_vals range (zw_peers w) a Hr) as Hin.
  destruct (ping_all accepts choice (range (zw_peers w)).*2 (zw_heap w)) as (h & E & Hl).
  - by apply known_NoDup.
  - intros a p [u Hu]%Hin Hp. destruct (Hps u a Hu) as (q & Hq & _ & Hc). rewrite Hp in Hq. injection Hq as <-.
    split; [done|]. by apply (Hh a p Hp).
  - exists h. unfold sendPeriodicHeartbeats. rewrite E. split_and!; [done| |].
    + intros u a p Hu Hp. rewrite Hl, Hp. cbn. f_equal. destruct (accepts a).
      * rewrite decide_True; [done|]. split; [|done]. apply Hin. by exists u.
      * rewrite decide_False; [done|]. by intros [_ ?].
    + intros a Ha. rewrite Hl. destruct (zw_heap w !! a); [|done]. cbn. rewrite decide_False; [done|].
      intros [[u Hu]%Hin _]. by destruct (Ha u).
Qed.

Lemma engine_pings_witness :
  ∃ h, sendPeriodicHeartbeats map_to_list (fun _ => true) (fun _ => true) one_peer = Ret (set_zw_heap h one_peer) ∧
    zp_Sequence <$> h !! 0%nat = Some 1.
Proof.
  destruct (engine_pings map_to_list (fun _ => true) (fun _ => true) 9 5000 one_peer map_to_list_range_order one_peer_reachable) as (h & E & Hk & _).
  exists h. split; [exact E|].
  rewrite (Hk (fmt_x (replicate 16 x07)) 0%nat (set_zp_status true false (NewPeer 7 (replicate 16 x07) (gs "tcp://10.0.0.7:5670"))));
    vm_compute; reflexivity.
Defined.

(** ** Statistics *)

Lemma count_peers_spec (heap : gmap nat ZPeer) l : ∀ s,
  (∀ e, e ∈ l → ∃ p, heap !! e.2 = Some p ∧ zp_Connected p = true) →
  foldl (count_peer heap) s l =
  mkStatistics (st_TotalPeers s) (st_ConnectedPeers s + len l) (st_Groups s)
    (foldl (fun m e => match heap !! e.2 with Some p => <[e.1 := zp_LastSeen p]> m | None => m end) (st_LastHeartbeat s) l).
Proof.
  induction l as [|e l IH]; intros s Hall; cbn [foldl].
  - destruct s. cbn. by rewrite Z.add_0_r.
  - destruct (Hall e ltac:(by left)) as (p & Hp & Hc). rewrite IH by (intros e' He'; apply Hall; by right).
    unfold count_peer. rewrite Hp, Hc. cbn. f_equal. unfold len. cbn [length]. lia.
Qed.

Lemma last_seen_spec (heap : gmap nat ZPeer) (l : list (bytes * nat)) u : ∀ m : gmap bytes Z, NoDup l.*1 →
  foldl (fun m e => match heap !! e.2 with Some p => <[e.1 := zp_LastSeen p]> m | None => m end) m l !! u =
  ((list_to_map l : gmap bytes nat) !! u ≫= fun a => zp_LastSeen <$> heap !! a) ∪ m !! u.
Proof.
  induction l as [|[v a] l IH]; intros m Hnd; cbn [foldl].
  - cbn. rewrite lookup_empty. cbn. by destruct (m !! u).
  - cbn [fmap list_fmap] in Hnd. apply NoDup_cons in Hnd as [Hv Hnd]. rewrite IH by done. cbn [fst snd list_to_map foldr uncurry] in *.
    destruct (decide (u = v)) as [->|Hne].
    + apply not_elem_of_list_to_map_1 in Hv. rewrite Hv, !lookup_insert_eq. cbn.
      destruct (heap !! a) as [p|]; cbn; [rewrite lookup_insert_eq|]; by destruct (m !! v).
    + rewrite lookup_insert_ne by done. f_equal. destruct (heap !! a); [|done]. by rewrite lookup_insert_ne.
Qed.

Lemma count_groups_spec l : ∀ s,
  foldl count_group s l = mkStatistics (st_TotalPeers s) (st_ConnectedPeers s)
    (foldl (fun m kv => <[kv.1 := kv.2]> m) (st_Groups s) (prod_map id (fun g => Z.of_nat (Group_MemberCount g)) <$> l)) (st_LastHeartbeat s).
Proof. induction l as [|e l IH]; intros s; [by destruct s|]. cbn [foldl]. by rewrite IH. Qed.

(** The statistics are those of the managers: the number of known peers,
    when each was last seen and the size of every group; and since every known
    peer is connected, the number of connected peers is always the total. *)
Theorem engine_statistics range range_groups n expiration w :
  range_order range → range_order range_groups → rtc z_step (zw_empty n expiration) w →
  let s := GetStatistics range range_groups w in
  st_TotalPeers s = Z.of_nat (size (zw_peers w)) ∧ st_ConnectedPeers s = st_TotalPeers s ∧
  st_Groups s = (fun g => Z.of_nat (Group_MemberCount g)) <$> zw_groups w ∧
  ∀ u, st_LastHeartbeat s !! u = zw_peers w !! u ≫= fun a => zp_LastSeen <$> zw_heap w !! a.
Proof.
  intros Hr Hg Hreach. apply zyre_ok_run in Hreach as (_ & Hps & _); [|apply zyre_ok_empty]. intros s. unfold s, GetStatistics.
  rewrite count_groups_spec, count_peers_spec.
  2:{ intros [u a] Hu%range_order_elem; [|done]. destruct (Hps u a Hu) as (p & Hp & _ & Hc). by exists p. }
  cbn [st_TotalPeers st_ConnectedPeers st_Groups st_LastHeartbeat]. split_and!.
  - done.
  - unfold len. by rewrite range_order_length.
  - rewrite (foldl_insert_perm _ (map_to_list ((fun g => Z.of_nat (Group_MemberCount g)) <$> zw_groups w))).
    + apply list_to_map_to_list.
    + rewrite <- list_fmap_compose. by apply (range_order_NoDup range_groups (zw_groups w)).
    + by rewrite map_to_list_fmap, (Hg (zw_groups w)).
  - intros u. rewrite last_seen_spec by (by apply range_order_NoDup).
    rewrite (list_to_map_proper _ (map_to_list (zw_peers w))); [|by apply range_order_NoDup|apply Hr].
    rewrite list_to_map_to_list, lookup_empty. by destruct (_ ≫= _).
Qed.

Lemma engine_statistics_witness :
  let s := GetStatistics map_to_list map_to_list one_peer in st_ConnectedPeers s = st_TotalPeers s ∧ st_TotalPeers s = 1.
Proof.
  intros s. destruct (engine_statistics map_to_list map_to_list 9 5000 one_peer map_to_list_range_order map_to_list_range_order one_peer_reachable)
    as (H1 & H2 & _). split; [exact H2|]. etransitivity; [exact H1|]. vm_compute. reflexivity.
Defined.

(** ** Peers that are kept *)

Lemma fresh_not_expired now now' timeout p : now' - now <= timeout → Peer_IsExpired now' timeout (Peer_UpdateLastSeen now p) = false.
Proof. intros H. unfold Peer_IsExpired. cbn. apply bool_decide_eq_false. lia. Qed.

(** A discovery keeps a peer in its groups: the engine counts every discovery
    it forwards as a heartbeat, and for as long as the timeout says after the
    heartbeat was handled, its check for expired peers does not touch the
    peer's memberships. *)
Theorem heartbeat_keeps_member range range_groups (manual : bool) now now1 now2 e d rest g a p :
  range_order range → range_order range_groups →
  (if manual then de_discoveries e else de_beaconFound e) = d :: rest →
  (length (de_peerDiscoveries e) < 100)%nat → de_heartbeats e = [] →
  zw_peers (de_world e) !! fmt_x (ds_UUID d) = Some a → zw_heap (de_world e) !! a = Some p →
  member g (fmt_x (ds_UUID d)) (de_world e) → now2 - now1 <= de_peerTimeout e →
  ∃ e1 e2, engine_discovery_turn manual now e = Some e1 ∧ heartbeat_turn now1 e1 = Some e2 ∧
    de_peerDiscoveries e2 = de_peerDiscoveries e ++ [d] ∧
    member g (fmt_x (ds_UUID d)) (engine_checkExpiredPeers range range_groups now2 (de_peerTimeout e) (de_world e2)).
Proof.
  intros Hr Hg Hq Hroom Hh Hu Hp Hm Ht. unfold engine_discovery_turn. rewrite decide_True, Hq by done. eexists. eexists. split; [reflexivity|].
  unfold heartbeat_turn, SendHeartbeat. cbn [de_heartbeats set_de_queues]. rewrite Hh, decide_True by (cbn; lia).
  cbn [de_heartbeats set_de_heartbeats app]. split; [reflexivity|]. split; [by destruct manual|].
  cbn [de_world set_de_heartbeats set_de_world set_de_queues hb_PeerUUID]. unfold engine_processHeartbeat. rewrite Hu.
  apply engine_member; [done|done|]. split; [exact Hm|]. intros (b & q & Hb & Hq' & He)%elem_of_expired; [|done].
  cbn in Hb, Hq'. rewrite Hu in Hb. injection Hb as <-. rewrite lookup_alter_eq, Hp in Hq'. cbn in Hq'. injection Hq' as <-.
  by rewrite fresh_not_expired in He.
Qed.

(** ** Manual discoveries and configurations *)

Lemma SendHeartbeat_frame now u source e : ∃ hs, SendHeartbeat now u source e = set_de_heartbeats hs e.
Proof. unfold SendHeartbeat. case_decide; [by eexists|]. exists (de_heartbeats e). by destruct e. Qed.

(** A peer cannot be discovered by its address: [DiscoverPeer] drops the
    address it is given, so the peer manager dials tcp://<nil> at the port,
    whatever the address was; a new peer is then known under that endpoint or,
    when the connection fails, not at all. *)
Theorem discover_without_address dial now uuid addr addr' port e :
  de_discoveries e = [] → de_peerDiscoveries e = [] → port ≠ 0 →
  zw_peers (de_world e) !! fmt_x uuid = None →
  DiscoverPeer uuid addr port e = DiscoverPeer uuid addr' port e ∧
  ∃ e1 e2 e3, DiscoverPeer uuid addr port e = Some (None, e1) ∧ engine_discovery_turn true now e1 = Some e2 ∧
    engine_peers_turn dial now e2 = Some e3 ∧
    let endpoint := gs "tcp://<nil>:" ++ gs (pretty port) in
    if dial endpoint then ∃ a p, zw_peers (de_world e3) !! fmt_x uuid = Some a ∧ zw_heap (de_world e3) !! a = Some p ∧ zp_Endpoint p = endpoint
    else de_world e3 = de_world e.
Proof.
  intros Hd Hp Hport Hu. split; [done|]. unfold DiscoverPeer, engine_handleCommand. rewrite decide_True by (rewrite Hd; cbn; lia).
  set (d := mkDiscovery uuid port nil_IP). set (e2 := set_de_queues (de_beaconFound e) [] [d] e).
  destruct (SendHeartbeat_frame now uuid (gs "manual") e2) as [hs Hhs].
  eexists. exists (set_de_heartbeats hs e2). eexists. split; [reflexivity|]. rewrite <- Hhs at 1. split.
  { unfold engine_discovery_turn. cbn [de_peerDiscoveries de_discoveries set_de_queues]. by rewrite Hp, Hd, decide_True by (cbn; lia). }
  unfold engine_peers_turn. cbn [de_peerDiscoveries set_de_queues set_de_heartbeats e2].
  split; [reflexivity|]. cbn [de_world set_de_queues set_de_heartbeats set_de_world]. unfold handleDiscovery. cbn [ds_UUID ds_Port d e2 set_de_queues de_world].
  rewrite decide_False, Hu by done. unfold Peer_Start. cbn [zp_Connected NewPeer zp_Endpoint].
  change (endpoint_of d) with (gs "tcp://<nil>:" ++ gs (pretty port)).
  destruct (dial _); [|done]. eexists _, _. cbn. split; [by rewrite lookup_insert_eq|]. by rewrite lookup_insert_eq.
Qed.

Lemma discover_without_address_witness :
  let e := NewDiscoveryEngine (replicate 16 x01) (gs "me") 5670 None in
  DiscoverPeer (replicate 16 x05) (gs "10.0.0.5") 5555 e = DiscoverPeer (replicate 16 x05) (gs "10.0.0.6") 5555 e.
Proof.
  intros e. apply (discover_without_address (fun _ => true) 0 (replicate 16 x05) (gs "10.0.0.5") (gs "10.0.0.6") 5555 e); [done|done|lia|done].
Defined.

(** An engine starts with the default configuration; with one of its own, a
    heartbeat interval that is not positive or a peer timeout below 2
    nanoseconds, as when the field is left out, makes the loops panic. *)
Theorem engine_start_config uuid name port config :
  (∃ e, Engine_Start (NewDiscoveryEngine uuid name port None) = Ret e ∧ de_running e = true ∧ bn_running (de_beacon e) = true) ∧
  ((∃ msg, Engine_Start (NewDiscoveryEngine uuid name port (Some config)) = Panic msg) ↔ dc_HeartbeatInterval config <= 0 ∨ dc_PeerTimeout config < 2).
Proof.
  split; [by eexists|]. unfold Engine_Start, NewDiscoveryEngine, NewTicker. cbn.
  destruct (decide (dc_HeartbeatInterval config <= 0)); cbn; [naive_solver|].
  assert (Hq : Z.quot (dc_PeerTimeout config) 2 <= 0 ↔ dc_PeerTimeout config < 2).
  { Z.to_euclidean_division_equations. lia. }
  destruct (decide (Z.quot (dc_PeerTimeout config) 2 <= 0)); cbn; naive_solver.
Qed.
