(* ===== verification/ZyreManagers.v ===== *)
(** * ZyreManagers: the goroutines of the Zyre managers

    The group manager and a group (src/zyre/group.go), the peer manager (peer.go) and the
    discovery engine (discovery.go) as [Server]s of Actor: their [commandLoop]s,
    with everything else that happens to the state they share as their other
    goroutines, and what [Stop] of the peer manager leaves. The node's own loop
    is in ZyreNode. *)

From Stdlib Require Import Strings.Byte ZArith Lia.
From stdpp Require Import base strings numbers gmap relations list.
From S2P Require Import Prelude Reader Actor ZyreMessage ZyreEvents ZyrePeers ZyrePeersFacts ZyreEngine.

#[local] Open Scope Z_scope.
#[local] Set Default Goal Selector "!".

(** ** The group manager *)

#[export] Instance group_server : Server ZWorld group_cmd group_reply unit := {|
  srv_cap := 100;
  srv_handle _ cmd w := let '(r, w') := group_handleCommand cmd w in Some (Some r, w');
  srv_bg := z_step |}.

Definition groupActor : Type := actor ZWorld group_cmd group_reply.
Definition GroupManager_Start (n : nat) (expiration : Z) : groupActor := actor_start (zw_empty n expiration).
Definition GroupManager_commandLoop : unit → groupActor → option groupActor := actor_turn.

(** What the callers make of a reply: [GetGroup] and [CreateGroup] return the
    group or an error, [ListGroups] the map, the others the error. *)
Definition GetGroup_result (r : group_reply) : outcome bytes :=
  match r with RGroup name => Ret name | RErr e => Fail e | _ => Panic "interface conversion" end.
Definition group_error (r : group_reply) : option error := match r with RErr e => Some e | _ => None end.

(** ** The peer manager *)

Inductive peer_cmd : Type := get_peer (uuid : bytes).

#[export] Instance peer_server : Server ZWorld peer_cmd (option nat) unit := {|
  srv_cap := 50;
  srv_handle _ cmd w := match cmd with get_peer uuid => Some (Some (zw_peers w !! uuid), w) end;
  srv_bg := z_step |}.

Definition peerActor : Type := actor ZWorld peer_cmd (option nat).
Definition PeerManager_Start (n : nat) (expiration : Z) : peerActor := actor_start (zw_empty n expiration).
Definition PeerManager_commandLoop : unit → peerActor → option peerActor := actor_turn.

(** [GetPeers]: a copy of the map. *)
Definition GetPeers (range : gmap bytes nat → list (bytes * nat)) (w : ZWorld) : gmap bytes nat :=
  foldl (fun m kv => <[kv.1 := kv.2]> m) ∅ (range (zw_peers w)).

(** What [Stop] does when the goroutines have returned: the known peers are
    stopped; they stay in the map. *)
Definition PeerManager_Stop (range : gmap bytes nat → list (bytes * nat)) (w : ZWorld) : ZWorld :=
  foldl (fun w kv => upd_peer Peer_Stop kv.2 w) w (range (zw_peers w)).

(** ** A group *)

(** The goroutine that serves the commands of the group [name], while the manager
    has it; what else happens to the state are the steps of the managers, and the
    turns of the group's [messageLoop]. *)
Inductive member_cmd : Type := cmd_add_member (peer : nat) | cmd_remove_member (peerUUID : bytes).

Definition member_handleCommand (name : bytes) (cmd : member_cmd) (w : ZWorld) : option (option (option error) * ZWorld) :=
  g ← zw_groups w !! name;
  Some (Some None, match cmd with cmd_add_member a => add_member name g a w | cmd_remove_member u => remove_member name g u w end).

Definition member_server (name : bytes) : Server ZWorld member_cmd (option error) unit := {|
  srv_cap := 50;
  srv_handle _ cmd w := member_handleCommand name cmd w;
  srv_bg := z_step |}.

Definition memberActor : Type := actor ZWorld member_cmd (option error).
Definition Group_Start (w : ZWorld) : memberActor := actor_start w.
Definition Group_commandLoop (name : bytes) : unit → memberActor → option memberActor := actor_turn (srv := member_server name).

(** [Members]: a copy of the map. *)
Definition Group_Members (range : gmap bytes nat → list (bytes * nat)) (g : ZGroup) : gmap bytes nat :=
  foldl (fun m kv => <[kv.1 := kv.2]> m) ∅ (range (gp_members g)).

(** ** The discovery engine *)

(** The other goroutines: the turns of [discoveryLoop], of [heartbeatLoop]
    and its ticks, of [expirationLoop], and of the peer manager. *)
Inductive engine_bg : DiscoveryEngine → DiscoveryEngine → Prop :=
| eb_discovery manual now e e' : engine_discovery_turn manual now e = Some e' → engine_bg e e'
| eb_heartbeat now e e' : heartbeat_turn now e = Some e' → engine_bg e e'
| eb_pings range accepts choice e w :
    range_order range → sendPeriodicHeartbeats range accepts choice (de_world e) = Ret w → engine_bg e (set_de_world w e)
| eb_expire range range_groups now e :
    range_order range → range_order range_groups →
    engine_bg e (set_de_world (engine_checkExpiredPeers range range_groups now (de_peerTimeout e) (de_world e)) e)
| eb_peers dial now e e' : engine_peers_turn dial now e = Some e' → engine_bg e e'.

#[export] Instance engine_server : Server DiscoveryEngine discoveryCmd (option error) unit := {|
  srv_cap := 100;
  srv_handle _ cmd e := '(r, e') ← engine_handleCommand cmd e; Some (Some r, e');
  srv_bg := engine_bg |}.

Definition engineActor : Type := actor DiscoveryEngine discoveryCmd (option error).
Definition engine_commandLoop : unit → engineActor → option engineActor := actor_turn.
(** ** Facts *)

Lemma group_handle_total (e : unit) (cmd : group_cmd) w : is_Some (srv_handle e cmd w).
Proof. cbn. destruct (group_handleCommand cmd w). by eexists. Qed.

(** The managers share a consistent state in every interleaving of their
    callers, loops and [Stop]; while the goroutine of the group manager runs,
    all commands queued can be served; and the peer that [GetPeer] finds has the
    UUID that was asked for, and its groups are those it is a member of. *)
Theorem zyre_managers_run n expiration :
  (∀ ls (s : groupActor), actor_run (GroupManager_Start n expiration) ls s → zyre_ok (at_state s) ∧
     (at_loop s = true → ∃ ls' s', actor_run s ls' s' ∧ served ls' = at_queue s ∧ at_queue s' = [])) ∧
  (∀ ls (s : peerActor) k id a, actor_run (PeerManager_Start n expiration) ls s → ls !! k = Some (LReturn id (Some a)) →
     ∃ u w p, (id, get_peer u) ∈ called ls ∧ zyre_ok w ∧ zw_heap w !! a = Some p ∧ fmt_x (zp_UUID p) = u ∧ zp_Connected p = true).
Proof.
  split.
  - intros ls s Hrun. split.
    + eapply (actor_invariant zyre_ok (fun _ => True)); [exact Hrun|apply zyre_ok_empty| | |done].
      * intros e cmd w r w' _ Hok. cbn. pose proof (group_handleCommand_ok cmd w Hok) as H.
        destruct (group_handleCommand cmd w). by intros [= _ <-].
      * intros w w' Hs. by apply z_step_ok.
    + intros Hl. destruct (actor_drains tt s Hl (group_handle_total tt)) as (ls' & s' & ? & ? & ? & _). by exists ls', s'.
  - intros ls s k id a Hrun Hk. destruct (actor_invariant zyre_ok (fun _ => True) _ ls s Hrun (zyre_ok_empty n expiration)) as [_ H]; try done.
    + intros e [u] w r w' _ Hok [= _ <-]. done.
    + intros w w' Hs. by apply z_step_ok.
    + destruct (H k id (Some a) Hk) as (e & [u] & w & w' & Hin & Hok & [= Ha _]). pose proof Hok as (_ & Hp & _).
      destruct (Hp u a Ha) as (p & Hpa & Hu & Hc). by exists u, w, p.
Qed.

(** A group keeps the shared state consistent in every interleaving, its callers
    get no error, and a peer that was added is a member then and knows it. *)
Theorem group_loop_runs name w0 ls (s : memberActor) :
  zyre_ok w0 → actor_run (srv := member_server name) (Group_Start w0) ls s →
  zyre_ok (at_state s) ∧ (∀ k id r, ls !! k = Some (LReturn id r) → r = None) ∧
  (∀ a w p, zyre_ok w → zw_heap w !! a = Some p → is_Some (zw_groups w !! name) →
     ∃ w' g p', member_handleCommand name (cmd_add_member a) w = Some (Some None, w') ∧ zw_groups w' !! name = Some g ∧
       Group_HasMember (fmt_x (zp_UUID p)) g = true ∧ zw_heap w' !! a = Some p' ∧ Peer_InGroup name p' = true).
Proof.
  intros H0 Hrun. destruct (actor_invariant (srv := member_server name) zyre_ok (fun _ => True) _ ls s Hrun H0) as [H1 H2]; try done.
  - intros e cmd w r w' _ Hok. cbn. unfold member_handleCommand. intros (g & Hg & E)%bind_Some. injection E as _ <-.
    destruct cmd; [by apply add_member_ok|by apply remove_member_ok].
  - intros w w' Hs. by apply z_step_ok.
  - split_and!; [done| |].
    + intros k id r Hk. destruct (H2 k id r Hk) as (e & c & w1 & w2 & _ & _ & Hh). cbn in Hh. unfold member_handleCommand in Hh.
      apply bind_Some in Hh as (g & _ & Hh). by injection Hh.
    + intros a w p (_ & _ & Hgs) Hp [g Hg]. unfold member_handleCommand. rewrite Hg. cbn. unfold add_member. rewrite Hp.
      destruct (Hgs name g Hg) as (Hname & _). eexists _, _, _. split; [reflexivity|]. cbn. rewrite lookup_insert_eq, lookup_alter_eq, Hp.
      split_and!; [done| |done|].
      * unfold Group_HasMember. apply bool_decide_eq_true_2. cbn. rewrite lookup_insert_eq. by eexists.
      * unfold Peer_InGroup. apply bool_decide_eq_true_2. cbn. rewrite Hname. apply elem_of_union. left. by apply elem_of_singleton.
Qed.

Lemma stop_peers_lookup (l : list (bytes * nat)) : ∀ w b,
  zw_heap (foldl (fun w kv => upd_peer Peer_Stop kv.2 w) w l) !! b =
    (if decide (b ∈ l.*2) then Peer_Stop <$> zw_heap w !! b else zw_heap w !! b) ∧
  zw_peers (foldl (fun w kv => upd_peer Peer_Stop kv.2 w) w l) = zw_peers w.
Proof.
  assert (Hidem : ∀ p, Peer_Stop (Peer_Stop p) = Peer_Stop p).
  { intros p. unfold Peer_Stop at 2 3. destruct (zp_Connected p) eqn:E; [done|]. unfold Peer_Stop. by rewrite E. }
  induction l as [|[u a] l IH]; intros w b; cbn [foldl fmap list_fmap].
  - split; [|done]. by rewrite decide_False by apply not_elem_of_nil.
  - destruct (IH (upd_peer Peer_Stop a w) b) as [E1 E2]. cbn [snd]. rewrite E1, E2. split; [|done]. cbn.
    destruct (decide (a = b)) as [->|Hne].
    + rewrite lookup_alter_eq, (decide_True (P := b ∈ b :: l.*2)) by left. case_decide; [|done].
      destruct (zw_heap w !! b); cbn; [|done]. by rewrite Hidem.
    + rewrite lookup_alter_ne by done. repeat case_decide; set_solver.
Qed.

(** [Stop] closes every known peer and no other; the peers stay in the map, so
    that the manager still lists them. *)
Theorem peer_manager_stop range n expiration w :
  range_order range → rtc z_step (zw_empty n expiration) w →
  GetPeers range (PeerManager_Stop range w) = zw_peers w ∧
  (∀ u a, zw_peers w !! u = Some a →
     ∃ p, zw_heap (PeerManager_Stop range w) !! a = Some p ∧ zp_Connected p = false ∧ zp_closed p = true) ∧
  (∀ a, (∀ u, zw_peers w !! u ≠ Some a) → zw_heap (PeerManager_Stop range w) !! a = zw_heap w !! a).
Proof.
  intros Hr Hrun. apply zyre_ok_run in Hrun as (_ & Hp & _); [|apply zyre_ok_empty].
  pose proof (fun a => range_order_vals range (zw_peers w) a Hr) as Hin.
  pose proof (fun b => stop_peers_lookup (range (zw_peers w)) w b) as Hs. split_and!.
  - unfold GetPeers, PeerManager_Stop. destruct (Hs 0%nat) as [_ ->]. by apply range_order_insert.
  - intros u a Ha. unfold PeerManager_Stop. destruct (Hs a) as [-> _]. destruct (Hp u a Ha) as (p & Hpa & _ & Hc).
    rewrite decide_True by (apply Hin; by exists u). rewrite Hpa. cbn. eexists. split; [done|]. unfold Peer_Stop. by rewrite Hc.
  - intros a Ha. unfold PeerManager_Stop. destruct (Hs a) as [-> _]. rewrite decide_False; [done|]. intros [u Hu]%Hin. by destruct (Ha u).
Qed.
